(* ===== verification/_CoqProject ===== *)
-Q . S2P
Prelude.v
Permissions.v
Proto.v
Types.v
Store.v
Wire.v
Persistence.v
State.v
World.v
Acl.v
Session.v
Ops.v
Auth.v
Voice.v
Handlers.v
Dispatch.v
Startup.v
RoomTree.v
Client.v
Mirror.v
Narration.v
MumbleVoice.v
PreRoll.v
Reconcile.v
Bridge.v
BridgeSync.v
BridgeTraffic.v
Relay.v
RelayFacts.v
Jitter.v
JitterFacts.v
Pipeline.v
Processors.v
Playback.v
PlaybackFacts.v
AudioTask.v
AudioTaskFacts.v
MediaClock.v
Handshake.v
HandshakeFacts.v
Connection.v
ConnectionFacts.v
ConnectionRest.v
Streams.v
Transfers.v
TransfersFacts.v
TransfersSafe.v
TransfersWhole.v
TransfersCross.v
LinkCleaner.v
WebAuth.v
WebAdmin.v
WebFacts.v
WebOps.v
