(* ===== verification/Prelude.v ===== *)
(** A verification of Rumble, a voice-chat system of a server, clients and a
    bridge to Mumble ([crates/] of the repository).

    * The program

    The server keeps a tree of rooms, the users in them, groups and per-room
    ACLs.  Clients talk to it over QUIC: length-delimited protobuf envelopes on a
    stream, voice as datagrams.  The server mutates its state, persists what has
    to survive, and broadcasts each change together with a hash of the state it
    should lead to; a client folds the broadcasts into its own copy and asks for
    the full state when the hashes differ.  Plugins of the server keep shared
    files in memory for a while, serve the web pages administrators use (which
    post protocol messages back to the server's loop), and answer links in a chat
    with cleaned ones.  The bridge is one more client, which keeps a
    copy of the server's rooms and users and presents it to Mumble clients,
    registering a participant on the server for each of them.  In the client an
    audio task of its own runs the microphone through a pipeline of processors
    and an encoder, and plays what arrives through a jitter buffer per peer, a
    mixer and a ring of samples; a connection task of its own makes and gives up
    the connection, with a receiver task per connection.

    * The files

    The protocol ([crates/rumble-protocol]):
    - Permissions: [permissions.rs], permission bits, groups, ACL evaluation;
    - Proto: the records prost generates from [proto/api.proto];
    - Types: [types.rs] and the room-id helpers of [lib.rs];
    - Wire: framing, canonical state hash, ACL version and signed payloads of
      [lib.rs], and the read loop of the server's [server.rs].

    The server ([crates/server]):
    - Store: interfaces of sled and bincode, with instances that satisfy them;
    - Persistence: [persistence.rs], the ten trees and their typed operations;
    - State: [state.rs], rooms, members, sessions, rate limiter;
    - World: the server as one state, and the two ways of sending;
    - Acl: [acl.rs]; Ops: [ops.rs]; Auth: the login part of [handlers.rs];
      Voice: its voice and chat part; Handlers: its other handlers; Session:
      the end of a connection; Dispatch: [handle_envelope], the plugins and a
      new connection; Startup: loading what was stored;
    - Relay: the file relay, [relay_plugin.rs], as interleaved tasks; RelayFacts:
      its theorems;
    - WebAuth: the credentials of the web administration, [web/auth.rs]
      (sessions, throttle, cookie, setup token); WebAdmin: its routes,
      [api.rs], [monitor.rs] and [mod.rs], as requests that are suspended where
      bcrypt runs and answered in any order; WebFacts: who gets in; WebOps: what
      the pages do to the rooms, against Ops;
    - LinkCleaner: the rules of [link_cleaner.rs].

    The client ([crates/rumble-client], [crates/rumble-audio]):
    - RoomTree: the derived room tree of [events.rs];
    - Client: [handle_server_message] of [handle.rs] and [projection.rs];
    - Mirror and Narration: what the server broadcasts against what the client
      makes of it;
    - PreRoll: [preroll.rs]; Jitter: [UserAudioState] of [audio_task.rs], with
      its theorems in JitterFacts;
    - Pipeline: the library [rumble-audio]; Processors: the gain, the denoiser
      and the gate of [processors/];
    - Playback: the mixer, the ring and the output callback of [audio_task.rs],
      with its theorems in PlaybackFacts;
    - AudioTask: its event loop and the microphone's callback, with its theorems
      in AudioTaskFacts and MediaClock;
    - Handshake: verifying the server's certificate and logging in ([cert.rs],
      [auth.rs], [cert_verifier.rs], [connect_to_server]), with its theorems,
      which run it against Auth, in HandshakeFacts;
    - Connection: [run_connection_task], [run_receiver_task] and
      [route_command] of [handle.rs]; ConnectionFacts: the tasks as an abstract
      machine, its invariants; ConnectionRest: what the user sees at rest;
    - Streams: the streams plugins use, on both sides ([transport.rs],
      [plugin.rs], the routing in [server.rs] and [handle.rs]);
    - Transfers: the file-transfer plugin, [file_transfer_relay.rs], as
      interleaved tasks on its table and the files; its theorems in
      TransfersFacts (names, paths and events), TransfersSafe (whose files are
      touched), TransfersWhole (what a finished download is) and TransfersCross
      (two clients and the relay together).

    The bridge ([crates/mumble-bridge]):
    - MumbleVoice: [mumble_voice.rs]; Reconcile: the id maps of [state.rs] and
      [reconcile.rs]; Bridge: the event loop of [bridge.rs], the client table
      of [mumble_server.rs] and the reconnection of [main.rs];
    - BridgeSync and BridgeTraffic: the theorems about the loop.

    * How the model reads

    A struct is a record, an enum an inductive type, with the names of the
    source.  A handler is a function in the state monad [ST] of this file over
    the state of its component ([World] in the server, [Bridge], the client's
    [State], the audio task's [Task]), its calls in the order of the code, errors
    as [result]; what it sends is appended to a log in the state.  Shared objects
    behind an [Arc] are locations in heaps of the [World], since the code mutates
    them through several owners.  Clocks, random values and environment variables
    are arguments.  Threads and tasks that share memory (the relay, playback, the
    audio task, the connection's tasks, the transfers, the web requests) are events
    or program counters that interleave in every order.
    Third-party code (sled, bincode, prost's encoder, BLAKE3, SHA-256, Ed25519,
    serde_json, hex, base64, bcrypt, uuid, url, the codec, RNNoise, the sample
    ring, [libm]) is a parameter:
    a class or a function argument, with laws where a theorem needs them and an
    instance that satisfies them; a theorem about hashes speaks of the bytes that
    are hashed.  Hash maps are finite maps; where the order of an iteration shows,
    it is an argument.  Floats are the IEEE numbers of [SpecFloat].

    * What is shown

    - Logging in: [authenticate_spec] (a login succeeds exactly when every check
      passes, and what it then does), [bans_hold_at_login]; from the client's
      side [login_conversation] (the two programs, run against each other, agree),
      [login_is_bound] (a signature is of no use elsewhere) and
      [trust_on_first_use].
    - The client's connection: [no_ghost_connections], [connection_is_kept],
      [disconnect_is_final]; [rest_is_truthful] for tasks that take turns, with
      two interleavings that break it.
    - Permissions: [effective_permissions_spec], [dispatch_gates],
      [denied_changes_nothing]; with the lemmas [evaluation_bounds] and
      [room_chain_sound] on the way.
    - Operations on the room tree, groups and users: [move_room_spec] (no
      cycles), [apply_set_room_acl_spec], [kick_and_ban_spec], the invariant
      [state_operations_preserve_wf], and lemmas for the other operations.
    - Voice and chat reach exactly whom they should: [voice_relay_spec],
      [chat_delivery_spec], and across the bridge [bridge_voice_spec].
    - Replication: [followers_stay_in_step], [resync_recovers],
      [checkpoint_exact], and for the bridge [reconcile_spec],
      [mumble_clients_follow], [late_joiner_in_step], [participants_accounted].
    - Files: [relay_bounded], [relay_keeps_what_was_admitted] and
      [relay_downloads_confined] of the server's cache; [own_files_are_safe],
      [finished_download_is_complete] and [events_tell_every_stage] of the
      client's plugin; [file_crosses_the_relay] of the two together, from the file
      of one user to the file of another; [secondary_streams_are_routed] of the
      streams they use.
    - Hearing: [jitter_bounds], [plays_in_order], [ended_stream_falls_silent];
      [mix_treats_peers_apart], [refill_tops_up], [playback_lossless] and
      [clicks_are_bounded] carry the frames to the sound card.
    - Being heard: [muted_is_silent], [spurts_are_ended], [media_clock_advances]
      and [datagrams_follow_capture] for every run of the audio task;
      [gate_follows_its_settings], [denoise_is_a_delay_line] for what the
      microphone passes through; [live_outputs_addressed] for what the settings
      window reads of it.
    - Encodings: [voice_packet_round_trip], the read loop's independence of
      chunking [read_loop_chunking], [plugin_frames_round_trip], and lemmas for
      the others.
    - Persistence across a restart: [startup_restores_rooms].
    - Web administration: [admin_is_earned] (nothing is changed or disclosed except to the
      server's own user, to a session opened with the password, or for the setup
      token),
      [guesses_are_bounded] (how many passwords can be tried),
      [web_path_is_protocol_path] (a page changes what the protocol's message of
      the same name changes) and [acl_editor_spec]; with the lemma
      [session_cookie_round_trip].
    - Links: [glob_match_spec] and [clean_text_spec], with the lemma
      [extract_urls_spec].

    * Fuel and bounds

    Loops over lists are structural.  The walks up the room tree
    ([Acl.walk_up], [Handlers.would_cycle]) carry a bound from the code itself or
    the number of rooms, which [room_chain_sound] shows to be enough; the descents
    ([Voice.bfs]) and the reconciliation queue take the number of rooms plus one,
    and their theorems state that the loop then ends with its queue empty.  The
    read loop takes the length of its buffer: a frame consumes at least one byte;
    so do the denoiser's chunks.  The refill of the ring takes the frames of its
    target depth, which [refill_tops_up] shows to be enough, and the jitter buffer
    trims at most its own size; the fuel of the link scanner is the length of the
    text, which [LinkCleaner.extract_fuel] shows to be enough.  Widths that matter are kept: [u32] masks,
    sequence numbers and identifiers, saturating and wrapping arithmetic, [usize]
    and [u64] varints.  [media_clock_advances] states the bounds within which the
    frame counter does not wrap.

    * What is not modelled

    - Interleavings at await points of the server's handlers and of the bridge's
      events: these run one after the other.  (The heaps of the [World] keep the
      aliasing, so a handler that reads a member twice sees its own writes.)  An
      arm of the audio task is one step with respect to the device callbacks.
    - TLS, sockets, timers and configuration: input and output through
      third-party crates.
    - The audio half of the client's [State] and the synthesis of notification
      sounds.
    - The user interface, the browser half of the web administration, video, the
      echo bot and the link cleaner's posting of its replies; plugins are
      parameters of the dispatcher.

    * This file

    The notions every component shares.  Bytes are [Byte.byte] (a Rust [u8]), a
    [Vec<u8>] or [&[u8]] is a list of them, a Rust [[u8; n]] is an [array n] (a
    list of bytes of that length), and a Rust [String] is the Standard Library's
    [string], the sequence of its UTF-8 bytes.  Unsigned integers are [N], kept at
    their width by the definitions that compute with them.  Fallible calls return
    [result], and stateful code is written in the state monad [ST];
    [ST S (result A)] is code that threads a state and can fail, with [try_bind]
    for Rust's [?]. *)
From Stdlib Require Import NArith ZArith Lia String Strings.Byte.
From stdpp Require Import base gmap strings list sorting.

Declare Scope rumble_scope.
Delimit Scope rumble_scope with rumble.
#[global] Open Scope rumble_scope.
#[global] Open Scope list_scope.

(* ------------------------------------------------------------------ *)
(** * Bytes and fixed-size arrays *)

Abbreviation byte := Byte.byte.
Abbreviation bytes := (list Byte.byte).

#[export] Instance byte_eq_dec : EqDecision byte := Byte.byte_eq_dec.

#[export] Program Instance byte_countable : Countable byte :=
  inj_countable Byte.to_N Byte.of_N _.
Next Obligation. intros b. apply Byte.of_to_N. Qed.

(** [n as u8]: the low eight bits. *)
Definition byte_of_N (n : N) : byte :=
  match Byte.of_N (n mod 256)%N with Some b => b | None => Byte.x00 end.

Definition N_of_byte (b : byte) : N := Byte.to_N b.

(** A Rust [[u8; n]]. *)
Record array (n : nat) := Array {
  arr : bytes;
  arr_ok : Nat.eqb (List.length arr) n = true;
}.
Arguments Array {n} _ _.
Arguments arr {n} _.
Arguments arr_ok {n} _.

(** [<[u8; n]>::try_from(slice)]. *)
Definition array_of_slice (n : nat) (l : bytes) : option (array n) :=
  match Bool.bool_dec (Nat.eqb (List.length l) n) true with
  | left H => Some (Array l H)
  | right _ => None
  end.

(** The [n] low-order bytes of an integer, most significant first
    ([to_be_bytes]) and least significant first ([to_le_bytes]). *)
Fixpoint le_bytes (n : nat) (x : N) : bytes :=
  match n with
  | O => []
  | S k => byte_of_N x :: le_bytes k (x / 256)%N
  end.
Definition be_bytes (n : nat) (x : N) : bytes := rev (le_bytes n x).

Fixpoint of_le_bytes (l : bytes) : N :=
  match l with
  | [] => 0
  | b :: r => N_of_byte b + 256 * of_le_bytes r
  end%N.
Definition of_be_bytes (l : bytes) : N := of_le_bytes (rev l).

(** Bounds of the machine integers. *)
Definition u8_max : N := 2 ^ 8 - 1.
Definition u16_max : N := 2 ^ 16 - 1.
Definition u32_max : N := 2 ^ 32 - 1.
Definition u64_max : N := 2 ^ 64 - 1.

Definition wrap_u64 (n : N) : N := (n mod 2 ^ 64)%N.
Definition wrap_u32 (n : N) : N := (n mod 2 ^ 32)%N.
Definition saturating_add_u64 (a b : N) : N := N.min u64_max (a + b).

(* ------------------------------------------------------------------ *)
(** * Results and the state monad *)

Inductive result (A : Type) := Ok (a : A) | Err (e : string).
Arguments Ok {A} _.
Arguments Err {A} _.

(** [r.ok()]. *)
Definition ok {A} (r : result A) : option A :=
  match r with Ok a => Some a | Err _ => None end.

Definition is_ok {A} (r : result A) : bool :=
  match r with Ok _ => true | Err _ => false end.

Definition ST (S A : Type) : Type := S → A * S.

#[export] Instance ST_ret S : MRet (ST S) := λ A a s, (a, s).
#[export] Instance ST_bind S : MBind (ST S) := λ A B f m s,
  let '(a, s') := m s in f a s'.

(** The [?] operator: stop at the first [Err]. *)
Definition try_bind {S A B} (m : ST S (result A)) (k : A → ST S (result B)) : ST S (result B) :=
  λ s, let '(r, s') := m s in
       match r with Ok a => k a s' | Err e => (Err e, s') end.

Notation "x '←?' y ; z" := (try_bind y (λ x, z))
  (at level 20, y at level 100, z at level 200, only parsing) : rumble_scope.
Notation "y ';?' z" := (try_bind y (λ _, z))
  (at level 100, z at level 200, right associativity, only parsing) : rumble_scope.

Definition gets {S A} (f : S → A) : ST S A := λ s, (f s, s).
Definition modify {S} (f : S → S) : ST S unit := λ s, (tt, f s).
Definition done_ok {S} : ST S (result unit) := mret (Ok tt).

(** A Rust [for] loop over a snapshot. *)
Fixpoint for_each {S A} (l : list A) (body : A → ST S unit) : ST S unit :=
  match l with
  | [] => mret tt
  | x :: r => body x;; for_each r body
  end.

(** The same loop when the body uses [?]. *)
Fixpoint try_for_each {S A} (l : list A) (body : A → ST S (result unit)) : ST S (result unit) :=
  match l with
  | [] => done_ok
  | x :: r => body x ;? try_for_each r body
  end.

(* ------------------------------------------------------------------ *)
(** * Lists *)

(** [Vec::retain]. *)
Definition retain {A} (p : A → bool) (l : list A) : list A := List.filter p l.

(** Apply [f] to the first element that satisfies [p], and say whether there
    was one: the source's [for r in v.iter_mut() { if .. { ..; return true } }]. *)
Fixpoint update_first {A} (p : A → bool) (f : A → A) (l : list A) : list A * bool :=
  match l with
  | [] => ([], false)
  | x :: r => if p x then (f x :: r, true)
              else let '(r', b) := update_first p f r in (x :: r', b)
  end.

(** [Vec::contains]. *)
Definition contains {A} `{EqDecision A} (l : list A) (x : A) : bool := bool_decide (x ∈ l).

(** [v.push(x)] unless it is already there. *)
Definition push_unique {A} `{EqDecision A} (x : A) (l : list A) : list A :=
  if contains l x then l else l ++ [x].

(** Lexicographic order on byte strings, the key order of a sled tree and the
    [Ord] of [[u8]]. *)
Fixpoint bytes_leb (a b : bytes) : bool :=
  match a, b with
  | [], _ => true
  | _ :: _, [] => false
  | x :: a', y :: b' =>
      if N.ltb (N_of_byte x) (N_of_byte y) then true
      else if N.eqb (N_of_byte x) (N_of_byte y) then bytes_leb a' b' else false
  end.

(* ------------------------------------------------------------------ *)
(** * Strings *)

(** [s.as_bytes()]. *)
Definition as_bytes (s : string) : bytes := list_byte_of_string s.

(** A continuation byte [10xxxxxx]. *)
Definition utf8_cont (b : byte) : bool :=
  (128 <=? N_of_byte b)%N && (N_of_byte b <? 192)%N.

(** Well-formed UTF-8 (the check of [String::from_utf8]): the first byte fixes
    the length of the sequence, and overlong forms, surrogates and code points
    above U+10FFFF are refused. *)
Fixpoint utf8_valid (l : bytes) : bool :=
  match l with
  | [] => true
  | b0 :: r0 =>
      let n := N_of_byte b0 in
      if (n <? 128)%N then utf8_valid r0
      else if (n <? 194)%N then false
      else if (n <? 224)%N then
        match r0 with b1 :: r => utf8_cont b1 && utf8_valid r | _ => false end
      else if (n <? 240)%N then
        match r0 with
        | b1 :: b2 :: r =>
            utf8_cont b1 && utf8_cont b2
            && (if (n =? 224)%N then (160 <=? N_of_byte b1)%N else true)
            && (if (n =? 237)%N then (N_of_byte b1 <? 160)%N else true)
            && utf8_valid r
        | _ => false
        end
      else if (n <? 245)%N then
        match r0 with
        | b1 :: b2 :: b3 :: r =>
            utf8_cont b1 && utf8_cont b2 && utf8_cont b3
            && (if (n =? 240)%N then (144 <=? N_of_byte b1)%N else true)
            && (if (n =? 244)%N then (N_of_byte b1 <? 144)%N else true)
            && utf8_valid r
        | _ => false
        end
      else false
  end.

(** [String::from_utf8(v).ok()]. *)
Definition from_utf8 (l : bytes) : option string :=
  if utf8_valid l then Some (string_of_list_byte l) else None.

(** ASCII case folding, byte by byte ([u8::to_ascii_lowercase]); bytes of a
    multi-byte UTF-8 sequence are not ASCII letters, so this is also
    [str::to_ascii_lowercase]. *)
Definition ascii_lower (b : byte) : byte :=
  let n := N_of_byte b in
  if ((65 <=? n) && (n <=? 90))%N then byte_of_N (n + 32) else b.

Definition to_ascii_lowercase (s : string) : string :=
  string_of_list_byte (map ascii_lower (as_bytes s)).

Definition eq_ignore_ascii_case (a b : string) : bool :=
  bool_decide (map ascii_lower (as_bytes a) = map ascii_lower (as_bytes b)).

Definition str_is_empty (s : string) : bool := String.eqb s EmptyString.

(** [{:02x}] of each byte, run together. *)
Definition hex_digit (n : N) : byte := byte_of_N (if (n <? 10)%N then 48 + n else 87 + n).
Fixpoint hex_bytes (l : bytes) : bytes :=
  match l with
  | [] => []
  | b :: l => hex_digit (N_of_byte b / 16) :: hex_digit (N_of_byte b mod 16) :: hex_bytes l
  end.

(** [s.split(c)] for an ASCII character. *)
Fixpoint split_bytes (c : byte) (l : bytes) : list bytes :=
  match l with
  | [] => [[]]
  | b :: l =>
      if bool_decide (b = c) then [] :: split_bytes c l
      else match split_bytes c l with w :: ws => (b :: w) :: ws | [] => [[b]] end
  end.

(** [s.strip_prefix(p)]. *)
Fixpoint strip_prefix (p l : bytes) : option bytes :=
  match p, l with
  | [], _ => Some l
  | a :: p, b :: l => if bool_decide (a = b) then strip_prefix p l else None
  | _ :: _, [] => None
  end.

(* ------------------------------------------------------------------ *)
(** * Lemmas on bytes and arrays *)

Lemma N_of_byte_bound (b : byte) : (N_of_byte b < 256)%N.
Proof. unfold N_of_byte. pose proof (Byte.to_N_bounded b). lia. Qed.

Lemma N_of_byte_of_N (n : N) : N_of_byte (byte_of_N n) = (n mod 256)%N.
Proof.
  unfold byte_of_N, N_of_byte.
  destruct (Byte.of_N (n mod 256)%N) as [b|] eqn:E.
  - by apply Byte.to_of_N in E.
  - apply Byte.of_N_None_iff in E.
    pose proof (N.mod_lt n 256 ltac:(lia)). lia.
Qed.

Lemma byte_of_N_of_byte (b : byte) : byte_of_N (N_of_byte b) = b.
Proof.
  unfold byte_of_N, N_of_byte. rewrite N.mod_small by apply N_of_byte_bound.
  by rewrite Byte.of_to_N.
Qed.

Lemma N_of_byte_inj (a b : byte) : N_of_byte a = N_of_byte b → a = b.
Proof. intros H. rewrite <- (byte_of_N_of_byte a), <- (byte_of_N_of_byte b). by rewrite H. Qed.

Lemma byte_of_N_mod (n : N) : byte_of_N (n mod 256) = byte_of_N n.
Proof. apply N_of_byte_inj. rewrite !N_of_byte_of_N. by rewrite N.Div0.mod_mod. Qed.

Lemma length_le_bytes n x : List.length (le_bytes n x) = n.
Proof. revert x. induction n as [|n IH]; intros x; simpl; [done|]. by rewrite IH. Qed.

Lemma length_be_bytes n x : List.length (be_bytes n x) = n.
Proof. unfold be_bytes. by rewrite length_rev, length_le_bytes. Qed.

Lemma of_le_bytes_le_bytes n x :
  of_le_bytes (le_bytes n x) = (x mod 256 ^ N.of_nat n)%N.
Proof.
  revert x. induction n as [|n IH]; intros x.
  - simpl. by rewrite N.mod_1_r.
  - cbn [le_bytes of_le_bytes]. rewrite IH, N_of_byte_of_N, Nat2N.inj_succ, N.pow_succ_r'.
    rewrite N.Div0.mod_mul_r. lia.
Qed.

Lemma of_be_bytes_be_bytes n x :
  of_be_bytes (be_bytes n x) = (x mod 256 ^ N.of_nat n)%N.
Proof. unfold of_be_bytes, be_bytes. by rewrite rev_involutive, of_le_bytes_le_bytes. Qed.

Lemma le_bytes_of_le_bytes (l : bytes) : le_bytes (List.length l) (of_le_bytes l) = l.
Proof.
  induction l as [|b l IH]; [done|]. cbn [List.length le_bytes of_le_bytes]. f_equal.
  - rewrite <- byte_of_N_mod, (N.mul_comm 256), N.Div0.mod_add.
    by rewrite byte_of_N_mod, byte_of_N_of_byte.
  - rewrite (N.mul_comm 256), N.div_add by lia.
    rewrite (N.div_small (N_of_byte b)) by apply N_of_byte_bound. exact IH.
Qed.

Lemma be_bytes_of_be_bytes (l : bytes) : be_bytes (List.length l) (of_be_bytes l) = l.
Proof.
  unfold be_bytes, of_be_bytes. rewrite <- length_rev.
  by rewrite le_bytes_of_le_bytes, rev_involutive.
Qed.

Lemma be_bytes_inj n x y :
  (x < 256 ^ N.of_nat n)%N → (y < 256 ^ N.of_nat n)%N → be_bytes n x = be_bytes n y → x = y.
Proof.
  intros Hx Hy H. apply (f_equal of_be_bytes) in H.
  by rewrite !of_be_bytes_be_bytes, !N.mod_small in H.
Qed.

Lemma le_bytes_inj n x y :
  (x < 256 ^ N.of_nat n)%N → (y < 256 ^ N.of_nat n)%N → le_bytes n x = le_bytes n y → x = y.
Proof.
  intros Hx Hy H. apply (f_equal of_le_bytes) in H.
  by rewrite !of_le_bytes_le_bytes, !N.mod_small in H.
Qed.

Lemma length_arr {n} (a : array n) : List.length (arr a) = n.
Proof. destruct a as [l H]. simpl. by apply Nat.eqb_eq. Qed.

Lemma array_eq {n} (a b : array n) : arr a = arr b → a = b.
Proof.
  destruct a as [l H], b as [l' H']. simpl. intros <-. f_equal.
  apply Eqdep_dec.UIP_dec. apply Bool.bool_dec.
Qed.

#[export] Instance array_eq_dec n : EqDecision (array n).
Proof.
  intros a b. destruct (decide (arr a = arr b)) as [H|H].
  - left. by apply array_eq.
  - right. intros ->. by apply H.
Defined.

Lemma array_of_slice_arr {n} (a : array n) : array_of_slice n (arr a) = Some a.
Proof.
  unfold array_of_slice. destruct (Bool.bool_dec _ _) as [H|H].
  - f_equal. by apply array_eq.
  - exfalso. apply H. apply arr_ok.
Qed.

Lemma array_of_slice_Some n l a : array_of_slice n l = Some a → arr a = l.
Proof. unfold array_of_slice. destruct (Bool.bool_dec _ _); [by intros [= <-]|done]. Qed.

Lemma array_of_slice_length n l : is_Some (array_of_slice n l) ↔ List.length l = n.
Proof.
  unfold array_of_slice. destruct (Bool.bool_dec _ _) as [H|H]; split.
  - intros _. by apply Nat.eqb_eq.
  - intros _. by eexists.
  - by intros [? ?].
  - intros E. exfalso. apply H. by apply Nat.eqb_eq.
Qed.

#[export] Program Instance array_countable n : Countable (array n) :=
  inj_countable arr (array_of_slice n) _.
Next Obligation. intros n a. apply array_of_slice_arr. Qed.

Definition zero_array (n : nat) : array n :=
  Array (List.repeat Byte.x00 n)
        (proj2 (Nat.eqb_eq _ _) (repeat_length Byte.x00 n)).

(** The array of the [n] low bytes of a number, for literals. *)
Definition array_of_N (n : nat) (x : N) : array n :=
  match array_of_slice n (be_bytes n x) with Some a => a | None => zero_array n end.

Lemma arr_array_of_N n x : arr (array_of_N n x) = be_bytes n x.
Proof.
  unfold array_of_N. destruct (array_of_slice n (be_bytes n x)) as [a|] eqn:E.
  - by apply array_of_slice_Some.
  - exfalso. assert (is_Some (array_of_slice n (be_bytes n x))) as [? ?]; [|congruence].
    apply array_of_slice_length, length_be_bytes.
Qed.

(** Splitting a concatenation whose first parts have the same length. *)
Lemma app_inj_length {A} (a b c d : list A) :
  List.length a = List.length c → a ++ b = c ++ d → a = c ∧ b = d.
Proof. intros H E. by apply app_inj_1. Qed.

(* ------------------------------------------------------------------ *)
(** * Lemmas on strings *)

Lemma string_of_as_bytes (s : string) : string_of_list_byte (as_bytes s) = s.
Proof. apply string_of_list_byte_of_string. Qed.

Lemma as_bytes_inj (s t : string) : as_bytes s = as_bytes t → s = t.
Proof. intros H. rewrite <- (string_of_as_bytes s), <- (string_of_as_bytes t). by rewrite H. Qed.

Lemma from_utf8_as_bytes (s : string) :
  utf8_valid (as_bytes s) = true → from_utf8 (as_bytes s) = Some s.
Proof. intros H. unfold from_utf8. rewrite H. by rewrite string_of_as_bytes. Qed.

Lemma from_utf8_Some (l : bytes) (s : string) : from_utf8 l = Some s → as_bytes s = l.
Proof.
  unfold from_utf8. destruct (utf8_valid l); [|done]. intros [= <-].
  apply list_byte_of_string_of_list_byte.
Qed.

Lemma as_bytes_app (s t : string) : as_bytes (s +:+ t) = as_bytes s ++ as_bytes t.
Proof. unfold as_bytes. induction s as [|a s IH]; [done|]. change (String a s +:+ t) with (String a (s +:+ t)). cbn. by f_equal. Qed.

Lemma as_bytes_of_list (l : bytes) : as_bytes (string_of_list_byte l) = l.
Proof. apply list_byte_of_string_of_list_byte. Qed.

Lemma split_bytes_no (c : byte) (l : bytes) : c ∉ l → split_bytes c l = [l].
Proof.
  induction l as [|b l IH]; [done|]. intros [Hb Hl]%not_elem_of_cons. cbn. rewrite bool_decide_false by done. by rewrite IH.
Qed.

Lemma split_bytes_app (c : byte) (l k : bytes) : c ∉ l → split_bytes c (l ++ c :: k) = l :: split_bytes c k.
Proof.
  induction l as [|b l IH]; cbn; [by rewrite bool_decide_true|].
  intros [Hb Hl]%not_elem_of_cons. rewrite bool_decide_false by done. by rewrite IH.
Qed.

Lemma strip_prefix_Some (p l r : bytes) : strip_prefix p l = Some r ↔ l = p ++ r.
Proof.
  revert l. induction p as [|a p IH]; intros [|b l]; cbn; try naive_solver.
  case_bool_decide; [subst; rewrite IH; naive_solver|naive_solver].
Qed.

Lemma eq_ignore_ascii_case_refl (s : string) : eq_ignore_ascii_case s s = true.
Proof. unfold eq_ignore_ascii_case. by apply bool_decide_eq_true. Qed.

Lemma eq_ignore_ascii_case_sym (s t : string) :
  eq_ignore_ascii_case s t = eq_ignore_ascii_case t s.
Proof. unfold eq_ignore_ascii_case. apply bool_decide_ext. split; congruence. Qed.

(* ------------------------------------------------------------------ *)
(** * Lemmas on lists *)

Lemma elem_of_retain {A} (p : A → bool) (l : list A) x :
  x ∈ retain p l ↔ x ∈ l ∧ p x = true.
Proof. unfold retain. rewrite !list_elem_of_In. apply filter_In. Qed.

Lemma retain_sublist {A} (p : A → bool) (l : list A) : retain p l `sublist_of` l.
Proof. induction l as [|x l IH]; [done|]. simpl. destruct (p x); by constructor. Qed.

Lemma NoDup_fmap_retain {A B} (f : A → B) (p : A → bool) (l : list A) :
  NoDup (f <$> l) → NoDup (f <$> retain p l).
Proof. intros H. eapply sublist_NoDup; [exact H|]. apply fmap_sublist, retain_sublist. Qed.

Lemma retain_all {A} (p : A → bool) (l : list A) :
  (∀ x, x ∈ l → p x = true) → retain p l = l.
Proof.
  induction l as [|x l IH]; intros H; [done|]. simpl.
  rewrite (H x) by apply list_elem_of_here. f_equal. apply IH.
  intros y Hy. apply H. by apply list_elem_of_further.
Qed.

Lemma retain_app {A} (p : A → bool) (l k : list A) :
  retain p (l ++ k) = retain p l ++ retain p k.
Proof. apply List.filter_app. Qed.

Lemma retain_ext {A} (p q : A → bool) (l : list A) :
  (∀ x, x ∈ l → p x = q x) → retain p l = retain q l.
Proof. intros H. apply List.filter_ext_in. intros x Hx. apply H. by apply list_elem_of_In. Qed.

Lemma retain_retain {A} (p q : A → bool) (l : list A) :
  retain p (retain q l) = retain (λ x, q x && p x) l.
Proof.
  unfold retain in *. induction l as [|x l IH]; [done|]. cbn.
  destruct (q x); cbn; [|done]. by destruct (p x); rewrite IH.
Qed.

Lemma NoDup_retain {A} (p : A → bool) (l : list A) : NoDup l → NoDup (retain p l).
Proof. intros H. eapply sublist_NoDup; [exact H|apply retain_sublist]. Qed.

Lemma length_retain_lt {A} (p : A → bool) (l : list A) :
  List.length (retain p l) < List.length l ↔ ∃ x, x ∈ l ∧ p x = false.
Proof.
  induction l as [|x l IH]; simpl.
  - split; [lia|]. intros (x & Hx & _). by apply elem_of_nil in Hx.
  - destruct (p x) eqn:E; simpl.
    + rewrite <- Nat.succ_lt_mono, IH. split.
      * intros (y & Hy & Hp). exists y. split; [by apply list_elem_of_further|done].
      * intros (y & [->|Hy]%elem_of_cons & Hp); [congruence|eauto].
    + split; [|pose proof (sublist_length _ _ (retain_sublist p l)); lia].
      intros _. exists x. split; [apply list_elem_of_here|done].
Qed.

Lemma elem_of_cons_ne {A} (x y : A) l : x ≠ y → x ∈ y :: l ↔ x ∈ l.
Proof. intros H. rewrite elem_of_cons. split; [by intros [?|?]|by right]. Qed.

(** [iter().find(p)] and [iter().any(p)]. *)
Lemma find_Some_iff {A} (p : A → bool) (l : list A) x :
  List.find p l = Some x → x ∈ l ∧ p x = true.
Proof. intros H. apply find_some in H. by rewrite list_elem_of_In. Qed.

Lemma find_None_iff {A} (p : A → bool) (l : list A) :
  List.find p l = None ↔ ∀ x, x ∈ l → p x = false.
Proof.
  split.
  - intros H x Hx. apply list_elem_of_In in Hx. eapply find_none; eauto.
  - induction l as [|x l IH]; [done|]. intros H. simpl.
    rewrite (H x) by apply list_elem_of_here. apply IH.
    intros y Hy. apply H. by apply list_elem_of_further.
Qed.

(** In a list whose keys are distinct, [find] by key returns the element. *)
Lemma find_key {A K} `{EqDecision K} (f : A → K) (l : list A) x :
  NoDup (f <$> l) → x ∈ l → List.find (λ y, bool_decide (f y = f x)) l = Some x.
Proof.
  induction l as [|y l IH]; intros Hnd Hx; [by apply elem_of_nil in Hx|].
  simpl. rewrite fmap_cons in Hnd. apply NoDup_cons in Hnd as [Hy Hnd].
  apply elem_of_cons in Hx as [->|Hx].
  - by rewrite bool_decide_true.
  - rewrite bool_decide_false; [by apply IH|].
    intros E. apply Hy. rewrite E. by apply list_elem_of_fmap_2.
Qed.

Lemma existsb_elem_of {A} (p : A → bool) (l : list A) :
  existsb p l = true ↔ ∃ x, x ∈ l ∧ p x = true.
Proof. rewrite existsb_exists. by setoid_rewrite list_elem_of_In. Qed.

Lemma update_first_snd {A} (p : A → bool) f (l : list A) :
  (update_first p f l).2 = existsb p l.
Proof.
  induction l as [|x l IH]; [done|]. simpl. destruct (p x); [done|].
  destruct (update_first p f l) as [r b]. simpl in *. by rewrite IH.
Qed.

Lemma update_first_none {A} (p : A → bool) f (l : list A) :
  existsb p l = false → (update_first p f l).1 = l.
Proof.
  induction l as [|x l IH]; [done|]. simpl. destruct (p x); [done|]. intros H. specialize (IH H).
  destruct (update_first p f l). simpl in *. by rewrite IH.
Qed.

Lemma update_first_fmap {A B} (g : A → B) (p : A → bool) f (l : list A) :
  (∀ x, p x = true → g (f x) = g x) → g <$> (update_first p f l).1 = g <$> l.
Proof.
  intros H. induction l as [|x l IH]; [done|]. csimpl. destruct (p x) eqn:E.
  - csimpl. by rewrite H.
  - destruct (update_first p f l) as [r b]. csimpl in *. by rewrite IH.
Qed.

(** When at most one element can match, the loop is a [map]. *)
Lemma update_first_map {A K} `{EqDecision K} (key : A → K) k f (l : list A) :
  NoDup (key <$> l) →
  (update_first (λ x, bool_decide (key x = k)) f l).1
  = (λ x, if bool_decide (key x = k) then f x else x) <$> l.
Proof.
  induction l as [|x l IH]; intros Hnd; [done|].
  rewrite fmap_cons in Hnd. apply NoDup_cons in Hnd as [Hx Hnd]. csimpl.
  case_bool_decide as E.
  - csimpl. f_equal. symmetry. rewrite <- (list_fmap_id l) at 2.
    apply list_fmap_ext. intros i y Hy. rewrite bool_decide_false; [done|].
    intros E'. apply Hx. rewrite E, <- E'. apply list_elem_of_fmap_2.
    by apply list_elem_of_lookup_2 in Hy.
  - specialize (IH Hnd). destruct (update_first _ f l) as [r b]. csimpl in *. by rewrite IH.
Qed.

Lemma contains_spec {A} `{EqDecision A} (l : list A) x : contains l x = true ↔ x ∈ l.
Proof. unfold contains. apply bool_decide_eq_true. Qed.

Lemma elem_of_push_unique {A} `{EqDecision A} (x y : A) l :
  y ∈ push_unique x l ↔ y = x ∨ y ∈ l.
Proof.
  unfold push_unique. destruct (contains l x) eqn:E.
  - apply contains_spec in E. split; [by right|]. by intros [->|?].
  - rewrite elem_of_app, list_elem_of_singleton. tauto.
Qed.

Lemma NoDup_push_unique {A} `{EqDecision A} (x : A) l : NoDup l → NoDup (push_unique x l).
Proof.
  intros H. unfold push_unique. destruct (contains l x) eqn:E; [done|].
  apply NoDup_app. split; [done|]. split; [|apply NoDup_singleton].
  intros y Hy ->%list_elem_of_singleton. apply contains_spec in Hy. congruence.
Qed.

Lemma last_app_default {A} (l k : list A) d : List.last (l ++ k) d = List.last k (List.last l d).
Proof.
  destruct k as [|x k] using rev_ind; [by rewrite app_nil_r|].
  by rewrite app_assoc, !last_last.
Qed.

Lemma last_cons_default {A} (x : A) l d : List.last (x :: l) d = List.last l x.
Proof. apply (last_app_default [x] l). Qed.

Lemma forallb_map_comp {A B} (f : A → B) (p : B → bool) l :
  forallb p (map f l) = forallb (λ x, p (f x)) l.
Proof. induction l as [|x l IH]; [done|]. simpl. by rewrite IH. Qed.

Lemma forallb_ext_in {A} (p q : A → bool) l :
  (∀ x, x ∈ l → p x = q x) → forallb p l = forallb q l.
Proof.
  induction l as [|x l IH]; intros H; [done|]. simpl.
  rewrite H by apply list_elem_of_here. f_equal. apply IH. intros y Hy.
  apply H. by apply list_elem_of_further.
Qed.

(** A fixed record is determined by its key when keys are distinct. *)
Lemma NoDup_fmap_inj {A K} (f : A → K) (l : list A) x y :
  NoDup (f <$> l) → x ∈ l → y ∈ l → f x = f y → x = y.
Proof.
  intros Hnd Hx Hy E.
  apply list_elem_of_lookup in Hx as [i Hi]. apply list_elem_of_lookup in Hy as [j Hj].
  assert (i = j) as ->; [|congruence].
  eapply (NoDup_lookup (f <$> l) i j (f x)); [exact Hnd| |];
    rewrite list_lookup_fmap, ?Hi, ?Hj; simpl; congruence.
Qed.

(** Decoding what was encoded, element by element. *)
(** *** The sum of a quantity over the values of a map *)

Definition map_sum {K A} `{Countable K} (f : A → N) (m : gmap K A) : N := map_fold (λ _ x acc, (f x + acc)%N) 0%N m.

Lemma map_sum_empty {K A} `{Countable K} (f : A → N) : map_sum f (∅ : gmap K A) = 0%N.
Proof. apply map_fold_empty. Qed.

Lemma map_sum_insert_new {K A} `{Countable K} (f : A → N) (m : gmap K A) k x :
  m !! k = None → map_sum f (<[k := x]> m) = (f x + map_sum f m)%N.
Proof. intros Hk. unfold map_sum. rewrite map_fold_insert_L; [done|intros; lia|done]. Qed.

Lemma map_sum_delete {K A} `{Countable K} (f : A → N) (m : gmap K A) k x :
  m !! k = Some x → map_sum f m = (f x + map_sum f (delete k m))%N.
Proof. intros Hk. unfold map_sum. rewrite (map_fold_delete_L _ _ k x m); [done|intros; lia|done]. Qed.

Lemma map_sum_insert {K A} `{Countable K} (f : A → N) (m : gmap K A) k x y :
  m !! k = Some x → (map_sum f (<[k := y]> m) + f x = map_sum f m + f y)%N.
Proof.
  intros Hk. rewrite (map_sum_delete f m k x Hk), <- insert_delete_eq, map_sum_insert_new by apply lookup_delete_eq. lia.
Qed.

Lemma map_sum_le {K A} `{Countable K} (f g : A → N) (m : gmap K A) :
  (∀ k x, m !! k = Some x → (f x ≤ g x)%N) → (map_sum f m ≤ map_sum g m)%N.
Proof.
  induction m as [|k x m Hk IH] using map_ind; intros Hle; [by rewrite !map_sum_empty|].
  rewrite !map_sum_insert_new by done. specialize (Hle k x (lookup_insert_eq _ _ _)) as Hx.
  assert (map_sum f m ≤ map_sum g m)%N; [|lia].
  apply IH. intros k' y Hy. apply (Hle k'). rewrite lookup_insert_ne; [done|congruence].
Qed.

Lemma omap_inverse {A B} (f : B → option A) (g : A → B) l : (∀ x, f (g x) = Some x) → omap f (map g l) = l.
Proof. intros Hf. induction l as [|x l IH]; [done|]. cbn. rewrite Hf. by f_equal. Qed.

(* ------------------------------------------------------------------ *)
(** * What a stateful operation keeps

    [keeps R m]: the state before and the state after [m] are related by [R].
    With [R s s' := P s → P s'] this is preservation of an invariant, with
    [R s s' := f s' = f s] it is a frame property.  The rules below follow the
    structure of the code; the [keeps] database applies them. *)

Definition keeps {S A} (R : relation S) (m : ST S A) : Prop := ∀ s, R s (m s).2.

(** What a sequence does from a given state. *)
Lemma seq_run {S A B} (m : ST S A) (k : A → ST S B) s : (m ≫= k) s = k (m s).1 (m s).2.
Proof. unfold mbind, ST_bind. by destruct (m s). Qed.

(** The same where the sequence first reads the state. *)
Lemma gets_run {S A B} (f : S → A) (k : A → ST S B) s : (gets f ≫= k) s = k (f s) s.
Proof. done. Qed.

Section keeps.
Context {S : Type} (R : relation S) `{!PreOrder R}.

Lemma keeps_ret {A} (a : A) : keeps R (mret a).
Proof. intros s. cbn. apply PreOrder_Reflexive. Qed.

Lemma keeps_bind {A B} (m : ST S A) (f : A → ST S B) :
  keeps R m → (∀ a, keeps R (f a)) → keeps R (m ≫= f).
Proof.
  intros Hm Hf s. unfold mbind, ST_bind. pose proof (Hm s) as H.
  destruct (m s) as [a s']. cbn in H. eapply PreOrder_Transitive; [exact H|apply Hf].
Qed.

(** The same from a given state. *)
Lemma keeps_from {A B} (m : ST S A) (f : A → ST S B) s :
  R s (m s).2 → (∀ a, keeps R (f a)) → R s ((m ≫= f) s).2.
Proof. intros Hm Hf. rewrite seq_run. eapply PreOrder_Transitive; [exact Hm|apply Hf]. Qed.

Lemma keeps_try_bind {A B} (m : ST S (result A)) (f : A → ST S (result B)) :
  keeps R m → (∀ a, keeps R (f a)) → keeps R (try_bind m f).
Proof.
  intros Hm Hf s. unfold try_bind. pose proof (Hm s) as H.
  destruct (m s) as [[a|e] s']; cbn in *; [|done]. eapply PreOrder_Transitive; [exact H|apply Hf].
Qed.

Lemma keeps_gets {A} (f : S → A) : keeps R (gets f).
Proof. intros s. cbn. apply PreOrder_Reflexive. Qed.

Lemma keeps_modify (f : S → S) : (∀ s, R s (f s)) → keeps R (modify f).
Proof. intros H s. apply H. Qed.

Lemma keeps_done_ok : keeps R done_ok.
Proof. apply keeps_ret. Qed.

Lemma keeps_for_each {A} (l : list A) (body : A → ST S unit) :
  (∀ x, x ∈ l → keeps R (body x)) → keeps R (for_each l body).
Proof.
  induction l as [|x l IH]; intros H; simpl; [apply keeps_ret|].
  apply keeps_bind; [apply H, list_elem_of_here|].
  intros _. apply IH. intros y Hy. apply H. by apply list_elem_of_further.
Qed.

Lemma keeps_try_for_each {A} (l : list A) (body : A → ST S (result unit)) :
  (∀ x, x ∈ l → keeps R (body x)) → keeps R (try_for_each l body).
Proof.
  induction l as [|x l IH]; intros H; simpl; [apply keeps_done_ok|].
  apply keeps_try_bind; [apply H, list_elem_of_here|].
  intros _. apply IH. intros y Hy. apply H. by apply list_elem_of_further.
Qed.
End keeps.

(** Preservation of a predicate, and of a projection. *)
Definition under {S} (P : S → Prop) : relation S := λ s s', P s → P s'.
Definition same {S B} (f : S → B) : relation S := λ s s', f s' = f s.

#[export] Instance under_preorder {S} (P : S → Prop) : PreOrder (under P).
Proof. split; [by intros s H|]. intros s1 s2 s3 H1 H2 H. by apply H2, H1. Qed.

#[export] Instance same_preorder {S B} (f : S → B) : PreOrder (same f).
Proof. split; [done|]. intros s1 s2 s3 H1 H2. unfold same in *. congruence. Qed.

(* ------------------------------------------------------------------ *)
(** * Triples *)

(** What holds after [m], of its result and the state, when [P] held before. *)
Definition triple {S A} (P : S → Prop) (m : ST S A) (Q : A → S → Prop) : Prop := ∀ s, P s → Q (m s).1 (m s).2.

Section triples.
Context {S : Type}.
Implicit Types P : S → Prop.

Lemma triple_ret {A} P (a : A) (Q : A → S → Prop) : (∀ s, P s → Q a s) → triple P (mret a) Q.
Proof. intros H s Hs. by apply H. Qed.

Lemma triple_bind {A B} P (m : ST S A) (f : A → ST S B) Q Q' : triple P m Q → (∀ a, triple (Q a) (f a) Q') → triple P (m ≫= f) Q'.
Proof.
  intros Hm Hf s Hs. specialize (Hm s Hs). unfold mbind, ST_bind. destruct (m s) as [a s']. by apply Hf.
Qed.

Lemma triple_gets {A} P (f : S → A) : triple P (gets f) (λ a s, P s ∧ a = f s).
Proof. by intros s Hs. Qed.

Lemma triple_modify P (f : S → S) (Q : unit → S → Prop) : (∀ s, P s → Q tt (f s)) → triple P (modify f) Q.
Proof. intros H s Hs. by apply H. Qed.

Lemma triple_weaken {A} P P' (m : ST S A) Q Q' : triple P' m Q' → (∀ s, P s → P' s) → (∀ a s, Q' a s → Q a s) → triple P m Q.
Proof. intros Hm HP HQ s Hs. by apply HQ, Hm, HP. Qed.

(** A frame property carries what only looks at the framed part. *)
Lemma triple_same {A B} (f : S → B) (P : B → Prop) (m : ST S A) : keeps (same f) m → triple (λ s, P (f s)) m (λ _ s, P (f s)).
Proof. intros Hm s Hs. by rewrite (Hm s). Qed.

Lemma triple_for_each {A} P (l : list A) (body : A → ST S unit) :
  (∀ x, x ∈ l → triple P (body x) (λ _, P)) → triple P (for_each l body) (λ _, P).
Proof.
  induction l as [|x l IH]; intros H; simpl; [by apply triple_ret|]. eapply triple_bind; [apply H, list_elem_of_here|].
  intros ?. apply IH. intros y Hy. by apply H, list_elem_of_further.
Qed.
End triples.

Create HintDb keeps.
#[export] Hint Resolve keeps_ret keeps_bind keeps_try_bind keeps_gets keeps_modify
  keeps_done_ok keeps_for_each keeps_try_for_each : keeps.
#[export] Hint Extern 1 (PreOrder _) => typeclasses eauto : keeps.

(** One step of the structural proof of [keeps]. *)
Ltac keeps_step :=
  lazymatch goal with
  | |- keeps _ (mret _) => apply keeps_ret; apply _
  | |- keeps _ done_ok => apply keeps_done_ok; apply _
  | |- keeps _ (gets _) => apply keeps_gets; apply _
  | |- keeps _ (for_each _ _) => apply keeps_for_each; [apply _|intros ? ?]
  | |- keeps _ (try_for_each _ _) => apply keeps_try_for_each; [apply _|intros ? ?]
  | |- keeps _ (mbind _ _) => apply keeps_bind; [apply _| |intros ?]
  | |- keeps _ (try_bind _ _) => apply keeps_try_bind; [apply _| |intros ?]
  | |- keeps _ (if ?b then _ else _) => destruct b
  | |- keeps _ (match ?x with _ => _ end) => destruct x
  | |- keeps _ (let '(_, _) := ?x in _) => destruct x
  end.

Ltac solve_keeps :=
  repeat first [ solve [eauto with keeps nocore] | keeps_step ].

(** Computing one monadic step in a goal or a hypothesis. *)
Ltac unfold_st :=
  cbv [mbind mret ST_bind ST_ret try_bind gets modify done_ok] in *; cbn beta iota zeta in *.
