(* ===== verification/Permissions.v ===== *)
(** Permission flags and the ACL evaluation
    ([crates/rumble-protocol/src/permissions.rs]).

    A [Permissions] value is the [u32] behind the bitflags type.  The
    definitions follow the source; the second half states what
    [effective_permissions] computes, bit by bit. *)
From Stdlib Require Import NArith Lia String.
From stdpp Require Import base gmap strings list.
From S2P Require Import Prelude.

Module Perm.

(** ** The flags *)

Definition Permissions : Type := N.

Definition TRAVERSE : Permissions := 0x001%N.
Definition ENTER : Permissions := 0x002%N.
Definition SPEAK : Permissions := 0x004%N.
Definition TEXT_MESSAGE : Permissions := 0x008%N.
Definition SHARE_FILE : Permissions := 0x010%N.
Definition MUTE_DEAFEN : Permissions := 0x020%N.
Definition MOVE_USER : Permissions := 0x040%N.
Definition MAKE_ROOM : Permissions := 0x080%N.
Definition MODIFY_ROOM : Permissions := 0x100%N.
Definition WRITE : Permissions := 0x200%N.
Definition KICK : Permissions := 0x10000%N.
Definition BAN : Permissions := 0x20000%N.
Definition REGISTER : Permissions := 0x40000%N.
Definition SELF_REGISTER : Permissions := 0x80000%N.
Definition MANAGE_ACL : Permissions := 0x100000%N.
Definition SUDO : Permissions := 0x200000%N.
Definition BANNED : Permissions := 0x400000%N.
Definition MANAGE_PARTICIPANTS : Permissions := 0x800000%N.

(** The set operations of the bitflags type.  [complement] (the [!] operator)
    keeps defined bits only; [difference] works on the raw bits. *)
Definition empty : Permissions := 0%N.
Definition union (a b : Permissions) : Permissions := N.lor a b.
Definition inter (a b : Permissions) : Permissions := N.land a b.
Definition difference (a b : Permissions) : Permissions := N.ldiff a b.

Definition ALL_ROOM_SCOPED : Permissions :=
  union (union (union (union (union (union (union (union (union
    TRAVERSE ENTER) SPEAK) TEXT_MESSAGE) SHARE_FILE) MUTE_DEAFEN) MOVE_USER)
    MAKE_ROOM) MODIFY_ROOM) WRITE.

Definition ALL_SERVER_SCOPED : Permissions :=
  union (union (union (union (union (union (union
    KICK BAN) REGISTER) SELF_REGISTER) MANAGE_ACL) SUDO) BANNED) MANAGE_PARTICIPANTS.

Definition ALL : Permissions := union ALL_ROOM_SCOPED ALL_SERVER_SCOPED.

Definition complement (a : Permissions) : Permissions := N.ldiff ALL a.

Definition DEFAULT_PERMISSIONS : Permissions :=
  union (union (union (union (union (union (union
    TRAVERSE ENTER) SPEAK) TEXT_MESSAGE) SHARE_FILE) SELF_REGISTER) MAKE_ROOM) MODIFY_ROOM.

Definition ADMIN_PERMISSIONS : Permissions := difference ALL BANNED.

(** [self.contains(other)]. *)
Definition contains (self other : Permissions) : bool := N.eqb (N.land self other) other.

(** [Permissions::from_bits] and [from_bits_truncate]. *)
Definition from_bits (bits : N) : option Permissions :=
  if N.eqb (N.ldiff bits ALL) 0 then Some bits else None.
Definition from_bits_truncate (bits : N) : Permissions := N.land bits ALL.

Definition has_permission (effective required : Permissions) : bool :=
  contains effective required.

(** The [Serialize]/[Deserialize] pair, through the [u32] value. *)
Definition serialize_permissions (p : Permissions) : N := p.
Definition deserialize_permissions (bits : N) : result Permissions :=
  match from_bits bits with
  | Some p => Ok p
  | None => Err "invalid permission bits"%string
  end.

(** ** ACL data *)

Record PermissionGroup := {
  group_name : string;
  group_permissions : Permissions;
}.

Record AclEntry := {
  group : string;
  grant : Permissions;
  deny : Permissions;
  apply_here : bool;
  apply_subs : bool;
}.

Record RoomAclData := {
  inherit_acl : bool;
  entries : list AclEntry;
}.

(** ** Evaluation *)

(** Base = union of all the user's group permissions. *)
Fixpoint base_permissions (user_groups : list string) (gp : gmap string Permissions)
    (base : Permissions) : Permissions :=
  match user_groups with
  | [] => base
  | g :: r =>
      base_permissions r gp
        (match gp !! g with Some perms => union base perms | None => base end)
  end.

(** The inner loop over one room's entries. *)
Fixpoint apply_entries (user_groups : list string) (is_target : bool)
    (es : list AclEntry) (granted : Permissions) : Permissions :=
  match es with
  | [] => granted
  | e :: r =>
      let granted' :=
        if negb (Prelude.contains user_groups (group e)) then granted
        else if is_target && negb (apply_here e) then granted
        else if negb is_target && negb (apply_subs e) then granted
        else inter (union granted (grant e)) (complement (deny e)) in
      apply_entries user_groups is_target r granted'
  end.

(** The outer loop: [inl] is the early return, [inr] the value reached at the
    end of the chain. *)
Fixpoint walk_chain {R : Type} (user_groups : list string) (base : Permissions)
    (last_idx idx : nat) (chain : list (R * option RoomAclData))
    (granted : Permissions) : Permissions + Permissions :=
  match chain with
  | [] => inr granted
  | (_, acl_data) :: rest =>
      let is_target := Nat.eqb idx last_idx in
      let granted :=
        match acl_data with
        | Some acl =>
            let granted := if negb (inherit_acl acl) then base else granted in
            apply_entries user_groups is_target (entries acl) granted
        | None => granted
        end in
      if negb is_target && negb (contains granted TRAVERSE)
      then inl empty
      else walk_chain user_groups base last_idx (S idx) rest granted
  end.

Definition effective_permissions {R : Type} (user_groups : list string)
    (gp : gmap string Permissions) (room_chain : list (R * option RoomAclData))
    (is_superuser : bool) : Permissions :=
  if is_superuser then ALL
  else
    let base := base_permissions user_groups gp empty in
    let last_idx := List.length room_chain - 1 in
    match walk_chain user_groups base last_idx 0 room_chain base with
    | inl p => p
    | inr granted =>
        if Nat.ltb 1 (List.length room_chain)
        then inter granted (complement ALL_SERVER_SCOPED)
        else granted
    end.

(** ** What the evaluation promises

    For one permission bit, every rule of the chain that applies to the user
    either grants it, denies it (deny wins inside one rule), or says nothing;
    a room that does not inherit restores the base value.  The last word
    counts. *)

Definition entry_applies (ug : list string) (is_target : bool) (e : AclEntry) : bool :=
  Prelude.contains ug (group e) && (if is_target then apply_here e else apply_subs e).

Definition entry_verdict (e : AclEntry) (i : N) : option bool :=
  if N.testbit (deny e) i then Some false
  else if N.testbit (grant e) i then Some true else None.

Definition room_verdicts (ug : list string) (i : N) (b0 is_target : bool)
    (acl : option RoomAclData) : list bool :=
  match acl with
  | None => []
  | Some a =>
      (if inherit_acl a then [] else [b0]) ++
      omap (λ e, if entry_applies ug is_target e then entry_verdict e i else None) (entries a)
  end.

Definition base_bit (ug : list string) (gp : gmap string Permissions) (i : N) : bool :=
  existsb (λ g, match gp !! g with Some p => N.testbit p i | None => false end) ug.

(** All the verdicts along a chain whose last room is the target, and along
    a prefix that does not contain the target. *)
Definition ancestors_verdicts {R} ug i b0 (chain : list (R * option RoomAclData)) : list bool :=
  flat_map (λ r, room_verdicts ug i b0 false r.2) chain.

Definition chain_verdict {R} (ug : list string) (gp : gmap string Permissions)
    (chain : list (R * option RoomAclData)) (i : N) : bool :=
  let b0 := base_bit ug gp i in
  List.last (ancestors_verdicts ug i b0 (removelast chain) ++
             match last chain with
             | Some r => room_verdicts ug i b0 true r.2
             | None => []
             end) b0.

(** Every proper ancestor leaves TRAVERSE standing. *)
Definition can_traverse {R} (ug : list string) (gp : gmap string Permissions)
    (chain : list (R * option RoomAclData)) : bool :=
  let b0 := base_bit ug gp 0 in
  forallb (λ k, List.last (ancestors_verdicts ug 0 b0 (take k chain)) b0)
          (seq 1 (List.length chain - 1)).

(** ** Lemmas *)

Lemma base_permissions_bit ug gp base i :
  N.testbit (base_permissions ug gp base) i = N.testbit base i || base_bit ug gp i.
Proof.
  revert base. induction ug as [|g ug IH]; intros base; simpl.
  - by rewrite orb_false_r.
  - rewrite IH. destruct (gp !! g) as [p|]; simpl; [|done].
    unfold union. rewrite N.lor_spec. by rewrite orb_assoc.
Qed.

(** One rule, seen at one bit. *)
Lemma entry_step_bit g e i :
  N.testbit ALL i = true →
  N.testbit (inter (union g (grant e)) (complement (deny e))) i
  = default (N.testbit g i) (entry_verdict e i).
Proof.
  intros Hi. unfold inter, union, complement, entry_verdict.
  rewrite N.land_spec, N.lor_spec, N.ldiff_spec, Hi.
  destruct (N.testbit (deny e) i), (N.testbit (grant e) i), (N.testbit g i); done.
Qed.

Lemma apply_entries_cons ug t e es g :
  apply_entries ug t (e :: es) g =
  apply_entries ug t es
    (if entry_applies ug t e then inter (union g (grant e)) (complement (deny e)) else g).
Proof.
  simpl. unfold entry_applies.
  destruct (Prelude.contains ug (group e)), t, (apply_here e), (apply_subs e); done.
Qed.

Lemma apply_entries_bit ug t es g i :
  N.testbit ALL i = true →
  N.testbit (apply_entries ug t es g) i =
  List.last (omap (λ e, if entry_applies ug t e then entry_verdict e i else None) es)
            (N.testbit g i).
Proof.
  intros Hi. revert g. induction es as [|e es IH]; intros g; [done|].
  rewrite apply_entries_cons, IH. cbn [omap list_omap].
  destruct (entry_applies ug t e); [|done].
  rewrite entry_step_bit by done.
  destruct (entry_verdict e i) as [b|]; [|done]. by rewrite last_cons_default.
Qed.

(** The value a room leaves, seen at one bit. *)
Definition room_step (ug : list string) (base : Permissions) (t : bool)
    (acl : option RoomAclData) (g : Permissions) : Permissions :=
  match acl with
  | Some a => apply_entries ug t (entries a) (if negb (inherit_acl a) then base else g)
  | None => g
  end.

Lemma room_step_bit ug base t acl g i :
  N.testbit ALL i = true →
  N.testbit (room_step ug base t acl g) i =
  List.last (room_verdicts ug i (N.testbit base i) t acl) (N.testbit g i).
Proof.
  intros Hi. destruct acl as [a|]; [|done]. simpl.
  rewrite apply_entries_bit by done. rewrite last_app_default.
  by destruct (inherit_acl a).
Qed.

Lemma walk_chain_cons {R} ug base li idx (r : R) acl rest g :
  walk_chain ug base li idx ((r, acl) :: rest) g =
  let t := Nat.eqb idx li in
  let g' := room_step ug base t acl g in
  if negb t && negb (contains g' TRAVERSE) then inl empty
  else walk_chain ug base li (S idx) rest g'.
Proof. by destruct acl. Qed.

Lemma contains_TRAVERSE g : contains g TRAVERSE = N.testbit g 0.
Proof.
  unfold contains, TRAVERSE. change 1%N with (N.ones 1).
  rewrite N.land_ones, <- N.bit0_mod. by destruct (N.testbit g 0).
Qed.

Definition all_bit_0 : N.testbit ALL 0 = true := eq_refl.

(** The walk over the proper ancestors [anc] followed by the target. *)
Lemma walk_chain_ancestors {R} ug base (anc : list (R * option RoomAclData)) tgt idx g i :
  N.testbit ALL i = true →
  match walk_chain ug base (idx + List.length anc) idx (anc ++ [tgt]) g with
  | inl p =>
      p = empty ∧
      forallb (λ k, List.last (ancestors_verdicts ug 0 (N.testbit base 0) (take k anc))
                              (N.testbit g 0)) (seq 1 (List.length anc)) = false
  | inr g' =>
      forallb (λ k, List.last (ancestors_verdicts ug 0 (N.testbit base 0) (take k anc))
                              (N.testbit g 0)) (seq 1 (List.length anc)) = true ∧
      N.testbit g' i =
      List.last (ancestors_verdicts ug i (N.testbit base i) anc ++
                 room_verdicts ug i (N.testbit base i) true tgt.2) (N.testbit g i)
  end.
Proof.
  intros Hi. revert idx g. induction anc as [|[r acl] anc IH]; intros idx g.
  - destruct tgt as [r acl]. rewrite app_nil_l, walk_chain_cons.
    rewrite Nat.add_0_r, Nat.eqb_refl. cbn -[room_verdicts room_step].
    split; [done|]. by apply room_step_bit.
  - rewrite <- app_comm_cons, walk_chain_cons. cbn zeta.
    replace (idx =? idx + List.length ((r, acl) :: anc))%nat with false
      by (symmetry; apply Nat.eqb_neq; simpl; lia).
    cbn [negb andb]. rewrite contains_TRAVERSE.
    set (g1 := room_step ug base false acl g).
    assert (N.testbit g1 0 = List.last (room_verdicts ug 0 (N.testbit base 0) false acl)
                                       (N.testbit g 0)) as H0
      by (by apply room_step_bit).
    change (seq 1 (List.length ((r, acl) :: anc))) with (1 :: seq 2 (List.length anc)).
    rewrite <- seq_shift. cbn [forallb take].
    rewrite forallb_map_comp.
    assert (∀ k, List.last (ancestors_verdicts ug 0 (N.testbit base 0) (take (S k) ((r, acl) :: anc)))
                           (N.testbit g 0)
               = List.last (ancestors_verdicts ug 0 (N.testbit base 0) (take k anc))
                           (N.testbit g1 0)) as Hk.
    { intros k. cbn [take ancestors_verdicts flat_map snd]. by rewrite last_app_default, H0. }
    cbn [ancestors_verdicts flat_map snd]. rewrite app_nil_r, <- H0.
    destruct (N.testbit g1 0) eqn:Hg1; cbn [negb andb]; [|by split].
    specialize (IH (S idx) g1). rewrite Hg1 in IH.
    replace (S idx + List.length anc) with (idx + List.length ((r, acl) :: anc)) in IH
      by (simpl; lia).
    rewrite (forallb_ext_in _ _ _ (λ k _, Hk k)).
    destruct (walk_chain _ _ _ _ _ _) as [p|g']; destruct IH as [IH1 IH2]; [by split|].
    split; [done|]. rewrite IH2, <- app_assoc, !last_app_default. do 2 f_equal.
    by apply room_step_bit.
Qed.

(** The early return always returns the empty set. *)
Lemma walk_chain_inl {R} ug base li idx (chain : list (R * option RoomAclData)) g p :
  walk_chain ug base li idx chain g = inl p → p = empty.
Proof.
  revert idx g. induction chain as [|[r acl] chain IH]; intros idx g E; [done|].
  rewrite walk_chain_cons in E. cbv zeta in E.
  destruct (negb _ && negb _); [by injection E as <-|]. exact (IH _ _ E).
Qed.

Lemma chain_shape {A} (l : list A) : l = [] ∨ ∃ anc tgt, l = anc ++ [tgt].
Proof. destruct l as [|x l] using rev_ind; [by left|right; eauto]. Qed.

Lemma complement_bit p i : N.testbit (complement p) i = N.testbit ALL i && negb (N.testbit p i).
Proof. apply N.ldiff_spec. Qed.

Lemma take_removelast {A} (anc : list A) tgt k : k ≤ List.length anc → take k (anc ++ [tgt]) = take k anc.
Proof. intros H. rewrite take_app. replace (k - List.length anc) with 0 by lia. by rewrite app_nil_r. Qed.

(** ** Properties *)

(** C7: [effective_permissions] computes the documented rule, bit by bit: for
    every defined permission bit and every chain of rooms, a non-superuser holds
    the bit exactly when TRAVERSE stands at every proper ancestor, the bit is not
    server-scoped below the root, and the last rule that says something about
    the bit (deny winning inside one rule, a room that does not inherit falling
    back to the union of the user's groups) grants it. *)
Theorem effective_permissions_spec {R} (ug : list string) (gp : gmap string Permissions)
    (chain : list (R * option RoomAclData)) (i : N) :
  N.testbit ALL i = true →
  N.testbit (effective_permissions ug gp chain false) i =
  can_traverse ug gp chain
  && negb ((1 <? List.length chain)%nat && N.testbit ALL_SERVER_SCOPED i)
  && chain_verdict ug gp chain i.
Proof.
  intros Hi. unfold effective_permissions. cbv zeta.
  set (base := base_permissions ug gp empty).
  assert (∀ j, N.testbit base j = base_bit ug gp j) as Hb
    by (intros j; unfold base; by rewrite base_permissions_bit).
  destruct (chain_shape chain) as [->|(anc & tgt & ->)]; [cbn; by rewrite <- Hb|].
  unfold can_traverse, chain_verdict. cbv zeta. rewrite <- !Hb.
  rewrite removelast_last, last_snoc, length_app. cbn [List.length].
  replace (List.length anc + 1 - 1) with (List.length anc) by lia.
  rewrite (forallb_ext_in _ (λ k, List.last (ancestors_verdicts ug 0 (N.testbit base 0)
             (take k anc)) (N.testbit base 0)) (seq 1 (List.length anc)))
    by (intros k Hk%elem_of_seq; rewrite take_removelast by lia; done).
  pose proof (walk_chain_ancestors ug base anc tgt 0 base i Hi) as H.
  rewrite Nat.add_0_l in H.
  destruct (walk_chain _ _ _ _ _ _) as [p|g]; destruct H as [H1 H2].
  - rewrite H2. subst p. apply N.bits_0.
  - rewrite H1. cbn [andb]. rewrite <- H2.
    destruct (1 <? List.length anc + 1)%nat; cbn [andb negb]; [|done].
    unfold inter. rewrite N.land_spec, complement_bit, Hi. cbn [andb].
    by rewrite andb_comm.
Qed.

Lemma effective_permissions_spec_witness :
  N.testbit ALL 2 = true ∧
  N.testbit (effective_permissions (R := nat) ["default"%string]
     {["default"%string := DEFAULT_PERMISSIONS]}
     [(0%nat, None); (1%nat, Some {| inherit_acl := true; entries :=
        [{| group := "default"; grant := empty; deny := SPEAK;
            apply_here := true; apply_subs := true |}] |})] false) 2 = false.
Proof.
  split; [reflexivity|].
  rewrite (effective_permissions_spec (R := nat)); [vm_compute|]; reflexivity.
Defined.

(** Server-scoped permissions (KICK, BAN, SUDO, BANNED, ...) never count
    outside the root: when the chain goes below the root, the result of the
    evaluation holds none of them, whatever groups and ACLs grant. *)
Theorem server_scoped_only_at_root {R} (ug : list string) (gp : gmap string Permissions)
    (chain : list (R * option RoomAclData)) :
  1 < List.length chain →
  inter (effective_permissions ug gp chain false) ALL_SERVER_SCOPED = empty.
Proof.
  intros Hlen. unfold effective_permissions. cbv zeta.
  destruct (walk_chain _ _ _ _ _ _) as [p|g] eqn:E.
  - by rewrite (walk_chain_inl _ _ _ _ _ _ _ E).
  - apply Nat.ltb_lt in Hlen. rewrite Hlen. apply N.bits_inj. intros i.
    unfold inter. rewrite !N.land_spec, complement_bit, N.bits_0.
    destruct (N.testbit g i), (N.testbit ALL i), (N.testbit ALL_SERVER_SCOPED i); done.
Qed.

Lemma server_scoped_only_at_root_witness :
  1 < List.length [(0%nat, @None RoomAclData); (1%nat, None)] ∧
  inter (effective_permissions ["admin"%string] {["admin"%string := ALL]}
           [(0%nat, None); (1%nat, None)] false) ALL_SERVER_SCOPED = empty.
Proof. split; [simpl; lia|]. apply server_scoped_only_at_root. simpl. lia. Defined.

End Perm.
