(* ===== verification/Proto.v ===== *)
(** The protobuf messages of the wire protocol that the modelled code reads or
    builds ([crates/rumble-protocol/proto/api.proto]), as the records prost
    generates from them: a [message]-typed field is an [option], a [bytes]
    field a list of bytes, [optional] an [option], [repeated] a list, and a
    [oneof] an inductive type.  [int64] is [Z], unsigned integers are [N]. *)
From Stdlib Require Import NArith ZArith String.
From stdpp Require Import base list.
From S2P Require Import Prelude.

Module Proto.

Record RoomId := mkRoomId { rid_uuid : bytes }.
Record UserId := mkUserId { uid_value : N }.

Record RoomAclEntry := mkRoomAclEntry {
  pae_group : string;
  pae_grant : N;
  pae_deny : N;
  pae_apply_here : bool;
  pae_apply_subs : bool;
}.

Record RoomInfo := mkRoomInfo {
  ri_id : option RoomId;
  ri_name : string;
  ri_parent_id : option RoomId;
  ri_description : option string;
  ri_inherit_acl : bool;
  ri_acls : list RoomAclEntry;
  ri_effective_permissions : N;
}.

Record User := mkUser {
  pu_user_id : option UserId;
  pu_username : string;
  pu_current_room : option RoomId;
  pu_is_muted : bool;
  pu_is_deafened : bool;
  pu_server_muted : bool;
  pu_is_elevated : bool;
  pu_groups : list string;
  pu_label : option string;
}.

Record GroupInfo := mkGroupInfo {
  gi_name : string;
  gi_permissions : N;
  gi_is_builtin : bool;
}.

Record SlashCommand := mkSlashCommand { sc_name : string; sc_description : string }.

Record ServerState := mkServerState {
  ss_rooms : list RoomInfo;
  ss_users : list User;
  ss_groups : list GroupInfo;
  ss_slash_commands : list SlashCommand;
}.

Record ChatAttachment := mkChatAttachment {
  pca_namespace : string;
  pca_schema_version : N;
  pca_payload : bytes;
  pca_fallback_text : string;
}.

Record GroupMembership := mkGroupMembership { pgm_group : string; pgm_expires_at : N }.

Record RegisteredUserInfo := mkRegisteredUserInfo {
  rui_public_key : bytes;
  rui_username : string;
  rui_groups : list GroupMembership;
  rui_online : bool;
}.

Record VoiceDatagram := mkVoiceDatagram {
  vd_opus_data : bytes;
  vd_sequence : N;
  vd_timestamp_us : N;
  vd_end_of_stream : bool;
  vd_sender_id : option N;
  vd_room_id : option bytes;
}.

Record PermissionDenied := mkPermissionDenied {
  pd_required_permission : N;
  pd_room_id : bytes;
  pd_message : string;
}.

Record SessionCertificate := mkSessionCertificate {
  cert_session_public_key : bytes;
  cert_issued_ms : Z;
  cert_expires_ms : Z;
  cert_device : option string;
  cert_user_signature : bytes;
}.

Record ClientHello := mkClientHello {
  ch_username : string;
  ch_public_key : bytes;
  ch_password : option string;
}.

Record Authenticate := mkAuthenticate {
  auth_signature : bytes;
  auth_timestamp_ms : Z;
  auth_session_cert : option SessionCertificate;
}.

Record ChatMessage := mkChatMessage {
  cm_id : bytes;
  cm_timestamp_ms : Z;
  cm_sender : string;
  cm_text : string;
  cm_tree : option bool;
  cm_attachment : option ChatAttachment;
}.

Record DirectMessage := mkDirectMessage {
  dm_target_user_id : N;
  dm_text : string;
  dm_id : bytes;
  dm_timestamp_ms : Z;
}.

Record ChatBroadcast := mkChatBroadcast {
  cb_id : bytes;
  cb_timestamp_ms : Z;
  cb_sender : string;
  cb_text : string;
  cb_tree : option bool;
  cb_attachment : option ChatAttachment;
  cb_sender_id : N;
}.

Record DirectMessageReceived := mkDirectMessageReceived {
  dmr_sender_id : N;
  dmr_sender_name : string;
  dmr_text : string;
  dmr_id : bytes;
  dmr_timestamp_ms : Z;
  dmr_target_user_id : N;
  dmr_target_username : string;
}.

Record CreateRoom := mkCreateRoom {
  cr_name : string;
  cr_parent_id : option RoomId;
  cr_description : option string;
}.

Record SetRoomAcl := mkSetRoomAcl {
  sra_room_id : bytes;
  sra_inherit_acl : bool;
  sra_entries : list RoomAclEntry;
  sra_base_version : N;
}.

Record ParticipantChat := mkParticipantChat {
  pc_user_id : N;
  pc_text : string;
  pc_room_id : option RoomId;
  pc_tree : option bool;
}.

(** [StateUpdate.update]: the incremental changes the server broadcasts. *)
Inductive Update :=
  | UserMoved (user_id : option UserId) (to_room_id : option RoomId)
  | UserJoined (user : option User)
  | UserLeft (user_id : option UserId)
  | RoomCreated (room : option RoomInfo)
  | RoomDeleted (room_id fallback_room_id : option RoomId)
  | RoomRenamed (room_id : option RoomId) (new_name : string)
  | RoomMoved (room_id new_parent_id : option RoomId)
  | RoomDescriptionChanged (room_id : option RoomId) (description : string)
  | UserStatusChanged (user_id : option UserId)
      (is_muted is_deafened server_muted is_elevated : bool)
  | RoomAclChanged (room_id : option RoomId) (inherit_acl : bool) (entries : list RoomAclEntry)
  | GroupChanged (group : option GroupInfo) (deleted : bool)
  | UserGroupChanged (user_id : N) (group : string) (added : bool) (expires_at : N).

(** The payloads the server sends ([Envelope.payload] and, inside
    [ServerEvent], its [kind]). *)
Inductive ServerPayload :=
  | ServerHello (nonce : bytes) (server_name : string) (user_id : N)
  | AuthFailed (error : string)
  | CommandResult (command : string) (success : bool) (message : string)
  | PermissionDeniedMsg (denied : PermissionDenied)
  | UserKicked (user_id : N) (reason kicked_by : string)
  | ParticipantRegistered (user_id : N) (username : string)
  | RegisteredUsers (users : list RegisteredUserInfo)
  | EvServerState (state : ServerState)
  | EvStateUpdate (expected_hash : bytes) (update : Update)
  | EvChatBroadcast (chat : ChatBroadcast)
  | EvDirectMessageReceived (dm : DirectMessageReceived)
  | EvWelcomeMessage (text : string).

(** The payloads a client sends.  A message the server only ever sends is
    [ServerToClient]; [handle_envelope] ignores it. *)
Inductive ClientPayload :=
  | PClientHello (m : ClientHello)
  | PAuthenticate (m : Authenticate)
  | PChatMessage (m : ChatMessage)
  | PDirectMessage (m : DirectMessage)
  | PJoinRoom (room_id : option RoomId)
  | PDisconnect (reason : string)
  | PCreateRoom (m : CreateRoom)
  | PDeleteRoom (room_id : option RoomId)
  | PRenameRoom (room_id : option RoomId) (new_name : string)
  | PMoveRoom (room_id new_parent_id : option RoomId)
  | PSetRoomDescription (room_id : option RoomId) (description : string)
  | PRequestStateSync (expected_hash actual_hash : bytes)
  | PSetUserStatus (is_muted is_deafened : bool)
  | PRegisterUser (user_id : option UserId)
  | PUnregisterUser (user_id : option UserId)
  | PControllerHello (controller_name : string)
  | PRegisterParticipant (username : string) (label : option string) (external_identity : option bytes)
  | PUnregisterParticipant (user_id : N)
  | PMoveParticipant (user_id : N) (room_id : option RoomId)
  | PSetParticipantStatus (user_id : N) (is_muted is_deafened : bool)
  | PParticipantChat (m : ParticipantChat)
  | PKickUser (target_user_id : N) (reason : string)
  | PBanUser (target_user_id : N) (reason : string) (duration_seconds : N)
  | PSetServerMute (target_user_id : N) (muted : bool)
  | PElevate (password : string)
  | PCreateGroup (name : string) (permissions : N)
  | PDeleteGroup (name : string)
  | PModifyGroup (name : string) (permissions : N)
  | PToggleGroupPermission (name : string) (bits : N) (enable : bool)
  | PSetUserGroup (target_user_id : N) (group : string) (add : bool) (expires_at : N)
  | PSetRoomAcl (m : SetRoomAcl)
  | PRequestRegisteredUsers
  | PSetRegisteredUserGroup (public_key : bytes) (group : string) (add : bool) (expires_at : N)
  | PServerToClient.

End Proto.
