(* ===== verification/Types.v ===== *)
(** The domain types and their wire conversions
    ([crates/rumble-protocol/src/types.rs] and the room-id helpers of
    [crates/rumble-protocol/src/lib.rs]).

    A [Uuid] is its sixteen bytes ([Uuid::as_bytes] and [Uuid::from_bytes] are
    the two directions of that view); Root is the nil uuid. *)
From Stdlib Require Import NArith String.
From stdpp Require Import base list.
From S2P Require Import Prelude Proto.

Module Types.

Definition Uuid : Type := array 16.
Definition ROOT_ROOM_UUID : Uuid := array_of_N 16 0.
Definition PublicKey : Type := array 32.

Definition room_id_from_uuid (uuid : Uuid) : Proto.RoomId := Proto.mkRoomId (arr uuid).

Definition uuid_from_room_id (room_id : Proto.RoomId) : option Uuid :=
  if Nat.eqb (List.length (Proto.rid_uuid room_id)) 16
  then array_of_slice 16 (Proto.rid_uuid room_id)
  else None.

Definition root_room_id : Proto.RoomId := room_id_from_uuid ROOT_ROOM_UUID.

Definition is_root_room (room_id : Proto.RoomId) : bool :=
  match uuid_from_room_id room_id with
  | Some u => bool_decide (u = ROOT_ROOM_UUID)
  | None => false
  end.

(** [opt.as_ref().and_then(uuid_from_room_id).unwrap_or(ROOT_ROOM_UUID)], the
    way the handlers resolve a room id. *)
Definition room_or_root (o : option Proto.RoomId) : Uuid :=
  default ROOT_ROOM_UUID (o ≫= uuid_from_room_id).

Record ChatAttachment := mkChatAttachment {
  ca_namespace : string;
  ca_schema_version : N;
  ca_payload : bytes;
  ca_fallback_text : string;
}.

Definition chat_attachment_from_proto (att : Proto.ChatAttachment) : ChatAttachment :=
  mkChatAttachment (Proto.pca_namespace att) (Proto.pca_schema_version att)
    (Proto.pca_payload att) (Proto.pca_fallback_text att).

Definition chat_attachment_to_proto (att : ChatAttachment) : Proto.ChatAttachment :=
  Proto.mkChatAttachment (ca_namespace att) (ca_schema_version att)
    (ca_payload att) (ca_fallback_text att).

Record RoomAclEntry := mkRoomAclEntry {
  ae_group : string;
  ae_grant : N;
  ae_deny : N;
  ae_apply_here : bool;
  ae_apply_subs : bool;
}.

Definition acl_entry_from_proto (p : Proto.RoomAclEntry) : RoomAclEntry :=
  mkRoomAclEntry (Proto.pae_group p) (Proto.pae_grant p) (Proto.pae_deny p)
    (Proto.pae_apply_here p) (Proto.pae_apply_subs p).

Definition acl_entry_to_proto (e : RoomAclEntry) : Proto.RoomAclEntry :=
  Proto.mkRoomAclEntry (ae_group e) (ae_grant e) (ae_deny e)
    (ae_apply_here e) (ae_apply_subs e).

Record Room := mkRoom {
  room_id : Uuid;
  room_name : string;
  room_parent : Uuid;
  room_description : option string;
  room_inherit_acl : bool;
  room_acls : list RoomAclEntry;
  room_effective_permissions : N;
}.

Definition is_root (r : Room) : bool := bool_decide (room_id r = ROOT_ROOM_UUID).
Definition is_top_level (r : Room) : bool := bool_decide (room_parent r = ROOT_ROOM_UUID).

Definition room_from_proto (p : Proto.RoomInfo) : option Room :=
  id ← Proto.ri_id p ≫= uuid_from_room_id;
  let parent := default ROOT_ROOM_UUID (Proto.ri_parent_id p ≫= uuid_from_room_id) in
  Some (mkRoom id (Proto.ri_name p) parent (Proto.ri_description p) (Proto.ri_inherit_acl p)
          (map acl_entry_from_proto (Proto.ri_acls p)) (Proto.ri_effective_permissions p)).

Definition room_to_proto (r : Room) : Proto.RoomInfo :=
  Proto.mkRoomInfo
    (Some (room_id_from_uuid (room_id r)))
    (room_name r)
    (if negb (bool_decide (room_parent r = ROOT_ROOM_UUID))
     then Some (room_id_from_uuid (room_parent r)) else None)
    (room_description r)
    (room_inherit_acl r)
    (map acl_entry_to_proto (room_acls r))
    (room_effective_permissions r).

Definition room_to_hash_input (r : Room) : Proto.RoomInfo :=
  let p := room_to_proto r in
  Proto.mkRoomInfo (Proto.ri_id p) (Proto.ri_name p) (Proto.ri_parent_id p)
    (Proto.ri_description p) (Proto.ri_inherit_acl p) (Proto.ri_acls p) 0%N.

Record User := mkUser {
  user_id : N;
  username : string;
  current_room : Uuid;
  is_muted : bool;
  is_deafened : bool;
  server_muted : bool;
  is_elevated : bool;
  groups : list string;
  label : option string;
}.

Definition user_from_proto (p : Proto.User) : option User :=
  uid ← Proto.pu_user_id p;
  let current_room := default ROOT_ROOM_UUID (Proto.pu_current_room p ≫= uuid_from_room_id) in
  Some (mkUser (Proto.uid_value uid) (Proto.pu_username p) current_room (Proto.pu_is_muted p)
          (Proto.pu_is_deafened p) (Proto.pu_server_muted p) (Proto.pu_is_elevated p)
          (Proto.pu_groups p) (Proto.pu_label p)).

Definition user_to_proto (u : User) : Proto.User :=
  Proto.mkUser (Some (Proto.mkUserId (user_id u))) (username u)
    (Some (room_id_from_uuid (current_room u))) (is_muted u) (is_deafened u)
    (server_muted u) (is_elevated u) (groups u) (label u).

Record Group := mkGroup { grp_name : string; grp_permissions : N; grp_is_builtin : bool }.

Definition group_from_proto (p : Proto.GroupInfo) : Group :=
  mkGroup (Proto.gi_name p) (Proto.gi_permissions p) (Proto.gi_is_builtin p).
Definition group_to_proto (g : Group) : Proto.GroupInfo :=
  Proto.mkGroupInfo (grp_name g) (grp_permissions g) (grp_is_builtin g).

Record SlashCommand := mkSlashCommand { cmd_name : string; cmd_description : string }.

Definition slash_command_from_proto (p : Proto.SlashCommand) : SlashCommand :=
  mkSlashCommand (Proto.sc_name p) (Proto.sc_description p).
Definition slash_command_to_proto (c : SlashCommand) : Proto.SlashCommand :=
  Proto.mkSlashCommand (cmd_name c) (cmd_description c).

(** [expires_at = None] is permanent; the wire writes it [0]. *)
Record GroupMembership := mkGroupMembership { gm_group : string; gm_expires_at : option N }.

Definition membership_from_proto (p : Proto.GroupMembership) : GroupMembership :=
  mkGroupMembership (Proto.pgm_group p)
    (if negb (Proto.pgm_expires_at p =? 0)%N then Some (Proto.pgm_expires_at p) else None).
Definition membership_to_proto (m : GroupMembership) : Proto.GroupMembership :=
  Proto.mkGroupMembership (gm_group m) (default 0%N (gm_expires_at m)).

Record RegisteredUser := mkRegisteredUser {
  reg_public_key : PublicKey;
  reg_username : string;
  reg_groups : list GroupMembership;
  reg_online : bool;
}.

Definition registered_user_from_proto (p : Proto.RegisteredUserInfo) : option RegisteredUser :=
  public_key ← array_of_slice 32 (Proto.rui_public_key p);
  Some (mkRegisteredUser public_key (Proto.rui_username p)
          (map membership_from_proto (Proto.rui_groups p)) (Proto.rui_online p)).

Definition registered_user_to_proto (u : RegisteredUser) : Proto.RegisteredUserInfo :=
  Proto.mkRegisteredUserInfo (arr (reg_public_key u)) (reg_username u)
    (map membership_to_proto (reg_groups u)) (reg_online u).

(** ** Lemmas *)

Lemma uuid_from_room_id_from_uuid (u : Uuid) : uuid_from_room_id (room_id_from_uuid u) = Some u.
Proof.
  unfold uuid_from_room_id, room_id_from_uuid. simpl.
  rewrite length_arr. simpl. apply array_of_slice_arr.
Qed.

Lemma uuid_from_room_id_Some r u : uuid_from_room_id r = Some u ↔ Proto.rid_uuid r = arr u.
Proof.
  destruct r as [l]. unfold uuid_from_room_id. simpl. split.
  - destruct (Nat.eqb _ _); [|done]. by intros ->%array_of_slice_Some.
  - intros ->. by apply uuid_from_room_id_from_uuid.
Qed.

Lemma acl_entry_from_to_proto e : acl_entry_from_proto (acl_entry_to_proto e) = e.
Proof. by destruct e. Qed.

Lemma room_to_proto_id r : Proto.ri_id (room_to_proto r) = Some (room_id_from_uuid (room_id r)).
Proof. done. Qed.

Lemma map_id_ext {A B} (f : A → B) (g : B → A) l : (∀ x, g (f x) = x) → map g (map f l) = l.
Proof. intros H. rewrite map_map. induction l as [|x l IH]; [done|]. simpl. by rewrite H, IH. Qed.

Lemma room_from_to_proto r : room_from_proto (room_to_proto r) = Some r.
Proof.
  destruct r as [id name parent desc inh acls eff]. unfold room_from_proto, room_to_proto. simpl.
  rewrite uuid_from_room_id_from_uuid. simpl.
  rewrite map_id_ext by apply acl_entry_from_to_proto.
  case_bool_decide as E; simpl; [by subst|]. by rewrite uuid_from_room_id_from_uuid.
Qed.

Lemma user_from_to_proto u : user_from_proto (user_to_proto u) = Some u.
Proof.
  unfold user_from_proto, user_to_proto. simpl. rewrite uuid_from_room_id_from_uuid. by destruct u.
Qed.

(** ** Properties *)

(** Every domain record survives the wire: decoding the encoding of a
    room, a user and a chat attachment gives the record back, with Root's
    (absent on the wire) parent restored, and the decoder never turns a record
    without a usable id into Root: it drops it. *)
Theorem wire_round_trips :
  (∀ r, room_from_proto (room_to_proto r) = Some r) ∧
  (∀ u, user_from_proto (user_to_proto u) = Some u) ∧
  (∀ a, chat_attachment_from_proto (chat_attachment_to_proto a) = a) ∧
  (∀ p r, room_from_proto p = Some r →
     ∃ i, Proto.ri_id p = Some i ∧ Proto.rid_uuid i = arr (room_id r)).
Proof.
  split; [apply room_from_to_proto|split; [apply user_from_to_proto|split]].
  - by intros [].
  - intros p r. unfold room_from_proto.
    destruct (Proto.ri_id p) as [i|]; [|done]. simpl.
    destruct (uuid_from_room_id i) as [u|] eqn:E; [|done]. intros [= <-]. simpl.
    exists i. split; [done|]. by apply uuid_from_room_id_Some.
Qed.

(** A registered-user record survives the wire unless it holds a timed
    membership that expires at second 0, which the wire cannot tell from a
    permanent one; and a record whose key is not 32 bytes long is dropped. *)
Theorem registered_user_round_trip (u : RegisteredUser) :
  (registered_user_from_proto (registered_user_to_proto u) = Some u ↔
   Forall (λ m, gm_expires_at m ≠ Some 0%N) (reg_groups u)) ∧
  (∀ p, registered_user_from_proto p = None ↔ List.length (Proto.rui_public_key p) ≠ 32).
Proof.
  assert (∀ m, membership_from_proto (membership_to_proto m) = m ↔ gm_expires_at m ≠ Some 0%N) as Hm.
  { intros [g [e|]]; unfold membership_from_proto, membership_to_proto; simpl; [|by split].
    destruct (N.eqb_spec e 0) as [->|He]; simpl; split; congruence. }
  split.
  - unfold registered_user_from_proto, registered_user_to_proto. simpl.
    rewrite array_of_slice_arr. simpl. destruct u as [k n gs o]. simpl.
    rewrite map_map. split.
    + intros [= H]. revert H. induction gs as [|m gs IH]; simpl; [by constructor|].
      intros [= H1 H2]. constructor; [by apply Hm|]. by apply IH.
    + intros H. do 2 f_equal. induction H as [|m gs H1 _ IH]; [done|]. simpl.
      rewrite IH. f_equal. by apply Hm.
  - intros p. unfold registered_user_from_proto.
    pose proof (array_of_slice_length 32 (Proto.rui_public_key p)) as H.
    destruct (array_of_slice 32 _) as [k|]; simpl; split; try done.
    + intros Hl. exfalso. by apply Hl, H.
    + intros _ Hl. apply H in Hl. by destruct Hl.
Qed.

End Types.
