(* ===== verification/Store.v ===== *)
(** The interfaces of the third-party code the server's persistence relies on.

    [KV] is what the source uses of a [sled::Tree], [KVLaws] the documented
    behaviour of a tree whose disk does not fail: it is a finite map from byte
    strings to byte strings, iterated in key order.  [Codec] is the
    [bincode::serialize]/[bincode::deserialize] pair of a serde type, and
    [CodecLaws] says that what was serialised is read back.  The instances at
    the end (a [gmap], and the encoding of a countable type) satisfy the laws;
    the witnesses run on them. *)
From Stdlib Require Import NArith Lia String.
From stdpp Require Import base gmap list sorting relations.
From S2P Require Import Prelude.

(** ** The operations of a tree *)

Class KV (T : Type) := {
  kv_get : bytes → T → result (option bytes);
  kv_contains_key : bytes → T → result bool;
  kv_insert : bytes → bytes → T → result unit * T;
  kv_remove : bytes → T → result unit * T;
  kv_is_empty : T → bool;
  kv_iter : T → list (result (bytes * bytes));
  (** the value after the update, and [None] removes the key *)
  kv_update_and_fetch : bytes → (option bytes → option bytes) → T → result (option bytes) * T;
}.

Definition key_le : relation (bytes * bytes) := λ a b, Is_true (bytes_leb a.1 b.1).

Class KVLaws (T : Type) `{KV T} := {
  kv_view : T → gmap bytes bytes;
  kv_get_ok k t : kv_get k t = Ok (kv_view t !! k);
  kv_contains_key_ok k t : kv_contains_key k t = Ok (bool_decide (is_Some (kv_view t !! k)));
  kv_insert_ok k v t : (kv_insert k v t).1 = Ok tt;
  kv_insert_view k v t : kv_view (kv_insert k v t).2 = <[k := v]> (kv_view t);
  kv_remove_ok k t : (kv_remove k t).1 = Ok tt;
  kv_remove_view k t : kv_view (kv_remove k t).2 = delete k (kv_view t);
  kv_is_empty_ok t : kv_is_empty t = bool_decide (kv_view t = ∅);
  kv_iter_ok t : ∃ l, kv_iter t = Ok <$> l ∧ l ≡ₚ map_to_list (kv_view t) ∧ StronglySorted key_le l;
  kv_update_ok k f t : (kv_update_and_fetch k f t).1 = Ok (f (kv_view t !! k));
  kv_update_view k f t :
    kv_view (kv_update_and_fetch k f t).2 =
    match f (kv_view t !! k) with
    | Some v => <[k := v]> (kv_view t)
    | None => delete k (kv_view t)
    end;
}.

(** ** Serialisation *)

Class Codec (A : Type) := {
  serialize : A → result bytes;
  deserialize : bytes → result A;
}.

Class CodecLaws (A : Type) `{Codec A} := {
  serialize_roundtrip (a : A) : ∃ b, serialize a = Ok b ∧ deserialize b = Ok a;
}.

(** The bytes of a value, for statements. *)
Definition encoded {A} `{Codec A} (a : A) : bytes :=
  match serialize a with Ok b => b | Err _ => [] end.

Lemma serialize_encoded {A} `{CodecLaws A} (a : A) : serialize a = Ok (encoded a).
Proof. unfold encoded. by destruct (serialize_roundtrip a) as (b & -> & _). Qed.

Lemma deserialize_encoded {A} `{CodecLaws A} (a : A) : deserialize (encoded a) = Ok a.
Proof. unfold encoded. by destruct (serialize_roundtrip a) as (b & -> & ?). Qed.

(** ** Reading a typed record *)

(** [tree.get(k).ok().flatten().and_then(|d| bincode::deserialize(&d).ok())]. *)
Definition read_record {T A} `{KV T, Codec A} (k : bytes) (t : T) : option A :=
  d ← (ok (kv_get k t) ≫= id); ok (deserialize d).

(** The same on the view. *)
Definition view_record {A} `{Codec A} (k : bytes) (m : gmap bytes bytes) : option A :=
  d ← m !! k; ok (deserialize d).

Section lemmas.
Context {T : Type} `{KVLaws T}.

Lemma read_record_view {A} `{Codec A} k (t : T) : read_record k t = view_record k (kv_view t).
Proof. unfold read_record, view_record. by rewrite kv_get_ok. Qed.

Lemma insert_pair k v (t : T) : kv_insert k v t = (Ok tt, (kv_insert k v t).2).
Proof. rewrite (surjective_pairing (kv_insert k v t)) at 1. by rewrite kv_insert_ok. Qed.

Lemma remove_pair k (t : T) : kv_remove k t = (Ok tt, (kv_remove k t).2).
Proof. rewrite (surjective_pairing (kv_remove k t)) at 1. by rewrite kv_remove_ok. Qed.

Lemma update_pair k f (t : T) :
  kv_update_and_fetch k f t = (Ok (f (kv_view t !! k)), (kv_update_and_fetch k f t).2).
Proof. rewrite (surjective_pairing (kv_update_and_fetch k f t)) at 1. by rewrite kv_update_ok. Qed.

(** The items an iteration yields are the bindings of the view. *)
Lemma elem_of_iter k v (t : T) : Ok (k, v) ∈ kv_iter t ↔ kv_view t !! k = Some v.
Proof.
  destruct (kv_iter_ok t) as (l & -> & Hp & _).
  rewrite list_elem_of_fmap. split.
  - intros (y & [= <-] & Hy). rewrite Hp in Hy. by apply elem_of_map_to_list in Hy.
  - intros Hy. exists (k, v). split; [done|]. rewrite Hp. by apply elem_of_map_to_list.
Qed.

Lemma iter_no_err e (t : T) : Err e ∉ kv_iter t.
Proof.
  destruct (kv_iter_ok t) as (l & -> & _). rewrite list_elem_of_fmap.
  by intros (y & [=] & _).
Qed.
End lemmas.

Lemma view_record_insert {A} `{CodecLaws A} k (a : A) m :
  view_record k (<[k := encoded a]> m) = Some a.
Proof. unfold view_record. rewrite lookup_insert_eq. simpl. by rewrite deserialize_encoded. Qed.

Lemma view_record_insert_ne {A} `{Codec A} k k' v m :
  k ≠ k' → view_record (A := A) k (<[k' := v]> m) = view_record k m.
Proof. intros Hne. unfold view_record. by rewrite lookup_insert_ne. Qed.

Lemma view_record_delete {A} `{Codec A} k m : view_record (A := A) k (delete k m) = None.
Proof. unfold view_record. by rewrite lookup_delete_eq. Qed.

Lemma view_record_delete_ne {A} `{Codec A} k k' m :
  k ≠ k' → view_record (A := A) k (delete k' m) = view_record k m.
Proof. intros Hne. unfold view_record. by rewrite lookup_delete_ne. Qed.

(** ** The order of the keys *)

Lemma bytes_leb_total a b : Is_true (bytes_leb a b) ∨ Is_true (bytes_leb b a).
Proof.
  revert b. induction a as [|x a IH]; intros [|y b]; simpl; try (by left); try (by right).
  destruct (N.ltb_spec (N_of_byte x) (N_of_byte y)); [by left|].
  destruct (N.eqb_spec (N_of_byte x) (N_of_byte y)) as [E|E].
  - rewrite E, N.ltb_irrefl, N.eqb_refl. apply IH.
  - right. replace (N_of_byte y <? N_of_byte x)%N with true; [done|].
    symmetry. apply N.ltb_lt. lia.
Qed.

Lemma bytes_leb_trans a b c : Is_true (bytes_leb a b) → Is_true (bytes_leb b c) → Is_true (bytes_leb a c).
Proof.
  revert b c. induction a as [|x a IH]; intros [|y b] [|z c]; simpl; try done.
  destruct (N.ltb_spec (N_of_byte x) (N_of_byte y)) as [L1|L1].
  - intros _. destruct (N.ltb_spec (N_of_byte y) (N_of_byte z)) as [L2|L2].
    + intros _. replace (N_of_byte x <? N_of_byte z)%N with true; [done|]. symmetry. apply N.ltb_lt. lia.
    + destruct (N.eqb_spec (N_of_byte y) (N_of_byte z)) as [E|E]; [|done]. intros _.
      replace (N_of_byte x <? N_of_byte z)%N with true; [done|]. symmetry. apply N.ltb_lt. lia.
  - destruct (N.eqb_spec (N_of_byte x) (N_of_byte y)) as [E|E]; [|done]. rewrite E.
    destruct (N.ltb_spec (N_of_byte y) (N_of_byte z)) as [L2|L2]; [done|].
    destruct (N.eqb_spec (N_of_byte y) (N_of_byte z)) as [E2|E2]; [|done]. apply IH.
Qed.

Lemma bytes_leb_antisym a b : Is_true (bytes_leb a b) → Is_true (bytes_leb b a) → a = b.
Proof.
  revert b. induction a as [|x a IH]; intros [|y b]; simpl; try done.
  destruct (N.ltb_spec (N_of_byte x) (N_of_byte y)) as [L1|L1].
  - replace (N_of_byte y <? N_of_byte x)%N with false by (symmetry; apply N.ltb_ge; lia).
    replace (N_of_byte y =? N_of_byte x)%N with false by (symmetry; apply N.eqb_neq; lia). done.
  - destruct (N.eqb_spec (N_of_byte x) (N_of_byte y)) as [E|E]; [|done].
    rewrite E, N.ltb_irrefl, N.eqb_refl. intros H1 H2. f_equal; [by apply N_of_byte_inj|by apply IH].
Qed.

#[export] Instance key_le_dec : RelDecision key_le.
Proof. intros a b. apply _. Defined.
#[export] Instance key_le_total : Total key_le.
Proof. intros a b. apply bytes_leb_total. Qed.
#[export] Instance key_le_trans : Transitive key_le.
Proof. intros a b c. apply bytes_leb_trans. Qed.

(** ** Instances: a healthy in-memory store, and a codec *)

#[export] Instance gmap_kv : KV (gmap bytes bytes) := {
  kv_get k t := Ok (t !! k);
  kv_contains_key k t := Ok (bool_decide (is_Some (t !! k)));
  kv_insert k v t := (Ok tt, <[k := v]> t);
  kv_remove k t := (Ok tt, delete k t);
  kv_is_empty t := bool_decide (t = ∅);
  kv_iter t := Ok <$> merge_sort key_le (map_to_list t);
  kv_update_and_fetch k f t :=
    (Ok (f (t !! k)), match f (t !! k) with Some v => <[k := v]> t | None => delete k t end);
}.

#[export] Instance gmap_kv_laws : KVLaws (gmap bytes bytes).
Proof.
  refine {| kv_view := id |}; try done.
  intros t. exists (merge_sort key_le (map_to_list t)). split; [done|]. split.
  - apply merge_sort_Permutation.
  - apply StronglySorted_merge_sort; apply _.
Defined.

(** The bytes of a number, with enough of them to read it back. *)
Definition pos_bytes (p : positive) : bytes := le_bytes (N.size_nat (Npos p)) (Npos p).
Definition bytes_pos (l : bytes) : option positive :=
  match of_le_bytes l with N0 => None | Npos p => Some p end.

Lemma bytes_pos_bytes p : bytes_pos (pos_bytes p) = Some p.
Proof.
  unfold bytes_pos, pos_bytes. rewrite of_le_bytes_le_bytes, N.mod_small; [done|].
  eapply N.lt_le_trans; [apply (N.size_gt (Npos p))|].
  replace (N.of_nat (N.size_nat (Npos p))) with (N.size (Npos p)).
  - change 256%N with (2 ^ 8)%N. rewrite <- N.pow_mul_r. apply N.pow_le_mono_r; lia.
  - clear. induction p as [p IH|p IH|]; cbn in *; lia.
Qed.

(** The codec of a countable type; not an instance, the witnesses name it. *)
Definition countable_codec A `{Countable A} : Codec A := {|
  serialize a := Ok (pos_bytes (encode a));
  deserialize b :=
    match bytes_pos b ≫= decode with Some a => Ok a | None => Err "decode"%string end;
|}.

Lemma countable_codec_laws A `{Countable A} : @CodecLaws A (countable_codec A).
Proof.
  split. intros a. exists (pos_bytes (encode a)). split; [done|].
  unfold deserialize, countable_codec. rewrite bytes_pos_bytes. unfold mbind, option_bind.
  by rewrite decode_encode.
Qed.
