(* ===== verification/Wire.v ===== *)
(** Framing, hashing and signature payloads
    ([crates/rumble-protocol/src/lib.rs]) and the server's stream read loop
    ([run_envelope_stream_with_prefix] in [crates/server/src/server.rs]).

    The length delimiter is prost's, behind the class [Delimiter] whose laws
    [DelimiterLaws] are those of a prefix code of [usize] values; the instance
    [leb128] is the protobuf varint.  blake3, sha256 and prost's message
    encoder are functions, the parameters of [Section hashing]. *)
From Stdlib Require Import NArith ZArith Lia String.
From stdpp Require Import base list sorting.
From S2P Require Import Prelude Proto Types Store.

(** ** prost's length delimiter *)

Class Delimiter := {
  encode_length_delimiter : N → bytes;
  decode_length_delimiter : bytes → result (N * bytes);
  length_delimiter_len : N → N;
}.

Class DelimiterLaws `{Delimiter} := {
  delimiter_roundtrip n rest : (n < 2 ^ 64)%N →
    decode_length_delimiter (encode_length_delimiter n ++ rest) = Ok (n, rest);
  delimiter_len n : (n < 2 ^ 64)%N →
    length_delimiter_len n = N.of_nat (List.length (encode_length_delimiter n));
  delimiter_len_max n : (n < 2 ^ 64)%N → (1 <= length_delimiter_len n <= 10)%N;
  delimiter_prefix n p q : (n < 2 ^ 64)%N → encode_length_delimiter n = p ++ q → q ≠ [] →
    ∃ e, decode_length_delimiter p = Err e;
  delimiter_consumes b n rest : decode_length_delimiter b = Ok (n, rest) →
    ∃ d, d ≠ [] ∧ b = d ++ rest;
}.

(** The protobuf varint: seven bits per byte, low bits first, the high bit set
    on every byte but the last; at most ten bytes, the tenth at most 1. *)
Fixpoint leb128_encode (fuel : nat) (n : N) : bytes :=
  match fuel with
  | O => []
  | S fuel =>
      if (n <? 128)%N then [byte_of_N n]
      else byte_of_N (n mod 128 + 128) :: leb128_encode fuel (n / 128)
  end.

Fixpoint leb128_decode (fuel : nat) (l : bytes) : result (N * bytes) :=
  match fuel, l with
  | S fuel, b :: r =>
      let b := N_of_byte b in
      if (b <? 128)%N then
        if Nat.eqb fuel 0 && (2 <=? b)%N then Err "invalid varint"%string else Ok (b, r)
      else match leb128_decode fuel r with
           | Ok (v, r') => Ok (b - 128 + 128 * v, r')%N
           | Err e => Err e
           end
  | _, _ => Err "invalid varint"%string
  end.

#[export] Instance leb128 : Delimiter := {
  encode_length_delimiter := leb128_encode 10;
  decode_length_delimiter := leb128_decode 10;
  length_delimiter_len n := N.of_nat (List.length (leb128_encode 10 n));
}.

Lemma leb128_div fuel n : (n < 2 * 128 ^ N.of_nat (S fuel))%N → (n / 128 < 2 * 128 ^ N.of_nat fuel)%N.
Proof.
  intros H. apply N.Div0.div_lt_upper_bound.
  rewrite Nat2N.inj_succ, N.pow_succ_r' in H. lia.
Qed.

Lemma leb128_byte n : (128 <= n)%N → N_of_byte (byte_of_N (n mod 128 + 128)) = (n mod 128 + 128)%N.
Proof.
  intros _. rewrite N_of_byte_of_N. apply N.mod_small.
  pose proof (N.mod_lt n 128 ltac:(lia)). lia.
Qed.

Lemma leb128_roundtrip fuel n rest :
  (n < 2 * 128 ^ N.of_nat fuel)%N →
  leb128_decode (S fuel) (leb128_encode (S fuel) n ++ rest) = Ok (n, rest).
Proof.
  revert n. induction fuel as [|fuel IH]; intros n Hn; cbn [leb128_encode].
  - simpl in Hn. replace (n <? 128)%N with true by (symmetry; apply N.ltb_lt; lia).
    cbn. rewrite N_of_byte_of_N, N.mod_small by lia.
    replace (n <? 128)%N with true by (symmetry; apply N.ltb_lt; lia).
    by replace (2 <=? n)%N with false by (symmetry; apply N.leb_gt; lia).
  - destruct (N.ltb_spec n 128) as [Hl|Hl].
    + cbn. rewrite N_of_byte_of_N, N.mod_small by lia.
      by replace (n <? 128)%N with true by (symmetry; apply N.ltb_lt; lia).
    + rewrite <- app_comm_cons. cbn [leb128_decode]. rewrite leb128_byte by done.
      replace (n mod 128 + 128 <? 128)%N with false by (symmetry; apply N.ltb_ge, N.le_add_l).
      specialize (IH (n / 128)%N (leb128_div _ _ Hn)). cbn [leb128_encode leb128_decode] in IH |- *.
      rewrite IH. do 2 f_equal. rewrite N.add_sub, N.add_comm. symmetry. apply N.div_mod'.
Qed.

Lemma leb128_prefix fuel n p q :
  (n < 2 * 128 ^ N.of_nat fuel)%N → leb128_encode (S fuel) n = p ++ q → q ≠ [] →
  ∃ e, leb128_decode (S fuel) p = Err e.
Proof.
  revert n p. induction fuel as [|fuel IH]; intros n p Hn E Hq; cbn [leb128_encode] in E.
  - simpl in Hn. replace (n <? 128)%N with true in E by (symmetry; apply N.ltb_lt; lia).
    destruct p as [|x p]; [by eexists|]. injection E as _ E. by destruct p, q.
  - destruct (N.ltb_spec n 128) as [Hl|Hl].
    + destruct p as [|x p]; [by eexists|]. injection E as _ E. by destruct p, q.
    + destruct p as [|x p]; [by eexists|]. rewrite <- app_comm_cons in E. injection E as <- E.
      destruct (IH (n / 128)%N p (leb128_div _ _ Hn) E Hq) as [e He].
      exists e. cbn [leb128_decode]. rewrite leb128_byte by done.
      replace (n mod 128 + 128 <? 128)%N with false by (symmetry; apply N.ltb_ge, N.le_add_l).
      cbn [leb128_decode] in He. by rewrite He.
Qed.

Lemma leb128_consumes fuel b n rest :
  leb128_decode fuel b = Ok (n, rest) → ∃ d, d ≠ [] ∧ b = d ++ rest.
Proof.
  revert b n. induction fuel as [|fuel IH]; intros [|x b] n E; try done. cbn in E.
  destruct (_ <? _)%N.
  - destruct (_ && _); [done|]. injection E as _ <-. by exists [x].
  - destruct (leb128_decode fuel b) as [[v r]|] eqn:Eb; [|done]. injection E as _ <-.
    destruct (IH _ _ Eb) as (d & _ & ->). by exists (x :: d).
Qed.

Lemma length_leb128_encode fuel n : 1 <= List.length (leb128_encode (S fuel) n) <= S fuel.
Proof.
  revert n. induction fuel as [|fuel IH]; intros n.
  - cbn. destruct (_ <? _)%N; simpl; lia.
  - specialize (IH (n / 128)%N). remember (S fuel) as k eqn:Ek. cbn [leb128_encode].
    destruct (_ <? _)%N; cbn [List.length]; lia.
Qed.

#[export] Instance leb128_laws : DelimiterLaws.
Proof.
  split.
  - intros n rest Hn. apply (leb128_roundtrip 9). done.
  - done.
  - intros n _. cbn [length_delimiter_len leb128]. pose proof (length_leb128_encode 9 n). lia.
  - intros n p q Hn. apply (leb128_prefix 9). done.
  - intros b n rest. apply leb128_consumes.
Qed.

Module Wire.

Definition MAX_FRAME_LEN : N := 16 * 1024 * 1024.

(** The length of a buffer, as a [usize]. *)
Definition len (b : bytes) : N := N.of_nat (List.length b).

Section framing.
Context `{Delimiter}.

Definition encode_frame_raw (data : bytes) : bytes :=
  encode_length_delimiter (len data) ++ data.

(** [FramePanic]: [split_to] past the end of the buffer. *)
Inductive frame_result :=
  | FrameNone
  | FrameSome (frame src : bytes)
  | FramePanic.

Definition try_decode_frame (src : bytes) : frame_result :=
  match decode_length_delimiter src with
  | Err _ => FrameNone
  | Ok (n, _) =>
      let delimiter_len := length_delimiter_len n in
      if (len src <? wrap_u64 (delimiter_len + n))%N then FrameNone
      else
        match decode_length_delimiter src with
        | Err _ => FramePanic
        | Ok (_, src') =>
            if (len src' <? n)%N then FramePanic
            else FrameSome (take (N.to_nat n) src') (drop (N.to_nat n) src')
        end
  end.

(** [while let Some(frame) = try_decode_frame(&mut buf)]: the frames in
    order, and the buffer left ([None] when the loop panicked or [fuel] ran
    out). *)
Fixpoint drain_frames (fuel : nat) (buf : bytes) : list bytes * option bytes :=
  match fuel with
  | O => ([], None)
  | S fuel =>
      match try_decode_frame buf with
      | FrameNone => ([], Some buf)
      | FramePanic => ([], None)
      | FrameSome frame src =>
          let '(fs, rest) := drain_frames fuel src in (frame :: fs, rest)
      end
  end.

(** One round of [drain_frames] per byte is enough: a frame takes at least
    one byte of the buffer. *)
Definition drain (buf : bytes) : list bytes * option bytes :=
  drain_frames (S (List.length buf)) buf.

(** What one successful [recv.read] does. *)
Inductive stream := StreamOpen (buf : bytes) | StreamClosed.

Definition receive_chunk (s : stream) (chunk : bytes) : list bytes * stream :=
  match s with
  | StreamClosed => ([], StreamClosed)
  | StreamOpen buf =>
      let buf := buf ++ chunk in
      if (MAX_FRAME_LEN <? len buf)%N then ([], StreamClosed)
      else match drain buf with
           | (fs, Some buf) => (fs, StreamOpen buf)
           | (fs, None) => (fs, StreamClosed)
           end
  end.

(** The read loop on the chunks the peer's stream is cut into: the frames
    handed to [Envelope::decode], in order. *)
Fixpoint read_loop (s : stream) (chunks : list bytes) : list bytes * stream :=
  match chunks with
  | [] => ([], s)
  | c :: r =>
      let '(fs, s') := receive_chunk s c in
      let '(gs, s'') := read_loop s' r in (fs ++ gs, s'')
  end.

(** [run_envelope_stream_with_prefix]: the seed buffer is drained first. *)
Definition run_stream (initial_buf : bytes) (chunks : list bytes) : list bytes * stream :=
  let '(fs, s) :=
    match drain initial_buf with
    | (fs, Some buf) => (fs, StreamOpen buf)
    | (fs, None) => (fs, StreamClosed)
    end in
  let '(gs, s') := read_loop s chunks in (fs ++ gs, s').

Context `{!DelimiterLaws}.

(** A frame that fits in a [usize] with its delimiter. *)
Definition frame_ok (data : bytes) : Prop := (len data < 2 ^ 64 - 10)%N.

Lemma len_app a b : len (a ++ b) = (len a + len b)%N.
Proof. unfold len. rewrite length_app. lia. Qed.

Lemma try_decode_frame_app data rest :
  frame_ok data → try_decode_frame (encode_frame_raw data ++ rest) = FrameSome data rest.
Proof.
  unfold frame_ok. intros Hd. unfold try_decode_frame, encode_frame_raw.
  rewrite <- app_assoc, delimiter_roundtrip by lia.
  pose proof (delimiter_len_max (len data) ltac:(lia)) as Hm.
  pose proof (delimiter_len (len data) ltac:(lia)) as Hl.
  unfold wrap_u64. rewrite N.mod_small by lia.
  rewrite !len_app.
  assert (len (encode_length_delimiter (len data)) = length_delimiter_len (len data)) as -> by done.
  replace (_ <? _)%N with false by (symmetry; apply N.ltb_ge; lia).
  replace (_ <? _)%N with false by (symmetry; apply N.ltb_ge; lia).
  unfold len at 1 2. rewrite Nat2N.id. by rewrite take_app_length, drop_app_length.
Qed.

Lemma try_decode_frame_prefix data p q :
  frame_ok data → encode_frame_raw data = p ++ q → q ≠ [] → try_decode_frame p = FrameNone.
Proof.
  unfold frame_ok. intros Hd E Hq. unfold try_decode_frame.
  set (d := encode_length_delimiter (len data)) in *. unfold encode_frame_raw in E. fold d in E.
  apply app_eq_inv in E as [(k & Ed & Ek)|(k & Ep & Ek)].
  - destruct k as [|x k].
    + rewrite app_nil_r in Ed. simpl in Ek.
      rewrite <- Ed, <- (app_nil_r d). unfold d. rewrite delimiter_roundtrip by lia.
      pose proof (delimiter_len_max (len data) ltac:(lia)).
      pose proof (delimiter_len (len data) ltac:(lia)) as Hl. fold d in Hl.
      unfold wrap_u64. rewrite N.mod_small by lia. fold d. rewrite app_nil_r.
      assert (0 < len data)%N.
      { rewrite <- Ek. unfold len. destruct q; [done|]. simpl. lia. }
      unfold len at 1. rewrite <- Hl. replace (_ <? _)%N with true; [done|].
      symmetry. apply N.ltb_lt. lia.
    + destruct (delimiter_prefix (len data) p (x :: k)) as [e ->]; [lia|done|done|done].
  - rewrite Ep. unfold d. rewrite delimiter_roundtrip by lia.
    pose proof (delimiter_len_max (len data) ltac:(lia)).
    pose proof (delimiter_len (len data) ltac:(lia)) as Hl.
    unfold wrap_u64. rewrite N.mod_small by lia. rewrite len_app. fold d in Hl |- *.
    unfold len at 1. rewrite <- Hl.
    assert (len k < len data)%N.
    { rewrite Ek, len_app. unfold len at 3. destruct q; [done|]. simpl. lia. }
    replace (_ <? _)%N with true; [done|]. symmetry. apply N.ltb_lt. lia.
Qed.

Lemma encode_frame_raw_nonempty data : frame_ok data → encode_frame_raw data ≠ [].
Proof.
  unfold frame_ok. intros Hd E. apply app_eq_nil in E as [E _].
  pose proof (delimiter_len_max (len data) ltac:(lia)).
  pose proof (delimiter_len (len data) ltac:(lia)) as Hl. rewrite E in Hl. simpl in Hl. lia.
Qed.

Lemma try_decode_frame_nil : try_decode_frame [] = FrameNone.
Proof.
  unfold try_decode_frame.
  destruct (delimiter_prefix 0 [] (encode_length_delimiter 0)) as [e ->]; [lia|done| |done].
  intros Hn. pose proof (delimiter_len_max 0 ltac:(lia)) as Hm.
  rewrite delimiter_len, Hn in Hm by lia. simpl in Hm. lia.
Qed.

(** A buffer that a prefix of the peer's frames fills, with the frames not
    complete yet: [rest] is what is still to come. *)
Definition pending (buf rest : bytes) (fs : list bytes) : Prop :=
  buf ++ rest = flat_map encode_frame_raw fs ∧
  match fs with
  | [] => True
  | f :: _ => List.length buf < List.length (encode_frame_raw f)
  end.

Lemma drain_frames_spec fuel buf rest fs :
  List.length buf < fuel → Forall frame_ok fs →
  buf ++ rest = flat_map encode_frame_raw fs →
  ∃ gs hs buf', drain_frames fuel buf = (gs, Some buf') ∧ fs = gs ++ hs ∧ pending buf' rest hs.
Proof.
  revert buf fs. induction fuel as [|fuel IH]; intros buf fs Hf Hok E; [lia|]. simpl.
  destruct fs as [|f fs].
  - apply app_eq_nil in E as [-> ->].
    rewrite try_decode_frame_nil. by exists [], [], [].
  - apply Forall_cons in Hok as [Hf0 Hok]. cbn [flat_map] in E.
    destruct (decide (List.length buf < List.length (encode_frame_raw f))) as [Hl|Hl].
    + assert (∃ q, encode_frame_raw f = buf ++ q ∧ q ≠ []) as (q & Eq & Hq).
      { apply app_eq_inv in E as [(k & Ed & Ek)|(k & Ep & Ek)].
        - apply (f_equal List.length) in Ed. rewrite length_app in Ed. lia.
        - exists k. split; [done|]. intros ->. rewrite app_nil_r in Ep.
          rewrite Ep in Hl. lia. }
      rewrite (try_decode_frame_prefix f buf q) by done.
      exists [], (f :: fs), buf. by repeat split.
    + assert (∃ k, buf = encode_frame_raw f ++ k) as [k ->].
      { apply app_eq_inv in E as [(k & Ed & Ek)|(k & Ep & Ek)]; [by exists k|].
        exists []. rewrite app_nil_r. apply (f_equal List.length) in Ep as El.
        rewrite length_app in El. destruct k; [by rewrite app_nil_r in Ep|]. simpl in El. lia. }
      rewrite try_decode_frame_app by done. rewrite <- app_assoc in E. apply app_inv_head in E.
      destruct (IH k fs) as (gs & hs & buf' & Hd & -> & Hp); [|done|done|].
      * rewrite length_app in Hf. pose proof (encode_frame_raw_nonempty f Hf0) as Hne.
        destruct (encode_frame_raw f); [done|]. simpl in *. lia.
      * rewrite Hd. exists (f :: gs), hs, buf'. done.
Qed.

Lemma drain_spec buf rest fs :
  Forall frame_ok fs → buf ++ rest = flat_map encode_frame_raw fs →
  ∃ gs hs buf', drain buf = (gs, Some buf') ∧ fs = gs ++ hs ∧ pending buf' rest hs.
Proof. intros Hok E. apply drain_frames_spec; [lia|done|done]. Qed.

Lemma pending_len buf rest fs m :
  Forall (λ f, (len (encode_frame_raw f) <= m)%N) fs → pending buf rest fs → (len buf <= m)%N.
Proof.
  intros Hm [E Hl]. destruct fs as [|f fs].
  - apply app_eq_nil in E as [-> _]. unfold len. simpl. lia.
  - apply Forall_cons in Hm as [Hm _]. unfold len in *. lia.
Qed.

Lemma pending_done buf fs : pending buf [] fs → fs = [] ∧ buf = [].
Proof.
  intros [E Hl]. rewrite app_nil_r in E. subst buf.
  destruct fs as [|f fs]; [done|]. cbn [flat_map] in Hl. rewrite length_app in Hl. lia.
Qed.

Lemma read_loop_spec c chunks buf fs :
  Forall frame_ok fs →
  Forall (λ f, (len (encode_frame_raw f) + c <= MAX_FRAME_LEN)%N) fs →
  (c <= MAX_FRAME_LEN)%N →
  Forall (λ k, (len k <= c)%N) chunks →
  pending buf (concat chunks) fs →
  read_loop (StreamOpen buf) chunks = (fs, StreamOpen []).
Proof.
  revert buf fs. induction chunks as [|k chunks IH]; intros buf fs Hok Hm Hc Hk Hp.
  - by apply pending_done in Hp as [-> ->].
  - apply Forall_cons in Hk as [Hk0 Hk]. cbn [concat] in Hp.
    assert (len buf <= MAX_FRAME_LEN - c)%N as Hb.
    { eapply pending_len; [|exact Hp]. eapply Forall_impl; [exact Hm|]. simpl. lia. }
    destruct Hp as [E _]. rewrite app_assoc in E.
    destruct (drain_spec _ _ _ Hok E) as (gs & hs & buf' & Hd & -> & Hp).
    cbn [read_loop receive_chunk]. rewrite len_app.
    replace (_ <? _)%N with false by (symmetry; apply N.ltb_ge; lia).
    rewrite Hd. apply Forall_app in Hok as [_ Hok]. apply Forall_app in Hm as [_ Hm].
    by rewrite (IH buf' hs).
Qed.

Lemma drain_frames_shrinks fuel buf fs b :
  drain_frames fuel buf = (fs, Some b) → (len b <= len buf)%N.
Proof.
  revert buf fs. induction fuel as [|fuel IH]; intros buf fs E; [done|]. simpl in E.
  destruct (try_decode_frame buf) as [|f src|] eqn:Et; [by injection E as _ <-| |done].
  destruct (drain_frames fuel src) as [gs r] eqn:Ed. injection E as _ ->.
  specialize (IH _ _ Ed). unfold try_decode_frame in Et.
  destruct (decode_length_delimiter buf) as [[n src']|] eqn:Edl; [|done].
  destruct (_ <? _)%N; [done|]. destruct (_ <? _)%N; [done|]. injection Et as _ <-.
  destruct (delimiter_consumes _ _ _ Edl) as (d & _ & ->).
  unfold len in *. rewrite length_drop in IH. rewrite length_app. lia.
Qed.

Lemma receive_chunk_bounded s c fs b :
  receive_chunk s c = (fs, StreamOpen b) → (len b <= MAX_FRAME_LEN)%N.
Proof.
  destruct s as [buf|]; [|done]. cbn [receive_chunk].
  destruct (N.ltb_spec MAX_FRAME_LEN (len (buf ++ c))); [done|]. unfold drain.
  destruct (drain_frames _ _) as [gs [b'|]] eqn:Ed; [|done].
  intros [= _ <-]. apply drain_frames_shrinks in Ed. lia.
Qed.

Lemma read_loop_bounded s chunks fs b :
  match s with StreamOpen b0 => (len b0 <= MAX_FRAME_LEN)%N | StreamClosed => True end →
  read_loop s chunks = (fs, StreamOpen b) → (len b <= MAX_FRAME_LEN)%N.
Proof.
  revert s fs. induction chunks as [|c chunks IH]; intros s fs Hs; cbn [read_loop].
  - by intros [= _ ->].
  - destruct (receive_chunk s c) as [gs s1] eqn:E1.
    destruct (read_loop s1 chunks) as [hs s2] eqn:E2. intros [= _ ->].
    refine (IH _ _ _ E2). destruct s1 as [b1|]; [|done]. by eapply receive_chunk_bounded.
Qed.

(** With the canonical delimiter lengths of the peer's frames the loop never
    runs out of fuel, whatever bytes arrive: a frame consumes a byte. *)
Lemma drain_frames_fuel fuel k buf :
  List.length buf < fuel → drain_frames (fuel + k) buf = drain_frames fuel buf.
Proof.
  revert buf. induction fuel as [|fuel IH]; intros buf Hf; [lia|]. simpl.
  destruct (try_decode_frame buf) as [|f src|] eqn:Et; [done| |done].
  rewrite IH; [done|]. unfold try_decode_frame in Et.
  destruct (decode_length_delimiter buf) as [[n src']|] eqn:Edl; [|done].
  destruct (_ <? _)%N; [done|]. destruct (_ <? _)%N; [done|]. injection Et as _ <-.
  destruct (delimiter_consumes _ _ _ Edl) as (d & Hd & ->).
  rewrite length_drop. rewrite length_app in Hf. destruct d; [done|]. simpl in Hf. lia.
Qed.
End framing.

(** ** Hashes and payloads *)

(** [sort_by_key] with a stable sort: equal keys keep their order. *)
Section sort_by.
Context {A : Type} (le : A → A → bool).
Fixpoint insert_by (x : A) (l : list A) : list A :=
  match l with
  | [] => [x]
  | y :: r => if le x y then x :: y :: r else y :: insert_by x r
  end.
Definition sort_by (l : list A) : list A := foldr insert_by [] l.
End sort_by.

Definition room_sort_key (r : Proto.RoomInfo) : bytes :=
  match Proto.ri_id r with Some i => Proto.rid_uuid i | None => [] end.
Definition user_sort_key (u : Proto.User) : N :=
  match Proto.pu_user_id u with Some i => Proto.uid_value i | None => 0%N end.

(** The copy that is hashed. *)
Definition canonical_state (st : Proto.ServerState) : Proto.ServerState :=
  Proto.mkServerState
    (sort_by (λ a b, bytes_leb (room_sort_key a) (room_sort_key b)) (Proto.ss_rooms st))
    (sort_by (λ a b, (user_sort_key a <=? user_sort_key b)%N) (Proto.ss_users st))
    [] [].

(** [i64::to_be_bytes]: two's complement. *)
Definition i64_be_bytes (z : Z) : bytes := be_bytes 8 (Z.to_N (z mod 2 ^ 64)).

Definition build_auth_payload (nonce : array 32) (timestamp_ms : Z) (public_key : array 32)
    (user_id : N) (server_cert_hash : array 32) : bytes :=
  arr nonce ++ i64_be_bytes timestamp_ms ++ arr public_key ++ be_bytes 8 user_id
  ++ arr server_cert_hash.

Definition build_session_cert_payload (session_public_key : array 32) (issued_ms expires_ms : Z)
    (device : option string) : bytes :=
  let device_bytes := as_bytes (default EmptyString device) in
  arr session_public_key ++ i64_be_bytes issued_ms ++ i64_be_bytes expires_ms
  ++ be_bytes 2 (len device_bytes mod 2 ^ 16) ++ device_bytes.

Definition bool_byte (b : bool) : byte := if b then Byte.x01 else Byte.x00.

(** What [room_acl_version] feeds the hasher, piece by piece. *)
Definition acl_entry_bytes (e : Types.RoomAclEntry) : bytes :=
  le_bytes 8 (len (as_bytes (Types.ae_group e))) ++ as_bytes (Types.ae_group e)
  ++ le_bytes 4 (Types.ae_grant e) ++ le_bytes 4 (Types.ae_deny e)
  ++ [bool_byte (Types.ae_apply_here e); bool_byte (Types.ae_apply_subs e)].
Definition acl_version_preimage (inherit_acl : bool) (entries : list Types.RoomAclEntry) : bytes :=
  bool_byte inherit_acl :: flat_map acl_entry_bytes entries.

Section hashing.
Context (blake3 sha256 : bytes → array 32) (encode_state : Proto.ServerState → bytes).

Definition compute_server_state_hash (server_state : Proto.ServerState) : bytes :=
  arr (blake3 (encode_state (canonical_state server_state))).

Definition room_acl_version (inherit_acl : bool) (entries : list Types.RoomAclEntry) : N :=
  let digest := blake3 (acl_version_preimage inherit_acl entries) in
  let v := of_le_bytes (take 8 (arr digest)) in
  if (v =? 0)%N then 1%N else v.

Definition compute_cert_hash (cert_der : bytes) : array 32 := sha256 cert_der.
Definition compute_session_id (session_public_key : array 32) : array 32 :=
  blake3 (arr session_public_key).
End hashing.

(** ** Lemmas *)

Section sort_lemmas.
Context {A K : Type} (key : A → K) (kle : K → K → bool).
Hypothesis kle_total : ∀ a b, Is_true (kle a b) ∨ Is_true (kle b a).
Hypothesis kle_trans : ∀ a b c, Is_true (kle a b) → Is_true (kle b c) → Is_true (kle a c).
Hypothesis kle_antisym : ∀ a b, Is_true (kle a b) → Is_true (kle b a) → a = b.
Let le a b := kle (key a) (key b).

Lemma insert_by_perm x l : insert_by le x l ≡ₚ x :: l.
Proof.
  induction l as [|y l IH]; [done|]. simpl. destruct (le x y); [done|].
  rewrite IH. by apply Permutation_swap.
Qed.

Lemma sort_by_perm l : sort_by le l ≡ₚ l.
Proof. induction l as [|x l IH]; [done|]. simpl. by rewrite insert_by_perm, IH. Qed.

Lemma insert_by_sorted x l :
  StronglySorted (λ a b, Is_true (le a b)) l →
  StronglySorted (λ a b, Is_true (le a b)) (insert_by le x l).
Proof.
  induction 1 as [|y l Hs IH Hy]; simpl; [repeat constructor|].
  destruct (le x y) eqn:E.
  - constructor; [by constructor|]. constructor; [by rewrite E|].
    eapply Forall_impl; [exact Hy|]. intros z Hz. eapply kle_trans; [|exact Hz]. unfold le in E. by rewrite E.
  - constructor; [done|]. rewrite insert_by_perm. constructor; [|done].
    destruct (kle_total (key y) (key x)) as [H|H]; [done|]. unfold le in E. by rewrite E in H.
Qed.

Lemma sort_by_sorted l : StronglySorted (λ a b, Is_true (le a b)) (sort_by le l).
Proof. induction l as [|x l IH]; [constructor|]. by apply insert_by_sorted. Qed.

Lemma sorted_unique l1 l2 :
  StronglySorted (λ a b, Is_true (le a b)) l1 → StronglySorted (λ a b, Is_true (le a b)) l2 →
  NoDup (key <$> l1) → l1 ≡ₚ l2 → l1 = l2.
Proof.
  intros H1. revert l2. induction H1 as [|x l1 Hs IH Hx]; intros l2 H2 Hnd Hp.
  - by apply Permutation_nil in Hp.
  - destruct l2 as [|y l2]; [by apply Permutation_sym, Permutation_nil in Hp|].
    apply StronglySorted_inv in H2 as [Hs2 Hy].
    assert (x = y) as <-.
    { apply (NoDup_fmap_inj key (x :: l1)); [done|apply list_elem_of_here| |].
      - rewrite Hp. apply list_elem_of_here.
      - assert (x ∈ y :: l2) as Hxin by (rewrite <- Hp; apply list_elem_of_here).
        assert (y ∈ x :: l1) as Hyin by (rewrite Hp; apply list_elem_of_here).
        apply elem_of_cons in Hxin as [->|Hxin]; [done|].
        apply elem_of_cons in Hyin as [->|Hyin]; [done|].
        rewrite Forall_forall in Hx. rewrite Forall_forall in Hy.
        apply kle_antisym; [by apply Hx|by apply Hy]. }
    f_equal. apply IH; [done| |by apply Permutation_cons_inv in Hp].
    rewrite fmap_cons in Hnd. by apply NoDup_cons in Hnd as [_ Hnd].
Qed.

Lemma sort_by_unique l1 l2 :
  NoDup (key <$> l1) → l1 ≡ₚ l2 ↔ sort_by le l1 = sort_by le l2.
Proof.
  intros Hnd. split.
  - intros Hp. apply sorted_unique; try apply sort_by_sorted.
    + by rewrite sort_by_perm.
    + by rewrite !sort_by_perm.
  - intros E. by rewrite <- (sort_by_perm l1), E, sort_by_perm.
Qed.
End sort_lemmas.

Lemma nat_leb_total (a b : N) : Is_true (a <=? b)%N ∨ Is_true (b <=? a)%N.
Proof. destruct (N.le_ge_cases a b) as [H|H]; apply N.leb_le in H; rewrite H; [by left|by right]. Qed.
Lemma nat_leb_trans (a b c : N) : Is_true (a <=? b)%N → Is_true (b <=? c)%N → Is_true (a <=? c)%N.
Proof. rewrite !Is_true_true, !N.leb_le. lia. Qed.
Lemma nat_leb_antisym (a b : N) : Is_true (a <=? b)%N → Is_true (b <=? a)%N → a = b.
Proof. rewrite !Is_true_true, !N.leb_le. lia. Qed.

(** Two bool bytes. *)
Lemma bool_byte_inj a b : bool_byte a = bool_byte b → a = b.
Proof. by destruct a, b. Qed.

Lemma i64_be_bytes_inj x y :
  (- 2 ^ 63 <= x < 2 ^ 63)%Z → (- 2 ^ 63 <= y < 2 ^ 63)%Z → i64_be_bytes x = i64_be_bytes y → x = y.
Proof.
  unfold i64_be_bytes. intros Hx Hy E.
  pose proof (Z.mod_pos_bound x (2 ^ 64) ltac:(lia)). pose proof (Z.mod_pos_bound y (2 ^ 64) ltac:(lia)).
  apply be_bytes_inj in E; [|change (256 ^ N.of_nat 8)%N with (Z.to_N (2 ^ 64)); lia..].
  apply Z2N.inj in E; [|lia..].
  rewrite (Z.div_mod x (2 ^ 64)), (Z.div_mod y (2 ^ 64)) by lia.
  pose proof (Z.div_mod x (2 ^ 64) ltac:(lia)). pose proof (Z.div_mod y (2 ^ 64) ltac:(lia)).
  assert (x / 2 ^ 64 = y / 2 ^ 64)%Z by lia. lia.
Qed.

(** A well-typed entry: the flags are [u32]s, the name fits in a [usize]. *)
Definition entry_fits (e : Types.RoomAclEntry) : Prop :=
  (len (as_bytes (Types.ae_group e)) < 2 ^ 64)%N ∧
  (Types.ae_grant e < 2 ^ 32)%N ∧ (Types.ae_deny e < 2 ^ 32)%N.

Lemma acl_entry_bytes_prefix e1 e2 r1 r2 :
  entry_fits e1 → entry_fits e2 →
  acl_entry_bytes e1 ++ r1 = acl_entry_bytes e2 ++ r2 → e1 = e2 ∧ r1 = r2.
Proof.
  destruct e1 as [g1 a1 d1 h1 s1], e2 as [g2 a2 d2 h2 s2]. unfold acl_entry_bytes, entry_fits.
  cbn [Types.ae_group Types.ae_grant Types.ae_deny Types.ae_apply_here Types.ae_apply_subs].
  intros (Hl1 & Ha1 & Hd1) (Hl2 & Ha2 & Hd2). rewrite <- !app_assoc. intros E.
  apply app_inj_length in E as [El E]; [|by rewrite !length_le_bytes].
  apply le_bytes_inj in El; [|by change (256 ^ N.of_nat 8)%N with (2 ^ 64)%N..].
  apply app_inj_length in E as [Eg E]; [|unfold len in El; lia].
  apply app_inj_length in E as [Ea E]; [|by rewrite !length_le_bytes].
  apply app_inj_length in E as [Ed E]; [|by rewrite !length_le_bytes].
  apply le_bytes_inj in Ea; [|by change (256 ^ N.of_nat 4)%N with (2 ^ 32)%N..].
  apply le_bytes_inj in Ed; [|by change (256 ^ N.of_nat 4)%N with (2 ^ 32)%N..].
  injection E as Eh Es Er. split; [|done].
  apply as_bytes_inj in Eg. apply bool_byte_inj in Eh, Es. by subst.
Qed.

Lemma acl_entries_inj es1 es2 :
  Forall entry_fits es1 → Forall entry_fits es2 →
  flat_map acl_entry_bytes es1 = flat_map acl_entry_bytes es2 → es1 = es2.
Proof.
  assert (∀ e, acl_entry_bytes e ≠ []) as Hne.
  { intros e E. apply (f_equal List.length) in E. unfold acl_entry_bytes in E.
    rewrite !length_app, length_le_bytes in E. simpl in E. lia. }
  intros H1. revert es2. induction H1 as [|e1 es1 He1 H1 IH]; intros [|e2 es2] H2 E; cbn [flat_map] in E.
  - done.
  - symmetry in E. apply app_eq_nil in E as [E _]. by apply Hne in E.
  - apply app_eq_nil in E as [E _]. by apply Hne in E.
  - apply Forall_cons in H2 as [He2 H2]. apply acl_entry_bytes_prefix in E as [-> E]; [|done..].
    by rewrite (IH es2).
Qed.

(** ** Properties *)

(** The server's read loop does not depend on how the peer's stream is cut
    into chunks: when the seed buffer followed by the chunks is a sequence of
    encoded frames, and every frame leaves room for one chunk below
    MAX_FRAME_LEN, the frames decoded are exactly those, in order, and the
    buffer ends empty. *)
Theorem read_loop_chunking `{DelimiterLaws} (c : N) (frames : list bytes) (initial_buf : bytes)
    (chunks : list bytes) :
  initial_buf ++ concat chunks = flat_map encode_frame_raw frames →
  Forall (λ k, (len k <= c)%N) chunks →
  Forall (λ f, (len (encode_frame_raw f) + c <= MAX_FRAME_LEN)%N) frames →
  (c <= MAX_FRAME_LEN)%N →
  run_stream initial_buf chunks = (frames, StreamOpen []).
Proof.
  intros E Hk Hf Hc. assert (Forall frame_ok frames) as Hok.
  { eapply Forall_impl; [exact Hf|]. intros f. unfold frame_ok, encode_frame_raw, MAX_FRAME_LEN.
    rewrite len_app. lia. }
  destruct (drain_spec _ _ _ Hok E) as (gs & hs & buf & Hd & -> & Hp).
  unfold run_stream. rewrite Hd. apply Forall_app in Hok as [_ Hok]. apply Forall_app in Hf as [_ Hf].
  by rewrite (read_loop_spec c chunks buf hs).
Qed.

Lemma read_loop_chunking_witness :
  run_stream (encode_length_delimiter 3) [[Byte.x61]; [Byte.x62; Byte.x63]; [Byte.x00]]
  = ([[Byte.x61; Byte.x62; Byte.x63]; []], StreamOpen []).
Proof.
  apply (read_loop_chunking 2 [[Byte.x61; Byte.x62; Byte.x63]; []]).
  - reflexivity.
  - repeat constructor; vm_compute; discriminate.
  - repeat constructor; vm_compute; discriminate.
  - vm_compute. discriminate.
Defined.

(** Whatever bytes arrive, the read loop keeps at most MAX_FRAME_LEN bytes
    buffered between two reads, and a single frame is decoded whatever follows
    it in the buffer while no proper prefix of it ever is. *)
Theorem frame_decoding_bounds `{DelimiterLaws} :
  (∀ buf chunks fs b, (len buf <= MAX_FRAME_LEN)%N → run_stream buf chunks = (fs, StreamOpen b) →
     (len b <= MAX_FRAME_LEN)%N) ∧
  (∀ data rest, frame_ok data → try_decode_frame (encode_frame_raw data ++ rest) = FrameSome data rest) ∧
  (∀ data p q, frame_ok data → encode_frame_raw data = p ++ q → q ≠ [] → try_decode_frame p = FrameNone).
Proof.
  split; [|split; [apply try_decode_frame_app|apply try_decode_frame_prefix]].
  intros buf chunks fs b Hb. unfold run_stream, drain.
  destruct (drain_frames _ buf) as [gs [b0|]] eqn:Ed;
    destruct (read_loop _ chunks) as [hs s'] eqn:El; intros [= _ ->];
    refine (read_loop_bounded _ _ _ _ _ El); [|done].
  apply drain_frames_shrinks in Ed. lia.
Qed.

Lemma frame_decoding_bounds_witness :
  frame_ok [Byte.x07] ∧ try_decode_frame (encode_frame_raw [Byte.x07] ++ [Byte.x05]) = FrameSome [Byte.x07] [Byte.x05].
Proof. split; [reflexivity|]. apply (proj1 (proj2 frame_decoding_bounds)). reflexivity. Defined.

Lemma canonical_state_perm (s1 s2 : Proto.ServerState) :
  NoDup (room_sort_key <$> Proto.ss_rooms s1) → NoDup (user_sort_key <$> Proto.ss_users s1) →
  (Proto.ss_rooms s1 ≡ₚ Proto.ss_rooms s2 ∧ Proto.ss_users s1 ≡ₚ Proto.ss_users s2 ↔
   canonical_state s1 = canonical_state s2).
Proof.
  intros Hr Hu.
  pose proof (sort_by_unique room_sort_key bytes_leb Store.bytes_leb_total Store.bytes_leb_trans
                Store.bytes_leb_antisym _ (Proto.ss_rooms s2) Hr) as Sr.
  pose proof (sort_by_unique user_sort_key N.leb nat_leb_total nat_leb_trans nat_leb_antisym
                _ (Proto.ss_users s2) Hu) as Su.
  rewrite Sr, Su. unfold canonical_state. split; [by intros [-> ->]|]. by intros [= Er Eu].
Qed.

(** The state hash depends only on the sets of rooms and users: with
    distinct ids, two states that list the same rooms and users in any order
    have the same hash, whatever groups and slash commands they carry; and two
    states whose hashed copies agree list the same rooms and users. *)
Theorem state_hash_canonical (blake3 : bytes → array 32) (encode_state : Proto.ServerState → bytes)
    (s1 s2 : Proto.ServerState) :
  NoDup (room_sort_key <$> Proto.ss_rooms s1) → NoDup (user_sort_key <$> Proto.ss_users s1) →
  (Proto.ss_rooms s1 ≡ₚ Proto.ss_rooms s2 → Proto.ss_users s1 ≡ₚ Proto.ss_users s2 →
   compute_server_state_hash blake3 encode_state s1 = compute_server_state_hash blake3 encode_state s2) ∧
  (canonical_state s1 = canonical_state s2 →
   Proto.ss_rooms s1 ≡ₚ Proto.ss_rooms s2 ∧ Proto.ss_users s1 ≡ₚ Proto.ss_users s2).
Proof.
  intros Hr Hu. pose proof (canonical_state_perm s1 s2 Hr Hu) as Hc. split; [|by apply Hc].
  intros Hpr Hpu. unfold compute_server_state_hash. by rewrite (proj1 Hc).
Qed.

Definition example_room (n : N) (name : string) : Proto.RoomInfo :=
  Types.room_to_proto (Types.mkRoom (array_of_N 16 n) name Types.ROOT_ROOM_UUID None true [] 0).

Lemma state_hash_canonical_witness :
  compute_server_state_hash (λ b, array_of_N 32 (of_be_bytes b))
    (λ s, flat_map (λ r, as_bytes (Proto.ri_name r)) (Proto.ss_rooms s))
    (Proto.mkServerState [example_room 1 "a"; example_room 2 "b"] [] [] []) =
  compute_server_state_hash (λ b, array_of_N 32 (of_be_bytes b))
    (λ s, flat_map (λ r, as_bytes (Proto.ri_name r)) (Proto.ss_rooms s))
    (Proto.mkServerState [example_room 2 "b"; example_room 1 "a"] [] [] [Proto.mkSlashCommand "me" ""]).
Proof.
  apply state_hash_canonical.
  - apply (bool_decide_unpack _). vm_compute. exact I.
  - constructor.
  - simpl. apply Permutation_swap.
  - reflexivity.
Defined.

(** An ACL version is never 0 (the wire's "unversioned" value), and what
    it hashes tells configurations apart: two configurations with the same
    preimage have the same inherit flag and the same entries in the same order. *)
Theorem acl_version_sound (blake3 : bytes → array 32) :
  (∀ i es, room_acl_version blake3 i es ≠ 0%N) ∧
  (∀ i1 i2 es1 es2, Forall entry_fits es1 → Forall entry_fits es2 →
     acl_version_preimage i1 es1 = acl_version_preimage i2 es2 → i1 = i2 ∧ es1 = es2).
Proof.
  split.
  - intros i es. unfold room_acl_version. cbv zeta. by case (N.eqb_spec _ 0%N).
  - intros i1 i2 es1 es2 H1 H2 [= Ei Ee]. split; [by apply bool_byte_inj|by apply acl_entries_inj].
Qed.

(** The signed payloads bind every field: an authentication payload has 112
    bytes and determines the nonce, the timestamp, the key, the user id and the
    certificate hash; a session-certificate payload determines the session key,
    both timestamps and the device name (absent and empty being the same). *)
Theorem signed_payloads_injective :
  (∀ n t k u h, List.length (build_auth_payload n t k u h) = 112) ∧
  (∀ n t k u h n' t' k' u' h',
     (- 2 ^ 63 <= t < 2 ^ 63)%Z → (- 2 ^ 63 <= t' < 2 ^ 63)%Z → (u < 2 ^ 64)%N → (u' < 2 ^ 64)%N →
     build_auth_payload n t k u h = build_auth_payload n' t' k' u' h' →
     n = n' ∧ t = t' ∧ k = k' ∧ u = u' ∧ h = h') ∧
  (∀ k i e d k' i' e' d',
     (- 2 ^ 63 <= i < 2 ^ 63)%Z → (- 2 ^ 63 <= i' < 2 ^ 63)%Z →
     (- 2 ^ 63 <= e < 2 ^ 63)%Z → (- 2 ^ 63 <= e' < 2 ^ 63)%Z →
     build_session_cert_payload k i e d = build_session_cert_payload k' i' e' d' →
     k = k' ∧ i = i' ∧ e = e' ∧ default EmptyString d = default EmptyString d').
Proof.
  assert (∀ z, List.length (i64_be_bytes z) = 8) as Hi by (intros; apply length_be_bytes).
  split; [|split].
  - intros. unfold build_auth_payload. by rewrite !length_app, !length_arr, Hi, length_be_bytes.
  - intros n t k u h n' t' k' u' h' Ht Ht' Hu Hu' E. unfold build_auth_payload in E.
    apply app_inj_length in E as [En E]; [|by rewrite !length_arr].
    apply app_inj_length in E as [Et E]; [|by rewrite !Hi].
    apply app_inj_length in E as [Ek E]; [|by rewrite !length_arr].
    apply app_inj_length in E as [Eu E]; [|by rewrite !length_be_bytes].
    apply be_bytes_inj in Eu; [|by change (256 ^ N.of_nat 8)%N with (2 ^ 64)%N..].
    repeat split; try (by apply array_eq); [by apply i64_be_bytes_inj|done].
  - intros k i e d k' i' e' d' H1 H2 H3 H4 E. unfold build_session_cert_payload in E.
    apply app_inj_length in E as [Ek E]; [|by rewrite !length_arr].
    apply app_inj_length in E as [Ei E]; [|by rewrite !Hi].
    apply app_inj_length in E as [Ee E]; [|by rewrite !Hi].
    apply app_inj_length in E as [_ E]; [|by rewrite !length_be_bytes].
    repeat split; [by apply array_eq|by apply i64_be_bytes_inj|by apply i64_be_bytes_inj|].
    by apply as_bytes_inj.
Qed.

(** A delimiter written with more bytes than needed makes [split_to] run past
    the buffer: 1 encoded as [0x81 0x00]. *)
Example padded_delimiter_panics : try_decode_frame [Byte.x81; Byte.x00] = FramePanic.
Proof. reflexivity. Qed.

End Wire.
