(* ===== verification/Persistence.v ===== *)
(** The server's persistent store ([crates/server/src/persistence.rs]).

    [Persistence T] is the struct of sled trees; [T] is any type with the tree
    operations of [Store.KV].  Readers are functions of the store, mutators are
    [ST (Persistence T) (result _)].  The theorems assume a tree whose disk does
    not fail ([KVLaws]) and a codec that reads back what it wrote
    ([CodecsLaws]).  sled iterators are snapshots of the keys here: the loops
    that write while they iterate only rewrite values of keys already there. *)
From Stdlib Require Import NArith Lia String.
From stdpp Require Import base gmap strings list.
From S2P Require Import Prelude Permissions Types Store.

Module Persist.

(** ** Records *)

Record PersistedBan := mkPersistedBan {
  banned_at_secs : option N;
  duration_seconds : N;
  reason : string;
  banned_by : string;
}.

Definition is_expired (ban : PersistedBan) (now_secs : N) : bool :=
  if (duration_seconds ban =? 0)%N then false
  else match banned_at_secs ban with
       | Some at_ => (saturating_add_u64 at_ (duration_seconds ban) <=? now_secs)%N
       | None => false
       end.

Record RegisteredUser := mkRegisteredUser {
  username : string;
  last_room : option Types.Uuid;
}.

Record PersistedRoom := mkPersistedRoom {
  name : string;
  parent : option Types.Uuid;
  description : string;
  permanent : bool;
}.

Record PersistedGroup := mkPersistedGroup { permissions : N }.

Record PersistedAclEntry := mkPersistedAclEntry {
  pa_group : string;
  pa_grant : N;
  pa_deny : N;
  pa_apply_here : bool;
  pa_apply_subs : bool;
}.

Record PersistedRoomAcl := mkPersistedRoomAcl {
  pa_inherit_acl : bool;
  pa_entries : list PersistedAclEntry;
}.

(** The serde codecs of the stored types. *)
Class Codecs := {
  codec_user :: Codec RegisteredUser;
  codec_room :: Codec PersistedRoom;
  codec_group :: Codec PersistedGroup;
  codec_names :: Codec (list string);
  codec_acl :: Codec PersistedRoomAcl;
  codec_ban :: Codec PersistedBan;
}.

Class CodecsLaws `{Codecs} := {
  codec_user_laws :: CodecLaws RegisteredUser;
  codec_room_laws :: CodecLaws PersistedRoom;
  codec_group_laws :: CodecLaws PersistedGroup;
  codec_names_laws :: CodecLaws (list string);
  codec_acl_laws :: CodecLaws PersistedRoomAcl;
  codec_ban_laws :: CodecLaws PersistedBan;
}.

#[global] Existing Instances codec_user codec_room codec_group codec_names codec_acl codec_ban
  codec_user_laws codec_room_laws codec_group_laws codec_names_laws codec_acl_laws codec_ban_laws.

Record Persistence (T : Type) := mkPersistence {
  registered_users : T;
  known_keys : T;
  rooms : T;
  groups : T;
  user_groups : T;
  group_expiries : T;
  room_acls : T;
  sudo_password : T;
  participant_defaults : T;
  bans : T;
}.
Arguments mkPersistence {T}.
Arguments registered_users {T}. Arguments known_keys {T}. Arguments rooms {T}.
Arguments groups {T}. Arguments user_groups {T}. Arguments group_expiries {T}.
Arguments room_acls {T}. Arguments sudo_password {T}. Arguments participant_defaults {T}.
Arguments bans {T}.

(** The trees, and the update of one of them. *)
Inductive tree :=
  | TUsers | TKeys | TRooms | TGroups | TUserGroups | TExpiries | TAcls | TSudo | TDefaults | TBans.

#[export] Instance tree_eq_dec : EqDecision tree.
Proof. solve_decision. Defined.

Definition get_tree {T} (i : tree) (p : Persistence T) : T :=
  match i with
  | TUsers => registered_users p | TKeys => known_keys p | TRooms => rooms p
  | TGroups => groups p | TUserGroups => user_groups p | TExpiries => group_expiries p
  | TAcls => room_acls p | TSudo => sudo_password p | TDefaults => participant_defaults p
  | TBans => bans p
  end.

Definition set_tree {T} (i : tree) (t : T) (p : Persistence T) : Persistence T :=
  let pick j old := if decide (i = j) then t else old in
  mkPersistence (pick TUsers (registered_users p)) (pick TKeys (known_keys p))
    (pick TRooms (rooms p)) (pick TGroups (groups p)) (pick TUserGroups (user_groups p))
    (pick TExpiries (group_expiries p)) (pick TAcls (room_acls p)) (pick TSudo (sudo_password p))
    (pick TDefaults (participant_defaults p)) (pick TBans (bans p)).

(** A call on one tree: [self.tree.op(..)?]. *)
Definition on_tree {T A} (i : tree) (op : T → result A * T) : ST (Persistence T) (result A) :=
  λ p, let '(r, t) := op (get_tree i p) in (r, set_tree i t p).

(** [let _ = ..;]: run for the effect, drop the result. *)
Definition ignore {S A} (m : ST S A) : ST S unit := λ s, (tt, (m s).2).

Section operations.
Context {T : Type} `{!KV T} `{!Codecs}.
Abbreviation P := (Persistence T).

(** ** Registered users and known keys *)

Definition get_registered_user (p : P) (public_key : Types.PublicKey) : option RegisteredUser :=
  read_record (arr public_key) (registered_users p).

Definition list_registered_users (p : P) : list (Types.PublicKey * RegisteredUser) :=
  omap (λ item : result (bytes * bytes),
    '(key, value) ← ok item;
    key ← array_of_slice 32 key;
    user ← ok (deserialize value);
    Some (key, user)) (kv_iter (registered_users p)).

Definition register_user (public_key : Types.PublicKey) (user : RegisteredUser)
  : ST P (result unit) :=
  match serialize user with
  | Err e => mret (Err e)
  | Ok data => on_tree TUsers (kv_insert (arr public_key) data)
  end.

Definition unregister_user (public_key : Types.PublicKey) : ST P (result unit) :=
  on_tree TUsers (kv_remove (arr public_key)).

Fixpoint username_taken_in (items : list (result (bytes * bytes))) (username_ : string)
    (public_key : Types.PublicKey) : bool :=
  match items with
  | [] => false
  | item :: rest =>
      match '(key, value) ← ok item; user ← ok (deserialize (A := RegisteredUser) value);
            Some (key, user) with
      | Some (key, user) =>
          if eq_ignore_ascii_case (username user) username_
          then negb (bool_decide (key = arr public_key))
          else username_taken_in rest username_ public_key
      | None => username_taken_in rest username_ public_key
      end
  end.

Definition is_username_taken (p : P) (username_ : string) (public_key : Types.PublicKey) : bool :=
  username_taken_in (kv_iter (registered_users p)) username_ public_key.

Definition is_registered (p : P) (public_key : Types.PublicKey) : bool :=
  default false (ok (kv_contains_key (arr public_key) (registered_users p))).

Definition is_known_key (p : P) (public_key : Types.PublicKey) : bool :=
  default false (ok (kv_contains_key (arr public_key) (known_keys p))).

Definition add_known_key (public_key : Types.PublicKey) : ST P (result unit) :=
  on_tree TKeys (kv_insert (arr public_key) []).

Definition remove_known_key (public_key : Types.PublicKey) : ST P (result unit) :=
  on_tree TKeys (kv_remove (arr public_key)).

Definition is_username_registered (p : P) (username_ : string) : bool :=
  existsb (λ item : result (bytes * bytes),
    match '(_, value) ← ok item; ok (deserialize (A := RegisteredUser) value) with
    | Some user => eq_ignore_ascii_case (username user) username_
    | None => false
    end) (kv_iter (registered_users p)).

(** ** Rooms *)

Definition get_room (p : P) (uuid : Types.Uuid) : option PersistedRoom :=
  read_record (arr uuid) (rooms p).

Definition save_room (uuid : Types.Uuid) (room : PersistedRoom) : ST P (result unit) :=
  match serialize room with
  | Err e => mret (Err e)
  | Ok data => on_tree TRooms (kv_insert (arr uuid) data)
  end.

Definition delete_room (uuid : Types.Uuid) : ST P (result unit) :=
  on_tree TRooms (kv_remove (arr uuid)).

Definition get_all_rooms (p : P) : list (Types.Uuid * PersistedRoom) :=
  omap (λ item : result (bytes * bytes),
    '(key, value) ← ok item;
    uuid ← array_of_slice 16 key;
    room ← ok (deserialize value);
    Some (uuid, room)) (kv_iter (rooms p)).

Definition update_user_last_room (public_key : Types.PublicKey) (room_uuid : option Types.Uuid)
  : ST P (result unit) :=
  user ← gets (λ p, get_registered_user p public_key);
  match user with
  | Some user => register_user public_key (mkRegisteredUser (username user) room_uuid)
  | None => done_ok
  end.

(** ** Permission groups *)

Definition create_group (name_ : string) (permissions_ : N) : ST P (result unit) :=
  match serialize (mkPersistedGroup permissions_) with
  | Err e => mret (Err e)
  | Ok data => on_tree TGroups (kv_insert (as_bytes name_) data)
  end.

Definition get_group (p : P) (name_ : string) : option PersistedGroup :=
  read_record (as_bytes name_) (groups p).

Definition delete_group (name_ : string) : ST P (result unit) :=
  on_tree TGroups (kv_remove (as_bytes name_)).

Definition modify_group (name_ : string) (permissions_ : N) : ST P (result bool) :=
  present ← gets (λ p, kv_contains_key (as_bytes name_) (groups p));
  match present with
  | Err e => mret (Err e)
  | Ok true => _ ←? create_group name_ permissions_; mret (Ok true)
  | Ok false => mret (Ok false)
  end.

Definition toggled_permissions (permissions_ bits : N) (enable : bool) : N :=
  if enable then N.lor permissions_ bits else N.ldiff permissions_ bits.

Definition toggle_group_permission (name_ : string) (bits : N) (enable : bool)
  : ST P (result (option N)) :=
  updated ←? on_tree TGroups (kv_update_and_fetch (as_bytes name_) (λ old,
    old ← old;
    group ← ok (deserialize (A := PersistedGroup) old);
    ok (serialize (mkPersistedGroup (toggled_permissions (permissions group) bits enable)))));
  match updated with
  | Some data =>
      match deserialize (A := PersistedGroup) data with
      | Ok group => mret (Ok (Some (permissions group)))
      | Err _ => mret (Err "corrupt group record"%string)
      end
  | None => mret (Ok None)
  end.

Definition list_groups (p : P) : list (string * PersistedGroup) :=
  omap (λ item : result (bytes * bytes),
    '(key, value) ← ok item;
    name_ ← from_utf8 key;
    group ← ok (deserialize value);
    Some (name_, group)) (kv_iter (groups p)).

(** The self-heal step of [ensure_default_groups]. *)
Definition heal_admin : ST P (result unit) :=
  g ← gets (λ p, get_group p "admin");
  match g with
  | Some g =>
      let perms := Perm.from_bits_truncate (permissions g) in
      if Perm.contains perms Perm.BANNED
      then _ ←? modify_group "admin" (Perm.difference perms Perm.BANNED); done_ok
      else done_ok
  | None => done_ok
  end.

Definition ensure_default_groups : ST P (result unit) :=
  empty ← gets (λ p, kv_is_empty (groups p));
  (if empty : bool then
     create_group "default" Perm.DEFAULT_PERMISSIONS ;?
     create_group "admin" Perm.ADMIN_PERMISSIONS
   else done_ok) ;?
  heal_admin.

(** ** User-group assignments *)

Definition set_user_groups (public_key : Types.PublicKey) (names : list string)
  : ST P (result unit) :=
  match serialize names with
  | Err e => mret (Err e)
  | Ok data => on_tree TUserGroups (kv_insert (arr public_key) data)
  end.

Definition get_user_groups (p : P) (public_key : Types.PublicKey) : list string :=
  default [] (read_record (arr public_key) (user_groups p)).

Definition set_participant_default_group (public_key : Types.PublicKey) (group : option string)
  : ST P (result unit) :=
  match group with
  | Some g => on_tree TDefaults (kv_insert (arr public_key) (as_bytes g))
  | None => on_tree TDefaults (kv_remove (arr public_key))
  end.

Definition get_participant_default_group (p : P) (public_key : Types.PublicKey) : option string :=
  data ← (ok (kv_get (arr public_key) (participant_defaults p)) ≫= id);
  from_utf8 data.

(** The update function [update_user_groups] hands to sled. *)
Definition user_groups_update (mutate : list string → list string) (old : option bytes)
  : option bytes :=
  let names := default [] (d ← old; ok (deserialize (A := list string) d)) in
  match ok (serialize (mutate names)) with Some data => Some data | None => old end.

Definition update_user_groups (public_key : Types.PublicKey) (mutate : list string → list string)
  : ST P (result unit) :=
  _ ←? on_tree TUserGroups (kv_update_and_fetch (arr public_key) (user_groups_update mutate));
  done_ok.

(** ** Timed group memberships *)

Definition expiry_key (public_key : Types.PublicKey) (group : string) : bytes :=
  arr public_key ++ as_bytes group.

Definition set_group_expiry (public_key : Types.PublicKey) (group : string) (expires_at : N)
  : ST P (result unit) :=
  let key := expiry_key public_key group in
  if (expires_at =? 0)%N then on_tree TExpiries (kv_remove key)
  else on_tree TExpiries (kv_insert key (be_bytes 8 expires_at)).

Definition get_group_expiry (p : P) (public_key : Types.PublicKey) (group : string) : N :=
  default 0%N (
    v ← (ok (kv_get (expiry_key public_key group) (group_expiries p)) ≫= id);
    a ← array_of_slice 8 v;
    Some (of_be_bytes (arr a))).

Definition add_user_to_group_with_expiry (public_key : Types.PublicKey) (group : string)
    (expires_at : N) : ST P (result unit) :=
  update_user_groups public_key (λ names,
    if negb (existsb (λ g, String.eqb g group) names) then names ++ [group] else names) ;?
  set_group_expiry public_key group expires_at ;?
  done_ok.

Definition add_user_to_group (public_key : Types.PublicKey) (group : string)
  : ST P (result unit) :=
  add_user_to_group_with_expiry public_key group 0.

Definition without (group : string) (names : list string) : list string :=
  retain (λ g, negb (String.eqb g group)) names.

Definition remove_user_from_group (public_key : Types.PublicKey) (group : string)
  : ST P (result unit) :=
  update_user_groups public_key (without group) ;?
  (ignore (on_tree TExpiries (kv_remove (expiry_key public_key group)));; done_ok).

Definition remove_group_from_all_users (group : string) : ST P unit :=
  items ← gets (λ p, kv_iter (user_groups p));
  for_each items (λ entry,
    match '(key, _) ← ok entry; array_of_slice 32 key with
    | Some key_arr =>
        ignore (update_user_groups key_arr (without group));;
        ignore (on_tree TExpiries (kv_remove (expiry_key key_arr group)))
    | None => mret tt
    end).

Fixpoint active_loop (public_key : Types.PublicKey) (now_secs : N) (names active : list string)
  : ST P (list string) :=
  match names with
  | [] => mret active
  | g :: rest =>
      expiry ← gets (λ p, get_group_expiry p public_key g);
      if negb (expiry =? 0)%N && (expiry <=? now_secs)%N
      then ignore (remove_user_from_group public_key g);;
           active_loop public_key now_secs rest active
      else active_loop public_key now_secs rest (active ++ [g])
  end.

Definition active_user_groups (public_key : Types.PublicKey) (now_secs : N) : ST P (list string) :=
  names ← gets (λ p, get_user_groups p public_key);
  active_loop public_key now_secs names [].

(** The records of [group_expiries] that have run out. *)
Definition expired_membership (now_secs : N) (item : result (bytes * bytes))
  : option (Types.PublicKey * string) :=
  '(key, value) ← ok item;
  a ← array_of_slice 8 value;
  let expires_at := of_be_bytes (arr a) in
  if (expires_at =? 0)%N || (now_secs <? expires_at)%N then None
  else if Nat.ltb (List.length key) 32 then None
  else
    pubkey ← array_of_slice 32 (take 32 key);
    group ← from_utf8 (drop 32 key);
    Some (pubkey, group).

Definition sweep_expired_memberships (now_secs : N) : ST P (list (Types.PublicKey * string)) :=
  expired ← gets (λ p, omap (expired_membership now_secs) (kv_iter (group_expiries p)));
  for_each expired (λ '(key, group), ignore (remove_user_from_group key group));;
  mret expired.

(** ** Room ACLs *)

Definition set_room_acl (room_uuid : Types.Uuid) (acl : PersistedRoomAcl) : ST P (result unit) :=
  match serialize acl with
  | Err e => mret (Err e)
  | Ok data => on_tree TAcls (kv_insert (arr room_uuid) data)
  end.

Definition get_room_acl (p : P) (room_uuid : Types.Uuid) : option PersistedRoomAcl :=
  read_record (arr room_uuid) (room_acls p).

Definition delete_room_acl (room_uuid : Types.Uuid) : ST P (result unit) :=
  on_tree TAcls (kv_remove (arr room_uuid)).

(** ** Bans *)

Definition set_ban (public_key : Types.PublicKey) (ban : PersistedBan) : ST P (result unit) :=
  match serialize ban with
  | Err e => mret (Err e)
  | Ok data => on_tree TBans (kv_insert (arr public_key) data)
  end.

Definition get_ban (p : P) (public_key : Types.PublicKey) : option PersistedBan :=
  read_record (arr public_key) (bans p).

Definition remove_ban (public_key : Types.PublicKey) : ST P (result unit) :=
  on_tree TBans (kv_remove (arr public_key)).

Definition expired_ban (now_secs : N) (item : result (bytes * bytes)) : option Types.PublicKey :=
  '(key, value) ← ok item;
  ban ← ok (deserialize value);
  key_arr ← array_of_slice 32 key;
  if is_expired ban now_secs then Some key_arr else None.

Definition sweep_expired_bans (now_secs : N) : ST P nat :=
  expired_keys ← gets (λ p, omap (expired_ban now_secs) (kv_iter (bans p)));
  for_each expired_keys (λ key,
    ignore (on_tree TBans (kv_remove (arr key)));;
    ignore (remove_user_from_group key "banned"));;
  mret (List.length expired_keys).

(** ** Sudo password *)

Definition set_sudo_password (hash : string) : ST P (result unit) :=
  on_tree TSudo (kv_insert (as_bytes "sudo") (as_bytes hash)).

Definition get_sudo_password (p : P) : option string :=
  data ← (ok (kv_get (as_bytes "sudo") (sudo_password p)) ≫= id);
  from_utf8 data.
End operations.

(** ** What a tree holds *)

Section lemmas.
Context {T : Type} `{!KV T} `{!KVLaws T} `{!Codecs} `{!CodecsLaws}.
Abbreviation P := (Persistence T).

Definition pview (i : tree) (p : P) : gmap bytes bytes := kv_view (get_tree i p).

Lemma get_set_tree i j t (p : P) :
  get_tree j (set_tree i t p) = if decide (i = j) then t else get_tree j p.
Proof. by destruct i, j. Qed.

Lemma on_tree_ok {A} i (op : T → result A * T) r (p : P) :
  (∀ t, (op t).1 = r t) → (on_tree i op p).1 = r (get_tree i p).
Proof. intros Hop. unfold on_tree. rewrite <- Hop. by destruct (op _). Qed.

Lemma on_tree_view {A} i (op : T → result A * T) (p : P) j :
  pview j (on_tree i op p).2 =
  if decide (i = j) then kv_view (op (get_tree i p)).2 else pview j p.
Proof.
  unfold pview, on_tree. destruct (op (get_tree i p)) as [r t]. cbn.
  rewrite get_set_tree. by destruct (decide (i = j)).
Qed.

Lemma on_insert i k v (p : P) : (on_tree i (kv_insert k v) p).1 = Ok tt.
Proof. apply (on_tree_ok _ _ (λ _, Ok tt)). intros t. apply kv_insert_ok. Qed.
Lemma on_remove i k (p : P) : (on_tree i (kv_remove k) p).1 = Ok tt.
Proof. apply (on_tree_ok _ _ (λ _, Ok tt)). intros t. apply kv_remove_ok. Qed.
Lemma on_update i k f (p : P) :
  (on_tree i (kv_update_and_fetch k f) p).1 = Ok (f (pview i p !! k)).
Proof. apply (on_tree_ok _ _ (λ t, Ok (f (kv_view t !! k)))). intros t. apply kv_update_ok. Qed.

Lemma on_insert_view i k v (p : P) j :
  pview j (on_tree i (kv_insert k v) p).2 =
  if decide (i = j) then <[k := v]> (pview i p) else pview j p.
Proof. rewrite on_tree_view. destruct (decide (i = j)); [|done]. apply kv_insert_view. Qed.
Lemma on_remove_view i k (p : P) j :
  pview j (on_tree i (kv_remove k) p).2 =
  if decide (i = j) then delete k (pview i p) else pview j p.
Proof. rewrite on_tree_view. destruct (decide (i = j)); [|done]. apply kv_remove_view. Qed.
Lemma on_update_view i k f (p : P) j :
  pview j (on_tree i (kv_update_and_fetch k f) p).2 =
  if decide (i = j) then
    match f (pview i p !! k) with
    | Some v => <[k := v]> (pview i p)
    | None => delete k (pview i p)
    end
  else pview j p.
Proof. rewrite on_tree_view. destruct (decide (i = j)); [|done]. apply kv_update_view. Qed.

Lemma try_bind_ok {S A B} (m : ST S (result A)) (k : A → ST S (result B)) s a :
  (m s).1 = Ok a → try_bind m k s = k a (m s).2.
Proof. intros Hm. unfold try_bind. destruct (m s) as [r s']. cbn in *. by rewrite Hm. Qed.

(** Records, on the view. *)
Lemma get_registered_user_view (p : P) k : get_registered_user p k = view_record (arr k) (pview TUsers p).
Proof. apply read_record_view. Qed.
Lemma get_room_view (p : P) k : get_room p k = view_record (arr k) (pview TRooms p).
Proof. apply read_record_view. Qed.
Lemma get_group_view (p : P) n : get_group p n = view_record (as_bytes n) (pview TGroups p).
Proof. apply read_record_view. Qed.
Lemma get_user_groups_view (p : P) k :
  get_user_groups p k = default [] (view_record (arr k) (pview TUserGroups p)).
Proof. unfold get_user_groups. by rewrite read_record_view. Qed.
Lemma get_room_acl_view (p : P) k : get_room_acl p k = view_record (arr k) (pview TAcls p).
Proof. apply read_record_view. Qed.
Lemma get_ban_view (p : P) k : get_ban p k = view_record (arr k) (pview TBans p).
Proof. apply read_record_view. Qed.
Lemma get_group_expiry_view (p : P) k g :
  get_group_expiry p k g =
  default 0%N (v ← pview TExpiries p !! expiry_key k g; a ← array_of_slice 8 v;
               Some (of_be_bytes (arr a))).
Proof. unfold get_group_expiry. by rewrite kv_get_ok. Qed.

Lemma arr_inj {n} (a b : array n) : arr a = arr b ↔ a = b.
Proof. split; [apply array_eq|by intros ->]. Qed.

Lemma expiry_key_inj k g k' g' : expiry_key k g = expiry_key k' g' ↔ k = k' ∧ g = g'.
Proof.
  unfold expiry_key. split; [|by intros [-> ->]].
  intros E. apply app_inj_length in E as [Ek Eg]; [|by rewrite !length_arr].
  split; [by apply array_eq|by apply as_bytes_inj].
Qed.

Lemma array8_be_bytes e : (e < 2 ^ 64)%N →
  (a ← array_of_slice 8 (be_bytes 8 e); Some (of_be_bytes (arr a))) = Some e.
Proof.
  intros He. destruct (array_of_slice 8 (be_bytes 8 e)) as [a|] eqn:E.
  - cbn. rewrite (array_of_slice_Some _ _ _ E), of_be_bytes_be_bytes.
    by rewrite N.mod_small.
  - exfalso. assert (is_Some (array_of_slice 8 (be_bytes 8 e))) as [? ?]; [|congruence].
    apply array_of_slice_length, length_be_bytes.
Qed.

(** [update_user_groups], seen by the readers. *)
Lemma update_user_groups_ok k f (p : P) : (update_user_groups k f p).1 = Ok tt.
Proof. unfold update_user_groups. by rewrite (try_bind_ok _ _ _ _ (on_update _ _ _ _)). Qed.

Lemma update_user_groups_view k f (p : P) j :
  pview j (update_user_groups k f p).2 =
  if decide (TUserGroups = j)
  then <[arr k := encoded (f (get_user_groups p k))]> (pview TUserGroups p) else pview j p.
Proof.
  unfold update_user_groups. rewrite (try_bind_ok _ _ _ _ (on_update _ _ _ _)). cbn [done_ok mret ST_ret snd].
  rewrite on_update_view. destruct (decide _); [|done].
  unfold user_groups_update. rewrite serialize_encoded. cbn. f_equal. do 2 f_equal.
  rewrite get_user_groups_view. reflexivity.
Qed.

Lemma update_user_groups_get k f (p : P) k' :
  get_user_groups (update_user_groups k f p).2 k' =
  if decide (k' = k) then f (get_user_groups p k) else get_user_groups p k'.
Proof.
  rewrite !(get_user_groups_view _ k'), update_user_groups_view. cbn [decide].
  destruct (decide (k' = k)) as [->|Hne].
  - rewrite decide_True by done. by rewrite view_record_insert.
  - rewrite decide_True by done. rewrite view_record_insert_ne; [done|]. by rewrite arr_inj.
Qed.

(** [remove_user_from_group]. *)
Lemma remove_user_from_group_ok k g (p : P) : (remove_user_from_group k g p).1 = Ok tt.
Proof. unfold remove_user_from_group. by rewrite (try_bind_ok _ _ _ _ (update_user_groups_ok _ _ _)). Qed.

Lemma remove_user_from_group_run k g (p : P) :
  (remove_user_from_group k g p).2 =
  (on_tree TExpiries (kv_remove (expiry_key k g)) (update_user_groups k (without g) p).2).2.
Proof. unfold remove_user_from_group. by rewrite (try_bind_ok _ _ _ _ (update_user_groups_ok _ _ _)). Qed.

Lemma remove_user_from_group_view k g (p : P) j :
  pview j (remove_user_from_group k g p).2 =
  match j with
  | TUserGroups => <[arr k := encoded (without g (get_user_groups p k))]> (pview TUserGroups p)
  | TExpiries => delete (expiry_key k g) (pview TExpiries p)
  | _ => pview j p
  end.
Proof.
  rewrite remove_user_from_group_run, on_remove_view, !update_user_groups_view.
  by destruct j.
Qed.

Lemma remove_user_from_group_get k g (p : P) k' :
  get_user_groups (remove_user_from_group k g p).2 k' =
  if decide (k' = k) then without g (get_user_groups p k) else get_user_groups p k'.
Proof.
  rewrite !(get_user_groups_view _ k'), remove_user_from_group_view.
  destruct (decide (k' = k)) as [->|Hne]; [by rewrite view_record_insert|].
  rewrite view_record_insert_ne; [done|]. by rewrite arr_inj.
Qed.

Lemma remove_user_from_group_expiry k g (p : P) k' g' :
  get_group_expiry (remove_user_from_group k g p).2 k' g' =
  if decide ((k', g') = (k, g)) then 0%N else get_group_expiry p k' g'.
Proof.
  rewrite !get_group_expiry_view, remove_user_from_group_view.
  destruct (decide _) as [[= -> ->]|Hne]; [by rewrite lookup_delete_eq|].
  rewrite lookup_delete_ne; [done|]. rewrite expiry_key_inj. intros [-> ->]. done.
Qed.

(** [add_user_to_group_with_expiry], seen by the readers. *)
Lemma add_timed k g e (p : P) :
  (e < 2 ^ 64)%N →
  let p' := (add_user_to_group_with_expiry k g e p).2 in
  (add_user_to_group_with_expiry k g e p).1 = Ok tt ∧
  (∀ j, j ≠ TExpiries → j ≠ TUserGroups → pview j p' = pview j p) ∧
  (∀ k' g', g' ∈ get_user_groups p' k' ↔ (k' = k ∧ g' = g) ∨ g' ∈ get_user_groups p k') ∧
  (∀ k' g', get_group_expiry p' k' g' =
     if decide ((k', g') = (k, g)) then e else get_group_expiry p k' g').
Proof.
  intros He. unfold add_user_to_group_with_expiry.
  erewrite try_bind_ok by apply update_user_groups_ok.
  match goal with |- context [update_user_groups k ?f p] => set (f0 := f) end.
  set (p1 := (update_user_groups k f0 p).2).
  set (p' := (set_group_expiry k g e p1).2).
  assert ((set_group_expiry k g e p1).1 = Ok tt) as Hok.
  { unfold set_group_expiry. destruct (e =? 0)%N; [apply on_remove|apply on_insert]. }
  erewrite try_bind_ok by apply Hok. fold p'. cbn [done_ok mret ST_ret fst snd].
  assert (∀ j, j ≠ TExpiries → pview j p' = pview j p1) as Hp'.
  { intros j Hj. unfold p', set_group_expiry.
    destruct (e =? 0)%N; rewrite ?on_remove_view, ?on_insert_view; by rewrite decide_False. }
  assert (∀ k' g', get_group_expiry p' k' g' =
     if decide ((k', g') = (k, g)) then e else get_group_expiry p k' g') as Hexp.
  { intros k' g'. rewrite !get_group_expiry_view.
    assert (pview TExpiries p1 = pview TExpiries p) as E1 by (unfold p1; by rewrite update_user_groups_view).
    unfold p', set_group_expiry. destruct (N.eqb_spec e 0) as [->|He0];
      rewrite ?on_remove_view, ?on_insert_view, decide_True, E1 by done;
      (destruct (decide _) as [[= -> ->]|Hne];
       [|rewrite ?lookup_delete_ne, ?lookup_insert_ne; [done|]; rewrite expiry_key_inj; intros [-> ->]; done]).
    - by rewrite lookup_delete_eq.
    - rewrite lookup_insert_eq. exact (f_equal (default 0%N) (array8_be_bytes e He)). }
  assert (∀ k', get_user_groups p' k' = get_user_groups p1 k') as Hg'.
  { intros k'. by rewrite !get_user_groups_view, Hp'. }
  assert (∀ k' g', g' ∈ get_user_groups p' k' ↔ (k' = k ∧ g' = g) ∨ g' ∈ get_user_groups p k') as Hmem.
  { intros k' g'. rewrite Hg'. unfold p1. rewrite update_user_groups_get.
    destruct (decide (k' = k)) as [->|Hne]; [|clear -Hne; intuition].
    unfold f0. destruct (existsb _ _) eqn:Ex; cbn.
    - apply existsb_elem_of in Ex as (x & Hx & ->%String.eqb_eq). clear -Hx. intuition congruence.
    - rewrite elem_of_app, list_elem_of_singleton. clear. intuition. }
  split; [done|]. split; [|by split].
  intros j Hj1 Hj2. rewrite Hp' by done. unfold p1. by rewrite update_user_groups_view, decide_False.
Qed.

(** A loop of removals, in any order. *)
Lemma remove_loop (l : list (Types.PublicKey * string)) (p : P) :
  let p' := (for_each l (λ '(key, group), ignore (remove_user_from_group key group)) p).2 in
  (∀ k, get_user_groups p' k =
        retain (λ g, negb (bool_decide ((k, g) ∈ l))) (get_user_groups p k)) ∧
  (∀ k g, get_group_expiry p' k g =
          if bool_decide ((k, g) ∈ l) then 0%N else get_group_expiry p k g) ∧
  (∀ j, j ≠ TUserGroups → j ≠ TExpiries → pview j p' = pview j p).
Proof.
  revert p. induction l as [|[k0 g0] l IH]; intros p; cbn zeta.
  - split; [|split; [|done]]; intros k; [|done]. symmetry. by apply retain_all.
  - cbn [for_each]. unfold mbind, ST_bind. cbn [ignore].
    set (p1 := (remove_user_from_group k0 g0 p).2).
    destruct (IH p1) as (IH1 & IH2 & IH3). split; [|split].
    + intros k. rewrite IH1. unfold p1. rewrite remove_user_from_group_get.
      destruct (decide (k = k0)) as [->|Hne].
      * unfold without. rewrite retain_retain. apply retain_ext. intros g _.
        destruct (String.eqb_spec g g0) as [->|Hg]; cbn.
        -- rewrite bool_decide_true; [done|]. apply list_elem_of_here.
        -- f_equal. apply bool_decide_ext. rewrite elem_of_cons_ne; [done|congruence].
      * apply retain_ext. intros g _. f_equal. apply bool_decide_ext. rewrite elem_of_cons_ne; [done|congruence].
    + intros k g. rewrite IH2. unfold p1. rewrite remove_user_from_group_expiry.
      destruct (decide ((k, g) = (k0, g0))) as [E|Hne].
      * rewrite E. rewrite (bool_decide_true (_ ∈ _ :: _)) by apply list_elem_of_here.
        by destruct (bool_decide _).
      * rewrite (bool_decide_ext ((k, g) ∈ (k0, g0) :: l) ((k, g) ∈ l)); [done|].
        rewrite elem_of_cons_ne; [done|congruence].
    + intros j H1 H2. rewrite IH3 by done. unfold p1. rewrite remove_user_from_group_view.
      by destruct j.
Qed.

(** The membership [(k, g)] has run out. *)
Definition timed_out (p : P) (now : N) (k : Types.PublicKey) (g : string) : bool :=
  negb (get_group_expiry p k g =? 0)%N && (get_group_expiry p k g <=? now)%N.

Lemma active_loop_spec k now names active (p : P) :
  NoDup names →
  let '(act, p') := active_loop k now names active p in
  act = active ++ retain (λ g, negb (timed_out p now k g)) names ∧
  (∀ k', get_user_groups p' k' =
     if decide (k' = k)
     then retain (λ g, negb (bool_decide (g ∈ names) && timed_out p now k g)) (get_user_groups p k)
     else get_user_groups p k') ∧
  (∀ k' g, get_group_expiry p' k' g =
     if decide (k' = k) then
       if bool_decide (g ∈ names) && timed_out p now k g then 0%N else get_group_expiry p k g
     else get_group_expiry p k' g).
Proof.
  revert active p. induction names as [|g names IH]; intros active p Hnd.
  - cbn. rewrite app_nil_r. split; [done|]. split.
    + intros k'. destruct (decide _) as [->|]; [|done]. symmetry. by apply retain_all.
    + intros k' g. by destruct (decide _) as [->|].
  - apply NoDup_cons in Hnd as [Hg Hnd]. cbn [active_loop]. unfold mbind at 1, ST_bind at 1, gets at 1.
    change (negb (get_group_expiry p k g =? 0)%N && (get_group_expiry p k g <=? now)%N)
      with (timed_out p now k g).
    destruct (timed_out p now k g) eqn:Et.
    + unfold mbind, ST_bind, ignore. set (p1 := (remove_user_from_group k g p).2).
      assert (∀ g', g' ≠ g → timed_out p1 now k g' = timed_out p now k g') as Hsame.
      { intros g' Hne. unfold timed_out, p1. rewrite remove_user_from_group_expiry.
        rewrite decide_False; [done|]. by intros [= ->]. }
      specialize (IH active p1 Hnd). destruct (active_loop k now names active p1) as [act p'].
      destruct IH as (IH1 & IH2 & IH3). split; [|split].
      * rewrite IH1. unfold retain. cbn [List.filter]. rewrite Et. cbn. f_equal.
        apply retain_ext. intros g' Hg'. rewrite Hsame; [done|]. by intros ->.
      * intros k'. rewrite IH2. unfold p1. rewrite !remove_user_from_group_get.
        destruct (decide (k' = k)) as [->|]; [|done]. rewrite decide_True by done.
        unfold without. rewrite retain_retain. apply retain_ext. intros g' _. fold p1.
        destruct (String.eqb_spec g' g) as [->|Hne]; cbn.
        -- rewrite bool_decide_true by apply list_elem_of_here. by rewrite Et.
        -- rewrite Hsame by done. do 2 f_equal. apply bool_decide_ext.
           by rewrite elem_of_cons_ne.
      * intros k' g'. rewrite IH3. unfold p1 at 2 3. rewrite !remove_user_from_group_expiry.
        destruct (decide (k' = k)) as [->|Hk].
        -- destruct (decide (g' = g)) as [->|Hne].
           ++ rewrite decide_True by done. rewrite (bool_decide_true (g ∈ g :: names)) by apply list_elem_of_here.
              rewrite Et. by destruct (_ && _).
           ++ rewrite decide_False by congruence. rewrite Hsame by done.
              by rewrite (bool_decide_ext (g' ∈ g :: names) (g' ∈ names))
                by (by rewrite elem_of_cons_ne).
        -- rewrite decide_False; [done|]. congruence.
    + specialize (IH (active ++ [g]) p Hnd).
      destruct (active_loop k now names (active ++ [g]) p) as [act p'].
      destruct IH as (IH1 & IH2 & IH3).
      assert (∀ g', bool_decide (g' ∈ g :: names) && timed_out p now k g'
                    = bool_decide (g' ∈ names) && timed_out p now k g') as Hsame.
      { intros g'. destruct (String.eqb_spec g' g) as [->|Hne]; [by rewrite Et, !andb_false_r|].
        f_equal. apply bool_decide_ext. by rewrite elem_of_cons_ne. }
      split; [|split].
      * rewrite IH1, <- app_assoc. unfold retain. cbn [List.filter]. by rewrite Et.
      * intros k'. rewrite IH2. destruct (decide _); [|done]. apply retain_ext. intros g' _.
        by rewrite Hsame.
      * intros k' g'. rewrite IH3. destruct (decide _); [|done]. by rewrite Hsame.
Qed.

(** The memberships a sweep finds. *)
Lemma expired_membership_spec (p : P) now k g :
  (k, g) ∈ omap (expired_membership now) (kv_iter (group_expiries p)) ↔
  utf8_valid (as_bytes g) = true ∧ timed_out p now k g = true.
Proof.
  rewrite list_elem_of_omap. unfold timed_out. rewrite get_group_expiry_view.
  unfold pview. cbn [get_tree]. split.
  - intros ([[key v]|e] & Hin & Hx); [|done]. apply elem_of_iter in Hin. cbn in Hx.
    destruct (array_of_slice 8 v) as [a|] eqn:Ea; [|done]. cbn in Hx.
    destruct (of_be_bytes (arr a) =? 0)%N eqn:E0; [done|]. cbn in Hx.
    destruct (N.ltb_spec now (of_be_bytes (arr a))) as [Hl|Hl]; [done|].
    destruct (Nat.leb (List.length key) 31); [done|].
    destruct (array_of_slice 32 (take 32 key)) as [a'|] eqn:Ek; [|done]. cbn in Hx.
    destruct (from_utf8 (drop 32 key)) as [g'|] eqn:Eg; [|done]. cbn in Hx. injection Hx as -> ->.
    assert (expiry_key k g = key) as ->.
    { unfold expiry_key. apply array_of_slice_Some in Ek. apply from_utf8_Some in Eg as Eb.
      by rewrite Ek, Eb, take_drop. }
    rewrite Hin. cbn. rewrite Ea. cbn. rewrite E0. split; [|by apply N.leb_le].
    unfold from_utf8 in Eg. destruct (utf8_valid (drop 32 key)) eqn:Eu; [|done].
    injection Eg as <-. unfold as_bytes. by rewrite list_byte_of_string_of_list_byte.
  - intros [Hu Hx]. destruct (kv_view (group_expiries p) !! expiry_key k g) as [v|] eqn:Ev; [|done].
    exists (Ok (expiry_key k g, v)). split; [by apply elem_of_iter|]. cbn in Hx |- *.
    destruct (array_of_slice 8 v) as [a|]; [|done]. cbn in Hx |- *.
    apply andb_prop in Hx as [Hx1 Hx2]. apply negb_true_iff in Hx1. rewrite Hx1. cbn.
    apply N.leb_le in Hx2. replace (now <? _)%N with false by (symmetry; by apply N.ltb_ge).
    unfold expiry_key. rewrite length_app, length_arr. cbn [Nat.add Nat.ltb Nat.leb].
    rewrite take_app_length', drop_app_length' by (by rewrite length_arr).
    rewrite array_of_slice_arr. cbn. by rewrite from_utf8_as_bytes.
Qed.

(** The loop of [sweep_expired_bans]. *)
Lemma unban_loop (l : list Types.PublicKey) (p : P) :
  let p' := (for_each l (λ key,
    ignore (on_tree TBans (kv_remove (arr key)));; ignore (remove_user_from_group key "banned")) p).2 in
  (∀ k, get_ban p' k = if bool_decide (k ∈ l) then None else get_ban p k) ∧
  (∀ k, get_user_groups p' k =
        if bool_decide (k ∈ l) then without "banned" (get_user_groups p k) else get_user_groups p k).
Proof.
  revert p. induction l as [|k0 l IH]; intros p; cbn zeta; [done|].
  cbn [for_each]. unfold mbind, ST_bind. cbn [ignore].
  set (p1 := (remove_user_from_group k0 "banned" (on_tree TBans (kv_remove (arr k0)) p).2).2).
  destruct (IH p1) as (IH1 & IH2).
  assert (∀ k, get_ban p1 k = if decide (k = k0) then None else get_ban p k) as Hb.
  { intros k. unfold p1. rewrite !get_ban_view, remove_user_from_group_view, on_remove_view.
    rewrite (decide_True (P := TBans = TBans)) by done.
    destruct (decide (k = k0)) as [->|Hne]; [by rewrite view_record_delete|].
    rewrite view_record_delete_ne; [done|]. by rewrite arr_inj. }
  assert (∀ k, get_user_groups p1 k =
               if decide (k = k0) then without "banned" (get_user_groups p k0) else get_user_groups p k) as Hg.
  { intros k. unfold p1. rewrite remove_user_from_group_get.
    by rewrite !get_user_groups_view, !on_remove_view. }
  split; intros k.
  - rewrite IH1, Hb. destruct (decide (k = k0)) as [->|Hne].
    + rewrite (bool_decide_true (k0 ∈ k0 :: l)) by apply list_elem_of_here. by destruct (bool_decide _).
    + by rewrite (bool_decide_ext (k ∈ k0 :: l) (k ∈ l)) by (by rewrite elem_of_cons_ne).
  - rewrite IH2, Hg. destruct (decide (k = k0)) as [->|Hne].
    + rewrite (bool_decide_true (k0 ∈ k0 :: l)) by apply list_elem_of_here.
      destruct (bool_decide _); [|done]. unfold without. rewrite retain_retain.
      apply retain_ext. intros g _. by rewrite andb_diag.
    + by rewrite (bool_decide_ext (k ∈ k0 :: l) (k ∈ l)) by (by rewrite elem_of_cons_ne).
Qed.

Lemma expired_ban_spec (p : P) now k :
  k ∈ omap (expired_ban now) (kv_iter (bans p)) ↔
  ∃ ban, get_ban p k = Some ban ∧ is_expired ban now = true.
Proof.
  rewrite list_elem_of_omap, get_ban_view. unfold view_record, pview. cbn [get_tree]. split.
  - intros ([[key v]|e] & Hin & Hx); [|done]. apply elem_of_iter in Hin. cbn in Hx.
    destruct (deserialize v) as [ban|] eqn:Ev; [|done]. cbn in Hx.
    destruct (array_of_slice 32 key) as [a|] eqn:Ek; [|done]. cbn in Hx.
    destruct (is_expired ban now) eqn:Ee; [|done]. injection Hx as ->.
    apply array_of_slice_Some in Ek. rewrite Ek, Hin. cbn. rewrite Ev. by exists ban.
  - intros (ban & Hb & He). destruct (kv_view (bans p) !! arr k) as [v|] eqn:Ev; [|done]. cbn in Hb.
    exists (Ok (arr k, v)). split; [by apply elem_of_iter|]. cbn.
    destruct (deserialize v) as [b|]; [|done]. cbn in Hb |- *. injection Hb as ->.
    rewrite array_of_slice_arr. cbn. by rewrite He.
Qed.

(** An iteration yields every key once. *)
Lemma iter_keys_NoDup {B} (t : T) (f : result (bytes * bytes) → option B) (key : B → bytes) :
  (∀ k v b, f (Ok (k, v)) = Some b → key b = k) → NoDup (omap f (kv_iter t)).
Proof.
  intros Hf. destruct (kv_iter_ok t) as (l & -> & Hp & _).
  assert (NoDup (l.*1)) as Hnd by (rewrite Hp; apply NoDup_fst_map_to_list). clear Hp.
  induction l as [|[k v] l IH]; [constructor|].
  rewrite fmap_cons in Hnd. apply NoDup_cons in Hnd as [Hk Hnd]. specialize (IH Hnd). csimpl.
  destruct (f (Ok (k, v))) as [b|] eqn:Eb; [|done]. apply NoDup_cons. split; [|done].
  rewrite list_elem_of_omap. intros (x & Hx & Efx). apply list_elem_of_fmap in Hx as ([k' v'] & -> & Hx).
  apply Hk. apply list_elem_of_fmap. exists (k', v'). split; [|done].
  apply Hf in Eb, Efx. simpl. congruence.
Qed.

(** [create_group] and [modify_group]. *)
Lemma create_group_run n perms (p : P) :
  create_group n perms p =
  on_tree TGroups (kv_insert (as_bytes n) (encoded (mkPersistedGroup perms))) p.
Proof. unfold create_group. by rewrite serialize_encoded. Qed.

Lemma create_group_get n perms (p : P) n' :
  get_group (create_group n perms p).2 n' =
  if decide (n' = n) then Some (mkPersistedGroup perms) else get_group p n'.
Proof.
  rewrite create_group_run, !get_group_view, on_insert_view.
  rewrite (decide_True (P := TGroups = TGroups)) by done.
  destruct (decide (n' = n)) as [->|Hne]; [by rewrite view_record_insert|].
  rewrite view_record_insert_ne; [done|]. intros E. by apply Hne, as_bytes_inj.
Qed.

Lemma create_group_view n perms (p : P) j :
  j ≠ TGroups → pview j (create_group n perms p).2 = pview j p.
Proof. intros Hj. rewrite create_group_run, on_insert_view. by rewrite decide_False. Qed.

Lemma group_present (p : P) n g :
  get_group p n = Some g → kv_contains_key (as_bytes n) (groups p) = Ok true.
Proof.
  rewrite get_group_view, kv_contains_key_ok. unfold view_record, pview. cbn [get_tree].
  intros E. f_equal. apply bool_decide_true.
  destruct (kv_view (groups p) !! as_bytes n); [by eexists|done].
Qed.

Lemma modify_group_run n perms (p : P) g :
  get_group p n = Some g → modify_group n perms p = (Ok true, (create_group n perms p).2).
Proof.
  intros Hg. unfold modify_group, mbind, ST_bind, gets. rewrite (group_present p n g Hg).
  erewrite try_bind_ok; [reflexivity|]. rewrite create_group_run. apply on_insert.
Qed.

Definition admin_banned (g : PersistedGroup) : bool :=
  Perm.contains (Perm.from_bits_truncate (permissions g)) Perm.BANNED.

Lemma contains_BANNED n : Perm.contains n Perm.BANNED = N.testbit n 22.
Proof.
  unfold Perm.contains. change Perm.BANNED with (2 ^ 22)%N.
  rewrite N.eqb_sym. destruct (N.testbit n 22) eqn:E.
  - apply N.eqb_eq, N.bits_inj. intros i. rewrite N.land_spec.
    destruct (decide (i = 22%N)) as [->|Hi]; [by rewrite E|].
    rewrite N.pow2_bits_false by congruence. by rewrite andb_false_r.
  - apply N.eqb_neq. intros H1. apply (f_equal (λ x, N.testbit x 22)) in H1.
    rewrite N.land_spec, E in H1. done.
Qed.

Lemma heal_admin_run (p : P) :
  heal_admin p =
  (Ok tt, match get_group p "admin" with
          | Some g => if admin_banned g
                      then (create_group "admin" (Perm.difference (Perm.from_bits_truncate (permissions g)) Perm.BANNED) p).2
                      else p
          | None => p
          end).
Proof.
  unfold heal_admin, mbind, ST_bind, gets.
  destruct (get_group p "admin") as [g|] eqn:Eg; [|done].
  unfold admin_banned. destruct (Perm.contains _ _); [|done].
  erewrite try_bind_ok; [|by rewrite (modify_group_run _ _ _ _ Eg)].
  by rewrite (modify_group_run _ _ _ _ Eg).
Qed.
Lemma get_registered_user_raw (p : P) k u :
  get_registered_user p k = Some u ↔
  ∃ v, pview TUsers p !! arr k = Some v ∧ deserialize v = Ok u.
Proof.
  rewrite get_registered_user_view. unfold view_record.
  destruct (pview TUsers p !! arr k) as [v|]; cbn; [|by split; [|intros (v & [=] & _)]].
  destruct (deserialize v) as [u'|] eqn:Ev; cbn; split.
  - intros [= ->]. by exists v.
  - intros (v' & [= <-] & Hu). congruence.
  - done.
  - intros (v' & [= <-] & Hu). congruence.
Qed.

Lemma array32_of (key : bytes) : List.length key = 32 → ∃ k : Types.PublicKey, arr k = key.
Proof.
  intros Hl. destruct (proj2 (array_of_slice_length 32 key) Hl) as [a Ha].
  exists a. by apply array_of_slice_Some in Ha.
Qed.

(** The loop of [is_username_taken] over any part of the iteration. *)
Lemma username_taken_in_spec (p : P) n pk items :
  (∀ key v, pview TUsers p !! key = Some v → List.length key = 32) →
  (∀ k1 u1 k2 u2, get_registered_user p k1 = Some u1 → get_registered_user p k2 = Some u2 →
     eq_ignore_ascii_case (username u1) n = true → eq_ignore_ascii_case (username u2) n = true → k1 = k2) →
  (∀ key v, Ok (key, v) ∈ items → pview TUsers p !! key = Some v) →
  username_taken_in items n pk = true ↔
  ∃ k v u, Ok (arr k, v) ∈ items ∧ deserialize v = Ok u ∧
           eq_ignore_ascii_case (username u) n = true ∧ k ≠ pk.
Proof.
  intros Hlen Huniq. induction items as [|item items IH]; intros Hit.
  { split; [done|]. intros (k & v & u & Hin & _). by apply elem_of_nil in Hin. }
  assert (∀ key v, Ok (key, v) ∈ items → pview TUsers p !! key = Some v) as Hit'
    by (intros key' v' Hin; apply Hit; by apply list_elem_of_further).
  specialize (IH Hit').
  assert (∀ k v u, Ok (arr k, v) ∈ item :: items → deserialize v = Ok u → get_registered_user p k = Some u)
    as Hreg by (intros k' v' u' Hin Eu; apply get_registered_user_raw; eauto).
  assert (username_taken_in items n pk = true →
          ∃ k v u, Ok (arr k, v) ∈ item :: items ∧ deserialize v = Ok u ∧
                   eq_ignore_ascii_case (username u) n = true ∧ k ≠ pk) as Hfwd.
  { rewrite IH. intros (k' & v' & u' & Hin & Hrest). exists k', v', u'.
    split; [by apply list_elem_of_further|done]. }
  destruct item as [[key v]|e]; cbn.
  2: { split; [done|]. rewrite IH. intros (k' & v' & u' & Hin & Hrest). exists k', v', u'.
       split; [by apply elem_of_cons in Hin as [[=]|Hin]|done]. }
  destruct (array32_of key) as [k <-]; [by eapply Hlen, Hit, list_elem_of_here|].
  destruct (deserialize v) as [u|] eqn:Eu; cbn.
  2: { split; [done|]. rewrite IH. intros (k' & v' & u' & Hin & Eu' & Hrest). exists k', v', u'.
       apply elem_of_cons in Hin as [[= -> ->]|Hin]; [congruence|done]. }
  destruct (eq_ignore_ascii_case (username u) n) eqn:En.
  - rewrite negb_true_iff, bool_decide_eq_false, arr_inj. split.
    + intros Hne. exists k, v, u. split; [apply list_elem_of_here|done].
    + intros (k' & v' & u' & Hin & Eu' & En' & Hne) <-. apply Hne.
      apply (Huniq k' u' k u); [by eapply Hreg| |done|done].
      eapply Hreg; [apply list_elem_of_here|done].
  - split; [done|]. rewrite IH. intros (k' & v' & u' & Hin & Eu' & En' & Hne). exists k', v', u'.
    apply elem_of_cons in Hin as [[= -> ->]|Hin]; [|done].
    rewrite Eu' in Eu. injection Eu as ->. congruence.
Qed.
End lemmas.


(** ** A concrete store *)

#[export] Instance ban_eq_dec : EqDecision PersistedBan.
Proof. solve_decision. Defined.
#[export] Program Instance ban_countable : Countable PersistedBan :=
  inj_countable (λ b, (banned_at_secs b, duration_seconds b, reason b, banned_by b))
    (λ '(a, d, r, b), Some (mkPersistedBan a d r b)) _.
Next Obligation. by intros []. Qed.
#[export] Instance acl_entry_eq_dec : EqDecision PersistedAclEntry.
Proof. solve_decision. Defined.
#[export] Program Instance acl_entry_countable : Countable PersistedAclEntry :=
  inj_countable (λ e, (pa_group e, pa_grant e, pa_deny e, pa_apply_here e, pa_apply_subs e))
    (λ '(g, a, d, h, s), Some (mkPersistedAclEntry g a d h s)) _.
Next Obligation. by intros []. Qed.
#[export] Instance room_acl_eq_dec : EqDecision PersistedRoomAcl.
Proof. solve_decision. Defined.
#[export] Program Instance room_acl_countable : Countable PersistedRoomAcl :=
  inj_countable (λ a, (pa_inherit_acl a, pa_entries a)) (λ '(i, e), Some (mkPersistedRoomAcl i e)) _.
Next Obligation. by intros []. Qed.
#[export] Instance group_eq_dec : EqDecision PersistedGroup.
Proof. solve_decision. Defined.
#[export] Program Instance group_countable : Countable PersistedGroup :=
  inj_countable permissions (λ p, Some (mkPersistedGroup p)) _.
Next Obligation. by intros []. Qed.
#[export] Instance room_eq_dec : EqDecision PersistedRoom.
Proof. solve_decision. Defined.
#[export] Program Instance room_countable : Countable PersistedRoom :=
  inj_countable (λ r, (name r, parent r, description r, permanent r))
    (λ '(n, p, d, q), Some (mkPersistedRoom n p d q)) _.
Next Obligation. by intros []. Qed.
#[export] Instance user_eq_dec : EqDecision RegisteredUser.
Proof. solve_decision. Defined.
#[export] Program Instance user_countable : Countable RegisteredUser :=
  inj_countable (λ u, (username u, last_room u)) (λ '(n, r), Some (mkRegisteredUser n r)) _.
Next Obligation. by intros []. Qed.

Definition codecs : Codecs := {|
  codec_user := countable_codec _; codec_room := countable_codec _;
  codec_group := countable_codec _; codec_names := countable_codec _;
  codec_acl := countable_codec _; codec_ban := countable_codec _;
|}.
Definition codecs_laws : @CodecsLaws codecs.
Proof. split; apply countable_codec_laws. Defined.

Definition memory := gmap bytes bytes.
Definition empty_store : Persistence memory := mkPersistence ∅ ∅ ∅ ∅ ∅ ∅ ∅ ∅ ∅ ∅.

(** ** Properties *)

Section properties.
Context {T : Type} `{!KV T} `{!KVLaws T} `{!Codecs} `{!CodecsLaws}.

(** Every typed record is read back as it was last written, and writing or
    removing one key leaves the records of the other keys alone: registered
    users, rooms, room ACLs and bans. *)
Theorem records_round_trip (p : Persistence T) :
  (∀ k u k', (register_user k u p).1 = Ok tt ∧
     get_registered_user (register_user k u p).2 k' =
       (if decide (k' = k) then Some u else get_registered_user p k') ∧
     get_registered_user (unregister_user k p).2 k' =
       (if decide (k' = k) then None else get_registered_user p k')) ∧
  (∀ i r i', (save_room i r p).1 = Ok tt ∧
     get_room (save_room i r p).2 i' = (if decide (i' = i) then Some r else get_room p i') ∧
     get_room (delete_room i p).2 i' = (if decide (i' = i) then None else get_room p i')) ∧
  (∀ i a i', (set_room_acl i a p).1 = Ok tt ∧
     get_room_acl (set_room_acl i a p).2 i' = (if decide (i' = i) then Some a else get_room_acl p i') ∧
     get_room_acl (delete_room_acl i p).2 i' = (if decide (i' = i) then None else get_room_acl p i')) ∧
  (∀ k b k', (set_ban k b p).1 = Ok tt ∧
     get_ban (set_ban k b p).2 k' = (if decide (k' = k) then Some b else get_ban p k') ∧
     get_ban (remove_ban k p).2 k' = (if decide (k' = k) then None else get_ban p k')).
Proof.
  assert (∀ {A} `{CodecLaws A} n (k k' : array n) (a : A) (m : gmap bytes bytes),
    view_record (arr k') (<[arr k := encoded a]> m) =
      (if decide (k' = k) then Some a else view_record (arr k') m) ∧
    view_record (A := A) (arr k') (delete (arr k) m) =
      (if decide (k' = k) then None else view_record (arr k') m)) as Hrec.
  { intros A ? ? n k k' a m. destruct (decide (k' = k)) as [->|Hne].
    - by rewrite view_record_insert, view_record_delete.
    - by rewrite view_record_insert_ne, view_record_delete_ne by (by rewrite arr_inj). }
  unfold register_user, unregister_user, save_room, delete_room, set_room_acl, delete_room_acl,
    set_ban, remove_ban.
  split; [|split; [|split]]; intros k u k'; rewrite serialize_encoded, on_insert;
    rewrite ?get_registered_user_view, ?get_room_view, ?get_room_acl_view, ?get_ban_view,
      on_insert_view, on_remove_view, !decide_True by done; (split; [done|apply (Hrec _ _ _)]).
Qed.

(** Memberships with an expiry behave as documented: adding makes the user
    a member with exactly that expiry (0 clears it), removing drops both, and
    no other user or group is touched. *)
Theorem membership_operations (p : Persistence T) (k : Types.PublicKey) (g : string) (e : N) :
  (e < 2 ^ 64)%N →
  let '(r, p') := add_user_to_group_with_expiry k g e p in
  let '(r', p'') := remove_user_from_group k g p' in
  r = Ok tt ∧ r' = Ok tt ∧
  (∀ k' g', g' ∈ get_user_groups p' k' ↔ (k' = k ∧ g' = g) ∨ g' ∈ get_user_groups p k') ∧
  (∀ k' g', get_group_expiry p' k' g' =
     if decide ((k', g') = (k, g)) then e else get_group_expiry p k' g') ∧
  (∀ k' g', g' ∈ get_user_groups p'' k' ↔ (k', g') ≠ (k, g) ∧ g' ∈ get_user_groups p k') ∧
  (∀ k' g', get_group_expiry p'' k' g' =
     if decide ((k', g') = (k, g)) then 0%N else get_group_expiry p k' g').
Proof.
  intros He. destruct (add_timed k g e p He) as (Ha & _ & Hmem & Hexp).
  destruct (add_user_to_group_with_expiry k g e p) as [r p']. cbn [fst snd] in *. subst r.
  destruct (remove_user_from_group k g p') as [r' p''] eqn:Er.
  assert (r' = (remove_user_from_group k g p').1) as -> by (by rewrite Er).
  assert (p'' = (remove_user_from_group k g p').2) as -> by (by rewrite Er).
  rewrite remove_user_from_group_ok. split; [done|]. split; [done|]. split; [done|]. split; [done|].
  split; intros k' g'.
  - rewrite remove_user_from_group_get. destruct (decide (k' = k)) as [->|Hne].
    + unfold without. rewrite elem_of_retain, Hmem, negb_true_iff, String.eqb_neq.
      clear. intuition congruence.
    + rewrite Hmem. clear -Hne. intuition congruence.
  - rewrite remove_user_from_group_expiry, Hexp. by destruct (decide _).
Qed.

(** The lazy enforcement at login: [active_user_groups] returns exactly the
    stored memberships that have not run out, in order; afterwards the stored
    list is the returned one, the expiry records of the dropped memberships
    are gone, and every other record and user is unchanged. *)
Theorem active_user_groups_spec (p : Persistence T) (k : Types.PublicKey) (now : N) :
  NoDup (get_user_groups p k) →
  let '(active, p') := active_user_groups k now p in
  active = retain (λ g, negb (timed_out p now k g)) (get_user_groups p k) ∧
  get_user_groups p' k = active ∧
  (∀ g, g ∈ active → get_group_expiry p' k g = get_group_expiry p k g) ∧
  (∀ g, g ∈ get_user_groups p k → g ∉ active → get_group_expiry p' k g = 0%N) ∧
  (∀ k', k' ≠ k → get_user_groups p' k' = get_user_groups p k' ∧
     ∀ g, get_group_expiry p' k' g = get_group_expiry p k' g).
Proof.
  intros Hnd. unfold active_user_groups, mbind at 1, ST_bind at 1, gets at 1.
  pose proof (active_loop_spec k now (get_user_groups p k) [] p Hnd) as Hl.
  destruct (active_loop _ _ _ _ _) as [active p']. destruct Hl as (Ha & Hg & He).
  simpl in Ha. split; [done|]. split; [|split; [|split]].
  - rewrite Hg, decide_True by done. rewrite Ha. apply retain_ext. intros g Hgi.
    by rewrite bool_decide_true.
  - intros g Hgi. rewrite He, decide_True by done. rewrite Ha in Hgi. apply elem_of_retain in Hgi as [_ Ht].
    apply negb_true_iff in Ht. by rewrite Ht, andb_false_r.
  - intros g Hgi Hna. rewrite He, decide_True, bool_decide_true by done. cbn.
    destruct (timed_out p now k g) eqn:Et; [done|]. exfalso. apply Hna. rewrite Ha.
    apply elem_of_retain. by rewrite Et.
  - intros k' Hk. rewrite Hg, decide_False by done. split; [done|]. intros g. by rewrite He, decide_False.
Qed.

(** The membership sweep removes exactly the memberships that have run
    out: it returns those pairs, drops each from its user's list together with
    its expiry record, and changes nothing else. *)
Theorem sweep_expired_memberships_spec (p : Persistence T) (now : N) :
  let '(removed, p') := sweep_expired_memberships now p in
  (∀ k g, (k, g) ∈ removed ↔ utf8_valid (as_bytes g) = true ∧ timed_out p now k g = true) ∧
  (∀ k, get_user_groups p' k =
        retain (λ g, negb (bool_decide ((k, g) ∈ removed))) (get_user_groups p k)) ∧
  (∀ k g, get_group_expiry p' k g =
          if bool_decide ((k, g) ∈ removed) then 0%N else get_group_expiry p k g) ∧
  (∀ j, j ≠ TUserGroups → j ≠ TExpiries → pview j p' = pview j p).
Proof.
  unfold sweep_expired_memberships, mbind, ST_bind, gets, mret, ST_ret.
  set (l := omap (expired_membership now) (kv_iter (group_expiries p))).
  pose proof (remove_loop l p) as Hl. destruct (for_each l _ p) as [[] p'].
  split; [|exact Hl]. intros k g. apply expired_membership_spec.
Qed.

(** The ban sweep lifts exactly the bans that have expired, counts them,
    and takes their users out of the "banned" group; permanent and running
    bans stay. *)
Theorem sweep_expired_bans_spec (p : Persistence T) (now : N) :
  let '(n, p') := sweep_expired_bans now p in
  ∃ lifted, NoDup lifted ∧ n = List.length lifted ∧
  (∀ k, k ∈ lifted ↔ ∃ ban, get_ban p k = Some ban ∧ is_expired ban now = true) ∧
  (∀ k, get_ban p' k = if bool_decide (k ∈ lifted) then None else get_ban p k) ∧
  (∀ k g, g ∈ get_user_groups p' k ↔
          g ∈ get_user_groups p k ∧ ¬ (k ∈ lifted ∧ g = "banned"%string)).
Proof.
  unfold sweep_expired_bans, mbind, ST_bind, gets, mret, ST_ret.
  set (l := omap (expired_ban now) (kv_iter (bans p))).
  pose proof (unban_loop l p) as [Hb Hg]. unfold mbind, ST_bind in Hb, Hg.
  destruct (for_each l _ p) as [[] p']. exists l. cbn in Hb, Hg.
  split; [|split; [done|split; [|split; [done|]]]].
  - apply (iter_keys_NoDup _ _ arr). intros k v b Hx. cbn in Hx.
    destruct (deserialize v) as [ban|]; [|done]. cbn in Hx.
    destruct (array_of_slice 32 k) as [a|] eqn:Ea; [|done]. cbn in Hx.
    destruct (is_expired ban now); [|done]. injection Hx as <-. by apply array_of_slice_Some in Ea.
  - intros k. apply expired_ban_spec.
  - intros k g. rewrite Hg. case_bool_decide as Hk; [|clear -Hk; intuition].
    unfold without. rewrite elem_of_retain, negb_true_iff, String.eqb_neq.
    clear -Hk. intuition congruence.
Qed.

(** A permission toggle changes exactly the named bits of the named group,
    reports the new value (or that there is no such group), and two toggles on
    disjoint bits land whatever their order. *)
Theorem toggle_group_permission_spec (p : Persistence T) (n : string) :
  (∀ bits enable,
     let '(r, p') := toggle_group_permission n bits enable p in
     let new := (λ g, toggled_permissions (permissions g) bits enable) <$> get_group p n in
     r = Ok new ∧ get_group p' n = mkPersistedGroup <$> new ∧
     (∀ n', n' ≠ n → get_group p' n' = get_group p n')) ∧
  (∀ perms b1 e1 b2 e2, N.land b1 b2 = 0%N →
     toggled_permissions (toggled_permissions perms b1 e1) b2 e2 =
     toggled_permissions (toggled_permissions perms b2 e2) b1 e1).
Proof.
  split.
  - intros bits enable. unfold toggle_group_permission.
    match goal with |- context [kv_update_and_fetch _ ?f] => set (f0 := f) end.
    assert (f0 (pview TGroups p !! as_bytes n) =
            (λ g, encoded (mkPersistedGroup (toggled_permissions (permissions g) bits enable)))
              <$> get_group p n) as Hf.
    { rewrite get_group_view. unfold view_record, f0.
      destruct (pview TGroups p !! as_bytes n) as [v|]; [|done]. cbn.
      destruct (deserialize v); [|done]. cbn. by rewrite serialize_encoded. }
    erewrite try_bind_ok by apply on_update.
    set (p' := (on_tree TGroups (kv_update_and_fetch (as_bytes n) f0) p).2).
    assert (∀ n', get_group p' n' =
      if decide (n' = n) then (λ g, mkPersistedGroup (toggled_permissions (permissions g) bits enable)) <$> get_group p n
      else get_group p n') as Hg.
    { intros n'. unfold p'. rewrite (get_group_view _ n'), on_update_view, decide_True by done. rewrite Hf.
      destruct (get_group p n) as [g|] eqn:Eg; cbn; destruct (decide (n' = n)) as [->|Hne].
      - by rewrite view_record_insert.
      - rewrite view_record_insert_ne; [by rewrite get_group_view|]. intros E. by apply Hne, as_bytes_inj.
      - by rewrite view_record_delete.
      - rewrite view_record_delete_ne; [by rewrite get_group_view|]. intros E. by apply Hne, as_bytes_inj. }
    rewrite Hf. pose proof (Hg n) as Hgn. rewrite decide_True in Hgn by done.
    assert (∀ n', n' ≠ n → get_group p' n' = get_group p n') as Ho by (intros n' Hn'; by rewrite Hg, decide_False).
    clear Hf Hg. destruct (get_group p n) as [g|]; cbn [fmap option_fmap option_map] in *;
      [rewrite deserialize_encoded|]; cbn [mret ST_ret]; done.
  - intros perms b1 e1 b2 e2 Hd. apply N.bits_inj. intros i.
    assert (N.testbit b1 i && N.testbit b2 i = false) as Hi by (by rewrite <- N.land_spec, Hd, N.bits_0).
    unfold toggled_permissions. destruct e1, e2; rewrite ?N.lor_spec, ?N.ldiff_spec, ?N.lor_spec, ?N.ldiff_spec;
      destruct (N.testbit perms i), (N.testbit b1 i), (N.testbit b2 i); done.
Qed.

(** Start-up leaves the groups usable: an empty store gets the default and
    admin groups, a store that has groups keeps them, the admin group never
    keeps the BANNED marker (which would bar every admin at login), and a
    second start changes nothing. *)
Theorem ensure_default_groups_spec (p : Persistence T) :
  let '(r, p') := ensure_default_groups p in
  r = Ok tt ∧
  (pview TGroups p = ∅ →
     get_group p' "default" = Some (mkPersistedGroup Perm.DEFAULT_PERMISSIONS) ∧
     get_group p' "admin" = Some (mkPersistedGroup Perm.ADMIN_PERMISSIONS)) ∧
  (pview TGroups p ≠ ∅ → ∀ n, n ≠ "admin"%string → get_group p' n = get_group p n) ∧
  (∀ g, get_group p' "admin" = Some g → N.testbit (permissions g) 22 = false) ∧
  (pview TGroups p' ≠ ∅ → ensure_default_groups p' = (Ok tt, p')).
Proof.
  unfold ensure_default_groups at 1. unfold mbind at 1, ST_bind at 1, gets at 1.
  rewrite kv_is_empty_ok. change (kv_view (groups p)) with (pview TGroups p).
  set (p1 := if bool_decide (pview TGroups p = ∅)
             then (create_group "admin" Perm.ADMIN_PERMISSIONS
                     (create_group "default" Perm.DEFAULT_PERMISSIONS p).2).2 else p).
  assert ((if bool_decide (pview TGroups p = ∅)
           then try_bind (create_group "default" Perm.DEFAULT_PERMISSIONS)
                  (λ _, create_group "admin" Perm.ADMIN_PERMISSIONS)
           else done_ok) p = (Ok tt, p1)) as H1.
  { unfold p1. case_bool_decide; [|done].
    erewrite try_bind_ok by (rewrite create_group_run; apply on_insert).
    rewrite (surjective_pairing (create_group _ _ _)). f_equal. rewrite create_group_run. apply on_insert. }
  unfold try_bind at 1. rewrite H1. rewrite (surjective_pairing (heal_admin p1)).
  assert ((heal_admin p1).1 = Ok tt) as -> by (by rewrite heal_admin_run).
  set (p' := (heal_admin p1).2).
  assert (∀ n, n ≠ "admin"%string → get_group p' n = get_group p1 n) as Hn.
  { intros n Hne. unfold p'. rewrite heal_admin_run. cbn [snd]. destruct (get_group p1 "admin") as [g|]; [|done].
    destruct (admin_banned g); [|done]. by rewrite create_group_get, decide_False. }
  assert (∀ g, get_group p' "admin" = Some g → admin_banned g = false) as Hadm.
  { intros g. unfold p'. rewrite heal_admin_run. cbn [snd]. destruct (get_group p1 "admin") as [g1|] eqn:E1; [|by rewrite E1].
    destruct (admin_banned g1) eqn:Eb; [|by rewrite E1; intros [= <-]].
    rewrite create_group_get, decide_True by done. intros [= <-].
    unfold admin_banned. rewrite contains_BANNED. unfold Perm.from_bits_truncate, Perm.difference. cbn [permissions].
    rewrite N.land_spec, N.ldiff_spec. by rewrite andb_false_r. }
  split; [done|]. split; [|split; [|split]].
  - intros He. assert (∀ n, get_group p1 n =
      if decide (n = "admin"%string) then Some (mkPersistedGroup Perm.ADMIN_PERMISSIONS)
      else if decide (n = "default"%string) then Some (mkPersistedGroup Perm.DEFAULT_PERMISSIONS)
      else get_group p n) as Hp1.
    { intros n. unfold p1. rewrite bool_decide_true by done. by rewrite !create_group_get. }
    split; [by rewrite Hn, Hp1 by done|]. unfold p'. rewrite heal_admin_run. cbn [snd].
    rewrite Hp1, decide_True by done.
    change (admin_banned _) with false. cbv iota. by rewrite Hp1.
  - intros He n Hne. rewrite Hn by done. unfold p1. by rewrite bool_decide_false.
  - intros g Hg. specialize (Hadm g Hg). unfold admin_banned in Hadm. rewrite contains_BANNED in Hadm.
    unfold Perm.from_bits_truncate in Hadm. rewrite N.land_spec in Hadm.
    change (N.testbit Perm.ALL 22) with true in Hadm. by rewrite andb_true_r in Hadm.
  - intros He. unfold ensure_default_groups, mbind at 1, ST_bind at 1, gets at 1.
    rewrite kv_is_empty_ok. change (kv_view (groups p')) with (pview TGroups p').
    rewrite bool_decide_false by done. erewrite try_bind_ok by done. rewrite heal_admin_run. cbn [done_ok mret ST_ret snd].
    destruct (get_group p' "admin") as [g|]; [|done]. by rewrite Hadm.
Qed.

(** A username is refused exactly to the keys that do not own it: when no
    two registered users share a name (ignoring ASCII case), the check answers
    true iff some other key has registered that name. *)
Theorem is_username_taken_spec (p : Persistence T) (n : string) (pk : Types.PublicKey) :
  (∀ key v, pview TUsers p !! key = Some v → List.length key = 32) →
  (∀ k1 u1 k2 u2, get_registered_user p k1 = Some u1 → get_registered_user p k2 = Some u2 →
     eq_ignore_ascii_case (username u1) n = true → eq_ignore_ascii_case (username u2) n = true → k1 = k2) →
  is_username_taken p n pk = true ↔
  ∃ k u, get_registered_user p k = Some u ∧ eq_ignore_ascii_case (username u) n = true ∧ k ≠ pk.
Proof.
  intros Hlen Huniq. unfold is_username_taken. rewrite (username_taken_in_spec p) by
    first [done|by intros key v; apply elem_of_iter]. split.
  - intros (k & v & u & Hin & Eu & En & Hne). exists k, u. split; [|done].
    apply get_registered_user_raw. exists v. split; [by apply elem_of_iter|done].
  - intros (k & u & (v & Hv & Hu)%get_registered_user_raw & En & Hne).
    exists k, v, u. split; [by apply elem_of_iter|done].
Qed.
End properties.


(** The witnesses run on the in-memory store. *)
Definition key_a : Types.PublicKey := array_of_N 32 1.
Definition key_b : Types.PublicKey := array_of_N 32 2.

(** One member of two groups, one of them until second 100, and one ban. *)
Definition sample_store : Persistence memory :=
  let p := (@register_user _ _ codecs key_a (mkRegisteredUser "alice" None) empty_store).2 in
  let p := (@add_user_to_group_with_expiry _ _ codecs key_a "mods" 100 p).2 in
  let p := (@add_user_to_group _ _ codecs key_a "friends" p).2 in
  let p := (@add_user_to_group _ _ codecs key_b "banned" p).2 in
  let p := (@set_ban _ _ codecs key_b (mkPersistedBan (Some 10%N) 5%N "" "op") p).2 in
  (@create_group _ _ codecs "mods" 6 p).2.

Lemma records_round_trip_witness :
  @get_registered_user _ _ codecs
    (@register_user _ _ codecs key_b (mkRegisteredUser "bob" None) sample_store).2 key_b
  = Some (mkRegisteredUser "bob" None).
Proof.
  exact (proj1 (proj2 (proj1 (@records_round_trip memory _ _ codecs codecs_laws sample_store)
                         key_b (mkRegisteredUser "bob" None) key_b))).
Defined.

Lemma membership_operations_witness :
  (77 < 2 ^ 64)%N ∧
  ∃ r p', @add_user_to_group_with_expiry _ _ codecs key_b "mods" 77 sample_store = (r, p') ∧
  @get_group_expiry _ _ p' key_b "mods" = 77%N.
Proof.
  split; [reflexivity|].
  pose proof (@membership_operations memory _ _ codecs codecs_laws sample_store key_b "mods" 77
                ltac:(reflexivity)) as H.
  destruct (add_user_to_group_with_expiry _ _ _ _) as [r p']. exists r, p'. split; [reflexivity|].
  destruct (remove_user_from_group _ _ _) as [r' p'']. destruct H as (_ & _ & _ & H & _).
  rewrite H. reflexivity.
Defined.

Lemma active_user_groups_spec_witness :
  NoDup (@get_user_groups _ _ codecs sample_store key_a) ∧
  (@active_user_groups _ _ codecs key_a 200 sample_store).1 = ["friends"%string].
Proof.
  assert (NoDup (@get_user_groups _ _ codecs sample_store key_a)) as Hnd
    by (apply (bool_decide_unpack _); vm_compute; exact I).
  split; [exact Hnd|].
  pose proof (@active_user_groups_spec memory _ _ codecs codecs_laws sample_store key_a 200 Hnd) as H.
  destruct (active_user_groups _ _ _) as [a p']. destruct H as [-> _]. vm_compute. reflexivity.
Defined.

Lemma sweep_expired_memberships_spec_witness :
  ∃ removed p', @sweep_expired_memberships _ _ codecs 200 sample_store = (removed, p') ∧
  ((key_a, "mods"%string) ∈ removed ∧ (key_a, "friends"%string) ∉ removed).
Proof.
  pose proof (@sweep_expired_memberships_spec memory _ _ codecs codecs_laws sample_store 200) as H.
  destruct (sweep_expired_memberships _ _) as [r p']. exists r, p'. split; [reflexivity|].
  destruct H as [H _]. split; [apply H; vm_compute; by split|].
  intros [_ Hx]%H. vm_compute in Hx. discriminate Hx.
Defined.

Lemma sweep_expired_bans_spec_witness :
  ∃ n p', @sweep_expired_bans _ _ codecs 15 sample_store = (n, p') ∧
  @get_ban _ _ codecs p' key_b = None.
Proof.
  pose proof (@sweep_expired_bans_spec memory _ _ codecs codecs_laws sample_store 15) as H.
  destruct (sweep_expired_bans _ _) as [n p']. exists n, p'. split; [reflexivity|].
  destruct H as (lifted & _ & _ & H1 & H2 & _). rewrite H2, bool_decide_true; [reflexivity|].
  apply H1. eexists. split; vm_compute; reflexivity.
Defined.

Lemma toggle_group_permission_spec_witness :
  (@toggle_group_permission _ _ codecs "mods" 2 false sample_store).1 = Ok (Some 4%N).
Proof.
  pose proof (proj1 (@toggle_group_permission_spec memory _ _ codecs codecs_laws sample_store "mods")
                2%N false) as H.
  destruct (toggle_group_permission _ _ _ _) as [r p']. destruct H as [-> _]. vm_compute. reflexivity.
Defined.

Lemma ensure_default_groups_spec_witness :
  @get_group _ _ codecs (@ensure_default_groups _ _ codecs empty_store).2 "default"
  = Some (mkPersistedGroup Perm.DEFAULT_PERMISSIONS).
Proof.
  pose proof (@ensure_default_groups_spec memory _ _ codecs codecs_laws empty_store) as H.
  destruct (ensure_default_groups _) as [r p']. destruct H as (_ & H & _). by apply H.
Defined.

Definition alice_store : Persistence memory :=
  (@register_user _ _ codecs key_a (mkRegisteredUser "alice" None) empty_store).2.

Lemma alice_store_users :
  pview TUsers alice_store =
  {[ arr key_a := @encoded _ (countable_codec _) (mkRegisteredUser "alice" None) ]}.
Proof. reflexivity. Qed.

Lemma is_username_taken_spec_witness :
  @is_username_taken _ _ codecs alice_store "ALICE" key_b = true.
Proof.
  assert (∀ key v, pview TUsers alice_store !! key = Some v → key = arr key_a) as Hkey.
  { intros key v H. rewrite alice_store_users in H. by apply lookup_singleton_Some in H as [<- _]. }
  apply (@is_username_taken_spec memory _ _ codecs alice_store "ALICE" key_b).
  - intros key v ->%Hkey. apply length_arr.
  - intros k1 u1 k2 u2 (v1 & H1%Hkey & _)%(@get_registered_user_raw memory _ _ codecs)
      (v2 & H2%Hkey & _)%(@get_registered_user_raw memory _ _ codecs) _ _.
    apply array_eq. congruence.
  - exists key_a, (mkRegisteredUser "alice" None). split; [vm_compute; reflexivity|].
    split; [vm_compute; reflexivity|]. intros E. apply (f_equal arr) in E. vm_compute in E. discriminate E.
Defined.

(** Two keys that registered the same name: the key that is later in key order
    is told the name is taken. *)
Example duplicate_username_locks_out_owner :
  let p := (@register_user _ _ codecs key_b (mkRegisteredUser "alice" None) sample_store).2 in
  @is_username_taken _ _ codecs p "alice" key_b = true.
Proof. vm_compute. reflexivity. Qed.

End Persist.
