(* ===== verification/State.v ===== *)
(** The server's shared state ([crates/server/src/state.rs]).

    [StateData] is the struct behind the [RwLock]; its operations are functions
    on it.  [ServerState] is the struct of maps and counters; a [DashMap] is a
    [gmap], whose iteration order stands for the arbitrary order of the
    original.  An [Arc<ClientHandle>] or [Arc<Identity>] is a location: the
    user id of the connection or member it was made for; what it points to lives
    in the heaps of the [World] (file World.v).  An [Instant] is a number of
    nanoseconds. *)
From Stdlib Require Import NArith ZArith Lia String.
From stdpp Require Import base gmap strings list.
From S2P Require Import Prelude Proto Types.

Module St.

(** ** Voice rate limiting *)

Record VoiceRateLimit := mkVoiceRateLimit { window_start : N; bytes_in_window : N }.

Definition VOICE_RATE_LIMIT_BYTES_PER_SEC : N := 32000.
Definition nanos_per_sec : N := 1000000000.

Definition VoiceRateLimit_new (now : N) : VoiceRateLimit := mkVoiceRateLimit now 0.

(** [now.duration_since(start).as_secs()] saturates at zero. *)
Definition VoiceRateLimit_check (now bytes : N) (rl : VoiceRateLimit) : bool * VoiceRateLimit :=
  if (1 <=? (now - window_start rl) / nanos_per_sec)%N
  then (true, mkVoiceRateLimit now bytes)
  else if (VOICE_RATE_LIMIT_BYTES_PER_SEC <? bytes_in_window rl + bytes)%N
  then (false, rl)
  else (true, mkVoiceRateLimit (window_start rl) (bytes_in_window rl + bytes)).

(** ** Identities, members and connections *)

Record Identity := mkIdentity {
  display_name : string;
  verified_username : option string;
  label : option string;
  id_groups : list string;
}.

Definition Identity_empty : Identity := mkIdentity EmptyString None None [].
Definition Identity_participant (display_name : string) (verified_username label : option string)
    (groups : list string) : Identity :=
  mkIdentity display_name verified_username label groups.

Definition with_display_name (f : string → string) (s : Identity) : Identity :=
  mkIdentity (f (display_name s)) (verified_username s) (label s) (id_groups s).
Definition with_verified_username (f : option string → option string) (s : Identity) : Identity :=
  mkIdentity (display_name s) (f (verified_username s)) (label s) (id_groups s).
Definition with_id_groups (f : list string → list string) (s : Identity) : Identity :=
  mkIdentity (display_name s) (verified_username s) (label s) (f (id_groups s)).

Inductive OwnerId := Plugin (index : N) | Connection (user_id : N).

#[export] Instance OwnerId_eq_dec : EqDecision OwnerId.
Proof. solve_decision. Defined.

(** [Client h]: the location of the [ClientHandle]. *)
Inductive Binding := Client (handle : N) | Owned (owner : OwnerId).

(** [identity] is the location of the shared [Identity]. *)
Record Member := mkMember { m_user_id : N; m_identity : N; binding : Binding }.

Definition member_client (m : Member) : option N :=
  match binding m with Client h => Some h | Owned _ => None end.

(** The connection state of a handle; the [send] stream and [conn] are the
    link of the [World], and the handle's own [user_id] is its location. *)
Record ClientHandle := mkClientHandle {
  h_public_key : option Types.PublicKey;
  authenticated : bool;
  is_controller : bool;
  is_superuser : bool;
  server_muted : bool;
  manually_server_muted : bool;
  torn_down : bool;
  h_identity : N;
}.

Definition ClientHandle_new (public_key : option Types.PublicKey) (authenticated : bool)
    (identity : N) : ClientHandle :=
  mkClientHandle public_key authenticated false false false false false identity.

Definition with_h_public_key (f : option Types.PublicKey → option Types.PublicKey) (s : ClientHandle) : ClientHandle :=
  mkClientHandle (f (h_public_key s)) (authenticated s) (is_controller s) (is_superuser s) (server_muted s) (manually_server_muted s) (torn_down s) (h_identity s).
Definition with_authenticated (f : bool → bool) (s : ClientHandle) : ClientHandle :=
  mkClientHandle (h_public_key s) (f (authenticated s)) (is_controller s) (is_superuser s) (server_muted s) (manually_server_muted s) (torn_down s) (h_identity s).
Definition with_is_controller (f : bool → bool) (s : ClientHandle) : ClientHandle :=
  mkClientHandle (h_public_key s) (authenticated s) (f (is_controller s)) (is_superuser s) (server_muted s) (manually_server_muted s) (torn_down s) (h_identity s).
Definition with_is_superuser (f : bool → bool) (s : ClientHandle) : ClientHandle :=
  mkClientHandle (h_public_key s) (authenticated s) (is_controller s) (f (is_superuser s)) (server_muted s) (manually_server_muted s) (torn_down s) (h_identity s).
Definition with_server_muted (f : bool → bool) (s : ClientHandle) : ClientHandle :=
  mkClientHandle (h_public_key s) (authenticated s) (is_controller s) (is_superuser s) (f (server_muted s)) (manually_server_muted s) (torn_down s) (h_identity s).
Definition with_manually_server_muted (f : bool → bool) (s : ClientHandle) : ClientHandle :=
  mkClientHandle (h_public_key s) (authenticated s) (is_controller s) (is_superuser s) (server_muted s) (f (manually_server_muted s)) (torn_down s) (h_identity s).
Definition with_torn_down (f : bool → bool) (s : ClientHandle) : ClientHandle :=
  mkClientHandle (h_public_key s) (authenticated s) (is_controller s) (is_superuser s) (server_muted s) (manually_server_muted s) (f (torn_down s)) (h_identity s).

(** The compare-and-swap of [begin_teardown]. *)
Definition begin_teardown (h : ClientHandle) : bool * ClientHandle :=
  if torn_down h then (false, h) else (true, with_torn_down (λ _, true) h).

(** ** Rooms, memberships and statuses *)

Record UserStatus := mkUserStatus {
  us_is_muted : bool;
  us_is_deafened : bool;
  us_server_muted : bool;
  us_is_elevated : bool;
}.
Definition default_status : UserStatus := mkUserStatus false false false false.

Record StateData := mkStateData {
  rooms : list Types.Room;
  memberships : list (N * Types.Uuid);
  user_statuses : list (N * UserStatus);
}.
Definition with_rooms (f : list Types.Room → list Types.Room) (s : StateData) : StateData :=
  mkStateData (f (rooms s)) (memberships s) (user_statuses s).
Definition with_memberships (f : list (N * Types.Uuid) → list (N * Types.Uuid)) (s : StateData) : StateData :=
  mkStateData (rooms s) (f (memberships s)) (user_statuses s).
Definition with_user_statuses (f : list (N * UserStatus) → list (N * UserStatus)) (s : StateData) : StateData :=
  mkStateData (rooms s) (memberships s) (f (user_statuses s)).

Definition StateData_new : StateData :=
  mkStateData
    [Types.mkRoom Types.ROOT_ROOM_UUID "Root" Types.ROOT_ROOM_UUID None true [] 0] [] [].

Definition StateData_empty : StateData := mkStateData [] [] [].

Definition set_user_room (user_id : N) (room_uuid : Types.Uuid) : StateData → StateData :=
  with_memberships (λ m, retain (λ e, negb (e.1 =? user_id)%N) m ++ [(user_id, room_uuid)]).

Definition remove_user_membership (user_id : N) (d : StateData) : StateData :=
  with_user_statuses (retain (λ e, negb (e.1 =? user_id)%N))
    (with_memberships (retain (λ e, negb (e.1 =? user_id)%N)) d).

Definition set_user_status (user_id : N) (status : UserStatus) : StateData → StateData :=
  with_user_statuses (λ m, retain (λ e, negb (e.1 =? user_id)%N) m ++ [(user_id, status)]).

Definition get_user_status (d : StateData) (user_id : N) : UserStatus :=
  default default_status (snd <$> List.find (λ e, (e.1 =? user_id)%N) (user_statuses d)).

Definition get_user_room (d : StateData) (user_id : N) : option Types.Uuid :=
  snd <$> List.find (λ e, (e.1 =? user_id)%N) (memberships d).

Definition get_room_members (d : StateData) (room_uuid : Types.Uuid) : list N :=
  fst <$> retain (λ e, bool_decide (e.2 = room_uuid)) (memberships d).

Definition has_room_id (uuid : Types.Uuid) (r : Types.Room) : bool :=
  bool_decide (Types.room_id r = uuid).

Definition new_room (uuid : Types.Uuid) (name : string) (parent : Types.Uuid)
    (description : option string) : Types.Room :=
  Types.mkRoom uuid name parent description true [] 0.

Definition add_room_with_uuid_and_parent_desc (uuid : Types.Uuid) (name : string)
    (parent : Types.Uuid) (description : option string) (d : StateData) : bool * StateData :=
  if existsb (has_room_id uuid) (rooms d) then (false, d)
  else (true, with_rooms (λ rs, rs ++ [new_room uuid name parent description]) d).

Definition add_room_with_uuid_and_parent (uuid : Types.Uuid) (name : string) (parent : Types.Uuid)
    : StateData → bool * StateData :=
  add_room_with_uuid_and_parent_desc uuid name parent None.

Definition add_room_with_uuid (uuid : Types.Uuid) (name : string)
    : StateData → bool * StateData :=
  add_room_with_uuid_and_parent uuid name Types.ROOT_ROOM_UUID.

(** [new_uuid] is the random uuid of this call. *)
Definition create_room_with_parent_desc (new_uuid : Types.Uuid) (name : string)
    (parent : Types.Uuid) (description : option string) : StateData → StateData :=
  with_rooms (λ rs, rs ++ [new_room new_uuid name parent description]).

Definition delete_room (room_uuid : Types.Uuid) (d : StateData) : bool * StateData :=
  if bool_decide (room_uuid = Types.ROOT_ROOM_UUID) then (false, d)
  else
    let before_len := List.length (rooms d) in
    let d := with_rooms (retain (λ r, negb (has_room_id room_uuid r))) d in
    let deleted := Nat.ltb (List.length (rooms d)) before_len in
    (deleted,
     if deleted then
       with_memberships (map (λ e : N * Types.Uuid,
         if bool_decide (e.2 = room_uuid) then (e.1, Types.ROOT_ROOM_UUID) else e)) d
     else d).

(** [for r in rooms.iter_mut() { if r.id == room_uuid { ..; return true } } false]. *)
Definition update_room (room_uuid : Types.Uuid) (f : Types.Room → Types.Room) (d : StateData)
    : bool * StateData :=
  let '(rs, found) := update_first (has_room_id room_uuid) f (rooms d) in
  (found, with_rooms (λ _, rs) d).

Definition rename_room (room_uuid : Types.Uuid) (new_name : string) : StateData → bool * StateData :=
  update_room room_uuid (λ r, Types.mkRoom (Types.room_id r) new_name (Types.room_parent r)
    (Types.room_description r) (Types.room_inherit_acl r) (Types.room_acls r)
    (Types.room_effective_permissions r)).

Definition move_room (room_uuid new_parent_uuid : Types.Uuid) : StateData → bool * StateData :=
  update_room room_uuid (λ r, Types.mkRoom (Types.room_id r) (Types.room_name r) new_parent_uuid
    (Types.room_description r) (Types.room_inherit_acl r) (Types.room_acls r)
    (Types.room_effective_permissions r)).

Definition set_room_acl (room_uuid : Types.Uuid) (inherit_acl : bool)
    (acls : list Types.RoomAclEntry) : StateData → bool * StateData :=
  update_room room_uuid (λ r, Types.mkRoom (Types.room_id r) (Types.room_name r)
    (Types.room_parent r) (Types.room_description r) inherit_acl acls
    (Types.room_effective_permissions r)).

Definition set_room_description (room_uuid : Types.Uuid) (description : string)
    : StateData → bool * StateData :=
  update_room room_uuid (λ r, Types.mkRoom (Types.room_id r) (Types.room_name r)
    (Types.room_parent r) (if str_is_empty description then None else Some description)
    (Types.room_inherit_acl r) (Types.room_acls r) (Types.room_effective_permissions r)).

Definition room_exists (d : StateData) (room_uuid : Types.Uuid) : bool :=
  if bool_decide (room_uuid = Types.ROOT_ROOM_UUID) then true
  else existsb (has_room_id room_uuid) (rooms d).

Definition room_parent_and_children (d : StateData) (room_uuid : Types.Uuid)
    : option (Types.Uuid * list Types.Uuid) :=
  parent ← Types.room_parent <$> List.find (has_room_id room_uuid) (rooms d);
  Some (parent, Types.room_id <$> retain (λ r, bool_decide (Types.room_parent r = room_uuid)) (rooms d)).

(** [map.entry(rid).or_insert_with(Vec::new).push(uid)]. *)
Definition push_at {K} `{Countable K} {A} (k : K) (x : A) (m : gmap K (list A)) : gmap K (list A) :=
  <[k := default [] (m !! k) ++ [x]]> m.

Definition snapshot_room_memberships (d : StateData) : gmap Types.Uuid (list N) :=
  fold_left (λ m e, push_at e.2 e.1 m) (memberships d) ∅.

Definition snapshot_voice_routing (d : StateData) : gmap Types.Uuid (list N) * gset N :=
  (snapshot_room_memberships d,
   list_to_set (fst <$> retain (λ e, us_is_deafened e.2) (user_statuses d))).

(** ** The rest of the shared state *)

Record PendingAuth := mkPendingAuth {
  pa_nonce : array 32;
  pa_user_id : N;
  pa_public_key : Types.PublicKey;
  pa_timestamp : N;
  pa_username : string;
}.

Record SessionEntry := mkSessionEntry {
  user_public_key : Types.PublicKey;
  session_public_key : array 32;
  session_id : array 32;
  issued_ms : Z;
  expires_ms : Z;
  device : option string;
}.

Record VoiceFrame := mkVoiceFrame {
  vf_sender_id : N;
  vf_opus_data : bytes;
  vf_sequence : N;
  vf_timestamp_us : N;
  vf_end_of_stream : bool;
}.

(** The delivery channel of a sink is the list of frames it has accepted, with
    the room left in it ([try_send] drops when it is full). *)
Record AudioSink := mkAudioSink {
  owner_id : N;
  sub_id : N;
  tx : list VoiceFrame;
  tx_capacity : nat;
}.

Definition try_send (frame : VoiceFrame) (s : AudioSink) : AudioSink :=
  if Nat.ltb (List.length (tx s)) (tx_capacity s)
  then mkAudioSink (owner_id s) (sub_id s) (tx s ++ [frame]) (tx_capacity s) else s.

Record ServerState := mkServerState {
  members : gmap N Member;
  state_data : StateData;
  next_user_id : N;
  pending_auth : gmap N PendingAuth;
  sessions : gmap N SessionEntry;
  sessions_by_id : gmap (array 32) N;
  server_cert_der : bytes;
  voice_rate_limits : gmap N VoiceRateLimit;
  welcome_message : option string;
  audio_sinks : gmap Types.Uuid (list AudioSink);
  next_sub_id : N;
  slash_commands : option (list Proto.SlashCommand);
}.
Definition with_members (f : gmap N Member → gmap N Member) (s : ServerState) : ServerState :=
  mkServerState (f (members s)) (state_data s) (next_user_id s) (pending_auth s) (sessions s) (sessions_by_id s) (server_cert_der s) (voice_rate_limits s) (welcome_message s) (audio_sinks s) (next_sub_id s) (slash_commands s).
Definition with_state_data (f : StateData → StateData) (s : ServerState) : ServerState :=
  mkServerState (members s) (f (state_data s)) (next_user_id s) (pending_auth s) (sessions s) (sessions_by_id s) (server_cert_der s) (voice_rate_limits s) (welcome_message s) (audio_sinks s) (next_sub_id s) (slash_commands s).
Definition with_next_user_id (f : N → N) (s : ServerState) : ServerState :=
  mkServerState (members s) (state_data s) (f (next_user_id s)) (pending_auth s) (sessions s) (sessions_by_id s) (server_cert_der s) (voice_rate_limits s) (welcome_message s) (audio_sinks s) (next_sub_id s) (slash_commands s).
Definition with_pending_auth (f : gmap N PendingAuth → gmap N PendingAuth) (s : ServerState) : ServerState :=
  mkServerState (members s) (state_data s) (next_user_id s) (f (pending_auth s)) (sessions s) (sessions_by_id s) (server_cert_der s) (voice_rate_limits s) (welcome_message s) (audio_sinks s) (next_sub_id s) (slash_commands s).
Definition with_sessions (f : gmap N SessionEntry → gmap N SessionEntry) (s : ServerState) : ServerState :=
  mkServerState (members s) (state_data s) (next_user_id s) (pending_auth s) (f (sessions s)) (sessions_by_id s) (server_cert_der s) (voice_rate_limits s) (welcome_message s) (audio_sinks s) (next_sub_id s) (slash_commands s).
Definition with_sessions_by_id (f : gmap (array 32) N → gmap (array 32) N) (s : ServerState) : ServerState :=
  mkServerState (members s) (state_data s) (next_user_id s) (pending_auth s) (sessions s) (f (sessions_by_id s)) (server_cert_der s) (voice_rate_limits s) (welcome_message s) (audio_sinks s) (next_sub_id s) (slash_commands s).
Definition with_server_cert_der (f : bytes → bytes) (s : ServerState) : ServerState :=
  mkServerState (members s) (state_data s) (next_user_id s) (pending_auth s) (sessions s) (sessions_by_id s) (f (server_cert_der s)) (voice_rate_limits s) (welcome_message s) (audio_sinks s) (next_sub_id s) (slash_commands s).
Definition with_voice_rate_limits (f : gmap N VoiceRateLimit → gmap N VoiceRateLimit) (s : ServerState) : ServerState :=
  mkServerState (members s) (state_data s) (next_user_id s) (pending_auth s) (sessions s) (sessions_by_id s) (server_cert_der s) (f (voice_rate_limits s)) (welcome_message s) (audio_sinks s) (next_sub_id s) (slash_commands s).
Definition with_audio_sinks (f : gmap Types.Uuid (list AudioSink) → gmap Types.Uuid (list AudioSink)) (s : ServerState) : ServerState :=
  mkServerState (members s) (state_data s) (next_user_id s) (pending_auth s) (sessions s) (sessions_by_id s) (server_cert_der s) (voice_rate_limits s) (welcome_message s) (f (audio_sinks s)) (next_sub_id s) (slash_commands s).
Definition with_next_sub_id (f : N → N) (s : ServerState) : ServerState :=
  mkServerState (members s) (state_data s) (next_user_id s) (pending_auth s) (sessions s) (sessions_by_id s) (server_cert_der s) (voice_rate_limits s) (welcome_message s) (audio_sinks s) (f (next_sub_id s)) (slash_commands s).
Definition with_slash_commands (f : option (list Proto.SlashCommand) → option (list Proto.SlashCommand)) (s : ServerState) : ServerState :=
  mkServerState (members s) (state_data s) (next_user_id s) (pending_auth s) (sessions s) (sessions_by_id s) (server_cert_der s) (voice_rate_limits s) (welcome_message s) (audio_sinks s) (next_sub_id s) (f (slash_commands s)).

Definition ServerState_with_cert_and_welcome (cert_der : bytes) (welcome : option string) : ServerState :=
  mkServerState ∅ StateData_new 1 ∅ ∅ ∅ cert_der ∅ welcome ∅ 1 None.
Definition ServerState_with_cert (cert_der : bytes) : ServerState :=
  ServerState_with_cert_and_welcome cert_der None.
Definition ServerState_new : ServerState := ServerState_with_cert [].

Definition set_server_cert_der (cert_der : bytes) : ServerState → ServerState :=
  with_server_cert_der (λ _, cert_der).

Definition set_pending_auth (pending : PendingAuth) : ServerState → ServerState :=
  with_pending_auth (<[pa_user_id pending := pending]>).

Definition take_pending_auth (user_id : N) (s : ServerState) : option PendingAuth * ServerState :=
  (pending_auth s !! user_id, with_pending_auth (delete user_id) s).

Definition add_session (user_id : N) (session : SessionEntry) (s : ServerState) : ServerState :=
  with_sessions_by_id (<[session_id session := user_id]>)
    (with_sessions (<[user_id := session]>) s).

Definition remove_session (user_id : N) (s : ServerState) : ServerState :=
  match sessions s !! user_id with
  | Some session =>
      with_sessions_by_id (delete (session_id session)) (with_sessions (delete user_id) s)
  | None => s
  end.

Definition get_user_public_key (s : ServerState) (user_id : N) : option Types.PublicKey :=
  user_public_key <$> sessions s !! user_id.

Definition user_ids_with_key (s : ServerState) (key : Types.PublicKey) : list N :=
  fst <$> retain (λ e : N * SessionEntry, bool_decide (user_public_key e.2 = key))
            (map_to_list (sessions s)).

Definition get_session_by_id (s : ServerState) (sid : array 32) : option (N * SessionEntry) :=
  uid ← sessions_by_id s !! sid;
  session ← sessions s !! uid;
  Some (uid, session).

Definition allocate_user_id (s : ServerState) : N * ServerState :=
  (next_user_id s, with_next_user_id (λ n, wrap_u64 (n + 1)) s).

Definition register_client (handle identity : N) : ServerState → ServerState :=
  with_members (<[handle := mkMember handle identity (Client handle)]>).

(** Also [remove_client_by_handle]: a handle is located at its user id. *)
Definition remove_client (user_id : N) (s : ServerState) : bool * ServerState :=
  (bool_decide (is_Some (members s !! user_id)), with_members (delete user_id) s).

Definition get_client (s : ServerState) (user_id : N) : option N :=
  members s !! user_id ≫= member_client.

Definition get_member (s : ServerState) (user_id : N) : option Member := members s !! user_id.

Definition snapshot_clients (s : ServerState) : list N :=
  omap (λ e : N * Member, member_client e.2) (map_to_list (members s)).

Definition client_count (s : ServerState) : nat := List.length (snapshot_clients s).

Definition register_participant (member : Member) : ServerState → ServerState :=
  with_members (<[m_user_id member := member]>).

Definition owned_by (owner : OwnerId) (m : Member) : bool :=
  match binding m with Owned o => bool_decide (o = owner) | Client _ => false end.

Definition is_participant_of (s : ServerState) (user_id : N) (owner : OwnerId) : bool :=
  match members s !! user_id with Some m => owned_by owner m | None => false end.

Definition members_by_owner (s : ServerState) (owner : OwnerId) : list N :=
  (λ e : N * Member, m_user_id e.2) <$> retain (λ e, owned_by owner e.2) (map_to_list (members s)).

Definition delivery_client (s : ServerState) (user_id : N) : option N :=
  member ← members s !! user_id;
  match binding member with
  | Client h => Some h
  | Owned (Connection c) => get_client s c
  | Owned (Plugin _) => None
  end.

(** [OnceLock]: only the first call has an effect. *)
Definition set_slash_commands (commands : list Proto.SlashCommand) : ServerState → ServerState :=
  with_slash_commands (λ old, match old with Some _ => old | None => Some commands end).

Definition get_slash_commands (s : ServerState) : list Proto.SlashCommand :=
  default [] (slash_commands s).

Definition subscribe_audio (room : Types.Uuid) (owner : N) (capacity : nat) (s : ServerState)
    : N * ServerState :=
  let id := next_sub_id s in
  (id, with_audio_sinks (push_at room (mkAudioSink owner id [] capacity))
         (with_next_sub_id (λ n, wrap_u64 (n + 1)) s)).

Definition unsubscribe_audio (room : Types.Uuid) (id : N) : ServerState → ServerState :=
  with_audio_sinks (λ m,
    match m !! room with
    | Some sinks => <[room := retain (λ k, negb (sub_id k =? id)%N) sinks]> m
    | None => m
    end).

Definition fanout_audio (room : Types.Uuid) (frame : VoiceFrame) : ServerState → ServerState :=
  with_audio_sinks (λ m,
    match m !! room with
    | Some sinks =>
        <[room := (λ k, if (owner_id k =? vf_sender_id frame)%N then k else try_send frame k) <$> sinks]> m
    | None => m
    end).

Definition check_voice_rate (now user_id bytes : N) (s : ServerState) : bool * ServerState :=
  let entry := default (VoiceRateLimit_new now) (voice_rate_limits s !! user_id) in
  let '(allowed, entry) := VoiceRateLimit_check now bytes entry in
  (allowed, with_voice_rate_limits (<[user_id := entry]>) s).

Definition remove_voice_rate (user_id : N) : ServerState → ServerState :=
  with_voice_rate_limits (delete user_id).

(** ** Lemmas *)

(** Association lists keyed by user id. *)
Section assoc.
Context {A : Type}.
Implicit Types (l : list (N * A)) (u : N).

Definition assoc u l : option A := snd <$> List.find (λ e, (e.1 =? u)%N) l.

Lemma assoc_cons u e l : assoc u (e :: l) = if (e.1 =? u)%N then Some e.2 else assoc u l.
Proof. unfold assoc. simpl. by destruct (e.1 =? u)%N. Qed.

Lemma assoc_app u l k : assoc u (l ++ k) = match assoc u l with Some a => Some a | None => assoc u k end.
Proof. induction l as [|e l IH]; [done|]. rewrite <- app_comm_cons, !assoc_cons. by destruct (e.1 =? u)%N. Qed.

Lemma assoc_retain_ne u v l :
  assoc u (retain (λ e, negb (e.1 =? v)%N) l) = if (u =? v)%N then None else assoc u l.
Proof.
  unfold retain. induction l as [|e l IH]; simpl; [by destruct (u =? v)%N|].
  destruct (N.eqb_spec e.1 v) as [E|E]; simpl.
  - rewrite IH, assoc_cons. destruct (N.eqb_spec u v) as [->|Hne]; [done|].
    by rewrite (proj2 (N.eqb_neq e.1 u)) by congruence.
  - rewrite !assoc_cons, IH. destruct (N.eqb_spec u v) as [->|Hne]; [|done].
    by rewrite (proj2 (N.eqb_neq e.1 v)).
Qed.

Lemma assoc_Some u a l : NoDup (fst <$> l) → assoc u l = Some a ↔ (u, a) ∈ l.
Proof.
  induction l as [|[v b] l IH]; intros Hnd.
  - split; [done|]. intros H. by apply elem_of_nil in H.
  - rewrite fmap_cons in Hnd. apply NoDup_cons in Hnd as [Hv Hnd]. rewrite assoc_cons, elem_of_cons. simpl.
    destruct (N.eqb_spec v u) as [->|Hne].
    + split; [intros [= ->]; by left|]. intros [[= ->]|H]; [done|].
      exfalso. apply Hv. apply list_elem_of_fmap. by exists (u, a).
    + rewrite IH by done. split; [by right|]. intros [[= -> ->]|H]; done.
Qed.

Lemma NoDup_assoc_set u a l :
  NoDup (fst <$> l) → NoDup (fst <$> (retain (λ e, negb (e.1 =? u)%N) l ++ [(u, a)])).
Proof.
  intros H. rewrite fmap_app. apply NoDup_app. split; [by apply NoDup_fmap_retain|].
  split; [|apply NoDup_singleton]. intros v Hv Hu. apply list_elem_of_singleton in Hu as ->.
  apply list_elem_of_fmap in Hv as ([w b] & Hw & Hin). apply elem_of_retain in Hin as [_ Hp].
  simpl in *. subst w. by rewrite N.eqb_refl in Hp.
Qed.
End assoc.

Definition room_ids (d : StateData) : list Types.Uuid := Types.room_id <$> rooms d.

(** What the operations on [StateData] maintain. *)
Record wf_state (d : StateData) : Prop := {
  wf_ids : NoDup (room_ids d);
  wf_root : Types.ROOT_ROOM_UUID ∈ room_ids d;
  wf_memberships : NoDup (fst <$> memberships d);
  wf_statuses : NoDup (fst <$> user_statuses d);
  wf_located : ∀ u r, (u, r) ∈ memberships d → r ∈ room_ids d;
}.

Lemma wf_StateData_new : wf_state StateData_new.
Proof.
  split; try apply NoDup_singleton; try apply NoDup_nil_2; [by left|].
  intros u r H. by apply elem_of_nil in H.
Qed.

Lemma existsb_has_room_id d uuid : existsb (has_room_id uuid) (rooms d) = true ↔ uuid ∈ room_ids d.
Proof.
  unfold room_ids. rewrite existsb_elem_of, list_elem_of_fmap. unfold has_room_id.
  setoid_rewrite bool_decide_eq_true. split; intros (x & H1 & H2); exists x; by subst.
Qed.

Lemma room_exists_spec d uuid : wf_state d → room_exists d uuid = true ↔ uuid ∈ room_ids d.
Proof.
  intros Hwf. unfold room_exists. case_bool_decide as E.
  - subst. split; [|done]. intros _. apply wf_root, Hwf.
  - apply existsb_has_room_id.
Qed.

Lemma update_room_keeps uuid f d :
  (∀ r, Types.room_id (f r) = Types.room_id r) →
  room_ids (update_room uuid f d).2 = room_ids d ∧
  memberships (update_room uuid f d).2 = memberships d ∧
  user_statuses (update_room uuid f d).2 = user_statuses d ∧
  (update_room uuid f d).1 = bool_decide (uuid ∈ room_ids d).
Proof.
  intros Hf. unfold update_room.
  pose proof (update_first_fmap Types.room_id (has_room_id uuid) f (rooms d) (λ x _, Hf x)) as Hm.
  pose proof (update_first_snd (has_room_id uuid) f (rooms d)) as Hs.
  destruct (update_first _ f (rooms d)) as [rs b]. simpl in *. repeat split; [done|].
  subst b. apply eq_bool_prop_intro. rewrite Is_true_true, existsb_has_room_id.
  split; [intros H; by apply bool_decide_pack|apply bool_decide_unpack].
Qed.

Lemma update_room_rooms uuid f d :
  NoDup (room_ids d) →
  rooms (update_room uuid f d).2 = (λ r, if bool_decide (Types.room_id r = uuid) then f r else r) <$> rooms d.
Proof.
  intros Hnd. unfold update_room.
  pose proof (update_first_map Types.room_id uuid f (rooms d) Hnd) as Hm.
  unfold has_room_id. by destruct (update_first _ f (rooms d)) as [rs b].
Qed.

Lemma update_room_missing uuid f d : uuid ∉ room_ids d → update_room uuid f d = (false, d).
Proof.
  intros Hn. unfold update_room.
  assert (existsb (has_room_id uuid) (rooms d) = false) as Hex.
  { destruct (existsb _ _) eqn:E; [|done]. by apply existsb_has_room_id in E. }
  pose proof (update_first_none _ f _ Hex) as H1. pose proof (update_first_snd (has_room_id uuid) f (rooms d)) as H2.
  destruct (update_first _ f (rooms d)) as [rs b]. simpl in *. subst. rewrite Hex. by destruct d.
Qed.

Lemma find_map_rooms r uuid f l :
  (∀ x, Types.room_id (f x) = Types.room_id x) →
  List.find (has_room_id r) ((λ x, if bool_decide (Types.room_id x = uuid) then f x else x) <$> l) =
  (λ x, if bool_decide (Types.room_id x = uuid) then f x else x) <$> List.find (has_room_id r) l.
Proof.
  intros Hf. induction l as [|x l IH]; [done|]. csimpl.
  assert (has_room_id r (if bool_decide (Types.room_id x = uuid) then f x else x) = has_room_id r x) as ->.
  { unfold has_room_id. destruct (bool_decide (Types.room_id x = uuid)); [by rewrite Hf|done]. }
  by destruct (has_room_id r x).
Qed.

(** A room's update, read back. *)
Lemma update_room_find uuid f d r :
  NoDup (room_ids d) → (∀ x, Types.room_id (f x) = Types.room_id x) →
  List.find (has_room_id r) (rooms (update_room uuid f d).2) =
  (if bool_decide (r = uuid) then f <$> List.find (has_room_id r) (rooms d)
   else List.find (has_room_id r) (rooms d)).
Proof.
  intros Hnd Hf. rewrite update_room_rooms, find_map_rooms by done.
  destruct (List.find (has_room_id r) (rooms d)) as [x|] eqn:E; [|by case_bool_decide]. simpl.
  apply find_Some_iff in E as [_ E]. unfold has_room_id in E. apply bool_decide_eq_true in E as ->.
  by case_bool_decide.
Qed.

Lemma find_room_ids d uuid : uuid ∈ room_ids d ↔ is_Some (List.find (has_room_id uuid) (rooms d)).
Proof.
  rewrite <- existsb_has_room_id, existsb_elem_of. split.
  - intros (x & Hx & Hp). destruct (List.find _ _) eqn:E; [by eexists|].
    rewrite find_None_iff in E. by rewrite E in Hp.
  - intros [x Hx]. apply find_Some_iff in Hx. by exists x.
Qed.

Lemma wf_same_ids d d' :
  room_ids d' = room_ids d → memberships d' = memberships d → user_statuses d' = user_statuses d →
  wf_state d → wf_state d'.
Proof. intros E1 E2 E3 [? ? ? ? ?]. by split; rewrite ?E1, ?E2, ?E3. Qed.

Lemma update_room_wf uuid f d :
  (∀ r, Types.room_id (f r) = Types.room_id r) → wf_state d → wf_state (update_room uuid f d).2.
Proof. intros Hf. destruct (update_room_keeps uuid f d Hf) as (? & ? & ? & _). by apply wf_same_ids. Qed.

Lemma add_room_wf uuid name parent desc d :
  uuid ∉ room_ids d → wf_state d → wf_state (with_rooms (λ rs, rs ++ [new_room uuid name parent desc]) d).
Proof.
  intros Hfresh [H1 H2 H3 H4 H5]. unfold room_ids in *.
  split; unfold room_ids; cbn [rooms memberships user_statuses with_rooms]; try done; try rewrite fmap_app.
  - apply NoDup_app. split; [done|]. split; [|apply NoDup_singleton].
    intros x Hx ->%list_elem_of_singleton. done.
  - apply elem_of_app. by left.
  - intros u r H. apply elem_of_app. left. by eapply H5.
Qed.

Lemma set_user_room_wf u r d : r ∈ room_ids d → wf_state d → wf_state (set_user_room u r d).
Proof.
  intros Hr [H1 H2 H3 H4 H5]. split; simpl; try done.
  - by apply NoDup_assoc_set.
  - intros u' r' [H|H]%elem_of_app.
    + apply elem_of_retain in H as [H _]. by eapply H5.
    + apply list_elem_of_singleton in H as [= -> ->]. done.
Qed.

Lemma remove_user_membership_wf u d : wf_state d → wf_state (remove_user_membership u d).
Proof.
  intros [H1 H2 H3 H4 H5]. split; simpl; try done; [by apply NoDup_fmap_retain..|].
  intros u' r' [H _]%elem_of_retain. by eapply H5.
Qed.

Lemma set_user_status_wf u st d : wf_state d → wf_state (set_user_status u st d).
Proof. intros [H1 H2 H3 H4 H5]. split; simpl; try done. by apply NoDup_assoc_set. Qed.

Lemma delete_room_true uuid d :
  (delete_room uuid d).1 = true ↔ uuid ≠ Types.ROOT_ROOM_UUID ∧ uuid ∈ room_ids d.
Proof.
  unfold delete_room. case_bool_decide as E; [by split; [|intros [? _]]|]. simpl.
  rewrite Nat.ltb_lt, length_retain_lt. unfold room_ids. rewrite list_elem_of_fmap.
  split.
  - intros (r & Hr & Hp). split; [done|]. exists r. split; [|done].
    apply negb_false_iff in Hp. unfold has_room_id in Hp. by apply bool_decide_eq_true in Hp.
  - intros (_ & r & -> & Hr). exists r. split; [done|]. unfold has_room_id. by rewrite bool_decide_true.
Qed.

Lemma delete_room_run uuid d :
  (delete_room uuid d).1 = true →
  (delete_room uuid d).2 =
    mkStateData (retain (λ r, negb (has_room_id uuid r)) (rooms d))
      (map (λ e : N * Types.Uuid, if bool_decide (e.2 = uuid) then (e.1, Types.ROOT_ROOM_UUID) else e)
           (memberships d))
      (user_statuses d).
Proof. unfold delete_room. case_bool_decide; [done|]. simpl. by intros ->. Qed.

Lemma delete_room_false uuid d :
  (delete_room uuid d).1 = false → wf_state d → (delete_room uuid d).2 = d.
Proof.
  unfold delete_room. case_bool_decide as E; [done|]. simpl. intros Hl _. rewrite Hl.
  destruct d as [rs ms us]. unfold with_rooms. simpl in *. f_equal. apply retain_all.
  intros x Hx. destruct (negb _) eqn:Ex; [done|]. apply Nat.ltb_nlt in Hl. exfalso. apply Hl.
  apply length_retain_lt. by exists x.
Qed.

Lemma map_fst_rehome (f : N * Types.Uuid → bool) l :
  fst <$> map (λ e : N * Types.Uuid, if f e then (e.1, Types.ROOT_ROOM_UUID) else e) l = fst <$> l.
Proof. induction l as [|e l IH]; [done|]. csimpl. rewrite <- IH. by destruct (f e). Qed.

Lemma delete_room_wf uuid d : wf_state d → wf_state (delete_room uuid d).2.
Proof.
  intros Hwf. destruct (delete_room uuid d).1 eqn:E; [|by rewrite delete_room_false].
  rewrite delete_room_run by done. apply delete_room_true in E as [Hne _].
  destruct Hwf as [H1 H2 H3 H4 H5]. unfold room_ids in *.
  assert (∀ r, r ∈ Types.room_id <$> rooms d → r ≠ uuid →
               r ∈ Types.room_id <$> retain (λ r, negb (has_room_id uuid r)) (rooms d)) as Hkeep.
  { intros r (x & -> & Hx)%list_elem_of_fmap Hr. apply list_elem_of_fmap. exists x. split; [done|].
    apply elem_of_retain. split; [done|]. unfold has_room_id. by rewrite bool_decide_false. }
  split; unfold room_ids; cbn [rooms memberships user_statuses].
  - by apply NoDup_fmap_retain.
  - by apply Hkeep.
  - by rewrite (map_fst_rehome (λ e, bool_decide (e.2 = uuid))).
  - done.
  - intros u r Hin. apply list_elem_of_In, in_map_iff in Hin as ([v q] & Heq & Hin%list_elem_of_In). simpl in Heq.
    case_bool_decide as Eq; injection Heq as -> <-; [by apply Hkeep|]. apply Hkeep; [by eapply H5|done].
Qed.

Lemma assoc_map_rehome u uuid (l : list (N * Types.Uuid)) :
  assoc u (map (λ e : N * Types.Uuid, if bool_decide (e.2 = uuid) then (e.1, Types.ROOT_ROOM_UUID) else e) l)
  = (λ r, if bool_decide (r = uuid) then Types.ROOT_ROOM_UUID else r) <$> assoc u l.
Proof.
  induction l as [|[v q] l IH]; [done|]. cbn [map]. rewrite !assoc_cons. simpl.
  destruct (bool_decide (q = uuid)) eqn:E; simpl; destruct (v =? u)%N; simpl; rewrite ?E; done.
Qed.

(** Rooms found by id. *)
Definition find_room (d : StateData) (uuid : Types.Uuid) : option Types.Room :=
  List.find (has_room_id uuid) (rooms d).

Lemma find_retain_other (uuid r : Types.Uuid) l :
  r ≠ uuid →
  List.find (has_room_id r) (retain (λ x, negb (has_room_id uuid x)) l) = List.find (has_room_id r) l.
Proof.
  intros Hne. unfold retain. induction l as [|x l IH]; [done|]. cbn [List.filter List.find].
  destruct (has_room_id uuid x) eqn:E; cbn [negb List.find]; rewrite IH; [|done].
  assert (has_room_id r x = false) as ->; [|done].
  unfold has_room_id in *. apply bool_decide_eq_true in E. apply bool_decide_false. congruence.
Qed.

Lemma find_retain_same (uuid : Types.Uuid) l :
  List.find (has_room_id uuid) (retain (λ x, negb (has_room_id uuid x)) l) = None.
Proof.
  apply find_None_iff. intros x [_ Hx]%elem_of_retain. by apply negb_true_iff in Hx.
Qed.

(** ** Rate limiting over time *)

(** The checks of one user's datagrams, at times [t] with sizes [b]. *)
Fixpoint check_all (events : list (N * N)) (rl : VoiceRateLimit) : list bool :=
  match events with
  | [] => []
  | (t, b) :: r => let '(ok, rl') := VoiceRateLimit_check t b rl in ok :: check_all r rl'
  end.

(** The bytes accepted within the second that starts at [t0]. *)
Fixpoint accepted_in (t0 : N) (events : list (N * N)) (oks : list bool) : N :=
  match events, oks with
  | (t, b) :: r, ok :: oks =>
      (if ok && (t0 <=? t) && (t <? t0 + nanos_per_sec) then b else 0) + accepted_in t0 r oks
  | _, _ => 0
  end%N.

(** Times do not go back. *)
Fixpoint monotone_from (now : N) (events : list (N * N)) : Prop :=
  match events with [] => True | (t, _) :: r => (now <= t)%N ∧ monotone_from t r end.

Lemma second_elapsed t w : (1 <=? (t - w) / nanos_per_sec)%N = (w + nanos_per_sec <=? t)%N.
Proof.
  apply eq_bool_prop_intro. rewrite !Is_true_true, !N.leb_le. unfold nanos_per_sec. split; intros H.
  - pose proof (N.Div0.mul_div_le (t - w) 1000000000). nia.
  - apply N.div_le_lower_bound; lia.
Qed.

Lemma accepted_late t0 events oks now :
  (t0 + nanos_per_sec <= now)%N → monotone_from now events → accepted_in t0 events oks = 0%N.
Proof.
  revert now oks. induction events as [|[t b] r IH]; intros now oks Hn; [done|].
  intros [Ht Hm]. destruct oks as [|ok oks]; [done|]. cbn [accepted_in].
  rewrite (IH t) by (done || lia). replace (t <? t0 + nanos_per_sec)%N with false
    by (symmetry; apply N.ltb_ge; lia). by rewrite andb_false_r.
Qed.

Section rate.
Context (B t0 : N).
Hypothesis HB : (VOICE_RATE_LIMIT_BYTES_PER_SEC <= B)%N.

(** A window that opened inside the second closes after it. *)
Lemma accepted_inside events now rl :
  monotone_from now events → Forall (λ e, (e.2 <= B)%N) events →
  (t0 <= window_start rl)%N → (bytes_in_window rl <= B)%N →
  (bytes_in_window rl + accepted_in t0 events (check_all events rl) <= B)%N.
Proof.
  revert now rl. induction events as [|[t b] r IH]; intros now rl Hm Hb Hw Hc; [simpl; lia|].
  destruct Hm as [Ht Hm]. apply Forall_cons in Hb as [Hb0 Hb]. cbn [check_all].
  unfold VoiceRateLimit_check. rewrite second_elapsed.
  destruct (N.leb_spec (window_start rl + nanos_per_sec) t) as [Hel|Hel].
  - cbn [accepted_in]. replace (t <? t0 + nanos_per_sec)%N with false by (symmetry; apply N.ltb_ge; lia).
    rewrite andb_false_r, (accepted_late t0 r _ t) by (done || lia). lia.
  - destruct (N.ltb_spec VOICE_RATE_LIMIT_BYTES_PER_SEC (bytes_in_window rl + b)) as [Hl|Hl].
    + cbn [accepted_in andb]. by apply (IH t).
    + cbn [accepted_in]. specialize (IH t (mkVoiceRateLimit (window_start rl) (bytes_in_window rl + b)) Hm Hb).
      cbn [window_start bytes_in_window] in IH. specialize (IH Hw ltac:(lia)).
      destruct (_ && _ && _); lia.
Qed.

(** From an older window, [g] bytes of which lie inside the second. *)
Lemma accepted_any events now rl g :
  monotone_from now events → Forall (λ e, (e.2 <= B)%N) events →
  (bytes_in_window rl <= B)%N → (g <= bytes_in_window rl)%N → (g = 0 ∨ t0 <= now)%N →
  (g + accepted_in t0 events (check_all events rl) <= 2 * B)%N.
Proof.
  revert now rl g. induction events as [|[t b] r IH]; intros now rl g Hm Hb Hc Hg Hn; [simpl; lia|].
  destruct Hm as [Ht Hm]. apply Forall_cons in Hb as [Hb0 Hb]. cbn [snd] in Hb0. cbn [check_all].
  unfold VoiceRateLimit_check. rewrite second_elapsed.
  destruct (N.leb_spec (window_start rl + nanos_per_sec) t) as [Hel|Hel].
  - cbn [accepted_in andb]. destruct (N.leb_spec t0 t) as [Hin|Hout]; cbn [andb].
    + pose proof (accepted_inside r t (mkVoiceRateLimit t b) Hm Hb Hin Hb0) as H.
      cbn [bytes_in_window] in H. destruct (_ <? _)%N; lia.
    + assert (g = 0)%N as -> by lia.
      specialize (IH t (mkVoiceRateLimit t b) 0%N Hm Hb Hb0 ltac:(cbn; lia) ltac:(lia)). lia.
  - destruct (N.ltb_spec VOICE_RATE_LIMIT_BYTES_PER_SEC (bytes_in_window rl + b)) as [Hl|Hl].
    + cbn [accepted_in andb]. apply (IH t rl g); try done. lia.
    + cbn [accepted_in andb]. set (rl' := mkVoiceRateLimit (window_start rl) (bytes_in_window rl + b)).
      destruct (N.leb_spec t0 t) as [Hin|Hout]; cbn [andb].
      * specialize (IH t rl' (g + b)%N Hm Hb). cbn [rl' bytes_in_window] in IH.
        specialize (IH ltac:(lia) ltac:(lia) ltac:(lia)). fold rl' in IH. destruct (_ <? _)%N; lia.
      * assert (g = 0)%N as -> by lia.
        specialize (IH t rl' 0%N Hm Hb). cbn [rl' bytes_in_window] in IH.
        specialize (IH ltac:(lia) ltac:(lia) ltac:(lia)). fold rl' in IH. lia.
Qed.
End rate.

(** ** Sessions *)

(** The reverse index points at sessions that carry the id, and every session
    is in it. *)
Definition sessions_coherent (s : ServerState) : Prop :=
  (∀ sid u, sessions_by_id s !! sid = Some u → ∃ e, sessions s !! u = Some e ∧ session_id e = sid) ∧
  (∀ u e, sessions s !! u = Some e → sessions_by_id s !! session_id e = Some u).

(** ** Properties *)

(** C40: Every operation on the shared rooms and memberships keeps them
    well-formed: room ids stay distinct and keep Root, no user has two
    memberships or statuses, and every membership points at a room that exists. *)
Theorem state_operations_preserve_wf (d : StateData) :
  wf_state d →
  (∀ u r, room_exists d r = true → wf_state (set_user_room u r d)) ∧
  (∀ u, wf_state (remove_user_membership u d)) ∧
  (∀ u st, wf_state (set_user_status u st d)) ∧
  (∀ uuid n p desc, wf_state (add_room_with_uuid_and_parent_desc uuid n p desc d).2) ∧
  (∀ uuid n p desc, room_exists d uuid = false → wf_state (create_room_with_parent_desc uuid n p desc d)) ∧
  (∀ uuid, wf_state (delete_room uuid d).2) ∧
  (∀ uuid n, wf_state (rename_room uuid n d).2) ∧
  (∀ uuid p, wf_state (move_room uuid p d).2) ∧
  (∀ uuid i es, wf_state (set_room_acl uuid i es d).2) ∧
  (∀ uuid desc, wf_state (set_room_description uuid desc d).2).
Proof.
  intros Hwf.
  split. { intros u r Hr. apply set_user_room_wf; [by apply room_exists_spec|done]. }
  split. { intros u. by apply remove_user_membership_wf. }
  split. { intros u st. by apply set_user_status_wf. }
  split.
  { intros uuid n p desc. unfold add_room_with_uuid_and_parent_desc.
    destruct (existsb _ _) eqn:E; [done|]. apply add_room_wf; [|done].
    intros Hin. apply existsb_has_room_id in Hin. congruence. }
  split.
  { intros uuid n p desc Hn. apply add_room_wf; [|done].
    intros Hin. apply room_exists_spec in Hin; [congruence|done]. }
  split. { intros uuid. by apply delete_room_wf. }
  split; [|split; [|split]]; intros; by apply update_room_wf.
Qed.

Definition lobby : Types.Uuid := array_of_N 16 7.
Definition sample_data : StateData :=
  set_user_room 2 lobby (set_user_room 1 Types.ROOT_ROOM_UUID
    (create_room_with_parent_desc lobby "Lobby" Types.ROOT_ROOM_UUID None StateData_new)).

Lemma sample_data_wf : wf_state sample_data.
Proof.
  apply set_user_room_wf; [by right; left|]. apply set_user_room_wf; [by left|].
  apply add_room_wf; [|apply wf_StateData_new].
  apply (bool_decide_unpack _). vm_compute. exact I.
Qed.

Lemma state_operations_preserve_wf_witness :
  wf_state sample_data ∧ wf_state (delete_room lobby sample_data).2.
Proof. split; [exact sample_data_wf|]. apply (state_operations_preserve_wf sample_data sample_data_wf). Defined.

(** Deleting a room succeeds exactly for an existing room other than Root;
    it then removes that room only, moves its occupants to Root and nobody else,
    and when it fails nothing changes. *)
Theorem delete_room_spec (d : StateData) (uuid : Types.Uuid) :
  wf_state d →
  let '(deleted, d') := delete_room uuid d in
  (deleted = true ↔ uuid ≠ Types.ROOT_ROOM_UUID ∧ uuid ∈ room_ids d) ∧
  (deleted = false → d' = d) ∧
  (deleted = true →
     ¬ (uuid ∈ room_ids d') ∧
     (∀ r, r ≠ uuid → find_room d' r = find_room d r) ∧
     (∀ u, get_user_room d' u =
           (λ r, if bool_decide (r = uuid) then Types.ROOT_ROOM_UUID else r) <$> get_user_room d u) ∧
     user_statuses d' = user_statuses d).
Proof.
  intros Hwf. pose proof (delete_room_true uuid d) as H1.
  pose proof (delete_room_run uuid d) as H2. pose proof (delete_room_false uuid d) as H3.
  destruct (delete_room uuid d) as [deleted d']. cbn [fst snd] in *. split; [done|]. split; [by intros E; apply H3|].
  intros E. rewrite H2 by done. cbn [rooms memberships user_statuses find_room]. split; [|split; [|split; [|done]]].
  - unfold room_ids. cbn [rooms]. rewrite list_elem_of_fmap. intros (x & Hx & [_ Hp]%elem_of_retain).
    unfold has_room_id in Hp. by rewrite bool_decide_true in Hp.
  - intros r Hr. by apply find_retain_other.
  - intros u. apply assoc_map_rehome.
Qed.

Lemma delete_room_spec_witness :
  wf_state sample_data ∧ get_user_room (delete_room lobby sample_data).2 2 = Some Types.ROOT_ROOM_UUID.
Proof.
  split; [exact sample_data_wf|].
  pose proof (delete_room_spec sample_data lobby sample_data_wf) as H.
  destruct (delete_room lobby sample_data) as [b d'] eqn:E.
  assert (b = true) as -> by (vm_compute in E; by injection E as <- _).
  destruct H as (_ & _ & H). destruct (H eq_refl) as (_ & _ & H' & _). cbn [snd]. rewrite H'. reflexivity.
Defined.

(** The readers, as maps. *)
Lemma get_room_members_elem d u r :
  wf_state d → u ∈ get_room_members d r ↔ get_user_room d u = Some r.
Proof.
  intros [H1 H2 H3 H4 H5]. unfold get_user_room. fold (assoc u (memberships d)). rewrite assoc_Some by done.
  unfold get_room_members. rewrite list_elem_of_fmap. split.
  - intros ([v q] & -> & [Hin E]%elem_of_retain). simpl in *. apply bool_decide_eq_true in E. by subst.
  - intros Hin. exists (u, r). split; [done|]. apply elem_of_retain. split; [done|]. by apply bool_decide_true.
Qed.

Lemma get_room_members_NoDup d r : wf_state d → NoDup (get_room_members d r).
Proof. intros [H1 H2 H3 H4 H5]. unfold get_room_members. by apply NoDup_fmap_retain. Qed.

Lemma snapshot_lookup d r : default [] (snapshot_room_memberships d !! r) = get_room_members d r.
Proof.
  unfold snapshot_room_memberships, get_room_members.
  assert (∀ l m, default [] (fold_left (λ m e, push_at e.2 e.1 m) l m !! r) =
            default [] (m !! r) ++ (fst <$> retain (λ e : N * Types.Uuid, bool_decide (e.2 = r)) l)) as Hf.
  { unfold retain. induction l as [|[v q] l IH]; intros m; cbn [fold_left List.filter]; [by rewrite app_nil_r|].
    rewrite IH. unfold push_at. simpl. case_bool_decide as E.
    - subst. rewrite lookup_insert_eq. csimpl. by rewrite <- app_assoc.
    - by rewrite lookup_insert_ne. }
  by rewrite Hf, lookup_empty.
Qed.

Lemma deafened_elem d u :
  wf_state d → u ∈ (snapshot_voice_routing d).2 ↔ us_is_deafened (get_user_status d u) = true.
Proof.
  intros [H1 H2 H3 H4 H5]. simpl. rewrite elem_of_list_to_set, list_elem_of_fmap.
  unfold get_user_status. fold (assoc u (user_statuses d)). split.
  - intros ([v st] & -> & [Hin E]%elem_of_retain). simpl in *.
    apply (assoc_Some v st) in Hin; [|done]. by rewrite Hin.
  - destruct (assoc u (user_statuses d)) as [st|] eqn:E; [|done]. simpl. intros Hd.
    apply assoc_Some in E; [|done]. exists (u, st). split; [done|]. by apply elem_of_retain.
Qed.

Lemma assoc_set {A} u v (a : A) l :
  assoc v (retain (λ e, negb (e.1 =? u)%N) l ++ [(u, a)]) = if (v =? u)%N then Some a else assoc v l.
Proof.
  rewrite assoc_app, assoc_retain_ne, assoc_cons. simpl. rewrite (N.eqb_sym u v).
  destruct (v =? u)%N; [done|]. by destruct (assoc v l).
Qed.

Lemma get_user_room_set u r d v :
  get_user_room (set_user_room u r d) v = if (v =? u)%N then Some r else get_user_room d v.
Proof. apply assoc_set. Qed.

Lemma get_user_status_assoc d u : get_user_status d u = default default_status (assoc u (user_statuses d)).
Proof. done. Qed.

Lemma get_user_status_set u st d v :
  get_user_status (set_user_status u st d) v = if (v =? u)%N then st else get_user_status d v.
Proof.
  rewrite !get_user_status_assoc. unfold set_user_status. cbn [with_user_statuses user_statuses].
  rewrite (assoc_set u v st). by destruct (v =? u)%N.
Qed.

Lemma get_user_room_remove u d v :
  get_user_room (remove_user_membership u d) v = if (v =? u)%N then None else get_user_room d v.
Proof. apply assoc_retain_ne. Qed.

Lemma get_user_status_remove u d v :
  get_user_status (remove_user_membership u d) v = if (v =? u)%N then default_status else get_user_status d v.
Proof.
  rewrite !get_user_status_assoc. cbn [remove_user_membership with_memberships with_user_statuses user_statuses].
  rewrite assoc_retain_ne. by destruct (v =? u)%N.
Qed.

(** Memberships and statuses are maps: setting one user's room or status is
    read back and leaves the others alone, removal clears both, and the voice
    routing snapshot lists for every room exactly its current members and, as
    deafened, exactly the users whose status says so. *)
Theorem membership_lookups (d : StateData) :
  wf_state d →
  (∀ u r v, get_user_room (set_user_room u r d) v = if (v =? u)%N then Some r else get_user_room d v) ∧
  (∀ u st v, get_user_status (set_user_status u st d) v = if (v =? u)%N then st else get_user_status d v) ∧
  (∀ u v, get_user_room (remove_user_membership u d) v = (if (v =? u)%N then None else get_user_room d v) ∧
          get_user_status (remove_user_membership u d) v =
            (if (v =? u)%N then default_status else get_user_status d v)) ∧
  (∀ r u, u ∈ get_room_members d r ↔ get_user_room d u = Some r) ∧
  (∀ r u, u ∈ default [] ((snapshot_voice_routing d).1 !! r) ↔ get_user_room d u = Some r) ∧
  (∀ u, u ∈ (snapshot_voice_routing d).2 ↔ us_is_deafened (get_user_status d u) = true).
Proof.
  intros Hwf. pose proof (λ u r, get_room_members_elem d u r Hwf) as Hmem.
  split; [|split; [|split; [|split; [done|split]]]].
  - intros u r v. apply get_user_room_set.
  - intros u st v. apply get_user_status_set.
  - intros u v. split; [apply get_user_room_remove|apply get_user_status_remove].
  - intros r u. rewrite <- Hmem. simpl. by rewrite snapshot_lookup.
  - intros u. by apply deafened_elem.
Qed.

Lemma membership_lookups_witness :
  wf_state sample_data ∧ get_user_room (set_user_room 2 Types.ROOT_ROOM_UUID sample_data) 2 = Some Types.ROOT_ROOM_UUID.
Proof. split; [exact sample_data_wf|]. by rewrite (proj1 (membership_lookups sample_data sample_data_wf)). Defined.

(** The voice rate limiter bounds what a user gets through: in any one second
    the accepted datagrams of a monotone sequence of checks add up to at most
    twice the larger of the limit and the largest single datagram (a fixed
    window may open and close inside the second), whatever the traffic. *)
Theorem voice_rate_bounded (events : list (N * N)) (start t0 M : N) :
  monotone_from start events → Forall (λ e, (e.2 <= M)%N) events →
  (accepted_in t0 events (check_all events (VoiceRateLimit_new start))
   <= 2 * N.max VOICE_RATE_LIMIT_BYTES_PER_SEC M)%N.
Proof.
  intros Hm Hb. rewrite <- (N.add_0_l (accepted_in _ _ _)).
  eapply (accepted_any (N.max VOICE_RATE_LIMIT_BYTES_PER_SEC M) t0); [lia|exact Hm| | | |lia].
  - eapply Forall_impl; [exact Hb|]. simpl. lia.
  - simpl. lia.
  - simpl. lia.
Qed.

Lemma voice_rate_bounded_witness :
  (accepted_in 0 [(0, 20000); (5, 20000); (nanos_per_sec, 32000)]
     (check_all [(0, 20000); (5, 20000); (nanos_per_sec, 32000)] (VoiceRateLimit_new 0)) <= 64000)%N.
Proof.
  apply (voice_rate_bounded [(0, 20000); (5, 20000); (nanos_per_sec, 32000)]%N 0 0 32000).
  - repeat split; vm_compute; discriminate.
  - repeat constructor; vm_compute; discriminate.
Defined.

(** The reverse session index stays coherent: registering a session for a
    user that has none, under a session id nobody holds, and removing a user's
    session keep the two maps inverse to each other, so a session id resolves
    to its own session and to nothing once that session is gone. *)
Theorem sessions_stay_coherent (s : ServerState) (u : N) (e : SessionEntry) :
  sessions_coherent s →
  (sessions s !! u = None → sessions_by_id s !! session_id e = None →
     sessions_coherent (add_session u e s) ∧
     get_session_by_id (add_session u e s) (session_id e) = Some (u, e)) ∧
  sessions_coherent (remove_session u s) ∧
  (∀ sid v e', get_session_by_id (remove_session u s) sid = Some (v, e') →
     v ≠ u ∧ get_session_by_id s sid = Some (v, e')).
Proof.
  intros [Hc1 Hc2].
  assert (sessions_coherent (remove_session u s)) as Hrem.
  { unfold remove_session. destruct (sessions s !! u) as [e0|] eqn:Eu; [|done]. split; simpl.
    - intros sid v [Hne Hv]%lookup_delete_Some. destruct (Hc1 _ _ Hv) as (e' & He' & Hs).
      exists e'. split; [|done]. apply lookup_delete_Some. split; [|done]. intros ->. congruence.
    - intros v e' [Hne He']%lookup_delete_Some. apply lookup_delete_Some. split; [|by apply Hc2].
      intros E. apply Hc2 in He'. rewrite <- E, (Hc2 _ _ Eu) in He'. congruence. }
  split; [|split; [done|]].
  - intros Hu Hsid. split; [split; simpl|].
    + intros sid v [[<- <-]|[Hne Hv]]%lookup_insert_Some; [exists e; by rewrite lookup_insert_eq|].
      destruct (Hc1 _ _ Hv) as (e' & He' & Hs). exists e'. rewrite lookup_insert_ne; [done|]. intros ->. congruence.
    + intros v e' [[<- <-]|[Hne He']]%lookup_insert_Some; [by rewrite lookup_insert_eq|].
      apply Hc2 in He'. rewrite lookup_insert_ne; [done|]. intros E. congruence.
    + unfold get_session_by_id. simpl. rewrite lookup_insert_eq. simpl. by rewrite lookup_insert_eq.
  - intros sid v e' H. unfold get_session_by_id in H |- *.
    destruct (sessions_by_id (remove_session u s) !! sid) as [w|] eqn:Ew; [|done]. simpl in H.
    destruct (sessions (remove_session u s) !! w) as [e1|] eqn:E1; [|done]. injection H as -> ->.
    unfold remove_session in Ew, E1. destruct (sessions s !! u) as [e0|] eqn:Eu; simpl in *.
    + apply lookup_delete_Some in Ew as [_ Ew], E1 as [Hne E1]. rewrite Ew. simpl. by rewrite E1.
    + split; [congruence|]. rewrite Ew. simpl. by rewrite E1.
Qed.

Lemma sessions_stay_coherent_witness :
  let e := mkSessionEntry (array_of_N 32 1) (array_of_N 32 2) (array_of_N 32 3) 0 1 None in
  sessions_coherent ServerState_new ∧
  get_session_by_id (add_session 5 e ServerState_new) (array_of_N 32 3) = Some (5%N, e).
Proof.
  intros e. assert (sessions_coherent ServerState_new) as H by (split; intros ? ? [=]).
  split; [exact H|]. by apply (sessions_stay_coherent ServerState_new 5 e H).
Defined.

(** A second session for the same user leaves the old id behind: it resolves to
    the new session, and its entry survives the removal of the session. *)
Example stale_session_id :
  let e1 := mkSessionEntry (array_of_N 32 1) (array_of_N 32 2) (array_of_N 32 3) 0 1 None in
  let e2 := mkSessionEntry (array_of_N 32 1) (array_of_N 32 4) (array_of_N 32 5) 0 1 None in
  let s := add_session 5 e2 (add_session 5 e1 ServerState_new) in
  get_session_by_id s (array_of_N 32 3) = Some (5%N, e2) ∧
  sessions_by_id (remove_session 5 s) !! array_of_N 32 3 = Some 5%N.
Proof. split; vm_compute; reflexivity. Qed.

End St.
