(* ===== verification/World.v ===== *)
(** The whole server as one state: the shared [ServerState], the persistent
    store, the heaps its [Arc]s point into, the connections and what was sent
    on them; with the two delivery functions every handler ends in,
    [broadcast_state_update] and [send_server_state_to_client]
    ([crates/server/src/handlers.rs]) and [build_user_list]
    ([crates/server/src/state.rs]).

    A handler is a value of [ST (World T) _].  Handlers run one after the other
    here; the interleavings of the original at its await points are not
    modelled.  Times, random values and the fate of each connection are
    arguments or part of the state: a connection in [closed] fails every write,
    one in [stalled] does not finish a broadcast write before its timeout. *)
From Stdlib Require Import NArith ZArith Lia String.
From stdpp Require Import base gmap strings list sets.
From S2P Require Import Prelude Permissions Proto Types Store Wire Persistence State.

(** The third-party code the server calls: hashing, prost's encoding of the
    state message, signature and password verification, and the [Debug] text
    of a permission set. *)
Class External := {
  ext_blake3 : bytes → array 32;
  ext_sha256 : bytes → array 32;
  ext_encode_state : Proto.ServerState → bytes;
  (** [VerifyingKey::from_bytes(key)] succeeds. *)
  ext_valid_key : Types.PublicKey → bool;
  (** [key.verify_strict(message, signature)] for a 64-byte signature. *)
  ext_verify : Types.PublicKey → bytes → array 64 → bool;
  (** [bcrypt::verify(password, hash)]. *)
  ext_bcrypt_verify : string → string → result bool;
  ext_fmt_permissions : Perm.Permissions → string;
}.

Module Wld.

Inductive Event :=
  | Sent (to : N) (state_hash : bytes) (payload : Proto.ServerPayload)
  | Datagram (to : N) (datagram : Proto.VoiceDatagram)
  | Closed (conn : N) (code : N) (reason : string).

Record World (T : Type) := mkWorld {
  handles : gmap N St.ClientHandle;
  identities : gmap N St.Identity;
  server : St.ServerState;
  persistence : Persist.Persistence T;
  closed : gset N;
  stalled : gset N;
  log : list Event;
}.
Arguments mkWorld {T}.
Arguments handles {T}. Arguments identities {T}. Arguments server {T}.
Arguments persistence {T}. Arguments closed {T}. Arguments stalled {T}. Arguments log {T}.

Section world.
Context {T : Type}.
Abbreviation W := (World T).

Definition with_handles (f : gmap N St.ClientHandle → gmap N St.ClientHandle) (w : W) : W :=
  mkWorld (f (handles w)) (identities w) (server w) (persistence w) (closed w) (stalled w) (log w).
Definition with_identities (f : gmap N St.Identity → gmap N St.Identity) (w : W) : W :=
  mkWorld (handles w) (f (identities w)) (server w) (persistence w) (closed w) (stalled w) (log w).
Definition with_server (f : St.ServerState → St.ServerState) (w : W) : W :=
  mkWorld (handles w) (identities w) (f (server w)) (persistence w) (closed w) (stalled w) (log w).
Definition with_persistence (f : Persist.Persistence T → Persist.Persistence T) (w : W) : W :=
  mkWorld (handles w) (identities w) (server w) (f (persistence w)) (closed w) (stalled w) (log w).
Definition with_closed (f : gset N → gset N) (w : W) : W :=
  mkWorld (handles w) (identities w) (server w) (persistence w) (f (closed w)) (stalled w) (log w).
Definition with_log (f : list Event → list Event) (w : W) : W :=
  mkWorld (handles w) (identities w) (server w) (persistence w) (closed w) (stalled w) (f (log w)).

(** ** Reading and writing parts of the state *)

Definition data (w : W) : St.StateData := St.state_data (server w).

(** What a location points to; the default is never read, a handle that is
    passed around points somewhere. *)
Definition handle_at (w : W) (h : N) : St.ClientHandle :=
  default (St.ClientHandle_new None false h) (handles w !! h).
Definition identity_at (w : W) (i : N) : St.Identity :=
  default St.Identity_empty (identities w !! i).
Definition identity_of (w : W) (h : N) : St.Identity :=
  identity_at w (St.h_identity (handle_at w h)).

Definition set_handle (h : N) (f : St.ClientHandle → St.ClientHandle) : ST W unit :=
  modify (λ w, with_handles (<[h := f (handle_at w h)]>) w).
Definition set_identity (i : N) (f : St.Identity → St.Identity) : ST W unit :=
  modify (λ w, with_identities (<[i := f (identity_at w i)]>) w).

Definition get_username (w : W) (h : N) : string := St.display_name (identity_of w h).

Definition on_server {A} (f : St.ServerState → A * St.ServerState) : ST W A :=
  λ w, let '(a, s) := f (server w) in (a, with_server (λ _, s) w).
Definition set_server (f : St.ServerState → St.ServerState) : ST W unit :=
  modify (with_server f).
Definition on_data {A} (f : St.StateData → A * St.StateData) : ST W A :=
  on_server (λ s, let '(a, d) := f (St.state_data s) in (a, St.with_state_data (λ _, d) s)).
Definition set_data (f : St.StateData → St.StateData) : ST W unit :=
  set_server (St.with_state_data f).
Definition on_persist {A} (m : ST (Persist.Persistence T) A) : ST W A :=
  λ w, let '(a, p) := m (persistence w) in (a, with_persistence (λ _, p) w).

(** [let _ = m;] and [if let Err(e) = m { warn!(..) }]. *)
Definition ignore {A} (m : ST W A) : ST W unit := m ≫= λ _, mret tt.

(** ** Sending *)

Definition emit (e : Event) : ST W unit := modify (with_log (λ l, l ++ [e])).

Definition send_frame (h : N) (state_hash : bytes) (payload : Proto.ServerPayload)
  : ST W (result unit) :=
  dead ← gets (λ w, bool_decide (h ∈ closed w));
  if dead : bool then mret (Err "connection lost"%string)
  else emit (Sent h state_hash payload);; done_ok.

Definition close_conn (h : N) (code : N) (reason : string) : ST W unit :=
  emit (Closed h code reason);; modify (with_closed (λ c, {[ h ]} ∪ c)).

Definition broadcast_frame (clients : list N) (state_hash : bytes) (payload : Proto.ServerPayload)
  : ST W unit :=
  for_each clients (λ h,
    slow ← gets (λ w, bool_decide (h ∈ stalled w));
    if slow : bool then close_conn h 0 "control stream stalled"
    else ignore (send_frame h state_hash payload)).

(** ** The user list *)

Definition is_controller (w : W) (m : St.Member) : bool :=
  match St.binding m with
  | St.Client h => St.is_controller (handle_at w h)
  | St.Owned _ => false
  end.
Definition is_superuser (w : W) (m : St.Member) : bool :=
  match St.binding m with
  | St.Client h => St.is_superuser (handle_at w h)
  | St.Owned _ => false
  end.

Definition user_entry (w : W) (e : N * Types.Uuid) : option Types.User :=
  let '(uid, rid) := e in
  let status := St.get_user_status (data w) uid in
  member ← St.get_member (server w) uid;
  if is_controller w member then None
  else
    let srv_muted := match St.binding member with
                     | St.Client h => St.server_muted (handle_at w h)
                     | St.Owned _ => St.us_server_muted status
                     end in
    let identity := identity_at w (St.m_identity member) in
    Some (Types.mkUser uid (St.display_name identity) rid (St.us_is_muted status)
            (St.us_is_deafened status) srv_muted (is_superuser w member)
            (St.id_groups identity) (St.label identity)).

Definition build_user_list (w : W) : list Types.User :=
  omap (user_entry w) (St.memberships (data w)).

Context `{!External}.

Definition state_hash (w : W) (groups : list Proto.GroupInfo) : bytes :=
  Wire.compute_server_state_hash ext_blake3 ext_encode_state
    (Proto.mkServerState (map Types.room_to_proto (St.rooms (data w)))
       (map Types.user_to_proto (build_user_list w)) groups []).

Definition broadcast_state_update (update : Proto.Update) : ST W (result unit) :=
  expected_hash ← gets (λ w, state_hash w []);
  clients ← gets (λ w, St.snapshot_clients (server w));
  broadcast_frame clients expected_hash (Proto.EvStateUpdate expected_hash update);;
  done_ok.

(** ** Lemmas: what these change *)

Definition frame_of (w : W) :=
  (handles w, identities w, server w, persistence w, stalled w).

Lemma keeps_emit R `{!PreOrder R} e :
  (∀ w, R w (with_log (λ l, l ++ [e]) w)) → keeps R (emit e).
Proof. intros He w. apply He. Qed.

Lemma keeps_ignore R `{!PreOrder R} {A} (m : ST W A) : keeps R m → keeps R (ignore m).
Proof. intros Hm. unfold ignore. apply keeps_bind; [done|done|]. intros _. by apply keeps_ret. Qed.

Lemma send_frame_frame h hash p : keeps (same frame_of) (send_frame h hash p).
Proof.
  unfold send_frame, emit. apply keeps_bind; [apply _|apply keeps_gets, _|].
  intros []; [apply keeps_ret, _|].
  apply keeps_bind; [apply _|by apply keeps_modify|]. intros _. apply keeps_done_ok, _.
Qed.

Lemma close_conn_frame h c r : keeps (same frame_of) (close_conn h c r).
Proof. unfold close_conn, emit. apply keeps_bind; [apply _|by apply keeps_modify|]. intros _. by apply keeps_modify. Qed.

Lemma broadcast_frame_frame cs hash p : keeps (same frame_of) (broadcast_frame cs hash p).
Proof.
  unfold broadcast_frame. apply keeps_for_each; [apply _|]. intros h _.
  apply keeps_bind; [apply _|apply keeps_gets, _|]. intros []; [apply close_conn_frame|].
  apply keeps_ignore; [apply _|apply send_frame_frame].
Qed.

(** A broadcast changes nothing but the connections and the log. *)
Lemma broadcast_state_update_frame u : keeps (same frame_of) (broadcast_state_update u).
Proof.
  unfold broadcast_state_update. apply keeps_bind; [apply _|apply keeps_gets, _|]. intros hash.
  apply keeps_bind; [apply _|apply keeps_gets, _|]. intros cs.
  apply keeps_bind; [apply _|apply broadcast_frame_frame|]. intros _. apply keeps_done_ok, _.
Qed.

Lemma broadcast_state_update_ok u w : (broadcast_state_update u w).1 = Ok tt.
Proof.
  unfold broadcast_state_update, mbind, ST_bind, gets. by destruct (broadcast_frame _ _ _ w) as [[] w'].
Qed.

(** ** Running the pieces *)

Lemma ignore_run {A} (m : ST W A) w : ignore m w = (tt, (m w).2).
Proof. unfold ignore, mbind, ST_bind. by destruct (m w). Qed.

Lemma on_server_run {A} (f : St.ServerState → A * St.ServerState) w :
  on_server f w = ((f (server w)).1, with_server (λ _, (f (server w)).2) w).
Proof. unfold on_server. by destruct (f (server w)). Qed.

Lemma on_data_run {A} (f : St.StateData → A * St.StateData) w :
  on_data f w = ((f (data w)).1, with_server (St.with_state_data (λ _, (f (data w)).2)) w).
Proof. unfold on_data. rewrite on_server_run. unfold data. by destruct (f (St.state_data (server w))). Qed.

Lemma on_persist_run {A} (m : ST (Persist.Persistence T) A) w :
  on_persist m w = ((m (persistence w)).1, with_persistence (λ _, (m (persistence w)).2) w).
Proof. unfold on_persist. by destruct (m (persistence w)). Qed.

(** The world after a broadcast: only connections and the log differ. *)
Definition bcast (u : Proto.Update) (w : W) : W := (broadcast_state_update u w).2.

Lemma bcast_run u w : broadcast_state_update u w = (Ok tt, bcast u w).
Proof. unfold bcast. rewrite <- (broadcast_state_update_ok u w). apply surjective_pairing. Qed.

Lemma bcast_frame u w : frame_of (bcast u w) = frame_of w.
Proof. apply broadcast_state_update_frame. Qed.

Lemma handles_bcast u w : handles (bcast u w) = handles w.
Proof. by injection (bcast_frame u w). Qed.
Lemma identities_bcast u w : identities (bcast u w) = identities w.
Proof. by injection (bcast_frame u w). Qed.
Lemma server_bcast u w : server (bcast u w) = server w.
Proof. by injection (bcast_frame u w). Qed.
Lemma persistence_bcast u w : persistence (bcast u w) = persistence w.
Proof. by injection (bcast_frame u w). Qed.
Lemma data_bcast u w : data (bcast u w) = data w.
Proof. unfold data. by rewrite server_bcast. Qed.
Lemma handle_at_bcast u w h : handle_at (bcast u w) h = handle_at w h.
Proof. unfold handle_at. by rewrite handles_bcast. Qed.
Lemma identity_of_bcast u w h : identity_of (bcast u w) h = identity_of w h.
Proof. unfold identity_of, identity_at. by rewrite handle_at_bcast, identities_bcast. Qed.

(** The same for a write and a close. *)
Definition sent (h : N) (hash : bytes) (p : Proto.ServerPayload) (w : W) : W := (send_frame h hash p w).2.
Lemma sent_frame h hash p w : frame_of (sent h hash p w) = frame_of w.
Proof. apply send_frame_frame. Qed.
Definition closed_conn (h c : N) (r : string) (w : W) : W := (close_conn h c r w).2.
Lemma closed_conn_frame h c r w : frame_of (closed_conn h c r w) = frame_of w.
Proof. apply close_conn_frame. Qed.
Lemma close_conn_run h c r w : close_conn h c r w = (tt, closed_conn h c r w).
Proof. done. Qed.

Lemma frame_fields w w' :
  frame_of w' = frame_of w →
  handles w' = handles w ∧ identities w' = identities w ∧ server w' = server w ∧
  persistence w' = persistence w ∧ stalled w' = stalled w.
Proof. by intros [= ? ? ? ? ?]. Qed.

(** A closed connection stays closed. *)
Definition grows (w w' : W) : Prop := closed w ⊆ closed w'.
#[global] Instance grows_preorder : PreOrder grows.
Proof.
  split; [intros w; unfold grows; set_solver|].
  intros w1 w2 w3 E1 E2. unfold grows in *. set_solver.
Qed.

Lemma grows_set_server f : keeps grows (set_server f).
Proof. apply keeps_modify. intros w. unfold grows. set_solver. Qed.
Lemma grows_set_data f : keeps grows (set_data f).
Proof. apply keeps_modify. intros w. unfold grows. set_solver. Qed.
Lemma grows_on_server {A} (f : St.ServerState → A * St.ServerState) : keeps grows (on_server f).
Proof. intros w. rewrite on_server_run. unfold grows. set_solver. Qed.
Lemma grows_send_frame h hash p : keeps grows (send_frame h hash p).
Proof.
  unfold send_frame, emit. apply keeps_bind; [apply _|apply keeps_gets, _|].
  intros []; [apply keeps_ret, _|].
  apply keeps_bind; [apply _|apply keeps_modify; intros w; unfold grows; set_solver|]. intros _. apply keeps_done_ok, _.
Qed.
Lemma grows_close_conn h c r : keeps grows (close_conn h c r).
Proof.
  unfold close_conn, emit. apply keeps_bind; [apply _|apply keeps_modify; intros w; unfold grows; set_solver|]. intros _.
  apply keeps_modify. intros w. unfold grows. cbn. set_solver.
Qed.
Lemma grows_broadcast u : keeps grows (broadcast_state_update u).
Proof.
  unfold broadcast_state_update, broadcast_frame.
  repeat first [ apply grows_close_conn | apply keeps_ignore; [apply _|apply grows_send_frame]
               | keeps_step ].
Qed.
Lemma closed_close_conn h c r w : h ∈ closed (closed_conn h c r w).
Proof. unfold closed_conn, close_conn, emit, mbind, ST_bind, modify. cbn. set_solver. Qed.
End world.
End Wld.

Create Rewrite HintDb world.
(** Rewriting away a broadcast under the projections. *)
#[export] Hint Rewrite @Wld.handles_bcast @Wld.identities_bcast @Wld.server_bcast
  @Wld.persistence_bcast @Wld.data_bcast @Wld.handle_at_bcast @Wld.identity_of_bcast : world.
Ltac world := autorewrite with world; cbn [Wld.handles Wld.identities Wld.server Wld.persistence
  Wld.closed Wld.stalled Wld.log Wld.with_handles Wld.with_identities Wld.with_server
  Wld.with_persistence Wld.with_closed Wld.with_log].

(** One monadic step at a time. *)
Ltac run1 :=
  first [ rewrite Wld.ignore_run | rewrite Wld.on_server_run | rewrite Wld.on_data_run
        | rewrite Wld.on_persist_run | rewrite Wld.bcast_run ].
Ltac unfold_goal_st := cbv beta iota zeta delta [mbind mret ST_bind ST_ret try_bind gets modify done_ok
  Wld.set_data Wld.set_server Wld.set_handle Wld.set_identity]; cbn [fst snd].
Ltac run := repeat (unfold_goal_st; run1); unfold_goal_st.

(** The structural proof that connections only ever close. *)
Ltac grows_step :=
  lazymatch goal with
  | |- keeps _ (Wld.ignore _) => apply Wld.keeps_ignore; [apply _|]
  | |- keeps _ (Wld.set_server _) => apply Wld.grows_set_server
  | |- keeps _ (Wld.set_data _) => apply Wld.grows_set_data
  | |- keeps _ (Wld.on_server _) => apply Wld.grows_on_server
  | |- keeps _ (Wld.send_frame _ _ _) => apply Wld.grows_send_frame
  | |- keeps _ (Wld.close_conn _ _ _) => apply Wld.grows_close_conn
  | |- keeps _ (Wld.broadcast_state_update _) => apply Wld.grows_broadcast
  | |- _ => keeps_step
  end.

#[export] Hint Resolve Wld.send_frame_frame Wld.close_conn_frame Wld.broadcast_state_update_frame
  Wld.broadcast_frame_frame Wld.keeps_ignore : keeps.
