(* ===== verification/Acl.v ===== *)
(** Permission checks against the server's state
    ([crates/server/src/acl.rs]). *)
From Stdlib Require Import NArith Lia String.
From stdpp Require Import base gmap strings list.
From S2P Require Import Prelude Permissions Proto Types Store Wire Persistence State World.

Module Acl.

Section acl.
Context {T : Type} `{!KV T} `{!Persist.Codecs} `{!External}.
Abbreviation W := (Wld.World T).

(** The walk from the target to the root.  [path] is in the order it was
    pushed; one iteration per unit of [fuel]. *)
Fixpoint walk_up (fuel : nat) (rooms : list Types.Room) (current : Types.Uuid)
    (path : list Types.Uuid) : list Types.Uuid :=
  match fuel with
  | O => path
  | S fuel =>
      let path := path ++ [current] in
      if bool_decide (current = Types.ROOT_ROOM_UUID) then path
      else match List.find (St.has_room_id current) rooms with
           | None => path
           | Some r =>
               if Nat.ltb (List.length rooms + 1) (List.length path) then path
               else walk_up fuel rooms (Types.room_parent r) path
           end
  end.

(** [Vec::dedup]: drop consecutive repetitions. *)
Fixpoint dedup_from (prev : Types.Uuid) (l : list Types.Uuid) : list Types.Uuid :=
  match l with
  | [] => []
  | y :: r => if bool_decide (y = prev) then dedup_from prev r else y :: dedup_from y r
  end.
Definition dedup (l : list Types.Uuid) : list Types.Uuid :=
  match l with [] => [] | x :: r => x :: dedup_from x r end.

(** The loop stops by itself within [length rooms + 2] rounds. *)
Definition chain_ids (rooms : list Types.Room) (target : Types.Uuid) : list Types.Uuid :=
  let path := rev (walk_up (List.length rooms + 3) rooms target []) in
  let path := match path with
              | r :: _ => if bool_decide (r = Types.ROOT_ROOM_UUID) then path
                          else Types.ROOT_ROOM_UUID :: path
              | [] => [Types.ROOT_ROOM_UUID]
              end in
  dedup path.

Definition acl_data (p : Persist.Persistence T) (room_uuid : Types.Uuid) : option Perm.RoomAclData :=
  (λ pacl, {| Perm.inherit_acl := Persist.pa_inherit_acl pacl;
              Perm.entries := map (λ e, {|
                Perm.group := Persist.pa_group e;
                Perm.grant := Perm.from_bits_truncate (Persist.pa_grant e);
                Perm.deny := Perm.from_bits_truncate (Persist.pa_deny e);
                Perm.apply_here := Persist.pa_apply_here e;
                Perm.apply_subs := Persist.pa_apply_subs e |}) (Persist.pa_entries pacl) |})
  <$> Persist.get_room_acl p room_uuid.

Definition build_room_chain_owned (w : W) (target : Types.Uuid)
  : list (Types.Uuid * option Perm.RoomAclData) :=
  (λ room_uuid, (room_uuid, acl_data (Wld.persistence w) room_uuid))
    <$> chain_ids (St.rooms (Wld.data w)) target.

Definition effective_groups (identity : St.Identity) : list string :=
  let user_groups := fold_left (λ l g, push_unique g l) (St.id_groups identity) ["default"%string] in
  match St.verified_username identity with
  | Some username => push_unique username user_groups
  | None => user_groups
  end.

Definition group_permissions (p : Persist.Persistence T) : gmap string Perm.Permissions :=
  fold_left (λ m e, <[e.1 := Perm.from_bits_truncate (Persist.permissions e.2)]> m)
    (Persist.list_groups p) ∅.

Definition evaluate_identity_permissions (w : W) (is_superuser : bool) (identity : St.Identity)
    (room_uuid : Types.Uuid) : Perm.Permissions :=
  Perm.effective_permissions (effective_groups identity)
    (group_permissions (Wld.persistence w)) (build_room_chain_owned w room_uuid) is_superuser.

Definition evaluate_user_permissions (w : W) (sender : N) (room_uuid : Types.Uuid) : Perm.Permissions :=
  evaluate_identity_permissions w (St.is_superuser (Wld.handle_at w sender))
    (Wld.identity_of w sender) room_uuid.

Definition evaluate_member_permissions (w : W) (member : St.Member) (room_uuid : Types.Uuid)
  : Perm.Permissions :=
  evaluate_identity_permissions w (Wld.is_superuser w member)
    (Wld.identity_at w (St.m_identity member)) room_uuid.

(** [None] is [Ok(())]. *)
Definition require (effective required : Perm.Permissions) (room_uuid : Types.Uuid)
  : option Proto.PermissionDenied :=
  if Perm.contains effective required then None
  else Some (Proto.mkPermissionDenied required (arr room_uuid)
         ("You do not have permission to perform this action (requires "
          ++ ext_fmt_permissions required ++ ")")).

Definition check_permission (w : W) (sender : N) (room_uuid : Types.Uuid) (required : Perm.Permissions)
  : option Proto.PermissionDenied :=
  require (evaluate_user_permissions w sender room_uuid) required room_uuid.

Definition check_member_permission (w : W) (member : St.Member) (room_uuid : Types.Uuid)
    (required : Perm.Permissions) : option Proto.PermissionDenied :=
  require (evaluate_member_permissions w member room_uuid) required room_uuid.

(** ** The chain *)

(** [ancestors rooms r p]: [p] is the path from [r] up to the root. *)
Inductive ancestors (rooms : list Types.Room) : Types.Uuid → list Types.Uuid → Prop :=
  | anc_root : ancestors rooms Types.ROOT_ROOM_UUID [Types.ROOT_ROOM_UUID]
  | anc_up r x p :
      r ≠ Types.ROOT_ROOM_UUID → List.find (St.has_room_id r) rooms = Some x →
      ancestors rooms (Types.room_parent x) p → ancestors rooms r (r :: p).

Lemma ancestors_det rooms r p q : ancestors rooms r p → ancestors rooms r q → p = q.
Proof.
  intros Hp. revert q. induction Hp as [|r x p Hr Hx Hp IH]; intros q Hq; inversion Hq; subst; try done.
  f_equal. apply IH. congruence.
Qed.

Lemma ancestors_suffix rooms r p s :
  ancestors rooms r p → s ∈ p → ∃ q, ancestors rooms s q ∧ List.length q ≤ List.length p.
Proof.
  intros Hp. revert s. induction Hp as [|r x p Hr Hx Hp IH]; intros s Hs.
  - apply list_elem_of_singleton in Hs as ->. eexists. split; [apply anc_root|done].
  - apply elem_of_cons in Hs as [->|Hs].
    + exists (r :: p). split; [by eapply anc_up|done].
    + destruct (IH s Hs) as (q & Hq & Hl). exists q. split; [done|]. simpl. lia.
Qed.

Lemma ancestors_NoDup rooms r p : ancestors rooms r p → NoDup p.
Proof.
  induction 1 as [|r x p Hr Hx Hp IH]; [apply NoDup_singleton|].
  apply NoDup_cons. split; [|done]. intros Hin.
  destruct (ancestors_suffix _ _ _ _ Hp Hin) as (q & Hq & Hl).
  assert (r :: p = q) as <- by (eapply ancestors_det; [by eapply anc_up|done]). simpl in Hl. lia.
Qed.

Lemma ancestors_ends rooms r p :
  ancestors rooms r p →
  ∃ p0, p = p0 ++ [Types.ROOT_ROOM_UUID] ∧ ∀ s, s ∈ p0 → s ∈ Types.room_id <$> rooms.
Proof.
  induction 1 as [|r x p Hr Hx Hp (p0 & -> & IH)]; [exists []; split; [done|]; intros s Hs; by apply elem_of_nil in Hs|].
  exists (r :: p0). split; [done|]. intros s [->|Hs]%elem_of_cons; [|by apply IH].
  apply find_Some_iff in Hx as [Hin Hid]. apply list_elem_of_fmap. exists x. split; [|done].
  unfold St.has_room_id in Hid. by apply bool_decide_eq_true in Hid.
Qed.

Lemma ancestors_length rooms r p : ancestors rooms r p → List.length p ≤ List.length rooms + 1.
Proof.
  intros Hp. pose proof (ancestors_NoDup _ _ _ Hp) as Hnd.
  destruct (ancestors_ends _ _ _ Hp) as (p0 & -> & Hin). apply NoDup_app in Hnd as [Hnd _].
  rewrite length_app. simpl. apply Nat.add_le_mono_r.
  rewrite <- (length_fmap Types.room_id). apply submseteq_length, NoDup_submseteq; [done|]. exact Hin.
Qed.

Lemma walk_up_ancestors rooms r p fuel path :
  ancestors rooms r p → List.length p ≤ fuel →
  List.length path + List.length p ≤ List.length rooms + 2 →
  walk_up fuel rooms r path = path ++ p.
Proof.
  intros Hp. revert fuel path. induction Hp as [|r x p Hr Hx Hp IH]; intros fuel path Hf Hl.
  - destruct fuel as [|fuel]; [simpl in Hf; lia|]. cbn [walk_up]. by rewrite bool_decide_true.
  - destruct fuel as [|fuel]; [simpl in Hf; lia|]. cbn [walk_up]. rewrite bool_decide_false, Hx by done.
    assert (1 ≤ List.length p) by (destruct Hp; simpl; lia).
    cbn [List.length] in *. rewrite length_app. cbn [List.length].
    replace (Nat.ltb _ _) with false by (symmetry; apply Nat.ltb_ge; lia).
    rewrite IH; [by rewrite <- app_assoc|lia|rewrite length_app; simpl; lia].
Qed.

Lemma dedup_from_NoDup prev l : NoDup (prev :: l) → dedup_from prev l = l.
Proof.
  revert prev. induction l as [|y l IH]; intros prev Hnd; [done|]. simpl.
  apply NoDup_cons in Hnd as [Hp Hnd]. rewrite bool_decide_false.
  - by rewrite IH.
  - intros ->. apply Hp, list_elem_of_here.
Qed.

Lemma dedup_NoDup l : NoDup l → dedup l = l.
Proof. destruct l as [|x l]; [done|]. intros Hnd. simpl. by rewrite dedup_from_NoDup. Qed.

Lemma dedup_from_facts prev l :
  List.length (dedup_from prev l) ≤ List.length l ∧
  List.last (dedup_from prev l) prev = List.last l prev.
Proof.
  revert prev. induction l as [|y l IH]; intros prev; [done|]. cbn [dedup_from].
  rewrite last_cons_default. case_bool_decide as E.
  - subst y. destruct (IH prev) as [H1 H2]. split; [simpl; lia|done].
  - destruct (IH y) as [H1 H2]. rewrite last_cons_default. split; [simpl; lia|done].
Qed.

Lemma walk_up_S fuel rooms r path :
  walk_up (S fuel) rooms r path =
  if bool_decide (r = Types.ROOT_ROOM_UUID) then path ++ [r]
  else match List.find (St.has_room_id r) rooms with
       | None => path ++ [r]
       | Some x =>
           if Nat.ltb (List.length rooms + 1) (List.length (path ++ [r])) then path ++ [r]
           else walk_up fuel rooms (Types.room_parent x) (path ++ [r])
       end.
Proof. reflexivity. Qed.

(** The walk over any rooms, corrupt ones too. *)
Lemma walk_up_facts rooms fuel r path :
  ∃ q, walk_up (S fuel) rooms r path = path ++ r :: q ∧
  (List.length path ≤ List.length rooms + 1 →
   List.length (walk_up (S fuel) rooms r path) ≤ List.length rooms + 2).
Proof.
  revert r path. induction fuel as [|fuel IH]; intros r path.
  - exists []. assert (walk_up 1 rooms r path = path ++ [r]) as ->.
    { rewrite walk_up_S. case_bool_decide; [done|]. destruct (List.find _ _); [|done]. by destruct (Nat.ltb _ _). }
    split; [done|]. rewrite length_app. simpl. lia.
  - rewrite walk_up_S. case_bool_decide; [exists []; split; [done|]; rewrite length_app; simpl; lia|].
    destruct (List.find _ rooms) as [x|]; [|exists []; split; [done|]; rewrite length_app; simpl; lia].
    destruct (Nat.ltb_spec (List.length rooms + 1) (List.length (path ++ [r]))) as [Hl|Hl];
      [exists []; split; [done|]; rewrite length_app; simpl; lia|].
    destruct (IH (Types.room_parent x) (path ++ [r])) as (q & Hq & Hlen).
    exists (Types.room_parent x :: q). split; [rewrite Hq; by rewrite <- app_assoc|].
    intros _. apply Hlen. done.
Qed.

Lemma walk_up_fuel rooms fuel k r path :
  List.length rooms + 2 ≤ fuel + List.length path → 0 < fuel →
  walk_up (fuel + k) rooms r path = walk_up fuel rooms r path.
Proof.
  revert r path. induction fuel as [|fuel IH]; intros r path Hf Hpos; [lia|]. cbn [Nat.add]. rewrite !walk_up_S.
  case_bool_decide; [done|]. destruct (List.find _ rooms) as [x|]; [|done].
  destruct (Nat.ltb_spec (List.length rooms + 1) (List.length (path ++ [r]))) as [Hl|Hl]; [done|].
  rewrite length_app in Hl. simpl in Hl. apply IH; [rewrite length_app; simpl; lia|lia].
Qed.

Lemma hd_dedup l d : hd d (dedup l) = hd d l.
Proof. by destruct l. Qed.

Lemma last_dedup l d : List.last (dedup l) d = List.last l d.
Proof.
  destruct l as [|x l]; [done|]. cbn [dedup]. rewrite !last_cons_default. apply dedup_from_facts.
Qed.

Lemma length_dedup l : List.length (dedup l) ≤ List.length l.
Proof. destruct l as [|x l]; [done|]. cbn [dedup List.length]. pose proof (dedup_from_facts x l). lia. Qed.

(** ** The permissions *)

(** No bit outside the defined ones. *)
Definition defined_only (p : Perm.Permissions) : Prop :=
  ∀ i, N.testbit Perm.ALL i = false → N.testbit p i = false.

Lemma defined_from_bits n : defined_only (Perm.from_bits_truncate n).
Proof. intros i Hi. unfold Perm.from_bits_truncate. by rewrite N.land_spec, Hi, andb_false_r. Qed.

Lemma defined_land_complement a b : defined_only a → defined_only (Perm.inter a b).
Proof. intros Ha i Hi. unfold Perm.inter. by rewrite N.land_spec, Ha. Qed.

Lemma defined_union a b : defined_only a → defined_only b → defined_only (Perm.union a b).
Proof. intros Ha Hb i Hi. unfold Perm.union. by rewrite N.lor_spec, Ha, Hb. Qed.

Lemma room_step_defined ug base t acl g :
  defined_only base → defined_only g →
  (∀ a, acl = Some a → Forall (λ e, defined_only (Perm.grant e)) (Perm.entries a)) →
  defined_only (Perm.room_step ug base t acl g).
Proof.
  intros Hb Hg Ha. destruct acl as [a|]; [|done]. specialize (Ha a eq_refl). simpl.
  assert (defined_only (if negb (Perm.inherit_acl a) then base else g)) as Hs by (by destruct (negb _)).
  revert Hs. generalize (if negb (Perm.inherit_acl a) then base else g).
  induction Ha as [|e es He _ IH]; intros g' Hg'; [done|]. rewrite Perm.apply_entries_cons. apply IH.
  destruct (Perm.entry_applies _ _ _); [|done]. apply defined_land_complement. by apply defined_union.
Qed.

Lemma walk_chain_defined {R} ug base li idx (chain : list (R * option Perm.RoomAclData)) g :
  defined_only base → defined_only g →
  (∀ r a, (r, Some a) ∈ chain → Forall (λ e, defined_only (Perm.grant e)) (Perm.entries a)) →
  match Perm.walk_chain ug base li idx chain g with inl p => defined_only p | inr p => defined_only p end.
Proof.
  intros Hb. revert idx g. induction chain as [|[r acl] chain IH]; intros idx g Hg Hc; [done|].
  rewrite Perm.walk_chain_cons. cbv zeta.
  assert (defined_only (Perm.room_step ug base (Nat.eqb idx li) acl g)) as Hs.
  { apply room_step_defined; [done..|]. intros a ->. eapply Hc. apply list_elem_of_here. }
  destruct (negb _ && negb _); [by intros i _|]. apply IH; [done|].
  intros r' a Hin. eapply Hc. by apply list_elem_of_further.
Qed.

Lemma group_permissions_defined p g perms : group_permissions p !! g = Some perms → defined_only perms.
Proof.
  unfold group_permissions.
  assert (∀ l (m : gmap string Perm.Permissions), (∀ g q, m !! g = Some q → defined_only q) →
    ∀ g q, fold_left (λ m (e : string * Persist.PersistedGroup),
      <[e.1 := Perm.from_bits_truncate (Persist.permissions e.2)]> m) l m !! g = Some q → defined_only q) as Hf.
  { induction l as [|e l IH]; intros m Hm; [exact Hm|]. simpl. apply IH.
    intros g' q [[_ <-]|[_ Hq]]%lookup_insert_Some; [apply defined_from_bits|by eapply Hm]. }
  apply Hf. intros g' q Hq. by rewrite lookup_empty in Hq.
Qed.

Lemma base_defined p ug : defined_only (Perm.base_permissions ug (group_permissions p) Perm.empty).
Proof.
  intros i Hi. rewrite Perm.base_permissions_bit. unfold Perm.empty. rewrite N.bits_0. simpl.
  unfold Perm.base_bit. induction ug as [|g ug IH]; [done|]. simpl. rewrite IH.
  destruct (group_permissions p !! g) as [q|] eqn:Eq; [|done].
  apply group_permissions_defined in Eq. by rewrite Eq.
Qed.

Lemma evaluate_defined w su ident room : defined_only (evaluate_identity_permissions w su ident room).
Proof.
  unfold evaluate_identity_permissions, Perm.effective_permissions. destruct su; [by intros i|]. cbv zeta.
  match goal with |- context [Perm.walk_chain ?u ?b ?l ?i ?c ?g] =>
    pose proof (walk_chain_defined u b l i c g (base_defined _ _) (base_defined _ _)) as Hw end.
  match type of Hw with (?H → _) => assert H as Hc end.
  { intros r a Hin. unfold build_room_chain_owned in Hin. apply list_elem_of_fmap in Hin as (u & Hu & _).
    injection Hu as _ Ha. unfold acl_data in Ha. destruct (Persist.get_room_acl _ _) as [pa|]; [|done].
    injection Ha as ->. simpl. apply Forall_forall. intros e He.
    apply list_elem_of_In, in_map_iff in He as (pe & <- & _). apply defined_from_bits. }
  specialize (Hw Hc). destruct (Perm.walk_chain _ _ _ _ _ _) as [p|g]; [done|].
  destruct (Nat.ltb _ _); [|done]. by apply defined_land_complement.
Qed.

Lemma elem_of_fold_push g (l acc : list string) :
  g ∈ fold_left (λ l g, push_unique g l) l acc ↔ g ∈ acc ∨ g ∈ l.
Proof.
  revert acc. induction l as [|x l IH]; intros acc; simpl.
  - rewrite elem_of_nil. tauto.
  - rewrite IH, elem_of_push_unique, elem_of_cons. tauto.
Qed.

Lemma elem_of_effective_groups g ident :
  g ∈ effective_groups ident ↔
  g = "default"%string ∨ g ∈ St.id_groups ident ∨ St.verified_username ident = Some g.
Proof.
  unfold effective_groups. destruct (St.verified_username ident) as [u|];
    rewrite ?elem_of_push_unique, elem_of_fold_push, list_elem_of_singleton; [|by intuition].
  split; [intros [->|[?|?]]; auto|]. intros [?|[?|[= ->]]]; auto.
Qed.

(** ** Properties *)

(** The room chain an evaluation walks is sound whatever the stored tree
    looks like: it starts at Root, ends at the target, has at most three more
    entries than there are rooms, and the walk that builds it terminates (more
    rounds never change it), parent-link cycles and dangling parents included. *)
Theorem room_chain_sound (rooms : list Types.Room) (target : Types.Uuid) :
  hd target (chain_ids rooms target) = Types.ROOT_ROOM_UUID ∧
  List.last (chain_ids rooms target) Types.ROOT_ROOM_UUID = target ∧
  List.length (chain_ids rooms target) ≤ List.length rooms + 3 ∧
  (∀ k, walk_up (List.length rooms + 3 + k) rooms target [] = walk_up (List.length rooms + 3) rooms target []).
Proof.
  split; [|split; [|split]]; [| | |intros k; apply walk_up_fuel; simpl; lia]; unfold chain_ids;
    replace (List.length rooms + 3) with (S (List.length rooms + 2)) by lia;
    destruct (walk_up_facts rooms (List.length rooms + 2) target []) as (q & Hq & Hl);
    specialize (Hl ltac:(simpl; lia)); rewrite Hq in *; simpl in Hl |- *.
  - rewrite hd_dedup. destruct (rev q ++ [target]) as [|r l] eqn:E; [done|]. by case_bool_decide.
  - rewrite last_dedup. destruct (rev q ++ [target]) as [|r l] eqn:E; [by apply app_eq_nil in E as [_ ?]|].
    rewrite <- E. case_bool_decide; [by rewrite last_last|]. by rewrite last_cons_default, last_last.
  - pose proof (length_dedup (match rev q ++ [target] with
      | [] => [Types.ROOT_ROOM_UUID]
      | r :: _ => if bool_decide (r = Types.ROOT_ROOM_UUID) then rev q ++ [target]
                  else Types.ROOT_ROOM_UUID :: rev q ++ [target] end)) as Hd.
    assert (List.length (rev q ++ [target]) = S (List.length q)) as Hlen
      by (rewrite length_app, length_rev; simpl; lia).
    etrans; [exact Hd|]. destruct (rev q ++ [target]) as [|r l]; [simpl in *; lia|].
    case_bool_decide; cbn [List.length] in *; lia.
Qed.

(** In a tree whose parent links lead from the target to Root, the chain
    is exactly that path, from Root down to the target, and no room occurs
    twice on it. *)
Theorem room_chain_is_path (rooms : list Types.Room) (target : Types.Uuid) (p : list Types.Uuid) :
  ancestors rooms target p → chain_ids rooms target = rev p ∧ NoDup p.
Proof.
  intros Hp. split; [|by eapply ancestors_NoDup]. unfold chain_ids.
  pose proof (ancestors_length _ _ _ Hp) as Hl.
  rewrite (walk_up_ancestors _ _ p); [|done|lia|simpl; lia]. rewrite app_nil_l.
  pose proof (ancestors_NoDup _ _ _ Hp) as Hnd.
  destruct (ancestors_ends _ _ _ Hp) as (p0 & -> & _). rewrite rev_app_distr. simpl.
  rewrite dedup_from_NoDup; [done|].
  assert (rev (p0 ++ [Types.ROOT_ROOM_UUID]) = Types.ROOT_ROOM_UUID :: rev p0) as <- by (by rewrite rev_app_distr).
  by apply NoDup_ListNoDup, NoDup_rev, NoDup_ListNoDup.
Qed.

(** What an evaluation can grant: only defined permission bits (a group or
    ACL record with unknown bits loses just those); everything to a superuser;
    and to others through the "default" group, the groups assigned to the
    identity and the group of its verified username, so a display name alone
    never gives a group. *)
Theorem evaluation_bounds (w : W) (ident : St.Identity) (room : Types.Uuid) :
  (∀ su, Perm.from_bits (evaluate_identity_permissions w su ident room)
         = Some (evaluate_identity_permissions w su ident room)) ∧
  evaluate_identity_permissions w true ident room = Perm.ALL ∧
  (∀ g, g ∈ effective_groups ident ↔
     g = "default"%string ∨ g ∈ St.id_groups ident ∨ St.verified_username ident = Some g) ∧
  (∀ name, evaluate_identity_permissions w false (St.with_display_name (λ _, name) ident) room
           = evaluate_identity_permissions w false ident room).
Proof.
  split; [|split; [done|split; [intros g; apply elem_of_effective_groups|done]]].
  intros su. unfold Perm.from_bits.
  replace (N.ldiff _ _) with 0%N; [done|]. symmetry. apply N.bits_inj_0. intros i. rewrite N.ldiff_spec.
  destruct (N.testbit Perm.ALL i) eqn:E; [by rewrite andb_false_r|].
  by rewrite evaluate_defined.
Qed.
End acl.

Lemma room_chain_is_path_witness :
  chain_ids (St.rooms St.sample_data) St.lobby = [Types.ROOT_ROOM_UUID; St.lobby].
Proof.
  apply (room_chain_is_path (St.rooms St.sample_data) St.lobby [St.lobby; Types.ROOT_ROOM_UUID]).
  eapply anc_up; [|vm_compute; reflexivity|apply anc_root].
  intros E. apply (f_equal arr) in E. vm_compute in E. discriminate E.
Defined.

End Acl.
