(* ===== verification/Session.v ===== *)
(** Delivering the state and ending a connection: [send_server_state_to_client],
    [broadcast_server_state], [cleanup_client] and [evict_superseded_sessions]
    of [crates/server/src/handlers.rs], and the end of the primary stream in
    [crates/server/src/server.rs].

    A plugin's [on_disconnect] callback is the parameter [on_disconnect]. *)
From Stdlib Require Import NArith ZArith Lia String.
From stdpp Require Import base gmap strings list.
From S2P Require Import Prelude Permissions Proto Types Store Wire Persistence State World Acl.

Module Session.

Section session.
Context {T : Type} `{!KV T} `{!Persist.Codecs} `{!External}.
Abbreviation W := (Wld.World T).

(** ** Sending the state *)

Definition builtin : list string := ["default"; "admin"]%string.

Definition group_infos (p : Persist.Persistence T) : list Proto.GroupInfo :=
  map (λ e : string * Persist.PersistedGroup,
    Proto.mkGroupInfo e.1 (Persist.permissions e.2) (contains builtin e.1))
    (Persist.list_groups p).

Definition with_effective (perms : N) (r : Types.Room) : Types.Room :=
  Types.mkRoom (Types.room_id r) (Types.room_name r) (Types.room_parent r)
    (Types.room_description r) (Types.room_inherit_acl r) (Types.room_acls r) perms.

(** The message [client] gets: each room with the permissions it has there. *)
Definition server_state_for (w : W) (client : N) : Proto.ServerState :=
  Proto.mkServerState
    (map (λ r, Types.room_to_proto
      (with_effective (Acl.evaluate_user_permissions w client (Types.room_id r)) r))
      (St.rooms (Wld.data w)))
    (map Types.user_to_proto (Wld.build_user_list w))
    (group_infos (Wld.persistence w))
    (St.get_slash_commands (Wld.server w)).

Definition send_server_state_to_client (client : N) : ST W (result unit) :=
  hash ← gets (λ w, Wld.state_hash w (group_infos (Wld.persistence w)));
  msg ← gets (λ w, server_state_for w client);
  Wld.send_frame client hash (Proto.EvServerState msg).

Definition broadcast_server_state : ST W (result unit) :=
  clients ← gets (λ w, St.snapshot_clients (Wld.server w));
  for_each clients (λ client,
    slow ← gets (λ w, bool_decide (client ∈ Wld.stalled w));
    if slow : bool then Wld.close_conn client 0 "control stream stalled"
    else Wld.ignore (send_server_state_to_client client));;
  done_ok.

(** ** Ending a connection *)

Definition user_left (uid : N) : Proto.Update := Proto.UserLeft (Some (Proto.mkUserId uid)).

(** One round of the loop over a controller's participants. *)
Definition cleanup_participant (vu_id : N) : ST W unit :=
  present ← Wld.on_server (St.remove_client vu_id);
  if negb present then mret tt
  else
    Wld.set_data (St.remove_user_membership vu_id);;
    Wld.ignore (Wld.broadcast_state_update (user_left vu_id)).

Definition cleanup_client (h : N) : ST W unit :=
  is_controller ← gets (λ w, St.is_controller (Wld.handle_at w h));
  (if is_controller : bool then
     participant_ids ← gets (λ w, St.members_by_owner (Wld.server w) (St.Connection h));
     for_each participant_ids cleanup_participant
   else mret tt);;
  was_present ← Wld.on_server (St.remove_client h);
  Wld.set_data (St.remove_user_membership h);;
  Wld.set_server (St.remove_session h);;
  Wld.set_server (St.remove_voice_rate h);;
  authenticated ← gets (λ w, St.authenticated (Wld.handle_at w h));
  if was_present && authenticated && negb is_controller
  then Wld.ignore (Wld.broadcast_state_update (user_left h))
  else mret tt.

(** ** What a cleanup leaves *)

(** A member is found under its own id, and a client's handle is located there. *)
Definition wf_members (s : St.ServerState) : Prop :=
  ∀ k m, St.members s !! k = Some m →
    St.m_user_id m = k ∧ ∀ h, St.binding m = St.Client h → h = k.

Lemma members_by_owner_spec s o k :
  wf_members s → k ∈ St.members_by_owner s o ↔ St.is_participant_of s k o = true.
Proof.
  intros Hwf. unfold St.members_by_owner, St.is_participant_of. rewrite list_elem_of_fmap. split.
  - intros ([k' m] & -> & [Hin Ho]%elem_of_retain). apply elem_of_map_to_list in Hin. simpl in *.
    destruct (Hwf _ _ Hin) as [-> _]. by rewrite Hin.
  - destruct (St.members s !! k) as [m|] eqn:Em; [|done]. intros Ho. exists (k, m).
    split; [by destruct (Hwf _ _ Em)|]. apply elem_of_retain. by rewrite elem_of_map_to_list.
Qed.

Lemma members_by_owner_NoDup s o : wf_members s → NoDup (St.members_by_owner s o).
Proof.
  intros Hwf. unfold St.members_by_owner.
  assert ((λ e : N * St.Member, St.m_user_id e.2) <$> retain (λ e, St.owned_by o e.2) (map_to_list (St.members s))
          = fst <$> retain (λ e, St.owned_by o e.2) (map_to_list (St.members s))) as ->.
  { apply list_fmap_ext. intros i [k m] Hi. apply list_elem_of_lookup_2 in Hi.
    apply elem_of_retain in Hi as [Hin _]. apply elem_of_map_to_list in Hin. simpl. by destruct (Hwf _ _ Hin). }
  apply NoDup_fmap_retain, NoDup_fst_map_to_list.
Qed.

(** The parts of the server a cleanup of the users [gone] changes, except for
    sessions and rate limits. *)
Definition departed (gone : list N) (s s' : St.ServerState) : Prop :=
  (∀ k, St.members s' !! k = if bool_decide (k ∈ gone) then None else St.members s !! k) ∧
  (∀ u, St.get_user_room (St.state_data s') u =
        if bool_decide (u ∈ gone) then None else St.get_user_room (St.state_data s) u) ∧
  St.rooms (St.state_data s') = St.rooms (St.state_data s).

Lemma get_user_room_removed u v d :
  St.get_user_room (St.remove_user_membership u d) v = if (v =? u)%N then None else St.get_user_room d v.
Proof.
  unfold St.get_user_room. cbn [St.remove_user_membership St.with_memberships St.with_user_statuses St.memberships].
  apply St.assoc_retain_ne.
Qed.

Lemma cleanup_participants_run ids (w : W) :
  NoDup ids → (∀ k, k ∈ ids → is_Some (St.members (Wld.server w) !! k)) →
  let w' := (for_each ids cleanup_participant w).2 in
  departed ids (Wld.server w) (Wld.server w') ∧
  St.sessions (Wld.server w') = St.sessions (Wld.server w) ∧
  St.sessions_by_id (Wld.server w') = St.sessions_by_id (Wld.server w) ∧
  St.voice_rate_limits (Wld.server w') = St.voice_rate_limits (Wld.server w) ∧
  Wld.handles w' = Wld.handles w ∧ Wld.identities w' = Wld.identities w ∧
  Wld.persistence w' = Wld.persistence w.
Proof.
  revert w. induction ids as [|k ids IH]; intros w Hnd Hin; [done|].
  apply NoDup_cons in Hnd as [Hk Hnd]. intros w'.
  destruct (cleanup_participant k w) as [[] w1] eqn:E1.
  assert (w' = (for_each ids cleanup_participant w1).2) as Hw'
    by (unfold w'; cbn [for_each]; unfold mbind, ST_bind; by rewrite E1).
  clearbody w'. subst w'.
  assert (w1 = Wld.bcast (user_left k) (Wld.with_server (St.with_state_data (St.remove_user_membership k))
            (Wld.with_server (λ _, St.with_members (delete k) (Wld.server w)) w))) as ->.
  { unfold cleanup_participant in E1. revert E1. run. unfold St.remove_client at 1. cbn [fst snd].
    rewrite bool_decide_true by (apply Hin, list_elem_of_here). cbn [negb]. run. by intros [= <-]. }
  set (w1 := Wld.bcast _ _).
  assert (Wld.server w1 = St.with_state_data (St.remove_user_membership k) (St.with_members (delete k) (Wld.server w))) as Es
    by (unfold w1; by world).
  destruct (IH w1 Hnd) as ((H1 & H2 & H3) & H4 & H5 & H6 & H7 & H8 & H9).
  { intros j Hj. rewrite Es. cbn. rewrite lookup_delete_ne by (intros ->; done).
    apply Hin. by apply list_elem_of_further. }
  split; [split; [|split]|repeat split].
  - intros j. rewrite H1, Es. cbn. destruct (decide (j = k)) as [->|Hne].
    + rewrite lookup_delete_eq, (bool_decide_true (k ∈ k :: ids)) by apply list_elem_of_here. by destruct (bool_decide _).
    + rewrite lookup_delete_ne by done.
      by rewrite (bool_decide_ext (j ∈ k :: ids) (j ∈ ids)) by (by rewrite elem_of_cons_ne).
  - intros u. rewrite H2, Es. cbn [St.state_data St.with_state_data St.with_members]. rewrite get_user_room_removed.
    destruct (N.eqb_spec u k) as [->|Hne].
    + rewrite (bool_decide_true (k ∈ k :: ids)) by apply list_elem_of_here. by destruct (bool_decide _).
    + by rewrite (bool_decide_ext (u ∈ k :: ids) (u ∈ ids)) by (by rewrite elem_of_cons_ne).
  - by rewrite H3, Es.
  - by rewrite H4, Es.
  - by rewrite H5, Es.
  - by rewrite H6, Es.
  - rewrite H7. unfold w1. by world.
  - rewrite H8. unfold w1. by world.
  - rewrite H9. unfold w1. by world.
Qed.

(** Who leaves with connection [h]. *)
Definition leaving (w : W) (h : N) : list N :=
  if St.is_controller (Wld.handle_at w h) then St.members_by_owner (Wld.server w) (St.Connection h) else [].

(** The world after the participants are gone. *)
Definition without_participants (w : W) (h : N) : W :=
  (for_each (leaving w h) cleanup_participant w).2.

Lemma cleanup_client_run h (w : W) :
  let w1 := without_participants w h in
  let w2 := Wld.with_server (λ s, St.remove_voice_rate h (St.remove_session h
              (St.with_state_data (St.remove_user_membership h) (St.with_members (delete h) s)))) w1 in
  (cleanup_client h w).2 =
  if bool_decide (is_Some (St.members (Wld.server w1) !! h)) && St.authenticated (Wld.handle_at w1 h)
     && negb (St.is_controller (Wld.handle_at w h))
  then Wld.bcast (user_left h) w2 else w2.
Proof.
  cbv zeta. unfold cleanup_client, without_participants, leaving. unfold_goal_st.
  destruct (St.is_controller (Wld.handle_at w h)) eqn:Ec.
  - destruct (for_each _ cleanup_participant w) as [[] w1]. run. unfold St.remove_client. cbn [fst snd].
    match goal with |- context [if ?b then _ else _] => destruct b eqn:Eb end.
    + exfalso. by rewrite andb_false_r in Eb.
    + by rewrite andb_false_r.
  - cbn [for_each]. run. unfold St.remove_client. cbn [fst snd].
    match goal with |- context [if ?b then _ else _] => destruct b eqn:Eb end.
    + run. cbn in Eb |- *. unfold Wld.handle_at in *. cbn in Eb |- *. by rewrite Eb.
    + cbn in Eb |- *. unfold Wld.handle_at in *. cbn in Eb |- *. by rewrite Eb.
Qed.

Lemma departed_wf gone s s' : departed gone s s' → wf_members s → wf_members s'.
Proof. intros (H1 & _) Hwf k m Hm. rewrite H1 in Hm. destruct (bool_decide _); [done|]. by apply Hwf. Qed.

Lemma leaving_present w h k :
  wf_members (Wld.server w) → k ∈ leaving w h → is_Some (St.members (Wld.server w) !! k).
Proof.
  intros Hwf. unfold leaving. destruct (St.is_controller _); [|intros Hn; by apply elem_of_nil in Hn].
  rewrite members_by_owner_spec by done. unfold St.is_participant_of.
  by destruct (St.members _ !! k).
Qed.

Lemma leaving_NoDup w h : wf_members (Wld.server w) → NoDup (leaving w h).
Proof.
  intros Hwf. unfold leaving. destruct (St.is_controller _); [by apply members_by_owner_NoDup|apply NoDup_nil_2].
Qed.

Lemma remove_session_fields h s :
  St.members (St.remove_session h s) = St.members s ∧ St.state_data (St.remove_session h s) = St.state_data s ∧
  St.voice_rate_limits (St.remove_session h s) = St.voice_rate_limits s ∧
  St.sessions (St.remove_session h s) = delete h (St.sessions s).
Proof.
  unfold St.remove_session. destruct (St.sessions s !! h) eqn:E; [done|].
  by rewrite delete_id.
Qed.

(** The whole effect, up to the log and the connections. *)
Lemma cleanup_client_effect h (w : W) :
  wf_members (Wld.server w) →
  let w' := (cleanup_client h w).2 in
  departed (h :: leaving w h) (Wld.server w) (Wld.server w') ∧
  St.sessions (Wld.server w') = delete h (St.sessions (Wld.server w)) ∧
  St.voice_rate_limits (Wld.server w') = delete h (St.voice_rate_limits (Wld.server w)) ∧
  Wld.handles w' = Wld.handles w ∧ Wld.identities w' = Wld.identities w ∧
  Wld.persistence w' = Wld.persistence w.
Proof.
  intros Hwf. cbv zeta. rewrite cleanup_client_run. cbv zeta.
  destruct (cleanup_participants_run (leaving w h) w (leaving_NoDup w h Hwf) (λ k, leaving_present w h k Hwf))
    as ((H1 & H2 & H3) & H4 & _ & H6 & H7 & H8 & H9).
  fold (without_participants w h) in *. set (w1 := without_participants w h) in *.
  set (w2 := Wld.with_server _ w1).
  assert (departed (h :: leaving w h) (Wld.server w) (Wld.server w2) ∧
    St.sessions (Wld.server w2) = delete h (St.sessions (Wld.server w)) ∧
    St.voice_rate_limits (Wld.server w2) = delete h (St.voice_rate_limits (Wld.server w)) ∧
    Wld.handles w2 = Wld.handles w ∧ Wld.identities w2 = Wld.identities w ∧
    Wld.persistence w2 = Wld.persistence w) as Hw2.
  { unfold w2. cbn [Wld.server Wld.with_server Wld.handles Wld.identities Wld.persistence].
    match goal with |- context [St.remove_session h ?s0] => destruct (remove_session_fields h s0) as (R1 & R2 & R3 & R4) end.
    unfold departed. cbn [St.remove_voice_rate St.with_voice_rate_limits St.members St.state_data St.sessions St.voice_rate_limits].
    rewrite R1, R2, R3, R4. cbn [St.with_state_data St.with_members St.members St.state_data St.sessions St.voice_rate_limits].
    rewrite H4, H6. repeat split; try done.
    - intros k. destruct (decide (k = h)) as [->|Hne].
      + by rewrite lookup_delete_eq, bool_decide_true by apply list_elem_of_here.
      + rewrite lookup_delete_ne, H1 by done.
        by rewrite (bool_decide_ext (k ∈ h :: leaving w h) (k ∈ leaving w h)) by (by rewrite elem_of_cons_ne).
    - intros u. rewrite get_user_room_removed. destruct (N.eqb_spec u h) as [->|Hne].
      + by rewrite bool_decide_true by apply list_elem_of_here.
      + rewrite H2. by rewrite (bool_decide_ext (u ∈ h :: leaving w h) (u ∈ leaving w h)) by (by rewrite elem_of_cons_ne). }
  destruct (_ && _ && _); [|exact Hw2]. by world.
Qed.

(** Nobody is left to leave. *)
Lemma cleanup_client_leaving h (w : W) :
  wf_members (Wld.server w) → leaving (cleanup_client h w).2 h = [].
Proof.
  intros Hwf. destruct (cleanup_client_effect h w Hwf) as (Hd & _ & _ & Hh & _).
  pose proof (departed_wf _ _ _ Hd Hwf) as Hwf'. destruct Hd as (H1 & _).
  unfold leaving at 1. unfold Wld.handle_at. rewrite Hh. fold (Wld.handle_at w h).
  destruct (St.is_controller (Wld.handle_at w h)) eqn:Ec; [|done].
  destruct (St.members_by_owner _ _) as [|k l] eqn:El; [done|]. exfalso.
  assert (k ∈ St.members_by_owner (Wld.server (cleanup_client h w).2) (St.Connection h)) as Hk
    by (rewrite El; apply list_elem_of_here).
  rewrite members_by_owner_spec in Hk by done. unfold St.is_participant_of in Hk. rewrite H1 in Hk.
  case_bool_decide as Hg; [done|]. apply Hg. apply elem_of_cons. right.
  unfold leaving. rewrite Ec. by apply members_by_owner_spec.
Qed.

Lemma cleanup_client_grows h : keeps Wld.grows (cleanup_client h).
Proof. unfold cleanup_client, cleanup_participant. repeat grows_step. Qed.

(** ** Properties *)

(** Ending a connection removes the member, its membership, its session and
    its rate limiter, and, for a controller, every participant it drives; rooms
    and all other members stay as they were.  However many teardown paths run,
    the departure is announced once: a second cleanup sends nothing and changes
    nothing in the shared state. *)
Theorem cleanup_client_once (w : W) (h : N) :
  wf_members (Wld.server w) →
  let w' := (cleanup_client h w).2 in
  let gone k := k = h ∨ (St.is_controller (Wld.handle_at w h) = true ∧
                         St.is_participant_of (Wld.server w) k (St.Connection h) = true) in
  (∀ k, gone k → St.members (Wld.server w') !! k = None ∧ St.get_user_room (Wld.data w') k = None) ∧
  (∀ k, ¬ gone k → St.members (Wld.server w') !! k = St.members (Wld.server w) !! k ∧
                   St.get_user_room (Wld.data w') k = St.get_user_room (Wld.data w) k) ∧
  St.rooms (Wld.data w') = St.rooms (Wld.data w) ∧
  St.sessions (Wld.server w') = delete h (St.sessions (Wld.server w)) ∧
  St.voice_rate_limits (Wld.server w') = delete h (St.voice_rate_limits (Wld.server w)) ∧
  Wld.log (cleanup_client h w').2 = Wld.log w' ∧
  St.members (Wld.server (cleanup_client h w').2) = St.members (Wld.server w') ∧
  St.sessions (Wld.server (cleanup_client h w').2) = St.sessions (Wld.server w').
Proof.
  intros Hwf w' gone.
  destruct (cleanup_client_effect h w Hwf) as ((H1 & H2 & H3) & H4 & H5 & H6 & H7 & H8). fold w' in H1, H2, H3, H4, H5.
  assert (∀ k, k ∈ h :: leaving w h ↔ gone k) as Hgone.
  { intros k. unfold gone. rewrite elem_of_cons. unfold leaving.
    destruct (St.is_controller _); [rewrite members_by_owner_spec by done|rewrite elem_of_nil]; intuition congruence. }
  split; [|split; [|split; [done|split; [done|split; [done|]]]]].
  - intros k Hk%Hgone. unfold Wld.data. by rewrite H1, H2, bool_decide_true.
  - intros k Hk. rewrite <- Hgone in Hk. unfold Wld.data. by rewrite H1, H2, bool_decide_false.
  - rewrite cleanup_client_run. unfold without_participants.
    assert (leaving w' h = []) as -> by (by apply cleanup_client_leaving). cbn [for_each mret ST_ret snd].
    assert (St.members (Wld.server w') !! h = None) as Hm
      by (by rewrite H1, bool_decide_true by apply list_elem_of_here).
    rewrite Hm, (bool_decide_false (is_Some None)) by (by intros [? [=]]). cbn [andb].
    cbn [Wld.log Wld.with_server Wld.server].
    match goal with |- context [St.remove_session h ?s0] => destruct (remove_session_fields h s0) as (R1 & R2 & R3 & R4) end.
    cbn [St.remove_voice_rate St.with_voice_rate_limits St.members St.sessions]. rewrite R1, R4.
    cbn [St.with_state_data St.with_members St.members St.sessions]. split; [done|].
    split; [by rewrite delete_id|]. rewrite delete_id; [done|]. by rewrite H4, lookup_delete_eq.
Qed.

Section plugins.
Variable on_disconnect : N → ST W unit.

(** [handle.begin_teardown()]. *)
Definition begin_teardown (h : N) : ST W bool :=
  λ w, let '(won, hd) := St.begin_teardown (Wld.handle_at w h) in
       (won, Wld.with_handles (<[h := hd]>) w).

(** What a stream does when its read loop ends. *)
Definition end_of_stream (is_primary : bool) (h : N) : ST W unit :=
  if is_primary then
    won ← begin_teardown h;
    if won : bool then on_disconnect h;; cleanup_client h else mret tt
  else mret tt.

Definition superseded_reason : string := "Superseded by a new login with the same identity".

(** One round of the loop over the sessions with the same key. *)
Definition evict_one (username : string) (new_user_id old_id : N) : ST W unit :=
  if (old_id =? new_user_id)%N then mret tt
  else
    old ← gets (λ w, St.get_client (Wld.server w) old_id);
    match old with
    | None => mret tt
    | Some old =>
        name ← gets (λ w, Wld.get_username w old);
        if negb (String.eqb name username) then mret tt
        else
          won ← begin_teardown old;
          if negb won then mret tt
          else
            Wld.ignore (Wld.send_frame old [] (Proto.UserKicked old_id superseded_reason "server"));;
            Wld.close_conn old 3 "superseded";;
            on_disconnect old;;
            cleanup_client old
    end.

Definition evict_superseded_sessions (public_key : Types.PublicKey) (username : string)
    (new_user_id : N) : ST W unit :=
  ids ← gets (λ w, St.user_ids_with_key (Wld.server w) public_key);
  for_each ids (evict_one username new_user_id).
End plugins.
End session.

(** ** A small concrete server for the witnesses *)

(** One moderator (user 1, in Root), one user (2, in the lobby), one controller
    (3) with a participant (4). *)
Definition sample_external : External := {|
  ext_blake3 b := array_of_N 32 (of_le_bytes b);
  ext_sha256 b := array_of_N 32 (of_le_bytes b);
  ext_encode_state s := flat_map (λ r, as_bytes (Proto.ri_name r)) (Proto.ss_rooms s);
  ext_valid_key _ := true;
  ext_verify k m sig := bool_decide (arr sig = arr k ++ arr k);
  ext_bcrypt_verify p h := Ok (String.eqb p h);
  ext_fmt_permissions _ := EmptyString;
|}.

Definition sample_member (k : N) : St.Member := St.mkMember k k (St.Client k).

Definition sample_server : St.ServerState :=
  St.mkServerState
    {[ 1%N := sample_member 1; 2%N := sample_member 2; 3%N := sample_member 3;
       4%N := St.mkMember 4 4 (St.Owned (St.Connection 3)) ]}
    (St.set_user_room 4 St.lobby St.sample_data) 5 ∅ ∅ ∅ [] ∅ None ∅ 1 None.

Definition sample_handle (k : N) (controller : bool) : St.ClientHandle :=
  St.mkClientHandle (Some (array_of_N 32 k)) true controller false false false false k.

Definition sample_world : Wld.World Persist.memory :=
  Wld.mkWorld
    {[ 1%N := sample_handle 1 false; 2%N := sample_handle 2 false; 3%N := sample_handle 3 true ]}
    {[ 1%N := St.mkIdentity "mod" (Some "mod"%string) None ["admin"%string];
       2%N := St.mkIdentity "user" None None []; 3%N := St.mkIdentity "bridge" None None [];
       4%N := St.mkIdentity "guest" None (Some "Mumble"%string) [] ]}
    (St.with_sessions (λ _, {[ 2%N := St.mkSessionEntry (array_of_N 32 2) (array_of_N 32 12)
                                       (array_of_N 32 22) 0 1 None ]}) sample_server)
    (@Persist.ensure_default_groups _ _ Persist.codecs Persist.empty_store).2 ∅ ∅ [].

Lemma sample_wf_members : wf_members (Wld.server sample_world).
Proof.
  intros k m H. cbn in H.
  repeat (apply lookup_insert_Some in H as [[<- <-]|[_ H]];
          [split; [reflexivity|by intros h [= <-]]|]).
  apply lookup_singleton_Some in H as [<- <-]. split; [reflexivity|done].
Qed.

Lemma cleanup_client_once_witness :
  wf_members (Wld.server sample_world) ∧
  St.members (Wld.server (@cleanup_client _ sample_external 3 sample_world).2) !! 4%N = None.
Proof.
  split; [exact sample_wf_members|].
  apply (proj1 (@cleanup_client_once _ sample_external sample_world 3 sample_wf_members)).
  right. split; reflexivity.
Defined.

End Session.
