(* ===== verification/Ops.v ===== *)
(** The admin mutations shared by the protocol handlers and the web control
    plane ([crates/server/src/ops.rs]).

    Each [apply_*] is a value of [ST (World T) (result _)]; the wall clock of
    [apply_ban] and the random uuid of [apply_create_room] are arguments.  The
    write gate of [apply_set_room_acl] orders concurrent calls; calls are
    sequential here. *)
From Stdlib Require Import NArith ZArith Lia String.
From stdpp Require Import base gmap strings list pretty.
From S2P Require Import Prelude Permissions Proto Types Store Wire Persistence State World Acl Session.

Module Ops.
Open Scope string_scope.
Open Scope list_scope.

Section ops.
Context {T : Type} `{!KV T} `{!Persist.Codecs} `{!External}.
Abbreviation W := (Wld.World T).

Definition BUILTIN_GROUPS : list string := ["default"; "admin"].

(** [x.ok_or(msg)?]. *)
Definition ok_or {A B} (o : option A) (e : string) (k : A → ST W (result B)) : ST W (result B) :=
  match o with Some a => k a | None => mret (Err e) end.

(** [m.map_err(|e| format!("{prefix}{e}"))?]. *)
Definition map_err {A} (prefix : string) (m : ST W (result A)) : ST W (result A) :=
  λ w, let '(r, w') := m w in
       (match r with Ok a => Ok a | Err e => Err (prefix +:+ e) end, w').

(** ** User moderation *)

Definition not_a_client_reason (w : W) (target_user_id : N) (action : string) : string :=
  match St.get_member (Wld.server w) target_user_id with
  | Some _ => "Cannot " +:+ action +:+ " a controller-driven participant directly; moderate it through its controller"
  | None => "User not found"
  end.

Definition apply_kick (target_user_id : N) (reason actor : string) : ST W (result string) :=
  target ← gets (λ w, St.get_client (Wld.server w) target_user_id);
  why ← gets (λ w, not_a_client_reason w target_user_id "kick");
  ok_or target why (λ h,
  superuser ← gets (λ w, St.is_superuser (Wld.handle_at w h));
  controller ← gets (λ w, St.is_controller (Wld.handle_at w h));
  if superuser : bool then mret (Err "Cannot kick a superuser")
  else if controller : bool then mret (Err "Cannot kick a bridge connection")
  else
    target_username ← gets (λ w, Wld.get_username w h);
    Wld.ignore (Wld.send_frame h [] (Proto.UserKicked target_user_id reason actor));;
    Wld.close_conn h 2 "kicked";;
    Session.cleanup_client h;;
    mret (Ok ("Kicked '" +:+ target_username +:+ "'"))).

Definition duration_desc (duration_seconds : N) : string :=
  if (duration_seconds =? 0)%N then "permanent" else pretty duration_seconds +:+ "s".

Definition ban_reason (actor reason : string) (duration_seconds : N) : string :=
  let head := "Banned by " +:+ actor +:+ " (" +:+ duration_desc duration_seconds +:+ ")" in
  if str_is_empty reason then head else head +:+ ": " +:+ reason.

Definition ensure_banned_group : ST W unit :=
  banned_group ← gets (λ w, Persist.get_group (Wld.persistence w) "banned");
  match banned_group with
  | Some _ => mret tt
  | None => Wld.ignore (Wld.on_persist (Persist.create_group "banned" Perm.BANNED))
  end.

(** The live membership of a banned client. *)
Definition push_banned (h : N) : ST W unit :=
  groups ← gets (λ w, St.id_groups (Wld.identity_of w h));
  if contains groups "banned" then mret tt
  else
    identity ← gets (λ w, St.h_identity (Wld.handle_at w h));
    Wld.set_identity identity (St.with_id_groups (λ _, groups ++ ["banned"])).

Definition apply_ban (now_secs target_user_id duration_seconds : N) (reason actor : string)
    : ST W (result string) :=
  target ← gets (λ w, St.get_client (Wld.server w) target_user_id);
  why ← gets (λ w, not_a_client_reason w target_user_id "ban");
  ok_or target why (λ h,
  superuser ← gets (λ w, St.is_superuser (Wld.handle_at w h));
  controller ← gets (λ w, St.is_controller (Wld.handle_at w h));
  if superuser : bool then mret (Err "Cannot ban a superuser")
  else if controller : bool then mret (Err "Cannot ban a bridge connection")
  else
    ensure_banned_group;;
    key ← gets (λ w, St.get_user_public_key (Wld.server w) target_user_id);
    ok_or key "Cannot resolve user's public key" (λ target_key,
    Wld.ignore (Wld.on_persist (Persist.add_user_to_group target_key "banned"));;
    Wld.ignore (Wld.on_persist (Persist.set_ban target_key
      (Persist.mkPersistedBan (Some now_secs) duration_seconds reason actor)));;
    push_banned h;;
    target_username ← gets (λ w, Wld.get_username w h);
    Wld.ignore (Wld.send_frame h []
      (Proto.UserKicked target_user_id (ban_reason actor reason duration_seconds) actor));;
    Wld.close_conn h 3 "banned";;
    Session.cleanup_client h;;
    mret (Ok ("Banned '" +:+ target_username +:+ "' (" +:+ duration_desc duration_seconds +:+ ")")))).

(** ** Registration *)

Definition apply_register_user (target_user_id : N) : ST W (result string) :=
  key ← gets (λ w, St.get_user_public_key (Wld.server w) target_user_id);
  ok_or key "User not found" (λ target_key,
  client ← gets (λ w, St.get_client (Wld.server w) target_user_id);
  ok_or client "User not found" (λ h,
  username ← gets (λ w, Wld.get_username w h);
  registered ← gets (λ w, Persist.get_registered_user (Wld.persistence w) target_key);
  match registered with
  | Some _ => mret (Err "User already registered")
  | None =>
      group ← gets (λ w, Persist.get_group (Wld.persistence w) username);
      if contains BUILTIN_GROUPS username || bool_decide (is_Some group)
      then mret (Err "Username conflicts with an existing permission group")
      else
        map_err "Registration failed: "
          (Wld.on_persist (Persist.register_user target_key (Persist.mkRegisteredUser username None))) ;?
        mret (Ok ("Registered '" +:+ username +:+ "' successfully"))
  end)).

Definition apply_unregister_user (target_user_id : N) : ST W (result string) :=
  key ← gets (λ w, St.get_user_public_key (Wld.server w) target_user_id);
  ok_or key "User not found" (λ target_key,
  username ← gets (λ w, match St.get_client (Wld.server w) target_user_id with
                        | Some c => Wld.get_username w c
                        | None => "user"
                        end);
  map_err "Unregistration failed: " (Wld.on_persist (Persist.unregister_user target_key)) ;?
  mret (Ok ("Unregistered '" +:+ username +:+ "' successfully"))).

(** ** Rooms *)

Definition apply_create_room (new_uuid : Types.Uuid) (name : string)
    (parent_uuid : option Types.Uuid) (description : option string) : ST W (result Types.Uuid) :=
  unknown ← gets (λ w, match parent_uuid with
                       | Some parent => negb (St.room_exists (Wld.data w) parent)
                       | None => false
                       end);
  if unknown : bool then mret (Err "Parent room does not exist")
  else
    let parent := default Types.ROOT_ROOM_UUID parent_uuid in
    Wld.set_data (St.create_room_with_parent_desc new_uuid name parent description);;
    Wld.ignore (Wld.on_persist (Persist.save_room new_uuid
      (Persist.mkPersistedRoom name parent_uuid (default EmptyString description) true)));;
    map_err "Failed to broadcast room creation: "
      (Wld.broadcast_state_update (Proto.RoomCreated
        (Some (Types.room_to_proto (St.new_room new_uuid name parent description))))) ;?
    mret (Ok new_uuid).

(** [reevaluate_member_mute]. *)
Definition reevaluate_member_mute (member_id : N) (room : Types.Uuid) : ST W unit :=
  client ← gets (λ w, St.get_client (Wld.server w) member_id);
  match client with
  | None => mret tt
  | Some h =>
      speak_perms ← gets (λ w, Acl.evaluate_user_permissions w h room);
      manually_muted ← gets (λ w, St.manually_server_muted (Wld.handle_at w h));
      was_muted ← gets (λ w, St.server_muted (Wld.handle_at w h));
      let should_mute := negb (Perm.contains speak_perms Perm.SPEAK) || manually_muted in
      if Bool.eqb should_mute was_muted then mret tt
      else
        Wld.set_handle h (St.with_server_muted (λ _, should_mute));;
        status ← gets (λ w, St.get_user_status (Wld.data w) member_id);
        elevated ← gets (λ w, St.is_superuser (Wld.handle_at w h));
        Wld.ignore (Wld.broadcast_state_update (Proto.UserStatusChanged
          (Some (Proto.mkUserId member_id)) (St.us_is_muted status) (St.us_is_deafened status)
          should_mute elevated))
  end.

(** One round of the loop that reparents the children of a deleted room. *)
Definition reparent_child (new_parent child : Types.Uuid) : ST W (result unit) :=
  Wld.ignore (Wld.on_data (St.move_room child new_parent));;
  room ← gets (λ w, Persist.get_room (Wld.persistence w) child);
  match room with
  | Some room =>
      Wld.ignore (Wld.on_persist (Persist.save_room child
        (Persist.mkPersistedRoom (Persist.name room) (Some new_parent)
           (Persist.description room) (Persist.permanent room))))
  | None => mret tt
  end;;
  map_err "Failed to broadcast child reparent: "
    (Wld.broadcast_state_update (Proto.RoomMoved
      (Some (Types.room_id_from_uuid child)) (Some (Types.room_id_from_uuid new_parent)))).

Definition apply_delete_room (room_uuid : Types.Uuid) : ST W (result string) :=
  if bool_decide (room_uuid = Types.ROOT_ROOM_UUID) then mret (Err "Cannot delete the Root room")
  else
    room_name ← gets (λ w, match List.find (St.has_room_id room_uuid) (St.rooms (Wld.data w)) with
                           | Some r => Types.room_name r
                           | None => "room"
                           end);
    heal ← gets (λ w, St.room_parent_and_children (Wld.data w) room_uuid);
    match heal with
    | Some (new_parent, children) => try_for_each children (reparent_child new_parent)
    | None => done_ok
    end ;?
    displaced_members ← gets (λ w, St.get_room_members (Wld.data w) room_uuid);
    deleted ← Wld.on_data (St.delete_room room_uuid);
    if negb deleted then mret (Err "Room not found")
    else
      Wld.ignore (Wld.on_persist (Persist.delete_room room_uuid));;
      Wld.ignore (Wld.on_persist (Persist.delete_room_acl room_uuid));;
      map_err "Failed to broadcast room deletion: "
        (Wld.broadcast_state_update (Proto.RoomDeleted
          (Some (Types.room_id_from_uuid room_uuid))
          (Some (Types.room_id_from_uuid Types.ROOT_ROOM_UUID)))) ;?
      (for_each displaced_members (λ member_id,
         reevaluate_member_mute member_id Types.ROOT_ROOM_UUID);;
       mret (Ok room_name)).

(** ** Permission groups *)

Definition has_colon (s : string) : bool := existsb (λ b, bool_decide (b = Byte.x3a)) (as_bytes s).

Definition group_changed (name : string) (permissions : N) (is_builtin deleted : bool) : Proto.Update :=
  Proto.GroupChanged (Some (Proto.mkGroupInfo name permissions is_builtin)) deleted.

Definition apply_create_group (name : string) (permissions : N) : ST W (result string) :=
  if str_is_empty name then mret (Err "Group name cannot be empty")
  else if has_colon name then mret (Err "Group name cannot contain ':'")
  else if contains BUILTIN_GROUPS name then mret (Err "Cannot create built-in groups")
  else
    existing ← gets (λ w, Persist.get_group (Wld.persistence w) name);
    clash ← gets (λ w, Persist.is_username_registered (Wld.persistence w) name);
    match existing with
    | Some _ => mret (Err "Group already exists")
    | None =>
        if clash : bool then mret (Err "Group name conflicts with a registered username")
        else
          map_err "Failed: " (Wld.on_persist (Persist.create_group name permissions)) ;?
          (Wld.ignore (Wld.broadcast_state_update (group_changed name permissions false false));;
           mret (Ok ("Created group '" +:+ name +:+ "'")))
    end.

(** One round of the loop that scrubs a deleted group from the live clients. *)
Definition scrub_client (name : string) (client : N) : ST W unit :=
  groups ← gets (λ w, St.id_groups (Wld.identity_of w client));
  if contains groups name then
    identity ← gets (λ w, St.h_identity (Wld.handle_at w client));
    Wld.set_identity identity (St.with_id_groups (λ _, retain (λ g, negb (String.eqb g name)) groups));;
    Wld.ignore (Wld.broadcast_state_update (Proto.UserGroupChanged client name false 0))
  else mret tt.

Definition apply_delete_group (name : string) : ST W (result string) :=
  if contains BUILTIN_GROUPS name then mret (Err "Cannot delete built-in groups")
  else
    clients ← gets (λ w, St.snapshot_clients (Wld.server w));
    for_each clients (scrub_client name);;
    Wld.on_persist (Persist.remove_group_from_all_users name);;
    (map_err "Failed: " (Wld.on_persist (Persist.delete_group name)) ;?
     (Wld.ignore (Wld.broadcast_state_update (group_changed name 0 false true));;
      mret (Ok ("Deleted group '" +:+ name +:+ "'")))).

Definition apply_modify_group (name : string) (permissions : N) : ST W (result string) :=
  r ← Wld.on_persist (Persist.modify_group name permissions);
  match r with
  | Ok false => mret (Err "Group not found")
  | Err e => mret (Err ("Failed: " +:+ e))
  | Ok true =>
      Wld.ignore (Wld.broadcast_state_update
        (group_changed name permissions (contains BUILTIN_GROUPS name) false));;
      mret (Ok ("Modified group '" +:+ name +:+ "'"))
  end.

Definition apply_toggle_group_permission (name : string) (bits : N) (enable : bool)
    : ST W (result string) :=
  if (bits =? 0)%N then mret (Err "No permission bits specified")
  else match Perm.from_bits bits with
  | None => mret (Err "Unknown permission bits")
  | Some _ =>
      r ← Wld.on_persist (Persist.toggle_group_permission name bits enable);
      match r with
      | Ok (Some new_permissions) =>
          Wld.ignore (Wld.broadcast_state_update
            (group_changed name new_permissions (contains BUILTIN_GROUPS name) false));;
          mret (Ok ("Modified group '" +:+ name +:+ "'"))
      | Ok None => mret (Err "Group not found")
      | Err e => mret (Err ("Failed: " +:+ e))
      end
  end.

(** One round of the loop that mirrors a membership change onto live clients. *)
Definition mirror_client (public_key : Types.PublicKey) (group : string) (add : bool)
    (expires_at : N) (client : N) : ST W unit :=
  key ← gets (λ w, St.get_user_public_key (Wld.server w) client);
  if negb (bool_decide (key = Some public_key)) then mret tt
  else
    groups ← gets (λ w, St.id_groups (Wld.identity_of w client));
    let new_groups := if add then push_unique group groups
                      else retain (λ g, negb (String.eqb g group)) groups in
    (if Nat.eqb (List.length new_groups) (List.length groups) then mret tt
     else
       identity ← gets (λ w, St.h_identity (Wld.handle_at w client));
       Wld.set_identity identity (St.with_id_groups (λ _, new_groups)));;
    Wld.ignore (Wld.broadcast_state_update (Proto.UserGroupChanged client group add expires_at)).

Definition apply_set_user_group_by_key (public_key : Types.PublicKey) (group : string) (add : bool)
    (expires_at : N) : ST W (result string) :=
  is_name ← gets (λ w, Persist.is_username_registered (Wld.persistence w) group);
  existing ← gets (λ w, Persist.get_group (Wld.persistence w) group);
  if add && is_name then mret (Err ("'" +:+ group +:+ "' is a registered username, not a group"))
  else if add && negb (contains BUILTIN_GROUPS group) && negb (bool_decide (is_Some existing))
  then mret (Err ("Group '" +:+ group +:+ "' does not exist"))
  else
    map_err "Failed to persist group membership: " (Wld.on_persist
      (if add then Persist.add_user_to_group_with_expiry public_key group expires_at
       else Persist.remove_user_from_group public_key group)) ;?
    (clients ← gets (λ w, St.snapshot_clients (Wld.server w));
     for_each clients (mirror_client public_key group add expires_at);;
     mret (Ok ((if add then "Added" else "Removed") +:+ " user " +:+ (if add then "to" else "from")
               +:+ " group '" +:+ group +:+ "'"))).

Definition apply_set_user_group (target_user_id : N) (group : string) (add : bool) (expires_at : N)
    : ST W (result string) :=
  key ← gets (λ w, St.get_user_public_key (Wld.server w) target_user_id);
  ok_or key "User is not connected" (λ key, apply_set_user_group_by_key key group add expires_at).

Definition apply_add_controller (public_key : Types.PublicKey) : ST W (result string) :=
  existing ← gets (λ w, Persist.get_group (Wld.persistence w) "controllers");
  match existing with
  | None => _ ←? apply_create_group "controllers" Perm.MANAGE_PARTICIPANTS; done_ok
  | Some _ => done_ok
  end ;?
  apply_set_user_group_by_key public_key "controllers" true 0 ;?
  mret (Ok "Added key to controllers group (grants MANAGE_PARTICIPANTS)").

Definition sweep_expired_memberships (now_secs : N) : ST W nat :=
  expired ← Wld.on_persist (Persist.sweep_expired_memberships now_secs);
  for_each expired (λ '(public_key, group),
    clients ← gets (λ w, St.snapshot_clients (Wld.server w));
    for_each clients (mirror_client public_key group false 0));;
  mret (List.length expired).

(** ** Room ACLs *)

Definition ACL_CONFLICT_MSG : string :=
  "Room ACL changed while you were editing — reopen the editor to load the latest rules and retry".

Definition acl_entry_of_persisted (e : Persist.PersistedAclEntry) : Types.RoomAclEntry :=
  Types.mkRoomAclEntry (Persist.pa_group e) (Persist.pa_grant e) (Persist.pa_deny e)
    (Persist.pa_apply_here e) (Persist.pa_apply_subs e).

Definition acl_entry_to_persisted (e : Types.RoomAclEntry) : Persist.PersistedAclEntry :=
  Persist.mkPersistedAclEntry (Types.ae_group e) (Types.ae_grant e) (Types.ae_deny e)
    (Types.ae_apply_here e) (Types.ae_apply_subs e).

Definition current_room_acl_version (p : Persist.Persistence T) (room_uuid : Types.Uuid) : N :=
  match Persist.get_room_acl p room_uuid with
  | Some acl => Wire.room_acl_version ext_blake3 (Persist.pa_inherit_acl acl)
                  (map acl_entry_of_persisted (Persist.pa_entries acl))
  | None => Wire.room_acl_version ext_blake3 true []
  end.

Definition apply_set_room_acl (room_uuid : Types.Uuid) (inherit_acl : bool)
    (entries : list Types.RoomAclEntry) (base_version : N) : ST W (result string) :=
  current ← gets (λ w, current_room_acl_version (Wld.persistence w) room_uuid);
  if negb (base_version =? 0)%N && negb (base_version =? current)%N
  then mret (Err ACL_CONFLICT_MSG)
  else
    found ← Wld.on_data (St.set_room_acl room_uuid inherit_acl entries);
    if negb found then mret (Err "Room not found")
    else
      saved ← Wld.on_persist (Persist.set_room_acl room_uuid
        (Persist.mkPersistedRoomAcl inherit_acl (map acl_entry_to_persisted entries)));
      match saved with
      | Err _ => mret (Err "Failed to persist ACL")
      | Ok _ =>
          map_err "Failed to broadcast ACL change: "
            (Wld.broadcast_state_update (Proto.RoomAclChanged
              (Some (Types.room_id_from_uuid room_uuid)) inherit_acl
              (map Types.acl_entry_to_proto entries))) ;?
          (members ← gets (λ w, St.get_room_members (Wld.data w) room_uuid);
           for_each members (λ member_id, reevaluate_member_mute member_id room_uuid);;
           mret (Ok "Room ACL updated"))
      end.

(** The load at start-up: [hydrate_room_acls] of state.rs. *)
Definition hydrate_room_acls : ST W unit :=
  rooms ← gets (λ w, St.rooms (Wld.data w));
  for_each rooms (λ room,
    acl ← gets (λ w, Persist.get_room_acl (Wld.persistence w) (Types.room_id room));
    match acl with
    | Some acl =>
        Wld.ignore (Wld.on_data (St.set_room_acl (Types.room_id room) (Persist.pa_inherit_acl acl)
          (map acl_entry_of_persisted (Persist.pa_entries acl))))
    | None => mret tt
    end).

(** ** Re-evaluated mutes *)

Lemma map_err_run {A} pre (m : ST W (result A)) w :
  map_err pre m w =
  (match (m w).1 with Ok a => Ok a | Err e => Err (pre +:+ e) end, (m w).2).
Proof. unfold map_err. by destruct (m w). Qed.

(** Everything but the mute flags, the connections and the log. *)
Definition but_mutes (w w' : W) : Prop :=
  Wld.server w' = Wld.server w ∧ Wld.identities w' = Wld.identities w ∧
  Wld.persistence w' = Wld.persistence w ∧
  ∀ h, St.with_server_muted (λ _, false) (Wld.handle_at w' h) =
       St.with_server_muted (λ _, false) (Wld.handle_at w h).

#[local] Instance but_mutes_preorder : PreOrder but_mutes.
Proof.
  split; [by intros w|]. intros w1 w2 w3 (H1 & H2 & H3 & H4) (E1 & E2 & E3 & E4).
  split; [congruence|split; [congruence|split; [congruence|]]]. intros h. by rewrite E4.
Qed.

Definition should_mute (w : W) (h : N) (room : Types.Uuid) : bool :=
  negb (Perm.contains (Acl.evaluate_user_permissions w h room) Perm.SPEAK)
  || St.manually_server_muted (Wld.handle_at w h).

Lemma but_mutes_fields w w' h :
  but_mutes w w' →
  St.is_superuser (Wld.handle_at w' h) = St.is_superuser (Wld.handle_at w h) ∧
  St.manually_server_muted (Wld.handle_at w' h) = St.manually_server_muted (Wld.handle_at w h) ∧
  St.h_identity (Wld.handle_at w' h) = St.h_identity (Wld.handle_at w h).
Proof.
  intros (_ & _ & _ & Hm). specialize (Hm h).
  destruct (Wld.handle_at w' h), (Wld.handle_at w h). cbn in *. by injection Hm.
Qed.

Lemma but_mutes_should w w' h room : but_mutes w w' → should_mute w' h room = should_mute w h room.
Proof.
  intros Hb. destruct (but_mutes_fields w w' h Hb) as (E1 & E2 & E3).
  destruct Hb as (B1 & B2 & B3 & _).
  unfold should_mute, Acl.evaluate_user_permissions, Acl.evaluate_identity_permissions,
    Acl.build_room_chain_owned, Wld.identity_of, Wld.identity_at, Wld.data.
  by rewrite E1, E2, E3, B1, B2, B3.
Qed.

(** What one re-evaluation does to the flags. *)
Lemma reevaluate_run member_id room (w : W) :
  let w' := (reevaluate_member_mute member_id room w).2 in
  but_mutes w w' ∧
  (∀ h, St.server_muted (Wld.handle_at w' h) = St.server_muted (Wld.handle_at w h) ∨
        St.server_muted (Wld.handle_at w' h) = should_mute w h room) ∧
  (∀ h, St.get_client (Wld.server w) member_id = Some h →
        St.server_muted (Wld.handle_at w' h) = should_mute w h room).
Proof.
  cbv zeta. unfold reevaluate_member_mute. unfold_goal_st.
  destruct (St.get_client (Wld.server w) member_id) as [h|] eqn:Eh; cbn [snd].
  2: { split; [done|]. split; [by left|by intros h [=]]. }
  fold (should_mute w h room).
  destruct (Bool.eqb _ _) eqn:Eq; cbn [snd].
  - apply Bool.eqb_prop in Eq. fold (should_mute w h room) in Eq. split; [done|].
    split; [by left|]. intros h' [= <-]. by rewrite <- Eq.
  - run. fold (should_mute w h room).
    set (w1 := Wld.with_handles _ w).
    assert (∀ h', Wld.handle_at w1 h' =
      if decide (h' = h) then St.with_server_muted (λ _, should_mute w h room) (Wld.handle_at w h)
      else Wld.handle_at w h') as Hw1.
    { intros h'. unfold Wld.handle_at at 1. cbn. destruct (decide (h' = h)) as [->|Hne].
      - by rewrite lookup_insert_eq.
      - by rewrite lookup_insert_ne by congruence. }
    split; [|split].
    + unfold but_mutes. world. split; [done|split; [done|split; [done|]]]. intros h'. world. rewrite Hw1. by destruct (decide (h' = h)) as [->|].
    + intros h'. world. rewrite Hw1. destruct (decide (h' = h)) as [->|]; [by right|by left].
    + intros h' [= <-]. world. by rewrite Hw1, decide_True.
Qed.

(** A loop of them leaves every visited client with the mute it should have. *)
Lemma reevaluate_loop members room (w : W) :
  let w' := (for_each members (λ m, reevaluate_member_mute m room) w).2 in
  but_mutes w w' ∧
  (∀ h, St.server_muted (Wld.handle_at w' h) = St.server_muted (Wld.handle_at w h) ∨
        St.server_muted (Wld.handle_at w' h) = should_mute w h room) ∧
  (∀ m h, m ∈ members → St.get_client (Wld.server w) m = Some h →
        St.server_muted (Wld.handle_at w' h) = should_mute w' h room).
Proof.
  revert w. induction members as [|m members IH]; intros w w'.
  { split; [done|]. split; [by left|]. intros m h Hm. by apply elem_of_nil in Hm. }
  destruct (reevaluate_run m room w) as (R1 & R2 & R3).
  destruct (reevaluate_member_mute m room w) as [[] w1] eqn:E1. cbn [snd] in *.
  assert (w' = (for_each members (λ m, reevaluate_member_mute m room) w1).2) as Hw'
    by (unfold w'; cbn [for_each]; unfold mbind, ST_bind; by rewrite E1).
  clearbody w'. subst w'. destruct (IH w1) as (I1 & I2 & I3).
  split; [by etrans|]. split.
  - intros h. destruct (I2 h) as [->| ->]; [apply R2|]. right. by apply but_mutes_should.
  - intros m' h [->|Hm']%elem_of_cons Hc.
    + rewrite (but_mutes_should w1) by done. destruct (I2 h) as [->| ->]; [|done].
      rewrite (but_mutes_should w) by done. by apply R3.
    + apply (I3 m'); [done|]. by destruct R1 as (-> & _).
Qed.

(** ** Room ACLs *)

(** What the stored record of a room says, and what the memory says. *)
Definition stored_acl (p : Persist.Persistence T) (r : Types.Uuid) : bool * list Types.RoomAclEntry :=
  match Persist.get_room_acl p r with
  | Some acl => (Persist.pa_inherit_acl acl, map acl_entry_of_persisted (Persist.pa_entries acl))
  | None => (true, [])
  end.
Definition acl_mirror (w : W) : Prop :=
  ∀ r x, St.find_room (Wld.data w) r = Some x →
         (Types.room_inherit_acl x, Types.room_acls x) = stored_acl (Wld.persistence w) r.

Lemma current_version_stored p r :
  current_room_acl_version p r = Wire.room_acl_version ext_blake3 (stored_acl p r).1 (stored_acl p r).2.
Proof. unfold current_room_acl_version, stored_acl. by destruct (Persist.get_room_acl p r). Qed.

Lemma map_acl_entries es : map acl_entry_of_persisted (map acl_entry_to_persisted es) = es.
Proof. apply Types.map_id_ext. by intros []. Qed.

Context `{!KVLaws T} `{!Persist.CodecsLaws}.

Lemma set_room_acl_store i a p :
  (Persist.set_room_acl i a p).1 = Ok tt ∧
  ∀ i', Persist.get_room_acl (Persist.set_room_acl i a p).2 i' =
        if decide (i' = i) then Some a else Persist.get_room_acl p i'.
Proof.
  unfold Persist.set_room_acl. rewrite serialize_encoded. split; [apply Persist.on_insert|].
  intros i'. rewrite !Persist.get_room_acl_view, Persist.on_insert_view, decide_True by done.
  destruct (decide (i' = i)) as [->|Hne]; [by rewrite view_record_insert|].
  rewrite view_record_insert_ne; [done|]. by rewrite Persist.arr_inj.
Qed.

(** The world an accepted save reaches before the mutes are re-evaluated. *)
Definition saved_acl (room : Types.Uuid) (inh : bool) (es : list Types.RoomAclEntry) (w : W) : W :=
  Wld.with_persistence
    (λ p, (Persist.set_room_acl room (Persist.mkPersistedRoomAcl inh (map acl_entry_to_persisted es)) p).2)
    (Wld.with_server (St.with_state_data (λ d, (St.set_room_acl room inh es d).2)) w).

Lemma apply_set_room_acl_run room inh es base (w : W) :
  let current := current_room_acl_version (Wld.persistence w) room in
  apply_set_room_acl room inh es base w =
  if negb (base =? 0)%N && negb (base =? current)%N then (Err ACL_CONFLICT_MSG, w)
  else if negb (bool_decide (room ∈ St.room_ids (Wld.data w))) then (Err "Room not found", w)
  else
    let w1 := Wld.bcast (Proto.RoomAclChanged (Some (Types.room_id_from_uuid room)) inh
                (map Types.acl_entry_to_proto es)) (saved_acl room inh es w) in
    (Ok "Room ACL updated",
     (for_each (St.get_room_members (Wld.data w1) room) (λ m, reevaluate_member_mute m room) w1).2).
Proof.
  cbv zeta. unfold apply_set_room_acl. unfold_goal_st. destruct (_ && _); [done|].
  run. case_bool_decide as Hin; cbn [negb].
  - assert ((St.set_room_acl room inh es (Wld.data w)).1 = true) as ->.
    { unfold St.set_room_acl. edestruct (St.update_room_keeps room) as (_ & _ & _ & ->); [|by apply bool_decide_true].
      by intros []. }
    cbn [negb]. run. rewrite (proj1 (set_room_acl_store _ _ _)). rewrite map_err_run. run.
    unfold saved_acl. destruct w. cbn. by destruct (for_each _ _ _) as [[] w'].
  - unfold St.set_room_acl. rewrite St.update_room_missing by done. cbn [fst snd negb]. by destruct w as [? ? []].
Qed.

(** An accepted save: what is then in the store and in memory. *)
Lemma apply_set_room_acl_saved (w : W) (room : Types.Uuid) (inh : bool) (es : list Types.RoomAclEntry) (base : N) :
  NoDup (St.room_ids (Wld.data w)) → room ∈ St.room_ids (Wld.data w) →
  base = 0%N ∨ base = current_room_acl_version (Wld.persistence w) room →
  let '(r, w') := apply_set_room_acl room inh es base w in
  r = Ok "Room ACL updated" ∧
  (∀ i, stored_acl (Wld.persistence w') i = if decide (i = room) then (inh, es) else stored_acl (Wld.persistence w) i) ∧
  (∀ r', St.find_room (Wld.data w') r' =
    (if bool_decide (r' = room) then
       (λ r, Types.mkRoom (Types.room_id r) (Types.room_name r) (Types.room_parent r)
         (Types.room_description r) inh es (Types.room_effective_permissions r)) <$> St.find_room (Wld.data w) r'
     else St.find_room (Wld.data w) r')) ∧
  (∀ m h, m ∈ St.get_room_members (Wld.data w') room → St.get_client (Wld.server w') m = Some h →
          St.server_muted (Wld.handle_at w' h) = should_mute w' h room).
Proof.
  intros Hnd Hin Hbase. rewrite apply_set_room_acl_run. cbv zeta. set (current := current_room_acl_version _ _) in *.
  assert (negb (base =? 0)%N && negb (base =? current)%N = false) as ->.
  { destruct Hbase as [->| ->]; [done|]. rewrite (N.eqb_refl current). apply andb_false_r. }
  rewrite bool_decide_true by done. cbn [negb]. set (w1 := Wld.bcast _ _).
  destruct (reevaluate_loop (St.get_room_members (Wld.data w1) room) room w1) as (Hb & _ & Hm).
  destruct (for_each _ _ w1) as [[] w'] eqn:Ew. cbn [snd] in *. destruct Hb as (B1 & B2 & B3 & _).
  assert (Wld.data w' = (St.set_room_acl room inh es (Wld.data w)).2) as Hd.
  { unfold Wld.data at 1. rewrite B1. unfold w1. by world. }
  split; [done|]. split; [|split].
  - intros i'. unfold stored_acl. rewrite B3. unfold w1. world. unfold saved_acl. world.
    rewrite (proj2 (set_room_acl_store _ _ _)). destruct (decide (i' = room)); [|done]. cbn. by rewrite map_acl_entries.
  - intros r'. rewrite Hd. unfold St.find_room, St.set_room_acl. by apply St.update_room_find.
  - intros m h Hmem Hcl. apply (Hm m); [|by rewrite <- B1]. unfold Wld.data in Hmem |- *. by rewrite <- B1.
Qed.

(** Saving a room's ACL is optimistic: a save based on another version than
    the stored one is rejected with the conflict message and changes nothing; an
    unknown room is rejected and changes nothing; otherwise memory and store
    both hold exactly the new configuration, the version is that of the new
    content, other rooms keep theirs, and every connected occupant ends up
    server-muted exactly when it may not speak under the new rules or was muted
    by a moderator. *)
Theorem apply_set_room_acl_spec (w : W) (room : Types.Uuid) (inh : bool)
    (es : list Types.RoomAclEntry) (base : N) :
  NoDup (St.room_ids (Wld.data w)) →
  let current := current_room_acl_version (Wld.persistence w) room in
  let '(r, w') := apply_set_room_acl room inh es base w in
  (base ≠ 0%N → base ≠ current → r = Err ACL_CONFLICT_MSG ∧ w' = w) ∧
  (base = 0%N ∨ base = current →
   (room ∉ St.room_ids (Wld.data w) → r = Err "Room not found" ∧ w' = w) ∧
   (room ∈ St.room_ids (Wld.data w) →
     r = Ok "Room ACL updated" ∧
     stored_acl (Wld.persistence w') room = (inh, es) ∧
     (∃ x, St.find_room (Wld.data w') room = Some x ∧
           Types.room_inherit_acl x = inh ∧ Types.room_acls x = es) ∧
     current_room_acl_version (Wld.persistence w') room = Wire.room_acl_version ext_blake3 inh es ∧
     (∀ r', r' ≠ room → St.find_room (Wld.data w') r' = St.find_room (Wld.data w) r' ∧
                        stored_acl (Wld.persistence w') r' = stored_acl (Wld.persistence w) r') ∧
     (∀ m h, m ∈ St.get_room_members (Wld.data w') room → St.get_client (Wld.server w') m = Some h →
             St.server_muted (Wld.handle_at w' h) = should_mute w' h room))).
Proof.
  intros Hnd current. pose proof (apply_set_room_acl_saved w room inh es base Hnd) as Hok.
  pose proof (apply_set_room_acl_run room inh es base w) as Hrun. cbv zeta in Hrun. fold current in Hrun, Hok.
  destruct (apply_set_room_acl room inh es base w) as [r w']. split.
  { intros Hb0 Hb1. apply N.eqb_neq in Hb0, Hb1. rewrite Hb0, Hb1 in Hrun. by injection Hrun. }
  intros Hbase. split.
  - intros Hin. assert (negb (base =? 0)%N && negb (base =? current)%N = false) as E.
    { destruct Hbase as [->| ->]; [done|]. rewrite (N.eqb_refl current). apply andb_false_r. }
    rewrite E, bool_decide_false in Hrun by done. by injection Hrun.
  - intros Hin. destruct (Hok Hin Hbase) as (Hr & Hp & Hf & Hm). split; [done|]. split; [by rewrite Hp, decide_True|]. split.
    { rewrite Hf, bool_decide_true by done. apply St.find_room_ids in Hin as [x Hx].
      unfold St.find_room. rewrite Hx. eexists. split; [reflexivity|done]. }
    split; [by rewrite current_version_stored, Hp, decide_True|]. split; [|done].
    intros r' Hr'. by rewrite Hf, Hp, bool_decide_false, decide_False.
Qed.

(** ** The room tree *)

(** Every room's parent links lead to Root, and Root is its own parent. *)
Definition tree_ok (d : St.StateData) : Prop :=
  (∀ r, r ∈ St.room_ids d → ∃ p, Acl.ancestors (St.rooms d) r p) ∧
  (∀ x, St.find_room d Types.ROOT_ROOM_UUID = Some x → Types.room_parent x = Types.ROOT_ROOM_UUID).

Lemma find_app_old (rooms k : list Types.Room) r x :
  List.find (St.has_room_id r) rooms = Some x → List.find (St.has_room_id r) (rooms ++ k) = Some x.
Proof.
  induction rooms as [|y rooms IH]; [done|]. rewrite <- app_comm_cons. cbn [List.find].
  by destruct (St.has_room_id r y).
Qed.

Lemma find_app_new (rooms : list Types.Room) r x :
  List.find (St.has_room_id r) rooms = None → St.has_room_id r x = true →
  List.find (St.has_room_id r) (rooms ++ [x]) = Some x.
Proof.
  intros Hn Hx. induction rooms as [|y rooms IH]; cbn [List.find app] in *; [by rewrite Hx|].
  destruct (St.has_room_id r y); [done|]. by apply IH.
Qed.

Lemma ancestors_app rooms k r p : Acl.ancestors rooms r p → Acl.ancestors (rooms ++ k) r p.
Proof.
  induction 1 as [|r x p Hr Hx Hp IH]; [apply Acl.anc_root|].
  eapply Acl.anc_up; [done|by apply find_app_old|done].
Qed.

Lemma create_room_tree new_uuid name parent desc d :
  St.wf_state d → tree_ok d → new_uuid ∉ St.room_ids d → parent ∈ St.room_ids d →
  tree_ok (St.create_room_with_parent_desc new_uuid name parent desc d).
Proof.
  intros Hwf [Ht1 Ht2] Hnew Hpar.
  assert (new_uuid ≠ Types.ROOT_ROOM_UUID) as Hne by (intros ->; apply Hnew, St.wf_root, Hwf).
  assert (List.find (St.has_room_id new_uuid) (St.rooms d) = None) as Hfn.
  { destruct (List.find _ _) eqn:E; [|done]. exfalso. apply Hnew, St.find_room_ids. by rewrite E. }
  split.
  - intros r Hr. change (r ∈ Types.room_id <$> (St.rooms d ++ [St.new_room new_uuid name parent desc])) in Hr.
    cbn [St.create_room_with_parent_desc St.with_rooms St.rooms].
    rewrite fmap_app in Hr. apply elem_of_app in Hr as [Hr|Hr].
    + destruct (Ht1 r Hr) as [p Hp]. exists p. by apply ancestors_app.
    + apply list_elem_of_singleton in Hr as ->. destruct (Ht1 parent Hpar) as [p Hp].
      exists (new_uuid :: p).
      apply (Acl.anc_up _ _ (St.new_room new_uuid name parent desc)); [done| |by apply ancestors_app].
      apply find_app_new; [done|]. unfold St.has_room_id. by apply bool_decide_true.
  - intros x Hx. apply Ht2. unfold St.find_room in *. cbn [St.create_room_with_parent_desc St.with_rooms St.rooms] in Hx.
    destruct (proj1 (St.find_room_ids d Types.ROOT_ROOM_UUID) (St.wf_root _ Hwf)) as [y Hy].
    rewrite (find_app_old _ _ _ _ Hy) in Hx. by rewrite Hy.
Qed.

(** Rooms after the children of [x] were handed to [np] and [x] removed. *)
Definition healed (x np : Types.Uuid) (rooms : list Types.Room) : list Types.Room :=
  retain (λ r, negb (St.has_room_id x r))
    ((λ r, if bool_decide (Types.room_parent r = x) then
             Types.mkRoom (Types.room_id r) (Types.room_name r) np (Types.room_description r)
               (Types.room_inherit_acl r) (Types.room_acls r) (Types.room_effective_permissions r)
           else r) <$> rooms).

Lemma find_fmap_id r (f : Types.Room → Types.Room) l :
  (∀ x, Types.room_id (f x) = Types.room_id x) →
  List.find (St.has_room_id r) (f <$> l) = f <$> List.find (St.has_room_id r) l.
Proof.
  intros Hf. induction l as [|y l IH]; [done|]. csimpl. unfold St.has_room_id at 1 3. rewrite Hf.
  by destruct (bool_decide _).
Qed.

Lemma find_healed x np rooms r :
  r ≠ x →
  List.find (St.has_room_id r) (healed x np rooms) =
  (λ y, if bool_decide (Types.room_parent y = x) then
          Types.mkRoom (Types.room_id y) (Types.room_name y) np (Types.room_description y)
            (Types.room_inherit_acl y) (Types.room_acls y) (Types.room_effective_permissions y)
        else y) <$> List.find (St.has_room_id r) rooms.
Proof.
  intros Hr. unfold healed. rewrite St.find_retain_other by done. apply find_fmap_id.
  intros y. by case_bool_decide.
Qed.

Lemma ancestors_inv rooms r q y :
  Acl.ancestors rooms r q → r ≠ Types.ROOT_ROOM_UUID → List.find (St.has_room_id r) rooms = Some y →
  ∃ p, q = r :: p ∧ Acl.ancestors rooms (Types.room_parent y) p.
Proof.
  intros Hq Hr Hy. destruct Hq as [|r' y' p Hr' Hy' Hp]; [done|]. exists p. split; [done|].
  rewrite Hy in Hy'. by injection Hy' as <-.
Qed.

Lemma ancestors_healed x np rooms rx px :
  x ≠ Types.ROOT_ROOM_UUID → List.find (St.has_room_id x) rooms = Some rx → Types.room_parent rx = np →
  Acl.ancestors rooms x (x :: px) →
  ∀ r p, Acl.ancestors rooms r p → r ≠ x → ∃ q, Acl.ancestors (healed x np rooms) r q.
Proof.
  intros Hx Hfx Hnp Hax r p.
  destruct (ancestors_inv _ _ _ _ Hax Hx Hfx) as (p0 & [= <-] & Hnpx0).
  assert (np ≠ x) as Hnpx.
  { intros E. rewrite Hnp, E in Hnpx0. pose proof (Acl.ancestors_det _ _ _ _ Hax Hnpx0) as Hd.
    apply (f_equal List.length) in Hd. simpl in Hd. lia. }
  remember (List.length p) as n eqn:En. revert r p En.
  induction n as [n IH] using lt_wf_ind. intros r p En Hp Hr.
  destruct Hp as [|r y p Hr0 Hy Hp]; [exists [Types.ROOT_ROOM_UUID]; apply Acl.anc_root|].
  cbn [List.length] in En.
  destruct (decide (Types.room_parent y = x)) as [E|E].
  - (* a child of the deleted room: its new parent is the grandparent *)
    rewrite E in Hp. destruct (ancestors_inv _ _ _ _ Hp Hx Hfx) as (p' & -> & Hp').
    destruct (IH (List.length p')) with (r := np) (p := p') as [q Hq]; [simpl in En; lia|done|by rewrite <- Hnp|done|].
    exists (r :: q). eapply Acl.anc_up; [done|rewrite find_healed by done; by rewrite Hy|].
    simpl. by rewrite bool_decide_true.
  - destruct (IH (List.length p)) with (r := Types.room_parent y) (p := p) as [q Hq]; [lia|done|done|done|].
    exists (r :: q). eapply Acl.anc_up; [done|rewrite find_healed by done; by rewrite Hy|].
    simpl. by rewrite bool_decide_false.
Qed.

Lemma healed_tree x np d d' rx :
  tree_ok d → x ≠ Types.ROOT_ROOM_UUID → St.find_room d x = Some rx → Types.room_parent rx = np →
  St.rooms d' = healed x np (St.rooms d) → tree_ok d'.
Proof.
  intros [Ht1 Ht2] Hx Hfx Hnp Hd'. split.
  - intros r Hr. rewrite Hd'. unfold St.room_ids in Hr. rewrite Hd' in Hr.
    apply list_elem_of_fmap in Hr as (y & -> & Hy). unfold healed in Hy.
    apply elem_of_retain in Hy as [Hy Hne]. apply negb_true_iff in Hne. unfold St.has_room_id in Hne.
    apply bool_decide_eq_false in Hne. apply list_elem_of_fmap in Hy as (z & -> & Hz).
    assert (Types.room_id (if bool_decide (Types.room_parent z = x)
        then Types.mkRoom (Types.room_id z) (Types.room_name z) np (Types.room_description z)
               (Types.room_inherit_acl z) (Types.room_acls z) (Types.room_effective_permissions z) else z)
        = Types.room_id z) as Ez by (by case_bool_decide).
    rewrite Ez in *. destruct (Ht1 (Types.room_id z)) as [p Hp]; [apply list_elem_of_fmap; by exists z|].
    destruct (Ht1 x) as [px Hpx]; [apply St.find_room_ids; by exists rx|].
    destruct (ancestors_inv _ _ _ _ Hpx Hx Hfx) as (p' & -> & _).
    by eapply (ancestors_healed x np _ rx p').
  - intros y Hy. unfold St.find_room in Hy. rewrite Hd', find_healed in Hy by congruence.
    destruct (List.find (St.has_room_id Types.ROOT_ROOM_UUID) (St.rooms d)) as [z|] eqn:Ez; [|done].
    injection Hy as <-. specialize (Ht2 z Ez). case_bool_decide as E; [congruence|done].
Qed.

(** ** Creating and deleting rooms *)

Lemma save_room_store i r p :
  (Persist.save_room i r p).1 = Ok tt ∧
  (∀ i', Persist.get_room (Persist.save_room i r p).2 i' =
         if decide (i' = i) then Some r else Persist.get_room p i') ∧
  (∀ i', Persist.get_room_acl (Persist.save_room i r p).2 i' = Persist.get_room_acl p i').
Proof.
  unfold Persist.save_room. rewrite serialize_encoded. split; [apply Persist.on_insert|]. split; intros i'.
  - rewrite !Persist.get_room_view, Persist.on_insert_view, decide_True by done.
    destruct (decide (i' = i)) as [->|Hne]; [by rewrite view_record_insert|].
    rewrite view_record_insert_ne; [done|]. by rewrite Persist.arr_inj.
  - by rewrite !Persist.get_room_acl_view, Persist.on_insert_view.
Qed.

Lemma delete_room_store i p :
  (∀ i', Persist.get_room (Persist.delete_room_acl i (Persist.delete_room i p).2).2 i' =
         if decide (i' = i) then None else Persist.get_room p i') ∧
  (∀ i', Persist.get_room_acl (Persist.delete_room_acl i (Persist.delete_room i p).2).2 i' =
         if decide (i' = i) then None else Persist.get_room_acl p i').
Proof.
  unfold Persist.delete_room, Persist.delete_room_acl. split; intros i'.
  - rewrite !Persist.get_room_view, !Persist.on_remove_view.
    rewrite decide_False by done. rewrite decide_True by done.
    destruct (decide (i' = i)) as [->|Hne]; [by rewrite view_record_delete|].
    rewrite view_record_delete_ne; [done|]. by rewrite Persist.arr_inj.
  - rewrite !Persist.get_room_acl_view, !Persist.on_remove_view.
    rewrite decide_True by done. rewrite decide_False by done.
    destruct (decide (i' = i)) as [->|Hne]; [by rewrite view_record_delete|].
    rewrite view_record_delete_ne; [done|]. by rewrite Persist.arr_inj.
Qed.

Definition with_parent (np : Types.Uuid) (r : Types.Room) : Types.Room :=
  Types.mkRoom (Types.room_id r) (Types.room_name r) np (Types.room_description r)
    (Types.room_inherit_acl r) (Types.room_acls r) (Types.room_effective_permissions r).

Definition persisted_with_parent (np : Types.Uuid) (r : Persist.PersistedRoom) : Persist.PersistedRoom :=
  Persist.mkPersistedRoom (Persist.name r) (Some np) (Persist.description r) (Persist.permanent r).

(** What the loop over the children keeps. *)
Definition reparented (cs : list Types.Uuid) (np : Types.Uuid) (w w' : W) : Prop :=
  Wld.server w' = St.with_state_data (λ _, Wld.data w') (Wld.server w) ∧
  St.rooms (Wld.data w') =
    (λ r, if bool_decide (Types.room_id r ∈ cs) then with_parent np r else r) <$> St.rooms (Wld.data w) ∧
  St.memberships (Wld.data w') = St.memberships (Wld.data w) ∧
  St.user_statuses (Wld.data w') = St.user_statuses (Wld.data w) ∧
  (∀ i, Persist.get_room (Wld.persistence w') i =
     if bool_decide (i ∈ cs) then persisted_with_parent np <$> Persist.get_room (Wld.persistence w) i
     else Persist.get_room (Wld.persistence w) i) ∧
  (∀ i, Persist.get_room_acl (Wld.persistence w') i = Persist.get_room_acl (Wld.persistence w) i) ∧
  Wld.handles w' = Wld.handles w ∧ Wld.identities w' = Wld.identities w.

Lemma reparent_child_run np c (w : W) :
  NoDup (St.room_ids (Wld.data w)) →
  ∃ w', reparent_child np c w = (Ok tt, w') ∧ reparented [c] np w w'.
Proof.
  intros Hnd. unfold reparent_child. run.
  set (w1 := Wld.with_server _ w).
  set (u := Proto.RoomMoved _ _).
  set (p' := match Persist.get_room (Wld.persistence w) c with
             | Some room => (Persist.save_room c (persisted_with_parent np room) (Wld.persistence w)).2
             | None => Wld.persistence w end).
  exists (Wld.bcast u (Wld.with_persistence (λ _, p') w1)). split.
  { unfold p'. change (Wld.persistence w1) with (Wld.persistence w).
    destruct (Persist.get_room (Wld.persistence w) c) as [room|]; run; rewrite map_err_run; run;
      [reflexivity|unfold w1; by destruct w]. }
  unfold reparented. world. unfold w1. world.
  change (Wld.data (Wld.with_persistence (λ _, p') (Wld.with_server
     (St.with_state_data (λ _, (St.move_room c np (Wld.data w)).2)) w)))
    with ((St.move_room c np (Wld.data w)).2).
  destruct (St.update_room_keeps c (with_parent np) (Wld.data w)) as (_ & K2 & K3 & _); [by intros []|].
  split; [by destruct (Wld.server w)|]. split.
  { unfold St.move_room. rewrite St.update_room_rooms by done. apply list_fmap_ext. intros j x _.
    rewrite (bool_decide_ext (Types.room_id x ∈ [c]) (Types.room_id x = c)) by apply list_elem_of_singleton. done. }
  split; [exact K2|]. split; [exact K3|]. split; [|split; [|done]].
  - intros i. rewrite (bool_decide_ext (i ∈ [c]) (i = c)) by apply list_elem_of_singleton. unfold p'.
    destruct (Persist.get_room (Wld.persistence w) c) as [room|] eqn:Er.
    + rewrite (proj1 (proj2 (save_room_store _ _ _))). case_bool_decide as E; subst; [by rewrite decide_True, Er|].
      by rewrite decide_False.
    + case_bool_decide as E; subst; [by rewrite Er|done].
  - intros i. unfold p'. destruct (Persist.get_room (Wld.persistence w) c) as [room|]; [|done].
    by rewrite (proj2 (proj2 (save_room_store _ _ _))).
Qed.

Lemma reparented_ids cs np (w w' : W) : reparented cs np w w' → St.room_ids (Wld.data w') = St.room_ids (Wld.data w).
Proof.
  intros (_ & Hr & _). unfold St.room_ids. rewrite Hr, <- list_fmap_compose. apply list_fmap_ext.
  intros j x _. simpl. by case_bool_decide.
Qed.

Lemma reparent_loop np cs (w : W) :
  NoDup (St.room_ids (Wld.data w)) →
  ∃ w', try_for_each cs (reparent_child np) w = (Ok tt, w') ∧ reparented cs np w w'.
Proof.
  revert w. induction cs as [|c cs IH]; intros w Hnd.
  - exists w. split; [done|]. unfold reparented. split; [by destruct w as [? ? []]|]. split.
    { rewrite <- (list_fmap_id (St.rooms (Wld.data w))) at 1. apply list_fmap_ext. intros j x _.
      by rewrite bool_decide_false by (by intros Hn%elem_of_nil). }
    repeat split; intros; by rewrite ?bool_decide_false by (by intros Hn%elem_of_nil).
  - destruct (reparent_child_run np c w Hnd) as (w1 & E1 & R1).
    destruct (IH w1) as (w2 & E2 & R2); [by rewrite (reparented_ids _ _ _ _ R1)|].
    exists w2. split; [cbn [try_for_each]; unfold try_bind; by rewrite E1|].
    destruct R1 as (A1 & A2 & A3 & A4 & A5 & A6 & A7 & A8), R2 as (B1 & B2 & B3 & B4 & B5 & B6 & B7 & B8).
    assert (∀ (x : Types.Uuid), bool_decide (x ∈ c :: cs) = bool_decide (x ∈ [c]) || bool_decide (x ∈ cs)) as Hor.
    { intros x. apply eq_bool_prop_intro. rewrite orb_True, !bool_decide_spec, elem_of_cons, list_elem_of_singleton. done. }
    unfold reparented. split; [rewrite B1, A1; by destruct (Wld.server w)|]. split.
    { rewrite B2, A2, <- list_fmap_compose. apply list_fmap_ext. intros j x _. simpl. rewrite Hor.
      destruct (bool_decide (Types.room_id x ∈ [c])) eqn:Ex; simpl; by destruct (bool_decide (Types.room_id x ∈ cs)). }
    split; [congruence|]. split; [congruence|]. split.
    { intros j. rewrite B5, A5, Hor. destruct (bool_decide (j ∈ [c])); simpl; [|done].
      destruct (bool_decide (j ∈ cs)); [|done]. by destruct (Persist.get_room (Wld.persistence w) j). }
    split; [intros j; by rewrite B6, A6|]. split; congruence.
Qed.

(** The children of [x], as the delete path finds them. *)
Definition children_of (x : Types.Uuid) (d : St.StateData) : list Types.Uuid :=
  Types.room_id <$> retain (λ r, bool_decide (Types.room_parent r = x)) (St.rooms d).

Lemma child_iff x d r :
  NoDup (St.room_ids d) → r ∈ St.rooms d →
  bool_decide (Types.room_id r ∈ children_of x d) = bool_decide (Types.room_parent r = x).
Proof.
  intros Hnd Hr. apply bool_decide_ext. unfold children_of. rewrite list_elem_of_fmap. split.
  - intros (y & Ey & [Hy Hp]%elem_of_retain). apply bool_decide_eq_true in Hp.
    assert (y = r) as ->; [|done]. eapply (NoDup_fmap_inj Types.room_id (St.rooms d)); done.
  - intros Hp. exists r. split; [done|]. apply elem_of_retain. split; [done|]. by apply bool_decide_true.
Qed.

Lemma fmap_elem_ext {A B} (f g : A → B) (l : list A) : (∀ x, x ∈ l → f x = g x) → f <$> l = g <$> l.
Proof. intros Hfg. apply list_fmap_ext. intros i x Hx. apply Hfg. by apply list_elem_of_lookup_2 in Hx. Qed.

(** The world after the tree is healed, the room removed and its removal announced. *)
Lemma apply_delete_room_run x rx (w : W) :
  St.wf_state (Wld.data w) → x ≠ Types.ROOT_ROOM_UUID → St.find_room (Wld.data w) x = Some rx →
  ∃ w1,
    reparented (children_of x (Wld.data w)) (Types.room_parent rx) w w1 ∧
    let w2 := Wld.bcast (Proto.RoomDeleted (Some (Types.room_id_from_uuid x))
                (Some (Types.room_id_from_uuid Types.ROOT_ROOM_UUID)))
      (Wld.with_persistence (λ p, (Persist.delete_room_acl x (Persist.delete_room x p).2).2)
        (Wld.with_server (St.with_state_data (λ d, (St.delete_room x d).2)) w1)) in
    apply_delete_room x w =
      (Ok (Types.room_name rx),
       (for_each (St.get_room_members (Wld.data w) x)
          (λ m, reevaluate_member_mute m Types.ROOT_ROOM_UUID) w2).2).
Proof.
  intros Hwf Hx Hf.
  destruct (reparent_loop (Types.room_parent rx) (children_of x (Wld.data w)) w (St.wf_ids _ Hwf)) as (w1 & E1 & R1).
  exists w1. split; [done|]. cbv zeta. unfold apply_delete_room. rewrite bool_decide_false by done.
  unfold_goal_st. unfold St.find_room in Hf. rewrite Hf. unfold St.room_parent_and_children. rewrite Hf.
  cbn [fmap option_fmap option_map]. unfold_goal_st. cbn [option_bind].
  change (Types.room_id <$> retain (λ r : Types.Room, bool_decide (Types.room_parent r = x)) (St.rooms (Wld.data w)))
    with (children_of x (Wld.data w)).
  rewrite E1. run.
  assert ((St.delete_room x (Wld.data w1)).1 = true) as ->.
  { apply St.delete_room_true. split; [done|]. rewrite (reparented_ids _ _ _ _ R1).
    apply St.find_room_ids. unfold St.find_room in *. by rewrite Hf. }
  cbn [negb]. run. rewrite map_err_run. run.
  assert (St.get_room_members (Wld.data w1) x = St.get_room_members (Wld.data w) x) as ->.
  { unfold St.get_room_members. by destruct R1 as (_ & _ & -> & _). }
  match goal with |- context [for_each ?l ?b ?w0] =>
    rewrite (surjective_pairing (for_each l b w0)) end.
  cbn [fst snd]. unfold Persist.delete_room, Persist.delete_room_acl. destruct w1. reflexivity.
Qed.

(** Deleting a room heals the tree: Root and unknown rooms are refused and
    change nothing; otherwise the room is gone from memory and store with its
    ACL, its children hang from its parent (in memory and in the store), every
    other room is untouched, its occupants are in Root with the mute Root's
    rules give them, and the state is still a well-formed tree. *)
Theorem apply_delete_room_spec (w : W) (x : Types.Uuid) :
  St.wf_state (Wld.data w) → tree_ok (Wld.data w) →
  let '(r, w') := apply_delete_room x w in
  (x = Types.ROOT_ROOM_UUID → r = Err "Cannot delete the Root room" ∧ w' = w) ∧
  (x ∉ St.room_ids (Wld.data w) → r = Err "Room not found" ∧ w' = w) ∧
  (∀ rx, x ≠ Types.ROOT_ROOM_UUID → St.find_room (Wld.data w) x = Some rx →
    r = Ok (Types.room_name rx) ∧ St.wf_state (Wld.data w') ∧ tree_ok (Wld.data w') ∧
    ¬ (x ∈ St.room_ids (Wld.data w')) ∧
    (∀ i, i ≠ x → St.find_room (Wld.data w') i =
       (λ y, if bool_decide (Types.room_parent y = x) then with_parent (Types.room_parent rx) y else y)
         <$> St.find_room (Wld.data w) i) ∧
    (∀ u, St.get_user_room (Wld.data w') u =
       (λ q, if bool_decide (q = x) then Types.ROOT_ROOM_UUID else q) <$> St.get_user_room (Wld.data w) u) ∧
    (∀ i, Persist.get_room (Wld.persistence w') i =
       if decide (i = x) then None
       else if bool_decide (i ∈ children_of x (Wld.data w))
            then persisted_with_parent (Types.room_parent rx) <$> Persist.get_room (Wld.persistence w) i
            else Persist.get_room (Wld.persistence w) i) ∧
    (∀ i, Persist.get_room_acl (Wld.persistence w') i =
       if decide (i = x) then None else Persist.get_room_acl (Wld.persistence w) i) ∧
    (∀ m h, m ∈ St.get_room_members (Wld.data w) x → St.get_client (Wld.server w') m = Some h →
       St.server_muted (Wld.handle_at w' h) = should_mute w' h Types.ROOT_ROOM_UUID)).
Proof.
  intros Hwf Ht. destruct (decide (x = Types.ROOT_ROOM_UUID)) as [E|Hx].
  { unfold apply_delete_room. rewrite bool_decide_true by done. split; [done|]. split; [|by intros].
    intros Hn. exfalso. apply Hn. rewrite E. apply St.wf_root, Hwf. }
  destruct (St.find_room (Wld.data w) x) as [rx|] eqn:Hf.
  2: { assert (x ∉ St.room_ids (Wld.data w)) as Hn
         by (rewrite St.find_room_ids; unfold St.find_room in Hf; rewrite Hf; by intros [? [=]]).
       unfold apply_delete_room. rewrite bool_decide_false by done. unfold_goal_st.
       unfold St.find_room in Hf. unfold St.room_parent_and_children. rewrite Hf.
       cbn [fmap option_fmap option_map]. unfold_goal_st. cbn [option_bind]. run.
       assert ((St.delete_room x (Wld.data w)).1 = false) as Ed.
       { destruct (St.delete_room x (Wld.data w)).1 eqn:E; [|done]. by apply St.delete_room_true in E as [_ ?]. }
       rewrite Ed. cbn [negb]. rewrite St.delete_room_false by done. split; [done|].
       split; [|by intros]. intros _. split; [done|]. by destruct w as [? ? []]. }
  destruct (apply_delete_room_run x rx w Hwf Hx Hf) as (w1 & R1 & ->). cbv zeta.
  set (w2 := Wld.bcast _ _).
  destruct (reevaluate_loop (St.get_room_members (Wld.data w) x) Types.ROOT_ROOM_UUID w2) as (Hb & _ & Hm).
  destruct (for_each _ _ w2) as [[] w'] eqn:Ew. cbn [snd] in *.
  split; [done|]. split.
  { intros Hn. exfalso. apply Hn. apply St.find_room_ids. unfold St.find_room in Hf. by rewrite Hf. }
  intros rx' _ [= <-]. destruct Hb as (B1 & B2 & B3 & _).
  destruct R1 as (A1 & A2 & A3 & A4 & A5 & A6 & A7 & A8).
  assert (Wld.data w' = (St.delete_room x (Wld.data w1)).2) as Hd'.
  { unfold Wld.data at 1. rewrite B1. unfold w2. by world. }
  assert (Wld.persistence w' = (Persist.delete_room_acl x (Persist.delete_room x (Wld.persistence w1)).2).2) as Hp'.
  { rewrite B3. unfold w2. by world. }
  assert (St.wf_state (Wld.data w1)) as Hwf1.
  { eapply St.wf_same_ids; [|exact A3|exact A4|exact Hwf]. unfold St.room_ids. rewrite A2, <- list_fmap_compose.
    apply list_fmap_ext. intros j y _. simpl. by case_bool_decide. }
  assert ((St.delete_room x (Wld.data w1)).1 = true) as Hdel.
  { apply St.delete_room_true. split; [done|]. apply St.find_room_ids. unfold St.find_room in Hf.
    rewrite A2, find_fmap_id, Hf; [by eexists|]. intros y. by case_bool_decide. }
  assert (St.rooms (Wld.data w') = healed x (Types.room_parent rx) (St.rooms (Wld.data w))) as Hr'.
  { rewrite Hd', St.delete_room_run by done. cbn [St.rooms]. unfold healed. f_equal. rewrite A2.
    apply fmap_elem_ext. intros y Hy. rewrite child_iff by (done || apply Hwf). done. }
  split; [done|]. split; [rewrite Hd'; by apply St.delete_room_wf|].
  split; [by eapply healed_tree|]. split.
  { unfold St.room_ids. rewrite Hr'. unfold healed. rewrite list_elem_of_fmap. intros (y & Hy & [_ Hp]%elem_of_retain).
    unfold St.has_room_id in Hp. by rewrite bool_decide_true in Hp. }
  split; [intros j Hj; unfold St.find_room; rewrite Hr', find_healed by done; done|]. split.
  { intros u. rewrite Hd', St.delete_room_run by done. unfold St.get_user_room. cbn [St.memberships]. rewrite A3.
    apply St.assoc_map_rehome. }
  split; [intros j; rewrite Hp', (proj1 (delete_room_store _ _)), A5; done|].
  split; [intros j; rewrite Hp', (proj2 (delete_room_store _ _)), A6; done|].
  intros m h Hmem Hcl. apply (Hm m); [done|]. by rewrite <- B1.
Qed.

(** Creating a room refuses an unknown parent without any change; otherwise
    the new room is in memory under that parent (Root when none is given) and in
    the store, nothing else changes, and the state stays a well-formed tree. *)
Theorem apply_create_room_spec (w : W) (new_uuid : Types.Uuid) (name : string)
    (parent : option Types.Uuid) (desc : option string) :
  St.wf_state (Wld.data w) → tree_ok (Wld.data w) → new_uuid ∉ St.room_ids (Wld.data w) →
  let par := default Types.ROOT_ROOM_UUID parent in
  let '(r, w') := apply_create_room new_uuid name parent desc w in
  (par ∉ St.room_ids (Wld.data w) → r = Err "Parent room does not exist" ∧ w' = w) ∧
  (par ∈ St.room_ids (Wld.data w) →
    r = Ok new_uuid ∧ St.wf_state (Wld.data w') ∧ tree_ok (Wld.data w') ∧
    (∀ i, St.find_room (Wld.data w') i =
       if decide (i = new_uuid) then Some (St.new_room new_uuid name par desc)
       else St.find_room (Wld.data w) i) ∧
    (∀ i, Persist.get_room (Wld.persistence w') i =
       if decide (i = new_uuid)
       then Some (Persist.mkPersistedRoom name parent (default EmptyString desc) true)
       else Persist.get_room (Wld.persistence w) i) ∧
    St.memberships (Wld.data w') = St.memberships (Wld.data w)).
Proof.
  intros Hwf Ht Hnew par. unfold apply_create_room. unfold_goal_st.
  assert (match parent with Some p => negb (St.room_exists (Wld.data w) p) | None => false end
          = negb (bool_decide (par ∈ St.room_ids (Wld.data w)))) as ->.
  { unfold par. destruct parent as [q|]; simpl.
    - f_equal. apply eq_bool_prop_intro. rewrite bool_decide_spec, Is_true_true. by apply St.room_exists_spec.
    - rewrite bool_decide_true; [done|]. apply St.wf_root, Hwf. }
  case_bool_decide as Hpar; cbn [negb]; [|by split]. run. rewrite map_err_run. run.
  split; [done|]. intros _. split; [done|]. fold par.
  set (w0 := Wld.with_persistence _ _). 
  assert (Wld.data (Wld.bcast (Proto.RoomCreated (Some (Types.room_to_proto (St.new_room new_uuid name par desc)))) w0)
          = St.create_room_with_parent_desc new_uuid name par desc (Wld.data w)) as Hd by (by world).
  rewrite Hd. split; [by apply St.add_room_wf|]. split; [by apply create_room_tree|].
  assert (List.find (St.has_room_id new_uuid) (St.rooms (Wld.data w)) = None) as Hfn.
  { destruct (List.find _ _) eqn:E; [|done]. exfalso. apply Hnew, St.find_room_ids. by rewrite E. }
  split; [|split; [|done]].
  - intros j. unfold St.find_room. cbn [St.create_room_with_parent_desc St.with_rooms St.rooms].
    destruct (decide (j = new_uuid)) as [->|Hj].
    + apply find_app_new; [done|]. unfold St.has_room_id. by apply bool_decide_true.
    + induction (St.rooms (Wld.data w)) as [|y l IH]; cbn [app List.find].
      * unfold St.has_room_id. simpl. by rewrite bool_decide_false by congruence.
      * destruct (St.has_room_id j y); [done|]. apply IH. cbn [List.find] in Hfn.
        by destruct (St.has_room_id new_uuid y).
  - intros j. world. unfold w0. world. apply (proj1 (proj2 (save_room_store _ _ _))).
Qed.
(** ** Group memberships *)

Definition mirrored (add : bool) (group : string) (groups : list string) : list string :=
  if add then push_unique group groups else retain (λ g, negb (String.eqb g group)) groups.

Lemma mirrored_elem add group groups g :
  g ∈ mirrored add group groups ↔ (if decide (g = group) then add = true else g ∈ groups).
Proof.
  unfold mirrored. destruct add.
  - rewrite elem_of_push_unique. destruct (decide (g = group)); intuition congruence.
  - rewrite elem_of_retain, negb_true_iff, String.eqb_neq.
    destruct (decide (g = group)); intuition congruence.
Qed.

Lemma mirrored_idem add group groups : mirrored add group (mirrored add group groups) = mirrored add group groups.
Proof.
  unfold mirrored. destruct add.
  - unfold push_unique at 1. rewrite (proj2 (contains_spec _ _)); [done|]. apply elem_of_push_unique. by left.
  - rewrite retain_retain. apply retain_ext. intros x _. by destruct (negb _).
Qed.

Lemma mirrored_same_length add group groups :
  List.length (mirrored add group groups) = List.length groups → mirrored add group groups = groups.
Proof.
  unfold mirrored, push_unique. destruct add.
  - destruct (contains _ _); [done|]. rewrite length_app. simpl. lia.
  - intros Hl. apply retain_all. intros x Hx. destruct (negb _) eqn:E; [done|]. exfalso.
    assert (List.length (retain (λ g, negb (String.eqb g group)) groups) < List.length groups); [|lia].
    apply length_retain_lt. by exists x.
Qed.

(** The identities of the connections that authenticated with [key]. *)
Definition keyed (key : Types.PublicKey) (w : W) (client : N) : bool :=
  bool_decide (St.get_user_public_key (Wld.server w) client = Some key).
Definition touched (key : Types.PublicKey) (cs : list N) (w : W) : list N :=
  (λ c, St.h_identity (Wld.handle_at w c)) <$> retain (keyed key w) cs.

(** What a mirroring loop does: identities only. *)
Definition mirrors (add : bool) (group : string) (locs : list N) (w w' : W) : Prop :=
  Wld.server w' = Wld.server w ∧ Wld.handles w' = Wld.handles w ∧
  Wld.persistence w' = Wld.persistence w ∧
  ∀ i, Wld.identity_at w' i =
       (if bool_decide (i ∈ locs) then St.with_id_groups (mirrored add group) (Wld.identity_at w i)
        else Wld.identity_at w i).

Lemma mirror_run key group add e c (w : W) :
  mirrors add group (touched key [c] w) w (mirror_client key group add e c w).2.
Proof.
  assert (touched key [c] w = if keyed key w c then [St.h_identity (Wld.handle_at w c)] else []) as ->
    by (unfold touched, retain; cbn [List.filter]; by destruct (keyed key w c)).
  unfold mirror_client, keyed. unfold_goal_st.
  destruct (bool_decide (St.get_user_public_key (Wld.server w) c = Some key)); cbn [negb].
  2: { unfold mirrors. cbn. repeat split. }
  fold (mirrored add group (St.id_groups (Wld.identity_of w c))).
  set (h := St.h_identity (Wld.handle_at w c)).
  assert (∀ i, (i ∈ h :: []) ↔ i = h) as Hin by (intros i; apply list_elem_of_singleton).
  destruct (Nat.eqb_spec (List.length (mirrored add group (St.id_groups (Wld.identity_of w c))))
    (List.length (St.id_groups (Wld.identity_of w c)))) as [El|El]; run; unfold mirrors; world.
  - split; [done|]. split; [done|]. split; [done|]. intros i. unfold Wld.identity_at. world.
    rewrite (bool_decide_ext _ _ (Hin i)). case_bool_decide as E; [|done]. subst i.
    fold (Wld.identity_at w h). apply mirrored_same_length in El.
    change (Wld.identity_of w c) with (Wld.identity_at w h) in El.
    unfold St.with_id_groups. rewrite El. by destruct (Wld.identity_at w h).
  - split; [done|]. split; [done|]. split; [done|]. intros i. unfold Wld.identity_at. world.
    fold h. rewrite (bool_decide_ext _ _ (Hin i)). case_bool_decide as E.
    + subst i. by rewrite lookup_insert_eq.
    + by rewrite lookup_insert_ne.
Qed.

Lemma mirrors_touched add group locs key cs (w w' : W) :
  mirrors add group locs w w' → touched key cs w' = touched key cs w.
Proof.
  intros (E1 & E2 & _). unfold touched, keyed, Wld.handle_at. by rewrite E1, E2.
Qed.

Lemma mirror_loop key group add e cs (w : W) :
  mirrors add group (touched key cs w) w (for_each cs (mirror_client key group add e) w).2.
Proof.
  revert w. induction cs as [|c cs IH]; intros w.
  { unfold mirrors. cbn. repeat split. }
  pose proof (mirror_run key group add e c w) as Hm.
  destruct (mirror_client key group add e c w) as [[] w1] eqn:E1. cbn [snd] in Hm.
  assert (for_each (c :: cs) (mirror_client key group add e) w = for_each cs (mirror_client key group add e) w1) as ->
    by (cbn [for_each]; unfold mbind, ST_bind; by rewrite E1).
  pose proof (IH w1) as Hl. rewrite (mirrors_touched _ _ _ _ _ _ _ Hm) in Hl.
  destruct Hm as (A1 & A2 & A3 & A4), Hl as (B1 & B2 & B3 & B4).
  split; [congruence|]. split; [congruence|]. split; [congruence|]. intros i. rewrite B4, A4.
  assert (i ∈ touched key (c :: cs) w ↔ i ∈ touched key [c] w ∨ i ∈ touched key cs w) as Hor.
  { unfold touched. rewrite (retain_app _ [c] cs), fmap_app, elem_of_app. done. }
  rewrite (bool_decide_ext _ _ Hor).
  unfold St.with_id_groups.
  repeat case_bool_decide; try (exfalso; tauto); try done. cbn. by rewrite mirrored_idem.
Qed.

(** A change of an assigned group.  Adding is refused, with nothing changed,
    for a registered username and for a group that is neither built in nor
    stored.  Otherwise the store has (or no longer has) exactly that membership
    with its expiry, every live connection with the key sees the change at once,
    and no other key, group, identity or part of the server is touched. *)
Theorem apply_set_user_group_by_key_spec (w : W) (key : Types.PublicKey) (g : string) (add : bool) (e : N) :
  (e < 2 ^ 64)%N →
  let p := Wld.persistence w in
  let '(r, w') := apply_set_user_group_by_key key g add e w in
  let p' := Wld.persistence w' in
  let exists_ := g ∈ BUILTIN_GROUPS ∨ is_Some (Persist.get_group p g) in
  (add = true → Persist.is_username_registered p g = true ∨ ¬ exists_ → is_ok r = false ∧ w' = w) ∧
  (add = false ∨ Persist.is_username_registered p g = false ∧ exists_ →
    is_ok r = true ∧
    (∀ k' g', g' ∈ Persist.get_user_groups p' k' ↔
       if decide ((k', g') = (key, g)) then add = true else g' ∈ Persist.get_user_groups p k') ∧
    (∀ k' g', Persist.get_group_expiry p' k' g' =
       if decide ((k', g') = (key, g)) then if add then e else 0%N
       else Persist.get_group_expiry p k' g') ∧
    (∀ c g', c ∈ St.snapshot_clients (Wld.server w) →
       St.get_user_public_key (Wld.server w) c = Some key →
       g' ∈ St.id_groups (Wld.identity_of w' c) ↔
         if decide (g' = g) then add = true else g' ∈ St.id_groups (Wld.identity_of w c)) ∧
    (∀ i, (∀ c, c ∈ St.snapshot_clients (Wld.server w) →
                St.get_user_public_key (Wld.server w) c = Some key →
                St.h_identity (Wld.handle_at w c) ≠ i) →
          Wld.identity_at w' i = Wld.identity_at w i) ∧
    Wld.server w' = Wld.server w ∧ Wld.handles w' = Wld.handles w).
Proof.
  intros He p. unfold apply_set_user_group_by_key. unfold_goal_st. fold p.
  destruct (add && Persist.is_username_registered p g) eqn:E1.
  { apply andb_prop in E1 as [-> E1]. split; [done|]. intros [?|[? _]]; congruence. }
  destruct (add && negb (contains BUILTIN_GROUPS g) && _) eqn:E2.
  { apply andb_prop in E2 as [[-> E2]%andb_prop E3]. apply negb_true_iff in E2, E3.
    apply bool_decide_eq_false in E2, E3. split; [done|]. intros [?|[_ [?|?]]]; done. }
  rewrite map_err_run. run.
  set (op := if add then _ else _).
  destruct (Persist.add_timed key g e p He) as (A1 & _ & A3 & A4).
  assert ((op p).1 = Ok tt) as Hok by (unfold op; destruct add; [done|apply Persist.remove_user_from_group_ok]).
  fold p. rewrite Hok. run.
  set (w1 := Wld.with_persistence _ w).
  pose proof (mirror_loop key g add e (St.snapshot_clients (Wld.server w)) w1) as Hm.
  change (Wld.server w1) with (Wld.server w).
  destruct (for_each _ _ w1) as [[] w'] eqn:Ew. cbn [snd] in Hm.
  destruct Hm as (M1 & M2 & M3 & M4).
  split.
  { intros -> [E|E]; [by rewrite E in E1|]. exfalso. apply E. cbn [andb] in E2.
    apply andb_false_iff in E2 as [E2|E2]; apply negb_false_iff, bool_decide_eq_true in E2; [by left|by right]. }
  intros _. split; [done|]. rewrite M3. change (Wld.persistence w1) with (op p).2.
  split; [|split].
  - intros k' g'. unfold op. destruct add.
    + rewrite A3. destruct (decide _) as [[= -> ->]|Hne]; [intuition|]. intuition congruence.
    + rewrite Persist.remove_user_from_group_get. unfold Persist.without.
      destruct (decide (k' = key)) as [->|Hk]; destruct (decide _) as [[= E]|Hne]; try congruence;
        rewrite ?elem_of_retain, ?negb_true_iff, ?String.eqb_neq; intuition congruence.
  - intros k' g'. unfold op. destruct add; [apply A4|apply Persist.remove_user_from_group_expiry].
  - assert (∀ i, i ∈ touched key (St.snapshot_clients (Wld.server w)) w1 ↔
      ∃ c, i = St.h_identity (Wld.handle_at w c) ∧ c ∈ St.snapshot_clients (Wld.server w) ∧
           St.get_user_public_key (Wld.server w) c = Some key) as Ht.
    { intros i. unfold touched. rewrite list_elem_of_fmap. setoid_rewrite elem_of_retain. unfold keyed.
      setoid_rewrite bool_decide_eq_true. done. }
    split; [|split; [|by split; [rewrite M1|rewrite M2]]].
    + intros c g' Hc Hk. unfold Wld.identity_of, Wld.handle_at at 1. rewrite M2, M4. fold (Wld.handle_at w1 c).
      rewrite bool_decide_true by (apply Ht; eauto). cbn [St.with_id_groups St.id_groups].
      apply mirrored_elem.
    + intros i Hi. rewrite M4, bool_decide_false; [done|]. rewrite Ht. intros (c & -> & Hc & Hk).
      by eapply Hi.
Qed.
(** ** Kicks and bans *)

Lemma set_ban_store k b p :
  (∀ k', Persist.get_ban (Persist.set_ban k b p).2 k' =
         if decide (k' = k) then Some b else Persist.get_ban p k') ∧
  (∀ j, j ≠ Persist.TBans → Persist.pview j (Persist.set_ban k b p).2 = Persist.pview j p).
Proof.
  unfold Persist.set_ban. rewrite serialize_encoded. split.
  - intros k'. rewrite !Persist.get_ban_view, Persist.on_insert_view, decide_True by done.
    destruct (decide (k' = k)) as [->|Hne]; [by rewrite view_record_insert|].
    rewrite view_record_insert_ne; [done|]. by rewrite Persist.arr_inj.
  - intros j Hj. by rewrite Persist.on_insert_view, decide_False.
Qed.

(** What is stored for a ban. *)
Definition banned_store (k : Types.PublicKey) (ban : Persist.PersistedBan)
    (p p' : Persist.Persistence T) : Prop :=
  Persist.get_ban p' k = Some ban ∧
  (∀ k', k' ≠ k → Persist.get_ban p' k' = Persist.get_ban p k') ∧
  (∀ k' g, g ∈ Persist.get_user_groups p' k' ↔
     (k' = k ∧ g = "banned") ∨ g ∈ Persist.get_user_groups p k') ∧
  Persist.get_group_expiry p' k "banned" = 0%N ∧
  (∀ g, Persist.get_group p' g =
     match Persist.get_group p g with
     | Some x => Some x
     | None => if String.eqb g "banned" then Some (Persist.mkPersistedGroup Perm.BANNED) else None
     end).

Definition ensure_banned (p : Persist.Persistence T) : Persist.Persistence T :=
  match Persist.get_group p "banned" with
  | Some _ => p
  | None => (Persist.create_group "banned" Perm.BANNED p).2
  end.

Lemma ensure_banned_group_run (w : W) :
  ensure_banned_group w = (tt, Wld.with_persistence ensure_banned w).
Proof.
  unfold ensure_banned_group, ensure_banned. unfold_goal_st.
  destruct (Persist.get_group (Wld.persistence w) "banned") eqn:Eg; run;
    unfold Wld.with_persistence; rewrite Eg; by destruct w.
Qed.

Lemma banned_store_intro k ban p :
  banned_store k ban p
    (Persist.set_ban k ban (Persist.add_user_to_group k "banned" (ensure_banned p)).2).2.
Proof.
  set (p1 := ensure_banned p). set (p2 := (Persist.add_user_to_group k "banned" p1).2).
  destruct (Persist.add_timed k "banned" 0 p1 ltac:(lia)) as (_ & A2 & A3 & A4).
  change ((Persist.add_user_to_group_with_expiry k "banned" 0 p1).2) with p2 in A2, A3, A4.
  destruct (set_ban_store k ban p2) as (B1 & B2).
  assert (∀ j, j ≠ Persist.TGroups → Persist.pview j p1 = Persist.pview j p) as E1.
  { intros j Hj. unfold p1, ensure_banned. destruct (Persist.get_group p "banned"); [done|].
    by apply Persist.create_group_view. }
  split; [by rewrite B1, decide_True|]. split.
  { intros k' Hk. rewrite B1, decide_False by done. by rewrite !Persist.get_ban_view, A2, E1. }
  split; [|split].
  - intros k' g. rewrite Persist.get_user_groups_view, B2, <- Persist.get_user_groups_view, A3 by done.
    by rewrite (Persist.get_user_groups_view p1), E1, <- Persist.get_user_groups_view.
  - rewrite Persist.get_group_expiry_view, B2, <- Persist.get_group_expiry_view, A4 by done. by rewrite decide_True.
  - intros g. rewrite Persist.get_group_view, B2, A2, <- Persist.get_group_view by done.
    unfold p1, ensure_banned. destruct (Persist.get_group p "banned") as [x|] eqn:Eb.
    + destruct (Persist.get_group p g) eqn:Eg; [done|]. destruct (String.eqb_spec g "banned"); [congruence|done].
    + rewrite Persist.create_group_get. destruct (decide (g = "banned")) as [->|Hne].
      * by rewrite Eb, String.eqb_refl.
      * destruct (Persist.get_group p g); [done|]. by rewrite (proj2 (String.eqb_neq _ _)).
Qed.

Lemma push_banned_run h (w : W) :
  ∃ w', push_banned h w = (tt, w') ∧ Wld.server w' = Wld.server w ∧ Wld.handles w' = Wld.handles w ∧
        Wld.persistence w' = Wld.persistence w ∧ "banned" ∈ St.id_groups (Wld.identity_of w' h).
Proof.
  unfold push_banned. unfold_goal_st. destruct (contains _ _) eqn:Ec.
  - exists w. by rewrite contains_spec in Ec.
  - eexists. split; [done|]. split; [done|]. split; [done|]. split; [done|].
    unfold Wld.identity_of, Wld.identity_at, Wld.handle_at. cbn.
    rewrite lookup_insert_eq. cbn. apply elem_of_app. right. apply list_elem_of_here.
Qed.

(** What expelling a client that drives no participants leaves. *)
Definition expelled (h : N) (w w' : W) : Prop :=
  Session.departed [h] (Wld.server w) (Wld.server w') ∧
  St.sessions (Wld.server w') = delete h (St.sessions (Wld.server w)) ∧
  Wld.persistence w' = Wld.persistence w ∧ h ∈ Wld.closed w'.

Lemma expel h hash payload code reason (w : W) :
  Session.wf_members (Wld.server w) → St.is_controller (Wld.handle_at w h) = false →
  expelled h w
    (Session.cleanup_client h (Wld.closed_conn h code reason (Wld.sent h hash payload w))).2.
Proof.
  intros Hwf Hc. set (w1 := Wld.closed_conn _ _ _ _).
  assert (Wld.frame_of w1 = Wld.frame_of w) as Hf
    by (unfold w1; by rewrite Wld.closed_conn_frame, Wld.sent_frame).
  apply Wld.frame_fields in Hf as (F1 & F2 & F3 & F4 & _).
  destruct (Session.cleanup_client_effect h w1) as (C1 & C2 & _ & _ & _ & C6); [by rewrite F3|].
  unfold Session.leaving, Wld.handle_at in C1. rewrite F1 in C1. fold (Wld.handle_at w h) in C1.
  rewrite Hc, F3 in C1. rewrite F3 in C2.
  split; [done|]. split; [done|]. split; [by rewrite C6|].
  apply (Session.cleanup_client_grows h w1). apply Wld.closed_close_conn.
Qed.

(** C39: A kick and a ban reach exactly the ordinary clients: an unknown user, a
    participant, a superuser and a bridge are refused and nothing changes.  A
    kicked or banned user is disconnected and gone from the members, the room
    and the sessions, and everyone else stays; a kick leaves the store alone,
    while a ban is stored with its time, duration and reason, puts the key into
    the "banned" group without expiry, and creates that group when missing. *)
Theorem kick_and_ban_spec (w : W) (uid now duration : N) (reason actor : string) :
  Session.wf_members (Wld.server w) →
  let '(rk, wk) := apply_kick uid reason actor w in
  let '(rb, wb) := apply_ban now uid duration reason actor w in
  (St.get_client (Wld.server w) uid = None → is_ok rk = false ∧ wk = w ∧ is_ok rb = false ∧ wb = w) ∧
  (∀ h, St.get_client (Wld.server w) uid = Some h →
    h = uid ∧
    (St.is_superuser (Wld.handle_at w h) = true ∨ St.is_controller (Wld.handle_at w h) = true →
       is_ok rk = false ∧ wk = w ∧ is_ok rb = false ∧ wb = w) ∧
    (St.is_superuser (Wld.handle_at w h) = false → St.is_controller (Wld.handle_at w h) = false →
       is_ok rk = true ∧ expelled h w wk ∧
       (∀ key, St.get_user_public_key (Wld.server w) uid = Some key →
          is_ok rb = true ∧
          (∃ wm, expelled h wm wb ∧ Wld.server wm = Wld.server w ∧
             banned_store key (Persist.mkPersistedBan (Some now) duration reason actor)
               (Wld.persistence w) (Wld.persistence wm) ∧
             "banned" ∈ St.id_groups (Wld.identity_of wm h)) ))).
Proof.
  intros Hwf. unfold apply_kick, apply_ban. unfold_goal_st.
  destruct (St.get_client (Wld.server w) uid) as [h|] eqn:Eh; [|split; [done|by intros h [=]]].
  cbn [ok_or]. unfold_goal_st.
  assert (h = uid) as Hh.
  { unfold St.get_client in Eh. destruct (St.members (Wld.server w) !! uid) as [m|] eqn:Em; [|done].
    simpl in Eh. destruct (Hwf uid m Em) as [_ Hb]. unfold St.member_client in Eh.
    destruct (St.binding m) as [h'|]; [|done]. injection Eh as <-. by apply Hb. }
  destruct (St.is_superuser (Wld.handle_at w h)) eqn:Es.
  { split; [done|]. intros h' [= <-]. split; [done|]. split; [done|congruence]. }
  destruct (St.is_controller (Wld.handle_at w h)) eqn:Ec.
  { split; [done|]. intros h' [= <-]. split; [done|]. split; [done|congruence]. }
  rewrite ensure_banned_group_run.
  set (w0 := Wld.with_persistence ensure_banned w).
  change (Wld.server w0) with (Wld.server w).
  destruct (St.get_user_public_key (Wld.server w) uid) as [key|] eqn:Ek; cbn [ok_or]; run.
  - set (w1 := Wld.with_persistence _ (Wld.with_persistence _ w0)).
    destruct (push_banned_run h w1) as (wm & -> & P1 & P2 & P3 & P4). run. rewrite !Wld.close_conn_run. run.
    assert (∀ hash u (x : W), (Wld.send_frame h hash u x).2 = Wld.sent h hash u x) as Hs by done. rewrite !Hs.
    rewrite (surjective_pairing (Session.cleanup_client h _)).
    rewrite (surjective_pairing (Session.cleanup_client h (Wld.closed_conn h 3 _ _))).
    cbn [fst snd]. split; [done|]. intros h' [= <-]. split; [done|].
    split; [intros [?|?]; congruence|]. intros _ _. split; [done|]. split; [by apply expel|].
    intros key' [= <-]. split; [done|]. exists wm. split.
    { apply expel; [by rewrite P1|]. unfold Wld.handle_at. by rewrite P2. }
    split; [by rewrite P1|]. split; [|done]. rewrite P3. apply banned_store_intro.
  - rewrite !Wld.close_conn_run. run.
    rewrite (surjective_pairing (Session.cleanup_client h _)). cbn [fst snd].
    split; [done|]. intros h' [= <-]. split; [done|].
    split; [intros [?|?]; congruence|]. intros _ _. split; [done|]. split; [by apply expel|].
    intros key' [=].
Qed.
End ops.

(** ** Witnesses *)

#[local] Existing Instances Persist.codecs Persist.codecs_laws Session.sample_external.
#[local] Abbreviation sample := Session.sample_world.

Lemma lobby_ne_root : St.lobby ≠ Types.ROOT_ROOM_UUID.
Proof. intros E. apply (f_equal arr) in E. vm_compute in E. discriminate E. Qed.

Lemma sample_wf : St.wf_state (Wld.data sample).
Proof.
  apply (St.set_user_room_wf 4 St.lobby); [|exact St.sample_data_wf].
  apply list_elem_of_further, list_elem_of_here.
Qed.

Lemma sample_tree : tree_ok (Wld.data sample).
Proof.
  split; [|intros x; vm_compute; by intros [= <-]].
  intros r Hr. change (r ∈ [Types.ROOT_ROOM_UUID; St.lobby]) in Hr.
  apply elem_of_cons in Hr as [->|[->|Hr]%elem_of_cons].
  - exists [Types.ROOT_ROOM_UUID]. apply Acl.anc_root.
  - exists [St.lobby; Types.ROOT_ROOM_UUID].
    eapply Acl.anc_up; [apply lobby_ne_root|vm_compute; reflexivity|apply Acl.anc_root].
  - by apply elem_of_nil in Hr.
Qed.

Lemma apply_set_room_acl_spec_witness :
  (apply_set_room_acl St.lobby false [] 5 sample).1 = Err ACL_CONFLICT_MSG ∧
  (apply_set_room_acl St.lobby false [] 0 sample).1 = Ok "Room ACL updated".
Proof.
  pose proof (apply_set_room_acl_spec sample St.lobby false [] 5 (St.wf_ids _ sample_wf)) as H1.
  pose proof (apply_set_room_acl_spec sample St.lobby false [] 0 (St.wf_ids _ sample_wf)) as H2.
  cbv zeta in H1, H2.
  destruct (apply_set_room_acl St.lobby false [] 5 sample) as [r1 w1].
  destruct (apply_set_room_acl St.lobby false [] 0 sample) as [r2 w2]. split.
  - destruct (proj1 H1) as [E _]; [lia|apply N.eqb_neq; vm_compute; reflexivity|exact E].
  - apply (proj2 H2); [by left|]. apply list_elem_of_further, list_elem_of_here.
Defined.

Lemma apply_delete_room_spec_witness :
  let w' := (apply_delete_room St.lobby sample).2 in
  tree_ok (Wld.data w') ∧ St.get_user_room (Wld.data w') 2 = Some Types.ROOT_ROOM_UUID.
Proof.
  pose proof (apply_delete_room_spec sample St.lobby sample_wf sample_tree) as H.
  destruct (apply_delete_room St.lobby sample) as [r w'].
  destruct H as (_ & _ & H).
  edestruct H as (_ & _ & Ht & _ & _ & Hu & _); [exact lobby_ne_root|vm_compute; reflexivity|].
  split; [exact Ht|]. cbn [snd]. rewrite Hu. vm_compute. reflexivity.
Defined.

Lemma apply_create_room_spec_witness :
  (apply_create_room (array_of_N 16 9) "Annex" (Some St.lobby) None sample).1 = Ok (array_of_N 16 9).
Proof.
  assert (array_of_N 16 9 ∉ St.room_ids (Wld.data sample)) as Hn.
  { refine (bool_decide_unpack (array_of_N 16 9 ∉ St.room_ids (Wld.data sample)) _). vm_compute. exact I. }
  pose proof (apply_create_room_spec sample (array_of_N 16 9) "Annex" (Some St.lobby) None
                sample_wf sample_tree Hn) as H.
  cbv zeta in H. destruct (apply_create_room _ _ _ _ sample) as [r w'].
  apply (proj2 H). apply list_elem_of_further, list_elem_of_here.
Defined.

Lemma apply_set_user_group_by_key_spec_witness :
  let w' := (apply_set_user_group_by_key (array_of_N 32 2) "admin" true 60 sample).2 in
  "admin" ∈ St.id_groups (Wld.identity_of w' 2) ∧
  Persist.get_group_expiry (Wld.persistence w') (array_of_N 32 2) "admin" = 60%N.
Proof.
  pose proof (apply_set_user_group_by_key_spec sample (array_of_N 32 2) "admin" true 60 ltac:(lia)) as H.
  cbv zeta in H. destruct (apply_set_user_group_by_key _ _ _ _ sample) as [r w'].
  destruct H as (_ & H). destruct H as (_ & _ & He & Hl & _).
  { right. split; [vm_compute; reflexivity|]. left. apply list_elem_of_further, list_elem_of_here. }
  cbn [snd]. split; [|rewrite He; by rewrite decide_True].
  apply Hl; [|reflexivity|by rewrite decide_True].
  refine (bool_decide_unpack (2%N ∈ St.snapshot_clients (Wld.server sample)) _). vm_compute. exact I.
Defined.

Lemma kick_and_ban_spec_witness :
  let wb := (apply_ban 5 2 60 "spam" "mod" sample).2 in
  St.get_client (Wld.server sample) 2 = Some 2%N ∧ 2%N ∈ Wld.closed wb.
Proof.
  pose proof (kick_and_ban_spec sample 2 5 60 "spam" "mod" Session.sample_wf_members) as H.
  destruct (apply_kick 2 _ _ sample) as [rk wk]. destruct (apply_ban 5 2 _ _ _ sample) as [rb wb].
  destruct H as (_ & H). destruct (H 2%N eq_refl) as (_ & _ & H').
  destruct (H' eq_refl eq_refl) as (_ & _ & Hb).
  destruct (Hb (array_of_N 32 2) eq_refl) as (_ & wm & (_ & _ & _ & Hc) & _).
  split; [reflexivity|exact Hc].
Defined.

End Ops.
