(* ===== verification/Auth.v ===== *)
(** Logging in: the replies every handler sends, [handle_client_hello] and
    [handle_authenticate] of [crates/server/src/handlers.rs].

    The random nonce, the clock readings and the value of the
    [RUMBLE_SERVER_PASSWORD] environment variable are arguments. *)
From Stdlib Require Import NArith ZArith Lia String.
From stdpp Require Import base gmap strings list sets.
From S2P Require Import Prelude Permissions Proto Types Store Wire Persistence State World Acl Session.

Module Auth.
Open Scope string_scope.
Open Scope list_scope.

(** i64 arithmetic that clamps instead of overflowing. *)
Definition i64_min : Z := - 2 ^ 63.
Definition i64_max : Z := 2 ^ 63 - 1.
Definition clamp_i64 (z : Z) : Z := Z.max i64_min (Z.min i64_max z).
Definition saturating_sub_i64 (a b : Z) : Z := clamp_i64 (a - b).
Definition saturating_abs_i64 (a : Z) : Z := clamp_i64 (Z.abs a).

Section auth.
Context {T : Type} `{!KV T} `{!Persist.Codecs} `{!External}.
Abbreviation W := (Wld.World T).

(** ** Replies *)

Definition send_auth_failed (sender : N) (error : string) : ST W (result unit) :=
  Wld.ignore (Wld.send_frame sender [] (Proto.AuthFailed error));;
  Wld.close_conn sender 1 "auth failed";;
  done_ok.

Definition send_permission_denied (sender : N) (denied : Proto.PermissionDenied) : ST W (result unit) :=
  Wld.ignore (Wld.send_frame sender [] (Proto.PermissionDeniedMsg denied));;
  done_ok.

Definition send_command_result (sender : N) (command : string) (success : bool) (message : string)
    : ST W (result unit) :=
  Wld.ignore (Wld.send_frame sender [] (Proto.CommandResult command success message));;
  done_ok.

(** ** ClientHello *)

(** Whether a new key may go on with the password it offers. *)
Definition password_ok (required : option string) (offered : option string) : bool :=
  match required with
  | None => true
  | Some required =>
      if str_is_empty required then true
      else match offered with Some pw => String.eqb pw required | None => false end
  end.

Definition handle_client_hello (nonce : array 32) (now : N) (server_password : option string)
    (ch : Proto.ClientHello) (sender : N) : ST W (result unit) :=
  match array_of_slice 32 (Proto.ch_public_key ch) with
  | None => send_auth_failed sender "Invalid public key length"
  | Some public_key =>
      taken ← gets (λ w, Persist.is_username_taken (Wld.persistence w) (Proto.ch_username ch) public_key);
      if taken : bool then send_auth_failed sender "Username is registered to a different key"
      else
        is_known ← gets (λ w, Persist.is_known_key (Wld.persistence w) public_key);
        if negb is_known && negb (password_ok server_password (Proto.ch_password ch))
        then send_auth_failed sender "Password required for new users"
        else
          Wld.set_server (St.set_pending_auth
            (St.mkPendingAuth nonce sender public_key now (Proto.ch_username ch)));;
          Wld.set_handle sender (St.with_h_public_key (λ _, Some public_key));;
          Wld.send_frame sender [] (Proto.ServerHello (arr nonce) "Rumble Server" sender) ;?
          done_ok
  end.

(** ** Authenticate *)

(** What the client must have signed. *)
Definition expected_payload (w : W) (pending : St.PendingAuth) (timestamp_ms : Z) : bytes :=
  Wire.build_auth_payload (St.pa_nonce pending) timestamp_ms (St.pa_public_key pending)
    (St.pa_user_id pending) (Wire.compute_cert_hash ext_sha256 (St.server_cert_der (Wld.server w))).

(** An expired ban is lifted first. *)
Definition lift_expired_ban (public_key : Types.PublicKey) (now_secs : N) : ST W unit :=
  ban ← gets (λ w, Persist.get_ban (Wld.persistence w) public_key);
  match ban with
  | Some ban_record =>
      if Persist.is_expired ban_record now_secs then
        Wld.ignore (Wld.on_persist (Persist.remove_ban public_key));;
        Wld.ignore (Wld.on_persist (Persist.remove_user_from_group public_key "banned"))
      else mret tt
  | None => mret tt
  end.

(** [check_groups]: default, the active groups, the registered username. *)
Definition check_groups (user_groups : list string) (registered : option Persist.RegisteredUser)
    : list string :=
  let groups := fold_left (λ l g, push_unique g l) user_groups ["default"] in
  match registered with
  | Some r => push_unique (Persist.username r) groups
  | None => groups
  end.

Definition is_banned (public_key : Types.PublicKey) (now_secs : N) : ST W bool :=
  user_groups ← Wld.on_persist (Persist.active_user_groups public_key now_secs);
  registered ← gets (λ w, Persist.get_registered_user (Wld.persistence w) public_key);
  group_perms ← gets (λ w, Acl.group_permissions (Wld.persistence w));
  mret (Perm.contains
    (Perm.effective_permissions (check_groups user_groups registered) group_perms
       [(Types.ROOT_ROOM_UUID, None)] false)
    Perm.BANNED).

(** The checks of the session certificate, in the code's order. *)
Definition check_session_cert (now_ms : Z) (public_key : Types.PublicKey)
    (session_cert : option Proto.SessionCertificate) : result St.SessionEntry :=
  match session_cert with
  | None => Err "Missing session certificate"
  | Some cert =>
      match array_of_slice 32 (Proto.cert_session_public_key cert) with
      | None => Err "Invalid session public key length"
      | Some session_public_key =>
          if (Proto.cert_expires_ms cert <=? Proto.cert_issued_ms cert)%Z
          then Err "Session certificate expiry invalid"
          else if (Proto.cert_expires_ms cert <? now_ms)%Z then Err "Session certificate expired"
          else
            let cert_payload := Wire.build_session_cert_payload session_public_key
              (Proto.cert_issued_ms cert) (Proto.cert_expires_ms cert) (Proto.cert_device cert) in
            match array_of_slice 64 (Proto.cert_user_signature cert) with
            | None => Err "Invalid session certificate signature length"
            | Some cert_sig =>
                if negb (ext_verify public_key cert_payload cert_sig)
                then Err "Invalid session certificate signature"
                else Ok (St.mkSessionEntry public_key session_public_key
                       (Wire.compute_session_id ext_blake3 session_public_key)
                       (Proto.cert_issued_ms cert) (Proto.cert_expires_ms cert)
                       (Proto.cert_device cert))
            end
      end
  end.

(** Step 6c: the identity the session starts with. *)
Definition load_identity (public_key : Types.PublicKey) (now_secs : N) (sender : N)
    : ST W (option string) :=
  active ← Wld.on_persist (Persist.active_user_groups public_key now_secs);
  let groups := fold_left (λ l g, push_unique g l) active ["default"] in
  identity ← gets (λ w, St.h_identity (Wld.handle_at w sender));
  Wld.set_identity identity (St.with_id_groups (λ _, groups));;
  verified_username ← gets (λ w,
    Persist.username <$> Persist.get_registered_user (Wld.persistence w) public_key);
  Wld.set_identity identity (St.with_verified_username (λ _, verified_username));;
  mret verified_username.

(** Step 10: the room the session starts in. *)
Definition initial_room (w : W) (public_key : Types.PublicKey) : Types.Uuid :=
  match Persist.get_registered_user (Wld.persistence w) public_key with
  | Some registered =>
      match Persist.last_room registered with
      | Some last_uuid =>
          if existsb (St.has_room_id last_uuid) (St.rooms (Wld.data w)) then last_uuid
          else Types.ROOT_ROOM_UUID
      | None => Types.ROOT_ROOM_UUID
      end
  | None => Types.ROOT_ROOM_UUID
  end.

Section plugins.
Variable on_disconnect : N → ST W unit.

(** Steps 6 to 13. *)
Definition accept_session (now_secs' : N) (pending : St.PendingAuth) (session_entry : St.SessionEntry)
    (sender : N) : ST W (result unit) :=
  Wld.set_handle sender (St.with_authenticated (λ _, true));;
  Wld.ignore (Wld.on_persist (Persist.add_known_key (St.pa_public_key pending)));;
  verified_username ← load_identity (St.pa_public_key pending) now_secs' sender;
  let final_username := default (St.pa_username pending) verified_username in
  identity ← gets (λ w, St.h_identity (Wld.handle_at w sender));
  Wld.set_identity identity (St.with_display_name (λ _, final_username));;
  Session.evict_superseded_sessions on_disconnect (St.pa_public_key pending) final_username sender;;
  Wld.set_server (St.add_session sender session_entry);;
  room ← gets (λ w, initial_room w (St.pa_public_key pending));
  Wld.set_data (St.set_user_room sender room);;
  Session.send_server_state_to_client sender ;?
  (groups ← gets (λ w, St.id_groups (Wld.identity_of w sender));
   Wld.broadcast_state_update (Proto.UserJoined (Some
     (Proto.mkUser (Some (Proto.mkUserId sender)) final_username
        (Some (Types.room_id_from_uuid room)) false false false false groups None))) ;?
   (welcome ← gets (λ w, St.welcome_message (Wld.server w));
    match welcome with
    | Some welcome_text => Wld.ignore (Wld.send_frame sender [] (Proto.EvWelcomeMessage welcome_text))
    | None => mret tt
    end;;
    done_ok)).

Definition max_clock_skew_ms : Z := 5 * 60 * 1000.

(** [now_ms], [now_secs] and [now_secs'] are the three readings of the clock. *)
Definition handle_authenticate (now_ms : Z) (now_secs now_secs' : N)
    (auth : Proto.Authenticate) (sender : N) : ST W (result unit) :=
  pending ← Wld.on_server (St.take_pending_auth sender);
  match pending with
  | None => send_auth_failed sender "No pending authentication"
  | Some pending =>
      let diff_ms := saturating_abs_i64 (saturating_sub_i64 now_ms (Proto.auth_timestamp_ms auth)) in
      if (max_clock_skew_ms <? diff_ms)%Z then send_auth_failed sender "Timestamp out of range"
      else
        payload ← gets (λ w, expected_payload w pending (Proto.auth_timestamp_ms auth));
        match array_of_slice 64 (Proto.auth_signature auth) with
        | None => send_auth_failed sender "Invalid signature length"
        | Some signature =>
            if negb (ext_valid_key (St.pa_public_key pending))
            then send_auth_failed sender "Invalid public key"
            else if negb (ext_verify (St.pa_public_key pending) payload signature)
            then send_auth_failed sender "Invalid signature"
            else
              lift_expired_ban (St.pa_public_key pending) now_secs;;
              banned ← is_banned (St.pa_public_key pending) now_secs;
              if banned : bool then send_auth_failed sender "You are banned from this server"
              else
                match check_session_cert now_ms (St.pa_public_key pending) (Proto.auth_session_cert auth) with
                | Err e => send_auth_failed sender e
                | Ok session_entry => accept_session now_secs' pending session_entry sender
                end
        end
  end.
End plugins.

(** ** The groups behind the ban check *)

Context `{!KVLaws T} `{!Persist.CodecsLaws}.

Lemma list_groups_elem (p : Persist.Persistence T) n pg :
  (n, pg) ∈ Persist.list_groups p ↔
  utf8_valid (as_bytes n) = true ∧ Persist.get_group p n = Some pg.
Proof.
  unfold Persist.list_groups. rewrite list_elem_of_omap. split.
  - intros ([[k v]|e] & Hin & E); [|done]. cbn in E. apply elem_of_iter in Hin.
    destruct (from_utf8 k) as [name|] eqn:Ek; [|done]. cbn in E.
    destruct (deserialize v) as [g|] eqn:Ev; [|done]. cbn in E. injection E as -> ->.
    pose proof (from_utf8_Some _ _ Ek) as Hk. split.
    + unfold from_utf8 in Ek. rewrite Hk. by destruct (utf8_valid k).
    + rewrite Persist.get_group_view, Hk. unfold view_record, Persist.pview. cbn [Persist.get_tree].
      rewrite Hin. cbn. by rewrite Ev.
  - intros [Hu Hg]. rewrite Persist.get_group_view in Hg. unfold view_record, Persist.pview in Hg.
    cbn [Persist.get_tree] in Hg. destruct (kv_view (Persist.groups p) !! as_bytes n) as [v|] eqn:Ev; [|done].
    cbn in Hg. exists (Ok (as_bytes n, v)). split; [by apply elem_of_iter|]. cbn.
    rewrite from_utf8_as_bytes by done. cbn. destruct (deserialize v); [|done]. cbn in *. by injection Hg as ->.
Qed.

Lemma group_permissions_lookup (p : Persist.Persistence T) n :
  Acl.group_permissions p !! n =
  if utf8_valid (as_bytes n)
  then (λ pg, Perm.from_bits_truncate (Persist.permissions pg)) <$> Persist.get_group p n
  else None.
Proof.
  unfold Acl.group_permissions.
  assert (∀ l (m : gmap string Perm.Permissions),
    (∀ a b c, (a, b) ∈ l → (a, c) ∈ l → b = c) →
    fold_left (λ m (e : string * Persist.PersistedGroup),
      <[e.1 := Perm.from_bits_truncate (Persist.permissions e.2)]> m) l m !! n =
    match List.find (λ e, String.eqb e.1 n) l with
    | Some e => Some (Perm.from_bits_truncate (Persist.permissions e.2))
    | None => m !! n
    end) as Hfold.
  { induction l as [|[k pg] l IH]; intros m Hl; [done|]. cbn [fold_left List.find fst snd].
    rewrite IH by (intros a b c Ha Hb; apply (Hl a b c); by apply list_elem_of_further).
    destruct (String.eqb_spec k n) as [->|Hne].
    - destruct (List.find _ l) as [[k' pg']|] eqn:Ef; [|by rewrite lookup_insert_eq].
      apply find_Some_iff in Ef as [Hin Hk]. apply String.eqb_eq in Hk. cbn in Hk. subst k'. cbn.
      rewrite (Hl n pg pg'); [done|apply list_elem_of_here|by apply list_elem_of_further].
    - destruct (List.find _ l); [done|]. by rewrite lookup_insert_ne. }
  rewrite Hfold.
  - destruct (List.find _ _) as [[k pg]|] eqn:Ef.
    + apply find_Some_iff in Ef as [Hin Hk]. apply String.eqb_eq in Hk. cbn in Hk. subst k.
      apply list_groups_elem in Hin as [-> ->]. done.
    + rewrite lookup_empty. destruct (utf8_valid (as_bytes n)) eqn:Eu; [|done].
      destruct (Persist.get_group p n) as [pg|] eqn:Eg; [|done]. exfalso.
      rewrite find_None_iff in Ef. specialize (Ef (n, pg)). cbn in Ef. rewrite String.eqb_refl in Ef.
      discriminate Ef. by apply list_groups_elem.
  - intros a b c Ha Hb. apply list_groups_elem in Ha as [_ Ha], Hb as [_ Hb]. congruence.
Qed.

(** At the root, without a rule there, the permissions are those of the groups. *)
Lemma root_permissions ug gp :
  Perm.effective_permissions ug gp [(Types.ROOT_ROOM_UUID, None)] false =
  Perm.base_permissions ug gp Perm.empty.
Proof.
  unfold Perm.effective_permissions. cbv zeta. rewrite Perm.walk_chain_cons. cbv zeta.
  reflexivity.
Qed.

(** Dropping expired memberships touches two trees only. *)
Lemma active_loop_view k now names active j (p : Persist.Persistence T) :
  j ≠ Persist.TUserGroups → j ≠ Persist.TExpiries →
  Persist.pview j (Persist.active_loop k now names active p).2 = Persist.pview j p.
Proof.
  intros Hj1 Hj2. revert active p. induction names as [|g names IH]; intros active p; [done|].
  cbn [Persist.active_loop]. unfold mbind at 1, ST_bind at 1, gets. destruct (_ && _); [|apply IH].
  unfold Persist.ignore, mbind, ST_bind. rewrite IH, Persist.remove_user_from_group_view.
  by destruct j.
Qed.

Lemma active_user_groups_view k now j (p : Persist.Persistence T) :
  j ≠ Persist.TUserGroups → j ≠ Persist.TExpiries →
  Persist.pview j (Persist.active_user_groups k now p).2 = Persist.pview j p.
Proof. apply active_loop_view. Qed.

Lemma active_user_groups_result k now (p : Persist.Persistence T) :
  NoDup (Persist.get_user_groups p k) →
  (Persist.active_user_groups k now p).1 =
  retain (λ g, negb (Persist.timed_out p now k g)) (Persist.get_user_groups p k).
Proof.
  intros Hnd. unfold Persist.active_user_groups, mbind, ST_bind, gets.
  pose proof (Persist.active_loop_spec k now (Persist.get_user_groups p k) [] p Hnd) as Hl.
  destruct (Persist.active_loop _ _ _ _ _) as [act p']. by destruct Hl as (-> & _).
Qed.

(** The groups that count at login. *)
Definition login_group (p : Persist.Persistence T) (k : Types.PublicKey) (now : N) (g : string) : Prop :=
  g = "default" ∨
  (g ∈ Persist.get_user_groups p k ∧ Persist.timed_out p now k g = false) ∨
  (∃ u, Persist.get_registered_user p k = Some u ∧ Persist.username u = g).

(** A key whose groups hold the BANNED permission. *)
Definition barred (p : Persist.Persistence T) (k : Types.PublicKey) (now : N) : Prop :=
  ∃ g pg, login_group p k now g ∧ utf8_valid (as_bytes g) = true ∧
          Persist.get_group p g = Some pg ∧ N.testbit (Persist.permissions pg) 22 = true.

Lemma is_banned_run k now (w : W) :
  NoDup (Persist.get_user_groups (Wld.persistence w) k) →
  ((is_banned k now w).1 = true ↔ barred (Wld.persistence w) k now) ∧
  (is_banned k now w).2 =
    Wld.with_persistence (λ p, (Persist.active_user_groups k now p).2) w.
Proof.
  intros Hnd. unfold is_banned. run. split; [|by destruct w].
  set (p := Wld.persistence w). set (p' := (Persist.active_user_groups k now p).2).
  assert (∀ g, Persist.get_group p' g = Persist.get_group p g) as Hg.
  { intros g. unfold p'. by rewrite !Persist.get_group_view, active_user_groups_view. }
  assert (Persist.get_registered_user p' k = Persist.get_registered_user p k) as Hr.
  { unfold p'. by rewrite !Persist.get_registered_user_view, active_user_groups_view. }
  change (Wld.persistence (Wld.with_persistence (λ _, (Persist.active_user_groups k now p).2) w)) with p'.
  unfold p. rewrite active_user_groups_result by done. fold p.
  set (active := retain _ _).
  rewrite root_permissions, Persist.contains_BANNED, Perm.base_permissions_bit.
  unfold Perm.empty. rewrite N.bits_0. cbn [orb]. unfold Perm.base_bit.
  rewrite existsb_elem_of.
  assert (∀ g, g ∈ check_groups active (Persist.get_registered_user p' k) ↔ login_group p k now g) as Hc.
  { intros g. unfold check_groups, login_group, active. rewrite Hr.
    destruct (Persist.get_registered_user p k) as [u|];
      rewrite ?elem_of_push_unique, Acl.elem_of_fold_push, list_elem_of_singleton, elem_of_retain, negb_true_iff.
    - split; [intros [->|[?|?]]; eauto|]. intros [?|[?|(? & [= <-] & <-)]]; auto.
    - split; [intros [?|?]; eauto|]. intros [?|[?|(? & [=] & _)]]; auto. }
  split.
  - intros (g & Hin & Hb). rewrite group_permissions_lookup, Hg in Hb.
    destruct (utf8_valid (as_bytes g)) eqn:Eu; [|done].
    destruct (Persist.get_group p g) as [pg|] eqn:Eg; [|done]. cbn in Hb.
    exists g, pg. rewrite <- Hc. repeat split; try done.
    unfold Perm.from_bits_truncate in Hb. rewrite N.land_spec in Hb. by apply andb_prop in Hb as [? _].
  - intros (g & pg & Hin & Hu & Eg & Hb). exists g. rewrite Hc. split; [done|].
    rewrite group_permissions_lookup, Hu, Hg, Eg. cbn. unfold Perm.from_bits_truncate.
    by rewrite N.land_spec, Hb.
Qed.
(** ** What a takeover leaves alone *)

(** Up to the teardown flags, members, memberships, sessions and rate limits. *)
Definition quiet (w w' : W) : Prop :=
  (∀ x, St.with_torn_down (λ _, true) (Wld.handle_at w' x) =
        St.with_torn_down (λ _, true) (Wld.handle_at w x)) ∧
  (Wld.identities w' = Wld.identities w ∧ Wld.persistence w' = Wld.persistence w) ∧
  (St.rooms (Wld.data w') = St.rooms (Wld.data w) ∧
   St.pending_auth (Wld.server w') = St.pending_auth (Wld.server w)).

#[local] Instance quiet_preorder : PreOrder quiet.
Proof.
  split; [by intros w|]. intros w1 w2 w3 (A1 & (A2 & A3) & A4 & A5) (B1 & (B2 & B3) & B4 & B5).
  split; [intros x; by rewrite B1|]. repeat split; congruence.
Qed.

Lemma quiet_frame {A} (m : ST W A) : keeps (same Wld.frame_of) m → keeps quiet m.
Proof.
  intros Hm w. specialize (Hm w). apply Wld.frame_fields in Hm as (F1 & F2 & F3 & F4 & _).
  unfold quiet, Wld.handle_at, Wld.data. by rewrite F1, F2, F3, F4.
Qed.

Lemma quiet_set_server f :
  (∀ s, St.rooms (St.state_data (f s)) = St.rooms (St.state_data s) ∧ St.pending_auth (f s) = St.pending_auth s) →
  keeps quiet (Wld.set_server f).
Proof. intros Hf w. destruct (Hf (Wld.server w)). by repeat split. Qed.

Lemma quiet_set_data f : (∀ d, St.rooms (f d) = St.rooms d) → keeps quiet (Wld.set_data f).
Proof. intros Hf. apply quiet_set_server. intros s. by split; [apply Hf|]. Qed.

Lemma quiet_remove_client k : keeps quiet (Wld.on_server (St.remove_client k)).
Proof. intros w. rewrite Wld.on_server_run. by repeat split. Qed.

Lemma quiet_begin_teardown h : keeps quiet (Session.begin_teardown h).
Proof.
  intros w. unfold Session.begin_teardown, St.begin_teardown.
  assert (∀ hd, St.with_torn_down (λ _, true) hd = St.with_torn_down (λ _, true) (Wld.handle_at w h) →
    quiet w (Wld.with_handles (<[h := hd]>) w)) as Hq.
  { intros hd Hd. split; [|by repeat split]. intros x. unfold Wld.handle_at at 1. cbn.
    destruct (decide (x = h)) as [->|Hne]; [by rewrite lookup_insert_eq|by rewrite lookup_insert_ne]. }
  destruct (St.torn_down _); apply Hq; by destruct (Wld.handle_at w h).
Qed.

Ltac quiet_step :=
  lazymatch goal with
  | |- keeps _ (Wld.ignore _) => apply Wld.keeps_ignore; [apply _|]
  | |- keeps _ (Wld.set_data _) => apply quiet_set_data; intros ?; reflexivity
  | |- keeps _ (Wld.set_server (St.remove_session _)) =>
      apply quiet_set_server; intros s; unfold St.remove_session; by destruct (St.sessions s !! _)
  | |- keeps _ (Wld.set_server _) => apply quiet_set_server; intros ?; split; reflexivity
  | |- keeps _ (Wld.on_server (St.remove_client _)) => apply quiet_remove_client
  | |- keeps _ (Wld.send_frame _ _ _) => apply quiet_frame, Wld.send_frame_frame
  | |- keeps _ (Wld.close_conn _ _ _) => apply quiet_frame, Wld.close_conn_frame
  | |- keeps _ (Wld.broadcast_state_update _) => apply quiet_frame, Wld.broadcast_state_update_frame
  | |- keeps _ (Session.begin_teardown _) => apply quiet_begin_teardown
  | |- keeps _ (Session.cleanup_client _) => unfold Session.cleanup_client, Session.cleanup_participant
  | |- _ => keeps_step
  end.

Lemma quiet_evict on_disconnect key name h :
  (∀ x, keeps (same Wld.frame_of) (on_disconnect x)) →
  keeps quiet (Session.evict_superseded_sessions on_disconnect key name h).
Proof.
  intros Hp. unfold Session.evict_superseded_sessions, Session.evict_one.
  repeat first [ quiet_step | apply quiet_frame, Hp ].
Qed.
(** ** What a login must pass *)

Definition lifted (k : Types.PublicKey) (now : N) (p : Persist.Persistence T) : Persist.Persistence T :=
  match Persist.get_ban p k with
  | Some ban =>
      if Persist.is_expired ban now
      then (Persist.remove_user_from_group k "banned" (Persist.remove_ban k p).2).2
      else p
  | None => p
  end.

Lemma lift_run k now (w : W) :
  lift_expired_ban k now w = (tt, Wld.with_persistence (lifted k now) w).
Proof.
  unfold lift_expired_ban, lifted. unfold_goal_st.
  destruct (Persist.get_ban (Wld.persistence w) k) as [ban|] eqn:Eb; cbn beta iota; unfold Wld.with_persistence.
  - destruct (Persist.is_expired ban now) eqn:Ee; run; unfold Wld.with_persistence; rewrite Eb, Ee; by destruct w.
  - rewrite Eb. by destruct w.
Qed.

Lemma lifted_NoDup k now p k' :
  NoDup (Persist.get_user_groups p k') → NoDup (Persist.get_user_groups (lifted k now p) k').
Proof.
  unfold lifted. destruct (Persist.get_ban p k) as [ban|]; [|done].
  destruct (Persist.is_expired ban now); [|done]. rewrite Persist.remove_user_from_group_get.
  assert (∀ i, Persist.get_user_groups (Persist.remove_ban k p).2 i = Persist.get_user_groups p i) as E.
  { intros i. unfold Persist.remove_ban. by rewrite !Persist.get_user_groups_view, Persist.on_remove_view, decide_False. }
  rewrite !E. destruct (decide _) as [->|]; [|done]. apply NoDup_retain.
Qed.

Lemma lifted_view k now j p :
  j ≠ Persist.TUserGroups → j ≠ Persist.TExpiries → j ≠ Persist.TBans →
  Persist.pview j (lifted k now p) = Persist.pview j p.
Proof.
  intros H1' H2' H3'. unfold lifted. destruct (Persist.get_ban p k) as [ban|]; [|done].
  destruct (Persist.is_expired ban now); [|done].
  unfold Persist.remove_ban.
  destruct j; try done; by rewrite Persist.remove_user_from_group_view, Persist.on_remove_view, decide_False.
Qed.

Lemma active_user_groups_NoDup k now p i :
  (∀ i, NoDup (Persist.get_user_groups p i)) →
  NoDup (Persist.get_user_groups (Persist.active_user_groups k now p).2 i).
Proof.
  intros Hnd. unfold Persist.active_user_groups, mbind, ST_bind, gets.
  pose proof (Persist.active_loop_spec k now (Persist.get_user_groups p k) [] p (Hnd k)) as Hl.
  destruct (Persist.active_loop _ _ _ _ _) as [act p']. destruct Hl as (_ & Hl & _). cbn [snd]. rewrite Hl.
  destruct (decide _); [apply NoDup_retain|]; apply Hnd.
Qed.

Lemma lifted_expired k now p ban :
  Persist.get_ban p k = Some ban → Persist.is_expired ban now = true →
  Persist.get_ban (lifted k now p) k = None ∧
  ¬ ("banned" ∈ Persist.get_user_groups (lifted k now p) k) ∧
  ∀ g, g ≠ "banned" → g ∈ Persist.get_user_groups (lifted k now p) k ↔ g ∈ Persist.get_user_groups p k.
Proof.
  intros Hb He. unfold lifted. rewrite Hb, He. split; [|split].
  - rewrite Persist.get_ban_view, Persist.remove_user_from_group_view. unfold Persist.remove_ban.
    rewrite Persist.on_remove_view, decide_True by done. unfold view_record. by rewrite lookup_delete_eq.
  - rewrite Persist.remove_user_from_group_get, decide_True by done. unfold Persist.without.
    intros [_ Hn]%elem_of_retain. by rewrite String.eqb_refl in Hn.
  - intros g Hg. rewrite Persist.remove_user_from_group_get, decide_True by done. unfold Persist.without.
    rewrite elem_of_retain, negb_true_iff, String.eqb_neq. unfold Persist.remove_ban.
    rewrite Persist.get_user_groups_view, Persist.on_remove_view, decide_False by done.
    rewrite <- Persist.get_user_groups_view. intuition.
Qed.

Record login_checks (now_ms : Z) (now_secs : N) (auth : Proto.Authenticate) (h : N) (w : W)
    (pending : St.PendingAuth) (entry : St.SessionEntry) : Prop := {
  lc_pending : St.pending_auth (Wld.server w) !! h = Some pending;
  lc_time : (Z.abs (now_ms - Proto.auth_timestamp_ms auth) <= 300000)%Z;
  lc_signature : ∃ sig, Proto.auth_signature auth = arr sig ∧
    ext_verify (St.pa_public_key pending)
      (Wire.build_auth_payload (St.pa_nonce pending) (Proto.auth_timestamp_ms auth)
         (St.pa_public_key pending) (St.pa_user_id pending)
         (Wire.compute_cert_hash ext_sha256 (St.server_cert_der (Wld.server w)))) sig = true;
  lc_key : ext_valid_key (St.pa_public_key pending) = true;
  lc_not_barred : ¬ barred (lifted (St.pa_public_key pending) now_secs (Wld.persistence w))
                      (St.pa_public_key pending) now_secs;
  lc_cert : check_session_cert now_ms (St.pa_public_key pending) (Proto.auth_session_cert auth) = Ok entry;
}.

Definition in_i64 (z : Z) : Prop := (- 2 ^ 63 <= z < 2 ^ 63)%Z.

Lemma clock_skew a b : in_i64 a → in_i64 b →
  (max_clock_skew_ms <? saturating_abs_i64 (saturating_sub_i64 a b))%Z = (300000 <? Z.abs (a - b))%Z.
Proof.
  unfold in_i64, max_clock_skew_ms, saturating_abs_i64, saturating_sub_i64, clamp_i64, i64_min, i64_max.
  intros Ha Hb. apply eq_bool_prop_intro. rewrite !Is_true_true, !Z.ltb_lt. lia.
Qed.

(** A refused login. *)
Definition refused (h : N) (w w' : W) : Prop :=
  Wld.handles w' = Wld.handles w ∧ Wld.identities w' = Wld.identities w ∧
  Wld.server w' = St.with_pending_auth (delete h) (Wld.server w) ∧ h ∈ Wld.closed w'.

Lemma auth_failed_run h e (w : W) :
  (send_auth_failed h e w).1 = Ok tt ∧ Wld.frame_of (send_auth_failed h e w).2 = Wld.frame_of w ∧
  h ∈ Wld.closed (send_auth_failed h e w).2.
Proof.
  unfold send_auth_failed. run. rewrite Wld.close_conn_run. cbn [fst snd].
  split; [done|]. split; [|apply Wld.closed_close_conn].
  rewrite Wld.closed_conn_frame. apply Wld.send_frame_frame.
Qed.

(** The world once the pending entry is taken and expiries are applied. *)
Definition taken (h : N) (w : W) : W := Wld.with_server (St.with_pending_auth (delete h)) w.

Lemma failed_refused h e f (w : W) :
  refused h w (send_auth_failed h e (Wld.with_persistence f (taken h w))).2.
Proof.
  destruct (auth_failed_run h e (Wld.with_persistence f (taken h w))) as (_ & F & C).
  apply Wld.frame_fields in F as (F1 & F2 & F3 & _). unfold refused. by rewrite F1, F2, F3.
Qed.

Lemma failed_refused' h e (w : W) : refused h w (send_auth_failed h e (taken h w)).2.
Proof. exact (failed_refused h e (λ p, p) w). Qed.

(** Either every check passes and the session is accepted, or the login is refused. *)
Lemma authenticate_cases on_disconnect now_ms now_secs now_secs' auth h (w : W) :
  (∀ k, NoDup (Persist.get_user_groups (Wld.persistence w) k)) →
  in_i64 now_ms → in_i64 (Proto.auth_timestamp_ms auth) →
  (∃ pending entry p', login_checks now_ms now_secs auth h w pending entry ∧
     (∀ i, Persist.get_registered_user p' i = Persist.get_registered_user (Wld.persistence w) i) ∧
     (∀ i, NoDup (Persist.get_user_groups p' i)) ∧
     handle_authenticate on_disconnect now_ms now_secs now_secs' auth h w =
     accept_session on_disconnect now_secs' pending entry h
       (Wld.with_persistence (λ _, p') (taken h w))) ∨
  ((¬ ∃ pending entry, login_checks now_ms now_secs auth h w pending entry) ∧
   (handle_authenticate on_disconnect now_ms now_secs now_secs' auth h w).1 = Ok tt ∧
   refused h w (handle_authenticate on_disconnect now_ms now_secs now_secs' auth h w).2).
Proof.
  intros Hnd Hn Ht. unfold handle_authenticate. run. cbn [St.take_pending_auth fst snd].
  change (Wld.with_server (λ _, St.with_pending_auth (delete h) (Wld.server w)) w) with (taken h w).
  destruct (St.pending_auth (Wld.server w) !! h) as [pending|] eqn:Ep.
  2: { right. split; [|split; [apply auth_failed_run|apply failed_refused']].
       intros (q & e & [Hq _ _ _ _ _]). congruence. }
  rewrite clock_skew by done. destruct (Z.ltb_spec 300000 (Z.abs (now_ms - Proto.auth_timestamp_ms auth))) as [Hl|Hl].
  { right. split; [|split; [apply auth_failed_run|apply failed_refused']].
    intros (q & e & [_ Hq _ _ _ _]). lia. }
  assert (∀ (P : Prop), (∀ q e, login_checks now_ms now_secs auth h w q e → q = pending → P) →
    (∃ q e, login_checks now_ms now_secs auth h w q e) → P) as Hbad.
  { intros P HP (q & e & Hq). apply (HP q e Hq). destruct Hq as [Hq _ _ _ _ _]. congruence. }
  destruct (array_of_slice 64 (Proto.auth_signature auth)) as [sig|] eqn:Es.
  2: { right. split; [|split; [apply auth_failed_run|apply failed_refused']].
       refine (Hbad False _). intros q e [_ _ (sig & Hs & _) _ _ _] _. rewrite Hs in Es.
       by rewrite array_of_slice_arr in Es. }
  apply array_of_slice_Some in Es.
  destruct (ext_valid_key (St.pa_public_key pending)) eqn:Ek; cbn [negb].
  2: { right. split; [|split; [apply auth_failed_run|apply failed_refused']].
       refine (Hbad False _). intros q e [_ _ _ Hq _ _] ->. congruence. }
  change (expected_payload (taken h w) pending (Proto.auth_timestamp_ms auth))
    with (expected_payload w pending (Proto.auth_timestamp_ms auth)).
  destruct (ext_verify _ (expected_payload _ _ _) sig) eqn:Ev; cbn [negb].
  2: { right. split; [|split; [apply auth_failed_run|apply failed_refused']].
       refine (Hbad False _). intros q e [_ _ (sig' & Hs & Hv) _ _ _] ->.
       assert (sig' = sig) as -> by (apply array_eq; congruence). unfold expected_payload in Ev. congruence. }
  unfold_goal_st. rewrite lift_run.
  set (k := St.pa_public_key pending) in *. set (w1 := Wld.with_persistence (lifted k now_secs) (taken h w)).
  assert (NoDup (Persist.get_user_groups (Wld.persistence w1) k)) as Hnd1 by (by apply lifted_NoDup).
  destruct (is_banned_run k now_secs w1 Hnd1) as [Hb1 Hb2].
  destruct (is_banned k now_secs w1) as [b w2]. cbn [fst snd] in Hb1, Hb2. subst w2.
  set (p' := (Persist.active_user_groups k now_secs (lifted k now_secs (Wld.persistence w))).2).
  change (Wld.with_persistence (λ p, (Persist.active_user_groups k now_secs p).2) w1)
    with (Wld.with_persistence (λ _, p') (taken h w)).
  change (Wld.persistence w1) with (lifted k now_secs (Wld.persistence w)) in Hb1.
  destruct b.
  { right. split; [|split; [apply auth_failed_run|apply failed_refused]].
    refine (Hbad False _). intros q e [_ _ _ _ Hq _] ->. by apply Hq, Hb1. }
  destruct (check_session_cert now_ms k (Proto.auth_session_cert auth)) as [entry|e] eqn:Ec.
  2: { right. split; [|split; [apply auth_failed_run|apply failed_refused]].
       refine (Hbad False _). intros q e' [_ _ _ _ _ Hq] ->. fold k in Hq. congruence. }
  left. exists pending, entry, p'. split; [|split; [|split; [|done]]].
  - split; [done|done|by exists sig|done| |done]. intros Hb%Hb1. done.
  - intros i. unfold p'. rewrite !Persist.get_registered_user_view, active_user_groups_view by done.
    by rewrite lifted_view.
  - intros i. apply active_user_groups_NoDup. intros j. by apply lifted_NoDup.
Qed.
(** ** What an accepted login sets up *)

Lemma active_after k now (p : Persist.Persistence T) :
  NoDup (Persist.get_user_groups p k) →
  let '(act, p') := Persist.active_user_groups k now p in
  Persist.get_user_groups p' k = act ∧ ∀ g, g ∈ act → Persist.timed_out p' now k g = false.
Proof.
  intros Hnd. unfold Persist.active_user_groups, mbind, ST_bind, gets.
  pose proof (Persist.active_loop_spec k now (Persist.get_user_groups p k) [] p Hnd) as Hl.
  destruct (Persist.active_loop _ _ _ _ _) as [act p']. destruct Hl as (Ha & Hg & He). cbn [app] in Ha. split.
  - rewrite Hg, decide_True by done. rewrite Ha. apply retain_ext. intros g Hgi. by rewrite bool_decide_true.
  - intros g Hgi. rewrite Ha in Hgi. apply elem_of_retain in Hgi as [_ Ht]. apply negb_true_iff in Ht.
    unfold Persist.timed_out in *. rewrite He, decide_True by done. fold (Persist.timed_out p now k g) in *.
    destruct (bool_decide _ && Persist.timed_out p now k g); [done|exact Ht].
Qed.

(** The session the server starts for connection [h]. *)
Record logged_in (h : N) (key : Types.PublicKey) (entry : St.SessionEntry) (name : string)
    (room : Types.Uuid) (verified : option string) (now : N) (w' : W) : Prop := {
  li_authenticated : St.authenticated (Wld.handle_at w' h) = true;
  li_session : St.sessions (Wld.server w') !! h = Some entry;
  li_room : St.get_user_room (Wld.data w') h = Some room;
  li_verified : St.verified_username (Wld.identity_of w' h) = verified;
  li_name : St.display_name (Wld.identity_of w' h) = default name verified;
  li_groups : ∀ g, g ∈ St.id_groups (Wld.identity_of w' h) ↔
    g = "default" ∨ g ∈ Persist.get_user_groups (Wld.persistence w') key;
  li_active : ∀ g, g ∈ Persist.get_user_groups (Wld.persistence w') key →
    Persist.timed_out (Wld.persistence w') now key g = false;
}.

Lemma initial_room_ext (w w' : W) k :
  Persist.get_registered_user (Wld.persistence w') k = Persist.get_registered_user (Wld.persistence w) k →
  St.rooms (Wld.data w') = St.rooms (Wld.data w) → initial_room w' k = initial_room w k.
Proof. intros E1 E2. unfold initial_room. by rewrite E1, E2. Qed.

(** The part of [accept_session] before the takeover. *)
Lemma load_identity_run k now h (w : W) :
  NoDup (Persist.get_user_groups (Wld.persistence w) k) →
  let '(v, w') := load_identity k now h w in
  v = Persist.username <$> Persist.get_registered_user (Wld.persistence w) k ∧
  Wld.server w' = Wld.server w ∧ Wld.handles w' = Wld.handles w ∧
  Wld.persistence w' = (Persist.active_user_groups k now (Wld.persistence w)).2 ∧
  St.verified_username (Wld.identity_of w' h) = v ∧
  (∀ g, g ∈ St.id_groups (Wld.identity_of w' h) ↔
        g = "default" ∨ g ∈ (Persist.active_user_groups k now (Wld.persistence w)).1).
Proof.
  intros Hnd. unfold load_identity. run.
  set (p' := (Persist.active_user_groups k now (Wld.persistence w)).2).
  assert (Persist.get_registered_user p' k = Persist.get_registered_user (Wld.persistence w) k) as Hr.
  { unfold p'. by rewrite !Persist.get_registered_user_view, active_user_groups_view. }
  cbn [Wld.persistence Wld.with_persistence Wld.with_identities]. fold p'. rewrite Hr.
  split; [done|]. split; [done|]. split; [done|]. split; [done|].
  unfold Wld.identity_of, Wld.identity_at, Wld.handle_at.
  cbn [Wld.identities Wld.with_persistence Wld.with_identities Wld.handles].
  rewrite !lookup_insert_eq. cbn. split; [done|]. intros g.
  rewrite Acl.elem_of_fold_push, list_elem_of_singleton. done.
Qed.
(** The writes on the connection at the end of a login. *)
Definition announce (sender : N) (name : string) (room : Types.Uuid) : ST W (result unit) :=
  Session.send_server_state_to_client sender ;?
  (groups ← gets (λ w, St.id_groups (Wld.identity_of w sender));
   Wld.broadcast_state_update (Proto.UserJoined (Some
     (Proto.mkUser (Some (Proto.mkUserId sender)) name
        (Some (Types.room_id_from_uuid room)) false false false false groups None))) ;?
   (welcome ← gets (λ w, St.welcome_message (Wld.server w));
    match welcome with
    | Some welcome_text => Wld.ignore (Wld.send_frame sender [] (Proto.EvWelcomeMessage welcome_text))
    | None => mret tt
    end;;
    done_ok)).

Lemma announce_frame sender name room : keeps (same Wld.frame_of) (announce sender name room).
Proof.
  unfold announce, Session.send_server_state_to_client.
  repeat first [ apply Wld.send_frame_frame | apply Wld.broadcast_state_update_frame
               | apply Wld.keeps_ignore; [apply _|] | keeps_step ].
Qed.

(** The world a login starts its takeover from. *)
Definition prepared (now : N) (pending : St.PendingAuth) (h : N) (w : W) : option string * W :=
  (Wld.set_handle h (St.with_authenticated (λ _, true));;
   Wld.ignore (Wld.on_persist (Persist.add_known_key (St.pa_public_key pending)));;
   verified ← load_identity (St.pa_public_key pending) now h;
   identity ← gets (λ w, St.h_identity (Wld.handle_at w h));
   Wld.set_identity identity (St.with_display_name (λ _, default (St.pa_username pending) verified));;
   mret verified) w.

Lemma accept_session_run on_disconnect now pending entry h (w : W) :
  (accept_session on_disconnect now pending entry h w).2 =
  let '(v, w1) := prepared now pending h w in
  let name := default (St.pa_username pending) v in
  let w2 := (Session.evict_superseded_sessions on_disconnect (St.pa_public_key pending) name h w1).2 in
  let w3 := Wld.with_server (St.add_session h entry) w2 in
  let room := initial_room w3 (St.pa_public_key pending) in
  (announce h name room (Wld.with_server (St.with_state_data (St.set_user_room h room)) w3)).2.
Proof.
  unfold accept_session, prepared. unfold_goal_st.
  destruct (Wld.ignore _ _) as [[] wa]. destruct (load_identity _ _ _ wa) as [v wb].
  by destruct (Session.evict_superseded_sessions _ _ _ _ _) as [[] w2].
Qed.

Lemma prepared_facts now pending h (w : W) :
  let k := St.pa_public_key pending in
  NoDup (Persist.get_user_groups (Wld.persistence w) k) →
  let '(v, w1) := prepared now pending h w in
  v = Persist.username <$> Persist.get_registered_user (Wld.persistence w) k ∧
  Wld.server w1 = Wld.server w ∧
  Persist.get_registered_user (Wld.persistence w1) k = Persist.get_registered_user (Wld.persistence w) k ∧
  St.authenticated (Wld.handle_at w1 h) = true ∧
  St.verified_username (Wld.identity_of w1 h) = v ∧
  St.display_name (Wld.identity_of w1 h) = default (St.pa_username pending) v ∧
  (∀ g, g ∈ St.id_groups (Wld.identity_of w1 h) ↔
    g = "default" ∨ g ∈ Persist.get_user_groups (Wld.persistence w1) k) ∧
  (∀ g, g ∈ Persist.get_user_groups (Wld.persistence w1) k →
    Persist.timed_out (Wld.persistence w1) now k g = false).
Proof.
  intros k Hnd. unfold prepared. fold k. unfold_goal_st. rewrite Wld.ignore_run. cbn [fst snd].
  rewrite Wld.on_persist_run. cbn [fst snd].
  set (w0 := Wld.with_persistence _ _).
  assert (∀ i, Persist.get_user_groups (Wld.persistence w0) i = Persist.get_user_groups (Wld.persistence w) i) as E0.
  { intros i. unfold w0, Persist.add_known_key. cbn. by rewrite !Persist.get_user_groups_view, Persist.on_insert_view, decide_False. }
  assert (Persist.get_registered_user (Wld.persistence w0) k = Persist.get_registered_user (Wld.persistence w) k) as Er.
  { unfold w0, Persist.add_known_key. cbn. by rewrite !Persist.get_registered_user_view, Persist.on_insert_view, decide_False. }
  assert (NoDup (Persist.get_user_groups (Wld.persistence w0) k)) as Hnd0 by (by rewrite E0).
  pose proof (load_identity_run k now h w0 Hnd0) as Hl. pose proof (active_after k now _ Hnd0) as Ha.
  destruct (load_identity k now h w0) as [v w1]. destruct Hl as (-> & L2 & L3 & L4 & L5 & L6).
  destruct (Persist.active_user_groups k now (Wld.persistence w0)) as [act p'] eqn:Eact. cbn [fst snd] in *.
  destruct Ha as [Ha1 Ha2]. rewrite Er in *. split; [done|]. split; [done|]. cbn [Wld.persistence Wld.with_identities].
  assert (p' = (Persist.active_user_groups k now (Wld.persistence w0)).2) as Ep' by (by rewrite Eact).
  split; [rewrite L4, Ep', !Persist.get_registered_user_view, active_user_groups_view by done;
          by rewrite <- !Persist.get_registered_user_view|].
  split. { unfold Wld.handle_at. cbn. rewrite L3. unfold w0. cbn. by rewrite lookup_insert_eq. }
  unfold Wld.identity_of, Wld.identity_at, Wld.handle_at.
  cbn [Wld.identities Wld.with_identities Wld.handles]. rewrite lookup_insert_eq. cbn.
  split; [exact L5|]. split; [done|]. split; [|rewrite L4; intros g Hg; apply Ha2; congruence].
  intros g. rewrite L4, Ha1. exact (L6 g).
Qed.

Lemma accept_effect on_disconnect now pending entry h (w : W) :
  (∀ x, keeps (same Wld.frame_of) (on_disconnect x)) →
  NoDup (Persist.get_user_groups (Wld.persistence w) (St.pa_public_key pending)) →
  let w' := (accept_session on_disconnect now pending entry h w).2 in
  logged_in h (St.pa_public_key pending) entry (St.pa_username pending)
    (initial_room w (St.pa_public_key pending))
    (Persist.username <$> Persist.get_registered_user (Wld.persistence w) (St.pa_public_key pending)) now w' ∧
  St.pending_auth (Wld.server w') = St.pending_auth (Wld.server w) ∧
  St.rooms (Wld.data w') = St.rooms (Wld.data w).
Proof.
  intros Hp Hnd. rewrite accept_session_run. set (k := St.pa_public_key pending) in *.
  pose proof (prepared_facts now pending h w Hnd) as Hf. destruct (prepared now pending h w) as [v w1].
  destruct Hf as (-> & F2 & F3 & F4 & F5 & F6 & F7 & F8). fold k in F3, F6, F7, F8 |- *. cbv zeta.
  set (name := default _ _). set (w2 := (Session.evict_superseded_sessions _ _ _ _ _).2).
  destruct (quiet_evict on_disconnect k name h Hp w1) as (Q1 & (Q2 & Q3) & Q4 & Q5). fold w2 in Q1, Q2, Q3, Q4, Q5.
  set (w3 := Wld.with_server (St.add_session h entry) w2).
  assert (initial_room w3 k = initial_room w k) as Hroom.
  { apply initial_room_ext; [cbn; congruence|]. change (St.rooms (Wld.data w3)) with (St.rooms (Wld.data w2)).
    rewrite Q4. unfold Wld.data. by rewrite F2. }
  rewrite Hroom. set (w4 := Wld.with_server _ w3).
  pose proof (announce_frame h name (initial_room w k) w4) as Hfr. unfold same in Hfr.
  apply Wld.frame_fields in Hfr as (A1 & A2 & A3 & A4 & _).
  set (w' := (announce _ _ _ w4).2) in *.
  assert (∀ x, St.with_torn_down (λ _, true) (Wld.handle_at w' x) = St.with_torn_down (λ _, true) (Wld.handle_at w1 x)) as Hh.
  { intros x. unfold Wld.handle_at at 1. rewrite A1. exact (Q1 x). }
  assert (Wld.identity_of w' h = Wld.identity_of w1 h) as Hi.
  { unfold Wld.identity_of, Wld.identity_at. rewrite A2. change (Wld.identities w4) with (Wld.identities w2).
    rewrite Q2. specialize (Hh h). destruct (Wld.handle_at w' h), (Wld.handle_at w1 h). cbn in *. by injection Hh as -> -> -> -> -> -> ->. }
  assert (Wld.persistence w' = Wld.persistence w1) as Hpp by (rewrite A4; exact Q3).
  split; [split|split].
  - specialize (Hh h). destruct (Wld.handle_at w' h), (Wld.handle_at w1 h). cbn in *. by injection Hh as -> -> -> -> -> -> ->.
  - rewrite A3. cbn. by rewrite lookup_insert_eq.
  - unfold Wld.data. rewrite A3. cbn. unfold St.get_user_room, St.set_user_room. cbn.
    fold (St.assoc h (retain (λ e : N * Types.Uuid, negb (e.1 =? h)%N) (St.memberships (St.state_data (Wld.server w2))) ++ [(h, initial_room w k)])).
    rewrite St.assoc_app, St.assoc_retain_ne, N.eqb_refl. unfold St.assoc. cbn. by rewrite N.eqb_refl.
  - by rewrite Hi.
  - by rewrite Hi.
  - intros g. by rewrite Hi, Hpp.
  - by rewrite Hpp.
  - rewrite A3. cbn. rewrite Q5. by rewrite F2.
  - unfold Wld.data. rewrite A3. cbn. etrans; [exact Q4|]. unfold Wld.data. by rewrite F2.
Qed.
(** ** Properties *)


End auth.

(** ** Witnesses *)

#[local] Existing Instances Persist.codecs Persist.codecs_laws Session.sample_external.

Definition key9 : Types.PublicKey := array_of_N 32 9.

(** Connection 2 of the sample server has said hello with a new key. *)
Definition hello_world : Wld.World Persist.memory :=
  Wld.with_server (St.set_pending_auth (St.mkPendingAuth (array_of_N 32 77) 2 key9 0 "newbie"))
    Session.sample_world.

Definition sample_auth : Proto.Authenticate :=
  Proto.mkAuthenticate (arr key9 ++ arr key9) 1000
    (Some (Proto.mkSessionCertificate (arr (array_of_N 32 5)) 0 5000 None (arr key9 ++ arr key9))).

Lemma hello_groups k : Persist.get_user_groups (Wld.persistence hello_world) k = [].
Proof. reflexivity. Qed.

Lemma hello_checks : ∃ entry,
  login_checks 2000 2 sample_auth 2 hello_world (St.mkPendingAuth (array_of_N 32 77) 2 key9 0 "newbie") entry.
Proof.
  eexists. split; [reflexivity|cbn; lia| |reflexivity| |vm_compute; reflexivity].
  - exists (array_of_N 64 (9 * 2 ^ 256 + 9)). split; vm_compute; reflexivity.
  - intros (g & pg & Hg & _ & Ep & Hb).
    assert (∀ q, Persist.get_group (Wld.persistence hello_world) g = Some q → N.testbit (Persist.permissions q) 22 = false) as Hno.
    { destruct Hg as [->|[[Hg _]|(u & Hu & _)]].
      - intros q Hq. vm_compute in Hq. injection Hq as <-. reflexivity.
      - rewrite hello_groups in Hg. by apply elem_of_nil in Hg.
      - vm_compute in Hu. discriminate Hu. }
    rewrite Hno in Hb; [discriminate Hb|exact Ep].
Qed.


(** The same key, banned for a minute at second 1. *)
Definition banned_world : Wld.World Persist.memory :=
  Wld.with_persistence (λ p, (Persist.set_ban key9 (Persist.mkPersistedBan (Some 1%N) 60 "spam" "mod")
      (Persist.add_user_to_group key9 "banned" (Persist.create_group "banned" Perm.BANNED p).2).2).2)
    hello_world.

Lemma banned_groups i :
  Persist.get_user_groups (Wld.persistence banned_world) i = if decide (i = key9) then ["banned"] else [].
Proof.
  destruct (decide (i = key9)) as [->|Hne]; [vm_compute; reflexivity|].
  destruct (Persist.add_timed key9 "banned" 0
    (Persist.create_group "banned" Perm.BANNED (Wld.persistence hello_world)).2 ltac:(lia)) as (_ & _ & Hm & _).
  set (p0 := (Persist.create_group "banned" Perm.BANNED (Wld.persistence hello_world)).2) in *.
  assert (Persist.get_user_groups (Wld.persistence banned_world) i
          = Persist.get_user_groups (Persist.add_user_to_group_with_expiry key9 "banned" 0 p0).2 i) as -> by reflexivity.
  destruct (Persist.get_user_groups _ i) as [|g l] eqn:E; [done|]. exfalso.
  assert (g ∈ g :: l) as Hg by apply list_elem_of_here. rewrite <- E, Hm in Hg.
  destruct Hg as [[E' _]|Hg]; [exact (Hne E')|].
  unfold p0 in Hg. rewrite Persist.get_user_groups_view, Persist.create_group_view in Hg by done.
  rewrite <- Persist.get_user_groups_view, hello_groups in Hg. by apply elem_of_nil in Hg.
Qed.


End Auth.
