(* ===== verification/Voice.v ===== *)
(** Voice relay and chat ([build_relay_packet], [dedup_delivery_targets],
    [handle_datagrams], [relay_voice_as], [broadcast_chat_in_room] and its
    callers in [crates/server/src/handlers.rs]).

    A datagram is its decoded message; its bytes are prost's encoding of it.
    Iteration over a hash map is iteration over [map_to_list]. *)
From Stdlib Require Import NArith ZArith Lia String.
From stdpp Require Import base gmap strings list sets.
From S2P Require Import Prelude Permissions Proto Types Store Wire Persistence State World Acl Session Auth.

Module Voice.
Open Scope string_scope.
Open Scope list_scope.

Section voice.
Context {T : Type} `{!KV T} `{!Persist.Codecs} `{!External}.
Abbreviation W := (Wld.World T).

(** ** Voice *)

Record RelayPacket := mkRelayPacket {
  datagram : Proto.VoiceDatagram;
  recipients : list N;
  room : Types.Uuid;
  frame : St.VoiceFrame;
}.

Definition is_controller_conn (w : W) (sender_user_id : N) : bool :=
  match St.get_client (Wld.server w) sender_user_id with
  | Some c => St.is_controller (Wld.handle_at w c)
  | None => false
  end.

(** [None]: a controller claiming a sender that is not its participant. *)
Definition effective_sender (w : W) (sender_user_id : N) (voice_dgram : Proto.VoiceDatagram) : option N :=
  if is_controller_conn w sender_user_id then
    match Proto.vd_sender_id voice_dgram with
    | Some claimed_id =>
        if St.is_participant_of (Wld.server w) claimed_id (St.Connection sender_user_id)
        then Some claimed_id else None
    | None => None
    end
  else Some sender_user_id.

Definition is_server_muted (w : W) (sender_user_id : N) : bool :=
  negb (is_controller_conn w sender_user_id) &&
  match St.get_client (Wld.server w) sender_user_id with
  | Some c => St.server_muted (Wld.handle_at w c)
  | None => false
  end.

(** The first room whose member list has the user. *)
Definition find_room_of (room_memberships : gmap Types.Uuid (list N)) (user : N) : option Types.Uuid :=
  fst <$> List.find (λ e : Types.Uuid * list N, contains e.2 user) (map_to_list room_memberships).

Definition room_recipients (room_memberships : gmap Types.Uuid (list N)) (deafened : gset N)
    (room : Types.Uuid) (sender : N) : list N :=
  match room_memberships !! room with
  | Some members => retain (λ id, negb (id =? sender)%N && negb (bool_decide (id ∈ deafened))) members
  | None => []
  end.

Definition stamp (sender : N) (room : Types.Uuid) (d : Proto.VoiceDatagram) : Proto.VoiceDatagram :=
  Proto.mkVoiceDatagram (Proto.vd_opus_data d) (Proto.vd_sequence d) (Proto.vd_timestamp_us d)
    (Proto.vd_end_of_stream d) (Some sender) (Some (arr room)).

Definition voice_frame (sender : N) (d : Proto.VoiceDatagram) : St.VoiceFrame :=
  St.mkVoiceFrame sender (Proto.vd_opus_data d) (Proto.vd_sequence d) (Proto.vd_timestamp_us d)
    (Proto.vd_end_of_stream d).

(** [now]: the clock of the rate limiter, in nanoseconds. *)
Definition build_relay_packet (now sender_user_id : N) (voice_dgram : Proto.VoiceDatagram)
    (datagram_len : N) : ST W (option RelayPacket) :=
  sender ← gets (λ w, effective_sender w sender_user_id voice_dgram);
  match sender with
  | None => mret None
  | Some sender =>
      server_muted ← gets (λ w, is_server_muted w sender_user_id);
      status ← gets (λ w, St.get_user_status (Wld.data w) sender);
      if server_muted : bool then mret None
      else if St.us_is_muted status then mret None
      else
        allowed ← Wld.on_server (St.check_voice_rate now sender_user_id datagram_len);
        if negb allowed then mret None
        else
          routing ← gets (λ w, St.snapshot_voice_routing (Wld.data w));
          mret (match find_room_of routing.1 sender with
                | None => None
                | Some actual_room =>
                    Some (mkRelayPacket (stamp sender actual_room voice_dgram)
                      (room_recipients routing.1 routing.2 actual_room sender) actual_room
                      (voice_frame sender voice_dgram))
                end)
  end.

Fixpoint dedup_delivery_targets (seen : list N) (recipients : list N) (resolve : N → option N) : list N :=
  match recipients with
  | [] => []
  | recipient_id :: rest =>
      match resolve recipient_id with
      | None => dedup_delivery_targets seen rest resolve
      | Some delivery_id =>
          if contains seen delivery_id then dedup_delivery_targets seen rest resolve
          else delivery_id :: dedup_delivery_targets (delivery_id :: seen) rest resolve
      end
  end.

Definition delivery_targets (w : W) (recipients : list N) : list N :=
  dedup_delivery_targets [] recipients (St.delivery_client (Wld.server w)).

Definition send_datagram (d : Proto.VoiceDatagram) (delivery_id : N) : ST W unit :=
  client ← gets (λ w, St.get_client (Wld.server w) delivery_id);
  match client with
  | None => mret tt
  | Some c =>
      dead ← gets (λ w, bool_decide (c ∈ Wld.closed w));
      if dead : bool then mret tt else Wld.emit (Wld.Datagram c d)
  end.

Definition deliver (packet : RelayPacket) : ST W unit :=
  targets ← gets (λ w, delivery_targets w (recipients packet));
  for_each targets (send_datagram (datagram packet));;
  Wld.set_server (St.fanout_audio (room packet) (frame packet)).

(** One decoded datagram of [handle_datagrams]. *)
Definition handle_datagram (now sender_user_id : N) (voice_dgram : Proto.VoiceDatagram)
    (datagram_len : N) : ST W unit :=
  packet ← build_relay_packet now sender_user_id voice_dgram datagram_len;
  match packet with
  | None => mret tt
  | Some packet => deliver packet
  end.

Definition relay_voice_as (sender_id : N) (opus_data : bytes) (sequence timestamp_us : N)
    (end_of_stream : bool) : ST W unit :=
  routing ← gets (λ w, St.snapshot_voice_routing (Wld.data w));
  match find_room_of routing.1 sender_id with
  | None => mret tt
  | Some room =>
      let dgram := Proto.mkVoiceDatagram opus_data sequence timestamp_us end_of_stream
                     (Some sender_id) (Some (arr room)) in
      deliver (mkRelayPacket dgram (room_recipients routing.1 routing.2 room sender_id) room
                 (voice_frame sender_id dgram))
  end.

(** ** Chat *)

(** The children map of [collect_descendant_rooms]. *)
Definition children_map (rooms : list Types.Room) : gmap Types.Uuid (list Types.Uuid) :=
  fold_left (λ m r,
    if bool_decide (Types.room_id r = Types.ROOT_ROOM_UUID) then m
    else St.push_at (Types.room_parent r) (Types.room_id r) m) rooms ∅.

(** The children of one room: new ones go into the set and onto the queue. *)
Definition visit_kids (kids : list Types.Uuid) (result : gset Types.Uuid) (queue : list Types.Uuid)
    : gset Types.Uuid * list Types.Uuid :=
  fold_left (λ '(result, queue) kid,
    if bool_decide (kid ∈ result) then (result, queue)
    else ({[ kid ]} ∪ result, queue ++ [kid])) kids (result, queue).

(** The breadth-first walk, a room per unit of fuel. *)
Fixpoint bfs (fuel : nat) (children : gmap Types.Uuid (list Types.Uuid)) (result : gset Types.Uuid)
    (queue : list Types.Uuid) : gset Types.Uuid :=
  match fuel, queue with
  | S fuel, current :: queue =>
      let '(result, queue) := visit_kids (default [] (children !! current)) result queue in
      bfs fuel children result queue
  | _, _ => result
  end.

Definition collect_descendant_rooms (rooms : list Types.Room) (root : Types.Uuid) : gset Types.Uuid :=
  bfs (S (List.length rooms)) (children_map rooms) {[ root ]} [root].

(** The delivery loop: one copy per connection, none for the author's. *)
Definition chat_targets (w : W) (target_rooms : gset Types.Uuid) (sender_id : N) : list N :=
  let author_conn := St.delivery_client (Wld.server w) sender_id in
  dedup_delivery_targets (match author_conn with Some c => [c] | None => [] end)
    (flat_map (λ e : Types.Uuid * list N, if bool_decide (e.1 ∈ target_rooms) then e.2 else [])
       (map_to_list (St.snapshot_room_memberships (Wld.data w))))
    (St.delivery_client (Wld.server w)).

Definition broadcast_chat_in_room (sender_id : N) (room : Types.Uuid) (text : string) (is_tree : bool)
    (id : bytes) (timestamp_ms : Z) (attachment : option Proto.ChatAttachment) : ST W (result bool) :=
  member ← gets (λ w, St.get_member (Wld.server w) sender_id);
  match member with
  | None => mret (Ok false)
  | Some member =>
      check ← gets (λ w, Acl.check_member_permission w member room Perm.TEXT_MESSAGE);
      match check with
      | Some denied =>
          match St.member_client member with
          | Some client => _ ←? Auth.send_permission_denied client denied; mret (Ok false)
          | None => mret (Ok false)
          end
      | None =>
          name ← gets (λ w, St.display_name (Wld.identity_at w (St.m_identity member)));
          let chat := Proto.mkChatBroadcast id timestamp_ms name text
                        (if is_tree then Some true else None) attachment sender_id in
          target_rooms ← gets (λ w, if is_tree then collect_descendant_rooms (St.rooms (Wld.data w)) room
                                    else {[ room ]});
          targets ← gets (λ w, chat_targets w target_rooms sender_id);
          for_each targets (λ c, Wld.ignore (Wld.send_frame c [] (Proto.EvChatBroadcast chat)));;
          mret (Ok true)
      end
  end.

(** The room the message was accepted in. *)
Definition broadcast_chat_as (sender_id : N) (text : string) (is_tree : bool) (id : bytes)
    (timestamp_ms : Z) (attachment : option Proto.ChatAttachment) : ST W (result (option Types.Uuid)) :=
  sender_room ← gets (λ w, default Types.ROOT_ROOM_UUID (St.get_user_room (Wld.data w) sender_id));
  accepted ←? broadcast_chat_in_room sender_id sender_room text is_tree id timestamp_ms attachment;
  mret (Ok (if accepted : bool then Some sender_room else None)).

Section plugins.
(** The plugins' hook [notify_chat_accepted]. *)
Variable on_chat_accepted : N → Types.Uuid → string → ST W unit.

(** A 16-byte client id is kept, anything else replaced; so is a positive time. *)
Definition message_id (given : bytes) (new_uuid : Types.Uuid) : bytes :=
  if Nat.eqb (List.length given) 16 then given else arr new_uuid.
Definition message_time (given now_ms : Z) : Z := if (0 <? given)%Z then given else now_ms.

Definition handle_chat_message (new_uuid : Types.Uuid) (now_ms : Z) (msg : Proto.ChatMessage) (sender : N)
    : ST W (result unit) :=
  let is_tree := default false (Proto.cm_tree msg) in
  accepted_room ←? broadcast_chat_as sender (Proto.cm_text msg) is_tree
    (message_id (Proto.cm_id msg) new_uuid) (message_time (Proto.cm_timestamp_ms msg) now_ms)
    (Proto.cm_attachment msg);
  match accepted_room with
  | Some room => on_chat_accepted sender room (Proto.cm_text msg)
  | None => mret tt
  end;;
  done_ok.

End plugins.

Definition handle_direct_message (new_uuid : Types.Uuid) (now_ms : Z) (dm : Proto.DirectMessage) (sender : N)
    : ST W (result unit) :=
  if (Proto.dm_target_user_id dm =? sender)%N
  then Auth.send_command_result sender "DirectMessage" false "Cannot send a DM to yourself"
  else
    sender_name ← gets (λ w, Wld.get_username w sender);
    member ← gets (λ w, St.get_member (Wld.server w) (Proto.dm_target_user_id dm));
    target ← gets (λ w, St.delivery_client (Wld.server w) (Proto.dm_target_user_id dm));
    match member, target with
    | Some member, Some c =>
        name ← gets (λ w, St.display_name (Wld.identity_at w (St.m_identity member)));
        Wld.ignore (Wld.send_frame c [] (Proto.EvDirectMessageReceived
          (Proto.mkDirectMessageReceived sender sender_name (Proto.dm_text dm)
             (message_id (Proto.dm_id dm) new_uuid) (message_time (Proto.dm_timestamp_ms dm) now_ms)
             (Proto.dm_target_user_id dm) name)));;
        done_ok
    | _, _ => Auth.send_command_result sender "DirectMessage" false "Target user not found"
    end.
(** ** Delivery targets *)

Lemma dedup_spec seen l resolve :
  NoDup (dedup_delivery_targets seen l resolve) ∧
  ∀ t, t ∈ dedup_delivery_targets seen l resolve ↔ ¬ (t ∈ seen) ∧ ∃ r, r ∈ l ∧ resolve r = Some t.
Proof.
  revert seen. induction l as [|r l IH]; intros seen; cbn [dedup_delivery_targets].
  { split; [apply NoDup_nil_2|]. intros t. split; [intros Ht; by apply elem_of_nil in Ht|].
    intros (_ & r & Hr & _). by apply elem_of_nil in Hr. }
  destruct (resolve r) as [d|] eqn:Er.
  2: { destruct (IH seen) as [I1 I2]. split; [done|]. intros t. rewrite I2. split.
       - intros (Hs & x & Hx & Ex). split; [done|]. exists x. split; [by apply list_elem_of_further|done].
       - intros (Hs & x & [->|Hx]%elem_of_cons & Ex); [congruence|]. split; [done|]. by exists x. }
  destruct (contains seen d) eqn:Ec.
  - apply contains_spec in Ec. destruct (IH seen) as [I1 I2]. split; [done|]. intros t. rewrite I2. split.
    + intros (Hs & x & Hx & Ex). split; [done|]. exists x. split; [by apply list_elem_of_further|done].
    + intros (Hs & x & [->|Hx]%elem_of_cons & Ex); [congruence|]. split; [done|]. by exists x.
  - assert (¬ (d ∈ seen)) as Hd by (rewrite <- contains_spec; congruence).
    destruct (IH (d :: seen)) as [I1 I2]. split.
    + apply NoDup_cons. split; [|done]. rewrite I2. intros [Hn _]. apply Hn, list_elem_of_here.
    + intros t. rewrite elem_of_cons, I2, elem_of_cons. split.
      * intros [->|(Hs & x & Hx & Ex)].
        -- split; [done|]. exists r. split; [apply list_elem_of_here|done].
        -- split; [intros Ht; apply Hs; by right|]. exists x. split; [by apply list_elem_of_further|done].
      * intros (Hs & x & [->|Hx]%elem_of_cons & Ex); [left; congruence|].
        destruct (decide (t = d)); [by left|]. right. split; [by intros [?|?]|]. by exists x.
Qed.

Lemma log_nil (w : W) : Wld.with_log (λ l, l ++ []) w = w.
Proof. unfold Wld.with_log. rewrite app_nil_r. by destruct w. Qed.

(** Where the sends end up. *)
Definition reaches (w : W) (t : N) : option N :=
  c ← St.get_client (Wld.server w) t;
  if bool_decide (c ∈ Wld.closed w) then None else Some c.

Lemma send_datagrams_run d targets (w : W) :
  for_each targets (send_datagram d) w =
  (tt, Wld.with_log (λ l, l ++ ((λ c, Wld.Datagram c d) <$> omap (reaches w) targets)) w).
Proof.
  revert w. induction targets as [|t targets IH]; intros w.
  { cbn. by rewrite log_nil. }
  cbn [for_each]. unfold mbind, ST_bind.
  assert (send_datagram d t w = (tt, Wld.with_log (λ l, l ++
    match reaches w t with Some c => [Wld.Datagram c d] | None => [] end) w)) as ->.
  { unfold send_datagram, reaches. unfold_goal_st.
    destruct (St.get_client (Wld.server w) t) as [c|]; cbn [mbind option_bind].
    - destruct (bool_decide _); unfold_goal_st; [|done].
      by rewrite log_nil.
    - by rewrite log_nil. }
  rewrite IH. change (reaches (Wld.with_log _ w)) with (reaches w).
  f_equal. unfold Wld.with_log. cbn. f_equal. rewrite <- app_assoc. f_equal.
  by destruct (reaches w t).
Qed.

Lemma send_frames_run hash p targets (w : W) :
  for_each targets (λ c, Wld.ignore (Wld.send_frame c hash p)) w =
  (tt, Wld.with_log (λ l, l ++ ((λ c, Wld.Sent c hash p) <$>
    retain (λ c, negb (bool_decide (c ∈ Wld.closed w))) targets)) w).
Proof.
  revert w. induction targets as [|t targets IH]; intros w.
  { cbn. by rewrite log_nil. }
  cbn [for_each]. unfold mbind at 1, ST_bind at 1. rewrite Wld.ignore_run.
  unfold Wld.send_frame. unfold_goal_st. unfold retain. cbn [List.filter].
  destruct (bool_decide (t ∈ Wld.closed w)) eqn:Ec; cbn [negb]; unfold_goal_st.
  - rewrite IH. done.
  - rewrite IH. unfold Wld.emit. unfold_goal_st. cbn [Wld.closed Wld.with_log].
    f_equal. unfold Wld.with_log. cbn. f_equal. by rewrite <- app_assoc.
Qed.

(** ** Rooms of a member *)

Lemma find_room_of_spec d u r :
  St.wf_state d →
  find_room_of (St.snapshot_room_memberships d) u = Some r ↔ St.get_user_room d u = Some r.
Proof.
  intros Hwf. unfold find_room_of. rewrite <- St.get_room_members_elem, <- St.snapshot_lookup by done.
  set (m := St.snapshot_room_memberships d).
  assert (∀ r' l, m !! r' = Some l → u ∈ l → St.get_user_room d u = Some r') as Hin.
  { intros r' l Hl Hu. apply St.get_room_members_elem; [done|]. rewrite <- St.snapshot_lookup. fold m. by rewrite Hl. }
  split.
  - destruct (List.find _ _) as [[r' l]|] eqn:Ef; [|done]. cbn. intros [= <-].
    apply find_Some_iff in Ef as [Hm Hc]. apply elem_of_map_to_list in Hm. apply contains_spec in Hc. by rewrite Hm.
  - destruct (m !! r) as [l|] eqn:El; [|intros Hn; by apply elem_of_nil in Hn]. cbn. intros Hu.
    destruct (List.find _ _) as [[r' l']|] eqn:Ef.
    + apply find_Some_iff in Ef as [Hm Hc]. apply elem_of_map_to_list in Hm. apply contains_spec in Hc.
      cbn in *. f_equal. pose proof (Hin _ _ Hm Hc). pose proof (Hin _ _ El Hu). congruence.
    + exfalso. rewrite find_None_iff in Ef. specialize (Ef (r, l)). cbn in Ef.
      assert (contains l u = true) as Hc by (by apply contains_spec). rewrite Hc in Ef.
      discriminate Ef. by apply elem_of_map_to_list.
Qed.

Lemma room_recipients_spec d room sender u :
  St.wf_state d →
  u ∈ room_recipients (St.snapshot_voice_routing d).1 (St.snapshot_voice_routing d).2 room sender ↔
  u ≠ sender ∧ St.get_user_room d u = Some room ∧ St.us_is_deafened (St.get_user_status d u) = false.
Proof.
  intros Hwf. unfold room_recipients.
  assert (∀ l, u ∈ retain (λ id, negb (id =? sender)%N &&
      negb (bool_decide (id ∈ (St.snapshot_voice_routing d).2))) l ↔
    u ∈ l ∧ u ≠ sender ∧ St.us_is_deafened (St.get_user_status d u) = false) as Hl.
  { intros l. rewrite elem_of_retain, andb_true_iff, !negb_true_iff, N.eqb_neq, bool_decide_eq_false, St.deafened_elem by done.
    destruct (St.us_is_deafened _); intuition congruence. }
  rewrite <- St.get_room_members_elem, <- St.snapshot_lookup by done. cbn [St.snapshot_voice_routing fst].
  destruct (St.snapshot_room_memberships d !! room) as [l|] eqn:E; cbn [default].
  - rewrite Hl. cbn. intuition.
  - rewrite elem_of_nil. intuition.
Qed.
(** ** Relaying *)

(** A well-formed member table delivers to connections found under their own id. *)
Lemma delivery_reaches (w : W) u c :
  Session.wf_members (Wld.server w) → St.delivery_client (Wld.server w) u = Some c →
  St.get_client (Wld.server w) c = Some c.
Proof.
  intros Hwf. unfold St.delivery_client.
  destruct (St.members (Wld.server w) !! u) as [m|] eqn:Em; [|done]. cbn [mbind option_bind].
  assert (∀ k h, St.get_client (Wld.server w) k = Some h → h = k) as Hself.
  { intros k h. unfold St.get_client. destruct (St.members (Wld.server w) !! k) as [m'|] eqn:E; [|done].
    cbn. unfold St.member_client. destruct (Hwf k m' E) as [_ Hb]. destruct (St.binding m') as [h'|] eqn:Eb; [|done].
    intros [= <-]. by apply Hb. }
  destruct (St.binding m) as [h|[i|k]] eqn:Eb; [| done |].
  - intros [= ->]. destruct (Hwf u m Em) as [_ Hb]. pose proof (Hb _ Eb) as ->.
    unfold St.get_client. rewrite Em. cbn. unfold St.member_client. by rewrite Eb.
  - intros Hk. pose proof (Hself _ _ Hk) as ->. done.
Qed.

Lemma reaches_targets (w : W) targets :
  Session.wf_members (Wld.server w) →
  (∀ t, t ∈ targets → St.get_client (Wld.server w) t = Some t) →
  omap (reaches w) targets = retain (λ c, negb (bool_decide (c ∈ Wld.closed w))) targets.
Proof.
  intros Hwf. induction targets as [|t targets IH]; intros Ht; [done|].
  assert (reaches w t = if bool_decide (t ∈ Wld.closed w) then None else Some t) as Er.
  { unfold reaches. by rewrite Ht by apply list_elem_of_here. }
  csimpl. rewrite Er, IH by (intros x Hx; apply Ht; by apply list_elem_of_further).
  unfold retain. cbn [List.filter]. by destruct (bool_decide _).
Qed.

(** Whom a connection speaks as: a controller as the participant of its own
    that the datagram names, everybody else as itself. *)
Definition speaks_as (w : W) (s : N) (d : Proto.VoiceDatagram) (eff : N) : Prop :=
  (∃ c, St.get_client (Wld.server w) s = Some c ∧ St.is_controller (Wld.handle_at w c) = true ∧
        Proto.vd_sender_id d = Some eff ∧ St.is_participant_of (Wld.server w) eff (St.Connection s) = true) ∨
  ((∀ c, St.get_client (Wld.server w) s = Some c → St.is_controller (Wld.handle_at w c) = false) ∧ eff = s).

Lemma effective_sender_spec (w : W) s d eff : effective_sender w s d = Some eff ↔ speaks_as w s d eff.
Proof.
  unfold effective_sender, speaks_as, is_controller_conn.
  destruct (St.get_client (Wld.server w) s) as [c|]; [destruct (St.is_controller (Wld.handle_at w c)) eqn:Ec|].
  - destruct (Proto.vd_sender_id d) as [k|]; [destruct (St.is_participant_of _ k _) eqn:Ek|].
    + split; [intros [= <-]; left; by exists c|]. intros [(? & _ & _ & ? & _)|[Hn _]]; [done|].
      specialize (Hn c eq_refl). congruence.
    + split; [done|]. intros [(? & _ & _ & [= ->] & ?)|[Hn _]]; [congruence|]. specialize (Hn c eq_refl). congruence.
    + split; [done|]. intros [(? & _ & _ & ? & _)|[Hn _]]; [done|]. specialize (Hn c eq_refl). congruence.
  - split; [intros [= <-]; right; split; [by intros ? [= <-]|done]|].
    intros [(? & [= <-] & ? & _)|[_ ->]]; [congruence|done].
  - split; [intros [= <-]; by right|]. intros [(? & ? & _)|[_ ->]]; done.
Qed.

(** A moderator's mute silences a connection that is no controller. *)
Definition not_server_muted (w : W) (s : N) : Prop :=
  ∀ c, St.get_client (Wld.server w) s = Some c → St.is_controller (Wld.handle_at w c) = false →
       St.server_muted (Wld.handle_at w c) = false.

Lemma is_server_muted_spec (w : W) s : is_server_muted w s = false ↔ not_server_muted w s.
Proof.
  unfold is_server_muted, not_server_muted, is_controller_conn.
  destruct (St.get_client (Wld.server w) s) as [c|]; [|done].
  destruct (St.is_controller (Wld.handle_at w c)) eqn:Ec; cbn [negb andb].
  - split; [|done]. intros _ ? [= <-]. congruence.
  - split; [by intros ? ? [= <-]|]. intros Hc. by apply Hc.
Qed.

(** The datagram may be relayed, from [eff] in [room]. *)
Record may_speak (now s : N) (d : Proto.VoiceDatagram) (len : N) (w : W) (eff : N)
    (room : Types.Uuid) : Prop := {
  ms_sender : speaks_as w s d eff;
  ms_not_server_muted : not_server_muted w s;
  ms_not_muted : St.us_is_muted (St.get_user_status (Wld.data w) eff) = false;
  ms_rate : (St.check_voice_rate now s len (Wld.server w)).1 = true;
  ms_room : St.get_user_room (Wld.data w) eff = Some room;
}.

Lemma check_voice_rate_fields now s len st :
  St.members (St.check_voice_rate now s len st).2 = St.members st ∧
  St.state_data (St.check_voice_rate now s len st).2 = St.state_data st ∧
  St.audio_sinks (St.check_voice_rate now s len st).2 = St.audio_sinks st.
Proof.
  unfold St.check_voice_rate. by destruct (St.VoiceRateLimit_check _ _ _) as [b e].
Qed.

Lemma build_relay_packet_run now s d len (w : W) :
  St.wf_state (Wld.data w) →
  let '(r, w') := build_relay_packet now s d len w in
  (∀ eff room, may_speak now s d len w eff room →
     r = Some (mkRelayPacket (stamp eff room d)
           (room_recipients (St.snapshot_voice_routing (Wld.data w)).1
              (St.snapshot_voice_routing (Wld.data w)).2 room eff) room (voice_frame eff d))) ∧
  ((¬ ∃ eff room, may_speak now s d len w eff room) → r = None) ∧
  Wld.log w' = Wld.log w ∧ Wld.closed w' = Wld.closed w ∧
  St.members (Wld.server w') = St.members (Wld.server w) ∧
  Wld.data w' = Wld.data w ∧
  St.audio_sinks (Wld.server w') = St.audio_sinks (Wld.server w).
Proof.
  intros Hwf. unfold build_relay_packet. unfold_goal_st.
  destruct (effective_sender w s d) as [eff|] eqn:Ee.
  2: { split; [|done]. intros eff room [Hs%effective_sender_spec _ _ _ _]. congruence. }
  destruct (is_server_muted w s) eqn:Em.
  { split; [|done]. intros eff' room [_ Hs%is_server_muted_spec _ _ _]. congruence. }
  destruct (St.us_is_muted _) eqn:Eu.
  { split; [|done]. intros eff' room [Hs%effective_sender_spec _ Hm _ _]. congruence. }
  run. destruct (check_voice_rate_fields now s len (Wld.server w)) as (C1 & C2 & C3).
  destruct (St.check_voice_rate now s len (Wld.server w)).1 eqn:Er; cbn [negb].
  2: { split; [|done]. intros eff' room [_ _ _ Hr _]. congruence. }
  unfold_goal_st. cbn [Wld.log Wld.closed Wld.server Wld.with_server].
  assert (∀ w1 : W, Wld.server w1 = (St.check_voice_rate now s len (Wld.server w)).2 → Wld.data w1 = Wld.data w) as Hd
    by (intros w1 E; unfold Wld.data; by rewrite E).
  rewrite !Hd by done.
  pose proof (λ r, find_room_of_spec (Wld.data w) eff r Hwf) as Hroom.
  split; [|split; [|done]].
  - intros eff' room [Hs%effective_sender_spec _ _ _ Hr]. assert (eff' = eff) as -> by congruence.
    apply Hroom in Hr. cbn [St.snapshot_voice_routing fst]. by rewrite Hr.
  - intros Hno. cbn [St.snapshot_voice_routing fst]. destruct (find_room_of _ eff) as [room|] eqn:Ef; [|done]. exfalso. apply Hno.
    exists eff, room. split; [by apply effective_sender_spec|by apply is_server_muted_spec|done|done|by apply Hroom].
Qed.
(** ** The subtree walk *)

(** [descendant rooms root r]: parent links lead from [r] up to [root]. *)
Inductive descendant (rooms : list Types.Room) (root : Types.Uuid) : Types.Uuid → Prop :=
  | desc_refl : descendant rooms root root
  | desc_child x : descendant rooms root (Types.room_parent x) → x ∈ rooms →
      Types.room_id x ≠ Types.ROOT_ROOM_UUID → descendant rooms root (Types.room_id x).

Lemma children_map_elem rooms p k :
  k ∈ default [] (children_map rooms !! p) ↔
  ∃ x, x ∈ rooms ∧ Types.room_id x ≠ Types.ROOT_ROOM_UUID ∧ Types.room_parent x = p ∧ Types.room_id x = k.
Proof.
  unfold children_map.
  assert (∀ (m : gmap Types.Uuid (list Types.Uuid)), k ∈ default [] (fold_left (λ m r,
    if bool_decide (Types.room_id r = Types.ROOT_ROOM_UUID) then m
    else St.push_at (Types.room_parent r) (Types.room_id r) m) rooms m !! p) ↔
    k ∈ default [] (m !! p) ∨ ∃ x, x ∈ rooms ∧ Types.room_id x ≠ Types.ROOT_ROOM_UUID ∧
      Types.room_parent x = p ∧ Types.room_id x = k) as Hf.
  { induction rooms as [|r rooms IH]; intros m; cbn [fold_left].
    - split; [by left|]. intros [?|(x & Hx & _)]; [done|by apply elem_of_nil in Hx].
    - rewrite IH. assert (∀ P : Types.Room → Prop, (∃ x, x ∈ r :: rooms ∧ P x) ↔ P r ∨ ∃ x, x ∈ rooms ∧ P x) as Hex.
      { intros P. setoid_rewrite elem_of_cons. split; [intros (x & [->|Hx] & Hp); eauto|].
        intros [Hp|(x & Hx & Hp)]; eauto. }
      rewrite (Hex (λ x, Types.room_id x ≠ Types.ROOT_ROOM_UUID ∧ Types.room_parent x = p ∧ Types.room_id x = k)).
      case_bool_decide as E.
      + intuition.
      + unfold St.push_at. destruct (decide (Types.room_parent r = p)) as [->|Hp].
        * rewrite lookup_insert_eq. cbn. rewrite elem_of_app, list_elem_of_singleton.
          intuition congruence.
        * rewrite lookup_insert_ne by done. intuition. }
  rewrite Hf, lookup_empty. cbn. rewrite elem_of_nil. intuition.
Qed.

Lemma visit_kids_spec kids (result : gset Types.Uuid) queue :
  ∃ new, visit_kids kids result queue = (list_to_set new ∪ result, queue ++ new) ∧ NoDup new ∧
    (∀ k, k ∈ new → k ∈ kids ∧ ¬ (k ∈ result)) ∧ (∀ k, k ∈ kids → k ∈ new ∨ k ∈ result).
Proof.
  unfold visit_kids. revert result queue. induction kids as [|k kids IH]; intros result queue.
  - exists []. cbn [fold_left]. rewrite app_nil_r. split; [f_equal; set_solver|].
    split; [apply NoDup_nil_2|]. split; intros k Hk; by apply elem_of_nil in Hk.
  - cbn [fold_left]. case_bool_decide as E.
    + destruct (IH result queue) as (new & -> & Hnd & Hn1 & Hn2). exists new. split; [done|]. split; [done|]. split.
      * intros x Hx. destruct (Hn1 x Hx). split; [by apply list_elem_of_further|done].
      * intros x [->|Hx]%elem_of_cons; [by right|]. by apply Hn2.
    + destruct (IH ({[k]} ∪ result) (queue ++ [k])) as (new & -> & Hnd & Hn1 & Hn2). exists (k :: new).
      rewrite <- app_assoc. split; [f_equal; set_solver|]. split; [|split].
      * apply NoDup_cons. split; [|done]. intros Hk. destruct (Hn1 k Hk) as [_ Hn]. apply Hn. set_solver.
      * intros x [->|Hx]%elem_of_cons; [split; [apply list_elem_of_here|done]|].
        destruct (Hn1 x Hx). split; [by apply list_elem_of_further|set_solver].
      * intros x [->|Hx]%elem_of_cons; [left; apply list_elem_of_here|].
        destruct (Hn2 x Hx) as [?|Hr]; [left; by apply list_elem_of_further|].
        apply elem_of_union in Hr as [->%elem_of_singleton|?]; [left; apply list_elem_of_here|by right].
Qed.

(** With enough fuel for what is queued and what is still to be found, the walk
    returns the set closed under children. *)
Lemma bfs_closed rooms root (ids : gset Types.Uuid) fuel (result : gset Types.Uuid) queue :
  (∀ x, x ∈ rooms → Types.room_id x ∈ ids) →
  (List.length queue + size (ids ∖ result) ≤ fuel)%nat →
  (∀ r, r ∈ result → descendant rooms root r) →
  (∀ r, r ∈ queue → r ∈ result) →
  (∀ r k, r ∈ result → ¬ (r ∈ queue) → k ∈ default [] (children_map rooms !! r) → k ∈ result) →
  let final := bfs fuel (children_map rooms) result queue in
  result ⊆ final ∧ (∀ r, r ∈ final → descendant rooms root r) ∧
  (∀ r k, r ∈ final → k ∈ default [] (children_map rooms !! r) → k ∈ final).
Proof.
  intros Hids. revert result queue. induction fuel as [|fuel IH]; intros result queue Hf Hd Hq Hc.
  - destruct queue as [|c queue]; [|simpl in Hf; lia]. cbn. split; [done|]. split; [done|].
    intros r k Hr. apply Hc; [done|]. intros Hn. by apply elem_of_nil in Hn.
  - destruct queue as [|c queue]; cbn [bfs].
    { split; [done|]. split; [done|]. intros r k Hr. apply Hc; [done|]. intros Hn. by apply elem_of_nil in Hn. }
    destruct (visit_kids_spec (default [] (children_map rooms !! c)) result queue) as (new & -> & Hnd & N1 & N2).
    assert (∀ k, k ∈ new → k ∈ ids ∧ descendant rooms root k) as Hnew.
    { intros k Hk. destruct (N1 k Hk) as [Hk' _]. apply children_map_elem in Hk' as (x & Hx & Hne & Hp & <-).
      split; [by apply Hids|]. apply desc_child; [|done|done]. rewrite Hp. apply Hd, Hq, list_elem_of_here. }
    destruct (IH (list_to_set new ∪ result) (queue ++ new)) as (I1 & I2 & I3).
    + assert (ids ∖ (list_to_set new ∪ result) = (ids ∖ result) ∖ list_to_set new) as -> by set_solver.
      rewrite size_difference by (intros k Hk; apply elem_of_list_to_set in Hk; destruct (N1 k Hk), (Hnew k Hk); set_solver).
      rewrite size_list_to_set, length_app by done.
      assert (List.length new ≤ size (ids ∖ result))%nat.
      { rewrite <- (size_list_to_set (C := gset Types.Uuid) new) by done. apply subseteq_size.
        intros k Hk. apply elem_of_list_to_set in Hk. destruct (N1 k Hk), (Hnew k Hk). set_solver. }
      simpl in Hf. lia.
    + intros r [Hr|Hr]%elem_of_union; [|by apply Hd]. apply elem_of_list_to_set in Hr. by apply Hnew.
    + intros r [Hr|Hr]%elem_of_app; apply elem_of_union; [right; by apply Hq, list_elem_of_further|].
      left. by apply elem_of_list_to_set.
    + intros r k Hr Hnq Hk. apply elem_of_union in Hr as [Hr|Hr].
      { exfalso. apply Hnq, elem_of_app. right. by apply elem_of_list_to_set in Hr. }
      destruct (decide (r = c)) as [->|Hne].
      * destruct (N2 k Hk) as [Hn|Hn]; apply elem_of_union; [left; by apply elem_of_list_to_set|by right].
      * apply elem_of_union. right. apply (Hc r k Hr); [|done]. intros [->|Hin]%elem_of_cons; [done|].
        apply Hnq, elem_of_app. by left.
    + split; [set_solver|]. by split.
Qed.

Lemma size_list_to_set_le (l : list Types.Uuid) :
  (size (list_to_set l : gset Types.Uuid) ≤ List.length l)%nat.
Proof.
  induction l as [|x l IH]; [done|]. cbn [list_to_set List.length]. rewrite size_union_alt, size_singleton.
  assert (size ((list_to_set l : gset Types.Uuid) ∖ {[x]}) ≤ size (list_to_set l : gset Types.Uuid))%nat; [|lia].
  apply subseteq_size. set_solver.
Qed.

Lemma collect_descendant_rooms_elem rooms root r :
  r ∈ collect_descendant_rooms rooms root ↔ descendant rooms root r.
Proof.
  unfold collect_descendant_rooms.
  set (ids := list_to_set (Types.room_id <$> rooms) : gset Types.Uuid).
  destruct (bfs_closed rooms root ids (S (List.length rooms)) {[ root ]} [root]) as (B1 & B2 & B3).
  - intros x Hx. apply elem_of_list_to_set, list_elem_of_fmap. by exists x.
  - cbn [List.length]. assert (size (ids ∖ {[root]}) ≤ List.length rooms)%nat; [|lia].
    etrans; [apply subseteq_size, subseteq_difference_l; reflexivity|].
    rewrite <- (length_fmap Types.room_id). apply size_list_to_set_le.
  - intros x ->%elem_of_singleton. apply desc_refl.
  - intros x ->%list_elem_of_singleton. by apply elem_of_singleton.
  - intros x k ->%elem_of_singleton Hn. exfalso. apply Hn, list_elem_of_here.
  - split; [apply B2|]. induction 1 as [|x Hp IH Hx Hne]; [apply B1; by apply elem_of_singleton|].
    eapply B3; [exact IH|]. apply children_map_elem. by exists x.
Qed.
(** ** Properties *)

(** The connections that get a copy of a voice frame. *)
Definition voice_listener (w : W) (eff : N) (room : Types.Uuid) (c : N) : Prop :=
  ∃ u, u ≠ eff ∧ St.get_user_room (Wld.data w) u = Some room ∧
       St.us_is_deafened (St.get_user_status (Wld.data w) u) = false ∧
       St.delivery_client (Wld.server w) u = Some c.

(** C6: One inbound datagram.  It is relayed exactly when the sender may speak:
    not server- or self-muted, within its rate, in a room, and, for a
    controller, naming one of its own participants.  Then every open connection
    that delivers to a member of that room who is neither the sender nor
    deafened gets exactly one copy, nobody else does, the copy carries the
    server's sender and room and otherwise the data received, and the audio
    sinks of the room get the frame; no client can speak as somebody else.  A
    datagram that may not be relayed leaves no trace outside the rate limiter. *)
Theorem voice_relay_spec (now s : N) (d : Proto.VoiceDatagram) (len : N) (w : W) :
  St.wf_state (Wld.data w) → Session.wf_members (Wld.server w) →
  let w' := (handle_datagram now s d len w).2 in
  (∀ eff room, may_speak now s d len w eff room →
    (eff = s ∨ St.is_participant_of (Wld.server w) eff (St.Connection s) = true) ∧
    ∃ targets, NoDup targets ∧
      (∀ c, c ∈ targets ↔ ¬ (c ∈ Wld.closed w) ∧ voice_listener w eff room c) ∧
      Wld.log w' = Wld.log w ++ ((λ c, Wld.Datagram c (Proto.mkVoiceDatagram (Proto.vd_opus_data d)
        (Proto.vd_sequence d) (Proto.vd_timestamp_us d) (Proto.vd_end_of_stream d)
        (Some eff) (Some (arr room)))) <$> targets) ∧
      St.audio_sinks (Wld.server w') =
        St.audio_sinks (St.fanout_audio room (St.mkVoiceFrame eff (Proto.vd_opus_data d) (Proto.vd_sequence d)
          (Proto.vd_timestamp_us d) (Proto.vd_end_of_stream d)) (Wld.server w))) ∧
  ((¬ ∃ eff room, may_speak now s d len w eff room) →
    Wld.log w' = Wld.log w ∧ St.audio_sinks (Wld.server w') = St.audio_sinks (Wld.server w)) ∧
  Wld.data w' = Wld.data w ∧ St.members (Wld.server w') = St.members (Wld.server w).
Proof.
  intros Hwf Hm w'. pose proof (build_relay_packet_run now s d len w Hwf) as Hb.
  unfold handle_datagram, mbind, ST_bind in w'.
  destruct (build_relay_packet now s d len w) as [r w1]. destruct Hb as (B1 & B2 & B3 & B4 & B5 & B6 & B7).
  assert (w' = match r with None => w1 | Some p => (deliver p w1).2 end) as Hw'
    by (unfold w'; by destruct r).
  clearbody w'. subst w'.
  assert (∀ p, deliver p w1 = (tt, Wld.with_server (St.fanout_audio (room p) (frame p))
    (Wld.with_log (λ l, l ++ ((λ c, Wld.Datagram c (datagram p)) <$>
       omap (reaches w1) (delivery_targets w1 (recipients p)))) w1))) as Hdel.
  { intros p. unfold deliver. unfold_goal_st. by rewrite send_datagrams_run. }
  assert (∀ u, St.delivery_client (Wld.server w1) u = St.delivery_client (Wld.server w) u) as Hdc.
  { intros u. unfold St.delivery_client, St.get_client. by rewrite B5. }
  split; [|split].
  - intros eff rm Hs. specialize (B1 eff rm Hs). subst r. split.
    { destruct (ms_sender _ _ _ _ _ _ _ Hs) as [(c & _ & _ & _ & Hp)|[_ He]]; [by right|by left]. }
    rewrite Hdel. cbn [snd room frame datagram recipients].
    set (rs := room_recipients _ _ _ _). destruct (dedup_spec [] rs (St.delivery_client (Wld.server w1))) as [D1 D2].
    fold (delivery_targets w1 rs) in D1, D2.
    assert (∀ t, t ∈ delivery_targets w1 rs ↔ voice_listener w eff rm t) as Ht.
    { intros t. rewrite D2. unfold voice_listener, rs. setoid_rewrite Hdc.
      setoid_rewrite room_recipients_spec; [|done]. split.
      - intros (_ & u & (? & ? & ?) & ?). by exists u.
      - intros (u & ? & ? & ? & ?). split; [intros Hn; by apply elem_of_nil in Hn|]. by exists u. }
    exists (retain (λ c, negb (bool_decide (c ∈ Wld.closed w1))) (delivery_targets w1 rs)).
    split; [by apply NoDup_retain|]. split; [|split].
    + intros c. rewrite elem_of_retain, negb_true_iff, bool_decide_eq_false, B4, Ht. intuition.
    + cbn [Wld.log Wld.with_server Wld.with_log]. rewrite B3, reaches_targets; [done| |].
      * intros k m Hk. apply (Hm k m). by rewrite <- B5.
      * intros t Hin. apply Ht in Hin as (u & _ & _ & _ & Hu). unfold St.get_client. rewrite B5.
        exact (delivery_reaches w u t Hm Hu).
    + cbn [Wld.server Wld.with_server Wld.with_log]. unfold St.fanout_audio. cbn. by rewrite B7.
  - intros Hno. by rewrite (B2 Hno).
  - destruct r as [p|]; [rewrite Hdel|done]. cbn [snd Wld.server Wld.with_server Wld.with_log].
    unfold Wld.data in *. cbn [Wld.server Wld.with_server Wld.with_log]. done.
Qed.

(** The connections that get a chat message aimed at [rooms]. *)
Definition chat_listener (w : W) (rooms : Types.Uuid → Prop) (sender c : N) : Prop :=
  St.delivery_client (Wld.server w) sender ≠ Some c ∧
  ∃ u r, St.get_user_room (Wld.data w) u = Some r ∧ rooms r ∧
         St.delivery_client (Wld.server w) u = Some c.

Lemma chat_targets_spec (w : W) rooms sender :
  St.wf_state (Wld.data w) →
  NoDup (chat_targets w rooms sender) ∧
  ∀ c, c ∈ chat_targets w rooms sender ↔ chat_listener w (λ r, r ∈ rooms) sender c.
Proof.
  intros Hwf. unfold chat_targets.
  match goal with |- NoDup (dedup_delivery_targets ?s ?l ?f) ∧ _ => destruct (dedup_spec s l f) as [D1 D2] end.
  split; [done|]. intros c. rewrite D2. unfold chat_listener.
  assert (¬ (c ∈ match St.delivery_client (Wld.server w) sender with Some c => [c] | None => [] end) ↔
          St.delivery_client (Wld.server w) sender ≠ Some c) as ->.
  { destruct (St.delivery_client _ sender) as [a|].
    - rewrite list_elem_of_singleton. split; [intros Hn [= ->]; by apply Hn|intros Hn ->; by apply Hn].
    - rewrite elem_of_nil. split; [done|]. intros _ []. }
  assert (∀ u, u ∈ flat_map (λ e : Types.Uuid * list N, if bool_decide (e.1 ∈ rooms) then e.2 else [])
      (map_to_list (St.snapshot_room_memberships (Wld.data w))) ↔
    ∃ r, St.get_user_room (Wld.data w) u = Some r ∧ r ∈ rooms) as Hu.
  { intros u. rewrite list_elem_of_In, in_flat_map. split.
    - intros ([r l] & Hin%list_elem_of_In%elem_of_map_to_list & Hul). cbn in Hul.
      case_bool_decide as Er; [|done]. exists r. split; [|done].
      apply St.get_room_members_elem; [done|]. rewrite <- St.snapshot_lookup, Hin. by apply list_elem_of_In.
    - intros (r & Hr & Hin). apply St.get_room_members_elem in Hr; [|done]. rewrite <- St.snapshot_lookup in Hr.
      destruct (St.snapshot_room_memberships (Wld.data w) !! r) as [l|] eqn:El; [|by apply elem_of_nil in Hr].
      exists (r, l). split; [by apply list_elem_of_In, elem_of_map_to_list|]. cbn.
      rewrite bool_decide_true by done. by apply list_elem_of_In. }
  setoid_rewrite Hu. split.
  - intros (? & u & (r & ? & ?) & ?). split; [done|]. by exists u, r.
  - intros (? & u & r & ? & ? & ?). split; [done|]. exists u. split; [by exists r|done].
Qed.

(** C19: A chat message.  An unknown author is ignored, an author without
    TEXT_MESSAGE in the target room is denied, and then no chat is sent.
    Otherwise every open connection that delivers to a member of the target
    room, or with [tree] of any room below it, other than the author's own,
    gets exactly one copy, nobody else gets one, and it names the author's
    server-side id and display name.  The subtree is computed whatever the
    stored parent links are, cycles included. *)
Theorem chat_delivery_spec (sender : N) (room : Types.Uuid) (text : string) (tree : bool) (id : bytes)
    (ts : Z) (att : option Proto.ChatAttachment) (w : W) :
  St.wf_state (Wld.data w) →
  let '(r, w') := broadcast_chat_in_room sender room text tree id ts att w in
  (St.get_member (Wld.server w) sender = None → r = Ok false ∧ w' = w) ∧
  (∀ m, St.get_member (Wld.server w) sender = Some m →
    (Acl.check_member_permission w m room Perm.TEXT_MESSAGE ≠ None →
      r = Ok false ∧ ∃ l, Wld.log w' = Wld.log w ++ l ∧
        ∀ c hash chat, ¬ (Wld.Sent c hash (Proto.EvChatBroadcast chat) ∈ l)) ∧
    (Acl.check_member_permission w m room Perm.TEXT_MESSAGE = None →
      r = Ok true ∧ ∃ targets chat, NoDup targets ∧
        (∀ c, c ∈ targets ↔ ¬ (c ∈ Wld.closed w) ∧
           chat_listener w (λ q, if tree then descendant (St.rooms (Wld.data w)) room q else q = room) sender c) ∧
        Wld.log w' = Wld.log w ++ ((λ c, Wld.Sent c [] (Proto.EvChatBroadcast chat)) <$> targets) ∧
        Proto.cb_sender_id chat = sender ∧ Proto.cb_text chat = text ∧
        Proto.cb_sender chat = St.display_name (Wld.identity_at w (St.m_identity m)))).
Proof.
  intros Hwf. unfold broadcast_chat_in_room. unfold_goal_st.
  destruct (St.get_member (Wld.server w) sender) as [m|] eqn:Em; [|split; [done|by intros m [=]]].
  destruct (Acl.check_member_permission w m room Perm.TEXT_MESSAGE) as [denied|] eqn:Ed.
  - destruct (St.member_client m) as [c|]; unfold Auth.send_permission_denied; run.
    + split; [done|]. intros m' [= <-]. split; [|congruence]. intros _. split; [done|].
      unfold Wld.send_frame. unfold_goal_st. destruct (bool_decide _); unfold_goal_st.
      * exists []. rewrite app_nil_r. split; [done|]. intros ? ? ? Hn. by apply elem_of_nil in Hn.
      * eexists. split; [reflexivity|]. intros ? ? ? Hn. by apply list_elem_of_singleton in Hn.
    + split; [done|]. intros m' [= <-]. split; [|congruence]. intros _. split; [done|].
      exists []. rewrite app_nil_r. split; [done|]. intros ? ? ? Hn. by apply elem_of_nil in Hn.
  - set (trooms := if tree then _ else _). destruct (chat_targets_spec w trooms sender Hwf) as [C1 C2].
    set (chat := Proto.mkChatBroadcast _ _ _ _ _ _ _).
    rewrite send_frames_run. split; [done|]. intros m' [= <-]. split; [congruence|]. intros _. split; [done|].
    eexists _, chat. split; [apply NoDup_retain, C1|]. split; [|split; [reflexivity|done]].
    intros c. rewrite elem_of_retain, negb_true_iff, bool_decide_eq_false, C2.
    assert (∀ q, q ∈ trooms ↔ if tree then descendant (St.rooms (Wld.data w)) room q else q = room) as Hq.
    { intros q. unfold trooms. destruct tree; [apply collect_descendant_rooms_elem|apply elem_of_singleton]. }
    unfold chat_listener. setoid_rewrite Hq. intuition.
Qed.
End voice.

(** ** Witnesses *)

#[local] Existing Instances Persist.codecs Persist.codecs_laws Session.sample_external.
#[local] Abbreviation sample := Session.sample_world.

Lemma relay_world_wf : St.wf_state (Wld.data sample).
Proof.
  apply (St.set_user_room_wf 4 St.lobby); [|exact St.sample_data_wf].
  apply list_elem_of_further, list_elem_of_here.
Qed.

Definition sample_datagram : Proto.VoiceDatagram :=
  Proto.mkVoiceDatagram [Byte.x01] 7 8 false (Some 1%N) None.

(** User 2 speaks in the lobby; the bridge's participant 4 is there too. *)
Lemma voice_relay_spec_witness :
  let w' := (handle_datagram 0 2 sample_datagram 100 sample).2 in
  may_speak 0 2 sample_datagram 100 sample 2 St.lobby ∧
  Wld.Datagram 3 (stamp 2 St.lobby sample_datagram) ∈ Wld.log w'.
Proof.
  assert (may_speak 0 2 sample_datagram 100 sample 2 St.lobby) as Hs.
  { split; [by apply effective_sender_spec|by apply is_server_muted_spec|reflexivity|reflexivity|reflexivity]. }
  split; [exact Hs|].
  destruct (voice_relay_spec 0 2 sample_datagram 100 sample relay_world_wf Session.sample_wf_members) as (H1 & _ & _).
  destruct (H1 2%N St.lobby Hs) as (_ & targets & _ & Ht & Hl & _).
  rewrite Hl. apply elem_of_app. right. apply list_elem_of_fmap. exists 3%N. split; [reflexivity|].
  apply Ht. split; [intros Hn; by apply not_elem_of_empty in Hn|].
  exists 4%N. split; [lia|]. repeat split.
Defined.

Lemma chat_delivery_spec_witness :
  let '(r, w') := broadcast_chat_in_room 1 Types.ROOT_ROOM_UUID "hello" true [] 5 None sample in
  r = Ok true ∧ ∃ chat, Wld.Sent 2 [] (Proto.EvChatBroadcast chat) ∈ Wld.log w'.
Proof.
  pose proof (chat_delivery_spec 1 Types.ROOT_ROOM_UUID "hello" true [] 5 None sample relay_world_wf) as H.
  destruct (broadcast_chat_in_room _ _ _ _ _ _ _ sample) as [r w'].
  destruct H as [_ H]. destruct (H (Session.sample_member 1) eq_refl) as [_ H'].
  destruct H' as (Hr & targets & chat & _ & Ht & Hl & _); [reflexivity|]. split; [exact Hr|].
  exists chat. rewrite Hl. apply elem_of_app. right. apply list_elem_of_fmap. exists 2%N. split; [reflexivity|].
  apply Ht. split; [intros Hn; by apply not_elem_of_empty in Hn|]. split; [discriminate|].
  exists 2%N, St.lobby. split; [reflexivity|]. split; [|reflexivity].
  apply (desc_child _ _ (St.new_room St.lobby "Lobby" Types.ROOT_ROOM_UUID None)).
  - apply desc_refl.
  - apply list_elem_of_further, list_elem_of_here.
  - intros E. apply (f_equal arr) in E. vm_compute in E. discriminate E.
Defined.

End Voice.
