(* ===== verification/Handlers.v ===== *)
(** The remaining message handlers of [crates/server/src/handlers.rs]: rooms,
    status, registration, moderation, groups, controllers and participants, and
    the dispatcher [handle_envelope].

    What the outside provides (clocks, random uuids, the server password) is
    gathered in the record [Env]; plugins are the parameters of
    [Section plugins]. *)
From Stdlib Require Import NArith ZArith Lia String.
From stdpp Require Import base gmap strings list sets.
From S2P Require Import Prelude Permissions Proto Types Store Wire Persistence State World Acl Session Ops Auth Voice.

Module Handlers.
Open Scope string_scope.
Open Scope list_scope.

Section handlers.
Context {T : Type} `{!KV T} `{!Persist.Codecs} `{!External}.
Abbreviation W := (Wld.World T).

(** The prologue of the handlers that need a permission. *)
Definition require_permission (sender : N) (room : Types.Uuid) (required : Perm.Permissions)
    (body : ST W (result unit)) : ST W (result unit) :=
  check ← gets (λ w, Acl.check_permission w sender room required);
  match check with
  | Some denied => Auth.send_permission_denied sender denied ;? done_ok
  | None => body
  end.

(** The epilogue: the outcome of an operation as a [CommandResult]. *)
Definition reply (sender : N) (command : string) (m : ST W (result string)) : ST W (result unit) :=
  r ← m;
  match r with
  | Ok msg => Auth.send_command_result sender command true msg
  | Err msg => Auth.send_command_result sender command false msg
  end.

Definition user_or_zero (u : option Proto.UserId) : N := default 0%N (Proto.uid_value <$> u).

(** ** Registration *)

Definition handle_register_user (user_id : option Proto.UserId) (sender : N) : ST W (result unit) :=
  let target_user_id := user_or_zero user_id in
  let required := if (target_user_id =? sender)%N then Perm.SELF_REGISTER else Perm.REGISTER in
  require_permission sender Types.ROOT_ROOM_UUID required
    (reply sender "RegisterUser" (Ops.apply_register_user target_user_id)).

Definition handle_unregister_user (user_id : option Proto.UserId) (sender : N) : ST W (result unit) :=
  let target_user_id := user_or_zero user_id in
  let required := if (target_user_id =? sender)%N then Perm.SELF_REGISTER else Perm.REGISTER in
  require_permission sender Types.ROOT_ROOM_UUID required
    (reply sender "UnregisterUser" (Ops.apply_unregister_user target_user_id)).

(** ** Rooms *)

Definition user_status_changed (w : W) (user_id : N) (server_muted is_elevated : bool) : Proto.Update :=
  let status := St.get_user_status (Wld.data w) user_id in
  Proto.UserStatusChanged (Some (Proto.mkUserId user_id)) (St.us_is_muted status)
    (St.us_is_deafened status) server_muted is_elevated.

(** The new mute flag of a client entering a room, broadcast when it changed. *)
Definition enter_mute (sender : N) (room : Types.Uuid) : ST W (result unit) :=
  speak_perms ← gets (λ w, Acl.evaluate_user_permissions w sender room);
  manually_muted ← gets (λ w, St.manually_server_muted (Wld.handle_at w sender));
  let should_server_mute := negb (Perm.contains speak_perms Perm.SPEAK) || manually_muted in
  was_server_muted ← gets (λ w, St.server_muted (Wld.handle_at w sender));
  Wld.set_handle sender (St.with_server_muted (λ _, should_server_mute));;
  if Bool.eqb should_server_mute was_server_muted then done_ok
  else
    update ← gets (λ w, user_status_changed w sender should_server_mute
                          (St.is_superuser (Wld.handle_at w sender)));
    Wld.broadcast_state_update update.

Definition save_last_room (sender : N) (room : Types.Uuid) : ST W unit :=
  key ← gets (λ w, St.get_user_public_key (Wld.server w) sender);
  match key with
  | Some public_key =>
      registered ← gets (λ w, Persist.is_registered (Wld.persistence w) public_key);
      if registered : bool
      then Wld.ignore (Wld.on_persist (Persist.update_user_last_room public_key (Some room)))
      else mret tt
  | None => mret tt
  end.

Definition handle_join_room (room_id : option Proto.RoomId) (sender : N) : ST W (result unit) :=
  let new_room_uuid := Types.room_or_root room_id in
  require_permission sender new_room_uuid Perm.ENTER (
    room ← gets (λ w, List.find (St.has_room_id new_room_uuid) (St.rooms (Wld.data w)));
    match room with
    | None => Auth.send_command_result sender "JoinRoom" false "Room not found"
    | Some r =>
        Wld.set_data (St.set_user_room sender new_room_uuid);;
        enter_mute sender new_room_uuid ;?
        (save_last_room sender new_room_uuid;;
         Wld.broadcast_state_update (Proto.UserMoved (Some (Proto.mkUserId sender))
           (Some (Types.room_id_from_uuid new_room_uuid))) ;?
         Auth.send_command_result sender "JoinRoom" true ("Joined '" +:+ Types.room_name r +:+ "'") ;?
         done_ok)
    end).

(** The send side of the stream is finished; later writes on it fail. *)
Definition handle_disconnect (reason : string) (sender : N) : ST W (result unit) :=
  modify (Wld.with_closed (λ c, {[ sender ]} ∪ c));;
  done_ok.

Definition handle_create_room (new_uuid : Types.Uuid) (cr : Proto.CreateRoom) (sender : N)
    : ST W (result unit) :=
  let parent_uuid := Proto.cr_parent_id cr ≫= Types.uuid_from_room_id in
  require_permission sender (default Types.ROOT_ROOM_UUID parent_uuid) Perm.MAKE_ROOM (
    r ← Ops.apply_create_room new_uuid (Proto.cr_name cr) parent_uuid (Proto.cr_description cr);
    match r with
    | Ok _ => Auth.send_command_result sender "CreateRoom" true
                ("Created room '" +:+ Proto.cr_name cr +:+ "'") ;? done_ok
    | Err msg => Auth.send_command_result sender "CreateRoom" false msg ;? done_ok
    end).

Definition handle_delete_room (room_id : option Proto.RoomId) (sender : N) : ST W (result unit) :=
  let room_uuid := Types.room_or_root room_id in
  require_permission sender room_uuid Perm.MODIFY_ROOM (
    r ← Ops.apply_delete_room room_uuid;
    match r with
    | Ok room_name => Auth.send_command_result sender "DeleteRoom" true
                        ("Deleted room '" +:+ room_name +:+ "'") ;? done_ok
    | Err msg => Auth.send_command_result sender "DeleteRoom" false msg ;? done_ok
    end).

Definition room_name_or (w : W) (room_uuid : Types.Uuid) (otherwise : string) : string :=
  match List.find (St.has_room_id room_uuid) (St.rooms (Wld.data w)) with
  | Some r => Types.room_name r
  | None => otherwise
  end.

(** The stored record of a room, when there is one, rewritten by [f]. *)
Definition persist_room (room_uuid : Types.Uuid) (f : Persist.PersistedRoom → Persist.PersistedRoom)
    : ST W unit :=
  room ← gets (λ w, Persist.get_room (Wld.persistence w) room_uuid);
  match room with
  | Some room => Wld.ignore (Wld.on_persist (Persist.save_room room_uuid (f room)))
  | None => mret tt
  end.

Definition handle_rename_room (room_id : option Proto.RoomId) (new_name : string) (sender : N)
    : ST W (result unit) :=
  let room_uuid := Types.room_or_root room_id in
  require_permission sender room_uuid Perm.MODIFY_ROOM (
    old_name ← gets (λ w, room_name_or w room_uuid "room");
    renamed ← Wld.on_data (St.rename_room room_uuid new_name);
    if negb renamed then Auth.send_command_result sender "RenameRoom" false "Room not found"
    else
      persist_room room_uuid (λ room, Persist.mkPersistedRoom new_name (Persist.parent room)
        (Persist.description room) (Persist.permanent room));;
      (Wld.broadcast_state_update (Proto.RoomRenamed (Some (Types.room_id_from_uuid room_uuid)) new_name) ;?
       Auth.send_command_result sender "RenameRoom" true
         ("Renamed '" +:+ old_name +:+ "' to '" +:+ new_name +:+ "'") ;?
       done_ok)).

(** The walk of [handle_move_room] from the new parent; [true]: it reaches the
    room.  The loop stops once [steps] exceeds the number of rooms. *)
Definition parent_of (rooms : list Types.Room) (uuid : Types.Uuid) : option Types.Uuid :=
  parent ← Types.room_parent <$> List.find (St.has_room_id uuid) rooms;
  if negb (bool_decide (parent = Types.ROOT_ROOM_UUID)) then Some parent else None.

Fixpoint would_cycle (fuel steps : nat) (rooms : list Types.Room) (room_uuid : Types.Uuid)
    (cursor : option Types.Uuid) : bool :=
  match fuel, cursor with
  | S fuel, Some c =>
      if bool_decide (c = room_uuid) then true
      else if Nat.ltb (List.length rooms) (S steps) then false
      else would_cycle fuel (S steps) rooms room_uuid (parent_of rooms c)
  | _, _ => false
  end.

Definition handle_move_room (room_id new_parent_id : option Proto.RoomId) (sender : N)
    : ST W (result unit) :=
  let room_uuid := Types.room_or_root room_id in
  let new_parent_uuid := Types.room_or_root new_parent_id in
  require_permission sender room_uuid Perm.MODIFY_ROOM (
  require_permission sender new_parent_uuid Perm.MAKE_ROOM (
    room_name ← gets (λ w, room_name_or w room_uuid "room");
    new_parent_name ← gets (λ w, room_name_or w new_parent_uuid "Root");
    if bool_decide (new_parent_uuid = room_uuid)
    then Auth.send_command_result sender "MoveRoom" false "Cannot move a room into itself"
    else
      rooms ← gets (λ w, St.rooms (Wld.data w));
      if would_cycle (S (List.length rooms)) 0 rooms room_uuid (Some new_parent_uuid)
      then Auth.send_command_result sender "MoveRoom" false "Cannot move a room into its own descendant"
      else
        moved ← Wld.on_data (St.move_room room_uuid new_parent_uuid);
        if negb moved then Auth.send_command_result sender "MoveRoom" false "Room not found"
        else
          persist_room room_uuid (λ room, Persist.mkPersistedRoom (Persist.name room)
            (Some new_parent_uuid) (Persist.description room) (Persist.permanent room));;
          (Wld.broadcast_state_update (Proto.RoomMoved room_id new_parent_id) ;?
           Auth.send_command_result sender "MoveRoom" true
             ("Moved '" +:+ room_name +:+ "' into '" +:+ new_parent_name +:+ "'") ;?
           done_ok))).

Definition handle_set_room_description (room_id : option Proto.RoomId) (description : string) (sender : N)
    : ST W (result unit) :=
  let room_uuid := Types.room_or_root room_id in
  require_permission sender room_uuid Perm.MODIFY_ROOM (
    updated ← Wld.on_data (St.set_room_description room_uuid description);
    if negb updated then Auth.send_command_result sender "SetRoomDescription" false "Room not found"
    else
      persist_room room_uuid (λ room, Persist.mkPersistedRoom (Persist.name room) (Persist.parent room)
        description (Persist.permanent room));;
      (Wld.broadcast_state_update (Proto.RoomDescriptionChanged
         (Some (Types.room_id_from_uuid room_uuid)) description) ;?
       Auth.send_command_result sender "SetRoomDescription" true "Description updated" ;?
       done_ok)).

Definition handle_request_state_sync (sender : N) : ST W (result unit) :=
  Session.send_server_state_to_client sender ;? done_ok.

Definition handle_set_user_status (is_muted is_deafened : bool) (sender : N) : ST W (result unit) :=
  existing ← gets (λ w, St.get_user_status (Wld.data w) sender);
  Wld.set_data (St.set_user_status sender
    (St.mkUserStatus is_muted is_deafened (St.us_server_muted existing) (St.us_is_elevated existing)));;
  update ← gets (λ w, Proto.UserStatusChanged (Some (Proto.mkUserId sender)) is_muted is_deafened
    (St.server_muted (Wld.handle_at w sender)) (St.is_superuser (Wld.handle_at w sender)));
  Wld.broadcast_state_update update ;? done_ok.
(** ** Moderation *)

Definition handle_kick_user (target_user_id : N) (reason : string) (sender : N) : ST W (result unit) :=
  require_permission sender Types.ROOT_ROOM_UUID Perm.KICK (
    if (target_user_id =? sender)%N
    then Auth.send_command_result sender "KickUser" false "Cannot kick yourself"
    else
      kicked_by ← gets (λ w, Wld.get_username w sender);
      reply sender "KickUser" (Ops.apply_kick target_user_id reason kicked_by)).

Definition handle_ban_user (now_secs target_user_id : N) (reason : string) (duration_seconds : N)
    (sender : N) : ST W (result unit) :=
  require_permission sender Types.ROOT_ROOM_UUID Perm.BAN (
    if (target_user_id =? sender)%N
    then Auth.send_command_result sender "BanUser" false "Cannot ban yourself"
    else
      banned_by ← gets (λ w, Wld.get_username w sender);
      reply sender "BanUser" (Ops.apply_ban now_secs target_user_id duration_seconds reason banned_by)).

Definition room_of (w : W) (user_id : N) : Types.Uuid :=
  default Types.ROOT_ROOM_UUID (St.get_user_room (Wld.data w) user_id).

Definition handle_set_server_mute (target_user_id : N) (muted : bool) (sender : N) : ST W (result unit) :=
  target_room ← gets (λ w, room_of w target_user_id);
  require_permission sender target_room Perm.MUTE_DEAFEN (
    target ← gets (λ w, St.get_client (Wld.server w) target_user_id);
    match target with
    | None =>
        reason ← gets (λ w, match St.get_member (Wld.server w) target_user_id with
          | Some _ => "Cannot mute a controller-driven participant directly; moderate it through its controller"
          | None => "User not found"
          end);
        Auth.send_command_result sender "SetServerMute" false reason
    | Some t =>
        Wld.set_handle t (St.with_manually_server_muted (λ _, muted));;
        effective_muted ← gets (λ w,
          if muted then true
          else negb (Perm.contains (Acl.evaluate_user_permissions w t (room_of w target_user_id)) Perm.SPEAK));
        Wld.set_handle t (St.with_server_muted (λ _, effective_muted));;
        target_username ← gets (λ w, Wld.get_username w t);
        update ← gets (λ w, user_status_changed w target_user_id effective_muted
                              (St.is_superuser (Wld.handle_at w t)));
        (Wld.broadcast_state_update update ;?
         Auth.send_command_result sender "SetServerMute" true
           ((if muted then "Server muted" else "Server unmuted") +:+ " '" +:+ target_username +:+ "'"))
    end).

Definition handle_elevate (password : string) (sender : N) : ST W (result unit) :=
  require_permission sender Types.ROOT_ROOM_UUID Perm.SUDO (
    sudo_hash ← gets (λ w, Persist.get_sudo_password (Wld.persistence w));
    match sudo_hash with
    | None => Auth.send_command_result sender "Elevate" false "Sudo password not configured"
    | Some sudo_hash =>
        match ext_bcrypt_verify password sudo_hash with
        | Ok true =>
            Wld.set_handle sender (St.with_is_superuser (λ _, true));;
            update ← gets (λ w, user_status_changed w sender
                                  (St.server_muted (Wld.handle_at w sender)) true);
            (Wld.broadcast_state_update update ;?
             Auth.send_command_result sender "Elevate" true "Elevated to superuser")
        | _ => Auth.send_command_result sender "Elevate" false "Incorrect password"
        end
    end).

(** ** Groups and room ACLs *)

Definition handle_create_group (name : string) (permissions : N) (sender : N) : ST W (result unit) :=
  require_permission sender Types.ROOT_ROOM_UUID Perm.MANAGE_ACL
    (reply sender "CreateGroup" (Ops.apply_create_group name permissions)).

Definition handle_delete_group (name : string) (sender : N) : ST W (result unit) :=
  require_permission sender Types.ROOT_ROOM_UUID Perm.MANAGE_ACL
    (reply sender "DeleteGroup" (Ops.apply_delete_group name)).

Definition handle_modify_group (name : string) (permissions : N) (sender : N) : ST W (result unit) :=
  require_permission sender Types.ROOT_ROOM_UUID Perm.MANAGE_ACL
    (reply sender "ModifyGroup" (Ops.apply_modify_group name permissions)).

Definition handle_toggle_group_permission (name : string) (bits : N) (enable : bool) (sender : N)
    : ST W (result unit) :=
  require_permission sender Types.ROOT_ROOM_UUID Perm.MANAGE_ACL
    (reply sender "ToggleGroupPermission" (Ops.apply_toggle_group_permission name bits enable)).

Definition handle_set_user_group (target_user_id : N) (group : string) (add : bool) (expires_at : N)
    (sender : N) : ST W (result unit) :=
  require_permission sender Types.ROOT_ROOM_UUID Perm.MANAGE_ACL
    (reply sender "SetUserGroup" (Ops.apply_set_user_group target_user_id group add expires_at)).

(** One entry of the admin snapshot; expired memberships are dropped on the way. *)
Definition registered_user_info (online_keys : list Types.PublicKey) (now_secs : N)
    (e : Types.PublicKey * Persist.RegisteredUser) : ST W Proto.RegisteredUserInfo :=
  groups ← Wld.on_persist (Persist.active_user_groups e.1 now_secs);
  memberships ← gets (λ w, map (λ g,
    let expires_at := Persist.get_group_expiry (Wld.persistence w) e.1 g in
    Types.mkGroupMembership g (if (expires_at =? 0)%N then None else Some expires_at)) groups);
  mret (Types.registered_user_to_proto
    (Types.mkRegisteredUser e.1 (Persist.username e.2) memberships (contains online_keys e.1))).

Fixpoint map_users (online_keys : list Types.PublicKey) (now_secs : N)
    (l : list (Types.PublicKey * Persist.RegisteredUser)) : ST W (list Proto.RegisteredUserInfo) :=
  match l with
  | [] => mret []
  | e :: rest =>
      u ← registered_user_info online_keys now_secs e;
      us ← map_users online_keys now_secs rest;
      mret (u :: us)
  end.

Definition handle_request_registered_users (now_secs : N) (sender : N) : ST W (result unit) :=
  require_permission sender Types.ROOT_ROOM_UUID Perm.MANAGE_ACL (
    online_keys ← gets (λ w, omap (St.get_user_public_key (Wld.server w)) (St.snapshot_clients (Wld.server w)));
    registered ← gets (λ w, Persist.list_registered_users (Wld.persistence w));
    users ← map_users online_keys now_secs registered;
    Wld.ignore (Wld.send_frame sender [] (Proto.RegisteredUsers users));;
    done_ok).

Definition handle_set_registered_user_group (public_key : bytes) (group : string) (add : bool)
    (expires_at : N) (sender : N) : ST W (result unit) :=
  require_permission sender Types.ROOT_ROOM_UUID Perm.MANAGE_ACL (
    match array_of_slice 32 public_key with
    | None => Auth.send_command_result sender "SetRegisteredUserGroup" false "Invalid public key"
    | Some key => reply sender "SetRegisteredUserGroup"
                    (Ops.apply_set_user_group_by_key key group add expires_at)
    end).

Definition handle_set_room_acl (sra : Proto.SetRoomAcl) (sender : N) : ST W (result unit) :=
  match array_of_slice 16 (Proto.sra_room_id sra) with
  | None => Auth.send_command_result sender "SetRoomAcl" false "Missing or invalid room ID"
  | Some room_uuid =>
      require_permission sender room_uuid Perm.WRITE
        (reply sender "SetRoomAcl" (Ops.apply_set_room_acl room_uuid (Proto.sra_inherit_acl sra)
           (map Types.acl_entry_from_proto (Proto.sra_entries sra)) (Proto.sra_base_version sra)))
  end.

(** ** Controllers and participants *)

(** A new [Arc<Identity>]: the location is the participant's id, which no other
    live identity uses ([allocate_user_id] never hands an id out twice). *)
Definition create_participant (owner : St.OwnerId) (username : string) (label verified_username : option string)
    (groups : list string) (present : bool) : ST W (result N) :=
  user_id ← Wld.on_server St.allocate_user_id;
  Wld.set_identity user_id (λ _, St.Identity_participant username verified_username label groups);;
  Wld.set_server (St.register_participant (St.mkMember user_id user_id (St.Owned owner)));;
  (if present then
     Wld.set_data (St.set_user_room user_id Types.ROOT_ROOM_UUID);;
     Wld.broadcast_state_update (Proto.UserJoined (Some (Proto.mkUser (Some (Proto.mkUserId user_id))
       username (Some (Types.room_id_from_uuid Types.ROOT_ROOM_UUID)) false false false false groups label)))
   else done_ok) ;?
  mret (Ok user_id).

Definition is_present (w : W) (user_id : N) : bool :=
  bool_decide (is_Some (St.get_user_room (Wld.data w) user_id)).

Definition remove_participant (user_id : N) : ST W (result unit) :=
  was_present ← gets (λ w, is_present w user_id);
  _ ← Wld.on_server (St.remove_client user_id);
  Wld.set_data (St.remove_user_membership user_id);;
  if was_present : bool then Wld.broadcast_state_update (Session.user_left user_id) ;? done_ok
  else done_ok.

Definition move_participant_to_room (user_id : N) (room_uuid : Types.Uuid) : ST W (result bool) :=
  exists_ ← gets (λ w, existsb (St.has_room_id room_uuid) (St.rooms (Wld.data w)));
  if negb exists_ then mret (Ok false)
  else
    was_present ← gets (λ w, is_present w user_id);
    Wld.set_data (St.set_user_room user_id room_uuid);;
    (if was_present : bool then
       Wld.broadcast_state_update (Proto.UserMoved (Some (Proto.mkUserId user_id))
         (Some (Types.room_id_from_uuid room_uuid)))
     else
       member ← gets (λ w, St.get_member (Wld.server w) user_id);
       match member with
       | None => done_ok
       | Some member =>
           user ← gets (λ w,
             let status := St.get_user_status (Wld.data w) user_id in
             let identity := Wld.identity_at w (St.m_identity member) in
             Proto.mkUser (Some (Proto.mkUserId user_id)) (St.display_name identity)
               (Some (Types.room_id_from_uuid room_uuid)) (St.us_is_muted status)
               (St.us_is_deafened status) (St.us_server_muted status) (St.us_is_elevated status)
               (St.id_groups identity) (St.label identity));
           Wld.broadcast_state_update (Proto.UserJoined (Some user))
       end) ;?
    mret (Ok true).

Definition set_participant_status_core (user_id : N) (is_muted is_deafened : bool) : ST W (result unit) :=
  Wld.set_data (St.set_user_status user_id (St.mkUserStatus is_muted is_deafened false false));;
  Wld.broadcast_state_update (Proto.UserStatusChanged (Some (Proto.mkUserId user_id)) is_muted
    is_deafened false false).

Definition handle_controller_hello (controller_name : string) (sender : N) : ST W (result unit) :=
  already ← gets (λ w, St.is_controller (Wld.handle_at w sender));
  if already : bool then Auth.send_command_result sender "ControllerHello" false "Already a controller"
  else
    check ← gets (λ w, Acl.check_permission w sender Types.ROOT_ROOM_UUID Perm.MANAGE_PARTICIPANTS);
    match check with
    | Some _ => Auth.send_command_result sender "ControllerHello" false "Missing MANAGE_PARTICIPANTS permission"
    | None =>
        Wld.set_handle sender (St.with_is_controller (λ _, true));;
        Wld.set_data (St.remove_user_membership sender);;
        (Wld.broadcast_state_update (Session.user_left sender) ;?
         Auth.send_command_result sender "ControllerHello" true "Controller mode activated")
    end.

Definition handle_register_participant (username : string) (label : option string) (sender : N)
    : ST W (result unit) :=
  groups ← gets (λ w,
    match St.h_public_key (Wld.handle_at w sender) with
    | Some pk => match Persist.get_participant_default_group (Wld.persistence w) pk with
                 | Some g => [g]
                 | None => []
                 end
    | None => []
    end);
  user_id ←? create_participant (St.Connection sender) username label None groups true;
  Wld.ignore (Wld.send_frame sender [] (Proto.ParticipantRegistered user_id username));;
  done_ok.

(** The ownership check of the participant handlers. *)
Definition require_participant (sender user_id : N) (command : string) (body : ST W (result unit))
    : ST W (result unit) :=
  mine ← gets (λ w, St.is_participant_of (Wld.server w) user_id (St.Connection sender));
  if negb mine then Auth.send_command_result sender command false "Not your participant" else body.

Definition handle_unregister_participant (user_id : N) (sender : N) : ST W (result unit) :=
  require_participant sender user_id "UnregisterParticipant"
    (remove_participant user_id ;?
     Auth.send_command_result sender "UnregisterParticipant" true "Participant removed").

Definition handle_move_participant (user_id : N) (room_id : option Proto.RoomId) (sender : N)
    : ST W (result unit) :=
  require_participant sender user_id "MoveParticipant" (
    moved ←? move_participant_to_room user_id (Types.room_or_root room_id);
    if negb moved then Auth.send_command_result sender "MoveParticipant" false "Room not found"
    else Auth.send_command_result sender "MoveParticipant" true "Participant moved").

Definition handle_set_participant_status (user_id : N) (is_muted is_deafened : bool) (sender : N)
    : ST W (result unit) :=
  require_participant sender user_id "SetParticipantStatus"
    (set_participant_status_core user_id is_muted is_deafened).

Section plugins.
Variable on_chat_accepted : N → Types.Uuid → string → ST W unit.

Definition handle_participant_chat (new_uuid : Types.Uuid) (now_ms : Z) (pc : Proto.ParticipantChat)
    (sender : N) : ST W (result unit) :=
  let user_id := Proto.pc_user_id pc in
  require_participant sender user_id "ParticipantChat" (
    let is_tree := default false (Proto.pc_tree pc) in
    accepted_room ←?
      (match Proto.pc_room_id pc ≫= Types.uuid_from_room_id with
       | Some room =>
           accepted ←? Voice.broadcast_chat_in_room user_id room (Proto.pc_text pc) is_tree (arr new_uuid)
                         now_ms None;
           mret (Ok (if accepted : bool then Some room else None))
       | None => Voice.broadcast_chat_as user_id (Proto.pc_text pc) is_tree (arr new_uuid) now_ms None
       end);
    match accepted_room with
    | Some room => on_chat_accepted user_id room (Proto.pc_text pc)
    | None => mret tt
    end;;
    done_ok).
End plugins.
(** ** Moving a room *)

Context `{!KVLaws T} `{!Persist.CodecsLaws}.

(** The walk of the cycle check follows the path to Root. *)
Lemma would_cycle_path rooms r p q fuel steps :
  Acl.ancestors rooms p q → r ≠ Types.ROOT_ROOM_UUID →
  (∀ x, List.find (St.has_room_id Types.ROOT_ROOM_UUID) rooms = Some x → Types.room_parent x = Types.ROOT_ROOM_UUID) →
  (List.length q ≤ fuel)%nat → (steps + List.length q ≤ List.length rooms + 1)%nat →
  would_cycle fuel steps rooms r (Some p) = bool_decide (r ∈ q).
Proof.
  intros Hq Hr Hroot. revert fuel steps. induction Hq as [|p x q Hp Hx Hq IH]; intros fuel steps Hf Hs;
    (destruct fuel as [|fuel]; [simpl in Hf; lia|]); cbn [would_cycle].
  - rewrite (bool_decide_false (Types.ROOT_ROOM_UUID = r)) by congruence.
    rewrite (bool_decide_false (r ∈ _)) by (by rewrite list_elem_of_singleton).
    destruct (Nat.ltb _ _); [done|]. unfold parent_of.
    destruct (List.find _ rooms) as [x|] eqn:Ex; cbn; [|by destruct fuel].
    rewrite (Hroot x) by done. rewrite bool_decide_true by done. cbn. by destruct fuel.
  - destruct (decide (p = r)) as [->|E].
    { by rewrite !bool_decide_true by (done || apply list_elem_of_here). }
    rewrite (bool_decide_false (p = r)) by done. cbn [List.length] in *. assert (1 ≤ List.length q)%nat by (destruct Hq; simpl; lia).
    replace (Nat.ltb (List.length rooms) (S steps)) with false by (symmetry; apply Nat.ltb_ge; lia).
    unfold parent_of. rewrite Hx. cbn.
    rewrite (bool_decide_ext (r ∈ p :: q) (r ∈ q)) by (apply elem_of_cons_ne; congruence).
    destruct (decide (Types.room_parent x = Types.ROOT_ROOM_UUID)) as [Ep|Ep];
      [rewrite (bool_decide_true (Types.room_parent x = _)) by done
      |rewrite (bool_decide_false (Types.room_parent x = _)) by done]; cbn.
    + rewrite Ep in Hq. inversion Hq; subst; [|congruence].
      rewrite bool_decide_false by (by rewrite list_elem_of_singleton). by destruct fuel.
    + apply IH; lia.
Qed.

Definition moved_rooms (r p : Types.Uuid) (rooms : list Types.Room) : list Types.Room :=
  (λ y, if bool_decide (Types.room_id y = r) then Ops.with_parent p y else y) <$> rooms.

Lemma find_moved r p rooms i :
  List.find (St.has_room_id i) (moved_rooms r p rooms) =
  (λ y, if bool_decide (Types.room_id y = r) then Ops.with_parent p y else y)
    <$> List.find (St.has_room_id i) rooms.
Proof. apply Ops.find_fmap_id. intros y. by case_bool_decide. Qed.

Lemma found_id rooms i x : List.find (St.has_room_id i) rooms = Some x → Types.room_id x = i.
Proof. intros [_ Hi]%find_Some_iff. unfold St.has_room_id in Hi. by apply bool_decide_eq_true in Hi. Qed.

(** A path that does not pass through the moved room is still a path. *)
Lemma ancestors_avoiding r p rooms s q :
  Acl.ancestors rooms s q → ¬ (r ∈ q) → Acl.ancestors (moved_rooms r p rooms) s q.
Proof.
  induction 1 as [|s x q Hs Hx Hq IH]; intros Hr; [apply Acl.anc_root|].
  rewrite elem_of_cons in Hr. eapply (Acl.anc_up _ _ x); [done| |apply IH; tauto].
  rewrite find_moved, Hx. cbn. apply found_id in Hx. rewrite bool_decide_false; [done|].
  intros E. apply Hr. left. congruence.
Qed.

Lemma moved_tree r p d d' :
  Ops.tree_ok d → r ≠ Types.ROOT_ROOM_UUID → r ∈ St.room_ids d →
  (∃ q, Acl.ancestors (St.rooms d) p q ∧ ¬ (r ∈ q)) →
  St.rooms d' = moved_rooms r p (St.rooms d) → Ops.tree_ok d'.
Proof.
  intros [Ht1 Ht2] Hr Hin (qp & Hqp & Hrq) Hd'.
  pose proof (ancestors_avoiding r p _ _ _ Hqp Hrq) as Hqp'.
  apply St.find_room_ids in Hin as [rx Hrx].
  split.
  - intros s Hs. rewrite Hd'.
    assert (s ∈ St.room_ids d) as Hs'.
    { unfold St.room_ids in *. rewrite Hd' in Hs. unfold moved_rooms in Hs. rewrite <- list_fmap_compose in Hs.
      apply list_elem_of_fmap in Hs as (y & -> & Hy). apply list_elem_of_fmap. exists y. split; [|done].
      cbn. by case_bool_decide. }
    destruct (Ht1 s Hs') as [q Hq]. clear Hs Hs'. induction Hq as [|s x q Hs Hx Hq IH]; [eexists; apply Acl.anc_root|].
    destruct (decide (s = r)) as [->|Hne].
    + exists (r :: qp). apply (Acl.anc_up _ _ (Ops.with_parent p rx)); [done| |done].
      rewrite find_moved, Hrx. cbn. by rewrite bool_decide_true by (by apply found_id in Hrx).
    + destruct IH as [q' Hq']. exists (s :: q'). apply (Acl.anc_up _ _ x); [done| |done].
      rewrite find_moved, Hx. cbn. rewrite bool_decide_false; [done|]. apply found_id in Hx. congruence.
  - intros x Hx. unfold St.find_room in Hx. rewrite Hd', find_moved in Hx.
    destruct (List.find (St.has_room_id Types.ROOT_ROOM_UUID) (St.rooms d)) as [y|] eqn:Ey; [|done]. injection Hx as <-.
    rewrite bool_decide_false by (apply found_id in Ey; congruence). by apply Ht2.
Qed.

Lemma persist_room_run i f (w : W) :
  let w' := (persist_room i f w).2 in
  Wld.server w' = Wld.server w ∧ Wld.handles w' = Wld.handles w ∧ Wld.identities w' = Wld.identities w ∧
  (∀ j, Persist.get_room (Wld.persistence w') j =
        if decide (j = i) then f <$> Persist.get_room (Wld.persistence w) i
        else Persist.get_room (Wld.persistence w) j).
Proof.
  unfold persist_room. unfold_goal_st. destruct (Persist.get_room (Wld.persistence w) i) as [x|] eqn:Ex.
  - run. cbn [Wld.server Wld.handles Wld.identities Wld.with_persistence Wld.persistence].
    split; [done|]. split; [done|]. split; [done|]. intros j. rewrite (proj1 (proj2 (Ops.save_room_store _ _ _))).
    by destruct (decide (j = i)).
  - cbn [snd]. split; [done|]. split; [done|]. split; [done|]. intros j.
    destruct (decide (j = i)) as [->|]; [by rewrite Ex|done].
Qed.

Lemma command_result_frame h c b msg (w : W) :
  Wld.frame_of (Auth.send_command_result h c b msg w).2 = Wld.frame_of w.
Proof. unfold Auth.send_command_result. run. apply Wld.send_frame_frame. Qed.

(** What a move that is carried out leaves. *)
Lemma moved_world r p q (w w3 : W) :
  St.wf_state (Wld.data w) → Ops.tree_ok (Wld.data w) → r ≠ Types.ROOT_ROOM_UUID → p ∈ St.room_ids (Wld.data w) →
  r ∈ St.room_ids (Wld.data w) → Acl.ancestors (St.rooms (Wld.data w)) p q → r ∉ q →
  Wld.data w3 = (St.move_room r p (Wld.data w)).2 →
  St.wf_state (Wld.data w3) ∧ Ops.tree_ok (Wld.data w3) ∧
  (∀ i, St.find_room (Wld.data w3) i =
     if decide (i = r) then Ops.with_parent p <$> St.find_room (Wld.data w) i else St.find_room (Wld.data w) i) ∧
  St.memberships (Wld.data w3) = St.memberships (Wld.data w).
Proof.
  intros Hwf Ht Hr Hp Hin Hq Hrq Hd.
  assert (St.rooms (Wld.data w3) = moved_rooms r p (St.rooms (Wld.data w))) as Hrooms.
  { rewrite Hd. unfold St.move_room. rewrite St.update_room_rooms by apply Hwf. reflexivity. }
  split; [rewrite Hd; by apply St.update_room_wf; [intros []|]|].
  split; [eapply moved_tree; [done|done|done|by exists q|done]|]. split.
  - intros i. unfold St.find_room. rewrite Hrooms, find_moved.
    destruct (List.find (St.has_room_id i) (St.rooms (Wld.data w))) as [x|] eqn:Ex; [|by destruct (decide (i = r))].
    cbn. rewrite (found_id _ _ _ Ex). destruct (decide (i = r)) as [->|Hne];
      [by rewrite bool_decide_true|by rewrite bool_decide_false].
  - rewrite Hd. unfold St.move_room. edestruct (St.update_room_keeps r) as (_ & -> & _); [by intros []|done].
Qed.

(** C36: Moving a room, for a sender with both permissions, in a well-formed
    tree.  A move into itself, into one of its own descendants, or of an unknown
    room changes nothing.  Any other move of a room that is not Root under an
    existing room gives it exactly that parent, in memory and in the store,
    changes no other room, and leaves a well-formed tree. *)
Theorem move_room_spec (room_id new_parent_id : option Proto.RoomId) (h : N) (w : W) :
  let r := Types.room_or_root room_id in
  let p := Types.room_or_root new_parent_id in
  St.wf_state (Wld.data w) → Ops.tree_ok (Wld.data w) →
  Acl.check_permission w h r Perm.MODIFY_ROOM = None →
  Acl.check_permission w h p Perm.MAKE_ROOM = None →
  r ≠ Types.ROOT_ROOM_UUID → p ∈ St.room_ids (Wld.data w) →
  let w' := (handle_move_room room_id new_parent_id h w).2 in
  (∀ q, Acl.ancestors (St.rooms (Wld.data w)) p q → r ∈ q → Wld.frame_of w' = Wld.frame_of w) ∧
  (¬ (r ∈ St.room_ids (Wld.data w)) → Wld.frame_of w' = Wld.frame_of w) ∧
  (∀ q, Acl.ancestors (St.rooms (Wld.data w)) p q → ¬ (r ∈ q) → r ∈ St.room_ids (Wld.data w) →
    St.wf_state (Wld.data w') ∧ Ops.tree_ok (Wld.data w') ∧
    (∀ i, St.find_room (Wld.data w') i =
       if decide (i = r) then Ops.with_parent p <$> St.find_room (Wld.data w) i
       else St.find_room (Wld.data w) i) ∧
    (∀ i, Persist.get_room (Wld.persistence w') i =
       if decide (i = r) then Ops.persisted_with_parent p <$> Persist.get_room (Wld.persistence w) i
       else Persist.get_room (Wld.persistence w) i) ∧
    St.memberships (Wld.data w') = St.memberships (Wld.data w)).
Proof.
  intros r p Hwf Ht Hc1 Hc2 Hr Hp w'. destruct (proj1 Ht p Hp) as [q Hq].
  assert (Acl.ancestors (St.rooms (Wld.data w)) p q → bool_decide (r ∈ q) =
    would_cycle (S (List.length (St.rooms (Wld.data w)))) 0 (St.rooms (Wld.data w)) r (Some p)) as Hcyc.
  { intros _. symmetry. apply would_cycle_path; [done|done|exact (proj2 Ht)| |];
      pose proof (Acl.ancestors_length _ _ _ Hq); lia. }
  specialize (Hcyc Hq).
  assert (∀ q', Acl.ancestors (St.rooms (Wld.data w)) p q' → q' = q) as Hdet
    by (intros q' Hq'; by eapply Acl.ancestors_det).
  subst w'. unfold handle_move_room. fold r p. cbv zeta.
  unfold require_permission. unfold_goal_st. rewrite Hc1, Hc2.
  destruct (decide (p = r)) as [E|Hpr].
  { rewrite bool_decide_true by done. split; [intros; apply command_result_frame|].
    split; [intros; apply command_result_frame|]. intros q' Hq' Hn. exfalso. apply Hn. rewrite <- E.
    destruct Hq'; apply list_elem_of_here. }
  rewrite bool_decide_false by done. rewrite <- Hcyc. case_bool_decide as Hrq.
  { split; [intros; apply command_result_frame|]. split; [intros; apply command_result_frame|].
    intros q' Hq' Hn. exfalso. apply Hn. by rewrite (Hdet q' Hq'). }
  run. destruct (decide (r ∈ St.room_ids (Wld.data w))) as [Hin|Hnin].
  2: { unfold St.move_room. rewrite St.update_room_missing by done. cbn [fst snd negb].
       assert (∀ x : W, Wld.with_server (St.with_state_data (λ _, Wld.data x)) x = x) as Hid by (by intros [? ? []]).
       rewrite Hid. split; [intros; apply command_result_frame|]. split; [intros; apply command_result_frame|done]. }
  split; [intros q' Hq' Hn; exfalso; apply Hrq; by rewrite <- (Hdet q' Hq')|].
  split; [by intros Hn|]. intros _ _ _ _.
  assert ((St.move_room r p (Wld.data w)).1 = true) as ->.
  { unfold St.move_room. edestruct (St.update_room_keeps r) as (_ & _ & _ & ->); [|by apply bool_decide_true].
    by intros []. }
  cbn [negb]. set (w1 := Wld.with_server _ w).
  destruct (persist_room_run r (Ops.persisted_with_parent p) w1) as (P1 & P2 & P3 & P4).
  change (persist_room r _ w1) with (persist_room r (Ops.persisted_with_parent p) w1).
  destruct (persist_room r (Ops.persisted_with_parent p) w1) as [[] w2]. cbn [snd] in P1, P2, P3, P4.
  rewrite Wld.bcast_run. cbn [fst snd].
  match goal with |- context [Auth.send_command_result ?a ?b ?c ?d ?x] =>
    pose proof (command_result_frame a b c d x) as Hfr;
    assert ((Auth.send_command_result a b c d x).1 = Ok tt) as Hok by (unfold Auth.send_command_result; by run);
    destruct (Auth.send_command_result a b c d x) as [r3 w3] end.
  cbn [fst snd] in Hfr, Hok. subst r3. cbn [fst snd].
  rewrite Wld.bcast_frame in Hfr. apply Wld.frame_fields in Hfr as (_ & _ & F3 & F4 & _).
  assert (Wld.data w3 = (St.move_room r p (Wld.data w)).2) as Hd.
  { unfold Wld.data at 1. rewrite F3, P1. reflexivity. }
  destruct (moved_world r p q w w3 Hwf Ht Hr Hp Hin Hq Hrq Hd) as (M1 & M2 & M3 & M4). split_and!; [done..| |done].
  intros i. rewrite F4, P4. destruct (decide (i = r)) as [->|]; done.
Qed.
End handlers.

(** ** Witnesses *)

#[local] Existing Instances Persist.codecs Persist.codecs_laws Session.sample_external.

Definition annex : Types.Uuid := array_of_N 16 9.

(** The sample server with a second room and an elevated user 1. *)
Definition move_world : Wld.World Persist.memory :=
  Wld.with_server (St.with_state_data
      (St.create_room_with_parent_desc annex "Annex" Types.ROOT_ROOM_UUID None))
    (Wld.with_handles (alter (St.with_is_superuser (λ _, true)) 1%N) Session.sample_world).

Lemma annex_new : ¬ (annex ∈ St.room_ids (Wld.data Session.sample_world)).
Proof. refine (bool_decide_unpack (¬ (annex ∈ St.room_ids (Wld.data Session.sample_world))) _). vm_compute. exact I. Qed.

Lemma move_world_wf : St.wf_state (Wld.data move_world) ∧ Ops.tree_ok (Wld.data move_world).
Proof.
  split; [apply (St.add_room_wf annex "Annex" Types.ROOT_ROOM_UUID None (Wld.data Session.sample_world));
          [exact annex_new|exact Ops.sample_wf]|].
  apply (Ops.create_room_tree annex "Annex" Types.ROOT_ROOM_UUID None (Wld.data Session.sample_world));
    [exact Ops.sample_wf|exact Ops.sample_tree|exact annex_new|apply list_elem_of_here].
Qed.

Lemma move_room_spec_witness :
  let w' := (handle_move_room (Some (Types.room_id_from_uuid St.lobby))
               (Some (Types.room_id_from_uuid annex)) 1 move_world).2 in
  Types.room_parent <$> St.find_room (Wld.data w') St.lobby = Some annex ∧ Ops.tree_ok (Wld.data w').
Proof.
  destruct move_world_wf as [Hwf Ht].
  assert (Types.room_or_root (Some (Types.room_id_from_uuid St.lobby)) = St.lobby) as E1
    by (unfold Types.room_or_root; cbn [mbind option_bind]; by rewrite Types.uuid_from_room_id_from_uuid).
  assert (Types.room_or_root (Some (Types.room_id_from_uuid annex)) = annex) as E2
    by (unfold Types.room_or_root; cbn [mbind option_bind]; by rewrite Types.uuid_from_room_id_from_uuid).
  pose proof (move_room_spec (Some (Types.room_id_from_uuid St.lobby))
                (Some (Types.room_id_from_uuid annex)) 1 move_world) as H.
  cbv zeta in H. rewrite E1, E2 in H.
  destruct H as (_ & _ & H); [exact Hwf|exact Ht|reflexivity|reflexivity|exact Ops.lobby_ne_root| |].
  { apply list_elem_of_further, list_elem_of_further, list_elem_of_here. }
  destruct (H [annex; Types.ROOT_ROOM_UUID]) as (_ & Htree & Hf & _).
  - apply (Acl.anc_up _ _ (St.new_room annex "Annex" Types.ROOT_ROOM_UUID None));
      [|reflexivity|apply Acl.anc_root].
    intros E. apply (f_equal arr) in E. vm_compute in E. discriminate E.
  - refine (bool_decide_unpack (¬ (St.lobby ∈ [annex; Types.ROOT_ROOM_UUID])) _). vm_compute. exact I.
  - apply list_elem_of_further, list_elem_of_here.
  - split; [|exact Htree]. rewrite Hf, decide_True by reflexivity. reflexivity.
Defined.

(** The cycle check does not see that every room hangs from Root: Root itself
    can be moved below one of its children, which closes a cycle. *)
Example move_root_below_child :
  let w' := (handle_move_room (Some Types.root_room_id) (Some (Types.room_id_from_uuid St.lobby)) 1 move_world).2 in
  Types.room_parent <$> St.find_room (Wld.data w') Types.ROOT_ROOM_UUID = Some St.lobby.
Proof. reflexivity. Qed.

(** A new parent that does not exist is accepted. *)
Example move_below_nothing :
  let w' := (handle_move_room (Some (Types.room_id_from_uuid St.lobby))
               (Some (Types.room_id_from_uuid (array_of_N 16 99))) 1 move_world).2 in
  Types.room_parent <$> St.find_room (Wld.data w') St.lobby = Some (array_of_N 16 99).
Proof. reflexivity. Qed.

End Handlers.
