(* ===== verification/Dispatch.v ===== *)
(** Entry points: a new connection ([crates/server/src/server.rs]) and the
    dispatcher [handle_envelope] ([crates/server/src/handlers.rs]), with the
    plugins as a list of callback records ([ServerPlugin] of
    [crates/server/src/plugin.rs]). *)
From Stdlib Require Import NArith ZArith Lia String.
From stdpp Require Import base gmap strings list sets.
From S2P Require Import Prelude Permissions Proto Types Store Wire Persistence State World Acl Session Ops Auth Voice Handlers.

Module Dispatch.
Open Scope string_scope.
Open Scope list_scope.

(** ** Slash commands *)

(** The length of the whitespace character ([char::is_whitespace]) a UTF-8 text
    starts with, 0 if it starts with none. *)
Definition in_range (b : byte) (lo hi : N) : bool :=
  (lo <=? N_of_byte b)%N && (N_of_byte b <=? hi)%N.

Definition ws_len (l : bytes) : nat :=
  match l with
  | b :: r =>
      if in_range b 0x09 0x0d || in_range b 0x20 0x20 then 1
      else match r with
      | b2 :: r2 =>
          if in_range b 0xc2 0xc2 && (in_range b2 0x85 0x85 || in_range b2 0xa0 0xa0) then 2
          else match r2 with
          | b3 :: _ =>
              if (in_range b 0xe1 0xe1 && in_range b2 0x9a 0x9a && in_range b3 0x80 0x80)
                 || (in_range b 0xe2 0xe2 && in_range b2 0x80 0x80
                     && (in_range b3 0x80 0x8a || in_range b3 0xa8 0xa9 || in_range b3 0xaf 0xaf))
                 || (in_range b 0xe2 0xe2 && in_range b2 0x81 0x81 && in_range b3 0x9f 0x9f)
                 || (in_range b 0xe3 0xe3 && in_range b2 0x80 0x80 && in_range b3 0x80 0x80)
              then 3 else 0
          | [] => 0
          end
      | [] => 0
      end
  | [] => 0
  end.

Fixpoint trim_start_n (fuel : nat) (l : bytes) : bytes :=
  match fuel, ws_len l with
  | S fuel, S k => trim_start_n fuel (drop (S k) l)
  | _, _ => l
  end.
Definition trim_start (l : bytes) : bytes := trim_start_n (List.length l) l.

(** Nothing but whitespace. *)
Definition all_ws (l : bytes) : bool := match trim_start l with [] => true | _ => false end.

Fixpoint trim_end (l : bytes) : bytes :=
  match l with
  | [] => []
  | b :: r => if all_ws l then [] else b :: trim_end r
  end.
Definition trim (l : bytes) : bytes := trim_end (trim_start l).

(** [split_once(char::is_whitespace)]. *)
Fixpoint split_once_ws (l : bytes) : option (bytes * bytes) :=
  match l with
  | [] => None
  | b :: r =>
      match ws_len l with
      | O => match split_once_ws r with Some (x, y) => Some (b :: x, y) | None => None end
      | S k => Some ([], drop (S k) l)
      end
  end.

Definition parse_slash_command (text : string) : option (string * string) :=
  match trim_start (as_bytes text) with
  | Byte.x2f :: rest =>
      let '(cmd, args) := match split_once_ws rest with
                          | Some (c, a) => (c, trim a)
                          | None => (rest, [])
                          end in
      match cmd with
      | [] => None
      | _ => Some (to_ascii_lowercase (string_of_list_byte cmd), string_of_list_byte args)
      end
  | _ => None
  end.

Section dispatch.
Context {T : Type} `{!KV T} `{!Persist.Codecs} `{!External}.
Abbreviation W := (Wld.World T).

Record ServerPlugin := mkPlugin {
  commands : list Proto.SlashCommand;
  on_command : string → string → N → ST W (result unit);
  on_message : option Proto.ClientPayload → N → ST W (result bool);
  on_chat_accepted : N → Types.Uuid → string → ST W unit;
  on_disconnect : N → ST W unit;
}.

(** What the environment provides to one message. *)
Record Env := mkEnv {
  now_ms : Z;
  now_secs : N;
  now_secs' : N;
  now_instant : N;
  random_uuid : Types.Uuid;
  random_nonce : array 32;
  server_password : option string;
}.

Section plugins.
Variable plugins : list ServerPlugin.
Variable env : Env.

Definition all_on_disconnect (h : N) : ST W unit := for_each plugins (λ p, on_disconnect p h).
Definition notify_chat_accepted (author : N) (room : Types.Uuid) (text : string) : ST W unit :=
  for_each plugins (λ p, on_chat_accepted p author room text).

(** The plugin whose command a chat line of an authenticated sender names. *)
Definition slash_target (w : W) (payload : option Proto.ClientPayload) (sender : N)
    : option (ServerPlugin * string * string) :=
  match payload with
  | Some (Proto.PChatMessage msg) =>
      if St.authenticated (Wld.handle_at w sender) then
        '(cmd, args) ← parse_slash_command (Proto.cm_text msg);
        plugin ← List.find (λ p, existsb (λ c, eq_ignore_ascii_case (Proto.sc_name c) cmd) (commands p)) plugins;
        Some (plugin, cmd, args)
      else None
  | _ => None
  end.

(** The first plugin that handles the message ends the dispatch. *)
Fixpoint try_plugins (l : list ServerPlugin) (payload : option Proto.ClientPayload) (sender : N)
    (k : ST W (result unit)) : ST W (result unit) :=
  match l with
  | [] => k
  | p :: l =>
      handled ←? on_message p payload sender;
      if handled : bool then done_ok else try_plugins l payload sender k
  end.

(** [if !sender.authenticated { return Ok(()) }], and for participant messages
    also the controller flag. *)
Definition require_authenticated (sender : N) (body : ST W (result unit)) : ST W (result unit) :=
  authenticated ← gets (λ w, St.authenticated (Wld.handle_at w sender));
  if negb authenticated then done_ok else body.
Definition require_controller (sender : N) (body : ST W (result unit)) : ST W (result unit) :=
  authenticated ← gets (λ w, St.authenticated (Wld.handle_at w sender));
  controller ← gets (λ w, St.is_controller (Wld.handle_at w sender));
  if negb authenticated || negb controller then done_ok else body.

Definition handle_payload (payload : option Proto.ClientPayload) (sender : N) : ST W (result unit) :=
  match payload with
  | Some (Proto.PClientHello ch) =>
      Auth.handle_client_hello (random_nonce env) (now_instant env) (server_password env) ch sender
  | Some (Proto.PAuthenticate auth) =>
      Auth.handle_authenticate all_on_disconnect (now_ms env) (now_secs env) (now_secs' env) auth sender
  | Some (Proto.PDisconnect reason) => Handlers.handle_disconnect reason sender
  | Some (Proto.PChatMessage msg) => require_authenticated sender
      (Voice.handle_chat_message notify_chat_accepted (random_uuid env) (now_ms env) msg sender)
  | Some (Proto.PDirectMessage dm) => require_authenticated sender
      (Voice.handle_direct_message (random_uuid env) (now_ms env) dm sender)
  | Some (Proto.PJoinRoom r) => require_authenticated sender (Handlers.handle_join_room r sender)
  | Some (Proto.PCreateRoom cr) => require_authenticated sender
      (Handlers.handle_create_room (random_uuid env) cr sender)
  | Some (Proto.PDeleteRoom r) => require_authenticated sender (Handlers.handle_delete_room r sender)
  | Some (Proto.PRenameRoom r name) => require_authenticated sender (Handlers.handle_rename_room r name sender)
  | Some (Proto.PMoveRoom r p) => require_authenticated sender (Handlers.handle_move_room r p sender)
  | Some (Proto.PSetRoomDescription r d) => require_authenticated sender
      (Handlers.handle_set_room_description r d sender)
  | Some (Proto.PRequestStateSync _ _) => require_authenticated sender (Handlers.handle_request_state_sync sender)
  | Some (Proto.PSetUserStatus m d) => require_authenticated sender (Handlers.handle_set_user_status m d sender)
  | Some (Proto.PRegisterUser u) => require_authenticated sender (Handlers.handle_register_user u sender)
  | Some (Proto.PUnregisterUser u) => require_authenticated sender (Handlers.handle_unregister_user u sender)
  | Some (Proto.PControllerHello name) => require_authenticated sender (Handlers.handle_controller_hello name sender)
  | Some (Proto.PRegisterParticipant name label _) => require_controller sender
      (Handlers.handle_register_participant name label sender)
  | Some (Proto.PUnregisterParticipant u) => require_controller sender (Handlers.handle_unregister_participant u sender)
  | Some (Proto.PMoveParticipant u r) => require_controller sender (Handlers.handle_move_participant u r sender)
  | Some (Proto.PSetParticipantStatus u m d) => require_controller sender
      (Handlers.handle_set_participant_status u m d sender)
  | Some (Proto.PParticipantChat pc) => require_controller sender
      (Handlers.handle_participant_chat notify_chat_accepted (random_uuid env) (now_ms env) pc sender)
  | Some (Proto.PKickUser u reason) => require_authenticated sender (Handlers.handle_kick_user u reason sender)
  | Some (Proto.PBanUser u reason d) => require_authenticated sender
      (Handlers.handle_ban_user (now_secs env) u reason d sender)
  | Some (Proto.PSetServerMute u m) => require_authenticated sender (Handlers.handle_set_server_mute u m sender)
  | Some (Proto.PElevate pw) => require_authenticated sender (Handlers.handle_elevate pw sender)
  | Some (Proto.PCreateGroup n p) => require_authenticated sender (Handlers.handle_create_group n p sender)
  | Some (Proto.PDeleteGroup n) => require_authenticated sender (Handlers.handle_delete_group n sender)
  | Some (Proto.PModifyGroup n p) => require_authenticated sender (Handlers.handle_modify_group n p sender)
  | Some (Proto.PToggleGroupPermission n b e) => require_authenticated sender
      (Handlers.handle_toggle_group_permission n b e sender)
  | Some (Proto.PSetUserGroup u g a e) => require_authenticated sender (Handlers.handle_set_user_group u g a e sender)
  | Some (Proto.PSetRoomAcl sra) => require_authenticated sender (Handlers.handle_set_room_acl sra sender)
  | Some Proto.PRequestRegisteredUsers => require_authenticated sender
      (Handlers.handle_request_registered_users (now_secs env) sender)
  | Some (Proto.PSetRegisteredUserGroup k g a e) => require_authenticated sender
      (Handlers.handle_set_registered_user_group k g a e sender)
  | Some Proto.PServerToClient | None => done_ok
  end.

Definition handle_envelope (payload : option Proto.ClientPayload) (sender : N) : ST W (result unit) :=
  target ← gets (λ w, slash_target w payload sender);
  match target with
  | Some (plugin, cmd, args) => on_command plugin cmd args sender ;? done_ok
  | None => try_plugins plugins payload sender (handle_payload payload sender ;? done_ok)
  end.
End plugins.

(** ** Connections *)

(** The first stream of a connection: a fresh user id, handle and identity.
    Both heaps use the user id as the location. *)
Definition accept_connection : ST W N :=
  user_id ← Wld.on_server St.allocate_user_id;
  modify (Wld.with_identities (<[user_id := St.Identity_empty]>));;
  modify (Wld.with_handles (<[user_id := St.ClientHandle_new None false user_id]>));;
  Wld.set_server (St.register_client user_id user_id);;
  mret user_id.

(** ** Who may do what *)

(** Messages of a controller about participants. *)
Definition participant_message (m : Proto.ClientPayload) : bool :=
  match m with
  | Proto.PRegisterParticipant _ _ _ | Proto.PUnregisterParticipant _ | Proto.PMoveParticipant _ _
  | Proto.PSetParticipantStatus _ _ _ | Proto.PParticipantChat _ => true
  | _ => false
  end.

(** Messages that work before the login. *)
Definition open_message (m : Proto.ClientPayload) : bool :=
  match m with
  | Proto.PClientHello _ | Proto.PAuthenticate _ | Proto.PDisconnect _ | Proto.PServerToClient => true
  | _ => false
  end.

(** The existing participant a message is about. *)
Definition about_participant (m : Proto.ClientPayload) : option N :=
  match m with
  | Proto.PUnregisterParticipant u | Proto.PMoveParticipant u _ | Proto.PSetParticipantStatus u _ _ => Some u
  | Proto.PParticipantChat pc => Some (Proto.pc_user_id pc)
  | _ => None
  end.

(** The permissions a message needs, and where. *)
Definition required (w : W) (sender : N) (m : Proto.ClientPayload) : list (Types.Uuid * Perm.Permissions) :=
  let root := Types.ROOT_ROOM_UUID in
  match m with
  | Proto.PJoinRoom r => [(Types.room_or_root r, Perm.ENTER)]
  | Proto.PCreateRoom cr =>
      [(default root (Proto.cr_parent_id cr ≫= Types.uuid_from_room_id), Perm.MAKE_ROOM)]
  | Proto.PDeleteRoom r | Proto.PRenameRoom r _ | Proto.PSetRoomDescription r _ =>
      [(Types.room_or_root r, Perm.MODIFY_ROOM)]
  | Proto.PMoveRoom r p => [(Types.room_or_root r, Perm.MODIFY_ROOM); (Types.room_or_root p, Perm.MAKE_ROOM)]
  | Proto.PRegisterUser u | Proto.PUnregisterUser u =>
      [(root, if (Handlers.user_or_zero u =? sender)%N then Perm.SELF_REGISTER else Perm.REGISTER)]
  | Proto.PKickUser _ _ => [(root, Perm.KICK)]
  | Proto.PBanUser _ _ _ => [(root, Perm.BAN)]
  | Proto.PSetServerMute u _ => [(Handlers.room_of w u, Perm.MUTE_DEAFEN)]
  | Proto.PElevate _ => [(root, Perm.SUDO)]
  | Proto.PCreateGroup _ _ | Proto.PDeleteGroup _ | Proto.PModifyGroup _ _
  | Proto.PToggleGroupPermission _ _ _ | Proto.PSetUserGroup _ _ _ _
  | Proto.PRequestRegisteredUsers | Proto.PSetRegisteredUserGroup _ _ _ _ => [(root, Perm.MANAGE_ACL)]
  | Proto.PSetRoomAcl sra =>
      match array_of_slice 16 (Proto.sra_room_id sra) with
      | Some room => [(room, Perm.WRITE)]
      | None => []
      end
  | Proto.PControllerHello _ => [(root, Perm.MANAGE_PARTICIPANTS)]
  | _ => []
  end.

(** Plugins that leave messages to the server. *)
Definition passive (plugins : list ServerPlugin) : Prop :=
  ∀ p, p ∈ plugins → commands p = [] ∧ ∀ m h w, on_message p m h w = (Ok false, w).

Lemma passive_dispatch plugins env m h (w : W) :
  passive plugins →
  handle_envelope plugins env m h w = (handle_payload plugins env m h ;? done_ok) w.
Proof.
  intros Hp. unfold handle_envelope. unfold_goal_st.
  assert (slash_target plugins w m h = None) as ->.
  { unfold slash_target. destruct m as [[]|]; try done. destruct (St.authenticated _); [|done].
    destruct (parse_slash_command _) as [[cmd args]|]; [|done]. cbn [mbind option_bind].
    destruct (List.find _ plugins) as [p|] eqn:Ef; [|done]. apply find_Some_iff in Ef as [Hin Hc].
    destruct (Hp p Hin) as [Hcmd _]. by rewrite Hcmd in Hc. }
  assert (∀ l k, (∀ p, p ∈ l → p ∈ plugins) → try_plugins l m h k w = k w) as Ht.
  { induction l as [|p l IH]; intros k Hl; [done|]. cbn [try_plugins]. unfold try_bind.
    destruct (Hp p (Hl p (list_elem_of_here _ _))) as [_ ->]. apply IH.
    intros q Hq. apply Hl. by apply list_elem_of_further. }
  rewrite Ht by done. reflexivity.
Qed.

Lemma done_frame (m : ST W (result unit)) w :
  Wld.frame_of (m w).2 = Wld.frame_of w → Wld.frame_of ((m ;? done_ok) w).2 = Wld.frame_of w.
Proof. unfold try_bind. by destruct (m w) as [[] w']. Qed.

Lemma send_command_result_frame h c b msg : keeps (same (@Wld.frame_of T)) (Auth.send_command_result h c b msg).
Proof.
  unfold Auth.send_command_result.
  repeat first [ apply Wld.send_frame_frame | apply Wld.keeps_ignore; [apply _|] | keeps_step ].
Qed.

(** A failed permission check sends the denial and does nothing else. *)
Lemma require_permission_denied sender room perm body (w : W) :
  Acl.check_permission w sender room perm ≠ None →
  Wld.frame_of (Handlers.require_permission sender room perm body w).2 = Wld.frame_of w.
Proof.
  intros Hc. unfold Handlers.require_permission, Auth.send_permission_denied. unfold_goal_st.
  destruct (Acl.check_permission w sender room perm); [|done]. run. apply Wld.send_frame_frame.
Qed.

(** With the permission the body runs. *)
Lemma require_permission_granted sender room perm body (w : W) :
  Acl.check_permission w sender room perm = None →
  Handlers.require_permission sender room perm body w = body w.
Proof. intros Hc. unfold Handlers.require_permission. unfold_goal_st. by rewrite Hc. Qed.

(** C8: The dispatcher's gates, with plugins that pass messages on: before the
    login only the handshake, authentication and disconnect messages have any
    effect; messages about participants have none from a connection that is no
    controller; and a controller that names a participant it does not own gets
    an answer and changes nothing. *)
Theorem dispatch_gates (plugins : list ServerPlugin) (env : Env) (m : Proto.ClientPayload) (h : N) (w : W) :
  passive plugins →
  let '(r, w') := handle_envelope plugins env (Some m) h w in
  (St.authenticated (Wld.handle_at w h) = false → open_message m = false → r = Ok tt ∧ w' = w) ∧
  (St.is_controller (Wld.handle_at w h) = false → participant_message m = true → r = Ok tt ∧ w' = w) ∧
  (∀ u, about_participant m = Some u → St.is_participant_of (Wld.server w) u (St.Connection h) = false →
     Wld.frame_of w' = Wld.frame_of w).
Proof.
  intros Hp. rewrite (passive_dispatch _ _ _ _ _ Hp).
  assert (∀ body, St.authenticated (Wld.handle_at w h) = false → (require_authenticated h body ;? done_ok) w = (Ok tt, w)) as Ha.
  { intros body Hf. unfold require_authenticated. unfold_goal_st. by rewrite Hf. }
  assert (∀ body, St.authenticated (Wld.handle_at w h) = false ∨ St.is_controller (Wld.handle_at w h) = false →
    (require_controller h body ;? done_ok) w = (Ok tt, w)) as Hc.
  { intros body Hf. unfold require_controller. unfold_goal_st.
    destruct Hf as [-> | ->]; [done|by destruct (St.authenticated _)]. }
  assert (∀ u cmd body, St.is_participant_of (Wld.server w) u (St.Connection h) = false →
    Wld.frame_of ((require_controller h (Handlers.require_participant h u cmd body) ;? done_ok) w).2 = Wld.frame_of w) as Hu.
  { intros u cmd body Hf. apply done_frame. unfold require_controller, Handlers.require_participant. unfold_goal_st.
    destruct (_ || _); [done|]. rewrite Hf. apply send_command_result_frame. }
  rewrite (surjective_pairing (try_bind _ _ w)).
  split; [|split].
  - intros Hf Ho. destruct m; try discriminate Ho; cbn [handle_payload];
      first [ by rewrite Ha by done | rewrite Hc by (by left); done ].
  - intros Hf Hm. destruct m; try discriminate Hm; cbn [handle_payload]; rewrite Hc by (by right); done.
  - intros u Hm Hf. destruct m; try discriminate Hm; injection Hm as <-; by apply Hu.
Qed.

End dispatch.

(** ** Witnesses *)

#[local] Existing Instances Persist.codecs Persist.codecs_laws Session.sample_external.

Definition sample_env : Env := mkEnv 0 0 0 0 (array_of_N 16 50) (array_of_N 32 51) None.

Lemma no_plugins : passive (T := Persist.memory) [].
Proof. intros p Hp. by apply elem_of_nil in Hp. Qed.

(** Connection 9 has not logged in; user 2 is no controller. *)
Lemma dispatch_gates_witness :
  handle_envelope (T := Persist.memory) [] sample_env (Some (Proto.PKickUser 1 "bye")) 9 Session.sample_world
    = (Ok tt, Session.sample_world) ∧
  handle_envelope (T := Persist.memory) [] sample_env (Some (Proto.PUnregisterParticipant 4)) 2 Session.sample_world
    = (Ok tt, Session.sample_world).
Proof.
  pose proof (dispatch_gates [] sample_env (Proto.PKickUser 1 "bye") 9 Session.sample_world no_plugins) as H1.
  pose proof (dispatch_gates [] sample_env (Proto.PUnregisterParticipant 4) 2 Session.sample_world no_plugins) as H2.
  destruct (handle_envelope _ _ _ 9 _) as [r1 w1]. destruct (handle_envelope _ _ _ 2 _) as [r2 w2].
  destruct (proj1 H1) as [-> ->]; [reflexivity|reflexivity|].
  destruct (proj1 (proj2 H2)) as [-> ->]; [reflexivity|reflexivity|]. split; reflexivity.
Defined.


Example slash_echo : parse_slash_command " /ECHO  on " = Some ("echo", "on").
Proof. reflexivity. Qed.
Example slash_bare : parse_slash_command "/ echo" = None.
Proof. reflexivity. Qed.
End Dispatch.
