(* ===== verification/Startup.v ===== *)
(** Start-up: the rooms and room ACLs the server loads from its store
    ([load_persisted_rooms] of [crates/server/src/server.rs] and
    [hydrate_room_acls] of [crates/server/src/state.rs]). *)
From Stdlib Require Import NArith Lia String.
From stdpp Require Import base gmap strings list.
From S2P Require Import Prelude Permissions Proto Types Store Wire Persistence State World Acl Session Ops.

Module Startup.

Section startup.
Context {T : Type} `{!KV T} `{!Persist.Codecs} `{!External}.
Abbreviation W := (Wld.World T).

(** One stored room; an empty description is none, a missing parent is Root. *)
Definition description_of (room : Persist.PersistedRoom) : option string :=
  if str_is_empty (Persist.description room) then None else Some (Persist.description room).
Definition parent_or_root (room : Persist.PersistedRoom) : Types.Uuid :=
  default Types.ROOT_ROOM_UUID (Persist.parent room).

Definition load_room (e : Types.Uuid * Persist.PersistedRoom) : ST W unit :=
  if bool_decide (e.1 = Types.ROOT_ROOM_UUID) then mret tt
  else
    _ ← Wld.on_data (St.add_room_with_uuid_and_parent_desc e.1 (Persist.name e.2)
                       (parent_or_root e.2) (description_of e.2));
    mret tt.

Definition load_persisted_rooms : ST W unit :=
  rooms ← gets (λ w, Persist.get_all_rooms (Wld.persistence w));
  for_each rooms load_room;;
  Ops.hydrate_room_acls.

(** ** The stored rooms *)

Context `{!KVLaws T} `{!Persist.CodecsLaws}.

Lemma get_all_rooms_elem (p : Persist.Persistence T) i r :
  (i, r) ∈ Persist.get_all_rooms p ↔ Persist.get_room p i = Some r.
Proof.
  unfold Persist.get_all_rooms. rewrite list_elem_of_omap, Persist.get_room_view.
  unfold view_record, Persist.pview. cbn [Persist.get_tree]. split.
  - intros ([[k v]|e] & Hin & E); [|done]. cbn in E. apply elem_of_iter in Hin.
    destruct (array_of_slice 16 k) as [u|] eqn:Eu; [|done]. cbn in E.
    destruct (deserialize v) as [x|] eqn:Ev; [|done]. cbn in E. injection E as -> ->.
    rewrite (array_of_slice_Some _ _ _ Eu), Hin. cbn. by rewrite Ev.
  - destruct (kv_view (Persist.rooms p) !! arr i) as [v|] eqn:Ev; [|done]. cbn. intros Hd.
    exists (Ok (arr i, v)). split; [by apply elem_of_iter|]. cbn.
    change (Types.Uuid) with (array 16) in i. rewrite array_of_slice_arr. cbn.
    destruct (deserialize v); [|done]. cbn in *. by injection Hd as ->.
Qed.

Lemma get_all_rooms_NoDup (p : Persist.Persistence T) : NoDup (fst <$> Persist.get_all_rooms p).
Proof.
  apply NoDup_fmap_fst.
  - intros i r r' Hr Hr'. apply get_all_rooms_elem in Hr, Hr'. congruence.
  - apply (Persist.iter_keys_NoDup _ _ (λ e : Types.Uuid * Persist.PersistedRoom, arr e.1)).
    intros k v [u r] E. cbn in E. destruct (array_of_slice 16 k) as [u'|] eqn:Eu; [|done]. cbn in E.
    destruct (deserialize v); [|done]. cbn in E. injection E as <- _. cbn. by apply array_of_slice_Some.
Qed.

(** ** Loading *)

Definition loaded (e : Types.Uuid * Persist.PersistedRoom) : Types.Room :=
  St.new_room e.1 (Persist.name e.2) (parent_or_root e.2) (description_of e.2).

(** What a step keeps: everything but the rooms. *)
Definition but_rooms (w w' : W) : Prop :=
  Wld.persistence w' = Wld.persistence w ∧ St.memberships (Wld.data w') = St.memberships (Wld.data w) ∧
  St.user_statuses (Wld.data w') = St.user_statuses (Wld.data w).

#[local] Instance but_rooms_preorder : PreOrder but_rooms.
Proof. split; [by intros w|]. intros w1 w2 w3 (A1 & A2 & A3) (B1 & B2 & B3). repeat split; congruence. Qed.

Lemma find_app_l i l (k : list Types.Room) x :
  List.find (St.has_room_id i) l = Some x → List.find (St.has_room_id i) (l ++ k) = Some x.
Proof. apply Ops.find_app_old. Qed.

Lemma find_snoc i l (y : Types.Room) :
  List.find (St.has_room_id i) (l ++ [y]) =
  match List.find (St.has_room_id i) l with
  | Some x => Some x
  | None => if St.has_room_id i y then Some y else None
  end.
Proof.
  induction l as [|x l IH]; cbn [app List.find]; [by destruct (St.has_room_id i y)|].
  by destruct (St.has_room_id i x).
Qed.

(** A room keeps the first record it was given. *)
Lemma load_loop l (w : W) :
  let w' := (for_each l load_room w).2 in
  but_rooms w w' ∧ (NoDup (St.room_ids (Wld.data w)) → NoDup (St.room_ids (Wld.data w'))) ∧
  (∀ i, i ≠ Types.ROOT_ROOM_UUID → St.find_room (Wld.data w') i =
     match St.find_room (Wld.data w) i with
     | Some x => Some x
     | None => loaded <$> List.find (λ e, bool_decide (e.1 = i)) l
     end) ∧
  St.find_room (Wld.data w') Types.ROOT_ROOM_UUID = St.find_room (Wld.data w) Types.ROOT_ROOM_UUID.
Proof.
  revert w. induction l as [|e l IH]; intros w.
  { split; [done|]. split; [done|]. split; [|done]. intros i _. by destruct (St.find_room _ i). }
  cbn [for_each]. unfold mbind, ST_bind. destruct (load_room e w) as [[] w1] eqn:E1. cbv zeta.
  destruct (IH w1) as (I1 & I2 & I3 & I4).
  assert (but_rooms w w1 ∧ (NoDup (St.room_ids (Wld.data w)) → NoDup (St.room_ids (Wld.data w1))) ∧
    ∀ i, St.find_room (Wld.data w1) i =
      match St.find_room (Wld.data w) i with
      | Some x => Some x
      | None => if bool_decide (e.1 = i) && negb (bool_decide (e.1 = Types.ROOT_ROOM_UUID))
                then Some (loaded e) else None
      end) as (A1 & A2 & A3).
  { unfold load_room in E1. revert E1. case_bool_decide as Er.
    { intros [= <-]. split; [done|]. split; [done|]. intros i. rewrite andb_false_r. by destruct (St.find_room _ i). }
    run. intros [= <-]. unfold St.add_room_with_uuid_and_parent_desc.
    destruct (existsb (St.has_room_id e.1) (St.rooms (Wld.data w))) eqn:Ex; cbn [snd].
    - split; [done|]. split; [done|]. intros i. unfold St.find_room, Wld.data in *. cbn.
      destruct (List.find (St.has_room_id i) (St.rooms (St.state_data (Wld.server w)))) eqn:Ef; [done|].
      case_bool_decide as Ei; [|done]. exfalso. subst i. apply existsb_elem_of in Ex as (x & Hx & Hp).
      rewrite find_None_iff in Ef. by rewrite (Ef x Hx) in Hp.
    - split; [done|]. split.
      + intros Hnd. unfold St.room_ids. cbn. rewrite fmap_app. apply NoDup_app. split; [exact Hnd|].
        split; [|apply NoDup_singleton]. intros x Hx Hx'. apply list_elem_of_singleton in Hx' as ->.
        assert (existsb (St.has_room_id e.1) (St.rooms (Wld.data w)) = true) as Hc; [|congruence].
        by apply St.existsb_has_room_id.
      + intros i. unfold St.find_room. cbn [St.rooms Wld.data Wld.server Wld.with_server St.state_data St.with_state_data St.with_rooms].
        rewrite find_snoc. fold (Wld.data w). destruct (List.find _ _); [done|]. unfold St.has_room_id. cbn. by rewrite andb_true_r. }
  split; [by etrans|]. split; [auto|]. split.
  - intros i Hi. rewrite I3, A3 by done. cbn [List.find].
    destruct (St.find_room (Wld.data w) i); [done|]. destruct (decide (e.1 = i)) as [<-|Hne].
    + by rewrite bool_decide_true, bool_decide_false.
    + by rewrite bool_decide_false.
  - rewrite I4, A3. destruct (St.find_room (Wld.data w) _); [done|].
    destruct (bool_decide (e.1 = Types.ROOT_ROOM_UUID)); done.
Qed.

(** ** The ACLs *)

(** A room under the ACL the store holds for it. *)
Definition with_acl (acl : bool * list Types.RoomAclEntry) (r : Types.Room) : Types.Room :=
  Types.mkRoom (Types.room_id r) (Types.room_name r) (Types.room_parent r)
    (Types.room_description r) acl.1 acl.2 (Types.room_effective_permissions r).

(** The body of the loop of [Ops.hydrate_room_acls]. *)
Definition hydrate_room (room : Types.Room) : ST W unit :=
  acl ← gets (λ w, Persist.get_room_acl (Wld.persistence w) (Types.room_id room));
  match acl with
  | Some acl =>
      Wld.ignore (Wld.on_data (St.set_room_acl (Types.room_id room) (Persist.pa_inherit_acl acl)
        (map Ops.acl_entry_of_persisted (Persist.pa_entries acl))))
  | None => mret tt
  end.

Lemma hydrate_room_run room (w : W) :
  let w' := (hydrate_room room w).2 in
  NoDup (St.room_ids (Wld.data w)) →
  but_rooms w w' ∧ St.room_ids (Wld.data w') = St.room_ids (Wld.data w) ∧
  ∀ i, St.find_room (Wld.data w') i =
    if decide (i = Types.room_id room ∧ is_Some (Persist.get_room_acl (Wld.persistence w) i))
    then with_acl (Ops.stored_acl (Wld.persistence w) i) <$> St.find_room (Wld.data w) i
    else St.find_room (Wld.data w) i.
Proof.
  intros w' Hnd. subst w'. unfold hydrate_room. run.
  destruct (Persist.get_room_acl (Wld.persistence w) (Types.room_id room)) as [acl|] eqn:Ea.
  - set (d' := St.set_room_acl (Types.room_id room) (Persist.pa_inherit_acl acl)
                 (map Ops.acl_entry_of_persisted (Persist.pa_entries acl)) (Wld.data w)).
    assert (but_rooms w (Wld.with_server (St.with_state_data (λ _, d'.2)) w) ∧
            St.room_ids d'.2 = St.room_ids (Wld.data w)) as [A1 A2].
    { destruct (St.update_room_keeps (Types.room_id room) (with_acl (Persist.pa_inherit_acl acl,
        map Ops.acl_entry_of_persisted (Persist.pa_entries acl))) (Wld.data w)) as (K1 & K2 & K3 & _); [done|].
      split; [split_and!; [done|exact K2|exact K3]|exact K1]. }
    assert (∀ i, St.find_room d'.2 i =
      if decide (i = Types.room_id room ∧ is_Some (Persist.get_room_acl (Wld.persistence w) i))
      then with_acl (Ops.stored_acl (Wld.persistence w) i) <$> St.find_room (Wld.data w) i
      else St.find_room (Wld.data w) i) as A3.
    { intros i. unfold d', St.find_room, St.set_room_acl. rewrite St.update_room_find by done.
      unfold Ops.stored_acl. case_bool_decide as Ei; [subst i|].
      - rewrite Ea, decide_True by (split; [done|by eexists]). done.
      - by rewrite decide_False by (intros [? _]; done). }
    run. unfold Wld.data in *. fold d'. destruct d' as [b d']. cbn in *. done.
  - run. split; [reflexivity|]. split; [done|]. intros i. rewrite decide_False; [done|].
    intros [-> [? ?]]. congruence.
Qed.

Lemma hydrate_loop l (w : W) :
  let w' := (for_each l hydrate_room w).2 in
  NoDup (St.room_ids (Wld.data w)) →
  but_rooms w w' ∧ St.room_ids (Wld.data w') = St.room_ids (Wld.data w) ∧
  ∀ i, St.find_room (Wld.data w') i =
    if decide (i ∈ Types.room_id <$> l ∧ is_Some (Persist.get_room_acl (Wld.persistence w) i))
    then with_acl (Ops.stored_acl (Wld.persistence w) i) <$> St.find_room (Wld.data w) i
    else St.find_room (Wld.data w) i.
Proof.
  revert w. induction l as [|x l IH]; intros w w' Hnd; subst w'.
  { split; [reflexivity|]. split; [done|]. intros i. rewrite decide_False; [done|].
    intros [?%elem_of_nil _]. done. }
  cbn [for_each]. unfold mbind, ST_bind. pose proof (hydrate_room_run x w Hnd) as (A1 & A2 & A3).
  destruct (hydrate_room x w) as [[] w1]. cbn [snd] in *.
  destruct (IH w1) as (I1 & I2 & I3); [by rewrite A2|].
  split; [by etrans|]. split; [congruence|]. intros i.
  rewrite I3, A3, (proj1 A1), fmap_cons.
  destruct (decide (is_Some (Persist.get_room_acl (Wld.persistence w) i))) as [Hs|Hs].
  2: { by rewrite !decide_False by (intros [? ?]; done). }
  destruct (decide (i = Types.room_id x)) as [->|Hne].
  - rewrite (decide_True _ _ (conj eq_refl Hs)). rewrite (decide_True (P := _ ∈ _ :: _ ∧ _)) by (split; [by left|done]).
    case_decide; [|done]. rewrite <- option_fmap_compose. by apply option_fmap_ext.
  - rewrite (decide_False (P := _ = _ ∧ _)) by (intros [? _]; done).
    destruct (decide (i ∈ Types.room_id <$> l)) as [Hi|Hi].
    + rewrite !decide_True; [done|split; [by right|done]|done].
    + rewrite !decide_False; [done|intros [[?|?]%elem_of_cons _]; done|intros [? _]; done].
Qed.

Lemma with_acl_unstored (p : Persist.Persistence T) i e :
  Persist.get_room_acl p i = None → with_acl (Ops.stored_acl p i) (loaded e) = loaded e.
Proof. intros Hn. unfold Ops.stored_acl. by rewrite Hn. Qed.

Lemma find_stored (p : Persist.Persistence T) i :
  loaded <$> List.find (λ e, bool_decide (e.1 = i)) (Persist.get_all_rooms p) =
  (λ r, loaded (i, r)) <$> Persist.get_room p i.
Proof.
  destruct (List.find _ _) as [[i' r]|] eqn:E.
  - apply find_Some_iff in E as [Hin Hi]. apply bool_decide_eq_true in Hi. cbn in Hi. subst i'.
    apply get_all_rooms_elem in Hin. by rewrite Hin.
  - destruct (Persist.get_room p i) as [r|] eqn:Er; [|done]. apply get_all_rooms_elem in Er.
    rewrite find_None_iff in E. specialize (E _ Er). cbn in E. by rewrite bool_decide_true in E.
Qed.

(** The fresh tree holds Root, with nothing of an ACL. *)
Lemma find_new i :
  St.find_room St.StateData_new i =
  if decide (i = Types.ROOT_ROOM_UUID)
  then Some (St.new_room Types.ROOT_ROOM_UUID "Root" Types.ROOT_ROOM_UUID None) else None.
Proof.
  unfold St.find_room, St.StateData_new. cbn [List.find St.rooms]. unfold St.has_room_id. cbn [Types.room_id].
  case_decide as E; [subst; by rewrite bool_decide_true|by rewrite bool_decide_false].
Qed.

(** A room the ACLs were hydrated into, from one that had none. *)
Lemma hydrated_room (p : Persist.Persistence T) i (c : Prop) `{Decision c} (x : Types.Room) :
  Types.room_inherit_acl x = true → Types.room_acls x = [] → (Persist.get_room_acl p i ≠ None → c) →
  (if decide (c ∧ is_Some (Persist.get_room_acl p i)) then Some (with_acl (Ops.stored_acl p i) x) else Some x) =
  Some (with_acl (Ops.stored_acl p i) x).
Proof.
  intros Hi Ha Hc. case_decide as E; [done|]. unfold Ops.stored_acl, with_acl.
  destruct (Persist.get_room_acl p i); [destruct E; split; [by apply Hc|by eexists]|].
  cbn. rewrite <- Hi, <- Ha. by destruct x.
Qed.

(** Starting from an empty room tree, the load makes memory agree with the
    store: every stored room but a record filed under Root's id is there, with
    its stored name, its stored parent (Root where the record has none), its
    description ([None] when empty) and its stored ACL; no other room is, apart
    from Root; the ACL mirror holds for all of them, the state is well formed
    and the store itself is untouched. *)
Theorem startup_restores_rooms (w : W) :
  Wld.data w = St.StateData_new →
  let w' := (load_persisted_rooms w).2 in
  Wld.persistence w' = Wld.persistence w ∧
  St.wf_state (Wld.data w') ∧ Ops.acl_mirror w' ∧
  (∀ i, i ≠ Types.ROOT_ROOM_UUID →
     St.find_room (Wld.data w') i =
     (λ r, with_acl (Ops.stored_acl (Wld.persistence w) i)
             (St.new_room i (Persist.name r) (parent_or_root r) (description_of r)))
       <$> Persist.get_room (Wld.persistence w) i) ∧
  (∃ x, St.find_room (Wld.data w') Types.ROOT_ROOM_UUID = Some x ∧
        Types.room_parent x = Types.ROOT_ROOM_UUID).
Proof.
  intros Hd w'. unfold w', load_persisted_rooms. run.
  destruct (load_loop (Persist.get_all_rooms (Wld.persistence w)) w) as (A1 & A2 & A3 & A4).
  destruct (for_each (Persist.get_all_rooms (Wld.persistence w)) load_room w) as [[] w1]. cbn [snd] in *.
  rewrite Hd in A2, A3, A4.
  change (Ops.hydrate_room_acls w1) with (for_each (St.rooms (Wld.data w1)) hydrate_room w1).
  destruct (hydrate_loop (St.rooms (Wld.data w1)) w1) as (I1 & I2 & I3); [apply A2, St.wf_StateData_new|].
  destruct (for_each _ hydrate_room w1) as [[] w2]. cbn [snd] in *.
  assert (Wld.persistence w2 = Wld.persistence w) as Hp by (rewrite (proj1 I1); apply A1).
  assert (∀ i, i ≠ Types.ROOT_ROOM_UUID → St.find_room (Wld.data w1) i =
    (λ r, loaded (i, r)) <$> Persist.get_room (Wld.persistence w) i) as Hl.
  { intros i Hi. by rewrite A3, <- find_stored, find_new, decide_False. }
  rewrite find_new, decide_True in A4 by done.
  assert (∀ i x, St.find_room (Wld.data w1) i = Some x →
    Types.room_inherit_acl x = true ∧ Types.room_acls x = [] ∧ i ∈ St.room_ids (Wld.data w1)) as Hn.
  { intros i x Hx. split_and!; [..|by apply St.find_room_ids; eexists];
      (destruct (decide (i = Types.ROOT_ROOM_UUID)) as [->|Hi];
       [rewrite A4 in Hx; by injection Hx as <-|]);
      rewrite Hl in Hx by done; destruct (Persist.get_room _ i); [|done| |done]; by injection Hx as <-. }
  assert (∀ i, St.find_room (Wld.data w2) i =
    with_acl (Ops.stored_acl (Wld.persistence w) i) <$> St.find_room (Wld.data w1) i) as Hf.
  { intros i. rewrite I3, (proj1 A1). destruct (St.find_room (Wld.data w1) i) as [x|] eqn:Ef.
    - destruct (Hn i x Ef) as (N1 & N2 & N3). by apply hydrated_room.
    - by case_decide. }
  split; [done|]. split; [|split; [|split]].
  - destruct I1 as (_ & M1 & S1), A1 as (_ & M2 & S2). split.
    + rewrite I2. apply A2, St.wf_StateData_new.
    + rewrite I2. apply (Hn _ _ A4).
    + rewrite M1, M2, Hd. apply NoDup_nil_2.
    + rewrite S1, S2, Hd. apply NoDup_nil_2.
    + rewrite M1, M2, Hd. by intros u r ?%elem_of_nil.
  - intros r x Hx. rewrite Hf, Hp in *. destruct (St.find_room (Wld.data w1) r); [|done].
    injection Hx as <-. cbn. by destruct (Ops.stored_acl _ r).
  - intros i Hi. rewrite Hf, Hl by done. by destruct (Persist.get_room _ i).
  - rewrite Hf, A4. by eexists.
Qed.
End startup.

(** ** A concrete start *)

#[local] Existing Instances Persist.codecs Persist.codecs_laws Session.sample_external.

(** A store with a room whose record has no parent, under a private ACL. *)
Definition stored_rooms : Persist.Persistence Persist.memory :=
  let p := (Persist.save_room St.lobby (Persist.mkPersistedRoom "Lobby" None "" true) Persist.empty_store).2 in
  (Persist.set_room_acl St.lobby (Persist.mkPersistedRoomAcl false []) p).2.

Definition first_start : Wld.World Persist.memory :=
  Wld.mkWorld ∅ ∅ St.ServerState_new stored_rooms ∅ ∅ [].

Lemma startup_restores_rooms_witness :
  Wld.data first_start = St.StateData_new ∧
  St.find_room (Wld.data (load_persisted_rooms first_start).2) St.lobby =
    Some (Types.mkRoom St.lobby "Lobby" Types.ROOT_ROOM_UUID None false [] 0).
Proof.
  split; [reflexivity|].
  destruct (startup_restores_rooms first_start eq_refl) as (_ & _ & _ & H & _).
  rewrite H by (by refine (bool_decide_unpack (St.lobby ≠ Types.ROOT_ROOM_UUID) _); vm_compute).
  vm_compute. reflexivity.
Defined.
End Startup.
