(* ===== verification/RoomTree.v ===== *)
(** The room tree the client derives from its room list
    ([RoomTree] of [crates/rumble-client/src/events.rs]). *)
From Stdlib Require Import NArith Lia String.
From stdpp Require Import base gmap strings list sorting.
From S2P Require Import Prelude Proto Types Store Wire.

Module RoomTree.

Record RoomTreeNode := mkNode {
  node_id : Types.Uuid;
  node_name : string;
  node_parent_id : option Types.Uuid;
  node_children : list Types.Uuid;
  node_description : option string;
}.
Definition with_children (f : list Types.Uuid → list Types.Uuid) (n : RoomTreeNode) : RoomTreeNode :=
  mkNode (node_id n) (node_name n) (node_parent_id n) (f (node_children n)) (node_description n).

Abbreviation RoomTree := (gmap Types.Uuid RoomTreeNode).

(** ** [rebuild] *)

(** First pass: a node per room; Root's link to itself becomes [None]. *)
Definition node_of (room : Types.Room) : RoomTreeNode :=
  mkNode (Types.room_id room) (Types.room_name room)
    (if negb (Types.is_root room) then Some (Types.room_parent room) else None)
    [] (Types.room_description room).
Definition nodes_of (rooms : list Types.Room) : RoomTree :=
  fold_left (λ t room, <[Types.room_id room := node_of room]> t) rooms ∅.

Definition parent_of (t : RoomTree) (uuid : Types.Uuid) : option Types.Uuid :=
  t !! uuid ≫= node_parent_id.

(** Second pass: each node goes to its parent's children. *)
Definition attach (t : RoomTree) (uuid : Types.Uuid) : RoomTree :=
  match parent_of t uuid with
  | None => t
  | Some parent_uuid =>
      match t !! parent_uuid with
      | Some parent => <[parent_uuid := with_children (λ c, c ++ [uuid]) parent]> t
      | None => t
      end
  end.

Definition name_of (names : gmap Types.Uuid string) (uuid : Types.Uuid) : bytes :=
  as_bytes (default EmptyString (names !! uuid)).
Definition name_le (names : gmap Types.Uuid string) (a b : Types.Uuid) : bool :=
  bytes_leb (name_of names a) (name_of names b).

(** The keys come in the map's own order, as from a [HashMap]; the final sort
    is stable. *)
Definition rebuild (rooms : list Types.Room) : RoomTree :=
  let nodes := nodes_of rooms in
  let uuids := fst <$> map_to_list nodes in
  let nodes := fold_left attach uuids nodes in
  let names := node_name <$> nodes in
  with_children (Wire.sort_by (name_le names)) <$> nodes.

(** ** Reading it *)

Definition children (t : RoomTree) (uuid : Types.Uuid) : list Types.Uuid :=
  default [] (node_children <$> t !! uuid).
Definition has_children (t : RoomTree) (uuid : Types.Uuid) : bool :=
  match t !! uuid with
  | Some n => match node_children n with [] => false | _ => true end
  | None => false
  end.

(** [AncestorIterator]: [remaining] caps the walk. *)
Fixpoint ancestor_walk (remaining : nat) (t : RoomTree) (current : option Types.Uuid) : list Types.Uuid :=
  match remaining, current with
  | S remaining, Some current => current :: ancestor_walk remaining t (parent_of t current)
  | _, _ => []
  end.
Definition ancestors (t : RoomTree) (uuid : Types.Uuid) : list Types.Uuid :=
  ancestor_walk (size t) t (parent_of t uuid).
Definition is_ancestor (t : RoomTree) (ancestor descendant : Types.Uuid) : bool :=
  existsb (λ id, bool_decide (id = ancestor)) (ancestors t descendant).
Definition depth (t : RoomTree) (uuid : Types.Uuid) : nat := List.length (ancestors t uuid).

(** ** The passes *)

Lemma nodes_of_lookup rooms i :
  nodes_of rooms !! i =
  node_of <$> last (List.filter (λ r, bool_decide (Types.room_id r = i)) rooms).
Proof.
  unfold nodes_of. induction rooms as [|r rooms IH] using rev_ind; [done|].
  rewrite fold_left_app, List.filter_app. cbn [fold_left List.filter].
  destruct (decide (Types.room_id r = i)) as [<-|Hne].
  - by rewrite lookup_insert_eq, bool_decide_true, last_snoc.
  - rewrite lookup_insert_ne by done. rewrite bool_decide_false, app_nil_r by done. exact IH.
Qed.

Lemma parent_of_attach t u v : parent_of (attach t u) v = parent_of t v.
Proof.
  unfold attach. destruct (parent_of t u) as [p|]; [|done].
  destruct (t !! p) as [n|] eqn:En; [|done]. unfold parent_of.
  destruct (decide (p = v)) as [<-|Hne]; [|by rewrite lookup_insert_ne].
  by rewrite lookup_insert_eq, En.
Qed.

Lemma attach_lookup t u p :
  attach t u !! p =
  (λ n, with_children (λ c, c ++ if decide (parent_of t u = Some p) then [u] else []) n) <$> t !! p.
Proof.
  unfold attach. destruct (parent_of t u) as [q|] eqn:Eq.
  2: { rewrite decide_False by done. destruct (t !! p) as [[]|]; [|done]. cbn. unfold with_children. cbn. by rewrite app_nil_r. }
  destruct (decide (q = p)) as [->|Hne].
  - rewrite decide_True by done. destruct (t !! p) as [n|] eqn:En; [by rewrite lookup_insert_eq|by rewrite En].
  - rewrite decide_False by congruence.
    assert (∀ m : option RoomTreeNode, (λ n, with_children (λ c, c ++ []) n) <$> m = m) as Hid.
    { intros [[]|]; [|done]. cbn. unfold with_children. cbn. by rewrite app_nil_r. }
    rewrite Hid. destruct (t !! q); [by rewrite lookup_insert_ne|done].
Qed.

Lemma attach_all t us p :
  fold_left attach us t !! p =
  with_children (λ c, c ++ List.filter (λ u, bool_decide (parent_of t u = Some p)) us) <$> t !! p.
Proof.
  revert t. induction us as [|u us IH]; intros t; cbn [fold_left List.filter].
  - destruct (t !! p) as [[]|]; [|done]. cbn. unfold with_children. cbn. by rewrite app_nil_r.
  - rewrite IH, attach_lookup, <- option_fmap_compose. destruct (t !! p) as [n|]; [|done]. cbn. f_equal.
    unfold with_children. cbn. f_equal. rewrite <- app_assoc. f_equal.
    rewrite (List.filter_ext _ (λ v, bool_decide (parent_of t v = Some p)))
      by (intros v; by rewrite parent_of_attach).
    destruct (decide (parent_of t u = Some p)) as [E|E];
      [by rewrite bool_decide_true|by rewrite bool_decide_false].
Qed.
Lemma parent_of_with_children (f : RoomTreeNode → list Types.Uuid → list Types.Uuid) t u :
  parent_of ((λ n, with_children (f n) n) <$> t) u = parent_of t u.
Proof. unfold parent_of. rewrite lookup_fmap. by destruct (t !! u). Qed.

Lemma rebuild_lookup rooms p :
  let t := nodes_of rooms in
  let names := node_name <$> t in
  rebuild rooms !! p =
  with_children (λ _, Wire.sort_by (name_le names)
    (List.filter (λ u, bool_decide (parent_of t u = Some p)) (fst <$> map_to_list t))) <$> t !! p.
Proof.
  cbv zeta. unfold rebuild. set (t := nodes_of rooms). set (us := fst <$> map_to_list t).
  assert (node_name <$> fold_left attach us t = node_name <$> t) as Hn.
  { apply map_eq. intros i. rewrite !lookup_fmap, attach_all. by destruct (t !! i). }
  rewrite Hn, lookup_fmap, attach_all. destruct (t !! p) as [n|] eqn:En; [|done]. cbn. f_equal.
  unfold with_children. cbn. f_equal. f_equal. unfold t in En. rewrite nodes_of_lookup in En.
  destruct (last _); [|done]. by injection En as <-.
Qed.

Lemma parent_of_rebuild rooms u : parent_of (rebuild rooms) u = parent_of (nodes_of rooms) u.
Proof. unfold parent_of. rewrite rebuild_lookup. by destruct (nodes_of rooms !! u). Qed.

(** The derived tree is the room list, read as a tree: every listed room has
    its node (of two rooms with one id the later), with the room's name,
    parent and description and Root cut off from itself; a node's children are
    exactly the nodes that name it as their parent, each once, in the order of
    their names; and a room whose parent is not listed is nobody's child. *)
Theorem rebuild_spec (rooms : list Types.Room) :
  let t := rebuild rooms in
  (∀ i, with_children (λ _, []) <$> t !! i =
        node_of <$> last (List.filter (λ r, bool_decide (Types.room_id r = i)) rooms)) ∧
  (∀ p u, u ∈ children t p ↔ is_Some (t !! p) ∧ parent_of t u = Some p) ∧
  (∀ p, NoDup (children t p) ∧
        StronglySorted (λ a b, Is_true (name_le (node_name <$> t) a b)) (children t p)) ∧
  (∀ u p, parent_of t u = Some p → u ≠ Types.ROOT_ROOM_UUID).
Proof.
  intros t. split; [|split; [|split]].
  - intros i. unfold t. rewrite rebuild_lookup, <- nodes_of_lookup.
    rewrite <- option_fmap_compose. rewrite nodes_of_lookup. by destruct (last _).
  - intros p u. unfold t, children. rewrite parent_of_rebuild, rebuild_lookup.
    destruct (nodes_of rooms !! p) as [n|] eqn:En; cbn.
    2: { split; [by intros ?%elem_of_nil|]. by intros [[? [=]] _]. }
    rewrite Wire.sort_by_perm. rewrite list_elem_of_In, filter_In, <- list_elem_of_In, bool_decide_eq_true.
    split; [intros [_ Hp]; split; [by eexists|done]|]. intros [_ Hp]. split; [|done].
    unfold parent_of in Hp. destruct (nodes_of rooms !! u) as [m|] eqn:Em; [|done].
    apply list_elem_of_fmap. exists (u, m). split; [done|]. by apply elem_of_map_to_list.
  - intros p. unfold t, children. rewrite rebuild_lookup.
    assert (node_name <$> rebuild rooms = node_name <$> nodes_of rooms) as ->.
    { apply map_eq. intros i. rewrite !lookup_fmap, rebuild_lookup. by destruct (nodes_of rooms !! i). }
    destruct (nodes_of rooms !! p) as [n|]; cbn; [|split; [apply NoDup_nil_2|constructor]]. split.
    + rewrite Wire.sort_by_perm. apply NoDup_retain, NoDup_fst_map_to_list.
    + apply (Wire.sort_by_sorted (name_of (node_name <$> nodes_of rooms)) bytes_leb).
      * apply Store.bytes_leb_total.
      * apply Store.bytes_leb_trans.
  - intros u p. unfold t. rewrite parent_of_rebuild. unfold parent_of. rewrite nodes_of_lookup.
    destruct (last _) as [r|] eqn:Er; [|done]. cbn. apply last_Some_elem_of in Er.
    apply list_elem_of_In, filter_In in Er as [_ Er]. apply bool_decide_eq_true in Er as <-.
    unfold Types.is_root. by case_bool_decide.
Qed.

(** ** Ancestors *)

(** [k] steps up. *)
Fixpoint up (t : RoomTree) (k : nat) (o : option Types.Uuid) : option Types.Uuid :=
  match k with 0 => o | S k => up t k (o ≫= parent_of t) end.

Lemma up_add t i j o : up t (i + j) o = up t j (up t i o).
Proof. revert o. induction i as [|i IH]; intros o; [done|]. apply IH. Qed.

Lemma up_None t k : up t k None = None.
Proof. induction k as [|k IH]; [done|]. exact IH. Qed.

Lemma walk_elem n t o a : a ∈ ancestor_walk n t o ↔ ∃ k, k < n ∧ up t k o = Some a.
Proof.
  revert o. induction n as [|n IH]; intros o; cbn [ancestor_walk].
  { split; [by intros ?%elem_of_nil|]. intros (k & Hk & _). lia. }
  destruct o as [u|].
  - rewrite elem_of_cons, IH. split.
    + intros [->|(k & Hk & E)]; [exists 0; split; [lia|done]|]. exists (S k). split; [lia|done].
    + intros ([|k] & Hk & E); [left; by injection E|]. right. exists k. split; [lia|done].
  - split; [by intros ?%elem_of_nil|]. intros (k & _ & E). by rewrite up_None in E.
Qed.

Lemma walk_length n t o : List.length (ancestor_walk n t o) ≤ n.
Proof.
  revert o. induction n as [|n IH]; intros [u|]; cbn [ancestor_walk List.length]; [lia..| |lia].
  specialize (IH (parent_of t u)). lia.
Qed.

Lemma not_NoDup_fmap_seq {A} `{EqDecision A} (f : nat → A) n :
  ¬ NoDup (f <$> seq 0 n) → ∃ i j, i < j ∧ j < n ∧ f i = f j.
Proof.
  induction n as [|n IH]; intros Hd; [destruct Hd; apply NoDup_nil_2|].
  rewrite seq_S, fmap_app in Hd. cbn in Hd.
  destruct (decide (f n ∈ f <$> seq 0 n)) as [Hin|Hn].
  - apply list_elem_of_fmap in Hin as (i & E & Hi%elem_of_seq). exists i, n. split_and!; [lia|lia|done].
  - destruct IH as (i & j & ? & ? & ?); [|exists i, j; split_and!; [done|lia|done]].
    intros Hnd. apply Hd, NoDup_app. split; [done|]. split; [|apply NoDup_singleton].
    by intros x Hx ->%list_elem_of_singleton.
Qed.

(** Reachability needs no more steps than there are nodes. *)
Lemma up_bounded t d k a :
  up t (S k) (Some d) = Some a → ∃ j, j < size t ∧ up t (S j) (Some d) = Some a.
Proof.
  induction k as [k IH] using lt_wf_ind. intros E.
  destruct (decide (k < size t)) as [Hk|Hk]; [by exists k|].
  set (vs := (λ i, up t i (Some d)) <$> seq 0 (S k)).
  destruct (decide (NoDup vs)) as [Hnd|Hdup].
  - exfalso. assert (vs ⊆ Some <$> (fst <$> map_to_list t)) as Hsub.
    { intros o Ho. apply list_elem_of_fmap in Ho as (i & -> & Hi%elem_of_seq).
      replace (S k) with (i + S (k - i)) in E by lia. rewrite up_add in E. cbn [up] in E.
      destruct (up t i (Some d)) as [v|]; [|by rewrite up_None in E].
      apply list_elem_of_fmap_2. cbn [option_bind mbind] in E. unfold parent_of at 1 in E.
      destruct (t !! v) as [n|] eqn:En; [|cbn in E; by rewrite up_None in E].
      apply list_elem_of_fmap. exists (v, n). split; [done|]. by apply elem_of_map_to_list. }
    pose proof (submseteq_length _ _ (NoDup_submseteq _ _ Hnd Hsub)) as Hl.
    unfold vs in Hl. rewrite !length_fmap, length_seq, length_map_to_list in Hl. lia.
  - destruct (not_NoDup_fmap_seq (λ i, up t i (Some d)) (S k) Hdup) as (i & j & Hij & Hj & Eq).
    apply (IH (k - (j - i))); [lia|].
    replace (S (k - (j - i))) with (i + (S k - j)) by lia. rewrite up_add, Eq, <- up_add.
    by replace (j + (S k - j)) with (S k) by lia.
Qed.

(** The ancestor walk always ends, after at most as many rooms as the tree
    has nodes, and loses nothing by it: a room counts as an ancestor of another
    exactly when following parent links from the other reaches it, whatever
    cycles or dangling parents the delivered room list contains. *)
Theorem ancestors_spec (t : RoomTree) (a d : Types.Uuid) :
  depth t d ≤ size t ∧
  (is_ancestor t a d = true ↔ tc (λ x y, parent_of t x = Some y) d a).
Proof.
  split; [apply walk_length|]. unfold is_ancestor, ancestors.
  rewrite existsb_elem_of. setoid_rewrite bool_decide_eq_true. setoid_rewrite walk_elem.
  assert (∀ k x, up t (S k) (Some x) = Some a → tc (λ x y, parent_of t x = Some y) x a) as Hup.
  { induction k as [|k IH]; intros x; cbn; intros E; [by apply tc_once|].
    destruct (parent_of t x) as [y|] eqn:Ey; [|cbn in E; by rewrite up_None in E].
    eapply tc_l; [exact Ey|]. by apply IH. }
  split.
  - intros (x & (k & _ & E) & ->). by apply (Hup k).
  - intros Ht. exists a. split; [|done].
    assert (∃ k, up t (S k) (Some d) = Some a) as [k Hk].
    { clear Hup. induction Ht as [x y E|x y z E _ [k IH]]; [by exists 0|]. exists (S k).
      cbn [up mbind option_bind] in *. by rewrite E. }
    apply up_bounded in Hk. exact Hk.
Qed.
End RoomTree.
