(* ===== verification/Client.v ===== *)
(** The client's view of the server: the translation of server messages into
    typed events ([handle_server_message], [apply_state_update] of
    [crates/rumble-client/src/handle.rs]) and the projection that folds the
    events into the [State] the user interface reads
    ([crates/rumble-client/src/projection.rs]).  The projection is the only
    writer of the state, so a run of the client is a list of events folded by
    [project]; the audio task, the file-transfer plugin and the command channel
    receive what [Effect] lists.  The audio half of the state ([apply_voice]),
    which no other event reads, is left out. *)
From Stdlib Require Import NArith ZArith Lia String.
From stdpp Require Import base gmap strings list sorting.
From S2P Require Import Prelude Permissions Proto Types Store Wire Persistence State World Acl RoomTree.
Open Scope string_scope.
Open Scope list_scope.

Module Client.

(** ** Data *)

Inductive ChatMessageKind :=
  | Room
  | DirectMessage (other_user_id : N) (other_username : string)
  | Tree.

Inductive ChatMessageVisibility := System | Normal | SenderDraft | SenderMirror.
Definition renders_locally (v : ChatMessageVisibility) : bool :=
  match v with SenderMirror => false | _ => true end.
Definition included_in_history_sync (v : ChatMessageVisibility) : bool :=
  match v with Normal | SenderMirror => true | _ => false end.

(** A [SystemTime] is a number of nanoseconds since the epoch. *)
Definition SystemTime := Z.
Definition of_millis (ms : Z) : SystemTime := (ms * 1000000)%Z.

Record ChatMessage := mkChatMessage {
  msg_id : array 16;
  msg_sender : string;
  msg_sender_id : option N;
  msg_text : string;
  msg_timestamp : SystemTime;
  msg_kind : ChatMessageKind;
  msg_attachment : option Types.ChatAttachment;
  msg_visibility : ChatMessageVisibility;
}.

Record PendingCertificate := mkPendingCertificate {
  certificate_der : bytes;
  fingerprint : array 32;
  cert_server_name : string;
  cert_server_addr : string;
  cert_username : string;
  cert_password : option string;
  cert_public_key : array 32;
}.

Inductive ConnectionState :=
  | Disconnected
  | Connecting (server_addr : string)
  | Connected (server_name : string) (user_id : N)
  | ConnectionLost (error : string)
  | CertificatePending (cert_info : PendingCertificate).

Record State := mkState {
  connection : ConnectionState;
  rooms : list Types.Room;
  users : list Types.User;
  my_user_id : option N;
  my_room_id : option Types.Uuid;
  my_session_public_key : option (array 32);
  my_session_id : option (array 32);
  chat_messages : list ChatMessage;
  chat_epoch : N;
  room_tree : RoomTree.RoomTree;
  effective_permissions : N;
  per_room_permissions : gmap Types.Uuid N;
  kicked : option string;
  group_definitions : list Types.Group;
  slash_commands : list Types.SlashCommand;
  registered_users : list Types.RegisteredUser;
}.

Definition State_default : State :=
  mkState Disconnected [] [] None None None None [] 0 ∅ 0 ∅ None [] [] [].

(** Writing one field. *)
Definition with_connection (f : ConnectionState → ConnectionState) (s : State) : State :=
  mkState (f (connection s)) (rooms s) (users s) (my_user_id s) (my_room_id s) (my_session_public_key s)
    (my_session_id s) (chat_messages s) (chat_epoch s) (room_tree s) (effective_permissions s)
    (per_room_permissions s) (kicked s) (group_definitions s) (slash_commands s) (registered_users s).
Definition with_rooms (f : list Types.Room → list Types.Room) (s : State) : State :=
  mkState (connection s) (f (rooms s)) (users s) (my_user_id s) (my_room_id s) (my_session_public_key s)
    (my_session_id s) (chat_messages s) (chat_epoch s) (room_tree s) (effective_permissions s)
    (per_room_permissions s) (kicked s) (group_definitions s) (slash_commands s) (registered_users s).
Definition with_users (f : list Types.User → list Types.User) (s : State) : State :=
  mkState (connection s) (rooms s) (f (users s)) (my_user_id s) (my_room_id s) (my_session_public_key s)
    (my_session_id s) (chat_messages s) (chat_epoch s) (room_tree s) (effective_permissions s)
    (per_room_permissions s) (kicked s) (group_definitions s) (slash_commands s) (registered_users s).
Definition with_my_user_id (f : option N → option N) (s : State) : State :=
  mkState (connection s) (rooms s) (users s) (f (my_user_id s)) (my_room_id s) (my_session_public_key s)
    (my_session_id s) (chat_messages s) (chat_epoch s) (room_tree s) (effective_permissions s)
    (per_room_permissions s) (kicked s) (group_definitions s) (slash_commands s) (registered_users s).
Definition with_my_room_id (f : option Types.Uuid → option Types.Uuid) (s : State) : State :=
  mkState (connection s) (rooms s) (users s) (my_user_id s) (f (my_room_id s)) (my_session_public_key s)
    (my_session_id s) (chat_messages s) (chat_epoch s) (room_tree s) (effective_permissions s)
    (per_room_permissions s) (kicked s) (group_definitions s) (slash_commands s) (registered_users s).
Definition with_my_session_public_key (f : option (array 32) → option (array 32)) (s : State) : State :=
  mkState (connection s) (rooms s) (users s) (my_user_id s) (my_room_id s) (f (my_session_public_key s))
    (my_session_id s) (chat_messages s) (chat_epoch s) (room_tree s) (effective_permissions s)
    (per_room_permissions s) (kicked s) (group_definitions s) (slash_commands s) (registered_users s).
Definition with_my_session_id (f : option (array 32) → option (array 32)) (s : State) : State :=
  mkState (connection s) (rooms s) (users s) (my_user_id s) (my_room_id s) (my_session_public_key s)
    (f (my_session_id s)) (chat_messages s) (chat_epoch s) (room_tree s) (effective_permissions s)
    (per_room_permissions s) (kicked s) (group_definitions s) (slash_commands s) (registered_users s).
Definition with_chat_messages (f : list ChatMessage → list ChatMessage) (s : State) : State :=
  mkState (connection s) (rooms s) (users s) (my_user_id s) (my_room_id s) (my_session_public_key s)
    (my_session_id s) (f (chat_messages s)) (chat_epoch s) (room_tree s) (effective_permissions s)
    (per_room_permissions s) (kicked s) (group_definitions s) (slash_commands s) (registered_users s).
Definition with_chat_epoch (f : N → N) (s : State) : State :=
  mkState (connection s) (rooms s) (users s) (my_user_id s) (my_room_id s) (my_session_public_key s)
    (my_session_id s) (chat_messages s) (f (chat_epoch s)) (room_tree s) (effective_permissions s)
    (per_room_permissions s) (kicked s) (group_definitions s) (slash_commands s) (registered_users s).
Definition with_room_tree (f : RoomTree.RoomTree → RoomTree.RoomTree) (s : State) : State :=
  mkState (connection s) (rooms s) (users s) (my_user_id s) (my_room_id s) (my_session_public_key s)
    (my_session_id s) (chat_messages s) (chat_epoch s) (f (room_tree s)) (effective_permissions s)
    (per_room_permissions s) (kicked s) (group_definitions s) (slash_commands s) (registered_users s).
Definition with_effective_permissions (f : N → N) (s : State) : State :=
  mkState (connection s) (rooms s) (users s) (my_user_id s) (my_room_id s) (my_session_public_key s)
    (my_session_id s) (chat_messages s) (chat_epoch s) (room_tree s) (f (effective_permissions s))
    (per_room_permissions s) (kicked s) (group_definitions s) (slash_commands s) (registered_users s).
Definition with_per_room_permissions (f : gmap Types.Uuid N → gmap Types.Uuid N) (s : State) : State :=
  mkState (connection s) (rooms s) (users s) (my_user_id s) (my_room_id s) (my_session_public_key s)
    (my_session_id s) (chat_messages s) (chat_epoch s) (room_tree s) (effective_permissions s)
    (f (per_room_permissions s)) (kicked s) (group_definitions s) (slash_commands s) (registered_users s).
Definition with_kicked (f : option string → option string) (s : State) : State :=
  mkState (connection s) (rooms s) (users s) (my_user_id s) (my_room_id s) (my_session_public_key s)
    (my_session_id s) (chat_messages s) (chat_epoch s) (room_tree s) (effective_permissions s)
    (per_room_permissions s) (f (kicked s)) (group_definitions s) (slash_commands s) (registered_users s).
Definition with_group_definitions (f : list Types.Group → list Types.Group) (s : State) : State :=
  mkState (connection s) (rooms s) (users s) (my_user_id s) (my_room_id s) (my_session_public_key s)
    (my_session_id s) (chat_messages s) (chat_epoch s) (room_tree s) (effective_permissions s)
    (per_room_permissions s) (kicked s) (f (group_definitions s)) (slash_commands s) (registered_users s).
Definition with_slash_commands (f : list Types.SlashCommand → list Types.SlashCommand) (s : State) : State :=
  mkState (connection s) (rooms s) (users s) (my_user_id s) (my_room_id s) (my_session_public_key s)
    (my_session_id s) (chat_messages s) (chat_epoch s) (room_tree s) (effective_permissions s)
    (per_room_permissions s) (kicked s) (group_definitions s) (f (slash_commands s)) (registered_users s).
Definition with_registered_users (f : list Types.RegisteredUser → list Types.RegisteredUser) (s : State) : State :=
  mkState (connection s) (rooms s) (users s) (my_user_id s) (my_room_id s) (my_session_public_key s)
    (my_session_id s) (chat_messages s) (chat_epoch s) (room_tree s) (effective_permissions s)
    (per_room_permissions s) (kicked s) (group_definitions s) (slash_commands s) (f (registered_users s)).

(** ** Events *)

Inductive RoomEvent :=
  | FullStateReplaced (rooms : list Types.Room) (users : list Types.User) (groups : list Types.Group)
      (slash_commands : list Types.SlashCommand) (per_room_permissions : gmap Types.Uuid N)
  | RoomAdded (room : Types.Room)
  | RoomRemoved (room_id : Types.Uuid)
  | RoomRenamed (room_id : Types.Uuid) (name : string)
  | RoomMoved (room_id : Types.Uuid) (new_parent : option Types.Uuid)
  | RoomDescriptionSet (room_id : Types.Uuid) (description : option string)
  | RoomAclChanged (room_id : Types.Uuid) (inherit_acl : bool) (acls : list Types.RoomAclEntry)
  | UserJoined (user : Types.User)
  | UserLeft (user_id : N)
  | UserMoved (user_id : N) (room_id : option Types.Uuid)
  | UserStatusChanged (user_id : N) (is_muted is_deafened server_muted is_elevated : bool)
  | UserGroupChanged (user_id : N) (group : string) (added : bool)
  | RegisteredUsersReplaced (users : list Types.RegisteredUser)
  | GroupAdded (group : Types.Group)
  | GroupRemoved (name : string)
  | GroupModified (group : Types.Group)
  | SelfMovedToRoom (room_id : Types.Uuid)
  | StateHashCheckpoint (expected_hash : bytes).

Inductive ChatEvent :=
  | MessageAdded (msg : ChatMessage)
  | SystemNotice (text : string)
  | SenderDraftInserted (msg : ChatMessage)
  | SenderMirrorInserted (msg : ChatMessage)
  | HistoryMerged (msgs : list ChatMessage).

Inductive ConnectionEvent :=
  | ConnectStarted (server_addr : string)
  | CertificateIsPending (cert_info : PendingCertificate)
  | IsConnected (server_name : string) (user_id : N) (session_public_key session_id : array 32)
  | IsDisconnected
  | LostConnection (error : string)
  | Kicked (reason : string)
  | PermissionDenied (message : string)
  | ElevatedChanged (is_elevated : bool)
  | WelcomeMessageReceived (text : string).

(** What reaches the other tasks. *)
Inductive AudioCommand :=
  | RoomChanged (user_ids_in_room : list N)
  | SetServerMuted (muted : bool)
  | UserJoinedRoom (user_id : N)
  | UserLeftRoom (user_id : N).
Inductive Command :=
  | RequestStateSync (expected_hash actual_hash : bytes)
  | ShareChatHistory.
Inductive Effect :=
  | Audio (cmd : AudioCommand)
  | SetRoomId (room_id : Types.Uuid)
  | Send (cmd : Command).
(** ** Translating server messages *)

(** The [RoomEvent] of one [StateUpdate], if its ids are usable. *)
Definition room_event_of (u : Proto.Update) : option RoomEvent :=
  match u with
  | Proto.RoomCreated room => RoomAdded <$> (room ≫= Types.room_from_proto)
  | Proto.RoomDeleted room_id _ => RoomRemoved <$> (room_id ≫= Types.uuid_from_room_id)
  | Proto.RoomRenamed room_id new_name =>
      (λ rid, RoomRenamed rid new_name) <$> (room_id ≫= Types.uuid_from_room_id)
  | Proto.RoomMoved room_id new_parent_id =>
      (λ rid, RoomMoved rid (new_parent_id ≫= Types.uuid_from_room_id))
        <$> (room_id ≫= Types.uuid_from_room_id)
  | Proto.RoomDescriptionChanged room_id description =>
      (λ rid, RoomDescriptionSet rid (if str_is_empty description then None else Some description))
        <$> (room_id ≫= Types.uuid_from_room_id)
  | Proto.UserJoined user => UserJoined <$> (user ≫= Types.user_from_proto)
  | Proto.UserLeft user_id => (λ uid, UserLeft (Proto.uid_value uid)) <$> user_id
  | Proto.UserMoved user_id to_room_id =>
      uid ← user_id;
      to_room ← to_room_id;
      Some (UserMoved (Proto.uid_value uid) (Types.uuid_from_room_id to_room))
  | Proto.UserStatusChanged user_id is_muted is_deafened server_muted is_elevated =>
      (λ uid, UserStatusChanged (Proto.uid_value uid) is_muted is_deafened server_muted is_elevated)
        <$> user_id
  | Proto.GroupChanged group deleted =>
      if deleted then (λ g, GroupRemoved (Proto.gi_name g)) <$> group
      else (λ g, GroupModified (Types.group_from_proto g)) <$> group
  | Proto.UserGroupChanged user_id group added _ => Some (UserGroupChanged user_id group added)
  | Proto.RoomAclChanged room_id inherit_acl entries =>
      (λ rid, RoomAclChanged rid inherit_acl (map Types.acl_entry_from_proto entries))
        <$> (room_id ≫= Types.uuid_from_room_id)
  end.

(** The event, then the checkpoint; a server that sends no hash gets none. *)
Definition apply_state_update (expected_hash : bytes) (update : option Proto.Update) : list RoomEvent :=
  match update with
  | None => []
  | Some u =>
      (match room_event_of u with Some ev => [ev] | None => [] end) ++
      (match expected_hash with [] => [] | _ => [StateHashCheckpoint expected_hash] end)
  end.

(** The event of a full [ServerState]: records without a usable id are dropped. *)
Definition full_state_event (ss : Proto.ServerState) : RoomEvent :=
  let rooms := omap Types.room_from_proto (Proto.ss_rooms ss) in
  FullStateReplaced rooms (omap Types.user_from_proto (Proto.ss_users ss))
    (map Types.group_from_proto (Proto.ss_groups ss))
    (map Types.slash_command_from_proto (Proto.ss_slash_commands ss))
    (fold_left (λ m r, <[Types.room_id r := Types.room_effective_permissions r]> m) rooms ∅).

(** ** The projection: chat *)

(** The projection task owns the set of message ids it has seen. *)
Record Projection := mkProjection { state : State; chat_ids : gset (array 16) }.

(** [log.sort_by_key(|m| m.timestamp)], a stable sort. *)
Definition sort_by_time (l : list ChatMessage) : list ChatMessage :=
  Wire.sort_by (λ a b, (msg_timestamp a <=? msg_timestamp b)%Z) l.

Definition push_message (msg : ChatMessage) (p : Projection) : Projection :=
  mkProjection (with_chat_messages (λ l, l ++ [msg]) (state p)) ({[ msg_id msg ]} ∪ chat_ids p).

(** One entry of a shared history: [true] when it was added. *)
Definition merge_message (acc : Projection * bool) (msg : ChatMessage) : Projection * bool :=
  if bool_decide (msg_id msg ∈ chat_ids acc.1) then acc else (push_message msg acc.1, true).

(** [new_id] and [now]: the random id and the time of a system notice. *)
Definition apply_chat (new_id : array 16) (now : SystemTime) (ev : ChatEvent) (p : Projection) : Projection :=
  match ev with
  | MessageAdded msg => if bool_decide (msg_id msg ∈ chat_ids p) then p else push_message msg p
  | SystemNotice text => push_message (mkChatMessage new_id "" None text now Room None System) p
  | SenderDraftInserted msg | SenderMirrorInserted msg => push_message msg p
  | HistoryMerged msgs =>
      let '(p, added) := fold_left merge_message msgs (p, false) in
      if added : bool then
        mkProjection (with_chat_epoch N.succ (with_chat_messages sort_by_time (state p))) (chat_ids p)
      else p
  end.

(** ** The projection: permissions *)

(** The walk to the root; [visited] guards against parent cycles. *)
Fixpoint climb (fuel : nat) (rooms : list Types.Room) (current : Types.Uuid)
    (visited : gset Types.Uuid) (path : list Types.Uuid) : list Types.Uuid :=
  match fuel with
  | O => path
  | S fuel =>
      if bool_decide (current ∈ visited) then path
      else
        let path := path ++ [current] in
        if bool_decide (current = Types.ROOT_ROOM_UUID) then path
        else match List.find (λ r, bool_decide (Types.room_id r = current)) rooms with
             | Some r => climb fuel rooms (Types.room_parent r) ({[ current ]} ∪ visited) path
             | None => path
             end
  end.

(** The loop stops by itself within [length rooms + 2] rounds. *)
Definition chain_ids (rooms : list Types.Room) (target : Types.Uuid) : list Types.Uuid :=
  let path := rev (climb (List.length rooms + 2) rooms target ∅ []) in
  let path := match path with
              | r :: _ => if bool_decide (r = Types.ROOT_ROOM_UUID) then path
                          else Types.ROOT_ROOM_UUID :: path
              | [] => [Types.ROOT_ROOM_UUID]
              end in
  Acl.dedup path.

(** The client takes ACL data only from rooms with entries. *)
Definition acl_data (rooms : list Types.Room) (room_uuid : Types.Uuid) : option Perm.RoomAclData :=
  (λ r, {| Perm.inherit_acl := Types.room_inherit_acl r;
           Perm.entries := map (λ e, {|
             Perm.group := Types.ae_group e;
             Perm.grant := Perm.from_bits_truncate (Types.ae_grant e);
             Perm.deny := Perm.from_bits_truncate (Types.ae_deny e);
             Perm.apply_here := Types.ae_apply_here e;
             Perm.apply_subs := Types.ae_apply_subs e |}) (Types.room_acls r) |})
  <$> List.find (λ r, bool_decide (Types.room_id r = room_uuid) &&
                      negb (match Types.room_acls r with [] => true | _ => false end)) rooms.

Definition build_room_chain (rooms : list Types.Room) (target : Types.Uuid)
    : list (Types.Uuid * option Perm.RoomAclData) :=
  (λ room_uuid, (room_uuid, acl_data rooms room_uuid)) <$> chain_ids rooms target.

Definition has_uid (user_id : N) (u : Types.User) : bool := bool_decide (Types.user_id u = user_id).
Definition find_user (s : State) (user_id : N) : option Types.User :=
  List.find (has_uid user_id) (users s).

Definition my_groups (s : State) (my_user_id : N) : list string :=
  match find_user s my_user_id with
  | Some me => push_unique (Types.username me)
                 (fold_left (λ l g, push_unique g l) (Types.groups me) ["default"])
  | None => ["default"]
  end.

Definition group_perms (s : State) : gmap string Perm.Permissions :=
  fold_left (λ m g, <[Types.grp_name g := Perm.from_bits_truncate (Types.grp_permissions g)]> m)
    (group_definitions s) ∅.

(** [if let Some(my_room) = .. && let Some(&perms) = ..get(&my_room)]. *)
Definition refresh_effective (s : State) : State :=
  match my_room_id s ≫= λ r, per_room_permissions s !! r with
  | Some perms => with_effective_permissions (λ _, perms) s
  | None => s
  end.

Definition recompute_effective_permissions (s : State) : State :=
  match my_user_id s with
  | None => s
  | Some my_user_id =>
      let is_elevated := default false (Types.is_elevated <$> find_user s my_user_id) in
      let per_room := fold_left (λ m room_uuid,
        <[room_uuid := Perm.effective_permissions (my_groups s my_user_id) (group_perms s)
                         (build_room_chain (rooms s) room_uuid) is_elevated]> m)
        (Types.room_id <$> rooms s) ∅ in
      refresh_effective (with_per_room_permissions (λ _, per_room) s)
  end.

(** ** The projection: rooms and users *)

Definition has_id (room_id : Types.Uuid) (r : Types.Room) : bool := bool_decide (Types.room_id r = room_id).

(** [if let Some(room) = s.rooms.iter_mut().find(..) { .. }]. *)
Definition update_room (room_id : Types.Uuid) (f : Types.Room → Types.Room) : State → State :=
  with_rooms (λ l, (update_first (has_id room_id) f l).1).
Definition update_user (user_id : N) (f : Types.User → Types.User) : State → State :=
  with_users (λ l, (update_first (has_uid user_id) f l).1).
Definition rebuild_room_tree (s : State) : State :=
  with_room_tree (λ _, RoomTree.rebuild (rooms s)) s.

Definition room_user_ids (s : State) (room_id : Types.Uuid) (exclude : option N) : list N :=
  omap (λ u, if bool_decide (Types.current_room u = room_id) && negb (bool_decide (Some (Types.user_id u) = exclude))
             then Some (Types.user_id u) else None) (users s).

Definition set_parent (p : Types.Uuid) (r : Types.Room) : Types.Room :=
  Types.mkRoom (Types.room_id r) (Types.room_name r) p (Types.room_description r)
    (Types.room_inherit_acl r) (Types.room_acls r) (Types.room_effective_permissions r).
Definition set_name (n : string) (r : Types.Room) : Types.Room :=
  Types.mkRoom (Types.room_id r) n (Types.room_parent r) (Types.room_description r)
    (Types.room_inherit_acl r) (Types.room_acls r) (Types.room_effective_permissions r).
Definition set_description (d : option string) (r : Types.Room) : Types.Room :=
  Types.mkRoom (Types.room_id r) (Types.room_name r) (Types.room_parent r) d
    (Types.room_inherit_acl r) (Types.room_acls r) (Types.room_effective_permissions r).
Definition set_acl (i : bool) (es : list Types.RoomAclEntry) (r : Types.Room) : Types.Room :=
  Types.mkRoom (Types.room_id r) (Types.room_name r) (Types.room_parent r) (Types.room_description r)
    i es (Types.room_effective_permissions r).
Definition set_room (room : Types.Uuid) (u : Types.User) : Types.User :=
  Types.mkUser (Types.user_id u) (Types.username u) room (Types.is_muted u) (Types.is_deafened u)
    (Types.server_muted u) (Types.is_elevated u) (Types.groups u) (Types.label u).
Definition set_status (m d sm el : bool) (u : Types.User) : Types.User :=
  Types.mkUser (Types.user_id u) (Types.username u) (Types.current_room u) m d sm el
    (Types.groups u) (Types.label u).
Definition set_groups (f : list string → list string) (u : Types.User) : Types.User :=
  Types.mkUser (Types.user_id u) (Types.username u) (Types.current_room u) (Types.is_muted u)
    (Types.is_deafened u) (Types.server_muted u) (Types.is_elevated u) (f (Types.groups u)) (Types.label u).
Definition change_group (group : string) (added : bool) (l : list string) : list string :=
  if added then push_unique group l else retain (λ g, negb (bool_decide (g = group))) l.

(** What one event does under the state's lock: the new state, the audio
    commands, the room for the file-transfer plugin and whether the own
    permissions are to be recomputed. *)
Record Step := mkStep {
  next : State;
  audio_cmds : list AudioCommand;
  new_room_id_for_ft : option Types.Uuid;
  recompute_perms : bool;
}.

Definition is_me (s : State) (user_id : N) : bool := bool_decide (my_user_id s = Some user_id).

Definition enter_room (room_id : Types.Uuid) (s : State) : Step :=
  let s := with_my_room_id (λ _, Some room_id) s in
  mkStep s [RoomChanged (room_user_ids s room_id (my_user_id s))] (Some room_id) true.

Definition full_state (rs : list Types.Room) (us : list Types.User) (gs : list Types.Group)
    (cmds : list Types.SlashCommand) (perms : gmap Types.Uuid N) (s : State) : Step :=
  let s := with_per_room_permissions (λ _, perms) s in
  let s := with_slash_commands (λ _, cmds) (with_group_definitions (λ _, gs)
             (with_users (λ _, us) (with_rooms (λ _, rs) s))) in
  let s := refresh_effective (rebuild_room_tree s) in
  let room_cmd := match my_room_id s with
                  | Some my_room_id => [RoomChanged (room_user_ids s my_room_id (my_user_id s))]
                  | None => []
                  end in
  let mute_cmd := match my_user_id s ≫= λ u, Types.server_muted <$> find_user s u with
                  | Some muted => [SetServerMuted muted]
                  | None => []
                  end in
  mkStep s (room_cmd ++ mute_cmd) None true.

Definition user_joined (user : Types.User) (s : State) : Step :=
  if existsb (has_uid (Types.user_id user)) (users s) then mkStep s [] None false
  else mkStep (with_users (λ l, l ++ [user]) s)
         (if bool_decide (my_room_id s = Some (Types.current_room user))
          then [UserJoinedRoom (Types.user_id user)] else []) None false.

Definition user_left (user_id : N) (s : State) : Step :=
  let was_in_our_room := match find_user s user_id with
                         | Some u => bool_decide (Some (Types.current_room u) = my_room_id s)
                         | None => false
                         end in
  mkStep (with_users (retain (λ u, negb (has_uid user_id u))) s)
    (if was_in_our_room then [UserLeftRoom user_id] else []) None false.

Definition user_moved (user_id : N) (room_id : option Types.Uuid) (s : State) : Step :=
  let from_room_id := Types.current_room <$> find_user s user_id in
  let my_room := my_room_id s in
  let s' := update_user user_id (set_room (default Types.ROOT_ROOM_UUID room_id)) s in
  if is_me s user_id then
    match room_id with
    | Some rid => enter_room rid s'
    | None => mkStep s' [] None false
    end
  else
    let joined_our_room := match my_room with Some _ => bool_decide (room_id = my_room) | None => false end in
    let left_our_room := match my_room with Some _ => bool_decide (from_room_id = my_room) | None => false end in
    mkStep s' (if joined_our_room then [UserJoinedRoom user_id]
               else if left_our_room then [UserLeftRoom user_id] else []) None false.

Definition user_status_changed (user_id : N) (m d sm el : bool) (s : State) : Step :=
  match find_user s user_id with
  | None => mkStep s [] None false
  | Some user =>
      let s' := update_user user_id (set_status m d sm el) s in
      if is_me s user_id then
        mkStep s' (if negb (Bool.eqb (Types.server_muted user) sm) then [SetServerMuted sm] else []) None
          (negb (Bool.eqb (Types.is_elevated user) el))
      else mkStep s' [] None false
  end.

Definition user_group_changed (user_id : N) (group : string) (added : bool) (s : State) : Step :=
  match find_user s user_id with
  | None => mkStep s [] None false
  | Some user =>
      let changed := if added then negb (contains (Types.groups user) group)
                     else negb (Nat.eqb (List.length (change_group group added (Types.groups user)))
                                        (List.length (Types.groups user))) in
      mkStep (update_user user_id (set_groups (change_group group added)) s) [] None
        (changed && is_me s user_id)
  end.

Definition upsert_group (group : Types.Group) (s : State) : State :=
  let same g := bool_decide (Types.grp_name g = Types.grp_name group) in
  with_group_definitions (λ l,
    if existsb same l then (update_first same (λ _, group) l).1 else l ++ [group]) s.

Definition project (ev : RoomEvent) (s : State) : Step :=
  match ev with
  | FullStateReplaced rs us gs cmds perms => full_state rs us gs cmds perms s
  | RoomAdded room => mkStep (rebuild_room_tree (with_rooms (λ l, l ++ [room]) s)) [] None true
  | RoomRemoved room_id =>
      mkStep (rebuild_room_tree (with_rooms (retain (λ r, negb (has_id room_id r))) s)) [] None true
  | RoomRenamed room_id name =>
      mkStep (rebuild_room_tree (update_room room_id (set_name name) s)) [] None false
  | RoomMoved room_id new_parent =>
      mkStep (rebuild_room_tree (update_room room_id
        (set_parent (default Types.ROOT_ROOM_UUID new_parent)) s)) [] None false
  | RoomDescriptionSet room_id description =>
      mkStep (rebuild_room_tree (update_room room_id (set_description description) s)) [] None false
  | RoomAclChanged room_id inherit_acl acls =>
      mkStep (update_room room_id (set_acl inherit_acl acls) s) [] None true
  | UserJoined user => user_joined user s
  | UserLeft user_id => user_left user_id s
  | UserMoved user_id room_id => user_moved user_id room_id s
  | UserStatusChanged user_id m d sm el => user_status_changed user_id m d sm el s
  | UserGroupChanged user_id group added => user_group_changed user_id group added s
  | GroupAdded group | GroupModified group => mkStep (upsert_group group s) [] None true
  | GroupRemoved name =>
      mkStep (with_group_definitions (retain (λ g, negb (bool_decide (Types.grp_name g = name)))) s) [] None true
  | RegisteredUsersReplaced users => mkStep (with_registered_users (λ _, users) s) [] None false
  | SelfMovedToRoom room_id => enter_room room_id s
  | StateHashCheckpoint _ => mkStep s [] None false
  end.

Section hashing.
Context `{!External}.

(** The canonical state of the client's copy, as [broadcast_state_update] hashes it. *)
Definition state_hash_input (s : State) : Proto.ServerState :=
  Proto.mkServerState (map Types.room_to_hash_input (rooms s)) (map Types.user_to_proto (users s)) [] [].
Definition state_hash (s : State) : bytes :=
  Wire.compute_server_state_hash ext_blake3 ext_encode_state (state_hash_input s).

Definition verify_state_hash (s : State) (expected_hash : bytes) : list Effect :=
  let actual_hash := state_hash s in
  if bool_decide (actual_hash = expected_hash) then []
  else [Send (RequestStateSync expected_hash actual_hash)].

Definition apply_room (ev : RoomEvent) (s : State) : list Effect * State :=
  match ev with
  | StateHashCheckpoint expected_hash => (verify_state_hash s expected_hash, s)
  | _ =>
      let step := project ev s in
      (map Audio (audio_cmds step) ++
       match new_room_id_for_ft step with Some r => [SetRoomId r] | None => [] end,
       if recompute_perms step then recompute_effective_permissions (next step) else next step)
  end.

(** The room channel, in order. *)
Fixpoint apply_rooms (evs : list RoomEvent) (s : State) : list Effect * State :=
  match evs with
  | [] => ([], s)
  | ev :: evs =>
      let '(fx, s) := apply_room ev s in
      let '(fxs, s) := apply_rooms evs s in
      (fx ++ fxs, s)
  end.
End hashing.

(** ** The projection: the connection *)

Definition clear_session (s : State) : State :=
  with_registered_users (λ _, []) (with_my_session_id (λ _, None)
    (with_my_session_public_key (λ _, None) (with_my_room_id (λ _, None) (with_my_user_id (λ _, None) s)))).

Definition apply_connection (ev : ConnectionEvent) (p : Projection) : Projection :=
  let s := state p in
  match ev with
  | ConnectStarted server_addr =>
      mkProjection (with_chat_epoch N.succ (with_chat_messages (λ _, [])
        (with_connection (λ _, Connecting server_addr) s))) ∅
  | CertificateIsPending cert_info =>
      mkProjection (with_connection (λ _, CertificatePending cert_info) s) (chat_ids p)
  | IsConnected server_name user_id session_public_key session_id =>
      mkProjection (recompute_effective_permissions
        (with_my_session_id (λ _, Some session_id) (with_my_session_public_key (λ _, Some session_public_key)
          (with_my_user_id (λ _, Some user_id) (with_kicked (λ _, None)
            (with_connection (λ _, Connected server_name user_id) s)))))) (chat_ids p)
  | IsDisconnected => mkProjection (clear_session (with_connection (λ _, Disconnected) s)) (chat_ids p)
  | LostConnection error => mkProjection (clear_session (with_connection (λ _, ConnectionLost error) s)) (chat_ids p)
  | Kicked reason => mkProjection (with_kicked (λ _, Some reason) s) (chat_ids p)
  | PermissionDenied _ | ElevatedChanged _ | WelcomeMessageReceived _ => p
  end.

(** ** History sync *)

Record ChatHistoryEntry := mkEntry {
  he_id : string;
  he_sender : string;
  he_sender_id : option N;
  he_text : string;
  he_timestamp : N;
  he_attachment : option Types.ChatAttachment;
}.
Record ChatHistoryContent := mkContent { hc_version : N; hc_messages : list ChatHistoryEntry }.

(** The [hex] crate. *)
Class Hex := { hex_encode : bytes → string; hex_decode : string → option bytes }.
Class HexLaws `{!Hex} := hex_round_trip l : hex_decode (hex_encode l) = Some l.

Section history.
Context `{!Hex}.

Definition SHARE_HISTORY_MAX_MESSAGES : nat := 500.

(** [duration_since(UNIX_EPOCH).map(|d| d.as_millis() as u64).unwrap_or(0)]. *)
Definition millis_since_epoch (t : SystemTime) : N :=
  if (t <? 0)%Z then 0%N else wrap_u64 (Z.to_N (t / 1000000)).

Definition history_entry (m : ChatMessage) : ChatHistoryEntry :=
  mkEntry (hex_encode (arr (msg_id m))) (msg_sender m) (msg_sender_id m) (msg_text m)
    (millis_since_epoch (msg_timestamp m)) (msg_attachment m).

Definition from_messages (messages : list ChatMessage) : ChatHistoryContent :=
  mkContent 1 (history_entry <$> retain (λ m, included_in_history_sync (msg_visibility m)) messages).

Definition message_of_entry (e : ChatHistoryEntry) : option ChatMessage :=
  id_bytes ← hex_decode (he_id e);
  id ← array_of_slice 16 id_bytes;
  Some (mkChatMessage id (he_sender e) (he_sender_id e) (he_text e) (of_millis (Z.of_N (he_timestamp e)))
          Room (he_attachment e) Normal).
Definition to_messages (c : ChatHistoryContent) : list ChatMessage := omap message_of_entry (hc_messages c).

(** What [Command::ShareChatHistory] puts into its one chat message. *)
Definition shared_history (log : list ChatMessage) : option ChatHistoryContent :=
  let recent := drop (List.length log - SHARE_HISTORY_MAX_MESSAGES) log in
  let content := from_messages recent in
  match hc_messages content with [] => None | _ => Some content end.
End history.

(** ** Messages from the server *)

Inductive NotificationLevel := Info | Warn | Error.
Inductive Emission :=
  | ToRoom (ev : RoomEvent)
  | ToChat (ev : ChatEvent)
  | ToConnection (ev : ConnectionEvent)
  | Toast (level : NotificationLevel) (text : string)
  | ToCommand (cmd : Command).

Section messages.
Context `{!Hex}.
(** serde_json on the two in-band message formats. *)
Variable parse_history_request : string → bool.
Variable parse_history_share : string → option ChatHistoryContent.
(** The random id and the time of this call. *)
Variable new_id : array 16.
Variable now : SystemTime.

Definition message_id_or (id : bytes) : array 16 := default new_id (array_of_slice 16 id).
Definition message_time_or (timestamp_ms : Z) : SystemTime :=
  if (0 <? timestamp_ms)%Z then of_millis timestamp_ms else now.

Definition add_local_message (text : string) : Emission := ToChat (SystemNotice text).

Definition on_chat_broadcast (s : State) (cb : Proto.ChatBroadcast) : list Emission :=
  if parse_history_request (Proto.cb_text cb) then [ToCommand ShareChatHistory]
  else match parse_history_share (Proto.cb_text cb) with
  | Some content =>
      let to_add := retain (λ m, negb (existsb (λ e, bool_decide (msg_id e = msg_id m)) (chat_messages s)))
                      (to_messages content) in
      match to_add with [] => [] | _ => [ToChat (HistoryMerged to_add)] end
  | None =>
      [ToChat (MessageAdded (mkChatMessage (message_id_or (Proto.cb_id cb)) (Proto.cb_sender cb)
         (if negb (Proto.cb_sender_id cb =? 0)%N then Some (Proto.cb_sender_id cb) else None)
         (Proto.cb_text cb) (message_time_or (Proto.cb_timestamp_ms cb))
         (if default false (Proto.cb_tree cb) then Tree else Room)
         (Types.chat_attachment_from_proto <$> Proto.cb_attachment cb) Normal))]
  end.

Definition handle_server_message (s : State) (payload : option Proto.ServerPayload) : list Emission :=
  match payload with
  | Some (Proto.CommandResult command success message) =>
      (if negb success && String.eqb command "SetRoomAcl" then [Toast Error message] else []) ++
      [add_local_message ((if success : bool then "✔" else "✖") +:+ " " +:+ message)]
  | Some (Proto.EvServerState ss) => [ToRoom (full_state_event ss)]
  | Some (Proto.EvStateUpdate expected_hash update) =>
      ToRoom <$> apply_state_update expected_hash (Some update)
  | Some (Proto.EvChatBroadcast cb) => on_chat_broadcast s cb
  | Some (Proto.EvDirectMessageReceived dm) =>
      [ToChat (MessageAdded (mkChatMessage (message_id_or (Proto.dmr_id dm)) (Proto.dmr_sender_name dm)
         (Some (Proto.dmr_sender_id dm)) (Proto.dmr_text dm) (message_time_or (Proto.dmr_timestamp_ms dm))
         (DirectMessage (Proto.dmr_sender_id dm) (Proto.dmr_sender_name dm)) None Normal))]
  | Some (Proto.EvWelcomeMessage text) => [ToChat (SystemNotice text)]
  | Some (Proto.PermissionDeniedMsg pd) =>
      [Toast Warn (Proto.pd_message pd); ToConnection (PermissionDenied (Proto.pd_message pd))]
  | Some (Proto.UserKicked user_id reason kicked_by) =>
      if bool_decide (my_user_id s = Some user_id) then
        [ToConnection (Kicked (if str_is_empty reason then "Kicked by " +:+ kicked_by
                               else "Kicked by " +:+ kicked_by +:+ ": " +:+ reason))]
      else []
  | Some (Proto.RegisteredUsers users) =>
      [ToRoom (RegisteredUsersReplaced (omap Types.registered_user_from_proto users))]
  | _ => []
  end.
End messages.

(** ** The chat log *)

(** Every message of the log is in the id set. *)
Definition ids_cover (p : Projection) : Prop :=
  ∀ m, m ∈ chat_messages (state p) → msg_id m ∈ chat_ids p.

Lemma ids_cover_push m p : ids_cover p → ids_cover (push_message m p).
Proof.
  intros Hc m' [Hm| ->%list_elem_of_singleton]%elem_of_app; cbn; [apply Hc in Hm|]; set_solver.
Qed.

(** What a merge adds: the messages with a new id, the first of each. *)
Fixpoint fresh_messages (seen : gset (array 16)) (msgs : list ChatMessage) : list ChatMessage :=
  match msgs with
  | [] => []
  | m :: msgs => if bool_decide (msg_id m ∈ seen) then fresh_messages seen msgs
                 else m :: fresh_messages ({[ msg_id m ]} ∪ seen) msgs
  end.

Lemma merge_messages_spec msgs p added :
  let '(p', added') := fold_left merge_message msgs (p, added) in
  chat_messages (state p') = chat_messages (state p) ++ fresh_messages (chat_ids p) msgs ∧
  chat_epoch (state p') = chat_epoch (state p) ∧
  added' = added || negb (match fresh_messages (chat_ids p) msgs with [] => true | _ => false end) ∧
  (ids_cover p → ids_cover p').
Proof.
  revert p added. induction msgs as [|m msgs IH]; intros p added; cbn [fold_left fresh_messages].
  { rewrite app_nil_r, orb_false_r. done. }
  unfold merge_message at 2. cbn [fst]. case_bool_decide as Hm.
  - apply (IH p added).
  - specialize (IH (push_message m p) true). destruct (fold_left _ _ _) as [p' a'].
    destruct IH as (I1 & I2 & I3 & I4). cbn in I1, I2, I3. rewrite I1, I2, I3, <- app_assoc.
    split_and!; [done|done| |by intros Hc; apply I4, ids_cover_push]. by destruct added.
Qed.

Lemma sort_by_time_perm l : sort_by_time l ≡ₚ l.
Proof. apply (Wire.sort_by_perm msg_timestamp Z.leb). Qed.

Lemma sort_by_time_sorted l :
  StronglySorted (λ a b, (msg_timestamp a <= msg_timestamp b)%Z) (sort_by_time l).
Proof.
  assert (StronglySorted (λ a b, Is_true (msg_timestamp a <=? msg_timestamp b)%Z) (sort_by_time l)) as Hs.
  { apply (Wire.sort_by_sorted msg_timestamp Z.leb).
    - intros a b. rewrite !Is_true_true, !Z.leb_le. lia.
    - intros a b c. rewrite !Is_true_true, !Z.leb_le. lia. }
  induction Hs as [|m l' Hs IH Hm]; constructor; [done|].
  eapply Forall_impl; [exact Hm|]. intros m'. by rewrite Is_true_true, Z.leb_le.
Qed.

(** Folding chat events keeps the id set covering the log, never shows a
    delivered message twice, and only appends while the epoch stands still: a
    repeated id changes nothing, a merge adds exactly the messages whose id is
    new, in time order, and bumps the epoch exactly when it added one. *)
Theorem chat_log_spec (new_id : array 16) (now : SystemTime) (ev : ChatEvent) (p : Projection) :
  ids_cover p →
  let p' := apply_chat new_id now ev p in
  let log := chat_messages (state p) in
  let log' := chat_messages (state p') in
  ids_cover p' ∧
  (chat_epoch (state p') = chat_epoch (state p) → log `prefix_of` log') ∧
  (∀ m, ev = MessageAdded m → log' = log ++ fresh_messages (chat_ids p) [m]) ∧
  (∀ msgs, ev = HistoryMerged msgs →
     log' ≡ₚ log ++ fresh_messages (chat_ids p) msgs ∧
     (chat_epoch (state p') ≠ chat_epoch (state p) ↔ fresh_messages (chat_ids p) msgs ≠ []) ∧
     (fresh_messages (chat_ids p) msgs ≠ [] →
        StronglySorted (λ a b, (msg_timestamp a <= msg_timestamp b)%Z) log')).
Proof.
  intros Hc. destruct ev as [m|text|m|m|msgs]; cbn [apply_chat].
  - cbn [fresh_messages]. case_bool_decide as Hm.
    + split_and!; [done|done| |done]. intros m' [= <-]. rewrite bool_decide_true by done. by rewrite app_nil_r.
    + split_and!; [by apply ids_cover_push|by intros _; exists [m]| |done].
      intros m' [= <-]. by rewrite bool_decide_false.
  - split_and!; [by apply ids_cover_push|by intros _; eexists|done|done].
  - split_and!; [by apply ids_cover_push|by intros _; eexists|done|done].
  - split_and!; [by apply ids_cover_push|by intros _; eexists|done|done].
  - pose proof (merge_messages_spec msgs p false) as Hmerge.
    destruct (fold_left merge_message msgs (p, false)) as [p' added]. destruct Hmerge as (Hl & He & -> & Hc').
    set (new := fresh_messages (chat_ids p) msgs) in *. cbn [orb].
    destruct new as [|m rest] eqn:En; cbn [negb].
    + split_and!; [by apply Hc'|by intros _; exists []|done|]. intros ? [= <-].
      fold new. rewrite En, Hl, He. split_and!; [done|split; intros X; by destruct X|intros X; by destruct X].
    + cbn [state chat_ids]. split_and!.
      * intros x Hx. apply (Hc' Hc). cbn in Hx. by rewrite sort_by_time_perm in Hx.
      * cbn. rewrite He. lia.
      * done.
      * intros ? [= <-]. fold new. rewrite En. cbn. split_and!.
        -- by rewrite sort_by_time_perm, Hl.
        -- rewrite He. split; [done|lia].
        -- intros _. apply sort_by_time_sorted.
Qed.

(** ** History *)

(** A message as a peer that merges a share gets it. *)
Definition as_shared (m : ChatMessage) : ChatMessage :=
  mkChatMessage (msg_id m) (msg_sender m) (msg_sender_id m) (msg_text m)
    (of_millis (Z.of_N (millis_since_epoch (msg_timestamp m)))) Room (msg_attachment m) Normal.

Lemma message_of_history_entry `{HexLaws} m : message_of_entry (history_entry m) = Some (as_shared m).
Proof.
  unfold message_of_entry, history_entry. cbn [he_id]. rewrite hex_round_trip. cbn.
  rewrite array_of_slice_arr. done.
Qed.

(** What a shared history conveys: of the last 500 log entries a peer gets
    exactly those that are not system notices or unfinished sender cards, each
    with its id, author, text and attachment and its time to the millisecond;
    the kind is lost: a direct message goes out with the rest and arrives as a
    room message.  Nothing is sent when nothing qualifies. *)
Theorem shared_history_spec `{HexLaws} (log : list ChatMessage) :
  let recent := drop (List.length log - SHARE_HISTORY_MAX_MESSAGES) log in
  let sent := retain (λ m, included_in_history_sync (msg_visibility m)) recent in
  (shared_history log = None ↔ sent = []) ∧
  (∀ c, shared_history log = Some c → to_messages c = as_shared <$> sent) ∧
  (∀ m, (0 <= msg_timestamp m < 2 ^ 64 * 1000000)%Z →
     msg_timestamp (as_shared m) = (msg_timestamp m / 1000000 * 1000000)%Z).
Proof.
  intros recent sent. unfold shared_history. fold recent. unfold from_messages. cbn [hc_messages]. fold sent.
  split; [|split].
  - destruct sent; cbn; split; done.
  - intros c. assert (to_messages (mkContent 1 (history_entry <$> sent)) = as_shared <$> sent) as Ht.
    { unfold to_messages. cbn [hc_messages]. generalize sent. intros l. induction l as [|m l IH]; [done|].
      rewrite !fmap_cons. cbn [omap list_omap]. by rewrite message_of_history_entry, IH. }
    destruct (history_entry <$> sent) eqn:E; [done|]. by intros [= <-].
  - intros m Ht. cbn. unfold of_millis, millis_since_epoch, wrap_u64.
    destruct (Z.ltb_spec (msg_timestamp m) 0); [lia|].
    rewrite N.mod_small; [rewrite Z2N.id; [done|apply Z.div_pos; lia]|].
    assert (msg_timestamp m / 1000000 < 2 ^ 64)%Z by (apply Z.div_lt_upper_bound; lia).
    assert (0 <= msg_timestamp m / 1000000)%Z by (apply Z.div_pos; lia). lia.
Qed.

(** ** Concrete runs *)

Definition hex_value (b : byte) : N := let n := N_of_byte b in (if n <? 58 then n - 48 else n - 87)%N.
Fixpoint unhex_bytes (l : bytes) : option bytes :=
  match l with
  | [] => Some []
  | a :: b :: l => cons (byte_of_N (hex_value a * 16 + hex_value b)) <$> unhex_bytes l
  | [_] => None
  end.
Definition hex : Hex := {| hex_encode l := string_of_list_byte (hex_bytes l);
                           hex_decode s := unhex_bytes (as_bytes s) |}.

Lemma hex_laws : @HexLaws hex.
Proof.
  intros l. cbn [hex_encode hex_decode hex]. unfold as_bytes. rewrite list_byte_of_string_of_list_byte.
  induction l as [|b l IH]; [done|]. cbn [hex_bytes unhex_bytes]. rewrite IH. cbn. do 2 f_equal.
  by destruct b.
Qed.

Definition sample_message (n : N) (kind : ChatMessageKind) : ChatMessage :=
  mkChatMessage (array_of_N 16 n) "alice" (Some 1%N) "hi" (of_millis (Z.of_N n)) kind None Normal.
Definition sample_projection : Projection := push_message (sample_message 5 Room) (mkProjection State_default ∅).

Lemma chat_log_spec_witness :
  ids_cover sample_projection ∧
  chat_messages (state (apply_chat (array_of_N 16 0) 0%Z (MessageAdded (sample_message 5 Room)) sample_projection)) =
    [sample_message 5 Room].
Proof.
  assert (ids_cover sample_projection) as Hc.
  { apply ids_cover_push. intros m Hm. by apply elem_of_nil in Hm. }
  split; [exact Hc|].
  destruct (chat_log_spec (array_of_N 16 0) 0%Z (MessageAdded (sample_message 5 Room)) sample_projection Hc)
    as (_ & _ & H & _).
  rewrite (H _ eq_refl). vm_compute. reflexivity.
Defined.

(** A private message to bob is part of the history anyone in the room may ask
    for. *)
Lemma shared_history_spec_witness :
  ∃ c, @shared_history hex [sample_message 7 (DirectMessage 2 "bob")] = Some c ∧
       @to_messages hex c = [sample_message 7 Room].
Proof.
  destruct (@shared_history hex [sample_message 7 (DirectMessage 2 "bob")]) as [c|] eqn:E; [|discriminate E].
  exists c. split; [reflexivity|].
  rewrite (proj1 (proj2 (@shared_history_spec hex hex_laws _)) c E). reflexivity.
Defined.

End Client.
