(* ===== verification/Mirror.v ===== *)
(** How the client's copy of rooms and users follows the server.  The abstract
    state is a pair of finite maps, [View]; [meaning] is what one update
    says about it.  The client's projection refines it (Client.v), the server's
    operations do (Ops.v, Handlers.v), and the hash that travels with every
    update compares the two. *)
From Stdlib Require Import NArith ZArith Lia String.
From stdpp Require Import base gmap strings list sets.
From S2P Require Import Prelude Permissions Proto Types Store Wire Persistence State World Acl Session Ops Auth Handlers RoomTree Client.

Module Mirror.

(** ** Lists as maps *)

Section index.
Context {A K : Type} `{Countable K} (key : A → K).

(** The first entry of each key. *)
Definition index (l : list A) : gmap K A := list_to_map ((λ x, (key x, x)) <$> l).

Lemma index_nil : index [] = ∅.
Proof. done. Qed.
Lemma index_cons x l : index (x :: l) = <[key x := x]> (index l).
Proof. done. Qed.

Lemma index_lookup l k : index l !! k = List.find (λ x, bool_decide (key x = k)) l.
Proof.
  induction l as [|x l IH]; [done|]. rewrite index_cons. cbn [List.find].
  destruct (decide (key x = k)) as [<-|Hne].
  - by rewrite lookup_insert_eq, bool_decide_true.
  - by rewrite lookup_insert_ne, bool_decide_false.
Qed.

Lemma index_elem l k x : index l !! k = Some x → x ∈ l ∧ key x = k.
Proof. rewrite index_lookup. intros [Hx Hk]%find_Some_iff. by apply bool_decide_eq_true in Hk. Qed.

Lemma index_snoc l x : index (l ++ [x]) = if decide (key x ∈ key <$> l) then index l else <[key x := x]> (index l).
Proof.
  apply map_eq. intros k. rewrite index_lookup. induction l as [|y l IH]; cbn [app List.find].
  - rewrite decide_False by apply not_elem_of_nil. destruct (decide (key x = k)) as [<-|Hne];
      [by rewrite bool_decide_true, lookup_insert_eq|by rewrite bool_decide_false, lookup_insert_ne].
  - rewrite IH. clear IH. rewrite fmap_cons. destruct (decide (key y = k)) as [<-|Hyk].
    + rewrite bool_decide_true by done. case_decide as Hin.
      * by rewrite index_lookup; cbn [List.find]; rewrite bool_decide_true.
      * rewrite elem_of_cons in Hin. rewrite lookup_insert_ne by tauto.
        by rewrite index_lookup; cbn [List.find]; rewrite bool_decide_true.
    + rewrite bool_decide_false by done.
      assert (index (y :: l) !! k = index l !! k) as Hy.
      { rewrite !index_lookup. cbn [List.find]. by rewrite bool_decide_false. }
      destruct (decide (key x = k)) as [<-|Hxk].
      * destruct (decide (key x ∈ key <$> l)) as [Hi|Hi].
        -- rewrite decide_True by (by right). done.
        -- rewrite decide_False by (by intros [?|?]%elem_of_cons). by rewrite !lookup_insert_eq.
      * repeat case_decide; rewrite ?lookup_insert_ne by done; done.
Qed.

Lemma index_retain l k : index (retain (λ x, negb (bool_decide (key x = k))) l) = delete k (index l).
Proof.
  apply map_eq. intros j. induction l as [|x l IH]; cbn [retain List.filter].
  - by rewrite index_nil, delete_empty.
  - rewrite index_cons. destruct (decide (key x = k)) as [<-|Hne].
    + rewrite bool_decide_true by done. cbn [negb]. unfold retain in IH. rewrite IH.
      destruct (decide (key x = j)) as [<-|Hj]; [by rewrite !lookup_delete_eq|].
      by rewrite !lookup_delete_ne, lookup_insert_ne.
    + rewrite bool_decide_false by done. cbn [negb]. rewrite index_cons.
      destruct (decide (key x = j)) as [<-|Hj].
      * by rewrite lookup_delete_ne, !lookup_insert_eq.
      * rewrite lookup_insert_ne by done. unfold retain in IH. rewrite IH.
        destruct (decide (j = k)) as [->|Hjk]; [by rewrite !lookup_delete_eq|].
        by rewrite !lookup_delete_ne, lookup_insert_ne.
Qed.

Lemma index_update l k f :
  (∀ x, key (f x) = key x) →
  index (update_first (λ x, bool_decide (key x = k)) f l).1 = alter f k (index l).
Proof.
  intros Hf. apply map_eq. intros j. induction l as [|x l IH]; cbn [update_first].
  { cbn [fst]. by rewrite index_nil, alter_empty. }
  destruct (decide (key x = k)) as [<-|Hne].
  - rewrite bool_decide_true by done. cbn [fst]. rewrite !index_cons, Hf. destruct (decide (key x = j)) as [<-|Hj].
    + by rewrite lookup_alter_eq, !lookup_insert_eq.
    + by rewrite lookup_alter_ne, !lookup_insert_ne.
  - rewrite bool_decide_false by done. destruct (update_first _ f l) as [l' b]. cbn [fst] in *.
    rewrite !index_cons.
    destruct (decide (key x = j)) as [<-|Hj].
    + by rewrite lookup_alter_ne, !lookup_insert_eq.
    + rewrite lookup_insert_ne, IH by done. destruct (decide (k = j)) as [<-|Hk];
        [by rewrite !lookup_alter_eq, lookup_insert_ne|by rewrite !lookup_alter_ne, lookup_insert_ne].
Qed.

Lemma index_perm l1 l2 : NoDup (key <$> l1) → NoDup (key <$> l2) → index l1 = index l2 → l1 ≡ₚ l2.
Proof.
  intros H1 H2 E. unfold index in E. apply list_to_map_inj in E.
  - apply (Permutation_map snd) in E.
    assert (∀ l : list A, map snd ((λ x, (key x, x)) <$> l) = l) as Hl.
    { induction l as [|x l IH]; [done|]. cbn. f_equal. exact IH. }
    by rewrite !Hl in E.
  - rewrite <- list_fmap_compose. exact H1.
  - rewrite <- list_fmap_compose. exact H2.
Qed.

Lemma index_perm_eq l1 l2 : NoDup (key <$> l1) → l1 ≡ₚ l2 → index l1 = index l2.
Proof.
  intros Hnd Hp. unfold index. apply list_to_map_proper.
  - rewrite <- list_fmap_compose. exact Hnd.
  - by rewrite Hp.
Qed.

Lemma index_fmap (f : A → A) l :
  (∀ x, key (f x) = key x) → index (f <$> l) = f <$> index l.
Proof.
  intros Hf. apply map_eq. intros k. rewrite lookup_fmap, !index_lookup.
  induction l as [|x l IH]; [done|]. cbn. rewrite Hf. destruct (bool_decide (key x = k)); [done|exact IH].
Qed.
End index.
(** ** The abstract state *)

(** A room without the permissions of whoever looks at it. *)
Definition plain (r : Types.Room) : Types.Room := Session.with_effective 0 r.

Record View := mkView { v_rooms : gmap Types.Uuid Types.Room; v_users : gmap N Types.User }.

(** What an event says. *)
Definition meaning (ev : Client.RoomEvent) (v : View) : View :=
  match ev with
  | Client.FullStateReplaced rs us _ _ _ => mkView (index Types.room_id (plain <$> rs)) (index Types.user_id us)
  | Client.RoomAdded r => mkView (<[Types.room_id r := plain r]> (v_rooms v)) (v_users v)
  | Client.RoomRemoved i => mkView (delete i (v_rooms v)) (v_users v)
  | Client.RoomRenamed i n => mkView (alter (Client.set_name n) i (v_rooms v)) (v_users v)
  | Client.RoomMoved i p =>
      mkView (alter (Client.set_parent (default Types.ROOT_ROOM_UUID p)) i (v_rooms v)) (v_users v)
  | Client.RoomDescriptionSet i d => mkView (alter (Client.set_description d) i (v_rooms v)) (v_users v)
  | Client.RoomAclChanged i inh es => mkView (alter (Client.set_acl inh es) i (v_rooms v)) (v_users v)
  | Client.UserJoined u =>
      mkView (v_rooms v) (match v_users v !! Types.user_id u with
                          | Some _ => v_users v | None => <[Types.user_id u := u]> (v_users v) end)
  | Client.UserLeft u => mkView (v_rooms v) (delete u (v_users v))
  | Client.UserMoved u r =>
      mkView (v_rooms v) (alter (Client.set_room (default Types.ROOT_ROOM_UUID r)) u (v_users v))
  | Client.UserStatusChanged u m d sm el =>
      mkView (v_rooms v) (alter (Client.set_status m d sm el) u (v_users v))
  | Client.UserGroupChanged u g a =>
      mkView (v_rooms v) (alter (Client.set_groups (Client.change_group g a)) u (v_users v))
  | _ => v
  end.

(** An event a client can follow: it lists nothing twice. *)
Definition followable (ev : Client.RoomEvent) (v : View) : Prop :=
  match ev with
  | Client.FullStateReplaced rs us _ _ _ => NoDup (Types.room_id <$> rs) ∧ NoDup (Types.user_id <$> us)
  | Client.RoomAdded r => v_rooms v !! Types.room_id r = None
  | _ => True
  end.

(** ** The client refines it *)

Definition client_view (s : Client.State) : View :=
  mkView (index Types.room_id (plain <$> Client.rooms s)) (index Types.user_id (Client.users s)).
Definition client_wf (s : Client.State) : Prop :=
  NoDup (Types.room_id <$> Client.rooms s) ∧ NoDup (Types.user_id <$> Client.users s).

Lemma plain_ids (l : list Types.Room) : Types.room_id <$> (plain <$> l) = Types.room_id <$> l.
Proof. rewrite <- list_fmap_compose. by apply list_fmap_ext. Qed.

Lemma index_plain_lookup l i :
  index Types.room_id (plain <$> l) !! i = plain <$> List.find (Client.has_id i) l.
Proof.
  rewrite index_lookup. induction l as [|x l IH]; [done|]. cbn. unfold Client.has_id at 1.
  destruct (bool_decide (Types.room_id x = i)); [done|exact IH].
Qed.

(** The parts of the state the view reads. *)
Definition same_lists (s s' : Client.State) : Prop :=
  Client.rooms s' = Client.rooms s ∧ Client.users s' = Client.users s.

Lemma same_lists_view s s' : same_lists s s' → client_view s' = client_view s ∧ (client_wf s → client_wf s').
Proof. intros [E1 E2]. unfold client_view, client_wf. by rewrite E1, E2. Qed.

Lemma recompute_lists s : same_lists s (Client.recompute_effective_permissions s).
Proof.
  unfold Client.recompute_effective_permissions. destruct (Client.my_user_id s); [|done].
  unfold Client.refresh_effective. by destruct (_ ≫= _).
Qed.

Lemma rooms_index_retain i l :
  index Types.room_id (plain <$> retain (λ r, negb (Client.has_id i r)) l) =
  delete i (index Types.room_id (plain <$> l)).
Proof.
  rewrite <- index_retain. f_equal. unfold retain.
  induction l as [|x l IH]; [done|]. cbn. unfold Client.has_id at 1. case_bool_decide; cbn; by rewrite IH.
Qed.

Lemma rooms_index_update i f l :
  (∀ r, Types.room_id (f r) = Types.room_id r) → (∀ r, plain (f r) = f (plain r)) →
  index Types.room_id (plain <$> (update_first (Client.has_id i) f l).1) =
  alter f i (index Types.room_id (plain <$> l)).
Proof.
  intros Hf Hp. rewrite <- index_update by done. f_equal.
  induction l as [|x l IH]; [done|]. cbn. unfold Client.has_id at 1. case_bool_decide; cbn; [by rewrite Hp|].
  destruct (update_first (Client.has_id i) f l), (update_first (λ x, bool_decide (Types.room_id x = i)) f (plain <$> l)).
  cbn in *. by rewrite IH.
Qed.

(** Updating the first match keeps the keys. *)
Lemma update_keys {A K} (key : A → K) p f (l : list A) :
  (∀ x, key (f x) = key x) → key <$> (update_first p f l).1 = key <$> l.
Proof. intros Hf. apply update_first_fmap. intros x _. apply Hf. Qed.

Lemma update_room_view i f s :
  (∀ r, Types.room_id (f r) = Types.room_id r) → (∀ r, plain (f r) = f (plain r)) →
  let s' := Client.update_room i f s in
  client_view s' = mkView (alter f i (v_rooms (client_view s))) (v_users (client_view s)) ∧
  (client_wf s → client_wf s').
Proof.
  intros Hf Hp s'. unfold s', client_view, client_wf. cbn [Client.rooms Client.users Client.update_room Client.with_rooms].
  rewrite rooms_index_update, update_keys by done. done.
Qed.

Lemma update_user_view u f s :
  (∀ x, Types.user_id (f x) = Types.user_id x) →
  let s' := Client.update_user u f s in
  client_view s' = mkView (v_rooms (client_view s)) (alter f u (v_users (client_view s))) ∧
  (client_wf s → client_wf s').
Proof.
  intros Hf s'. unfold s', client_view, client_wf. cbn [Client.rooms Client.users Client.update_user Client.with_users].
  rewrite update_keys by done. split; [|done]. f_equal. by apply index_update.
Qed.

Lemma find_user_view s u : Client.find_user s u = v_users (client_view s) !! u.
Proof. symmetry. apply index_lookup. Qed.

Lemma same_view s s' v : same_lists s s' → client_view s = v → client_wf s → client_view s' = v ∧ client_wf s'.
Proof. intros Hs <- Hw. destruct (same_lists_view _ _ Hs) as [Hv Hw']. auto. Qed.

Lemma view_eta v : mkView (v_rooms v) (v_users v) = v.
Proof. by destruct v. Qed.

Lemma full_state_view rs us gs cmds perms s :
  NoDup (Types.room_id <$> rs) → NoDup (Types.user_id <$> us) →
  client_view (Client.next (Client.full_state rs us gs cmds perms s)) =
    mkView (index Types.room_id (plain <$> rs)) (index Types.user_id us) ∧
  client_wf (Client.next (Client.full_state rs us gs cmds perms s)).
Proof.
  intros Hr Hu. unfold Client.full_state, Client.refresh_effective. cbn [Client.next].
  by destruct (_ ≫= _).
Qed.

Lemma user_joined_view u s :
  client_wf s →
  client_view (Client.next (Client.user_joined u s)) = meaning (Client.UserJoined u) (client_view s) ∧
  client_wf (Client.next (Client.user_joined u s)).
Proof.
  intros [Hr Hu]. unfold Client.user_joined. cbn [meaning]. rewrite <- find_user_view. unfold Client.find_user.
  destruct (existsb (Client.has_uid (Types.user_id u)) (Client.users s)) eqn:Ex.
  - apply existsb_elem_of in Ex as (x & Hx & Hp). cbn [Client.next].
    destruct (List.find _ _) eqn:Ef; [by rewrite view_eta|]. rewrite find_None_iff in Ef. by rewrite (Ef x Hx) in Hp.
  - assert (Types.user_id u ∉ Types.user_id <$> Client.users s) as Hn.
    { intros (x & E & Hx)%list_elem_of_fmap. assert (existsb (Client.has_uid (Types.user_id u)) (Client.users s) = true); [|congruence].
      apply existsb_elem_of. exists x. split; [done|]. unfold Client.has_uid. by apply bool_decide_eq_true. }
    cbn [Client.next]. destruct (List.find _ _) as [x|] eqn:Ef.
    { apply find_Some_iff in Ef as [Hx Hp]. assert (existsb (Client.has_uid (Types.user_id u)) (Client.users s) = true); [|congruence].
      apply existsb_elem_of. by exists x. }
    split.
    + unfold client_view. cbn [Client.rooms Client.users Client.with_users v_rooms v_users].
      by rewrite index_snoc, decide_False.
    + split; [done|]. cbn [Client.users Client.with_users]. rewrite fmap_app. apply NoDup_app.
      split; [done|]. split; [|apply NoDup_singleton]. by intros x Hx ->%list_elem_of_singleton.
Qed.

Lemma user_status_view u m d sm el s :
  client_wf s →
  client_view (Client.next (Client.user_status_changed u m d sm el s)) =
    meaning (Client.UserStatusChanged u m d sm el) (client_view s) ∧
  client_wf (Client.next (Client.user_status_changed u m d sm el s)).
Proof.
  intros Hw. unfold Client.user_status_changed. cbn [meaning]. rewrite find_user_view.
  destruct (v_users (client_view s) !! u) as [x|] eqn:Ex.
  - destruct (update_user_view u (Client.set_status m d sm el) s) as [E Hw']; [done|].
    destruct (Client.is_me s u); cbn [Client.next]; auto.
  - cbn [Client.next]. by rewrite alter_id', view_eta.
Qed.

Lemma user_group_view u g a s :
  client_wf s →
  client_view (Client.next (Client.user_group_changed u g a s)) =
    meaning (Client.UserGroupChanged u g a) (client_view s) ∧
  client_wf (Client.next (Client.user_group_changed u g a s)).
Proof.
  intros Hw. unfold Client.user_group_changed. cbn [meaning]. rewrite find_user_view.
  destruct (v_users (client_view s) !! u) as [x|] eqn:Ex.
  - destruct (update_user_view u (Client.set_groups (Client.change_group g a)) s) as [E Hw']; [done|]. cbn [Client.next]. auto.
  - cbn [Client.next]. by rewrite alter_id', view_eta.
Qed.

Lemma user_moved_view u r s :
  client_wf s →
  client_view (Client.next (Client.user_moved u r s)) = meaning (Client.UserMoved u r) (client_view s) ∧
  client_wf (Client.next (Client.user_moved u r s)).
Proof.
  intros Hw. unfold Client.user_moved.
  destruct (update_user_view u (Client.set_room (default Types.ROOT_ROOM_UUID r)) s) as [E Hw']; [done|].
  destruct (Client.is_me s u); [destruct r|]; cbn [Client.next meaning]; auto.
Qed.

(** One event, ignoring the side effects. *)
Lemma project_view ev s :
  client_wf s → followable ev (client_view s) →
  client_view (Client.next (Client.project ev s)) = meaning ev (client_view s) ∧
  client_wf (Client.next (Client.project ev s)).
Proof.
  intros Hw Hf.
  destruct ev as [rs us gs cmds perms|r|i|i n|i p|i d|i inh es|u|u|u r|u m d sm el|u g a|us|g|n|g|i|h];
    cbn [Client.project followable] in *.
  - destruct Hf. by apply full_state_view.
  - destruct Hw as [Hr Hu]. cbn [Client.next meaning].
    assert (Types.room_id r ∉ Types.room_id <$> (plain <$> Client.rooms s)) as Hn.
    { intros Hin. rewrite plain_ids in Hin. apply list_elem_of_fmap in Hin as (x & E & Hx).
      unfold client_view in Hf. cbn in Hf. rewrite index_plain_lookup in Hf.
      destruct (List.find _ _) eqn:Ef; [done|]. rewrite find_None_iff in Ef. specialize (Ef x Hx).
      unfold Client.has_id in Ef. by rewrite bool_decide_true in Ef. }
    split.
    + unfold client_view. cbn [Client.rooms Client.users Client.rebuild_room_tree Client.with_room_tree Client.with_rooms v_rooms v_users].
      rewrite fmap_app. change (plain <$> [r]) with [plain r].
      change (Types.room_id r) with (Types.room_id (plain r)) in *. by rewrite index_snoc, decide_False.
    + split; [|done]. cbn [Client.rooms Client.rebuild_room_tree Client.with_room_tree Client.with_rooms].
      rewrite plain_ids in Hn. rewrite fmap_app. apply NoDup_app. split; [done|]. split; [|apply NoDup_singleton].
      by intros x Hx ->%list_elem_of_singleton.
  - cbn [Client.next meaning]. split.
    + unfold client_view. cbn [Client.rooms Client.users Client.rebuild_room_tree Client.with_room_tree Client.with_rooms v_rooms v_users].
      by rewrite rooms_index_retain.
    + destruct Hw as [Hr Hu]. split; [|done]. cbn. by apply NoDup_fmap_retain.
  - destruct (update_room_view i (Client.set_name n) s) as [E Hw']; [done|done|]. by split; [apply E|apply Hw'].
  - destruct (update_room_view i (Client.set_parent (default Types.ROOT_ROOM_UUID p)) s) as [E Hw'];
      [done|done|]. by split; [apply E|apply Hw'].
  - destruct (update_room_view i (Client.set_description d) s) as [E Hw']; [done|done|]. by split; [apply E|apply Hw'].
  - destruct (update_room_view i (Client.set_acl inh es) s) as [E Hw']; [done|done|]. by split; [apply E|apply Hw'].
  - by apply user_joined_view.
  - destruct Hw as [Hr Hu]. cbn [Client.next meaning Client.user_left]. split.
    + unfold client_view. cbn [Client.rooms Client.users Client.with_users v_rooms v_users].
      f_equal. apply index_retain.
    + split; [done|]. cbn. by apply NoDup_fmap_retain.
  - by apply user_moved_view.
  - by apply user_status_view.
  - by apply user_group_view.
  - by eapply same_view.
  - by eapply same_view.
  - by eapply same_view.
  - by eapply same_view.
  - by eapply same_view.
  - done.
Qed.

(** ** The server's view *)

#[export] Instance room_id_eq_dec : EqDecision Proto.RoomId.
Proof. solve_decision. Defined.
#[export] Instance user_id_eq_dec : EqDecision Proto.UserId.
Proof. solve_decision. Defined.
#[export] Instance proto_acl_entry_eq_dec : EqDecision Proto.RoomAclEntry.
Proof. solve_decision. Defined.
#[export] Instance room_info_eq_dec : EqDecision Proto.RoomInfo.
Proof. solve_decision. Defined.
#[export] Instance proto_user_eq_dec : EqDecision Proto.User.
Proof. solve_decision. Defined.
#[export] Instance group_info_eq_dec : EqDecision Proto.GroupInfo.
Proof. solve_decision. Defined.
#[export] Instance proto_slash_command_eq_dec : EqDecision Proto.SlashCommand.
Proof. solve_decision. Defined.
#[export] Instance server_state_eq_dec : EqDecision Proto.ServerState.
Proof. solve_decision. Defined.

Section server.
Context {T : Type} `{!KV T} `{!Persist.Codecs} `{!External}.
Abbreviation W := (Wld.World T).

Definition server_view (w : W) : View :=
  mkView (index Types.room_id (St.rooms (Wld.data w))) (index Types.user_id (Wld.build_user_list w)).

(** Rooms and memberships without repetitions; the server never fills in the
    permissions of its own copy of a room. *)
Record server_ok (w : W) : Prop := {
  ok_wf : St.wf_state (Wld.data w);
  ok_plain : Forall (λ r, Types.room_effective_permissions r = 0%N) (St.rooms (Wld.data w));
}.

Lemma plain_id r : Types.room_effective_permissions r = 0%N → plain r = r.
Proof. intros E. destruct r. cbn in E. by subst. Qed.

Lemma plain_rooms w : server_ok w → plain <$> St.rooms (Wld.data w) = St.rooms (Wld.data w).
Proof.
  intros [_ Hp]. induction Hp as [|r l Hr _ IH]; [done|]. rewrite fmap_cons, IH. by rewrite plain_id.
Qed.

Lemma user_entry_id (w : W) e u : Wld.user_entry w e = Some u → Types.user_id u = e.1.
Proof.
  destruct e as [uid rid]. unfold Wld.user_entry. destruct (St.get_member _ _) as [m|]; [|done]. cbn.
  destruct (Wld.is_controller w m); [done|]. by intros [= <-].
Qed.

Lemma user_list_NoDup (w : W) : server_ok w → NoDup (Types.user_id <$> Wld.build_user_list w).
Proof.
  intros [[_ _ Hm _ _] _]. unfold Wld.build_user_list. revert Hm.
  induction (St.memberships (Wld.data w)) as [|e l IH]; [constructor|]. rewrite fmap_cons, NoDup_cons. intros [Hn Hl].
  cbn [omap list_omap]. destruct (Wld.user_entry w e) as [u|] eqn:Eu; [|by apply IH].
  rewrite fmap_cons. apply NoDup_cons. split; [|by apply IH]. rewrite (user_entry_id _ _ _ Eu). intros Hin. apply Hn.
  apply list_elem_of_fmap in Hin as (u' & E & Hu'). apply list_elem_of_omap in Hu' as (e' & He' & Eu').
  apply list_elem_of_fmap. exists e'. split; [|done]. by rewrite E, (user_entry_id _ _ _ Eu').
Qed.

(** A user is listed where its membership puts it. *)
Lemma server_view_user (w : W) u :
  server_ok w →
  v_users (server_view w) !! u = St.get_user_room (Wld.data w) u ≫= λ r, Wld.user_entry w (u, r).
Proof.
  intros Hok. cbn. rewrite index_lookup. unfold Wld.build_user_list, St.get_user_room.
  destruct Hok as [[_ _ Hm _ _] _]. revert Hm.
  induction (St.memberships (Wld.data w)) as [|[v r] l IH]; [done|]. rewrite fmap_cons, NoDup_cons. cbn [fst]. intros [Hn Hl].
  cbn [omap list_omap List.find fst]. destruct (N.eqb_spec v u) as [->|Hne].
  - change ((snd <$> Some (u, r)) ≫= λ r0, Wld.user_entry w (u, r0)) with (Wld.user_entry w (u, r)).
    destruct (Wld.user_entry w (u, r)) as [x|] eqn:Ex; cbn [List.find].
    + by rewrite bool_decide_true by (apply (user_entry_id _ _ _ Ex)).
    + destruct (List.find _ _) as [x|] eqn:Ef; [|done]. apply find_Some_iff in Ef as [Hx Hp].
      apply bool_decide_eq_true in Hp. apply list_elem_of_omap in Hx as (e' & He' & Ex').
      destruct Hn. apply list_elem_of_fmap. exists e'. split; [|done]. rewrite <- Hp. by apply user_entry_id in Ex'.
  - destruct (Wld.user_entry w (v, r)) as [x|] eqn:Ex; cbn [List.find]; [|by apply IH].
    rewrite bool_decide_false by (rewrite (user_entry_id _ _ _ Ex); done). by apply IH.
Qed.

(** ** The checkpoint *)

Lemma room_to_proto_inj r r' : Types.room_to_proto r = Types.room_to_proto r' → r = r'.
Proof.
  intros E. apply (f_equal Types.room_from_proto) in E. rewrite !Types.room_from_to_proto in E. by injection E.
Qed.
Lemma user_to_proto_inj u u' : Types.user_to_proto u = Types.user_to_proto u' → u = u'.
Proof.
  intros E. apply (f_equal Types.user_from_proto) in E. rewrite !Types.user_from_to_proto in E. by injection E.
Qed.

Lemma NoDup_fmap_key {A B C} (f : A → B) (g : A → C) (l : list A) :
  (∀ x y, g x = g y → f x = f y) → NoDup (f <$> l) → NoDup (g <$> l).
Proof.
  intros Hfg. induction l as [|x l IH]; [constructor|]. rewrite !fmap_cons, !NoDup_cons. intros [Hn Hl].
  split; [|auto]. intros (y & E & Hy)%list_elem_of_fmap. apply Hn. apply list_elem_of_fmap. exists y. eauto.
Qed.

Lemma perm_fmap_inj {A B} (f : A → B) l k : (∀ x y, f x = f y → x = y) → f <$> l ≡ₚ f <$> k → l ≡ₚ k.
Proof.
  intros Hf. revert k. induction l as [|x l IH]; intros k Hp.
  - apply Permutation_nil in Hp. by destruct k.
  - rewrite fmap_cons in Hp. assert (f x ∈ f <$> k) as Hin by (rewrite <- Hp; apply list_elem_of_here).
    apply list_elem_of_fmap in Hin as (y & E & Hy). apply Hf in E as <-.
    apply elem_of_Permutation in Hy as [k' Hk]. rewrite Hk. f_equiv. apply IH.
    rewrite Hk, fmap_cons in Hp. by apply Permutation_cons_inv in Hp.
Qed.

(** What is hashed on both sides. *)
Definition hashed (w : W) : Proto.ServerState :=
  Proto.mkServerState (map Types.room_to_proto (St.rooms (Wld.data w)))
    (map Types.user_to_proto (Wld.build_user_list w)) [] [].

Lemma hashed_same (w : W) (s : Client.State) :
  server_ok w → client_wf s →
  client_view s = server_view w ↔
  Wire.canonical_state (hashed w) = Wire.canonical_state (Client.state_hash_input s).
Proof.
  intros Hok [Hr Hu]. pose proof (user_list_NoDup w Hok) as Hul. pose proof (St.wf_ids _ (ok_wf w Hok)) as Hids.
  rewrite <- Wire.canonical_state_perm.
  - cbn [hashed Client.state_hash_input Proto.ss_rooms Proto.ss_users].
    assert (map Types.room_to_hash_input (Client.rooms s) = map Types.room_to_proto (plain <$> Client.rooms s)) as ->.
    { change (plain <$> Client.rooms s) with (map plain (Client.rooms s)). rewrite map_map.
      apply map_ext. by intros []. }
    split.
    + intros [= Er Eu]. split; apply Permutation_map; symmetry; eapply index_perm; eauto. by rewrite plain_ids.
    + intros [Pr Pu]. unfold client_view, server_view. f_equal; apply index_perm_eq; try done.
      * by rewrite plain_ids.
      * symmetry. by apply (perm_fmap_inj Types.room_to_proto), Pr; apply room_to_proto_inj.
      * symmetry. by apply (perm_fmap_inj Types.user_to_proto), Pu; apply user_to_proto_inj.
  - cbn [hashed Proto.ss_rooms]. change (map Types.room_to_proto ?l) with (Types.room_to_proto <$> l).
    rewrite <- list_fmap_compose. eapply NoDup_fmap_key; [|exact Hids].
    intros x y E. apply array_eq. exact E.
  - cbn [hashed Proto.ss_users]. change (map Types.user_to_proto ?l) with (Types.user_to_proto <$> l).
    rewrite <- list_fmap_compose. eapply NoDup_fmap_key; [|exact Hul]. intros x y E. exact E.
Qed.

Lemma server_hash (w : W) :
  Wld.state_hash w [] = arr (ext_blake3 (ext_encode_state (Wire.canonical_state (hashed w)))).
Proof. done. Qed.


(** ** Following the server *)

(** The updates a connection has been sent. *)
Definition update_of (h : N) (e : Wld.Event) : option (bytes * Proto.Update) :=
  match e with
  | Wld.Sent t _ (Proto.EvStateUpdate hash u) => if decide (t = h) then Some (hash, u) else None
  | _ => None
  end.
Definition updates (h : N) (w : W) : list (bytes * Proto.Update) := omap (update_of h) (Wld.log w).

(** A connection the server reaches. *)
Record connected (h : N) (w : W) : Prop := {
  conn_ok : server_ok w;
  conn_members : Session.wf_members (Wld.server w);
  conn_known : h ∈ St.snapshot_clients (Wld.server w);
  conn_open : h ∉ Wld.closed w;
  conn_live : h ∉ Wld.stalled w;
}.

(** The steps of the server as the connection sees them: quiet ones, and
    changes of the view told by one update. *)
Inductive narrates (h : N) : W → W → Prop :=
  | narr_done w : narrates h w w
  | narr_quiet w w1 w2 :
      server_view w1 = server_view w → updates h w1 = updates h w → connected h w1 →
      narrates h w1 w2 → narrates h w w2
  | narr_told w w1 w2 w3 u ev :
      Client.room_event_of u = Some ev → followable ev (server_view w) →
      server_view w1 = meaning ev (server_view w) →
      updates h w2 = updates h w ++ [(Wld.state_hash w1 [], u)] →
      server_view w2 = server_view w1 → server_ok w1 → connected h w2 →
      narrates h w2 w3 → narrates h w w3.

Lemma narrates_trans h w1 w2 w3 : narrates h w1 w2 → narrates h w2 w3 → narrates h w1 w3.
Proof. induction 1; intros; [done|by eapply narr_quiet; eauto|by eapply narr_told; eauto]. Qed.

(** What the client does with the updates. *)
Fixpoint follow (l : list (bytes * Proto.Update)) (s : Client.State) : list Client.Effect * Client.State :=
  match l with
  | [] => ([], s)
  | (hash, u) :: l =>
      let '(fx, s) := Client.apply_rooms (Client.apply_state_update hash (Some u)) s in
      let '(fxs, s) := follow l s in
      (fx ++ fxs, s)
  end.
Definition asks_resync (fx : list Client.Effect) : Prop :=
  ∃ e a, Client.Send (Client.RequestStateSync e a) ∈ fx.

Definition mirrors (w : W) (s : Client.State) : Prop := client_view s = server_view w ∧ client_wf s.

Lemma apply_room_view ev s :
  client_wf s → followable ev (client_view s) → (∀ hash, ev ≠ Client.StateHashCheckpoint hash) →
  let '(fx, s') := Client.apply_room ev s in
  client_view s' = meaning ev (client_view s) ∧ client_wf s' ∧ ¬ asks_resync fx.
Proof.
  intros Hw Hf Hn. destruct (project_view ev s Hw Hf) as [Hv Hw'].
  assert (Client.apply_room ev s = (map Client.Audio (Client.audio_cmds (Client.project ev s)) ++
       match Client.new_room_id_for_ft (Client.project ev s) with Some r => [Client.SetRoomId r] | None => [] end,
       if Client.recompute_perms (Client.project ev s)
       then Client.recompute_effective_permissions (Client.next (Client.project ev s))
       else Client.next (Client.project ev s))) as ->.
  { destruct ev; try done. by destruct (Hn expected_hash). }
  assert (∀ s', s' = Client.next (Client.project ev s) ∨
    s' = Client.recompute_effective_permissions (Client.next (Client.project ev s)) →
    client_view s' = meaning ev (client_view s) ∧ client_wf s') as Hs.
  { intros s' [->| ->]; [done|]. apply (same_view _ _ _ (recompute_lists _)); done. }
  split_and!.
  - by apply Hs; destruct (Client.recompute_perms _); [right|left].
  - by apply Hs; destruct (Client.recompute_perms _); [right|left].
  - intros (e & a & [Hin|Hin]%elem_of_app).
    + by apply list_elem_of_fmap in Hin as (? & ? & ?).
    + destruct (Client.new_room_id_for_ft _); [|by apply elem_of_nil in Hin].
      by apply list_elem_of_singleton in Hin.
Qed.

Lemma room_event_not_checkpoint u ev : Client.room_event_of u = Some ev → ∀ hash, ev ≠ Client.StateHashCheckpoint hash.
Proof.
  intros E hash ->.
  destruct u; cbn [Client.room_event_of] in E; try destruct deleted;
    first [ apply fmap_Some in E as (? & _ & [=]) | by simplify_option_eq ].
Qed.

Lemma checkpoint_silent (w : W) (s : Client.State) :
  server_ok w → mirrors w s → Client.verify_state_hash s (Wld.state_hash w []) = [].
Proof.
  intros Hok [E Hw]. apply (hashed_same w s Hok Hw) in E. unfold Client.verify_state_hash.
  rewrite bool_decide_true; [done|].
  change (Client.state_hash s) with
    (arr (ext_blake3 (ext_encode_state (Wire.canonical_state (Client.state_hash_input s))))).
  by rewrite server_hash, E.
Qed.

Lemma asks_app fx fx' : ¬ asks_resync fx → ¬ asks_resync fx' → ¬ asks_resync (fx ++ fx').
Proof. intros H1 H2 (e & a & [Hin|Hin]%elem_of_app); [apply H1|apply H2]; by exists e, a. Qed.

Lemma asks_nil : ¬ asks_resync [].
Proof. intros (e & a & Hin). by apply elem_of_nil in Hin. Qed.

(** One update, applied. *)
Lemma follow_one (w w1 : W) (s : Client.State) u ev :
  mirrors w s → server_ok w1 → Client.room_event_of u = Some ev → followable ev (server_view w) →
  server_view w1 = meaning ev (server_view w) →
  let '(fx, s') := Client.apply_rooms (Client.apply_state_update (Wld.state_hash w1 []) (Some u)) s in
  mirrors w1 s' ∧ ¬ asks_resync fx.
Proof.
  intros [Hv Hw] Hok1 He Hf Hm. unfold Client.apply_state_update. rewrite He.
  assert (Wld.state_hash w1 [] ≠ []) as Hne.
  { intros E. apply (f_equal List.length) in E. rewrite server_hash, length_arr in E. done. }
  destruct (Wld.state_hash w1 []) as [|b hash] eqn:Eh; [done|]. rewrite <- Eh in *.
  cbn [app Client.apply_rooms]. rewrite <- Hv in Hf, Hm.
  pose proof (apply_room_view ev s Hw Hf (room_event_not_checkpoint _ _ He)) as Ha.
  destruct (Client.apply_room ev s) as [fx s1]. destruct Ha as (Hv1 & Hw1 & Hn).
  assert (mirrors w1 s1) as Hm1 by (split; [congruence|done]).
  cbn [Client.apply_room]. rewrite checkpoint_silent by done.
  split; [done|]. rewrite !app_nil_r. by rewrite ?app_nil_r.
Qed.

Lemma follow_app l l' s :
  follow (l ++ l') s =
  let '(fx, s1) := follow l s in let '(fx', s2) := follow l' s1 in (fx ++ fx', s2).
Proof.
  revert s. induction l as [|[hash u] l IH]; intros s; cbn [app follow].
  { by destruct (follow l' s). }
  destruct (Client.apply_rooms _ s) as [fx s1]. rewrite IH. destruct (follow l s1) as [fx1 s2].
  destruct (follow l' s2). by rewrite app_assoc.
Qed.

Lemma narrates_follow h (w w' : W) :
  narrates h w w' →
  ∃ l, updates h w' = updates h w ++ l ∧
       ∀ s, mirrors w s → let '(fx, s') := follow l s in mirrors w' s' ∧ ¬ asks_resync fx.
Proof.
  induction 1 as [w|w w1 w2 Hv Hu Hc _ (l & Hl & IH)|w w1 w2 w3 u ev He Hf Hm Hu Hv Hok Hc _ (l & Hl & IH)].
  - exists []. rewrite app_nil_r. split; [done|]. intros s Hs. split; [done|apply asks_nil].
  - exists l. rewrite <- Hu. split; [done|]. intros s [E Hw]. apply IH. by split; [rewrite Hv|].
  - exists ((Wld.state_hash w1 [], u) :: l). rewrite Hl, Hu, <- app_assoc. split; [done|]. intros s Hs.
    cbn [follow]. pose proof (follow_one w w1 s u ev Hs Hok He Hf Hm) as H1.
    destruct (Client.apply_rooms _ s) as [fx s1]. destruct H1 as [[E1 W1] N1].
    specialize (IH s1). destruct (follow l s1) as [fxs s2].
    destruct IH as [Hm2 N2]; [by split; [rewrite Hv|]|]. split; [done|]. by apply asks_app.
Qed.

(** ** The broadcast *)

Lemma snapshot_clients_NoDup s : Session.wf_members s → NoDup (St.snapshot_clients s).
Proof.
  intros Hwf. unfold St.snapshot_clients.
  assert (∀ l, (∀ e, e ∈ l → e ∈ map_to_list (St.members s)) → NoDup (fst <$> l) →
    NoDup (omap (λ e : N * St.Member, St.member_client e.2) l)) as Hl.
  { induction l as [|[k m] l IH]; intros Hsub Hnd; [constructor|]. rewrite fmap_cons, NoDup_cons in Hnd.
    destruct Hnd as [Hk Hnd]. cbn [omap list_omap snd].
    assert (NoDup (omap (λ e : N * St.Member, St.member_client e.2) l)) as Hr.
    { apply IH; [|done]. intros e He. apply Hsub. by right. }
    destruct (St.member_client m) as [c|] eqn:Ec; [|done]. apply NoDup_cons. split; [|done]. intros Hin. apply Hk.
    apply list_elem_of_omap in Hin as ([k' m'] & Hin & Ec'). apply list_elem_of_fmap. exists (k', m'). split; [|done].
    assert (∀ k m, (k, m) ∈ map_to_list (St.members s) → St.member_client m = Some c → c = k) as Hc.
    { intros k0 m0 Hm0 E0. apply elem_of_map_to_list in Hm0. destruct (Hwf _ _ Hm0) as [_ Hb].
      unfold St.member_client in E0. destruct (St.binding m0) eqn:Eb; [|done]. injection E0 as <-. by apply Hb. }
    cbn in *. rewrite <- (Hc k m), <- (Hc k' m'); [done|apply Hsub; by right|done|apply Hsub; by left|done]. }
  apply Hl; [done|]. apply NoDup_fst_map_to_list.
Qed.

(** One connection of the broadcast. *)
Lemma frame_to_updates h c hash0 hash u (w : W) :
  h ∉ Wld.closed w → h ∉ Wld.stalled w →
  let w1 := ((slow ← gets (λ w, bool_decide (c ∈ Wld.stalled w));
              if (slow : bool) then Wld.close_conn c 0 "control stream stalled"
              else Wld.ignore (Wld.send_frame c hash0 (Proto.EvStateUpdate hash u))) w).2 in
  updates h w1 = updates h w ++ (if decide (c = h) then [(hash, u)] else []) ∧
  h ∉ Wld.closed w1 ∧ Wld.stalled w1 = Wld.stalled w.
Proof.
  intros Hc Hs. unfold_goal_st. case_bool_decide as Hst.
  - assert (c ≠ h) by congruence. rewrite decide_False by done. unfold Wld.close_conn, Wld.emit. unfold_goal_st.
    unfold updates. cbn. rewrite omap_app. cbn. split_and!; [done|rewrite not_elem_of_union, not_elem_of_singleton; done|done].
  - rewrite Wld.ignore_run. unfold Wld.send_frame, Wld.emit. unfold_goal_st. case_bool_decide as Hd.
    + rewrite decide_False by congruence. cbn. rewrite app_nil_r. done.
    + unfold updates. cbn. rewrite omap_app. cbn. split_and!; [|done|done]. by destruct (decide (c = h)).
Qed.

Lemma for_each_run {S A} (x : A) l (body : A → ST S unit) s :
  for_each (x :: l) body s = for_each l body (body x s).2.
Proof. cbn [for_each]. unfold_goal_st. by destruct (body x s) as [[] ?]. Qed.

Lemma broadcast_frame_updates h cs hash0 hash u (w : W) :
  NoDup cs → h ∉ Wld.closed w → h ∉ Wld.stalled w →
  let w' := (Wld.broadcast_frame cs hash0 (Proto.EvStateUpdate hash u) w).2 in
  updates h w' = updates h w ++ (if decide (h ∈ cs) then [(hash, u)] else []) ∧ h ∉ Wld.closed w'.
Proof.
  unfold Wld.broadcast_frame. revert w. induction cs as [|c cs IH]; intros w Hnd Hc Hs.
  { rewrite decide_False by apply not_elem_of_nil. rewrite app_nil_r. by split. }
  apply NoDup_cons in Hnd as [Hn Hnd]. cbv zeta.
  pose proof (frame_to_updates h c hash0 hash u w Hc Hs) as Hone. cbv zeta in Hone.
  set (body := gets _ ≫= _) in *. rewrite !for_each_run. fold body. destruct (body w) as [[] w1].
  cbn [snd] in Hone |- *. destruct Hone as (E1 & C1 & S1).
  destruct (IH w1 Hnd C1) as [E2 C2]; [by rewrite S1|]. split; [|done].
  rewrite E2, E1, <- app_assoc. f_equal. destruct (decide (c = h)) as [->|Hch].
  - by rewrite decide_False, decide_True by (done || by left).
  - destruct (decide (h ∈ cs)); [by rewrite decide_True by (by right)|].
    by rewrite decide_False by (by intros [?|?]%elem_of_cons).
Qed.

Lemma view_frame (w w' : W) : Wld.frame_of w' = Wld.frame_of w → server_view w' = server_view w.
Proof.
  intros (Eh & Ei & Es & _)%Wld.frame_fields. unfold server_view, Wld.build_user_list, Wld.data. rewrite Es. f_equal.
  f_equal. unfold Wld.user_entry, Wld.data, Wld.is_controller, Wld.is_superuser, Wld.handle_at, Wld.identity_at.
  by rewrite Es, Eh, Ei.
Qed.

Lemma server_ok_frame (w w' : W) : Wld.server w' = Wld.server w → server_ok w → server_ok w'.
Proof. intros E [Hw Hp]. split; unfold Wld.data in *; by rewrite E. Qed.

(** A connected client gets every broadcast. *)
Lemma bcast_told h u (w : W) :
  connected h w →
  updates h (Wld.bcast u w) = updates h w ++ [(Wld.state_hash w [], u)] ∧
  server_view (Wld.bcast u w) = server_view w ∧ connected h (Wld.bcast u w).
Proof.
  intros [Hok Hm Hk Hc Hs]. pose proof (Wld.bcast_frame u w) as Hf.
  pose proof (view_frame _ _ Hf) as Hv. apply Wld.frame_fields in Hf as (_ & _ & Es & _ & Est).
  pose proof (broadcast_frame_updates h (St.snapshot_clients (Wld.server w)) (Wld.state_hash w []) (Wld.state_hash w [])
    u w (snapshot_clients_NoDup _ Hm) Hc Hs) as Hb. cbv zeta in Hb.
  assert (Wld.bcast u w = (Wld.broadcast_frame (St.snapshot_clients (Wld.server w)) (Wld.state_hash w [])
    (Proto.EvStateUpdate (Wld.state_hash w []) u) w).2) as Eb.
  { unfold Wld.bcast, Wld.broadcast_state_update. unfold_goal_st. by destruct (Wld.broadcast_frame _ _ _ w). }
  rewrite <- Eb in Hb. destruct Hb as [Hu Hcl]. rewrite decide_True in Hu by done.
  split; [done|]. split; [done|]. split; [by apply (server_ok_frame w)|by rewrite Es|by rewrite Es|done|by rewrite Est].
Qed.

(** The usual step: a change of the view, then the update that tells it. *)
Lemma narrates_bcast h u ev (w w1 : W) :
  Client.room_event_of u = Some ev → followable ev (server_view w) →
  server_view w1 = meaning ev (server_view w) → updates h w1 = updates h w → connected h w1 →
  narrates h w (Wld.bcast u w1).
Proof.
  intros He Hf Hm Hu Hc. destruct (bcast_told h u w1 Hc) as (B1 & B2 & B3).
  eapply narr_told; [exact He|exact Hf|exact Hm|rewrite B1, Hu; reflexivity|exact B2|apply Hc|exact B3|apply narr_done].
Qed.

(** Writes that are not updates. *)
Lemma sent_quiet h t hash p (w : W) :
  connected h w → (∀ e u, p ≠ Proto.EvStateUpdate e u) → narrates h w (Wld.send_frame t hash p w).2.
Proof.
  intros Hc Hp. assert (Wld.frame_of (Wld.send_frame t hash p w).2 = Wld.frame_of w) as Hf by apply Wld.send_frame_frame.
  pose proof (view_frame _ _ Hf) as Hv. apply Wld.frame_fields in Hf as (_ & _ & Es & _ & Est).
  assert (updates h (Wld.send_frame t hash p w).2 = updates h w ∧ Wld.closed (Wld.send_frame t hash p w).2 = Wld.closed w)
    as [Hu Hcl].
  { unfold Wld.send_frame, Wld.emit. unfold_goal_st. case_bool_decide; [done|]. unfold updates. cbn. rewrite omap_app.
    destruct p; cbn; rewrite ?app_nil_r; try done. by destruct (Hp expected_hash update). }
  destruct Hc as [Hok Hm Hk Hcl' Hs].
  eapply narr_quiet; [exact Hv|exact Hu| |apply narr_done].
  split; [by apply (server_ok_frame w)|by rewrite Es|by rewrite Es|by rewrite Hcl|by rewrite Est].
Qed.
End server.

(** ** Witnesses *)

#[local] Existing Instances Persist.codecs Persist.codecs_laws Session.sample_external.
#[local] Abbreviation sample := Session.sample_world.

(** A client in step with the sample server. *)
Definition sample_client : Client.State :=
  Client.with_users (λ _, Wld.build_user_list sample) (Client.with_rooms (λ _, St.rooms (Wld.data sample)) Client.State_default).

Lemma sample_server_ok : server_ok sample.
Proof. split; [exact Ops.sample_wf|]. repeat constructor. Qed.

Lemma sample_mirrors : mirrors sample sample_client.
Proof.
  split; [|split].
  - unfold client_view, server_view. by f_equal.
  - exact (St.wf_ids _ Ops.sample_wf).
  - exact (user_list_NoDup sample sample_server_ok).
Qed.

Lemma sample_connected : connected 2 sample.
Proof.
  split; [exact sample_server_ok|exact Session.sample_wf_members| | |].
  - refine (bool_decide_unpack (2%N ∈ St.snapshot_clients (Wld.server sample)) _). vm_compute. exact I.
  - set_solver.
  - set_solver.
Qed.

End Mirror.
