(* ===== verification/Narration.v ===== *)
(** The server tells its clients everything: what the handlers of
    [crates/server/src/handlers.rs] and the operations of ops.rs broadcast,
    followed by the client of Client.v, keeps the client's rooms and users equal
    to the server's ([Mirror.mirrors]) and never makes it ask for a
    resynchronisation. *)
From Stdlib Require Import NArith ZArith Lia String.
From stdpp Require Import base gmap strings list sets.
From S2P Require Import Prelude Permissions Proto Types Store Wire Persistence State World Acl Session Ops Auth Voice Handlers Dispatch RoomTree Client Mirror.

Module Narration.
Import Mirror.

Section narration.
Context {T : Type} `{!KV T} `{!Persist.Codecs} `{!External}.
Abbreviation W := (Wld.World T).
Implicit Types w : W.

Lemma narrates_connected h (w w' : W) : connected h w → narrates h w w' → connected h w'.
Proof. intros Hc Hn. revert Hc. induction Hn; auto. Qed.

(** ** Following the structure of the code *)

Section structure.
Variable h : N.

Lemma told_bind {A B} (m : ST W A) (k : A → ST W B) w :
  connected h w → narrates h w (m w).2 →
  (connected h (m w).2 → narrates h (m w).2 (k (m w).1 (m w).2).2) → narrates h w ((m ≫= k) w).2.
Proof.
  intros Hc Hm Hk. unfold_goal_st. destruct (m w) as [a w1]. cbn [fst snd] in *.
  eapply narrates_trans; [exact Hm|]. apply Hk. by eapply narrates_connected.
Qed.

Lemma told_try {A B} (m : ST W (result A)) (k : A → ST W (result B)) w :
  connected h w → narrates h w (m w).2 →
  (∀ a, (m w).1 = Ok a → connected h (m w).2 → narrates h (m w).2 (k a (m w).2).2) →
  narrates h w (try_bind m k w).2.
Proof.
  intros Hc Hm Hk. unfold try_bind. destruct (m w) as [[a|e] w1]; cbn [fst snd] in *; [|done].
  eapply narrates_trans; [exact Hm|]. apply (Hk a); [done|]. by eapply narrates_connected.
Qed.

Lemma told_map_err {A} p (m : ST W (result A)) w : narrates h w (m w).2 → narrates h w (Ops.map_err p m w).2.
Proof. intros Hm. by rewrite Ops.map_err_run. Qed.

Lemma told_for_each {A} (l : list A) (body : A → ST W unit) w :
  (∀ x w, x ∈ l → connected h w → narrates h w (body x w).2) → connected h w → narrates h w (for_each l body w).2.
Proof.
  revert w. induction l as [|x l IH]; intros w Hb Hc; [apply narr_done|]. rewrite for_each_run.
  assert (narrates h w (body x w).2) as Hx by (apply Hb; [by left|done]).
  eapply narrates_trans; [exact Hx|]. apply IH; [|by eapply narrates_connected].
  intros y w' Hy. apply Hb. by right.
Qed.

(** Answers to the sender. *)
Lemma told_result t c b msg w : connected h w → narrates h w (Auth.send_command_result t c b msg w).2.
Proof. intros Hc. unfold Auth.send_command_result. run. by apply sent_quiet. Qed.

Lemma told_denied t d w : connected h w → narrates h w (Auth.send_permission_denied t d w).2.
Proof. intros Hc. unfold Auth.send_permission_denied. run. by apply sent_quiet. Qed.

Lemma told_require sender room perm body w :
  connected h w → (Acl.check_permission w sender room perm = None → narrates h w (body w).2) →
  narrates h w (Handlers.require_permission sender room perm body w).2.
Proof.
  intros Hc Hb. unfold Handlers.require_permission. unfold_goal_st.
  destruct (Acl.check_permission w sender room perm); [|auto].
  apply told_try; [done|by apply told_denied|]. intros _ _ _. apply narr_done.
Qed.

Lemma told_reply sender c (m : ST W (result string)) w :
  connected h w → narrates h w (m w).2 → narrates h w (Handlers.reply sender c m w).2.
Proof.
  intros Hc Hm. unfold Handlers.reply. apply told_bind; [done|done|]. intros Hc'.
  by destruct (m w) as [[msg|msg] w']; apply told_result.
Qed.

(** ** Changes the clients do not see *)

Lemma narrates_quiet (w w1 : W) :
  server_view w1 = server_view w → Wld.log w1 = Wld.log w → connected h w1 → narrates h w w1.
Proof.
  intros Hv Hl Hc. eapply narr_quiet; [exact Hv| |exact Hc|apply narr_done]. unfold updates. by rewrite Hl.
Qed.

Lemma connected_persistence f (w : W) : connected h w → connected h (Wld.with_persistence f w).
Proof. intros [[H1 H2] H3 H4 H5 H6]. by split. Qed.

Lemma told_persistence f (w : W) : connected h w → narrates h w (Wld.with_persistence f w).
Proof. intros Hc. apply narrates_quiet; [done|done|by apply connected_persistence]. Qed.

Lemma told_on_persist {A} (m : ST (Persist.Persistence T) A) w : connected h w → narrates h w (Wld.on_persist m w).2.
Proof. intros Hc. rewrite Wld.on_persist_run. by apply told_persistence. Qed.

Lemma told_ignore {A} (m : ST W A) w : narrates h w (m w).2 → narrates h w (Wld.ignore m w).2.
Proof. by rewrite Wld.ignore_run. Qed.

Lemma persist_room_only i f (w : W) : ∃ g, (Handlers.persist_room i f w).2 = Wld.with_persistence g w.
Proof.
  unfold Handlers.persist_room. unfold_goal_st. destruct (Persist.get_room _ _).
  - run. by eexists.
  - exists id. by destruct w.
Qed.

(** A broadcast that announces nothing about rooms and users. *)
Lemma told_bcast_quiet u ev w :
  Client.room_event_of u = Some ev → followable ev (server_view w) →
  meaning ev (server_view w) = server_view w → connected h w →
  narrates h w (Wld.broadcast_state_update u w).2.
Proof. intros He Hf Hm Hc. eapply (narrates_bcast h u ev w w); eauto. Qed.
End structure.

(** ** Changes of the view *)

Lemma connected_state h (w : W) d :
  connected h w → St.wf_state d → Forall (λ r, Types.room_effective_permissions r = 0%N) (St.rooms d) →
  connected h (Wld.with_server (St.with_state_data (λ _, d)) w).
Proof. intros [[H1 H2] H3 H4 H5 H6] Hwf Hp. by split. Qed.

(** What a user's entry depends on. *)
Lemma user_entry_same (w w' : W) u r :
  St.get_user_status (Wld.data w') u = St.get_user_status (Wld.data w) u →
  St.get_member (Wld.server w') u = St.get_member (Wld.server w) u →
  (∀ m c, St.get_member (Wld.server w) u = Some m → St.binding m = St.Client c →
     St.is_controller (Wld.handle_at w' c) = St.is_controller (Wld.handle_at w c) ∧
     St.is_superuser (Wld.handle_at w' c) = St.is_superuser (Wld.handle_at w c) ∧
     St.server_muted (Wld.handle_at w' c) = St.server_muted (Wld.handle_at w c)) →
  (∀ m, St.get_member (Wld.server w) u = Some m →
     Wld.identity_at w' (St.m_identity m) = Wld.identity_at w (St.m_identity m)) →
  Wld.user_entry w' (u, r) = Wld.user_entry w (u, r).
Proof.
  intros Es Em Eh Ei. unfold Wld.user_entry. rewrite Em. destruct (St.get_member (Wld.server w) u) as [m|] eqn:E; [|done].
  cbn. rewrite (Ei m) by done. rewrite Es. unfold Wld.is_controller, Wld.is_superuser.
  destruct (St.binding m) as [c|o] eqn:Eb; [|done]. by destruct (Eh m c) as (-> & -> & ->).
Qed.

Lemma view_users_ext (w w1 : W) vm :
  server_ok w1 → St.rooms (Wld.data w1) = St.rooms (Wld.data w) →
  (∀ k, (St.get_user_room (Wld.data w1) k ≫= λ r, Wld.user_entry w1 (k, r)) = vm !! k) →
  server_view w1 = mkView (v_rooms (server_view w)) vm.
Proof.
  intros Hok Hr Hu. unfold server_view at 1. rewrite Hr. f_equal. apply map_eq. intros k.
  rewrite <- Hu. by apply (server_view_user w1).
Qed.

Lemma set_plain f r :
  (∀ x, Types.room_effective_permissions (f x) = Types.room_effective_permissions x) →
  ∀ d : St.StateData, NoDup (St.room_ids d) →
  Forall (λ r, Types.room_effective_permissions r = 0%N) (St.rooms d) →
  Forall (λ r, Types.room_effective_permissions r = 0%N) (St.rooms (St.update_room r f d).2).
Proof.
  intros Hf d Hnd Hp. rewrite St.update_room_rooms by done. apply Forall_fmap. eapply Forall_impl; [exact Hp|].
  intros x Hx. cbn. destruct (bool_decide _); [|done]. by rewrite Hf.
Qed.

Lemma view_update_room r f (w : W) :
  (∀ x, Types.room_id (f x) = Types.room_id x) →
  server_view (Wld.with_server (St.with_state_data (λ _, (St.update_room r f (Wld.data w)).2)) w) =
  mkView (alter f r (v_rooms (server_view w))) (v_users (server_view w)).
Proof.
  intros Hf. unfold server_view. cbn [v_rooms v_users]. f_equal.
  - rewrite <- (index_update _ _ _ _ Hf). unfold Wld.data. cbn. unfold St.update_room, St.has_room_id.
    by destruct (update_first _ f _).
  - f_equal. destruct (St.update_room_keeps r f (Wld.data w) Hf) as (_ & Em & Es & _).
    unfold Wld.build_user_list. unfold Wld.data at 1. cbn. rewrite Em.
    apply list_omap_ext, Forall_Forall2_diag, Forall_true. intros [u x]. apply user_entry_same; [|done|done|done]. unfold St.get_user_status. by rewrite <- Es.
Qed.

(** ** Rooms *)

Definition room_change (f : Types.Room → Types.Room) : Prop :=
  ∀ x, Types.room_id (f x) = Types.room_id x ∧
       Types.room_effective_permissions (f x) = Types.room_effective_permissions x.

Definition room_changed (r : Types.Uuid) (f : Types.Room → Types.Room) (w : W) : W :=
  Wld.with_server (St.with_state_data (λ _, (St.update_room r f (Wld.data w)).2)) w.

Lemma connected_room_changed h r f w : room_change f → connected h w → connected h (room_changed r f w).
Proof.
  intros Hf Hc. pose proof (conn_ok _ _ Hc) as [Hwf Hp]. apply connected_state; [done| |].
  - apply St.update_room_wf; [|done]. intros x. apply Hf.
  - apply set_plain; [intros x; apply Hf|apply Hwf|done].
Qed.

Lemma room_unchanged r f w : r ∉ St.room_ids (Wld.data w) → room_changed r f w = w.
Proof. intros Hr. unfold room_changed. rewrite St.update_room_missing by done. by destruct w as [? ? []]. Qed.

Lemma told_room h w r f u ev g :
  connected h w → room_change f → Client.room_event_of u = Some ev → followable ev (server_view w) →
  meaning ev (server_view w) = mkView (alter f r (v_rooms (server_view w))) (v_users (server_view w)) →
  narrates h w (Wld.bcast u (Wld.with_persistence g (room_changed r f w))).
Proof.
  intros Hc Hf He Hfol Hm. eapply (narrates_bcast h u ev); [done|done| |done|].
  - rewrite Hm. change (server_view (Wld.with_persistence g ?x)) with (server_view x).
    apply view_update_room. intros x. apply Hf.
  - by apply connected_persistence, connected_room_changed.
Qed.

Lemma update_found r f w :
  room_change f → (St.update_room r f (Wld.data w)).1 = bool_decide (r ∈ St.room_ids (Wld.data w)).
Proof. intros Hf. by destruct (St.update_room_keeps r f (Wld.data w) (λ x, proj1 (Hf x))) as (_ & _ & _ & ->). Qed.

(** The handlers that change one room: [body] reports an unknown room, or
    stores the record, broadcasts [u] and answers. *)
Lemma told_room_handler h w r f g u ev (missing answer : ST W (result unit)) :
  connected h w → room_change f → Client.room_event_of u = Some ev → followable ev (server_view w) →
  meaning ev (server_view w) = mkView (alter f r (v_rooms (server_view w))) (v_users (server_view w)) →
  (∀ w, connected h w → narrates h w (missing w).2) → (∀ w, connected h w → narrates h w (answer w).2) →
  narrates h w ((found ← Wld.on_data (St.update_room r f);
                 if negb found then missing
                 else Handlers.persist_room r g;; (Wld.broadcast_state_update u ;? answer)) w).2.
Proof.
  intros Hc Hf He Hfol Hm Hmiss Hans. run. fold (room_changed r f w). rewrite update_found by done.
  case_bool_decide as Hr; cbn [negb].
  - destruct (persist_room_only r g (room_changed r f w)) as [g' Hg].
    destruct (Handlers.persist_room r g (room_changed r f w)) as [[] w2]. cbn [snd] in Hg. subst w2.
    rewrite Wld.bcast_run. cbn [fst snd].
    assert (narrates h w (Wld.bcast u (Wld.with_persistence g' (room_changed r f w)))) as Hn by (by eapply told_room).
    eapply narrates_trans; [exact Hn|]. apply Hans. by eapply narrates_connected.
  - rewrite room_unchanged by done. by apply Hmiss.
Qed.

Lemma told_rename h w room_id name sender :
  connected h w → narrates h w (Handlers.handle_rename_room room_id name sender w).2.
Proof.
  intros Hc. apply told_require; [done|]. intros _.
  apply told_bind; [done|apply narr_done|]. intros _. cbn [gets fst snd].
  eapply told_room_handler; [done|by intros []|cbn; by rewrite Types.uuid_from_room_id_from_uuid|done|done| |].
  - intros w' Hc'. by apply told_result.
  - intros w' Hc'. apply told_try; [done|by apply told_result|]. intros _ _ _. apply narr_done.
Qed.

Lemma told_describe h w room_id d sender :
  connected h w → narrates h w (Handlers.handle_set_room_description room_id d sender w).2.
Proof.
  intros Hc. apply told_require; [done|]. intros _.
  eapply told_room_handler; [done|by intros []|cbn; by rewrite Types.uuid_from_room_id_from_uuid|done|done| |].
  - intros w' Hc'. by apply told_result.
  - intros w' Hc'. apply told_try; [done|by apply told_result|]. intros _ _ _. apply narr_done.
Qed.

(** The update repeats the ids of the request: the room's must be usable. *)
Lemma told_move h w room_id new_parent_id sender :
  is_Some (room_id ≫= Types.uuid_from_room_id) →
  connected h w → narrates h w (Handlers.handle_move_room room_id new_parent_id sender w).2.
Proof.
  intros [r Hr] Hc. apply told_require; [done|]. intros _. apply told_require; [done|]. intros _.
  apply told_bind; [done|apply narr_done|]. intros _. cbn [gets fst snd].
  apply told_bind; [done|apply narr_done|]. intros _. cbn [gets fst snd].
  destruct (bool_decide _); [by apply told_result|].
  apply told_bind; [done|apply narr_done|]. intros _. cbn [gets fst snd].
  destruct (Handlers.would_cycle _ _ _ _ _); [by apply told_result|].
  assert (Types.room_or_root room_id = r) as -> by (unfold Types.room_or_root; by rewrite Hr).
  eapply told_room_handler; [done|by intros []|cbn; by rewrite Hr|done|done| |].
  - intros w' Hc'. by apply told_result.
  - intros w' Hc'. apply told_try; [done|by apply told_result|]. intros _ _ _. apply narr_done.
Qed.

Lemma told_create h w u cr sender :
  u ∉ St.room_ids (Wld.data w) →
  connected h w → narrates h w (Handlers.handle_create_room u cr sender w).2.
Proof.
  intros Hu Hc. apply told_require; [done|]. intros _.
  assert (∀ p, narrates h w (Ops.apply_create_room u (Proto.cr_name cr) p (Proto.cr_description cr) w).2) as Hn.
  { intros p. unfold Ops.apply_create_room. unfold_goal_st. destruct (match p with Some _ => _ | None => _ end); [apply narr_done|].
    run. rewrite Ops.map_err_run. run.
    eapply narrates_bcast; [cbn [Client.room_event_of mbind option_bind]; by rewrite Types.room_from_to_proto| | |done|].
    - unfold followable, server_view. cbn [v_rooms Types.room_id St.new_room]. rewrite index_lookup.
      destruct (List.find _ _) as [x|] eqn:Ex; [|done]. apply find_Some_iff in Ex as [Hx Hp%bool_decide_eq_true].
      destruct Hu. subst u. by apply list_elem_of_fmap_2.
    - unfold server_view. cbn [v_rooms v_users meaning]. f_equal.
      unfold Wld.data. cbn [Wld.with_persistence Wld.with_server Wld.server St.with_state_data St.state_data St.create_room_with_parent_desc St.with_rooms St.rooms].
      rewrite index_snoc, decide_False by done. done.
    - pose proof (conn_ok _ _ Hc) as [Hwf Hp]. apply connected_persistence, (connected_state h w); [done| |].
      + by apply St.add_room_wf.
      + cbn. apply Forall_app. split; [done|]. by constructor. }
  specialize (Hn (Proto.cr_parent_id cr ≫= Types.uuid_from_room_id)).
  apply told_bind; [done|done|]. intros Hc'.
  destruct (Ops.apply_create_room _ _ _ _ w) as [[x|msg] w1]; cbn [fst snd] in *;
    (apply told_try; [done|by apply told_result|]; intros _ _ _; apply narr_done).
Qed.

(** ** Users *)

(** The worlds that differ only in what is known about user [u]. *)
Record about (u : N) (w w1 : W) : Prop := {
  about_rooms : St.rooms (Wld.data w1) = St.rooms (Wld.data w);
  about_place : ∀ k, k ≠ u → St.get_user_room (Wld.data w1) k = St.get_user_room (Wld.data w) k;
  about_status : ∀ k, k ≠ u → St.get_user_status (Wld.data w1) k = St.get_user_status (Wld.data w) k;
  about_members : ∀ k, k ≠ u → St.get_member (Wld.server w1) k = St.get_member (Wld.server w) k;
  about_handles : ∀ k, k ≠ u → Wld.handle_at w1 k = Wld.handle_at w k;
  about_identities : ∀ k m, k ≠ u → St.get_member (Wld.server w) k = Some m →
    Wld.identity_at w1 (St.m_identity m) = Wld.identity_at w (St.m_identity m);
}.

Lemma member_handle w k m c :
  Session.wf_members (Wld.server w) → St.get_member (Wld.server w) k = Some m → St.binding m = St.Client c → c = k.
Proof. intros Hm Hk Hb. by apply (Hm k m). Qed.

Lemma about_entry u w w1 k r :
  Session.wf_members (Wld.server w) → about u w w1 → k ≠ u → Wld.user_entry w1 (k, r) = Wld.user_entry w (k, r).
Proof.
  intros Hm [A1 A2 A3 A4 A5 A6] Hk. apply user_entry_same; [by apply A3|by apply A4| |by intros m; apply A6].
  intros m c Hg Hb. assert (c = k) as -> by (by eapply member_handle). by rewrite A5.
Qed.

(** The entry of one user. *)
Definition entry (w : W) (k : N) : option Types.User :=
  St.get_user_room (Wld.data w) k ≫= λ r, Wld.user_entry w (k, r).

Lemma view_entry w k : server_ok w → v_users (server_view w) !! k = entry w k.
Proof. apply server_view_user. Qed.

(** A change about one user is told by what happens to its entry. *)
Lemma view_about u w w1 vm :
  server_ok w → server_ok w1 → Session.wf_members (Wld.server w) → about u w w1 →
  (∀ k, k ≠ u → vm !! k = v_users (server_view w) !! k) → vm !! u = entry w1 u →
  server_view w1 = mkView (v_rooms (server_view w)) vm.
Proof.
  intros Hok Hok1 Hm Ha Hne Hu. apply view_users_ext; [done|apply Ha|]. intros k.
  destruct (decide (k = u)) as [->|Hk]; [by rewrite Hu|].
  rewrite Hne by done. rewrite view_entry by done. unfold entry. rewrite (about_place u w w1 Ha k Hk).
  destruct (St.get_user_room _ k); [|done]. cbn. by apply (about_entry u).
Qed.

(** Changed flags. *)
Lemma view_status u w w1 m d sm el :
  server_ok w → server_ok w1 → Session.wf_members (Wld.server w) → about u w w1 →
  entry w1 u = Client.set_status m d sm el <$> entry w u →
  server_view w1 = meaning (Client.UserStatusChanged u m d sm el) (server_view w).
Proof.
  intros Hok Hok1 Hm Ha Hu. apply (view_about u); [done..| |].
  - intros k Hk. by rewrite lookup_alter_ne.
  - by rewrite lookup_alter_eq, view_entry.
Qed.

Lemma view_moved u w w1 (r : Types.Uuid) :
  server_ok w → server_ok w1 → Session.wf_members (Wld.server w) → about u w w1 →
  entry w1 u = Client.set_room r <$> entry w u →
  server_view w1 = meaning (Client.UserMoved u (Some r)) (server_view w).
Proof.
  intros Hok Hok1 Hm Ha Hu. apply (view_about u); [done..| |].
  - intros k Hk. by rewrite lookup_alter_ne.
  - by rewrite lookup_alter_eq, view_entry.
Qed.

Lemma view_left u w w1 :
  server_ok w → server_ok w1 → Session.wf_members (Wld.server w) → about u w w1 → entry w1 u = None →
  server_view w1 = meaning (Client.UserLeft u) (server_view w).
Proof.
  intros Hok Hok1 Hm Ha Hu. apply (view_about u); [done..| |].
  - intros k Hk. by rewrite lookup_delete_ne.
  - by rewrite lookup_delete_eq.
Qed.

Lemma view_joined u x w w1 :
  server_ok w → server_ok w1 → Session.wf_members (Wld.server w) → about u w w1 →
  entry w u = None → entry w1 u = Some x → Types.user_id x = u →
  server_view w1 = meaning (Client.UserJoined x) (server_view w).
Proof.
  intros Hok Hok1 Hm Ha H0' H1' Hx. apply (view_about u); [done..| |].
  - intros k Hk. rewrite Hx, view_entry, H0' by done. by rewrite lookup_insert_ne.
  - by rewrite Hx, view_entry, H0', lookup_insert_eq by done.
Qed.

(** ** Flags *)

Lemma wf_set_status h w u st :
  connected h w → connected h (Wld.with_server (St.with_state_data (St.set_user_status u st)) w).
Proof.
  intros Hc. pose proof (conn_ok _ _ Hc) as [Hwf Hp].
  apply (connected_state h w (St.set_user_status u st (Wld.data w))); [done|by apply St.set_user_status_wf|done].
Qed.

Lemma about_set_status w u st : about u w (Wld.with_server (St.with_state_data (St.set_user_status u st)) w).
Proof.
  split; [done|done| |done|done|done]. intros k Hk.
  change (Wld.data (Wld.with_server (St.with_state_data (St.set_user_status u st)) w)) with (St.set_user_status u st (Wld.data w)).
  rewrite St.get_user_status_set. by rewrite (proj2 (N.eqb_neq _ _) Hk).
Qed.

(** A member that is a connection. *)
Definition client_member (w : W) (u : N) : Prop :=
  ∀ m, St.get_member (Wld.server w) u = Some m → St.binding m = St.Client u.

Lemma told_set_user_status h w m d sender :
  client_member w sender → connected h w → narrates h w (Handlers.handle_set_user_status m d sender w).2.
Proof.
  intros Hm Hc. unfold Handlers.handle_set_user_status. run.
  set (st := St.mkUserStatus m d _ _).
  apply (narrates_bcast h _ (Client.UserStatusChanged sender m d (St.server_muted (Wld.handle_at w sender))
    (St.is_superuser (Wld.handle_at w sender)))); [done|done| |done|by apply wf_set_status].
  apply view_status; [apply Hc|apply (wf_set_status h w sender st Hc)|apply Hc|apply about_set_status|].
  unfold entry.
  change (Wld.data (Wld.with_server (St.with_state_data (St.set_user_status sender st)) w)) with (St.set_user_status sender st (Wld.data w)).
  change (St.get_user_room (St.set_user_status sender st (Wld.data w))) with (St.get_user_room (Wld.data w)).
  destruct (St.get_user_room (Wld.data w) sender) as [r|]; [|done]. cbn [mbind option_bind].
  unfold Wld.user_entry.
  change (Wld.data (Wld.with_server (St.with_state_data (St.set_user_status sender st)) w)) with (St.set_user_status sender st (Wld.data w)).
  rewrite St.get_user_status_set, N.eqb_refl.
  change (St.get_member (Wld.server (Wld.with_server (St.with_state_data (St.set_user_status sender st)) w)) sender) with (St.get_member (Wld.server w) sender).
  destruct (St.get_member (Wld.server w) sender) as [x|] eqn:Ex; [|done]. cbn [mbind option_bind].
  unfold Wld.is_controller, Wld.is_superuser. rewrite (Hm x Ex).
  change (Wld.handle_at (Wld.with_server (St.with_state_data (St.set_user_status sender st)) w)) with (Wld.handle_at w).
  by destruct (St.is_controller _).
Qed.

(** A world where only handles differ, and only the flags of [u]. *)
Record reflagged (u : N) (w w1 : W) : Prop := {
  rf_world : w1 = Wld.with_handles (λ _, Wld.handles w1) w;
  rf_others : ∀ k, k ≠ u → Wld.handle_at w1 k = Wld.handle_at w k;
  rf_controller : St.is_controller (Wld.handle_at w1 u) = St.is_controller (Wld.handle_at w u);
}.

Lemma connected_handles h w f : connected h w → connected h (Wld.with_handles f w).
Proof. intros [[H1 H2] H3 H4 H5 H6]. by split. Qed.

Lemma reflagged_set u f w :
  (∀ c, St.is_controller (f c) = St.is_controller c) →
  reflagged u w (Wld.with_handles (<[u := f (Wld.handle_at w u)]>) w).
Proof.
  intros Hf. split; [done| |].
  - intros k Hk. unfold Wld.handle_at. cbn. by rewrite lookup_insert_ne.
  - unfold Wld.handle_at at 1. cbn. by rewrite lookup_insert_eq, <- (Hf (Wld.handle_at w u)).
Qed.

Lemma handle_at_set u x w : Wld.handle_at (Wld.with_handles (<[u := x]>) w) u = x.
Proof. unfold Wld.handle_at. cbn. by rewrite lookup_insert_eq. Qed.

Lemma reflagged_trans u w w1 w2 : reflagged u w w1 → reflagged u w1 w2 → reflagged u w w2.
Proof.
  intros [E1 O1 C1] [E2 O2 C2]. split; [|intros k Hk; by rewrite O2, O1|congruence].
  rewrite E2, E1. done.
Qed.

Lemma told_flags h w w1 u :
  client_member w u → connected h w → reflagged u w w1 →
  narrates h w (Wld.bcast (Handlers.user_status_changed w1 u (St.server_muted (Wld.handle_at w1 u))
    (St.is_superuser (Wld.handle_at w1 u))) w1).
Proof.
  intros Hm Hc [E O C]. assert (connected h w1) as Hc1 by (rewrite E; by apply connected_handles).
  assert (Wld.data w1 = Wld.data w) as Ed by (by rewrite E).
  assert (Wld.server w1 = Wld.server w) as Es by (by rewrite E).
  assert (Wld.identities w1 = Wld.identities w) as Ei by (by rewrite E).
  set (st := St.get_user_status (Wld.data w1) u).
  apply (narrates_bcast h _ (Client.UserStatusChanged u (St.us_is_muted st) (St.us_is_deafened st)
    (St.server_muted (Wld.handle_at w1 u)) (St.is_superuser (Wld.handle_at w1 u))));
    [done|done| |unfold updates; by rewrite E|done].
  apply view_status; [apply Hc|apply Hc1|apply Hc| |].
  - split; rewrite ?Ed, ?Es; try done. intros k m _ _. unfold Wld.identity_at. by rewrite Ei.
  - unfold st, entry. rewrite Ed. destruct (St.get_user_room (Wld.data w) u) as [r|]; [|done]. cbn [mbind option_bind].
    unfold Wld.user_entry. rewrite Ed, Es. destruct (St.get_member (Wld.server w) u) as [x|] eqn:Ex; [|done].
    cbn [mbind option_bind]. unfold Wld.is_controller, Wld.is_superuser, Wld.identity_at. rewrite (Hm x Ex), C, Ei.
    by destruct (St.is_controller (Wld.handle_at w u)).
Qed.

Lemma client_is_member w u t :
  Session.wf_members (Wld.server w) → St.get_client (Wld.server w) u = Some t → t = u ∧ client_member w u.
Proof.
  intros Hm Hg. unfold St.get_client in Hg. destruct (St.members (Wld.server w) !! u) as [m|] eqn:Em; [|done].
  cbn in Hg. unfold St.member_client in Hg. destruct (St.binding m) as [c|] eqn:Eb; [|done]. injection Hg as <-.
  destruct (Hm _ _ Em) as [_ Hb]. pose proof (Hb c Eb) as ->. split; [done|]. intros m' Hm'.
  unfold St.get_member in Hm'. congruence.
Qed.

Lemma told_set_server_mute h w target muted sender :
  connected h w → narrates h w (Handlers.handle_set_server_mute target muted sender w).2.
Proof.
  intros Hc. unfold Handlers.handle_set_server_mute.
  apply told_bind; [done|apply narr_done|]. intros _. cbn [gets fst snd].
  apply told_require; [done|]. intros _. apply told_bind; [done|apply narr_done|]. intros _. cbn [gets fst snd].
  destruct (St.get_client (Wld.server w) target) as [t|] eqn:Et.
  2: { apply told_bind; [done|apply narr_done|]. intros _. by apply told_result. }
  destruct (client_is_member w target t (conn_members _ _ Hc) Et) as [-> Hm].
  unfold_goal_st. set (w1 := Wld.with_handles (<[target := St.with_manually_server_muted (λ _, muted) _]>) w).
  set (eff := if muted then true else _).
  set (w2 := Wld.with_handles (<[target := St.with_server_muted (λ _, eff) _]>) w1).
  assert (reflagged target w w2) as Hr.
  { apply (reflagged_trans target w w1).
    - apply (reflagged_set target (St.with_manually_server_muted (λ _, muted)) w). by intros [].
    - apply (reflagged_set target (St.with_server_muted (λ _, eff)) w1). by intros []. }
  pose proof (told_flags h w w2 target Hm Hc Hr) as Hn.
  assert (St.server_muted (Wld.handle_at w2 target) = eff) as He by (unfold w2; by rewrite handle_at_set).
  rewrite He in Hn. rewrite Wld.bcast_run. cbn [fst snd].
  eapply narrates_trans; [exact Hn|]. apply told_result. by eapply narrates_connected.
Qed.

Lemma told_elevate h w password sender :
  client_member w sender → connected h w → narrates h w (Handlers.handle_elevate password sender w).2.
Proof.
  intros Hm Hc. unfold Handlers.handle_elevate. apply told_require; [done|]. intros _.
  apply told_bind; [done|apply narr_done|]. intros _. cbn [gets fst snd].
  destruct (Persist.get_sudo_password _) as [sudo|]; [|by apply told_result].
  destruct (ext_bcrypt_verify password sudo) as [[]|]; [|by apply told_result|by apply told_result].
  unfold_goal_st. set (w1 := Wld.with_handles _ w).
  assert (reflagged sender w w1) as Hr.
  { apply (reflagged_set sender (St.with_is_superuser (λ _, true)) w). by intros []. }
  pose proof (told_flags h w w1 sender Hm Hc Hr) as Hn.
  assert (St.is_superuser (Wld.handle_at w1 sender) = true) as He by (unfold w1; by rewrite handle_at_set).
  rewrite He in Hn. rewrite Wld.bcast_run. cbn [fst snd].
  eapply narrates_trans; [exact Hn|]. apply told_result. by eapply narrates_connected.
Qed.

Lemma told_reevaluate h w member room :
  connected h w → narrates h w (Ops.reevaluate_member_mute member room w).2.
Proof.
  intros Hc. unfold Ops.reevaluate_member_mute. apply told_bind; [done|apply narr_done|]. intros _. cbn [gets fst snd].
  destruct (St.get_client (Wld.server w) member) as [t|] eqn:Et; [|apply narr_done].
  destruct (client_is_member w member t (conn_members _ _ Hc) Et) as [-> Hm].
  unfold_goal_st. set (sm := negb _ || _). destruct (Bool.eqb _ _); [apply narr_done|].
  set (w1 := Wld.with_handles _ w).
  assert (reflagged member w w1) as Hr.
  { apply (reflagged_set member (St.with_server_muted (λ _, sm)) w). by intros []. }
  pose proof (told_flags h w w1 member Hm Hc Hr) as Hn.
  assert (St.server_muted (Wld.handle_at w1 member) = sm) as He by (unfold w1; by rewrite handle_at_set).
  rewrite He in Hn. rewrite Wld.ignore_run, Wld.bcast_run. exact Hn.
Qed.


(** A change of room keeps the rest of the entry. *)
Lemma entry_at w u r r' : Wld.user_entry w (u, r') = Client.set_room r' <$> Wld.user_entry w (u, r).
Proof.
  unfold Wld.user_entry. destruct (St.get_member (Wld.server w) u) as [m|]; [|done]. cbn [mbind option_bind].
  by destruct (Wld.is_controller w m).
Qed.

(** Someone not in a room is not in the list either when it is put in one. *)
Definition hidden_unless_present (w : W) (u : N) : Prop :=
  St.get_user_room (Wld.data w) u = None → ∀ r, Wld.user_entry w (u, r) = None.

Lemma entry_moved w w1 u r :
  St.get_user_room (Wld.data w1) u = Some r → hidden_unless_present w u →
  Wld.user_entry w1 (u, r) = Wld.user_entry w (u, r) → entry w1 u = Client.set_room r <$> entry w u.
Proof.
  intros Hr Hp He. unfold entry. rewrite Hr. cbn [mbind option_bind]. rewrite He.
  destruct (St.get_user_room (Wld.data w) u) as [r0|] eqn:E0; [apply entry_at|]. by rewrite (Hp E0).
Qed.

(** The world after a change of room. *)
Definition placed (u : N) (r : Types.Uuid) (w : W) : W := Wld.with_server (St.with_state_data (St.set_user_room u r)) w.

Lemma connected_placed h u r w : r ∈ St.room_ids (Wld.data w) → connected h w → connected h (placed u r w).
Proof.
  intros Hr Hc. pose proof (conn_ok _ _ Hc) as [Hwf Hp].
  apply (connected_state h w (St.set_user_room u r (Wld.data w))); [done|by apply St.set_user_room_wf|done].
Qed.

Lemma about_placed u r w : about u w (placed u r w).
Proof.
  split; [done| |done|done|done|done]. intros k Hk.
  change (Wld.data (placed u r w)) with (St.set_user_room u r (Wld.data w)).
  by rewrite St.get_user_room_set, (proj2 (N.eqb_neq _ _) Hk).
Qed.

Lemma placed_at u r w : St.get_user_room (Wld.data (placed u r w)) u = Some r.
Proof.
  change (Wld.data (placed u r w)) with (St.set_user_room u r (Wld.data w)). by rewrite St.get_user_room_set, N.eqb_refl.
Qed.

Lemma about_reflagged u w w1 w2 : about u w w1 → reflagged u w1 w2 → about u w w2.
Proof.
  intros [A1 A2 A3 A4 A5 A6] [E O _].
  assert (Wld.data w2 = Wld.data w1) as Ed by (by rewrite E).
  assert (Wld.server w2 = Wld.server w1) as Es by (by rewrite E).
  assert (Wld.identities w2 = Wld.identities w1) as Ei by (by rewrite E).
  split; rewrite ?Ed, ?Es; try done.
  - intros k Hk. by rewrite O, A5.
  - intros k m Hk Hm. rewrite <- (A6 k m Hk Hm). unfold Wld.identity_at. by rewrite Ei.
Qed.

Lemma about_persistence u w w1 g : about u w w1 → about u w (Wld.with_persistence g w1).
Proof. intros [A1 A2 A3 A4 A5 A6]. by split. Qed.

Lemma save_last_room_only u r w : ∃ g, (Handlers.save_last_room u r w).2 = Wld.with_persistence g w.
Proof.
  unfold Handlers.save_last_room. unfold_goal_st.
  destruct (St.get_user_public_key _ _) as [k|]; [destruct (Persist.is_registered _ k)|].
  - run. by eexists.
  - exists id. by destruct w.
  - exists id. by destruct w.
Qed.

(** Entering a room is told by one update, unless the mute flag changes on the
    way: that change is broadcast before the move is, with the hash of the
    state after it. *)
Definition same_mute_in (w : W) (sender : N) (r : Types.Uuid) : Prop :=
  Ops.should_mute w sender r = St.server_muted (Wld.handle_at w sender).

Lemma told_join h w room_id sender :
  hidden_unless_present w sender → same_mute_in w sender (Types.room_or_root room_id) →
  connected h w → narrates h w (Handlers.handle_join_room room_id sender w).2.
Proof.
  intros Hp Hsm Hc. unfold Handlers.handle_join_room. set (r := Types.room_or_root room_id) in *.
  apply told_require; [done|]. intros _. apply told_bind; [done|apply narr_done|]. intros _. cbn [gets fst snd].
  destruct (List.find (St.has_room_id r) (St.rooms (Wld.data w))) as [x|] eqn:Ex; [|by apply told_result].
  assert (r ∈ St.room_ids (Wld.data w)) as Hr by (apply St.find_room_ids; eauto).
  unfold Handlers.enter_mute. unfold_goal_st. fold (placed sender r w).
  change (negb (Perm.contains (Acl.evaluate_user_permissions (placed sender r w) sender r) Perm.SPEAK)
    || St.manually_server_muted (Wld.handle_at (placed sender r w) sender)) with (Ops.should_mute w sender r).
  rewrite Hsm. change (Wld.handle_at (placed sender r w) sender) with (Wld.handle_at w sender).
  rewrite eqb_reflx. set (w1 := Wld.with_handles _ (placed sender r w)).
  assert (reflagged sender (placed sender r w) w1) as Hf.
  { apply (reflagged_set sender (St.with_server_muted (λ _, St.server_muted (Wld.handle_at w sender))) (placed sender r w)).
    by intros []. }
  assert (connected h w1) as Hc1 by (by apply connected_handles, connected_placed).
  destruct (save_last_room_only sender r w1) as [g Hg].
  destruct (Handlers.save_last_room sender r w1) as [[] w2]. cbn [snd] in Hg. subst w2.
  rewrite Wld.bcast_run. cbn [fst snd].
  assert (Wld.handle_at w1 sender = Wld.handle_at w sender) as Hh.
  { unfold w1. rewrite handle_at_set. by destruct (Wld.handle_at w sender). }
  assert (narrates h w (Wld.bcast (Proto.UserMoved (Some (Proto.mkUserId sender)) (Some (Types.room_id_from_uuid r)))
    (Wld.with_persistence g w1))) as Hn.
  { apply (narrates_bcast h _ (Client.UserMoved sender (Some r))); [by cbn; rewrite Types.uuid_from_room_id_from_uuid|done| |done|by apply connected_persistence].
    apply view_moved; [apply Hc|exact (conn_ok _ _ (connected_persistence h g w1 Hc1))|apply Hc| |].
    - apply about_persistence, (about_reflagged sender w (placed sender r w)); [apply about_placed|exact Hf].
    - apply entry_moved; [apply placed_at|done|]. apply user_entry_same; [done|done| |done].
      intros m c Hm Hb. assert (c = sender) as -> by (eapply member_handle; [apply Hc|done|done]).
      change (Wld.handle_at (Wld.with_persistence g w1)) with (Wld.handle_at w1). by rewrite Hh. }
  eapply narrates_trans; [exact Hn|].
  pose proof (told_result h sender "JoinRoom" true ("Joined '" +:+ Types.room_name x +:+ "'")%string _
    (narrates_connected _ _ _ Hc Hn)) as Hres.
  by destruct (Auth.send_command_result _ _ _ _ _) as [[]].
Qed.

(** ** Participants *)

Lemma told_set_participant_status h w u m d :
  (∀ x, St.get_member (Wld.server w) u = Some x → ∃ o, St.binding x = St.Owned o) →
  connected h w → narrates h w (Handlers.set_participant_status_core u m d w).2.
Proof.
  intros Ho Hc. unfold Handlers.set_participant_status_core. run. set (st := St.mkUserStatus m d false false).
  apply (narrates_bcast h _ (Client.UserStatusChanged u m d false false)); [done|done| |done|by apply wf_set_status].
  apply view_status; [apply Hc|apply (wf_set_status h w u st Hc)|apply Hc|apply about_set_status|].
  unfold entry.
  change (Wld.data (Wld.with_server (St.with_state_data (St.set_user_status u st)) w)) with (St.set_user_status u st (Wld.data w)).
  change (St.get_user_room (St.set_user_status u st (Wld.data w))) with (St.get_user_room (Wld.data w)).
  destruct (St.get_user_room (Wld.data w) u) as [r|]; [|done]. cbn [mbind option_bind].
  unfold Wld.user_entry.
  change (Wld.data (Wld.with_server (St.with_state_data (St.set_user_status u st)) w)) with (St.set_user_status u st (Wld.data w)).
  rewrite St.get_user_status_set, N.eqb_refl.
  change (St.get_member (Wld.server (Wld.with_server (St.with_state_data (St.set_user_status u st)) w)) u)
    with (St.get_member (Wld.server w) u).
  destruct (St.get_member (Wld.server w) u) as [x|] eqn:Ex; [|done]. cbn [mbind option_bind].
  unfold Wld.is_controller, Wld.is_superuser. by destruct (Ho x eq_refl) as [o ->].
Qed.

Lemma participant_owned w u o :
  St.is_participant_of (Wld.server w) u o = true →
  ∀ x, St.get_member (Wld.server w) u = Some x → ∃ o', St.binding x = St.Owned o'.
Proof.
  unfold St.is_participant_of, St.get_member, St.owned_by. intros Hp x Hx. rewrite Hx in Hp.
  destruct (St.binding x); [done|]. eauto.
Qed.

Lemma told_participant h w sender u c body :
  connected h w →
  (St.is_participant_of (Wld.server w) u (St.Connection sender) = true → narrates h w (body w).2) →
  narrates h w (Handlers.require_participant sender u c body w).2.
Proof.
  intros Hc Hb. unfold Handlers.require_participant. unfold_goal_st.
  destruct (St.is_participant_of _ _ _); cbn [negb]; [by apply Hb|by apply told_result].
Qed.

Lemma told_participant_status h w u m d sender :
  connected h w → narrates h w (Handlers.handle_set_participant_status u m d sender w).2.
Proof.
  intros Hc. apply told_participant; [done|]. intros Hp. apply told_set_participant_status; [|done].
  by eapply participant_owned.
Qed.

(** Two cases: the participant is in a room and moves, or is announced. *)
Lemma told_move_participant h w u room_id sender :
  (St.get_user_room (Wld.data w) u = None → St.us_is_elevated (St.get_user_status (Wld.data w) u) = false) →
  connected h w → narrates h w (Handlers.handle_move_participant u room_id sender w).2.
Proof.
  intros Hel Hc. apply told_participant; [done|]. intros Hp. set (r := Types.room_or_root room_id).
  assert (narrates h w (Handlers.move_participant_to_room u r w).2) as Hn.
  { unfold Handlers.move_participant_to_room. unfold_goal_st. destruct (existsb _ _) eqn:Er; cbn [negb]; [|apply narr_done].
    assert (r ∈ St.room_ids (Wld.data w)) as Hr by (by apply St.existsb_has_room_id).
    fold (placed u r w). assert (connected h (placed u r w)) as Hc1 by (by apply connected_placed).
    unfold Handlers.is_present. case_bool_decide as Hin.
    - run. apply (narrates_bcast h _ (Client.UserMoved u (Some r)));
        [by cbn; rewrite Types.uuid_from_room_id_from_uuid|done| |done|done].
      apply view_moved; [apply Hc|apply Hc1|apply Hc|apply about_placed|].
      apply entry_moved; [apply placed_at| |by apply user_entry_same].
      intros E. rewrite E in Hin. by destruct Hin.
    - change (St.get_member (Wld.server (placed u r w)) u) with (St.get_member (Wld.server w) u).
      destruct (St.get_member (Wld.server w) u) as [m|] eqn:Em; cbn [snd].
      2: { unfold St.is_participant_of in Hp. unfold St.get_member in Em. by rewrite Em in Hp. }
      destruct (participant_owned w u _ Hp m Em) as [o Ho].
      assert (St.get_user_room (Wld.data w) u = None) as Hout by (destruct (St.get_user_room _ u); [by destruct Hin|done]).
      set (x := Types.mkUser u (St.display_name (Wld.identity_at w (St.m_identity m))) r
        (St.us_is_muted (St.get_user_status (Wld.data w) u)) (St.us_is_deafened (St.get_user_status (Wld.data w) u))
        (St.us_server_muted (St.get_user_status (Wld.data w) u)) (St.us_is_elevated (St.get_user_status (Wld.data w) u))
        (St.id_groups (Wld.identity_at w (St.m_identity m))) (St.label (Wld.identity_at w (St.m_identity m)))).
      run. change (Proto.mkUser _ _ _ _ _ _ _ _ _) with (Types.user_to_proto x).
      apply (narrates_bcast h _ (Client.UserJoined x));
        [cbn [Client.room_event_of mbind option_bind]; by rewrite Types.user_from_to_proto|done| |done|done].
      apply (view_joined u); [apply Hc|apply Hc1|apply Hc|apply about_placed|unfold entry; by rewrite Hout| |done].
      unfold entry. rewrite placed_at. cbn [mbind option_bind]. unfold Wld.user_entry.
      change (St.get_member (Wld.server (placed u r w)) u) with (St.get_member (Wld.server w) u). rewrite Em.
      cbn [mbind option_bind]. unfold Wld.is_controller, Wld.is_superuser. rewrite Ho.
      unfold x. by rewrite (Hel Hout). }
  apply told_try; [done|exact Hn|]. intros moved _ Hc'. destruct moved; by apply told_result.
Qed.

(** The world after someone left. *)
Definition departed_world (u : N) (w : W) : W :=
  Wld.with_server (λ s, St.with_state_data (St.remove_user_membership u) (St.with_members (delete u) s)) w.

Lemma connected_departed h u w : h ≠ u → connected h w → connected h (departed_world u w).
Proof.
  intros Hne Hc. pose proof Hc as [[H1 H2] H3 H4 H5 H6].
  assert (Session.wf_members (Wld.server (departed_world u w))) as Hm.
  { intros k m Hk. cbn in Hk. apply lookup_delete_Some in Hk as [_ Hk]. by apply H3. }
  split; [split; [by apply St.remove_user_membership_wf|done]|done| |done|done].
  apply list_elem_of_omap in H4 as ([k m] & Hin & Hcl). apply elem_of_map_to_list in Hin.
  assert (h = k) as -> by (unfold St.member_client in Hcl; cbn in Hcl; destruct (St.binding m) eqn:Eb; [|done];
    injection Hcl as <-; by apply (H3 k m)).
  apply list_elem_of_omap. exists (k, m). split; [|done]. apply elem_of_map_to_list. cbn. by rewrite lookup_delete_ne.
Qed.

Lemma about_departed u w : about u w (departed_world u w).
Proof.
  split; [done| | | |done|done]; intros k Hk.
  - change (Wld.data (departed_world u w)) with (St.remove_user_membership u (Wld.data w)).
    by rewrite St.get_user_room_remove, (proj2 (N.eqb_neq _ _) Hk).
  - change (Wld.data (departed_world u w)) with (St.remove_user_membership u (Wld.data w)).
    by rewrite St.get_user_status_remove, (proj2 (N.eqb_neq _ _) Hk).
  - unfold St.get_member. cbn. by rewrite lookup_delete_ne.
Qed.

Lemma departed_entry u w : entry (departed_world u w) u = None.
Proof.
  unfold entry. change (Wld.data (departed_world u w)) with (St.remove_user_membership u (Wld.data w)).
  by rewrite St.get_user_room_remove, N.eqb_refl.
Qed.

Lemma told_departed h u w : h ≠ u → connected h w → narrates h w (Wld.bcast (Session.user_left u) (departed_world u w)).
Proof.
  intros Hne Hc. pose proof (connected_departed h u w Hne Hc) as Hc1.
  apply (narrates_bcast h _ (Client.UserLeft u)); [done|done| |done|done].
  apply view_left; [apply Hc|apply Hc1|apply Hc|apply about_departed|apply departed_entry].
Qed.

(** Somebody the clients do not list may leave without a word. *)
Lemma departed_unseen h u w : h ≠ u → connected h w → entry w u = None → narrates h w (departed_world u w).
Proof.
  intros Hne Hc He. pose proof (connected_departed h u w Hne Hc) as Hc1.
  apply narrates_quiet; [|done|done].
  assert (server_view (departed_world u w) = mkView (v_rooms (server_view w)) (v_users (server_view w))) as E; [|exact E].
  apply (view_about u); [apply Hc|apply Hc1|apply Hc|apply about_departed|done|].
  rewrite view_entry by apply Hc. by rewrite He, departed_entry.
Qed.

Lemma told_unregister_participant h w u sender :
  h ≠ u → connected h w → narrates h w (Handlers.handle_unregister_participant u sender w).2.
Proof.
  intros Hne Hc. apply told_participant; [done|]. intros _. apply told_try; [done| |intros _ _ Hc'; by apply told_result].
  unfold Handlers.remove_participant. run. fold (departed_world u w). unfold Handlers.is_present.
  change (Wld.with_server (St.with_state_data (St.remove_user_membership u))
    (Wld.with_server (λ _, (St.remove_client u (Wld.server w)).2) w)) with (departed_world u w).
  case_bool_decide as Hin.
  - run. by apply told_departed.
  - cbn [snd]. apply departed_unseen; [done|done|]. unfold entry.
    destruct (St.get_user_room (Wld.data w) u); [by destruct Hin|done].
Qed.

(** ** A new participant *)

(** The next id is nobody's, and no identity is located there. *)
Record fresh_id (u : N) (w : W) : Prop := {
  fresh_member : St.get_member (Wld.server w) u = None;
  fresh_room : St.get_user_room (Wld.data w) u = None;
  fresh_status : St.get_user_status (Wld.data w) u = St.default_status;
  fresh_identity : ∀ k m, St.get_member (Wld.server w) k = Some m → St.m_identity m ≠ u;
}.

Lemma told_register_participant h w name label sender :
  fresh_id (St.next_user_id (Wld.server w)) w →
  connected h w → narrates h w (Handlers.handle_register_participant name label sender w).2.
Proof.
  intros [F1 F2 F3 F4] Hc. unfold Handlers.handle_register_participant.
  apply told_bind; [done|apply narr_done|]. intros _. cbn [gets fst snd]. set (groups := match _ with Some _ => _ | None => _ end).
  apply told_try; [done| |].
  2: { intros u _ Hc'. run. by apply sent_quiet. }
  unfold Handlers.create_participant. run. set (u := St.next_user_id (Wld.server w)) in *. cbn [fst].
  set (i := St.Identity_participant name None label groups).
  match goal with |- context [Wld.bcast ?U ?W1] => set (w1 := W1); set (up := U) end.
  assert (connected h w1) as Hc1.
  { pose proof Hc as [[H1 H2] H3 H4 H5 H6]. split; [split|..].
    - apply (St.set_user_room_wf u Types.ROOT_ROOM_UUID (Wld.data w)); [apply (St.wf_root _ H1)|exact H1].
    - exact H2.
    - intros k m Hk. cbn in Hk. apply lookup_insert_Some in Hk as [[<- <-]|[_ Hk]]; [by split|by apply H3].
    - apply list_elem_of_omap in H4 as ([k m] & Hin & Hcl). apply elem_of_map_to_list in Hin.
      apply list_elem_of_omap. exists (k, m). split; [|done]. apply elem_of_map_to_list. cbn.
      rewrite lookup_insert_ne; [done|]. intros E. cbn in E. unfold St.get_member in F1. fold u in E. rewrite E in F1.
      by rewrite Hin in F1.
    - exact H5.
    - exact H6. }
  set (x := Types.mkUser u name Types.ROOT_ROOM_UUID false false false false groups label).
  apply (narrates_bcast h _ (Client.UserJoined x)); [|done| |done|done].
  { change up with (Proto.UserJoined (Some (Types.user_to_proto x))). cbn [Client.room_event_of mbind option_bind].
    by rewrite Types.user_from_to_proto. }
  apply (view_joined u); [apply Hc|apply Hc1|apply Hc| |unfold entry; by rewrite F2| |done].
  - split; [done| |done| |done|].
    + intros k Hk. change (Wld.data w1) with (St.set_user_room u Types.ROOT_ROOM_UUID (Wld.data w)).
      by rewrite St.get_user_room_set, (proj2 (N.eqb_neq _ _) Hk).
    + intros k Hk. unfold St.get_member. cbn. by rewrite lookup_insert_ne.
    + intros k m Hk Hm. unfold Wld.identity_at. cbn. rewrite lookup_insert_ne; [done|]. intros E. by apply (F4 k m).
  - unfold entry. change (Wld.data w1) with (St.set_user_room u Types.ROOT_ROOM_UUID (Wld.data w)).
    rewrite St.get_user_room_set, N.eqb_refl. cbn [mbind option_bind]. unfold Wld.user_entry.
    change (Wld.data w1) with (St.set_user_room u Types.ROOT_ROOM_UUID (Wld.data w)).
    change (St.get_user_status (St.set_user_room u Types.ROOT_ROOM_UUID (Wld.data w)) u) with (St.get_user_status (Wld.data w) u).
    rewrite F3. assert (St.get_member (Wld.server w1) u = Some (St.mkMember u u (St.Owned (St.Connection sender)))) as ->.
    { unfold St.get_member. cbn. by rewrite lookup_insert_eq. }
    cbn [mbind option_bind Wld.is_controller St.binding]. unfold Wld.identity_at. cbn. by rewrite lookup_insert_eq.
Qed.

(** ** Permission groups: nothing the view shows *)

Lemma told_create_group h w name perms sender :
  connected h w → narrates h w (Handlers.handle_create_group name perms sender w).2.
Proof.
  intros Hc. apply told_require; [done|]. intros _. apply told_reply; [done|]. unfold Ops.apply_create_group.
  destruct (str_is_empty name); [apply narr_done|]. destruct (Ops.has_colon name); [apply narr_done|].
  destruct (contains _ name); [apply narr_done|]. unfold_goal_st.
  destruct (Persist.get_group _ name); [apply narr_done|]. destruct (Persist.is_username_registered _ name); [apply narr_done|].
  apply told_try; [done|by apply told_map_err, told_on_persist|]. intros _ _ Hc'.
  apply told_bind; [done| |intros _; apply narr_done]. by eapply told_ignore, told_bcast_quiet.
Qed.

Lemma told_modify_group h w name perms sender :
  connected h w → narrates h w (Handlers.handle_modify_group name perms sender w).2.
Proof.
  intros Hc. apply told_require; [done|]. intros _. apply told_reply; [done|]. unfold Ops.apply_modify_group.
  apply told_bind; [done|by apply told_on_persist|]. intros Hc'. destruct (Wld.on_persist _ w).1 as [[]|];
    [|apply narr_done|apply narr_done].
  apply told_bind; [done| |intros _; apply narr_done]. by eapply told_ignore, told_bcast_quiet.
Qed.

Lemma told_toggle_group h w name bits enable sender :
  connected h w → narrates h w (Handlers.handle_toggle_group_permission name bits enable sender w).2.
Proof.
  intros Hc. apply told_require; [done|]. intros _. apply told_reply; [done|]. unfold Ops.apply_toggle_group_permission.
  destruct (bits =? 0)%N; [apply narr_done|]. destruct (Perm.from_bits bits); [|apply narr_done].
  apply told_bind; [done|by apply told_on_persist|]. intros Hc'. destruct (Wld.on_persist _ w).1 as [[]|];
    [|apply narr_done|apply narr_done].
  apply told_bind; [done| |intros _; apply narr_done]. by eapply told_ignore, told_bcast_quiet.
Qed.

(** ** Room ACLs *)

Context `{!KVLaws T} `{!Persist.CodecsLaws}.

Lemma told_set_room_acl h w sra sender :
  connected h w → narrates h w (Handlers.handle_set_room_acl sra sender w).2.
Proof.
  intros Hc. unfold Handlers.handle_set_room_acl. destruct (array_of_slice 16 _) as [r|]; [|by apply told_result].
  apply told_require; [done|]. intros _. apply told_reply; [done|].
  set (es := map Types.acl_entry_from_proto (Proto.sra_entries sra)).
  rewrite Ops.apply_set_room_acl_run. cbv zeta. destruct (_ && _); [apply narr_done|].
  destruct (negb _); [apply narr_done|]. cbn [snd].
  assert (narrates h w (Wld.bcast (Proto.RoomAclChanged (Some (Types.room_id_from_uuid r)) (Proto.sra_inherit_acl sra)
    (map Types.acl_entry_to_proto es)) (Ops.saved_acl r (Proto.sra_inherit_acl sra) es w))) as Hn.
  { unfold Ops.saved_acl. eapply (told_room h w r (λ x, Types.mkRoom (Types.room_id x) (Types.room_name x)
      (Types.room_parent x) (Types.room_description x) (Proto.sra_inherit_acl sra) es (Types.room_effective_permissions x))
      _ (Client.RoomAclChanged r (Proto.sra_inherit_acl sra) es)); [done|by intros []| |done|done].
    cbn [Client.room_event_of mbind option_bind]. rewrite Types.uuid_from_room_id_from_uuid.
    by rewrite Types.map_id_ext by apply Types.acl_entry_from_to_proto. }
  eapply narrates_trans; [exact Hn|]. apply told_for_each; [|by eapply narrates_connected].
  intros m w' _ Hc'. by apply told_reevaluate.
Qed.

(** ** The whole *)

(** The messages that are narrated, and what they ask of the state before. *)
Definition narrated (env : Dispatch.Env) (w : W) (h sender : N) (m : Proto.ClientPayload) : Prop :=
  match m with
  | Proto.PRenameRoom _ _ | Proto.PSetRoomDescription _ _ | Proto.PSetRoomAcl _ | Proto.PSetServerMute _ _
  | Proto.PCreateGroup _ _ | Proto.PModifyGroup _ _ | Proto.PToggleGroupPermission _ _ _
  | Proto.PSetParticipantStatus _ _ _ => True
  | Proto.PMoveRoom r _ => is_Some (r ≫= Types.uuid_from_room_id)
  | Proto.PCreateRoom _ => Dispatch.random_uuid env ∉ St.room_ids (Wld.data w)
  | Proto.PSetUserStatus _ _ | Proto.PElevate _ => client_member w sender
  | Proto.PJoinRoom r => hidden_unless_present w sender ∧ same_mute_in w sender (Types.room_or_root r)
  | Proto.PRegisterParticipant _ _ _ => fresh_id (St.next_user_id (Wld.server w)) w
  | Proto.PMoveParticipant u _ =>
      St.get_user_room (Wld.data w) u = None → St.us_is_elevated (St.get_user_status (Wld.data w) u) = false
  | Proto.PUnregisterParticipant u => h ≠ u
  | _ => False
  end.

Lemma told_authenticated h sender body w :
  narrates h w (body w).2 → narrates h w (Dispatch.require_authenticated sender body w).2.
Proof.
  intros Hb. unfold Dispatch.require_authenticated. unfold_goal_st. destruct (negb _); [apply narr_done|exact Hb].
Qed.

Lemma told_controller h sender body w :
  narrates h w (body w).2 → narrates h w (Dispatch.require_controller sender body w).2.
Proof.
  intros Hb. unfold Dispatch.require_controller. unfold_goal_st. destruct (_ || _); [apply narr_done|exact Hb].
Qed.

Lemma told_payload plugins env h w sender m :
  connected h w → narrated env w h sender m →
  narrates h w (Dispatch.handle_payload plugins env (Some m) sender w).2.
Proof.
  intros Hc Hm. destruct m; cbn [narrated] in Hm; try done; cbn [Dispatch.handle_payload];
    first [ apply told_authenticated | apply told_controller ].
  - by apply told_join; [apply Hm|apply Hm|].
  - by apply told_create.
  - by apply told_rename.
  - by apply told_move.
  - by apply told_describe.
  - by apply told_set_user_status.
  - by apply told_register_participant.
  - by apply told_unregister_participant.
  - by apply told_move_participant.
  - by apply told_participant_status.
  - by apply told_set_server_mute.
  - by apply told_elevate.
  - by apply told_create_group.
  - by apply told_modify_group.
  - by apply told_toggle_group.
  - by apply told_set_room_acl.
Qed.

(** C12: A client that is in step stays in step.  Whatever message of a kind
    listed in [narrated] the server handles, for whatever sender, a connected
    client that mirrored the server before and applies the updates it is sent, in
    order and with their hashes, mirrors the server again, and at no point asks
    for a resynchronisation. *)
Theorem followers_stay_in_step plugins env (h sender : N) (m : Proto.ClientPayload) w :
  connected h w → narrated env w h sender m →
  let w' := (Dispatch.handle_payload plugins env (Some m) sender w).2 in
  ∃ sent, updates h w' = updates h w ++ sent ∧
    ∀ s, mirrors w s → let '(fx, s') := follow sent s in mirrors w' s' ∧ ¬ asks_resync fx.
Proof. intros Hc Hm. apply narrates_follow. by apply told_payload. Qed.

(** C13: A client out of step recovers with one exchange: whatever its state,
    its request for a resynchronisation is answered with one full state, and once
    it has applied that it mirrors the server and agrees with its hash. *)
Theorem resync_recovers plugins env (h : N) (eh ah : bytes) w :
  server_ok w → h ∉ Wld.closed w → St.authenticated (Wld.handle_at w h) = true →
  let w' := (Dispatch.handle_payload plugins env (Some (Proto.PRequestStateSync eh ah)) h w).2 in
  ∃ hash ss, Wld.log w' = Wld.log w ++ [Wld.Sent h hash (Proto.EvServerState ss)] ∧
    ∀ s, let '(_, s') := Client.apply_rooms [Client.full_state_event ss] s in
         mirrors w' s' ∧ Client.verify_state_hash s' (Wld.state_hash w' []) = [].
Proof.
  intros Hok Hh Ha w'. subst w'. cbn [Dispatch.handle_payload]. unfold Dispatch.require_authenticated. unfold_goal_st. rewrite Ha.
  cbn [negb]. unfold Handlers.handle_request_state_sync, Session.send_server_state_to_client, Wld.send_frame, Wld.emit.
  unfold_goal_st. rewrite bool_decide_false by done. cbn [fst snd].
  set (w' := Wld.with_log _ w). eexists _, (Session.server_state_for w h). split; [reflexivity|]. intros s.
  assert (server_ok w') as Hok' by (by apply (server_ok_frame w)).
  assert (server_view w' = server_view w) as Hv by done.
  set (perms := λ r, Acl.evaluate_user_permissions w h (Types.room_id r)).
  assert (omap Types.room_from_proto (Proto.ss_rooms (Session.server_state_for w h)) =
    (λ r, Session.with_effective (perms r) r) <$> St.rooms (Wld.data w)) as Er.
  { cbn [Session.server_state_for Proto.ss_rooms]. induction (St.rooms (Wld.data w)) as [|x l IH]; [done|].
    cbn [map omap list_omap]. rewrite Types.room_from_to_proto. cbn. by f_equal. }
  assert (omap Types.user_from_proto (Proto.ss_users (Session.server_state_for w h)) = Wld.build_user_list w) as Eu.
  { apply omap_inverse, Types.user_from_to_proto. }
  cbn [Client.apply_rooms]. unfold Client.full_state_event. rewrite Er, Eu. cbn [Client.apply_room Client.project].
  set (rs := _ <$> St.rooms _). set (us := Wld.build_user_list w). set (gs := map _ _). set (cs := map _ _).
  set (ps := fold_left _ _ _).
  assert (NoDup (Types.room_id <$> rs)) as Hr.
  { unfold rs. rewrite <- list_fmap_compose. exact (St.wf_ids _ (ok_wf _ Hok)). }
  destruct (full_state_view rs us gs cs ps s Hr (user_list_NoDup w Hok)) as [Hfv Hfw].
  assert (plain <$> rs = St.rooms (Wld.data w)) as Ep.
  { unfold rs. rewrite <- list_fmap_compose. rewrite <- (plain_rooms w Hok) at 2. by apply list_fmap_ext. }
  set (st := Client.full_state rs us gs cs ps s) in *.
  assert (∀ s', s' = Client.next st ∨ s' = Client.recompute_effective_permissions (Client.next st) →
    mirrors w' s') as Hs.
  { intros s' Hs'. assert (client_view s' = client_view (Client.next st) ∧ client_wf s') as [E Hw].
    { destruct Hs' as [->| ->]; [done|]. destruct (same_lists_view _ _ (recompute_lists (Client.next st))) as [E Hi]. by split; [|apply Hi]. }
    split; [|done]. rewrite E, Hfv, Ep. done. }
  assert (mirrors w' (if Client.recompute_perms st then Client.recompute_effective_permissions (Client.next st)
    else Client.next st)) as Hmir by (apply Hs; destruct (Client.recompute_perms st); auto).
  split; [exact Hmir|]. by apply checkpoint_silent.
Qed.
End narration.

(** ** Witnesses *)

#[local] Existing Instances Persist.codecs Persist.codecs_laws Session.sample_external.
#[local] Abbreviation sample := Session.sample_world.

Definition rename_lobby : Proto.ClientPayload :=
  Proto.PRenameRoom (Some (Types.room_id_from_uuid St.lobby)) "Hall".
Definition after_rename : Wld.World Persist.memory :=
  (Dispatch.handle_payload [] Dispatch.sample_env (Some rename_lobby) 1 sample).2.

(** Moderator 1 renames the lobby; client 2 is told by one update and follows. *)
Lemma followers_stay_in_step_witness :
  List.length (updates 2 after_rename) = 1%nat ∧
  ∃ sent, updates 2 after_rename = updates 2 sample ++ sent ∧
    let '(fx, s') := follow sent sample_client in mirrors after_rename s' ∧ ¬ asks_resync fx.
Proof.
  split; [vm_compute; reflexivity|].
  destruct (followers_stay_in_step [] Dispatch.sample_env 2 1 rename_lobby sample sample_connected I) as (sent & E & Hs).
  exists sent. split; [exact E|]. exact (Hs sample_client sample_mirrors).
Defined.

(** Client 2 starts with nothing. *)
Lemma resync_recovers_witness :
  ∃ hash ss,
    Wld.log (Dispatch.handle_payload [] Dispatch.sample_env (Some (Proto.PRequestStateSync [] [])) 2 sample).2 =
      [Wld.Sent 2 hash (Proto.EvServerState ss)] ∧
    mirrors sample (Client.apply_rooms [Client.full_state_event ss] Client.State_default).2.
Proof.
  destruct (resync_recovers [] Dispatch.sample_env 2 [] [] sample sample_server_ok
              (conn_open _ _ sample_connected) eq_refl) as (hash & ss & E & Hs).
  exists hash, ss. split; [exact E|]. specialize (Hs Client.State_default).
  destruct (Client.apply_rooms _ _) as [fx s']. exact (proj1 Hs).
Defined.
End Narration.
