(* ===== verification/MumbleVoice.v ===== *)
(** The Mumble voice packets of the bridge:
    [crates/mumble-bridge/src/mumble_voice.rs].  A [u64] is an [N] below
    [2 ^ 64]; [usize] positions are [nat]. *)
From Stdlib Require Import NArith ZArith Lia String.
From stdpp Require Import base list.
From S2P Require Import Prelude.

Module MumbleVoice.
Open Scope N_scope.

Definition OPUS_TYPE : N := 4.

(** [data[i] as u64]; the code has checked the length before. *)
Definition at_ (data : bytes) (i : nat) : N := default 0 (N_of_byte <$> data !! i).

(** The value and the number of bytes consumed. *)
Definition read_varint (data : bytes) : option (N * nat) :=
  match data with
  | [] => None
  | first :: _ =>
      let first := N_of_byte first in
      let d := at_ data in
      let len := List.length data in
      if N.land first 0x80 =? 0 then Some (first, 1%nat)
      else if N.land first 0xC0 =? 0x80 then
        if Nat.ltb len 2 then None
        else Some (N.lor (N.shiftl (N.land first 0x3F) 8) (d 1%nat), 2%nat)
      else if N.land first 0xE0 =? 0xC0 then
        if Nat.ltb len 3 then None
        else Some (N.lor (N.lor (N.shiftl (N.land first 0x1F) 16) (N.shiftl (d 1%nat) 8)) (d 2%nat), 3%nat)
      else if N.land first 0xF0 =? 0xE0 then
        if Nat.ltb len 4 then None
        else Some (N.lor (N.lor (N.lor (N.shiftl (N.land first 0x0F) 24) (N.shiftl (d 1%nat) 16))
                     (N.shiftl (d 2%nat) 8)) (d 3%nat), 4%nat)
      else if N.land first 0xF0 =? 0xF0 then
        if N.land first 0x0C =? 0 then
          if Nat.ltb len 5 then None
          else Some (N.lor (N.lor (N.lor (N.shiftl (d 1%nat) 24) (N.shiftl (d 2%nat) 16))
                       (N.shiftl (d 3%nat) 8)) (d 4%nat), 5%nat)
        else if N.land first 0x0C =? 4 then
          if Nat.ltb len 9 then None
          else Some (N.lor (N.lor (N.lor (N.lor (N.lor (N.lor (N.lor (N.shiftl (d 1%nat) 56)
                       (N.shiftl (d 2%nat) 48)) (N.shiftl (d 3%nat) 40)) (N.shiftl (d 4%nat) 32))
                       (N.shiftl (d 5%nat) 24)) (N.shiftl (d 6%nat) 16)) (N.shiftl (d 7%nat) 8)) (d 8%nat), 9%nat)
        else None
      else None
  end.

(** [(val >> s) as u8]. *)
Definition octet (val s : N) : N := N.shiftr val s mod 256.
Definition u8 (n : N) : byte := byte_of_N n.

Definition encode_varint (val : N) : bytes :=
  if val <? 0x80 then [u8 val]
  else if val <? 0x4000 then [u8 (N.lor (octet val 8) 0x80); u8 val]
  else if val <? 0x200000 then [u8 (N.lor (octet val 16) 0xC0); u8 (octet val 8); u8 val]
  else if val <? 0x10000000 then
    [u8 (N.lor (octet val 24) 0xE0); u8 (octet val 16); u8 (octet val 8); u8 val]
  else if val <=? 0xFFFFFFFF then
    [u8 0xF0; u8 (octet val 24); u8 (octet val 16); u8 (octet val 8); u8 val]
  else
    [u8 0xF4; u8 (octet val 56); u8 (octet val 48); u8 (octet val 40); u8 (octet val 32);
     u8 (octet val 24); u8 (octet val 16); u8 (octet val 8); u8 val].

Record MumbleVoicePacket := mkPacket {
  target : N;
  sequence : N;
  opus_data : bytes;
  is_last : bool;
}.

Definition parse_voice_packet (data : bytes) : option MumbleVoicePacket :=
  match data with
  | [] => None
  | header :: rest =>
      let header := N_of_byte header in
      let voice_type := N.land (N.shiftr header 5) 0x07 in
      let target := N.land header 0x1F in
      if negb (voice_type =? OPUS_TYPE) then None
      else
        '(sequence, consumed) ← read_varint rest;
        let rest := drop consumed rest in
        '(opus_header, consumed) ← read_varint rest;
        let opus_len := N.to_nat (N.land opus_header 0x1FFF) in
        let is_last := negb (N.land opus_header 0x2000 =? 0) in
        let rest := drop consumed rest in
        if Nat.ltb (List.length rest) opus_len then None
        else Some (mkPacket target sequence (take opus_len rest) is_last)
  end.

(** [opus_data.len() as u64], with the terminator bit of a last frame. *)
Definition opus_header (opus_data : bytes) (is_last : bool) : N :=
  let opus_len := N.of_nat (List.length opus_data) in
  if is_last then N.lor opus_len 0x2000 else opus_len.

Definition encode_voice_packet (session_id sequence : N) (opus_data : bytes) (is_last : bool) : bytes :=
  u8 (N.shiftl OPUS_TYPE 5) :: encode_varint session_id ++ encode_varint sequence ++
    encode_varint (opus_header opus_data is_last) ++ opus_data.

(** ** Bits *)

Lemma lor_low a b m : b < 2 ^ m → N.lor (N.shiftl a m) b = N.shiftl a m + b.
Proof.
  intros Hb. assert (N.land (N.shiftl a m) b = 0) as Hz.
  { apply N.bits_inj_0. intros i. rewrite N.land_spec. destruct (N.ltb_spec i m) as [Hi|Hi].
    - by rewrite N.shiftl_spec_low.
    - rewrite <- (N.mod_small b (2 ^ m)) by done. rewrite N.mod_pow2_bits_high by done. apply andb_false_r. }
  rewrite <- N.lxor_lor by done. symmetry. by apply N.add_nocarry_lxor.
Qed.

(** One more byte below. *)
Lemma lor_byte a b k m : k = m + 8 → b < 256 → N.lor (N.shiftl a k) (N.shiftl b m) = N.shiftl (a * 256 + b) m.
Proof.
  intros -> Hb. rewrite (N.add_comm m 8), <- N.shiftl_shiftl, <- N.shiftl_lor. f_equal.
  rewrite lor_low by done. by rewrite N.shiftl_mul_pow2.
Qed.

Lemma lor_last a b : b < 256 → N.lor (N.shiftl a 8) b = a * 256 + b.
Proof. intros Hb. rewrite lor_low by done. by rewrite N.shiftl_mul_pow2. Qed.

(** The bytes of a number, one after the other, most significant first. *)
Lemma octet_step val s t : t = s + 8 → N.shiftr val t * 256 + octet val s = N.shiftr val s.
Proof.
  intros ->. unfold octet. rewrite <- N.shiftr_shiftr, (N.shiftr_div_pow2 _ 8). change (2 ^ 8) with 256.
  rewrite (N.div_mod (N.shiftr val s) 256) at 3 by done. lia.
Qed.

Lemma octet_bound val s : octet val s < 256.
Proof. by apply N.mod_lt. Qed.

Lemma octet_top val s : val < 2 ^ (s + 8) → octet val s = N.shiftr val s.
Proof.
  intros Hv. unfold octet. apply N.mod_small. rewrite N.shiftr_div_pow2. apply N.Div0.div_lt_upper_bound.
  change 256 with (2 ^ 8). by rewrite <- N.pow_add_r.
Qed.

Lemma u8_octet val s : N_of_byte (u8 (octet val s)) = octet val s.
Proof. unfold u8. rewrite N_of_byte_of_N. apply N.mod_small, octet_bound. Qed.

Lemma u8_low val : N_of_byte (u8 val) = octet val 0.
Proof. unfold u8, octet. by rewrite N_of_byte_of_N, N.shiftr_0_r. Qed.

(** The first byte of the longer forms. *)
Lemma tag_small (P : nat → bool) n : forallb P (List.seq 0 n) = true → ∀ h : N, h < N.of_nat n → P (N.to_nat h) = true.
Proof. intros Hf h Hh. rewrite forallb_forall in Hf. apply Hf, in_seq. lia. Qed.

Definition first_of (mark h : N) : N := N_of_byte (u8 (N.lor h mark)).

Lemma tag14 h : h < 64 →
  (N.land (first_of 0x80 h) 0x80 =? 0) = false ∧ (N.land (first_of 0x80 h) 0xC0 =? 0x80) = true ∧
  N.land (first_of 0x80 h) 0x3F = h.
Proof.
  intros Hh. pose proof (tag_small (λ h, let f := first_of 0x80 (N.of_nat h) in
    negb (N.land f 0x80 =? 0) && (N.land f 0xC0 =? 0x80) && (N.land f 0x3F =? N.of_nat h)) 64 eq_refl h Hh) as Ht.
  cbv beta zeta in Ht. rewrite N2Nat.id in Ht. apply andb_prop in Ht as [[H1%negb_true_iff H2]%andb_prop H3%N.eqb_eq]. done.
Qed.

Lemma tag21 h : h < 32 →
  (N.land (first_of 0xC0 h) 0x80 =? 0) = false ∧ (N.land (first_of 0xC0 h) 0xC0 =? 0x80) = false ∧
  (N.land (first_of 0xC0 h) 0xE0 =? 0xC0) = true ∧ N.land (first_of 0xC0 h) 0x1F = h.
Proof.
  intros Hh. pose proof (tag_small (λ h, let f := first_of 0xC0 (N.of_nat h) in
    negb (N.land f 0x80 =? 0) && negb (N.land f 0xC0 =? 0x80) && (N.land f 0xE0 =? 0xC0) &&
    (N.land f 0x1F =? N.of_nat h)) 32 eq_refl h Hh) as Ht.
  cbv beta zeta in Ht. rewrite N2Nat.id in Ht.
  apply andb_prop in Ht as [[[H1%negb_true_iff H2%negb_true_iff]%andb_prop H3]%andb_prop H4%N.eqb_eq]. done.
Qed.

Lemma tag28 h : h < 16 →
  (N.land (first_of 0xE0 h) 0x80 =? 0) = false ∧ (N.land (first_of 0xE0 h) 0xC0 =? 0x80) = false ∧
  (N.land (first_of 0xE0 h) 0xE0 =? 0xC0) = false ∧ (N.land (first_of 0xE0 h) 0xF0 =? 0xE0) = true ∧
  N.land (first_of 0xE0 h) 0x0F = h.
Proof.
  intros Hh. pose proof (tag_small (λ h, let f := first_of 0xE0 (N.of_nat h) in
    negb (N.land f 0x80 =? 0) && negb (N.land f 0xC0 =? 0x80) && negb (N.land f 0xE0 =? 0xC0) &&
    (N.land f 0xF0 =? 0xE0) && (N.land f 0x0F =? N.of_nat h)) 16 eq_refl h Hh) as Ht.
  cbv beta zeta in Ht. rewrite N2Nat.id in Ht.
  apply andb_prop in Ht as [[[[H1%negb_true_iff H2%negb_true_iff]%andb_prop H3%negb_true_iff]%andb_prop H4]%andb_prop
    H5%N.eqb_eq]. done.
Qed.

(** ** The round trip of the numbers *)

Lemma at_cons b l i : at_ (b :: l) (S i) = at_ l i.
Proof. done. Qed.
Lemma at_0 b l : at_ (b :: l) 0 = N_of_byte b.
Proof. done. Qed.

Lemma read_f0 b1 b2 b3 b4 l :
  read_varint (u8 0xF0 :: b1 :: b2 :: b3 :: b4 :: l) =
  Some (N.lor (N.lor (N.lor (N.shiftl (N_of_byte b1) 24) (N.shiftl (N_of_byte b2) 16))
    (N.shiftl (N_of_byte b3) 8)) (N_of_byte b4), 5%nat).
Proof. reflexivity. Qed.

Lemma read_f4 b1 b2 b3 b4 b5 b6 b7 b8 l :
  read_varint (u8 0xF4 :: b1 :: b2 :: b3 :: b4 :: b5 :: b6 :: b7 :: b8 :: l) =
  Some (N.lor (N.lor (N.lor (N.lor (N.lor (N.lor (N.lor (N.shiftl (N_of_byte b1) 56)
    (N.shiftl (N_of_byte b2) 48)) (N.shiftl (N_of_byte b3) 40)) (N.shiftl (N_of_byte b4) 32))
    (N.shiftl (N_of_byte b5) 24)) (N.shiftl (N_of_byte b6) 16)) (N.shiftl (N_of_byte b7) 8)) (N_of_byte b8), 9%nat).
Proof. reflexivity. Qed.

Lemma read_encode val rest :
  val < 2 ^ 64 → read_varint (encode_varint val ++ rest) = Some (val, List.length (encode_varint val)).
Proof.
  intros Hv. unfold encode_varint.
  destruct (N.ltb_spec val 0x80) as [H1|H1].
  { cbn [app read_varint List.length]. unfold u8. rewrite N_of_byte_of_N, N.mod_small by lia.
    assert (N.land val 0x80 = 0) as ->; [|done].
    apply N.bits_inj_0. intros i. rewrite N.land_spec. change 0x80 with (2 ^ 7). rewrite N.pow2_bits_eqb.
    destruct (N.eqb_spec 7 i) as [<-|]; [|apply andb_false_r].
    rewrite <- (N.mod_small val (2 ^ 7)) by done. by rewrite N.mod_pow2_bits_high by done. }
  destruct (N.ltb_spec val 0x4000) as [H2|H2].
  { assert (octet val 8 < 64) as Ho.
    { rewrite octet_top by (cbn; lia). rewrite N.shiftr_div_pow2. apply N.Div0.div_lt_upper_bound. cbn. lia. }
    cbn [app read_varint List.length]. fold (first_of 0x80 (octet val 8)).
    destruct (tag14 _ Ho) as (-> & -> & ->). cbn [Nat.ltb Nat.leb]. rewrite at_cons, at_0, u8_low, lor_last by apply octet_bound.
    rewrite octet_top by (cbn; lia). rewrite (octet_step val 0 8) by done. by rewrite N.shiftr_0_r. }
  destruct (N.ltb_spec val 0x200000) as [H3|H3].
  { assert (octet val 16 < 32) as Ho.
    { rewrite octet_top by (cbn; lia). rewrite N.shiftr_div_pow2. apply N.Div0.div_lt_upper_bound. cbn. lia. }
    cbn [app read_varint List.length]. fold (first_of 0xC0 (octet val 16)).
    destruct (tag21 _ Ho) as (-> & -> & -> & ->). cbn [Nat.ltb Nat.leb]. rewrite !at_cons, !at_0, !u8_octet, (u8_low val).
    rewrite lor_byte, lor_last by (done || apply octet_bound).
    rewrite octet_top by (cbn; lia). by rewrite (octet_step val 8 16), (octet_step val 0 8), N.shiftr_0_r. }
  destruct (N.ltb_spec val 0x10000000) as [H4|H4].
  { assert (octet val 24 < 16) as Ho.
    { rewrite octet_top by (cbn; lia). rewrite N.shiftr_div_pow2. apply N.Div0.div_lt_upper_bound. cbn. lia. }
    cbn [app read_varint List.length]. fold (first_of 0xE0 (octet val 24)).
    destruct (tag28 _ Ho) as (-> & -> & -> & -> & ->). cbn [Nat.ltb Nat.leb]. rewrite !at_cons, !at_0, !u8_octet, (u8_low val).
    rewrite !lor_byte, lor_last by (done || apply octet_bound).
    rewrite octet_top by (cbn; lia).
    by rewrite (octet_step val 16 24), (octet_step val 8 16), (octet_step val 0 8), N.shiftr_0_r. }
  destruct (N.leb_spec val 0xFFFFFFFF) as [H5|H5].
  { cbn [app List.length]. rewrite read_f0, !u8_octet, (u8_low val).
    rewrite !lor_byte, lor_last by (done || apply octet_bound). rewrite (octet_top val 24) by (cbn; lia).
    by rewrite (octet_step val 16 24), (octet_step val 8 16), (octet_step val 0 8), N.shiftr_0_r. }
  cbn [app List.length]. rewrite read_f4, !u8_octet, (u8_low val).
  rewrite !lor_byte, lor_last by (done || apply octet_bound). rewrite (octet_top val 56) by (cbn in *; lia).
  by rewrite (octet_step val 48 56), (octet_step val 40 48), (octet_step val 32 40), (octet_step val 24 32),
    (octet_step val 16 24), (octet_step val 8 16), (octet_step val 0 8), N.shiftr_0_r.
Qed.

(** ** Packets *)

(** What the client of a packet's format sends. *)
Definition client_packet (target sequence : N) (opus_data : bytes) (is_last : bool) : bytes :=
  u8 (N.lor (N.shiftl OPUS_TYPE 5) target) :: encode_varint sequence ++
    encode_varint (opus_header opus_data is_last) ++ opus_data.

Lemma drop_encoded val rest : drop (List.length (encode_varint val)) (encode_varint val ++ rest) = rest.
Proof. apply drop_app_length. Qed.

Lemma header_fields t : t < 32 →
  N.land (N.shiftr (N_of_byte (u8 (N.lor (N.shiftl OPUS_TYPE 5) t))) 5) 0x07 = OPUS_TYPE ∧
  N.land (N_of_byte (u8 (N.lor (N.shiftl OPUS_TYPE 5) t))) 0x1F = t.
Proof.
  intros Ht. pose proof (tag_small (λ t, let f := N_of_byte (u8 (N.lor (N.shiftl OPUS_TYPE 5) (N.of_nat t))) in
    (N.land (N.shiftr f 5) 0x07 =? OPUS_TYPE) && (N.land f 0x1F =? N.of_nat t)) 32 eq_refl t Ht) as Hb.
  cbv beta zeta in Hb. rewrite N2Nat.id in Hb. by apply andb_prop in Hb as [?%N.eqb_eq ?%N.eqb_eq].
Qed.

(** The length field keeps 13 bits and one for the terminator. *)
Lemma opus_header_spec d b : N.of_nat (List.length d) < 0x2000 →
  opus_header d b < 0x4000 ∧ N.to_nat (N.land (opus_header d b) 0x1FFF) = List.length d ∧
  negb (N.land (opus_header d b) 0x2000 =? 0) = b.
Proof.
  intros Hl. change 0x2000 with (2 ^ 13) in Hl.
  set (n := N.of_nat (List.length d)) in *.
  assert (N.land n 0x1FFF = n) as Hlow.
  { change 0x1FFF with (N.ones 13). rewrite N.land_ones. by apply N.mod_small. }
  assert (N.land n 0x2000 = 0) as Hbit.
  { rewrite <- Hlow. rewrite <- N.land_assoc. change (N.land 0x1FFF 0x2000) with 0. apply N.land_0_r. }
  assert (N.lor n 0x2000 = 0x2000 + n) as Hor.
  { rewrite N.lor_comm. change 0x2000 with (N.shiftl 1 13). by rewrite lor_low. }
  unfold opus_header. fold n. destruct b.
  - split; [rewrite Hor; change 0x4000 with (0x2000 + 2 ^ 13); lia|]. rewrite !N.land_lor_distr_l, Hlow, Hbit.
    change (N.land 0x2000 0x1FFF) with 0. rewrite N.lor_0_r. split; [unfold n; by rewrite Nat2N.id|done].
  - split; [change 0x4000 with (2 ^ 13 + 2 ^ 13); lia|]. rewrite Hlow, Hbit. split; [unfold n; by rewrite Nat2N.id|done].
Qed.

Lemma parse_client t sq d b :
  t < 32 → sq < 2 ^ 64 → N.of_nat (List.length d) < 0x2000 →
  parse_voice_packet (client_packet t sq d b) = Some (mkPacket t sq d b).
Proof.
  intros Ht Hs Hd. destruct (opus_header_spec d b Hd) as (Hb & Hl & Hf).
  unfold client_packet, parse_voice_packet. destruct (header_fields t Ht) as [-> ->].
  change (negb (OPUS_TYPE =? OPUS_TYPE)) with false. cbn [mbind option_bind]. rewrite read_encode by done. cbn [mbind option_bind].
  rewrite drop_encoded, read_encode by (change (2 ^ 64) with 0x10000000000000000; lia). cbn [mbind option_bind].
  rewrite drop_encoded, Hl, Hf, Nat.ltb_irrefl. by rewrite take_ge by done.
Qed.

Lemma encode_length val : (1 <= List.length (encode_varint val) <= 9)%nat.
Proof. unfold encode_varint. repeat (destruct (_ <? _); [cbn; lia|]). destruct (_ <=? _); cbn; lia. Qed.
(** ** Truncation *)

Lemma at_take l k i : (i < k)%nat → at_ (take k l) i = at_ l i.
Proof. intros Hi. unfold at_. by rewrite lookup_take_lt. Qed.

(** A number needs its bytes and no others. *)
Lemma read_varint_take l v n k :
  read_varint l = Some (v, n) →
  (1 <= n <= List.length l)%nat ∧ read_varint (take k l) = if Nat.ltb k n then None else Some (v, n).
Proof.
  destruct l as [|b l]; [done|]. intros E.
  destruct k as [|k].
  { assert ((1 <= n <= List.length (b :: l))%nat) as Hn.
    { unfold read_varint in E. repeat (case_match; simplify_eq/=); try (apply Nat.ltb_ge in H3 || idtac);
        repeat match goal with H : Nat.ltb _ _ = false |- _ => apply Nat.ltb_ge in H end; cbn; lia. }
    split; [done|]. by destruct n; [lia|]. }
  cbn [take read_varint] in E |- *. rewrite !length_cons in *. rewrite !length_take.
  assert (∀ i, (i < S k)%nat → at_ (b :: take k l) i = at_ (b :: l) i) as Hat.
  { intros i Hi. change (b :: take k l) with (take (S k) (b :: l)). by apply at_take. }
  assert (∀ m (f g : N), (1 <= m)%nat → (if Nat.ltb (S (List.length l)) m then None else Some (f, m)) = Some (v, n) →
    ((m <= S k)%nat → g = f) →
    (1 <= n <= S (List.length l))%nat ∧
    (if Nat.ltb (S (Nat.min k (List.length l))) m then None else Some (g, m)) =
    if Nat.ltb (S k) n then None else Some (v, n)) as Hm.
  { intros m f g Hm1 Hm Hg. destruct (Nat.ltb_spec (S (List.length l)) m); [done|]. injection Hm as <- <-.
    split; [lia|]. destruct (Nat.ltb_spec (S k) m) as [Hk|Hk].
    - by rewrite (proj2 (Nat.ltb_lt _ _)) by lia.
    - rewrite (proj2 (Nat.ltb_ge _ _)) by lia. by rewrite Hg. }
  destruct (N.land (N_of_byte b) 0x80 =? 0).
  { injection E as <- <-. split; [lia|]. by rewrite (proj2 (Nat.ltb_ge _ _)) by lia. }
  destruct (_ =? 0x80); [|destruct (_ =? 0xC0); [|destruct (_ =? 0xE0); [|destruct (_ =? 0xF0); [|done]]]].
  - apply (Hm 2%nat _ _ ltac:(lia) E). intros Hk. by rewrite !Hat by lia.
  - apply (Hm 3%nat _ _ ltac:(lia) E). intros Hk. by rewrite !Hat by lia.
  - apply (Hm 4%nat _ _ ltac:(lia) E). intros Hk. by rewrite !Hat by lia.
  - destruct (N.land (N_of_byte b) 0x0C =? 0); [|destruct (_ =? 4); [|done]].
    + apply (Hm 5%nat _ _ ltac:(lia) E). intros Hk. by rewrite !Hat by lia.
    + apply (Hm 9%nat _ _ ltac:(lia) E). intros Hk. by rewrite !Hat by lia.
Qed.

(** ** Properties *)

(** Voice packets survive the tunnel.  A number decodes to itself whatever
    follows it; a packet from a Mumble client decodes to its target, sequence
    number, data and terminator; and what the bridge sends to Mumble clients is
    that format with the speaker's session after the header.  All this for frames
    below 8192 bytes. *)
Theorem voice_packet_round_trip (session target sequence : N) (data rest : bytes) (last : bool) :
  session < 2 ^ 32 → target < 32 → sequence < 2 ^ 64 → N.of_nat (List.length data) < 0x2000 →
  read_varint (encode_varint sequence ++ rest) = Some (sequence, List.length (encode_varint sequence)) ∧
  parse_voice_packet (client_packet target sequence data last) = Some (mkPacket target sequence data last) ∧
  ∃ header tail, encode_voice_packet session sequence data last = header :: tail ∧
    ∃ used, read_varint tail = Some (session, used) ∧
      parse_voice_packet (header :: drop used tail) = Some (mkPacket 0 sequence data last).
Proof.
  intros Hse Ht Hs Hd. split; [by apply read_encode|]. split; [by apply parse_client|].
  eexists _, _. split; [reflexivity|]. exists (List.length (encode_varint session)). split.
  - apply read_encode. etrans; [exact Hse|done].
  - rewrite drop_encoded. by apply (parse_client 0 sequence data last).
Qed.

(** Parsing stays within the packet: an accepted packet yields a slice of its
    input, of at most 8191 bytes; nothing after that slice matters, and the
    packet cut anywhere before its end is rejected. *)
Theorem voice_packet_bounds (data : bytes) (p : MumbleVoicePacket) :
  parse_voice_packet data = Some p →
  N.of_nat (List.length (opus_data p)) < 0x2000 ∧ target p < 32 ∧
  ∃ pre post, data = pre ++ opus_data p ++ post ∧
    ∀ k, parse_voice_packet (take k data) =
         if Nat.ltb k (List.length pre + List.length (opus_data p)) then None else Some p.
Proof.
  destruct data as [|h l]; [done|]. unfold parse_voice_packet at 1.
  destruct (negb _) eqn:Et; [done|].
  destruct (read_varint l) as [[sq n1]|] eqn:E1; [|done]. cbn [mbind option_bind].
  destruct (read_varint (drop n1 l)) as [[oh n2]|] eqn:E2; [|done]. cbn [mbind option_bind].
  set (len := N.to_nat (N.land oh 0x1FFF)). destruct (Nat.ltb_spec (List.length (drop n2 (drop n1 l))) len) as [|Hlen]; [done|].
  intros [= <-]. cbn [opus_data target].
  pose proof (proj1 (read_varint_take _ _ _ 0 E1)) as B1. pose proof (proj1 (read_varint_take _ _ _ 0 E2)) as B2.
  rewrite length_drop in B2. rewrite !length_drop in Hlen.
  assert (N.land oh 0x1FFF < 2 ^ 13) as Ho.
  { change 0x1FFF with (N.ones 13). rewrite N.land_ones. by apply N.mod_lt. }
  assert (N.land (N_of_byte h) 0x1F < 32) as Hh.
  { change 0x1F with (N.ones 5). rewrite N.land_ones. by apply N.mod_lt. }
  rewrite length_take, !length_drop. split; [unfold len in *; change 0x2000 with (2 ^ 13); lia|]. split; [done|].
  exists (h :: take (n1 + n2) l), (drop len (drop n2 (drop n1 l))). rewrite take_drop, drop_drop. split.
  { cbn. by rewrite take_drop. }
  intros k. cbn [List.length]. rewrite length_take. replace (Nat.min (n1 + n2) (List.length l)) with (n1 + n2)%nat by lia.
  replace (Nat.min len _) with len by lia.
  destruct k as [|k]; [by rewrite (proj2 (Nat.ltb_lt _ _)) by lia|]. cbn [take]. unfold parse_voice_packet. rewrite Et.
  rewrite (proj2 (read_varint_take _ _ _ k E1)). destruct (Nat.ltb_spec k n1) as [Hk1|Hk1].
  { cbn [mbind option_bind]. by rewrite (proj2 (Nat.ltb_lt _ _)) by lia. }
  cbn [mbind option_bind]. rewrite skipn_firstn_comm, (proj2 (read_varint_take _ _ _ (k - n1) E2)).
  destruct (Nat.ltb_spec (k - n1) n2) as [Hk2|Hk2].
  { cbn [mbind option_bind]. by rewrite (proj2 (Nat.ltb_lt _ _)) by lia. }
  cbn [mbind option_bind]. fold len. rewrite skipn_firstn_comm, length_take, !length_drop, take_take.
  destruct (Nat.ltb_spec (Nat.min (k - n1 - n2) (List.length l - n1 - n2)) len) as [Hk3|Hk3].
  - by rewrite (proj2 (Nat.ltb_lt _ _)) by lia.
  - rewrite (proj2 (Nat.ltb_ge _ _)) by lia. by rewrite Nat.min_l, drop_drop by lia.
Qed.

(** A frame of 8192 bytes does not fit the length field: its size sets the
    terminator bit instead. *)
Lemma long_frame_misread :
  parse_voice_packet (client_packet 0 0 (replicate (N.to_nat 0x2000) Byte.x00) false) = Some (mkPacket 0 0 [] true).
Proof. vm_compute. reflexivity. Qed.

(** ** Witnesses *)

Lemma voice_packet_round_trip_witness :
  parse_voice_packet (client_packet 3 70000 [Byte.xde; Byte.xad] true) = Some (mkPacket 3 70000 [Byte.xde; Byte.xad] true).
Proof.
  exact (proj1 (proj2 (voice_packet_round_trip 42 3 70000 [Byte.xde; Byte.xad] [] true eq_refl eq_refl eq_refl eq_refl))).
Defined.

Lemma voice_packet_bounds_witness :
  let packet := client_packet 0 7 [Byte.xde; Byte.xad] false in
  ∃ used, (used <= List.length packet)%nat ∧
    ∀ k, parse_voice_packet (take k packet) =
         if Nat.ltb k used then None else Some (mkPacket 0 7 [Byte.xde; Byte.xad] false).
Proof.
  destruct (voice_packet_bounds (client_packet 0 7 [Byte.xde; Byte.xad] false)
              (mkPacket 0 7 [Byte.xde; Byte.xad] false) ltac:(vm_compute; reflexivity)) as (_ & _ & pre & post & E & H).
  exists (List.length pre + 2)%nat. split; [|exact H]. rewrite E, !length_app. cbn. lia.
Defined.
End MumbleVoice.
