(* ===== verification/PreRoll.v ===== *)
(** The pre-roll ring of the microphone: [crates/rumble-client/src/preroll.rs].
    It keeps the last frames that the voice gate suppressed and hands them out
    when the gate opens, so that the start of a word is not lost.

    [A] is the type of the samples ([f32]; the ring never looks at them), a
    timestamp is a [u64], positions are [usize]. *)
From Stdlib Require Import NArith ZArith Lia.
From stdpp Require Import base list.
From S2P Require Import Prelude.

Module PreRoll.

Definition PRE_ROLL_FRAMES : nat := 5.

Section ring.
Context {A : Type}.

Record Slot := mkSlot { timestamp_us : N; samples : list A }.
Definition empty_slot : Slot := mkSlot 0 [].

Record PreRollRing := mkRing {
  slots : list Slot;
  head : nat;
  len : nat;
  frame_us : N;
}.

Definition new (capacity : nat) (frame_us : N) : PreRollRing :=
  mkRing (replicate capacity empty_slot) 0 0 frame_us.

(** [slots[i]]; every index used is taken modulo the capacity. *)
Definition slot_at (r : PreRollRing) (i : nat) : Slot := default empty_slot (slots r !! i).

Definition newest_timestamp (r : PreRollRing) : option N :=
  if Nat.ltb 0 (len r)
  then Some (timestamp_us (slot_at r ((head r + len r - 1) mod List.length (slots r))))
  else None.

(** The newest frame is the predecessor of the one at [t]; [None] passes. *)
Definition follows (newest : option N) (frame_us t : N) : bool :=
  match newest with Some n => (wrap_u64 (n + frame_us) =? t)%N | None => true end.

Definition push (timestamp_us : N) (samples : list A) (r : PreRollRing) : PreRollRing :=
  let cap := List.length (slots r) in
  if Nat.eqb cap 0 then r
  else
    let r := if follows (newest_timestamp r) (frame_us r) timestamp_us then r
             else mkRing (slots r) (head r) 0 (frame_us r) in
    let r := if Nat.eqb (len r) cap
             then mkRing (slots r) ((head r + 1) mod cap) (len r - 1) (frame_us r) else r in
    mkRing (<[(head r + len r) mod cap := mkSlot timestamp_us samples]> (slots r))
      (head r) (len r + 1) (frame_us r).

(** The frames emitted, and the ring afterwards. *)
Definition flush_into (current_timestamp_us : N) (r : PreRollRing) : list Slot * PreRollRing :=
  let cap := List.length (slots r) in
  (match newest_timestamp r with
   | Some newest =>
       if (wrap_u64 (newest + frame_us r) =? current_timestamp_us)%N
       then map (λ i, slot_at r ((head r + i) mod cap)) (List.seq 0 (len r)) else []
   | None => []
   end, mkRing (slots r) (head r) 0 (frame_us r)).

(** ** The queue it implements *)

(** What the ring holds, oldest first. *)
Definition contents (r : PreRollRing) : list Slot :=
  map (λ i, slot_at r ((head r + i) mod List.length (slots r))) (List.seq 0 (len r)).

Record ring_ok (r : PreRollRing) : Prop := {
  ok_head : head r < List.length (slots r) ∨ List.length (slots r) = 0;
  ok_len : len r ≤ List.length (slots r);
}.

Lemma mod_apart a b c : a < b → b < a + c → a mod c ≠ b mod c.
Proof.
  intros H1 H2 E. pose proof (Nat.div_mod_eq a c) as Ha. pose proof (Nat.div_mod_eq b c) as Hb.
  rewrite E in Ha. assert (a / c < b / c ∨ b / c ≤ a / c) as [?|?] by lia; nia.
Qed.

Lemma contents_length r : List.length (contents r) = len r.
Proof. unfold contents. by rewrite length_map, length_seq. Qed.

(** The newest frame is the last of the queue. *)
Lemma newest_last r : newest_timestamp r = timestamp_us <$> last (contents r).
Proof.
  unfold newest_timestamp, contents. destruct (len r) as [|n]; [done|].
  rewrite seq_S, map_app. cbn [map]. rewrite last_snoc.
  replace (head r + S n - 1) with (head r + n) by lia. done.
Qed.

(** The queue a push leaves: what it continues, at most [cap] frames of it. *)
Definition keep_last (cap : nat) (l : list Slot) : list Slot := drop (List.length l - cap) l.

Definition enqueue (cap : nat) (frame_us : N) (x : Slot) (q : list Slot) : list Slot :=
  keep_last cap ((if follows (timestamp_us <$> last q) frame_us (timestamp_us x) then q else []) ++ [x]).

Lemma contents_reset r : contents (mkRing (slots r) (head r) 0 (frame_us r)) = [].
Proof. done. Qed.

Lemma contents_evict r n : len r = S n →
  contents (mkRing (slots r) ((head r + 1) mod List.length (slots r)) (len r - 1) (frame_us r)) = drop 1 (contents r).
Proof.
  intros E. unfold contents. cbn [slots head len]. rewrite E. cbn [List.seq map drop Nat.sub]. rewrite Nat.sub_0_r.
  rewrite <- seq_shift, map_map. apply map_ext. intros i. unfold slot_at. cbn [slots].
  rewrite Nat.Div0.add_mod_idemp_l. by replace (head r + 1 + i) with (head r + S i) by lia.
Qed.

(** Writing behind the last frame. *)
Lemma contents_write r x : len r < List.length (slots r) →
  contents (mkRing (<[(head r + len r) mod List.length (slots r) := x]> (slots r)) (head r) (len r + 1) (frame_us r))
  = contents r ++ [x].
Proof.
  intros Hl. unfold contents. cbn [slots head len]. rewrite length_insert, Nat.add_1_r, seq_S, map_app. cbn [map]. f_equal.
  - apply map_ext_in. intros i Hi%in_seq. unfold slot_at. cbn [slots]. rewrite list_lookup_insert_ne; [done|].
    intros E. symmetry in E. revert E. apply mod_apart; lia.
  - unfold slot_at. cbn [slots]. rewrite list_lookup_insert_eq; [done|]. apply Nat.mod_upper_bound. lia.
Qed.

Lemma push_refines t s r :
  ring_ok r → 0 < List.length (slots r) →
  contents (push t s r) = enqueue (List.length (slots r)) (frame_us r) (mkSlot t s) (contents r) ∧
  ring_ok (push t s r) ∧ List.length (slots (push t s r)) = List.length (slots r) ∧
  frame_us (push t s r) = frame_us r.
Proof.
  intros [Hh Hl] Hc. unfold push. destruct (Nat.eqb_spec (List.length (slots r)) 0) as [|_]; [lia|].
  unfold enqueue. cbn [timestamp_us]. rewrite newest_last.
  set (r1 := if follows _ _ _ then r else _).
  assert (contents r1 = (if follows (timestamp_us <$> last (contents r)) (frame_us r) t then contents r else []) ∧
    slots r1 = slots r ∧ head r1 = head r ∧ frame_us r1 = frame_us r ∧ len r1 ≤ len r) as (E1 & E2 & E3 & E4 & E5)
    by (unfold r1; destruct (follows _ _ _); repeat split; cbn; lia || done).
  rewrite <- E1. clearbody r1. rewrite <- E2, <- E4 in *. clear E1. unfold keep_last.
  rewrite length_app, contents_length. cbn [List.length].
  destruct (Nat.eqb_spec (len r1) (List.length (slots r1))) as [Ef|Ef]; cbn [slots head len frame_us].
  - destruct (len r1) as [|n] eqn:En; [lia|].
    pose proof (contents_evict r1 n En) as Hev. rewrite En in Hev.
    set (r2 := mkRing (slots r1) ((head r1 + 1) mod List.length (slots r1)) (S n - 1) (frame_us r1)) in *.
    assert (len r2 < List.length (slots r2)) as Hl2 by (cbn; lia).
    pose proof (contents_write r2 (mkSlot t s) Hl2) as Hw. cbn [slots head len frame_us r2] in Hw. split.
    + etrans; [exact Hw|]. fold r2. rewrite Hev. replace (S n + 1 - List.length (slots r1)) with 1 by lia.
      destruct (contents r1) eqn:Ec; [|done].
      apply (f_equal (List.length (A:=Slot))) in Ec. rewrite contents_length in Ec. cbn in Ec. lia.
    + split; [|split; [by rewrite length_insert|done]].
      split; cbn; rewrite length_insert; [left; apply Nat.mod_upper_bound; lia|lia].
  - replace (len r1 + 1 - List.length (slots r1)) with 0 by lia. rewrite drop_0. split; [apply contents_write; lia|].
    split; [|split; [by rewrite length_insert|done]]. split; cbn; rewrite length_insert; lia.
Qed.

Lemma flush_refines t r :
  flush_into t r =
    (match last (contents r) with
     | Some x => if follows (Some (timestamp_us x)) (frame_us r) t then contents r else []
     | None => []
     end, mkRing (slots r) (head r) 0 (frame_us r)).
Proof.
  unfold flush_into. rewrite newest_last. by destruct (last (contents r)).
Qed.

(** ** Properties *)

Definition push_all (frames : list Slot) (r : PreRollRing) : PreRollRing :=
  fold_left (λ r x, push (timestamp_us x) (samples x) r) frames r.

(** Consecutive frames, oldest first, the last of them just before [t]. *)
Fixpoint run_before (frame_us t : N) (rev_frames : list Slot) : Prop :=
  match rev_frames with
  | [] => True
  | x :: l => wrap_u64 (timestamp_us x + frame_us) = t ∧ run_before frame_us (timestamp_us x) l
  end.

Lemma run_before_take f t l n : run_before f t l → run_before f t (take n l).
Proof.
  revert t n. induction l as [|x l IH]; intros t n Hr; [by destruct n|]. destruct n as [|n]; [done|].
  destruct Hr as [He Hr]. split; [done|by apply IH].
Qed.

(** A queue of consecutive frames. *)
Definition run (f : N) (q : list Slot) : Prop :=
  match rev q with [] => True | x :: l => run_before f (timestamp_us x) l end.

Lemma run_snoc f q x : run f (q ++ [x]) ↔ run_before f (timestamp_us x) (rev q).
Proof. unfold run. by rewrite rev_app_distr. Qed.

Lemma run_before_iff f t q :
  run_before f t (rev q) ↔ follows (timestamp_us <$> last q) f t = true ∧ run f q.
Proof.
  destruct q as [|x q _] using rev_ind; [done|]. rewrite last_snoc, run_snoc, rev_app_distr. cbn.
  by rewrite N.eqb_eq.
Qed.

Lemma run_drop f q n : run f q → run f (drop n q).
Proof.
  intros Hr. destruct (decide (n ≤ List.length q)) as [Hn|Hn]; [|by rewrite drop_ge by lia].
  unfold run in *. replace n with (List.length q - (List.length q - n)) by lia. rewrite <- firstn_rev.
  destruct (rev q) as [|x l]; [by rewrite take_nil|]. destruct (List.length q - n) as [|m]; [done|].
  by apply run_before_take.
Qed.

(** After some frames: a suffix of them, consecutive, and the longest there is
    of at most [cap] frames. *)
Record best (cap : nat) (f : N) (frames q : list Slot) : Prop := {
  best_suffix : ∃ pre, frames = pre ++ q;
  best_length : List.length q ≤ cap;
  best_run : run f q;
  best_longest : ∀ pre' q', frames = pre' ++ q' → List.length q' ≤ cap → run f q' → List.length q' ≤ List.length q;
}.

Lemma best_nil cap f : best cap f [] [].
Proof.
  split; [by exists []|cbn; lia|done|]. intros pre q E _ _. symmetry in E. apply app_eq_nil in E as [_ ->]. done.
Qed.

Lemma keep_last_length cap l : List.length (keep_last cap l) = Nat.min cap (List.length l).
Proof. unfold keep_last. rewrite length_drop. lia. Qed.

Lemma best_push cap f frames q x :
  0 < cap → best cap f frames q → best cap f (frames ++ [x]) (enqueue cap f x q).
Proof.
  intros Hc [[pre Hs] Hl Hr Hb]. unfold enqueue. set (q0 := if follows _ _ _ then q else []).
  assert (∃ pre0, frames = pre0 ++ q0) as [pre0 Hs0].
  { unfold q0. destruct (follows _ _ _); [by exists pre|]. exists frames. by rewrite app_nil_r. }
  assert (run f (q0 ++ [x])) as Hr0.
  { apply run_snoc, run_before_iff. unfold q0. destruct (follows _ _ _) eqn:E; [by rewrite E|done]. }
  split.
  - unfold keep_last. exists (pre0 ++ take (List.length (q0 ++ [x]) - cap) (q0 ++ [x])).
    by rewrite <- app_assoc, take_drop, Hs0, app_assoc.
  - rewrite keep_last_length. lia.
  - by apply run_drop.
  - intros pre' q' E Hl' Hr'. rewrite keep_last_length, length_app. cbn [List.length].
    destruct q' as [|y q' _] using rev_ind; [cbn; lia|]. rewrite app_assoc in E.
    apply app_inj_tail in E as [E <-]. rewrite length_app in *. cbn [List.length] in *.
    apply run_snoc, run_before_iff in Hr' as [Hf' Hr']. apply (Hb pre' q' E) in Hr' as Hq'; [|lia].
    destruct q' as [|y q' _] using rev_ind; [cbn in *; lia|].
    assert (last q = Some y) as Hy.
    { assert (q ≠ []) as Hq by (intros ->; rewrite length_app in Hq'; cbn in Hq'; lia).
      destruct q as [|z q _] using rev_ind; [done|]. rewrite last_snoc. rewrite Hs, !app_assoc in E.
      by apply app_inj_tail in E as [_ ->]. }
    assert (q0 = q) as -> by (unfold q0; by rewrite Hy; rewrite last_snoc in Hf'; rewrite Hf'). lia.
Qed.

Lemma push_all_best cap f frames :
  0 < cap →
  let r := push_all frames (new cap f) in
  best cap f frames (contents r) ∧ ring_ok r ∧ List.length (slots r) = cap ∧ frame_us r = f.
Proof.
  intros Hc. induction frames as [|x frames IH] using rev_ind; cbv zeta.
  - split; [exact (best_nil cap f)|]. split; [split; cbn; rewrite length_replicate; lia|].
    split; [apply length_replicate|done].
  - cbv zeta in IH. destruct IH as (I1 & I2 & I3 & I4). unfold push_all in *. rewrite fold_left_app. cbn [fold_left].
    set (r := fold_left _ frames _) in *.
    destruct (push_refines (timestamp_us x) (samples x) r I2) as (P1 & P2 & P3 & P4); [lia|].
    split; [|split; [done|split; congruence]]. rewrite P1, I3, I4.
    replace (mkSlot (timestamp_us x) (samples x)) with x by (by destruct x). by apply best_push.
Qed.

(** Opening the gate at [t] hands out the longest run of the last
    suppressed frames, of at most [capacity] of them, whose timestamps follow one
    another and end just before [t]; in particular a run of another capture
    gives nothing.  Each frame comes out once, in order and unchanged, and the
    ring is empty afterwards. *)
Theorem flush_after_pushes (capacity : nat) (f t : N) (frames : list Slot) :
  0 < capacity →
  let '(out, r) := flush_into t (push_all frames (new capacity f)) in
  (∃ pre, frames = pre ++ out) ∧ List.length out ≤ capacity ∧ run_before f t (rev out) ∧
  (∀ pre' out', frames = pre' ++ out' → List.length out' ≤ capacity → run_before f t (rev out') →
     List.length out' ≤ List.length out) ∧
  contents r = [].
Proof.
  intros Hc. rewrite flush_refines. destruct (push_all_best capacity f frames Hc) as ([[pre Hs] Hl Hr Hb] & _ & _ & Hf).
  rewrite Hf. set (q := contents _) in *. clearbody q.
  destruct (match last q with Some _ => _ | None => _ end) as [|z l] eqn:Eout.
  - split; [exists frames; by rewrite app_nil_r|]. split; [cbn; lia|]. split; [done|]. split; [|done].
    intros pre' q' E Hl' [Hf' Hr']%run_before_iff. apply (Hb pre' q' E) in Hr' as Hq'; [|done].
    destruct q' as [|y q' _] using rev_ind; [done|]. rewrite last_snoc in Hf'.
    destruct q as [|w q _] using rev_ind; [rewrite length_app in Hq'; cbn in Hq'; lia|].
    rewrite last_snoc in Eout. rewrite Hs, !app_assoc in E. apply app_inj_tail in E as [_ ->].
    change (timestamp_us <$> Some y) with (Some (timestamp_us y)) in Hf'. rewrite Hf' in Eout. by destruct q.
  - assert (z :: l = q) as <-.
    { destruct (last q); [destruct (follows _ _ _)|]; done. }
    split; [by exists pre|]. split; [done|]. split; [|split; [|done]].
    + apply run_before_iff. split; [|done]. destruct (last (z :: l)) as [w|]; [|done].
      change (timestamp_us <$> Some w) with (Some (timestamp_us w)). by destruct (follows _ _ _).
    + intros pre' q' E Hl' [_ Hr']%run_before_iff. by apply (Hb pre').
Qed.
End ring.

(** ** Witness *)

(** Three frames of a run, after one of an older run, in a ring for two. *)
Lemma flush_after_pushes_witness :
  let frame n := mkSlot (A := nat) (n * 20000) [N.to_nat n] in
  (flush_into 80000 (push_all [mkSlot 5 [0]; frame 1%N; frame 2%N; frame 3%N] (new 2 20000))).1 =
    [frame 2%N; frame 3%N] ∧
  run_before 20000 80000 (rev [frame 2%N; frame 3%N]).
Proof.
  cbv zeta. set (fs := [_; _; _; _]).
  pose proof (flush_after_pushes 2 20000 80000 fs ltac:(lia)) as H.
  assert (flush_into 80000 (push_all fs (new 2 20000)) =
    ([mkSlot (2 * 20000) [2]; mkSlot (3 * 20000) [3]], (flush_into 80000 (push_all fs (new 2 20000))).2)) as E
    by (vm_compute; reflexivity).
  rewrite E in H |- *. split; [reflexivity|]. apply H.
Defined.
End PreRoll.
