(* ===== verification/Reconcile.v ===== *)
(** The Mumble bridge: the id maps of [crates/mumble-bridge/src/state.rs] and
    the full-state reconciliation of [crates/mumble-bridge/src/reconcile.rs].

    A [u32] is an [N] below [2 ^ 32].  The two maps of the code have one shape,
    [IdMap].  A generated Mumble message is a constructor with the fields the
    bridge sets. *)
From Stdlib Require Import NArith ZArith Lia String.
From stdpp Require Import base gmap strings list sorting.
From S2P Require Import Prelude Proto Types Wire State World Acl.

Module Reconcile.
Local Arguments Types.ROOT_ROOM_UUID : simpl never.
Open Scope list_scope.

(** ** The id maps *)

Section idmap.
Context {K : Type} `{Countable K}.

Record IdMap := mkIdMap {
  rumble_to_mumble : gmap K N;
  mumble_to_rumble : gmap N K;
  next_id : N;
}.

Definition id_of (m : IdMap) (k : K) : option N := rumble_to_mumble m !! k.
Definition key_of (m : IdMap) (i : N) : option K := mumble_to_rumble m !! i.

Definition bind_id (k : K) (i : N) (m : IdMap) : IdMap :=
  mkIdMap (<[k := i]> (rumble_to_mumble m)) (<[i := k]> (mumble_to_rumble m)) (next_id m).

(** The known id, or the next one. *)
Definition get_or_assign (k : K) (m : IdMap) : N * IdMap :=
  match rumble_to_mumble m !! k with
  | Some id => (id, m)
  | None =>
      let id := next_id m in
      (id, bind_id k id (mkIdMap (rumble_to_mumble m) (mumble_to_rumble m) (wrap_u32 (id + 1))))
  end.

Definition remove_key (k : K) (m : IdMap) : IdMap :=
  match rumble_to_mumble m !! k with
  | Some id => mkIdMap (delete k (rumble_to_mumble m)) (delete id (mumble_to_rumble m)) (next_id m)
  | None => m
  end.

Definition keys (m : IdMap) : list K := fst <$> map_to_list (rumble_to_mumble m).
Definition entries (m : IdMap) : list (K * N) := map_to_list (rumble_to_mumble m).
End idmap.
Arguments IdMap K {_ _}.

(** Rooms to channels.  Root is channel 0. *)
Abbreviation ChannelMap := (IdMap Types.Uuid).
Definition ChannelMap_new : ChannelMap := mkIdMap ∅ ∅ 1.
Definition channel_get_or_insert (uuid : Types.Uuid) (m : ChannelMap) : N * ChannelMap :=
  if bool_decide (uuid = Types.ROOT_ROOM_UUID) then (0%N, bind_id uuid 0 m) else get_or_assign uuid m.

(** Users to proxy sessions. *)
Abbreviation UserMap := (IdMap N).
Definition UserMap_new : UserMap := mkIdMap ∅ ∅ 100000.

(** ** Reconciliation *)

Record SkipRules := mkSkip {
  bridge_user_id : option N;
  virtual_user_ids : gset N;
  pending_usernames : gset string;
}.
Definition skips (skip : SkipRules) (user : Types.User) : bool :=
  bool_decide (Some (Types.user_id user) = bridge_user_id skip)
  || bool_decide (Types.user_id user ∈ virtual_user_ids skip)
  || bool_decide (Types.username user ∈ pending_usernames skip).

Inductive SyncMessage :=
  | UserRemove (session : N) (reason : option string)
  | UserState (session actor : option N) (name : option string) (channel_id : option N) (self_mute self_deaf : option bool)
  | ChannelRemove (channel_id : N)
  | ChannelState (channel_id parent : option N) (name description : option string).

Record ReconcileOutput := mkOutput { messages : list SyncMessage; removed_user_ids : list N }.

(** [.iter().map(..).collect::<HashMap<..>>()]: a later entry replaces an
    earlier one. *)
Definition collect {K A} `{Countable K} (key : A → K) (l : list A) : gmap K A :=
  fold_left (λ m x, <[key x := x]> m) l ∅.

(** The loop has [depth <= old_by_uuid.len()] rounds at most. *)
Fixpoint depth_walk (rounds : nat) (old_by_uuid : gmap Types.Uuid Types.Room) (cur : Types.Uuid) (depth : nat)
    : nat :=
  match rounds with
  | O => depth
  | S rounds =>
      if bool_decide (cur = Types.ROOT_ROOM_UUID) then depth
      else match old_by_uuid !! cur with
           | Some room => depth_walk rounds old_by_uuid (Types.room_parent room) (S depth)
           | None => depth
           end
  end.
Definition old_depth (uuid : Types.Uuid) (old_by_uuid : gmap Types.Uuid Types.Room) : nat :=
  depth_walk (S (size old_by_uuid)) old_by_uuid uuid 0.

(** Users that are gone: their proxies are removed, in order of id. *)
Definition pair_le (a b : N * N) : bool :=
  (a.1 <? b.1)%N || ((a.1 =? b.1)%N && (a.2 <=? b.2)%N).
Definition vanished (users : UserMap) (new_user_ids : list N) : list (N * N) :=
  Wire.sort_by pair_le (retain (λ e, negb (bool_decide (e.1 ∈ new_user_ids))) (entries users)).
Definition drop_user (e : N * N) (st : ReconcileOutput * UserMap) : ReconcileOutput * UserMap :=
  (mkOutput (messages st.1 ++ [UserRemove e.2 (Some "Left"%string)]) (removed_user_ids st.1 ++ [e.1]), remove_key e.1 st.2).

(** Channels, parents first.  The queue holds the rooms themselves where the
    code has their indices. *)
Definition children_map (rooms : list Types.Room) : gmap Types.Uuid (list Types.Room) :=
  fold_left (λ m r, if bool_decide (Types.room_id r = Types.ROOT_ROOM_UUID) then m
                    else St.push_at (Types.room_parent r) r m) rooms ∅.

Definition room_changed (old : option Types.Room) (room : Types.Room) : bool :=
  match old with
  | None => true
  | Some old => negb (bool_decide (Types.room_name old = Types.room_name room))
                || negb (bool_decide (Types.room_description old = Types.room_description room))
                || negb (bool_decide (Types.room_parent old = Types.room_parent room))
  end.

Definition sync_room (old_rooms : gmap Types.Uuid Types.Room) (room : Types.Room) (channels : ChannelMap)
    : list SyncMessage * ChannelMap :=
  let '(channel_id, channels) := channel_get_or_insert (Types.room_id room) channels in
  let '(parent, channels) :=
    if bool_decide (Types.room_id room = Types.ROOT_ROOM_UUID) then (None, channels)
    else let '(p, channels) := channel_get_or_insert (Types.room_parent room) channels in (Some p, channels) in
  (if room_changed (old_rooms !! Types.room_id room) room
   then [ChannelState (Some channel_id) parent (Some (Types.room_name room)) (Types.room_description room)] else [], channels).

(** [None]: the fuel ran out, the loop would go on. *)
Fixpoint sync_rooms (fuel : nat) (old_rooms : gmap Types.Uuid Types.Room)
    (children_of : gmap Types.Uuid (list Types.Room)) (queue : list Types.Room)
    (acc : list SyncMessage * ChannelMap) : option (list SyncMessage * ChannelMap) :=
  match queue with
  | [] => Some acc
  | room :: queue =>
      match fuel with
      | O => None
      | S fuel =>
          let '(ms, channels) := sync_room old_rooms room acc.2 in
          sync_rooms fuel old_rooms children_of (queue ++ default [] (children_of !! Types.room_id room))
            (acc.1 ++ ms, channels)
      end
  end.

Definition first_queue (rooms : list Types.Room) (children_of : gmap Types.Uuid (list Types.Room)) : list Types.Room :=
  match List.find (St.has_room_id Types.ROOT_ROOM_UUID) rooms with
  | Some root => [root]
  | None => default [] (children_of !! Types.ROOT_ROOM_UUID)
  end.

Definition user_changed (session : option N) (old : option Types.User) (user : Types.User) : bool :=
  match session, old with
  | None, _ => true
  | Some _, None => true
  | Some _, Some old => negb (bool_decide (Types.username old = Types.username user))
                        || negb (bool_decide (Types.current_room old = Types.current_room user))
                        || negb (Bool.eqb (Types.is_muted old) (Types.is_muted user))
                        || negb (Bool.eqb (Types.is_deafened old) (Types.is_deafened user))
  end.

Definition sync_user (old_users : gmap N Types.User) (user : Types.User)
    (st : list SyncMessage * ChannelMap * UserMap) : list SyncMessage * ChannelMap * UserMap :=
  let '(ms, channels, users) := st in
  let '(channel_id, channels) := channel_get_or_insert (Types.current_room user) channels in
  let changed := user_changed (id_of users (Types.user_id user)) (old_users !! Types.user_id user) user in
  let '(session, users) := get_or_assign (Types.user_id user) users in
  (ms ++ (if changed then [UserState (Some session) None (Some (Types.username user)) (Some channel_id)
                              (Some (Types.is_muted user)) (Some (Types.is_deafened user))]
          else []), channels, users).

(** Channels that are gone, deepest first. *)
Definition depth_le (a b : nat * N) : bool := Nat.ltb b.1 a.1 || (Nat.eqb a.1 b.1 && (a.2 <=? b.2)%N).
Definition depth_id_le (a b : nat * N * Types.Uuid) : bool := depth_le a.1 b.1.
Definition removed_channels (old_rooms : gmap Types.Uuid Types.Room) (new_uuids : list Types.Uuid)
    (channels : ChannelMap) : list (nat * N * Types.Uuid) :=
  Wire.sort_by depth_id_le
    (map (λ uuid, (old_depth uuid old_rooms, default 0%N (id_of channels uuid), uuid))
       (retain (λ uuid, negb (bool_decide (uuid = Types.ROOT_ROOM_UUID)) && negb (bool_decide (uuid ∈ new_uuids)))
          (keys channels))).
Definition drop_channel (st : list SyncMessage * ChannelMap) (e : nat * N * Types.Uuid) : list SyncMessage * ChannelMap :=
  (st.1 ++ [ChannelRemove e.1.2], remove_key e.2 st.2).

Definition reconcile_server_state (fuel : nat) (old_rooms : list Types.Room) (old_users : list Types.User)
    (new_rooms : list Types.Room) (new_users : list Types.User) (channels : ChannelMap) (users : UserMap)
    (skip : SkipRules) : option (ReconcileOutput * ChannelMap * UserMap) :=
  let old_room_by_uuid := collect Types.room_id old_rooms in
  let old_user_by_id := collect Types.user_id old_users in
  let wanted := retain (λ u, negb (skips skip u)) new_users in
  let gone := vanished users (map Types.user_id wanted) in
  let '(out, users) := fold_left (λ st e, drop_user e st) gone (mkOutput [] [], users) in
  let children_of := children_map new_rooms in
  '(ms, channels) ← sync_rooms fuel old_room_by_uuid children_of (first_queue new_rooms children_of)
                      (messages out, channels);
  let '(ms, channels, users) :=
    fold_left (λ st u, sync_user old_user_by_id u st) wanted (ms, channels, users) in
  let '(ms, channels) :=
    fold_left drop_channel (removed_channels old_room_by_uuid (map Types.room_id new_rooms) channels) (ms, channels) in
  Some (mkOutput ms (removed_user_ids out), channels, users).

(** ** What Mumble clients show *)

Record Channel := mkChannel { ch_parent : option N; ch_name : string; ch_description : option string }.
Record MumbleUser := mkMumbleUser { mu_name : string; mu_channel : N; mu_mute : bool; mu_deaf : bool }.
Record View := mkView { v_channels : gmap N Channel; v_users : gmap N MumbleUser }.

(** The first of two optional fields that is set: what a Mumble message leaves
    out stays as it was. *)
Definition or_old {A} (new old : option A) : option A := match new with Some x => Some x | None => old end.

(** One message.  [None]: the message refers to a channel or a user that does not
    exist, or removes a channel that is still in use. *)
Definition show (m : SyncMessage) (v : View) : option View :=
  match m with
  | UserRemove session _ => Some (mkView (v_channels v) (delete session (v_users v)))
  | UserState None _ _ _ _ _ => Some v
  | UserState (Some session) _ name channel mute deaf =>
      let old := v_users v !! session in
      let channel := default 0%N (or_old channel (mu_channel <$> old)) in
      match or_old name (mu_name <$> old), v_channels v !! channel with
      | Some name, Some _ =>
          Some (mkView (v_channels v) (<[session := mkMumbleUser name channel
            (default false (or_old mute (mu_mute <$> old))) (default false (or_old deaf (mu_deaf <$> old)))]> (v_users v)))
      | _, _ => None
      end
  | ChannelRemove channel =>
      if bool_decide (map_Forall (λ _ c, ch_parent c ≠ Some channel) (v_channels v))
         && bool_decide (map_Forall (λ _ u, mu_channel u ≠ channel) (v_users v))
      then Some (mkView (delete channel (v_channels v)) (v_users v)) else None
  | ChannelState None _ _ _ => Some v
  | ChannelState (Some channel) parent name description =>
      let old := v_channels v !! channel in
      match or_old name (ch_name <$> old) with
      | Some name =>
          let new := mkChannel (or_old parent (old ≫= ch_parent)) name (or_old description (old ≫= ch_description)) in
          let v' := mkView (<[channel := new]> (v_channels v)) (v_users v) in
          match parent with
          | Some p => match v_channels v !! p with Some _ => Some v' | None => None end
          | None => Some v'
          end
      | None => None
      end
  end.

Fixpoint show_all (ms : list SyncMessage) (v : View) : option View :=
  match ms with [] => Some v | m :: ms => show m v ≫= show_all ms end.

Lemma show_all_app ms ms' v : show_all (ms ++ ms') v = show_all ms v ≫= show_all ms'.
Proof. revert v. induction ms as [|m ms IH]; intros v; [done|]. cbn. destruct (show m v); [apply IH|done]. Qed.

(** ** The maps are bijections *)

Section idmap_laws.
Context {K : Type} `{Countable K}.
Implicit Types m : IdMap K.

Record idmap_ok m : Prop := {
  ok_inverse : ∀ k i, id_of m k = Some i ↔ key_of m i = Some k;
  ok_fresh : ∀ k i, id_of m k = Some i → (i < next_id m)%N;
}.

Lemma id_of_inj m k k' i : idmap_ok m → id_of m k = Some i → id_of m k' = Some i → k = k'.
Proof. intros [Hi _] H1 H2. apply Hi in H1, H2. congruence. Qed.

Lemma bind_ok k i m :
  idmap_ok m → id_of m k = None → key_of m i = None → (i < next_id m)%N → idmap_ok (bind_id k i m).
Proof.
  intros [Hi Hf] Hk Hn Hlt. split; unfold id_of, key_of in *; cbn.
  - intros k' i'. destruct (decide (k' = k)) as [->|Hk'].
    + rewrite lookup_insert_eq. split; [intros [= <-]; by rewrite lookup_insert_eq|].
      intros E. destruct (decide (i' = i)) as [->|Hne]; [done|]. rewrite lookup_insert_ne in E by done.
      apply Hi in E. congruence.
    + rewrite lookup_insert_ne by done. destruct (decide (i' = i)) as [->|Hne].
      * rewrite lookup_insert_eq. split; [intros E%Hi; congruence|congruence].
      * rewrite lookup_insert_ne by done. apply Hi.
  - intros k' i' [[-> <-]|[_ E]]%lookup_insert_Some; [done|]. by eapply Hf.
Qed.

Lemma get_or_assign_spec k m :
  idmap_ok m → (next_id m + 1 < 2 ^ 32)%N →
  let '(i, m') := get_or_assign k m in
  idmap_ok m' ∧ id_of m' k = Some i ∧ (∀ k', k' ≠ k → id_of m' k' = id_of m k') ∧
  (next_id m <= next_id m' <= next_id m + 1)%N ∧ (is_Some (id_of m k) → m' = m) ∧
  (id_of m k = None → i = next_id m).
Proof.
  intros Hok Hn. unfold get_or_assign. destruct (rumble_to_mumble m !! k) as [i|] eqn:Ek.
  - split_and!; [done|done|done|lia|lia|done|]. intros E. unfold id_of in E. congruence.
  - unfold wrap_u32. rewrite N.mod_small by done. split_and!.
    + apply bind_ok; [|done| |cbn; lia].
      * destruct Hok as [Hi Hf]. split; [exact Hi|]. intros k' i' E. cbn. specialize (Hf k' i' E). lia.
      * destruct (key_of m (next_id m)) as [k'|] eqn:E; [|exact E]. destruct Hok as [Hi Hf].
        apply Hi, Hf in E. lia.
    + unfold id_of. cbn. by rewrite lookup_insert_eq.
    + intros k' Hk'. unfold id_of. cbn. by rewrite lookup_insert_ne.
    + cbn. lia.
    + cbn. lia.
    + intros [i E]. unfold id_of in E. congruence.
    + done.
Qed.

Lemma remove_key_spec k m :
  idmap_ok m →
  idmap_ok (remove_key k m) ∧ (∀ k', id_of (remove_key k m) k' = if decide (k' = k) then None else id_of m k') ∧
  next_id (remove_key k m) = next_id m.
Proof.
  intros [Hi Hf]. unfold remove_key. destruct (rumble_to_mumble m !! k) as [i|] eqn:Ek.
  - assert (∀ k', id_of (mkIdMap (delete k (rumble_to_mumble m)) (delete i (mumble_to_rumble m)) (next_id m)) k' =
      if decide (k' = k) then None else id_of m k') as Hd.
    { intros k'. unfold id_of. cbn. destruct (decide (k' = k)) as [->|Hne]; [by rewrite lookup_delete_eq|by rewrite lookup_delete_ne]. }
    split; [|by split]. split.
    + intros k' j. rewrite Hd. unfold key_of. cbn. destruct (decide (k' = k)) as [->|Hk].
      * split; [done|]. intros [Hne E]%lookup_delete_Some. apply Hi in E. unfold id_of in E. congruence.
      * rewrite Hi. unfold key_of. destruct (decide (j = i)) as [->|Hj].
        -- rewrite lookup_delete_eq. split; [|done]. intros E. apply Hi in Ek. unfold key_of in Ek. congruence.
        -- by rewrite lookup_delete_ne.
    + intros k' j. rewrite Hd. destruct (decide (k' = k)); [done|]. apply Hf.
  - split; [by split|split; [|done]]. intros k'. destruct (decide (k' = k)) as [->|]; [exact Ek|done].
Qed.
End idmap_laws.

(** Root is channel 0, and only Root. *)
Record channels_ok (m : ChannelMap) : Prop := {
  ch_ok : idmap_ok m;
  ch_zero : ∀ k, id_of m k = Some 0%N ↔ k = Types.ROOT_ROOM_UUID ∧ is_Some (id_of m k);
  ch_next : (1 <= next_id m)%N;
}.

Lemma channel_get_spec k m :
  channels_ok m → (next_id m + 1 < 2 ^ 32)%N →
  let '(i, m') := channel_get_or_insert k m in
  channels_ok m' ∧ id_of m' k = Some i ∧ (∀ k', k' ≠ k → id_of m' k' = id_of m k') ∧
  (next_id m <= next_id m' <= next_id m + 1)%N ∧ (is_Some (id_of m k) → m' = m).
Proof.
  intros [Hok Hz Hn1] Hn. unfold channel_get_or_insert. case_bool_decide as Hk.
  - subst k. destruct (id_of m Types.ROOT_ROOM_UUID) as [i|] eqn:E.
    + assert (i = 0%N) as ->.
      { assert (id_of m Types.ROOT_ROOM_UUID = Some 0%N) as E0 by (apply Hz; rewrite E; eauto). congruence. }
      assert (bind_id Types.ROOT_ROOM_UUID 0 m = m) as ->.
      { pose proof (proj1 (ok_inverse m Hok _ _) E) as E'. unfold id_of, key_of in E, E'. destruct m as [a b c].
        unfold bind_id. cbn in *. by rewrite !insert_id. }
      split_and!; [done|done|done|lia|lia|done].
    + split_and!.
      * split; [|intros k|done].
        -- apply bind_ok; [done|done| |lia]. destruct (key_of m 0%N) as [k|] eqn:E0; [|done].
           apply (ok_inverse m Hok) in E0 as E1. apply Hz in E1 as [-> _]. apply (ok_inverse m Hok) in E0. congruence.
        -- unfold id_of in *. cbn. destruct (decide (k = Types.ROOT_ROOM_UUID)) as [->|Hne].
           ++ rewrite lookup_insert_eq. split; [by eauto|done].
           ++ rewrite lookup_insert_ne by done. apply Hz.
      * unfold id_of. cbn. by rewrite lookup_insert_eq.
      * intros k' Hk'. unfold id_of. cbn. by rewrite lookup_insert_ne.
      * cbn. lia.
      * cbn. lia.
      * by intros [? ?].
  - pose proof (get_or_assign_spec k m Hok Hn) as Hg. destruct (get_or_assign k m) as [i m'].
    destruct Hg as (G1 & G2 & G3 & G4 & G5 & G6). split_and!; try done; try lia. split; [done| |lia].
    intros k'. destruct (decide (k' = k)) as [->|Hne]; [|by rewrite G3].
    rewrite G2. split; [|by intros [? _]]. intros [= ->]. destruct (id_of m k) as [j|] eqn:E.
    + rewrite (G5 ltac:(by eauto)) in G2. rewrite G2 in E. injection E as <-. apply Hz in G2 as [? _]. done.
    + specialize (G6 eq_refl). lia.
Qed.

(** ** What a list of entities looks like through a map *)

Section shown.
Context {K : Type} `{Countable K} {A B : Type} (key : A → K).
Implicit Types (m : IdMap K) (l : list A) (g : gmap N B) (render : A → B).

(** [g] shows the rendering of every entity of [l] that has an id, and nothing
    else. *)
Definition shown render m l g : Prop :=
  ∀ i b, g !! i = Some b ↔ ∃ a, a ∈ l ∧ id_of m (key a) = Some i ∧ b = render a.

(** The entities done so far, and the old ones they do not replace. *)
Definition overlay (done old : list A) : list A :=
  done ++ retain (λ a, negb (bool_decide (key a ∈ key <$> done))) old.

Definition extends m m' : Prop := ∀ k i, id_of m k = Some i → id_of m' k = Some i.

Lemma elem_of_overlay done old a :
  a ∈ overlay done old ↔ a ∈ done ∨ a ∈ old ∧ key a ∉ key <$> done.
Proof.
  unfold overlay. rewrite elem_of_app, elem_of_retain, Bool.negb_true_iff, bool_decide_eq_false. tauto.
Qed.

Lemma shown_ext render render' m m' l l' g :
  (∀ a i, id_of m (key a) = Some i → (a ∈ l ↔ a ∈ l')) →
  (∀ a, a ∈ l → id_of m (key a) = id_of m' (key a)) → (∀ a, a ∈ l' → id_of m (key a) = id_of m' (key a)) →
  (∀ a i, a ∈ l → id_of m (key a) = Some i → render a = render' a) →
  shown render m l g → shown render' m' l' g.
Proof.
  intros Hl Hm Hm' Hr Hs i b. rewrite (Hs i b). split; intros (a & Ha & Hi & ->).
  - exists a. split_and!; [by eapply Hl|by rewrite <- Hm|by eapply Hr].
  - rewrite <- Hm' in Hi by done. apply (Hl _ _ Hi) in Ha. exists a. split_and!; [done..|].
    symmetry. by eapply Hr.
Qed.

Lemma shown_step render render' m m' done old a i g :
  idmap_ok m' → extends m m' → (∀ k, k ≠ key a → id_of m' k = id_of m k) → id_of m' (key a) = Some i →
  key a ∉ key <$> done →
  (∀ x, x ∈ overlay done old → key x ≠ key a → render' x = render x) →
  shown render m (overlay done old) g →
  shown render' m' (overlay (done ++ [a]) old) (<[i := render' a]> g).
Proof.
  intros Hok Hext Hsame Ha Hnot Hr Hs j b.
  assert (∀ x, x ∈ overlay (done ++ [a]) old ↔ x = a ∨ x ∈ overlay done old ∧ key x ≠ key a) as Hov.
  { intros x. rewrite !elem_of_overlay, fmap_app, !elem_of_app. cbn. rewrite !list_elem_of_singleton.
    split; [intros [[Hx| ->]|[Hx Hk]]|intros [->|[[Hx|[Hx Hk]] Hne]]]; [|by left|right|by left; right|..].
    - right. split; [by left|]. intros E. apply Hnot. rewrite <- E. by apply list_elem_of_fmap_2.
    - split; [right; split; [done|]; tauto|]. tauto.
    - by left; left.
    - right. split; [done|]. tauto. }
  destruct (decide (j = i)) as [->|Hne].
  - rewrite lookup_insert_eq. split.
    + intros [= <-]. exists a. split_and!; [by apply Hov; left|done|done].
    + intros (x & [->|[_ Hk]]%Hov & Hi & ->); [done|]. by destruct Hk, (id_of_inj m' (key x) (key a) i).
  - rewrite lookup_insert_ne by done. rewrite (Hs j b). split; intros (x & Hx & Hi & ->).
    + assert (key x ≠ key a) as Hk by (intros E; rewrite E in Hi; apply Hext in Hi; congruence).
      exists x. split_and!; [apply Hov; by right|by apply Hext|symmetry; by apply Hr].
    + apply Hov in Hx as [->|[Hx Hk]]; [congruence|]. exists x. rewrite <- Hsame by done.
      split_and!; [done|done|by apply Hr].
Qed.

Lemma shown_remove render m l g k i :
  idmap_ok m → id_of m k = Some i → shown render m l g → shown render (remove_key k m) l (delete i g).
Proof.
  intros Hok Hk Hs j b. destruct (remove_key_spec k m Hok) as (_ & Hrem & _). rewrite lookup_delete_Some, (Hs j b).
  split.
  - intros (Hne & a & Ha & Hi & ->). exists a. rewrite Hrem. case_decide as E; [congruence|done].
  - intros (a & Ha & Hi & ->). rewrite Hrem in Hi. case_decide as E; [done|]. split; [|by exists a].
    intros ->. by destruct E, (id_of_inj m (key a) k j).
Qed.

Lemma shown_lookup render m l g a i :
  shown render m l g → a ∈ l → id_of m (key a) = Some i → g !! i = Some (render a).
Proof. intros Hs Ha Hi. apply Hs. by exists a. Qed.
End shown.

Lemma collect_dom {K A} `{Countable K} (key : A → K) (l : list A) (m : gmap K A) k :
  is_Some (fold_left (λ m x, <[key x := x]> m) l m !! k) ↔ k ∈ key <$> l ∨ is_Some (m !! k).
Proof.
  revert m. induction l as [|x l IH]; intros m; cbn.
  - split; [by right|]. intros [?%elem_of_nil|?]; done.
  - rewrite IH, elem_of_cons, lookup_insert_is_Some. destruct (decide (key x = k)); naive_solver.
Qed.

Lemma collect_lookup {K A} `{Countable K} (key : A → K) (l : list A) k x :
  NoDup (key <$> l) → collect key l !! k = Some x ↔ x ∈ l ∧ key x = k.
Proof.
  intros Hnd. unfold collect.
  enough (∀ m : gmap K A, fold_left (λ m x, <[key x := x]> m) l m !! k = Some x ↔
    (x ∈ l ∧ key x = k) ∨ (k ∉ key <$> l ∧ m !! k = Some x)) as Hm.
  { rewrite Hm, lookup_empty. naive_solver. }
  induction l as [|y l IH]; intros m; cbn.
  - rewrite !elem_of_nil. naive_solver.
  - cbn in Hnd. apply NoDup_cons in Hnd as [Hy Hnd]. rewrite (IH Hnd), !elem_of_cons, lookup_insert_Some. split.
    + intros [[Hx Hk]|(Hk & [[Hk' ->]|[Hk' Hm]])]; [by left; split; [right|]|by left; split; [left|]|].
      right. split; [|done]. intros [->|?]; done.
    + intros [[[->|Hx] Hk]|[Hk Hm]]; [|by left|].
      * right. subst k. split; [done|by left].
      * right. split; [tauto|]. right. split; [|done]. intros <-. tauto.
Qed.

Lemma collect_size {K A} `{Countable K} (key : A → K) (l : list A) :
  NoDup (key <$> l) → size (collect key l) = List.length l.
Proof.
  intros Hnd. rewrite <- (length_fmap key), <- (size_list_to_set (C := gset K)) by done.
  rewrite <- size_dom. f_equal. apply set_eq. intros k. rewrite elem_of_dom, elem_of_list_to_set.
  unfold collect. rewrite collect_dom, lookup_empty. split; [|by left]. intros [?|[? ?]]; done.
Qed.

(** ** Snapshots and their projection *)

Record snapshot_ok (rooms : list Types.Room) (users : list Types.User) : Prop := {
  so_ids : NoDup (Types.room_id <$> rooms);
  so_root : rooms = [] ∨ Types.ROOT_ROOM_UUID ∈ Types.room_id <$> rooms;
  so_tree : ∀ r, r ∈ rooms → ∃ p, Acl.ancestors rooms (Types.room_id r) p;
  so_users : NoDup (Types.user_id <$> users);
  so_placed : ∀ u, u ∈ users → Types.current_room u ∈ Types.room_id <$> rooms;
}.

Definition channel_of (channels : ChannelMap) (r : Types.Room) : Channel :=
  mkChannel (if bool_decide (Types.room_id r = Types.ROOT_ROOM_UUID) then None else id_of channels (Types.room_parent r))
    (Types.room_name r) (Types.room_description r).
Definition user_of (channels : ChannelMap) (u : Types.User) : MumbleUser :=
  mkMumbleUser (Types.username u) (default 0%N (id_of channels (Types.current_room u)))
    (Types.is_muted u) (Types.is_deafened u).

(** The Mumble side shows every room, and every user that has a proxy session. *)
Record projected (rooms : list Types.Room) (users : list Types.User) (channels : ChannelMap) (sessions : UserMap)
    (v : View) : Prop := {
  pr_channels : channels_ok channels;
  pr_sessions : idmap_ok sessions;
  pr_mapped : ∀ r, r ∈ rooms → is_Some (id_of channels (Types.room_id r));
  pr_rooms : shown Types.room_id (channel_of channels) channels rooms (v_channels v);
  pr_users : shown Types.user_id (user_of channels) sessions users (v_users v);
}.

(** A description of a room that stays does not disappear. *)
Definition descriptions_kept (old new : list Types.Room) : Prop :=
  ∀ o r, o ∈ old → r ∈ new → Types.room_id o = Types.room_id r →
    is_Some (Types.room_description o) → is_Some (Types.room_description r).

Lemma parent_known rooms users r :
  snapshot_ok rooms users → r ∈ rooms → Types.room_id r ≠ Types.ROOT_ROOM_UUID →
  Types.room_parent r ∈ Types.room_id <$> rooms ∧
  ∃ p, Acl.ancestors rooms (Types.room_parent r) p ∧ Acl.ancestors rooms (Types.room_id r) (Types.room_id r :: p).
Proof.
  intros [Hids Hroot Htree _ _] Hr Hne. destruct (Htree r Hr) as [p Hp]. pose proof Hp as Hp0.
  inversion Hp as [|r' x p' Hne' Hx Hp' E]; subst; [congruence|].
  apply find_Some_iff in Hx as [Hx Hid]. apply bool_decide_eq_true in Hid.
  assert (x = r) as -> by (by apply (NoDup_fmap_inj Types.room_id rooms)). split; [|by exists p'].
  inversion Hp' as [E|r' y p'' Hne'' Hy Hp'' E]; subst.
  - destruct Hroot as [->|Hroot]; [by apply elem_of_nil in Hr|]. exact Hroot.
  - apply find_Some_iff in Hy as [Hy Hyid]. apply bool_decide_eq_true in Hyid. rewrite <- Hyid.
    by apply list_elem_of_fmap_2.
Qed.

Lemma channel_get_known k i m : channels_ok m → id_of m k = Some i → channel_get_or_insert k m = (i, m).
Proof.
  intros [Hok Hz _] Hi. unfold channel_get_or_insert. case_bool_decide as Hk.
  - subst k. assert (id_of m Types.ROOT_ROOM_UUID = Some 0%N) as E0 by (apply Hz; eauto).
    assert (i = 0%N) as -> by congruence. f_equal. pose proof (proj1 (ok_inverse m Hok _ _) E0) as E'.
    unfold id_of, key_of in E0, E'. destruct m as [a b c]. unfold bind_id. cbn in *. by rewrite !insert_id.
  - unfold get_or_assign. unfold id_of in Hi. by rewrite Hi.
Qed.

Lemma channels_inj m k k' i : channels_ok m → id_of m k = Some i → id_of m k' = Some i → k = k'.
Proof. intros [Hok _ _]. by apply id_of_inj. Qed.

(** ** Users that are gone *)

Lemma drop_users_run gone out um :
  fold_left (λ st e, drop_user e st) gone (out, um) =
  (mkOutput (messages out ++ map (λ e, UserRemove e.2 (Some "Left"%string)) gone) (removed_user_ids out ++ gone.*1),
   fold_left (λ m k, remove_key k m) gone.*1 um).
Proof.
  revert out um. induction gone as [|e gone IH]; intros out um; cbn.
  - destruct out. cbn. by rewrite !app_nil_r.
  - unfold drop_user at 2. cbn. rewrite IH. cbn. by rewrite <- !app_assoc.
Qed.

Lemma remove_keys_spec {K} `{Countable K} (l : list K) (m : IdMap K) :
  idmap_ok m →
  let m' := fold_left (λ m k, remove_key k m) l m in
  idmap_ok m' ∧ (∀ k, id_of m' k = if decide (k ∈ l) then None else id_of m k) ∧ next_id m' = next_id m.
Proof.
  revert m. induction l as [|x l IH]; intros m Hok; cbn.
  - split; [done|split; [|done]]. intros k. case_decide as E; [by apply elem_of_nil in E|done].
  - destruct (remove_key_spec x m Hok) as (Hok' & Hr & Hn). destruct (IH (remove_key x m) Hok') as (I1 & I2 & I3).
    split; [done|split; [|congruence]]. intros k. rewrite I2, Hr.
    destruct (decide (k = x)) as [->|Hne]; [destruct (decide _), (decide _); set_solver|].
    destruct (decide (k ∈ l)), (decide (k ∈ x :: l)); set_solver.
Qed.

(** Proxies removed one by one. *)
Lemma drop_users_shown render gone users um v :
  idmap_ok um → NoDup gone.*1 → (∀ e, e ∈ gone → id_of um e.1 = Some e.2) →
  shown Types.user_id render um users (v_users v) →
  ∃ v', show_all (map (λ e, UserRemove e.2 (Some "Left"%string)) gone) v = Some v' ∧ v_channels v' = v_channels v ∧
    shown Types.user_id render (fold_left (λ m k, remove_key k m) gone.*1 um) users (v_users v').
Proof.
  revert um v. induction gone as [|e gone IH]; intros um v Hok Hnd Hg Hs; cbn.
  - by exists v.
  - cbn in Hnd. apply NoDup_cons in Hnd as [He Hnd]. destruct (remove_key_spec e.1 um Hok) as (Hok' & Hr & _).
    destruct (IH (remove_key e.1 um) (mkView (v_channels v) (delete e.2 (v_users v)))) as (v' & V1 & V2 & V3); [done|done|..].
    + intros e' He'. rewrite Hr. case_decide as E; [|apply Hg; by right].
      destruct He. rewrite <- E. by apply list_elem_of_fmap_2.
    + cbn. apply shown_remove; [done| |done]. apply Hg. by left.
    + exists v'. split_and!; [|by rewrite V2|done]. exact V1.
Qed.

Lemma vanished_spec um wanted :
  idmap_ok um →
  NoDup (vanished um wanted).*1 ∧
  (∀ k i, (k, i) ∈ vanished um wanted ↔ id_of um k = Some i ∧ k ∉ wanted).
Proof.
  intros Hok. unfold vanished, entries. split.
  - rewrite Wire.sort_by_perm. apply NoDup_fmap_retain, NoDup_fst_map_to_list.
  - intros k i. rewrite Wire.sort_by_perm, elem_of_retain, elem_of_map_to_list, Bool.negb_true_iff, bool_decide_eq_false.
    done.
Qed.

(** ** Channels, parents first *)

Lemma children_map_lookup rooms p :
  default [] (children_map rooms !! p) =
  retain (λ r, negb (bool_decide (Types.room_id r = Types.ROOT_ROOM_UUID)) && bool_decide (Types.room_parent r = p)) rooms.
Proof.
  unfold children_map.
  assert (∀ m : gmap Types.Uuid (list Types.Room), default [] (fold_left (λ m r,
    if bool_decide (Types.room_id r = Types.ROOT_ROOM_UUID) then m
    else St.push_at (Types.room_parent r) r m) rooms m !! p) = default [] (m !! p) ++
    retain (λ r, negb (bool_decide (Types.room_id r = Types.ROOT_ROOM_UUID)) && bool_decide (Types.room_parent r = p)) rooms)
    as Hf; [|by rewrite Hf, lookup_empty].
  induction rooms as [|r rooms IH]; intros m; cbn; [by rewrite app_nil_r|]. rewrite IH.
  destruct (bool_decide (Types.room_id r = Types.ROOT_ROOM_UUID)); cbn; [reflexivity|].
  unfold St.push_at. case_bool_decide as Hp.
  - rewrite Hp, lookup_insert_eq. cbn. by rewrite <- app_assoc.
  - by rewrite lookup_insert_ne.
Qed.

Lemma elem_of_children rooms p r :
  r ∈ default [] (children_map rooms !! p) ↔
  r ∈ rooms ∧ Types.room_id r ≠ Types.ROOT_ROOM_UUID ∧ Types.room_parent r = p.
Proof.
  rewrite children_map_lookup, elem_of_retain, Bool.andb_true_iff, Bool.negb_true_iff,
    bool_decide_eq_false, bool_decide_eq_true. done.
Qed.

Section sync.
Variables (old_rooms : list Types.Room) (old_users : list Types.User).
Variables (new_rooms : list Types.Room) (new_users : list Types.User) (channels : ChannelMap).
Hypothesis old_ok : snapshot_ok old_rooms old_users.
Hypothesis new_ok : snapshot_ok new_rooms new_users.
Hypothesis new_some : new_rooms ≠ [].
Hypothesis kept : descriptions_kept old_rooms new_rooms.
Hypothesis old_mapped : ∀ r, r ∈ old_rooms → is_Some (id_of channels (Types.room_id r)).
Abbreviation old_by_uuid := (collect Types.room_id old_rooms).
Abbreviation ids := (fmap Types.room_id).

(** The state of the walk when the rooms of [done] are synchronised. *)
Record synced (done : list Types.Room) (cm : ChannelMap) (v : View) : Prop := {
  sy_ok : channels_ok cm;
  sy_ext : extends channels cm;
  sy_new : ∀ k, is_Some (id_of cm k) → is_Some (id_of channels k) ∨ k ∈ ids done;
  sy_mapped : ∀ r, r ∈ done → is_Some (id_of cm (Types.room_id r));
  sy_next : (next_id cm <= next_id channels + N.of_nat (List.length done))%N;
  sy_parents : ∀ r, r ∈ done → Types.room_id r ≠ Types.ROOT_ROOM_UUID → Types.room_parent r ∈ ids done;
  sy_shown : shown Types.room_id (channel_of cm) cm (overlay Types.room_id done old_rooms) (v_channels v);
}.

Lemma overlay_parent done cm v x :
  synced done cm v → x ∈ overlay Types.room_id done old_rooms → Types.room_id x ≠ Types.ROOT_ROOM_UUID →
  is_Some (id_of cm (Types.room_parent x)).
Proof using old_mapped old_ok.
  intros Hsy Hx Hne. apply elem_of_overlay in Hx as [Hx|[Hx _]].
  - destruct (list_elem_of_fmap_1 _ _ _ (sy_parents _ _ _ Hsy x Hx Hne)) as (d & -> & Hd). by apply (sy_mapped _ _ _ Hsy).
  - destruct (parent_known _ _ x old_ok Hx Hne) as (Hp & _). apply list_elem_of_fmap_1 in Hp as (d & -> & Hd).
    destruct (old_mapped d Hd) as [i Hi]. exists i. by apply (sy_ext _ _ _ Hsy).
Qed.

Lemma channel_of_extends cm cm' x :
  extends cm cm' →
  (Types.room_id x ≠ Types.ROOT_ROOM_UUID → is_Some (id_of cm (Types.room_parent x))) →
  channel_of cm' x = channel_of cm x.
Proof.
  intros He Hx. unfold channel_of. case_bool_decide as E; [done|]. destruct (Hx E) as [i Hi]. by rewrite Hi, (He _ _ Hi).
Qed.

(** What the channel showed before is what an old room of the same id left. *)
Lemma shown_before done cm cm' v r i o :
  synced done cm v → extends cm cm' → channels_ok cm' → id_of cm' (Types.room_id r) = Some i →
  Types.room_id r ∉ ids done → v_channels v !! i = Some o →
  ∃ x, x ∈ old_rooms ∧ Types.room_id x = Types.room_id r ∧ o = channel_of cm x.
Proof.
  intros Hsy Hext Hok Hi Hnot Ho. apply (sy_shown _ _ _ Hsy) in Ho as (x & Hx & Hxi & ->).
  assert (Types.room_id x = Types.room_id r) as Hid by (apply (channels_inj cm' _ _ i); auto).
  apply elem_of_overlay in Hx as [Hx|[Hx _]]; [|by exists x].
  destruct Hnot. rewrite <- Hid. by apply list_elem_of_fmap_2.
Qed.

Lemma room_message_shows v r i parent new :
  ch_name new = Types.room_name r → ch_description new = Types.room_description r → ch_parent new = parent →
  (∀ p, parent = Some p → is_Some (v_channels v !! p)) →
  (∀ o, v_channels v !! i = Some o → (parent = None → ch_parent o = None) ∧
    (is_Some (ch_description o) → is_Some (Types.room_description r))) →
  show (ChannelState (Some i) parent (Some (Types.room_name r)) (Types.room_description r)) v =
  Some (mkView (<[i := new]> (v_channels v)) (v_users v)).
Proof.
  intros Hn Hd Hpar Hp Ho. assert (mkChannel (or_old parent (v_channels v !! i ≫= ch_parent)) (Types.room_name r)
    (or_old (Types.room_description r) (v_channels v !! i ≫= ch_description)) = new) as E.
  { destruct new as [np nn nd]. cbn in *. subst nn nd np. f_equal.
    - destruct parent as [p|]; [done|]. destruct (v_channels v !! i) as [o|]; [|done]. cbn. by apply Ho.
    - destruct (Types.room_description r) as [d|]; [done|]. destruct (v_channels v !! i) as [o|]; [|done]. cbn.
      destruct (ch_description o) eqn:Eo; [|done]. destruct (Ho o eq_refl) as [_ Ho'].
      destruct Ho' as [? ?]; [by rewrite Eo|done]. }
  cbn. rewrite E. destruct parent as [p|]; [|done]. by destruct (Hp p eq_refl) as [c ->].
Qed.

(** The message for one room, or its absence, brings its channel up to date. *)
Lemma room_message done cm cm' v r i parent :
  synced done cm v → r ∈ new_rooms → Types.room_id r ∉ ids done →
  extends cm cm' → channels_ok cm' → id_of cm' (Types.room_id r) = Some i →
  (is_Some (id_of cm (Types.room_id r)) → cm' = cm) → parent = ch_parent (channel_of cm' r) →
  (∀ p, parent = Some p → is_Some (v_channels v !! p)) → (parent = None → Types.room_id r = Types.ROOT_ROOM_UUID) →
  ∃ ms v', (if room_changed (old_by_uuid !! Types.room_id r) r
     then [ChannelState (Some i) parent (Some (Types.room_name r)) (Types.room_description r)] else []) = ms ∧
    show_all ms v = Some v' ∧ v_users v' = v_users v ∧ v_channels v' = <[i := channel_of cm' r]> (v_channels v).
Proof using old_mapped old_ok kept.
  intros Hsy Hr Hnot Hext G1 G2 G5 Ep Hp Hroot. destruct (room_changed _ r) eqn:Ech.
  - eexists _, _. split; [done|]. cbn [show_all]. rewrite (room_message_shows v r i parent (channel_of cm' r)); try done.
    intros o Ho. destruct (shown_before _ _ _ _ _ _ _ Hsy Hext G1 G2 Hnot Ho) as (x & Hx & Hid & ->).
    split; [|by apply (kept x r)]. intros E%Hroot. unfold channel_of. cbn.
    by rewrite bool_decide_eq_true_2 by congruence.
  - exists [], v. split_and!; [done..|]. symmetry. apply insert_id. apply (sy_shown _ _ _ Hsy).
    destruct (old_by_uuid !! Types.room_id r) as [o|] eqn:Eo; [|done].
    apply collect_lookup in Eo as [Ho Hid]; [|apply old_ok]. exists o.
    assert (cm' = cm) as -> by (apply G5; rewrite <- Hid; destruct (old_mapped o Ho) as [j Hj]; exists j;
      by apply (sy_ext _ _ _ Hsy)).
    split_and!; [apply elem_of_overlay; right; by rewrite Hid|by rewrite Hid|].
    unfold channel_of. rewrite Hid. cbn in Ech. apply Bool.orb_false_iff in Ech as [[E1 E2]%Bool.orb_false_iff E3].
    apply Bool.negb_false_iff, bool_decide_eq_true in E1, E2, E3. by rewrite E1, E2, E3.
Qed.

(** One room: its channel is up to date afterwards. *)
Lemma sync_room_shows done cm v r :
  synced done cm v → r ∈ new_rooms → Types.room_id r ∉ ids done →
  (Types.room_id r ≠ Types.ROOT_ROOM_UUID → Types.room_parent r ∈ ids done) →
  (next_id channels + N.of_nat (List.length done) + 1 < 2 ^ 32)%N →
  ∃ ms cm' v', sync_room old_by_uuid r cm = (ms, cm') ∧ show_all ms v = Some v' ∧ v_users v' = v_users v ∧
    synced (done ++ [r]) cm' v'.
Proof using old_mapped old_ok kept.
  intros Hsy Hr Hnot Hpar Hn. pose proof (sy_next _ _ _ Hsy) as Hnext.
  unfold sync_room. pose proof (channel_get_spec (Types.room_id r) cm (sy_ok _ _ _ Hsy) ltac:(lia)) as Hg.
  destruct (channel_get_or_insert (Types.room_id r) cm) as [i cm'] eqn:Eg.
  destruct Hg as (G1 & G2 & G3 & G4 & G5).
  assert (extends cm cm') as Hext.
  { intros k j Hk. destruct (decide (k = Types.room_id r)) as [->|Hne]; [|by rewrite G3].
    rewrite G5 by eauto. done. }
  assert (∃ parent, (if bool_decide (Types.room_id r = Types.ROOT_ROOM_UUID) then (None, cm')
    else let '(p, cm') := channel_get_or_insert (Types.room_parent r) cm' in (Some p, cm')) = (parent, cm') ∧
    parent = ch_parent (channel_of cm' r) ∧ (∀ p, parent = Some p → is_Some (v_channels v !! p)) ∧ (parent = None → Types.room_id r = Types.ROOT_ROOM_UUID))
    as (parent & -> & Ep & Hp & Hroot).
  { unfold channel_of. cbn. case_bool_decide as E; [by exists None|].
    destruct (list_elem_of_fmap_1 _ _ _ (Hpar E)) as (d & Ed & Hd). destruct (sy_mapped _ _ _ Hsy d Hd) as [p Hp].
    rewrite Ed. rewrite (channel_get_known _ p _ G1) by (by apply Hext). exists (Some p).
    split_and!; [done|by rewrite (Hext _ _ Hp)| |done]. intros p' [= <-]. exists (channel_of cm d).
    apply (sy_shown _ _ _ Hsy). exists d. split_and!; [apply elem_of_overlay; by left|done|done]. }
  destruct (room_message done cm cm' v r i parent Hsy Hr Hnot) as (ms & v' & -> & V1 & V2 & V3); try done.
  exists ms, cm', v'. split_and!; [done..|]. split.
  - done.
  - intros k j Hk. apply Hext. by apply (sy_ext _ _ _ Hsy).
  - intros k Hk. rewrite fmap_app, elem_of_app. cbn. rewrite list_elem_of_singleton.
    destruct (decide (k = Types.room_id r)) as [->|Hne]; [by right; right|]. rewrite G3 in Hk by done.
    destruct (sy_new _ _ _ Hsy k Hk); auto.
  - intros x [Hx| ->%list_elem_of_singleton]%elem_of_app; [|by exists i].
    destruct (sy_mapped _ _ _ Hsy x Hx) as [j Hj]. exists j. by apply Hext.
  - rewrite length_app. cbn. lia.
  - intros x [Hx| ->%list_elem_of_singleton]%elem_of_app Hne; rewrite fmap_app; apply elem_of_app; left.
    + by apply (sy_parents _ _ _ Hsy).
    + by apply Hpar.
  - rewrite V3. eapply (shown_step Types.room_id (channel_of cm)); [apply G1|exact Hext|exact G3|exact G2|exact Hnot| |apply Hsy].
    intros x Hx Hne. apply channel_of_extends; [done|]. by eapply overlay_parent.
Qed.
(** The queue: rooms not done whose parent is, and every child of a room that is
    done is done or waiting. *)
Record queue_ok (done queue : list Types.Room) : Prop := {
  q_nodup : NoDup (ids (done ++ queue));
  q_new : ∀ r, r ∈ done ++ queue → r ∈ new_rooms;
  q_root : Types.ROOT_ROOM_UUID ∈ ids (done ++ queue);
  q_parent : ∀ r, r ∈ done ++ queue → Types.room_id r ≠ Types.ROOT_ROOM_UUID → Types.room_parent r ∈ ids done;
  q_closed : ∀ r, r ∈ new_rooms → Types.room_id r ≠ Types.ROOT_ROOM_UUID → Types.room_parent r ∈ ids done →
    r ∈ done ++ queue;
}.

Lemma new_inj x y : x ∈ new_rooms → y ∈ new_rooms → Types.room_id x = Types.room_id y → x = y.
Proof using new_ok. intros Hx Hy. apply (NoDup_fmap_inj Types.room_id new_rooms); [|done|done]. apply new_ok. Qed.

Lemma queue_step done r queue :
  queue_ok done (r :: queue) →
  queue_ok (done ++ [r]) (queue ++ default [] (children_map new_rooms !! Types.room_id r)).
Proof using new_ok.
  intros [Qn Qs Qr Qp Qc]. set (kids := default [] (children_map new_rooms !! Types.room_id r)).
  assert (∀ l, done ++ r :: queue ++ l = (done ++ [r]) ++ queue ++ l) as Ea by (intros l; by rewrite <- app_assoc).
  assert (done ++ r :: queue = (done ++ [r]) ++ queue) as Ea0 by (by rewrite <- app_assoc).
  assert (Types.room_id r ∉ ids done) as Hr.
  { intros Hin. rewrite fmap_app in Qn. apply NoDup_app in Qn as (_ & Qn & _). apply (Qn _ Hin). by left. }
  assert (∀ k, k ∈ kids ↔ k ∈ new_rooms ∧ Types.room_id k ≠ Types.ROOT_ROOM_UUID ∧ Types.room_parent k = Types.room_id r) as Hk
    by (intros k; apply elem_of_children).
  assert (∀ k, k ∈ kids → k ∉ done ++ r :: queue) as Hfresh.
  { intros k (Hk1 & Hk2 & Hk3)%Hk Hin. apply Hr. rewrite <- Hk3. by apply Qp. }
  split.
  - rewrite app_assoc, <- Ea0, fmap_app. apply NoDup_app. split_and!; [done| |].
    + intros k (x & -> & Hx)%list_elem_of_fmap_1 (y & Exy & Hy)%list_elem_of_fmap_1. apply (Hfresh y Hy).
      assert (x = y) as <- by (apply new_inj; [by apply Qs|by apply Hk|done]). done.
    + unfold kids. rewrite children_map_lookup. apply NoDup_fmap_retain, new_ok.
  - intros x Hx. rewrite app_assoc, <- Ea0 in Hx. apply elem_of_app in Hx as [Hx|Hx]; [by apply Qs|by apply Hk].
  - rewrite app_assoc, <- Ea0, fmap_app. apply elem_of_app. by left.
  - intros x Hx Hne. rewrite app_assoc, <- Ea0 in Hx. rewrite fmap_app, elem_of_app.
    apply elem_of_app in Hx as [Hx|Hx]; [left; by apply Qp|right]. apply Hk in Hx as (_ & _ & ->). by left.
  - intros x Hx Hne Hp. rewrite app_assoc, <- Ea0. rewrite fmap_app, elem_of_app in Hp. apply elem_of_app.
    destruct Hp as [Hp|Hp]; [left; by apply Qc|right]. cbn in Hp. apply list_elem_of_singleton in Hp. by apply Hk.
Qed.

Lemma queue_bound done queue : queue_ok done queue → (List.length done + List.length queue ≤ List.length new_rooms)%nat.
Proof.
  intros [Qn Qs _ _ _]. rewrite <- length_app. apply submseteq_length, NoDup_submseteq; [by eapply NoDup_fmap_1|done].
Qed.

(** With nothing waiting, everything is done. *)
Lemma queue_done done r : queue_ok done [] → r ∈ new_rooms → r ∈ done.
Proof using new_ok.
  intros [Qn Qs Qr Qp Qc] Hr. rewrite !app_nil_r in *. destruct (so_tree _ _ new_ok r Hr) as [p Hp].
  enough (Types.room_id r ∈ ids done) as (d & Ed & Hd)%list_elem_of_fmap_1.
  { assert (r = d) as -> by (apply new_inj; auto). done. }
  clear Hr. revert Hp. generalize (Types.room_id r). intros k Hp. induction Hp as [|k x p Hne Hx Hp IH]; [done|].
  apply find_Some_iff in Hx as [Hx Hid]. apply bool_decide_eq_true in Hid. subst k.
  apply list_elem_of_fmap_2. by apply Qc.
Qed.

Lemma sync_rooms_shows fuel done queue ms0 cm v :
  synced done cm v → queue_ok done queue → (List.length new_rooms ≤ List.length done + fuel)%nat →
  (next_id channels + N.of_nat (List.length new_rooms) + 1 < 2 ^ 32)%N →
  ∃ ms all cm' v', sync_rooms fuel old_by_uuid (children_map new_rooms) queue (ms0, cm) = Some (ms0 ++ ms, cm') ∧
    show_all ms v = Some v' ∧ v_users v' = v_users v ∧ synced all cm' v' ∧ all ≡ₚ new_rooms.
Proof using new_ok old_mapped old_ok kept.
  revert done queue ms0 cm v. induction fuel as [|fuel IH]; intros done queue ms0 cm v Hsy Hq Hf Hn;
    destruct queue as [|r queue]; cbn [sync_rooms].
  1,3: exists [], done, cm, v; rewrite app_nil_r; split_and!; try done;
    apply NoDup_Permutation; [|by eapply NoDup_fmap_1, new_ok|intros x; split; [|by apply queue_done]];
    destruct Hq as [Qn Qs _ _ _]; rewrite app_nil_r in *; [by eapply NoDup_fmap_1|apply Qs].
  - pose proof (queue_bound _ _ Hq) as Hb. cbn in Hb. lia.
  - pose proof (queue_bound _ _ Hq) as Hb. cbn in Hb. pose proof Hq as [Qn Qs _ Qp _].
    assert (r ∈ done ++ r :: queue) as Hin by (apply elem_of_app; right; by left).
    destruct (sync_room_shows done cm v r Hsy) as (ms1 & cm1 & v1 & E1 & S1 & U1 & Hsy1); [by apply Qs| |by apply Qp|lia|].
    { intros Hd. rewrite fmap_app in Qn. apply NoDup_app in Qn as (_ & Qn & _). apply (Qn _ Hd). by left. }
    cbn [snd]. rewrite E1. cbn [fst].
    destruct (IH (done ++ [r]) (queue ++ default [] (children_map new_rooms !! Types.room_id r)) (ms0 ++ ms1) cm1 v1)
      as (ms & all & cm' & v' & R1 & R2 & R3 & R4 & R5); [done|by apply queue_step|rewrite length_app; cbn; lia|done|].
    exists (ms1 ++ ms), all, cm', v'. rewrite R1, app_assoc, show_all_app, S1. cbn.
    split_and!; [done|done|congruence|done|done].
Qed.

Lemma first_queue_ok : queue_ok [] (first_queue new_rooms (children_map new_rooms)).
Proof using new_ok new_some.
  unfold first_queue. destruct (so_root _ _ new_ok) as [?|Hroot]; [done|].
  apply list_elem_of_fmap_1 in Hroot as (root & Eroot & Hroot).
  destruct (List.find (St.has_room_id Types.ROOT_ROOM_UUID) new_rooms) as [x|] eqn:Ef.
  - apply find_Some_iff in Ef as [Hx Hid]. apply bool_decide_eq_true in Hid. split; cbn.
    + apply NoDup_singleton.
    + by intros r ->%list_elem_of_singleton.
    + rewrite Hid. by left.
    + by intros r ->%list_elem_of_singleton ?.
    + intros r _ _ Hn. by apply elem_of_nil in Hn.
  - pose proof (proj1 (find_None_iff _ _) Ef root Hroot) as E. by apply bool_decide_eq_false in E.
Qed.
End sync.

(** ** Users that are there *)

Section users.
Variables (old_users new_users : list Types.User) (cm : ChannelMap).
Hypothesis cm_ok : channels_ok cm.
Hypothesis old_nodup : NoDup (Types.user_id <$> old_users).
Abbreviation old_by_id := (collect Types.user_id old_users).
Abbreviation uids := (fmap Types.user_id).

Lemma sync_user_shows done u um v ms :
  idmap_ok um → (next_id um + 1 < 2 ^ 32)%N → Types.user_id u ∉ uids done →
  (∃ i, id_of cm (Types.current_room u) = Some i ∧ is_Some (v_channels v !! i)) →
  shown Types.user_id (user_of cm) um (overlay Types.user_id done old_users) (v_users v) →
  ∃ ms' um' v', sync_user old_by_id u (ms, cm, um) = (ms ++ ms', cm, um') ∧ show_all ms' v = Some v' ∧
    v_channels v' = v_channels v ∧ idmap_ok um' ∧ extends um um' ∧ (next_id um' <= next_id um + 1)%N ∧
    (∀ k, is_Some (id_of um' k) ↔ is_Some (id_of um k) ∨ k = Types.user_id u) ∧
    shown Types.user_id (user_of cm) um' (overlay Types.user_id (done ++ [u]) old_users) (v_users v').
Proof using cm_ok old_nodup.
  intros Hok Hn Hnot (i & Hi & [c Hc]) Hs. unfold sync_user. rewrite (channel_get_known _ i) by done.
  pose proof (get_or_assign_spec (Types.user_id u) um Hok Hn) as Hg.
  destruct (get_or_assign (Types.user_id u) um) as [s um']. destruct Hg as (G1 & G2 & G3 & G4 & G5 & _).
  assert (extends um um') as Hext.
  { intros k j Hk. destruct (decide (k = Types.user_id u)) as [->|Hne]; [|by rewrite G3].
    rewrite G5 by eauto. done. }
  assert (user_of cm u = mkMumbleUser (Types.username u) i (Types.is_muted u) (Types.is_deafened u)) as Eu
    by (unfold user_of; by rewrite Hi).
  assert (∃ ms' v', (if user_changed (id_of um (Types.user_id u)) (old_by_id !! Types.user_id u) u
    then [UserState (Some s) None (Some (Types.username u)) (Some i) (Some (Types.is_muted u)) (Some (Types.is_deafened u))] else []) = ms' ∧
    show_all ms' v = Some v' ∧ v_channels v' = v_channels v ∧ v_users v' = <[s := user_of cm u]> (v_users v))
    as (ms' & v' & -> & V1 & V2 & V3).
  { destruct (user_changed _ _ u) eqn:Ech.
    - eexists _, _. split; [done|]. cbn [show_all show or_old default]. unfold default, id. rewrite Hc, Eu. done.
    - exists [], v. split_and!; [done..|]. symmetry. apply insert_id.
      destruct (id_of um (Types.user_id u)) as [j|] eqn:Ej; [|done].
      destruct (old_by_id !! Types.user_id u) as [o|] eqn:Eo; [|done].
      apply collect_lookup in Eo as [Ho Hid]; [|done]. cbn in Ech.
      apply Bool.orb_false_iff in Ech as [[[E1 E2]%Bool.orb_false_iff E3]%Bool.orb_false_iff E4].
      apply Bool.negb_false_iff, bool_decide_eq_true in E1, E2. apply Bool.negb_false_iff, Bool.eqb_prop in E3, E4.
      assert (user_of cm u = user_of cm o) as -> by (unfold user_of; by rewrite E1, E2, E3, E4).
      apply (shown_lookup Types.user_id (user_of cm) um (overlay Types.user_id done old_users)); [done| |].
      + apply elem_of_overlay. right. by rewrite Hid.
      + rewrite Hid. rewrite G5 in G2 by eauto. exact G2. }
  exists ms', um', v'. split_and!; try done; [lia| |].
  - intros k. destruct (decide (k = Types.user_id u)) as [->|Hne].
    + rewrite G2. naive_solver.
    + rewrite G3 by done. naive_solver.
  - rewrite V3. eapply (shown_step Types.user_id (user_of cm)); [exact G1|exact Hext|exact G3|exact G2|exact Hnot|done|exact Hs].
Qed.

Lemma sync_users_show done todo um v ms :
  idmap_ok um → (next_id um + N.of_nat (List.length todo) < 2 ^ 32)%N → NoDup (uids (done ++ todo)) →
  (∀ u, u ∈ todo → ∃ i, id_of cm (Types.current_room u) = Some i ∧ is_Some (v_channels v !! i)) →
  shown Types.user_id (user_of cm) um (overlay Types.user_id done old_users) (v_users v) →
  ∃ ms' um' v', fold_left (λ st u, sync_user old_by_id u st) todo (ms, cm, um) = (ms ++ ms', cm, um') ∧
    show_all ms' v = Some v' ∧ v_channels v' = v_channels v ∧ idmap_ok um' ∧ extends um um' ∧
    (∀ k, is_Some (id_of um' k) ↔ is_Some (id_of um k) ∨ k ∈ uids todo) ∧
    shown Types.user_id (user_of cm) um' (overlay Types.user_id (done ++ todo) old_users) (v_users v').
Proof using cm_ok old_nodup.
  revert done um v ms. induction todo as [|u todo IH]; intros done um v ms Hok Hn Hnd Hroom Hs; cbn [fold_left].
  - exists [], um, v. rewrite !app_nil_r. split_and!; try done; [by intros ???|].
    intros k. cbn. rewrite elem_of_nil. tauto.
  - assert (done ++ u :: todo = (done ++ [u]) ++ todo) as Ea by (by rewrite <- app_assoc). cbn [List.length] in Hn.
    destruct (sync_user_shows done u um v ms) as (ms1 & um1 & v1 & E1 & S1 & C1 & O1 & X1 & N1 & K1 & Hs1); try done; [lia| | |].
    { rewrite fmap_app in Hnd. apply NoDup_app in Hnd as (_ & Hnd & _). intros Hin. apply (Hnd _ Hin). by left. }
    { apply Hroom. by left. }
    destruct (IH (done ++ [u]) um1 v1 (ms ++ ms1)) as (ms' & um' & v' & E2 & S2 & C2 & O2 & X2 & K2 & Hs2); [done|lia|by rewrite <- Ea| |done|].
    { intros x Hx. rewrite C1. apply Hroom. by right. }
    exists (ms1 ++ ms'), um', v'. rewrite E1, E2, show_all_app, S1, Ea, app_assoc. cbn.
    split_and!; [done|done|congruence|done| | |done].
    + intros k i Hk. by apply X2, X1.
    + intros k. rewrite K2, K1. cbn. rewrite elem_of_cons. tauto.
Qed.
End users.

(** ** Channels that are gone *)

Lemma remove_channel_ok k m : channels_ok m → k ≠ Types.ROOT_ROOM_UUID → channels_ok (remove_key k m).
Proof.
  intros [Hok Hz Hn] Hk. destruct (remove_key_spec k m Hok) as (R1 & R2 & R3). split; [done| |by rewrite R3].
  intros j. rewrite R2. case_decide as E; [|apply Hz]. subst j. split; [done|]. by intros [? [? ?]].
Qed.

(** Channels removed one by one, each when none of the remaining ones is below
    it and no user is in it. *)
Lemma drop_channels_show render rooms l cm v ms :
  channels_ok cm → NoDup l.*2 →
  (∀ e, e ∈ l → id_of cm e.2 = Some e.1.2 ∧ e.2 ≠ Types.ROOT_ROOM_UUID) →
  shown Types.room_id render cm rooms (v_channels v) →
  (∀ l1 e l2 x, l = l1 ++ e :: l2 → x ∈ rooms → is_Some (id_of cm (Types.room_id x)) →
     ch_parent (render x) = Some e.1.2 → Types.room_id x ∈ l1.*2) →
  (∀ e s u, e ∈ l → v_users v !! s = Some u → mu_channel u ≠ e.1.2) →
  ∃ ms' cm' v', fold_left drop_channel l (ms, cm) = (ms ++ ms', cm') ∧ show_all ms' v = Some v' ∧
    v_users v' = v_users v ∧ channels_ok cm' ∧ next_id cm' = next_id cm ∧
    (∀ k, id_of cm' k = if decide (k ∈ l.*2) then None else id_of cm k) ∧
    shown Types.room_id render cm' rooms (v_channels v').
Proof.
  revert cm v ms. induction l as [|e l IH]; intros cm v ms Hok Hnd Hl Hs Hfree Husers; cbn [fold_left].
  - exists [], cm, v. rewrite app_nil_r. split_and!; try done.
  - cbn in Hnd. apply NoDup_cons in Hnd as [He Hnd]. destruct (Hl e ltac:(by left)) as [Hi Hne].
    destruct (remove_key_spec e.2 cm (ch_ok cm Hok)) as (R1 & R2 & R3).
    set (v1 := mkView (delete e.1.2 (v_channels v)) (v_users v)).
    assert (show (ChannelRemove e.1.2) v = Some v1) as Hshow.
    { cbn. rewrite !bool_decide_eq_true_2; [done| |].
      - intros s u Hu. apply (Husers e s u); [by left|done].
      - intros i c Hc Hp. apply Hs in Hc as (x & Hx & Hxi & ->).
        pose proof (Hfree [] e l x eq_refl Hx ltac:(eauto) Hp) as Hn. by apply elem_of_nil in Hn. }
    destruct (IH (remove_key e.2 cm) v1 (ms ++ [ChannelRemove e.1.2])) as (ms' & cm' & v' & E2 & S2 & U2 & O2 & N2 & K2 & Hs2).
    + by apply remove_channel_ok.
    + done.
    + intros e' He'. destruct (Hl e' ltac:(by right)) as [Hi' Hne']. split; [|done]. rewrite R2.
      case_decide as E; [|done]. destruct He. rewrite <- E. by apply list_elem_of_fmap_2.
    + by apply shown_remove; [apply Hok| |].
    + intros l1 e' l2 x -> Hx [j Hj] Hp. rewrite R2 in Hj. case_decide as E; [done|].
      pose proof (Hfree (e :: l1) e' l2 x eq_refl Hx ltac:(eauto) Hp) as Hin. cbn in Hin.
      apply elem_of_cons in Hin as [?|?]; [by destruct E|done].
    + intros e' s u He' Hu. apply (Husers e' s u); [by right|done].
    + exists (ChannelRemove e.1.2 :: ms'), cm', v'. rewrite <- app_assoc in E2. split_and!; [exact E2| |done|done|congruence| |done].
      * cbn [show_all]. by rewrite Hshow.
      * intros k. rewrite K2, R2. cbn. destruct (decide (k = e.2)) as [->|Hk].
        -- rewrite (decide_True (P := e.2 ∈ e.2 :: l.*2)) by (by left). by case_decide.
        -- destruct (decide (k ∈ l.*2)), (decide (k ∈ e.2 :: l.*2)); set_solver.
Qed.

Lemma depth_le_spec a b : Is_true (depth_le a b) ↔ (b.1 < a.1)%nat ∨ (a.1 = b.1 ∧ (a.2 <= b.2)%N).
Proof.
  unfold depth_le. rewrite Is_true_true, Bool.orb_true_iff, Bool.andb_true_iff, Nat.ltb_lt, Nat.eqb_eq, N.leb_le. done.
Qed.

Lemma removed_channels_spec old_by new_uuids cm :
  channels_ok cm →
  let l := removed_channels old_by new_uuids cm in
  NoDup l.*2 ∧
  (∀ e, e ∈ l ↔ id_of cm e.2 = Some e.1.2 ∧ e.2 ≠ Types.ROOT_ROOM_UUID ∧ e.2 ∉ new_uuids ∧ e.1.1 = old_depth e.2 old_by) ∧
  (∀ l1 e l2 e', l = l1 ++ e :: l2 → e' ∈ l2 → (e'.1.1 ≤ e.1.1)%nat).
Proof.
  intros Hok l. set (raw := map (λ uuid, (old_depth uuid old_by, default 0%N (id_of cm uuid), uuid))
    (retain (λ uuid, negb (bool_decide (uuid = Types.ROOT_ROOM_UUID)) && negb (bool_decide (uuid ∈ new_uuids))) (keys cm))).
  assert (l ≡ₚ raw) as Hperm.
  { apply (Wire.sort_by_perm (λ e : nat * N * Types.Uuid, e.1) depth_le). }
  split_and!.
  - rewrite Hperm. unfold raw. rewrite <- list_fmap_compose. cbn. rewrite list_fmap_id.
    apply NoDup_retain. unfold keys. apply NoDup_fst_map_to_list.
  - intros e. rewrite Hperm. unfold raw. rewrite list_elem_of_fmap. setoid_rewrite elem_of_retain.
    setoid_rewrite Bool.andb_true_iff. setoid_rewrite Bool.negb_true_iff. setoid_rewrite bool_decide_eq_false.
    assert (∀ k, k ∈ keys cm ↔ is_Some (id_of cm k)) as Hkeys.
    { intros k. unfold keys. rewrite list_elem_of_fmap. split.
      - intros ((k' & i) & -> & Hin%elem_of_map_to_list). by exists i.
      - intros [i Hi]. exists (k, i). split; [done|]. by apply elem_of_map_to_list. }
    setoid_rewrite Hkeys. destruct e as [[d i] k]. cbn [fst snd]. split.
    + intros (k' & [= -> -> ->] & [j Hj] & Hne & Hnew). by rewrite Hj.
    + intros (Hi & Hne & Hnew & ->). exists k. rewrite Hi. split_and!; [done|by exists i|done|done].
  - intros l1 e l2 e' El He'.
    assert (StronglySorted (λ a b, Is_true (depth_id_le a b)) l) as Hs.
    { apply (Wire.sort_by_sorted (λ e : nat * N * Types.Uuid, e.1) depth_le).
      - intros a b. rewrite !depth_le_spec. lia.
      - intros a b c. rewrite !depth_le_spec. lia. }
    rewrite El in Hs. apply StronglySorted_app in Hs as (_ & _ & Hs). apply StronglySorted_inv in Hs as [_ Hs].
    rewrite Forall_forall in Hs. specialize (Hs e' He'). apply depth_le_spec in Hs. lia.
Qed.

Lemma old_depth_ancestors rooms k p :
  NoDup (Types.room_id <$> rooms) → Acl.ancestors rooms k p →
  S (old_depth k (collect Types.room_id rooms)) = List.length p.
Proof.
  intros Hnd Hp. unfold old_depth. rewrite collect_size by done. pose proof (Acl.ancestors_length _ _ _ Hp) as Hl.
  enough (∀ rounds d, (List.length p ≤ rounds)%nat →
    S (depth_walk rounds (collect Types.room_id rooms) k d) = (d + List.length p)%nat) as Hw by (apply Hw; lia).
  clear Hl. induction Hp as [|k x p Hne Hx Hp IH]; intros [|rounds] d Hr; cbn in Hr; try lia; cbn [depth_walk].
  - rewrite bool_decide_eq_true_2 by done. cbn. lia.
  - rewrite bool_decide_eq_false_2 by done. apply find_Some_iff in Hx as [Hx Hid]. apply bool_decide_eq_true in Hid.
    assert (collect Types.room_id rooms !! k = Some x) as -> by (by apply collect_lookup).
    rewrite IH by lia. cbn. lia.
Qed.

(** Deepest first: a channel is removed after all the channels below it. *)
Lemma removal_order old_rooms old_users channels done new_ids cm v :
  snapshot_ok old_rooms old_users → (∀ r, r ∈ old_rooms → is_Some (id_of channels (Types.room_id r))) →
  synced old_rooms channels done cm v → (∀ k, k ∈ Types.room_id <$> done ↔ k ∈ new_ids) →
  let l := removed_channels (collect Types.room_id old_rooms) new_ids cm in
  ∀ l1 e l2 x, l = l1 ++ e :: l2 → x ∈ overlay Types.room_id done old_rooms →
    is_Some (id_of cm (Types.room_id x)) → ch_parent (channel_of cm x) = Some e.1.2 → Types.room_id x ∈ l1.*2.
Proof.
  intros Hold Hmap Hsy Hnew l l1 e l2 x El Hx [j Hj] Hp.
  destruct (removed_channels_spec (collect Types.room_id old_rooms) new_ids cm (sy_ok _ _ _ _ _ Hsy)) as (_ & Hl & Hord).
  assert (e ∈ l) as Hel by (rewrite El; apply elem_of_app; right; by left).
  apply Hl in Hel as (Hi & Hne & Hnot & Hd). unfold channel_of in Hp. cbn in Hp. case_bool_decide as Ex; [done|].
  assert (Types.room_parent x = e.2) as Epar by (by apply (channels_inj cm _ _ e.1.2); [apply Hsy| |]).
  apply elem_of_overlay in Hx as [Hx|[Hx Hxd]].
  { destruct Hnot. apply Hnew. rewrite <- Epar. by apply (sy_parents _ _ _ _ _ Hsy). }
  destruct (parent_known _ _ x Hold Hx Ex) as (_ & p & Hpp & Hpx).
  apply (old_depth_ancestors old_rooms) in Hpp, Hpx; [|apply Hold..]. cbn in Hpx. rewrite Epar in Hpp.
  set (e' := (old_depth (Types.room_id x) (collect Types.room_id old_rooms), j, Types.room_id x)).
  assert (e' ∈ l) as Hel' by (apply Hl; split_and!; [done|done|by rewrite <- Hnew|done]).
  rewrite El in Hel'. apply elem_of_app in Hel' as [Hel'|[Ee|Hel']%elem_of_cons].
  - change (Types.room_id x) with (e'.2). by apply list_elem_of_fmap_2.
  - rewrite <- Ee in Hd, Hpp. cbn in Hd, Hpp. lia.
  - pose proof (Hord l1 e l2 e' El Hel') as Hle. cbn in Hle. lia.
Qed.

Lemma overlay_nil {K A} `{Countable K} (key : A → K) (old : list A) : overlay key [] old = old.
Proof. unfold overlay. apply retain_all. intros x _. apply Bool.negb_true_iff, bool_decide_eq_false, not_elem_of_nil. Qed.

Lemma users_follow rooms users channels cm um l :
  snapshot_ok rooms users → extends channels cm → (∀ r, r ∈ rooms → is_Some (id_of channels (Types.room_id r))) →
  shown Types.user_id (user_of channels) um users l → shown Types.user_id (user_of cm) um users l.
Proof.
  intros Hok Hext Hm. apply shown_ext; try done. intros u _ Hu _. unfold user_of. f_equal.
  destruct (list_elem_of_fmap_1 _ _ _ (so_placed _ _ Hok u Hu)) as (r & -> & Hr).
  destruct (Hm r Hr) as [i Hi]. by rewrite Hi, (Hext _ _ Hi).
Qed.

Lemma wanted_spec skip users u :
  u ∈ retain (λ u, negb (skips skip u)) users ↔ u ∈ users ∧ skips skip u = false.
Proof. by rewrite elem_of_retain, Bool.negb_true_iff. Qed.

(** Removing the proxies of users that are gone. *)
Lemma prune_users users um wanted render v :
  idmap_ok um → shown Types.user_id render um users (v_users v) →
  let gone := vanished um wanted in
  ∃ um1 v1, fold_left (λ st e, drop_user e st) gone (mkOutput [] [], um) =
      (mkOutput (map (λ e, UserRemove e.2 (Some "Left"%string)) gone) gone.*1, um1) ∧
    show_all (map (λ e, UserRemove e.2 (Some "Left"%string)) gone) v = Some v1 ∧ v_channels v1 = v_channels v ∧ idmap_ok um1 ∧
    next_id um1 = next_id um ∧ (∀ k, id_of um1 k = if decide (k ∈ wanted) then id_of um k else None) ∧
    shown Types.user_id render um1 users (v_users v1) ∧
    (∀ k, k ∈ gone.*1 ↔ is_Some (id_of um k) ∧ k ∉ wanted).
Proof.
  intros Hok Hs gone. destruct (vanished_spec um wanted Hok) as [Hnd Hg]. fold gone in Hnd, Hg.
  assert (∀ k, k ∈ gone.*1 ↔ is_Some (id_of um k) ∧ k ∉ wanted) as Hk.
  { intros k. rewrite list_elem_of_fmap. split.
    - intros ([k' i] & -> & [Hi Hw]%Hg). split; [by exists i|done].
    - intros [[i Hi] Hw]. exists (k, i). split; [done|]. by apply Hg. }
  destruct (remove_keys_spec gone.*1 um Hok) as (R1 & R2 & R3).
  destruct (drop_users_shown render gone users um v Hok Hnd) as (v1 & S1 & C1 & Hs1); [by intros [k i] [Hi _]%Hg|done|].
  eexists _, v1. rewrite drop_users_run. cbn [messages removed_user_ids app]. split_and!; try done.
  intros k. rewrite R2. destruct (decide (k ∈ gone.*1)) as [[_ Hw]%Hk|Hn], (decide (k ∈ wanted)); try done.
  destruct (id_of um k) eqn:E; [|done]. destruct Hn. apply Hk. by split; [exists n0|].
Qed.

(** The removals leave the channels of the new rooms, and nothing else. *)
Lemma prune_channels old_rooms old_users new_rooms new_users channels done cm v ms :
  snapshot_ok old_rooms old_users → snapshot_ok new_rooms new_users → new_rooms ≠ [] →
  (∀ r, r ∈ old_rooms → is_Some (id_of channels (Types.room_id r))) →
  synced old_rooms channels done cm v → done ≡ₚ new_rooms →
  (∀ s u, v_users v !! s = Some u → ∃ r, r ∈ new_rooms ∧ id_of cm (Types.room_id r) = Some (mu_channel u)) →
  ∃ ms' cm' v', fold_left drop_channel (removed_channels (collect Types.room_id old_rooms) (map Types.room_id new_rooms) cm)
      (ms, cm) = (ms ++ ms', cm') ∧ show_all ms' v = Some v' ∧ v_users v' = v_users v ∧ channels_ok cm' ∧
    next_id cm' = next_id cm ∧ (∀ k, id_of cm' k = if decide (k ∈ Types.room_id <$> new_rooms) then id_of cm k else None) ∧
    shown Types.room_id (channel_of cm') cm' new_rooms (v_channels v').
Proof.
  intros Hold Hnew Hne Hmap Hsy Hperm Hu. pose proof (sy_ok _ _ _ _ _ Hsy) as Hok.
  set (l := removed_channels _ _ cm).
  destruct (removed_channels_spec (collect Types.room_id old_rooms) (map Types.room_id new_rooms) cm Hok) as (Hnd & Hl & _).
  fold l in Hnd, Hl.
  destruct (drop_channels_show (channel_of cm) (overlay Types.room_id done old_rooms) l cm v ms)
    as (ms' & cm' & v' & E & S1 & U1 & O1 & N1 & K1 & Hs1).
  - done.
  - done.
  - by intros e (? & ? & _)%Hl.
  - apply Hsy.
  - eapply removal_order; [done|done|done|]. intros k. by rewrite Hperm.
  - intros e s u (Hi & _ & Hn & _)%Hl Hs Eu. destruct (Hu s u Hs) as (r & Hr & Hri). apply Hn.
    rewrite Eu in Hri. rewrite (channels_inj cm _ _ _ Hok Hi Hri). by apply list_elem_of_fmap_2.
  - assert (∀ k, id_of cm' k = if decide (k ∈ Types.room_id <$> new_rooms) then id_of cm k else None) as Hk.
    { intros k. rewrite K1. destruct (decide (k ∈ l.*2)) as [([d e] & -> & (_ & _ & Hn & _)%Hl)%list_elem_of_fmap_1|Hn].
      - by rewrite decide_False.
      - case_decide as Ein; [done|]. destruct (id_of cm k) as [i|] eqn:Ei; [|done]. destruct Hn.
        change k with ((old_depth k (collect Types.room_id old_rooms), i, k).2). apply list_elem_of_fmap_2, Hl.
        split_and!; [done| |done|done]. cbn. intros ->. destruct (so_root _ _ Hnew); done. }
    exists ms', cm', v'. split_and!; try done. eapply shown_ext; [| | | |exact Hs1].
    + intros r i Hi. rewrite elem_of_overlay, Hperm. split; [|by left]. intros [?|[_ Hn]]; [done|].
      rewrite Hk, decide_False in Hi by done. done.
    + done.
    + done.
    + intros r i Hr Hi. unfold channel_of. f_equal. case_bool_decide as Er; [done|]. rewrite Hk, decide_True; [done|].
      apply elem_of_overlay in Hr as [Hr|[_ Hn]]; [rewrite <- Hperm; by apply (sy_parents _ _ _ _ _ Hsy)|].
      rewrite Hperm in Hn. rewrite Hk, decide_False in Hi by done. done.
Qed.

Record reconciled (old_channels : ChannelMap) (old_sessions : UserMap) (new_rooms : list Types.Room)
    (new_users : list Types.User) (skip : SkipRules) (out : ReconcileOutput) (channels : ChannelMap) (sessions : UserMap)
    (v v' : View) : Prop := {
  rc_messages : show_all (messages out) v = Some v';
  rc_projected : projected new_rooms new_users channels sessions v';
  rc_channels : ∀ k, is_Some (id_of channels k) ↔ k ∈ Types.room_id <$> new_rooms;
  rc_sessions : ∀ k, is_Some (id_of sessions k) ↔ ∃ u, u ∈ new_users ∧ skips skip u = false ∧ Types.user_id u = k;
  rc_same_channel : ∀ k i, k ∈ Types.room_id <$> new_rooms → id_of old_channels k = Some i → id_of channels k = Some i;
  rc_same_session : ∀ k i, is_Some (id_of sessions k) → id_of old_sessions k = Some i → id_of sessions k = Some i;
  rc_next : (next_id channels <= next_id old_channels + N.of_nat (List.length new_rooms))%N;
  rc_removed : ∀ k, k ∈ removed_user_ids out ↔ is_Some (id_of old_sessions k) ∧ id_of sessions k = None;
}.

(** Every user of the snapshot is in a channel that is shown. *)
Lemma placed_channel old_rooms new_rooms new_users channels done cm v u :
  snapshot_ok new_rooms new_users → synced old_rooms channels done cm v → done ≡ₚ new_rooms → u ∈ new_users →
  ∃ r i, r ∈ new_rooms ∧ Types.current_room u = Types.room_id r ∧ id_of cm (Types.room_id r) = Some i ∧
    is_Some (v_channels v !! i).
Proof.
  intros Hnew Hsy Hperm Hu. destruct (list_elem_of_fmap_1 _ _ _ (so_placed _ _ Hnew u Hu)) as (r & Er & Hr).
  rewrite <- Hperm in Hr. destruct (sy_mapped _ _ _ _ _ Hsy r Hr) as [i Hi]. exists r, i. rewrite <- Hperm.
  split_and!; [done..|]. exists (channel_of cm r). apply (sy_shown _ _ _ _ _ Hsy).
  exists r. split_and!; [apply elem_of_overlay; by left|done|done].
Qed.

(** Of the roster, exactly the wanted users are shown. *)
Lemma wanted_shown old_users wanted users cm cm' um g :
  NoDup (Types.user_id <$> users) → (∀ u, u ∈ wanted → u ∈ users) →
  (∀ k, is_Some (id_of um k) → k ∈ Types.user_id <$> wanted) →
  (∀ u, u ∈ users → user_of cm u = user_of cm' u) →
  shown Types.user_id (user_of cm) um (overlay Types.user_id wanted old_users) g →
  shown Types.user_id (user_of cm') um users g.
Proof.
  intros Hnd Hsub Hum Heq Hs.
  assert (∀ u s, u ∈ overlay Types.user_id wanted old_users → id_of um (Types.user_id u) = Some s → u ∈ wanted) as Hov.
  { intros u s [Hu|[_ Hn]]%elem_of_overlay Hs'; [done|]. destruct Hn. apply Hum. by exists s. }
  eapply shown_ext; [| | | |exact Hs]; try done.
  - intros u s Hs'. split; [intros Hu; by eapply Hsub, Hov|]. intros Hu. apply elem_of_overlay. left.
    destruct (list_elem_of_fmap_1 _ _ _ (Hum (Types.user_id u) ltac:(by exists s))) as (w & Ew & Hw).
    assert (u = w) as -> by (apply (NoDup_fmap_inj Types.user_id users); auto). done.
  - intros u s Hu Hs'. by eapply Heq, Hsub, Hov.
Qed.

(** Only users of the snapshot are shown, in channels that stay. *)
Lemma shown_in_new_rooms old_users (wanted : list Types.User) (new_rooms : list Types.Room) cm um g s u :
  (∀ w, w ∈ wanted → ∃ r i, r ∈ new_rooms ∧ Types.current_room w = Types.room_id r ∧ id_of cm (Types.room_id r) = Some i) →
  (∀ k, is_Some (id_of um k) → k ∈ Types.user_id <$> wanted) →
  shown Types.user_id (user_of cm) um (overlay Types.user_id wanted old_users) g → g !! s = Some u →
  ∃ r, r ∈ new_rooms ∧ id_of cm (Types.room_id r) = Some (mu_channel u).
Proof.
  intros Hplaced Hum Hs (w & Hw & Hi & ->)%Hs.
  assert (w ∈ wanted) as Hw'.
  { apply elem_of_overlay in Hw as [Hw|[_ Hn]]; [done|]. destruct Hn. apply Hum. by exists s. }
  destruct (Hplaced w Hw') as (r & i & Hr & Er & Hri). exists r. split; [done|]. cbn. by rewrite Er, Hri.
Qed.

Lemma reconcile_runs fuel old_rooms old_users new_rooms new_users channels sessions skip v :
  snapshot_ok old_rooms old_users → snapshot_ok new_rooms new_users → new_rooms ≠ [] →
  descriptions_kept old_rooms new_rooms → projected old_rooms old_users channels sessions v →
  (next_id channels + N.of_nat (List.length new_rooms) + 1 < 2 ^ 32)%N →
  (next_id sessions + N.of_nat (List.length new_users) < 2 ^ 32)%N →
  (List.length new_rooms ≤ fuel)%nat →
  ∃ out channels' sessions' v',
    reconcile_server_state fuel old_rooms old_users new_rooms new_users channels sessions skip =
      Some (out, channels', sessions') ∧
    reconciled channels sessions new_rooms new_users skip out channels' sessions' v v'.
Proof.
  intros Hold Hnew Hne Hkept [Hcm Hum Hmap Hrooms Husers] Hnc Hnu Hfuel. unfold reconcile_server_state.
  set (wanted := retain (λ u, negb (skips skip u)) new_users).
  assert (∀ u, u ∈ wanted ↔ u ∈ new_users ∧ skips skip u = false) as Hwanted by (intros u; apply wanted_spec).
  destruct (prune_users old_users sessions (map Types.user_id wanted) _ v Hum Husers)
    as (um1 & v1 & -> & S1 & C1 & O1 & N1 & K1 & Hs1 & Hgone).
  set (gone := vanished sessions (map Types.user_id wanted)) in *. cbn [messages removed_user_ids].
  assert (synced old_rooms channels [] channels v1) as Hsy0.
  { split; try done; [by intros ???|by intros k Hk; left|by intros r Hr%elem_of_nil|cbn; lia|by intros r Hr%elem_of_nil|].
    by rewrite overlay_nil, C1. }
  destruct (sync_rooms_shows old_rooms old_users new_rooms new_users channels Hold Hnew Hkept Hmap fuel [] _
    (map (λ e, UserRemove e.2 (Some "Left"%string)) gone) channels v1 Hsy0 (first_queue_ok new_rooms new_users Hnew Hne) Hfuel Hnc)
    as (ms2 & done & cm2 & v2 & -> & S2 & U2 & Hsy & Hperm). cbn [mbind option_bind].
  pose proof (λ u, placed_channel _ _ _ _ _ _ _ u Hnew Hsy Hperm) as Hplaced.
  destruct (sync_users_show old_users cm2 (sy_ok _ _ _ _ _ Hsy) (so_users _ _ Hold) [] wanted um1 v2
    (map (λ e, UserRemove e.2 (Some "Left"%string)) gone ++ ms2)) as (ms3 & um3 & v3 & -> & S3 & C3 & O3 & X3 & K3 & Hs3).
  { done. }
  { rewrite N1. assert (List.length wanted ≤ List.length new_users)%nat; [|lia]. apply sublist_length, retain_sublist. }
  { apply NoDup_fmap_retain, Hnew. }
  { intros u [Hu _]%Hwanted. destruct (Hplaced u Hu) as (r & i & _ & -> & Hi & Hsi). by exists i. }
  { rewrite overlay_nil, U2. eapply users_follow; [done|apply Hsy|done|done]. }
  change ([] ++ wanted) with wanted in Hs3.
  assert (∀ k, is_Some (id_of um3 k) ↔ k ∈ Types.user_id <$> wanted) as Hum3.
  { intros k. rewrite K3, K1. destruct (decide (k ∈ map Types.user_id wanted)) as [Hk|Hk].
    - split; [done|intros ?; by right].
    - split; [by intros [[? ?]|?]|intros ?; by right]. }
  destruct (prune_channels old_rooms old_users new_rooms new_users channels done cm2 v3
    ((map (λ e, UserRemove e.2 (Some "Left"%string)) gone ++ ms2) ++ ms3) Hold Hnew Hne Hmap)
    as (ms4 & cm4 & v4 & -> & S4 & U4 & O4 & N4 & K4 & Hs4); [|done| |].
  { destruct Hsy. split; try done. by rewrite C3. }
  { intros s u. eapply shown_in_new_rooms; [|apply Hum3|exact Hs3]. intros w [Hw _]%Hwanted.
    destruct (Hplaced w Hw) as (r & i & ? & ? & ? & _). by exists r, i. }
  assert (∀ r, r ∈ new_rooms → ∃ i, id_of cm2 (Types.room_id r) = Some i ∧ id_of cm4 (Types.room_id r) = Some i) as Hroom.
  { intros r Hr. rewrite K4, decide_True by (by apply list_elem_of_fmap_2). rewrite <- Hperm in Hr.
    destruct (sy_mapped _ _ _ _ _ Hsy r Hr) as [i Hi]. by exists i. }
  eexists _, cm4, um3, v4. split; [done|]. split; cbn [messages removed_user_ids].
  - rewrite !show_all_app, S1. cbn. rewrite S2. cbn. by rewrite S3.
  - split; [done|done| |done|].
    + intros r Hr. destruct (Hroom r Hr) as (i & _ & Hi). by exists i.
    + rewrite U4. eapply wanted_shown; [apply Hnew|by intros u [? _]%Hwanted|apply Hum3| |exact Hs3].
      intros u Hu. unfold user_of. f_equal. destruct (Hplaced u Hu) as (r & _ & Hr & -> & _).
      by destruct (Hroom r Hr) as (i & -> & ->).
  - intros k. split.
    + intros [i Hi]. rewrite K4 in Hi. by case_decide.
    + intros (r & -> & Hr)%list_elem_of_fmap_1. destruct (Hroom r Hr) as (i & _ & Hi). by exists i.
  - intros k. rewrite Hum3, list_elem_of_fmap. setoid_rewrite Hwanted. naive_solver.
  - intros k i Hk Hi. rewrite K4, decide_True by done. by apply (sy_ext _ _ _ _ _ Hsy).
  - intros k i Hk Hi. apply X3. rewrite K1, decide_True; [done|]. by apply Hum3.
  - pose proof (sy_next _ _ _ _ _ Hsy) as Hnx. rewrite Hperm in Hnx. rewrite N4. lia.
  - intros k. rewrite Hgone. split; intros [Hi Hn]; (split; [done|]).
    + destruct (id_of um3 k) as [i|] eqn:Ei; [|done]. destruct Hn. apply Hum3. by exists i.
    + intros Hk%Hum3. rewrite Hn in Hk. by destruct Hk.
Qed.

(** ** A second time *)

Lemma sync_rooms_quiet fuel old_by rooms queue ms cm res :
  (∀ r, r ∈ rooms → sync_room old_by r cm = ([], cm)) → (∀ r, r ∈ queue → r ∈ rooms) →
  sync_rooms fuel old_by (children_map rooms) queue (ms, cm) = Some res → res = (ms, cm).
Proof.
  intros Hq. revert queue. induction fuel as [|fuel IH]; intros [|r queue] Hin; cbn [sync_rooms]; try congruence.
  cbn [fst snd]. rewrite Hq by (apply Hin; by left). rewrite app_nil_r. apply IH.
  intros x [Hx|Hx]%elem_of_app; [apply Hin; by right|]. by apply elem_of_children in Hx as [Hx _].
Qed.

Lemma sync_users_quiet old_by todo ms cm um :
  (∀ u, u ∈ todo → sync_user old_by u (ms, cm, um) = (ms, cm, um)) →
  fold_left (λ st u, sync_user old_by u st) todo (ms, cm, um) = (ms, cm, um).
Proof.
  induction todo as [|u todo IH]; intros Hq; cbn [fold_left]; [done|]. rewrite Hq by by left. apply IH.
  intros x Hx. apply Hq. by right.
Qed.

Lemma sync_room_quiet rooms users cm r :
  snapshot_ok rooms users → channels_ok cm → (∀ k, is_Some (id_of cm k) ↔ k ∈ Types.room_id <$> rooms) → r ∈ rooms →
  sync_room (collect Types.room_id rooms) r cm = ([], cm).
Proof.
  intros Hok Hcm Hids Hr. unfold sync_room.
  destruct (proj2 (Hids (Types.room_id r)) (list_elem_of_fmap_2 _ _ _ Hr)) as [i Hi].
  rewrite (channel_get_known _ i) by done.
  assert (collect Types.room_id rooms !! Types.room_id r = Some r) as -> by (by apply collect_lookup; [apply Hok|]).
  assert (room_changed (Some r) r = false) as -> by (cbn; by rewrite !bool_decide_eq_true_2).
  case_bool_decide as E; [done|]. destruct (parent_known _ _ r Hok Hr E) as (Hp & _).
  apply Hids in Hp as [p Hp]. by rewrite (channel_get_known _ p).
Qed.

Lemma sync_user_quiet rooms users cm um u ms :
  snapshot_ok rooms users → channels_ok cm → (∀ k, k ∈ Types.room_id <$> rooms → is_Some (id_of cm k)) →
  u ∈ users → is_Some (id_of um (Types.user_id u)) →
  sync_user (collect Types.user_id users) u (ms, cm, um) = (ms, cm, um).
Proof.
  intros Hok Hcm Hids Hu [s Hs]. unfold sync_user. destruct (Hids _ (so_placed _ _ Hok u Hu)) as [i Hi].
  rewrite (channel_get_known _ i) by done. unfold get_or_assign. pose proof Hs as Hs'. unfold id_of in Hs'. rewrite Hs', Hs.
  assert (collect Types.user_id users !! Types.user_id u = Some u) as -> by (by apply collect_lookup; [apply Hok|]).
  assert (user_changed (Some s) (Some u) u = false) as ->; [|by rewrite app_nil_r].
  cbn. rewrite !bool_decide_eq_true_2, !Bool.eqb_reflx by done. done.
Qed.

Lemma reconcile_again fuel rooms us channels sessions skip out channels' sessions' v v' old_channels old_sessions :
  snapshot_ok rooms us → rooms ≠ [] → (List.length rooms ≤ fuel)%nat →
  (next_id channels + N.of_nat (List.length rooms) + 1 < 2 ^ 32)%N →
  channels = channels' → sessions = sessions' →
  reconciled old_channels old_sessions rooms us skip out channels' sessions' v v' →
  reconcile_server_state fuel rooms us rooms us channels sessions skip = Some (mkOutput [] [], channels, sessions).
Proof.
  intros Hok Hne Hf Hn -> -> [_ [Hcm Hum Hmap Hr Hu] Hch Hse _ _ _]. unfold reconcile_server_state.
  set (wanted := retain (λ u, negb (skips skip u)) us).
  assert (vanished sessions' (map Types.user_id wanted) = []) as ->.
  { destruct (vanished _ _) as [|[k i] l] eqn:E; [done|]. exfalso.
    destruct (proj1 (proj2 (vanished_spec sessions' (map Types.user_id wanted) Hum) k i)) as [Hi Hw]; [rewrite E; by left|].
    destruct (proj1 (Hse k) ltac:(by exists i)) as (u & Hin & Hsk & <-). apply Hw, list_elem_of_fmap_2, wanted_spec. done. }
  cbn [fold_left messages removed_user_ids].
  assert (synced rooms channels' [] channels' v') as Hsy.
  { split; try done; [by intros ???|by intros k Hk; left|by intros r Hin%elem_of_nil|cbn; lia|by intros r Hin%elem_of_nil|].
    by rewrite overlay_nil. }
  assert (descriptions_kept rooms rooms) as Hkept.
  { intros o r Ho Hin E. by rewrite (NoDup_fmap_inj Types.room_id rooms o r (so_ids _ _ Hok) Ho Hin E). }
  destruct (sync_rooms_shows rooms us rooms us channels' Hok Hok Hkept Hmap fuel [] _ [] channels' v' Hsy
    (first_queue_ok rooms us Hok Hne) Hf Hn) as (ms & all & cm & v2 & E & _).
  rewrite E. apply (sync_rooms_quiet _ _ rooms) in E as [= Ems ->].
  - cbn [mbind option_bind app]. rewrite Ems, sync_users_quiet.
    + assert (removed_channels (collect Types.room_id rooms) (map Types.room_id rooms) channels' = []) as ->; [|done].
      destruct (removed_channels _ _ _) as [|e l] eqn:El; [done|]. exfalso.
      destruct (removed_channels_spec (collect Types.room_id rooms) (map Types.room_id rooms) channels' Hcm) as (_ & Hl & _).
      destruct (proj1 (Hl e)) as (Hi & _ & Hn' & _); [rewrite El; by left|]. apply Hn', Hch. by exists e.1.2.
    + intros u [Hin Hsk]%wanted_spec. eapply sync_user_quiet; [done|done|by intros k; apply Hch|done|]. apply Hse. by exists u.
  - intros r Hin. by eapply sync_room_quiet.
  - intros r Hin. apply (q_new _ _ _ (first_queue_ok rooms us Hok Hne)). done.
Qed.

(** C15: Reconciling with a snapshot of the server: the loop ends within as many rounds
    as there are rooms; the messages, in the order they are sent, never refer
    to a channel that is not there and never remove one that is in use; after
    them the Mumble clients show exactly the rooms and the unskipped users of the
    snapshot; what stays keeps its channel and session ids, and the maps hold
    nothing else.  Reconciling with the same snapshot again sends nothing and
    changes nothing. *)
Theorem reconcile_spec fuel old_rooms old_users new_rooms new_users channels sessions skip v :
  snapshot_ok old_rooms old_users → snapshot_ok new_rooms new_users → new_rooms ≠ [] →
  descriptions_kept old_rooms new_rooms → projected old_rooms old_users channels sessions v →
  (next_id channels + 2 * N.of_nat (List.length new_rooms) + 2 < 2 ^ 32)%N →
  (next_id sessions + N.of_nat (List.length new_users) < 2 ^ 32)%N →
  (List.length new_rooms ≤ fuel)%nat →
  ∃ out channels' sessions' v',
    reconcile_server_state fuel old_rooms old_users new_rooms new_users channels sessions skip =
      Some (out, channels', sessions') ∧
    reconciled channels sessions new_rooms new_users skip out channels' sessions' v v' ∧
    reconcile_server_state fuel new_rooms new_users new_rooms new_users channels' sessions' skip =
      Some (mkOutput [] [], channels', sessions').
Proof.
  intros Hold Hnew Hne Hkept Hpr Hnc Hnu Hf.
  destruct (reconcile_runs fuel old_rooms old_users new_rooms new_users channels sessions skip v)
    as (out & channels' & sessions' & v' & E & R); try done; [lia|].
  exists out, channels', sessions', v'. split_and!; [done|done|].
  eapply reconcile_again; try done. pose proof (rc_next _ _ _ _ _ _ _ _ _ _ R). lia.
Qed.

(** ** Examples *)

Definition sample_uuid (n : N) : Types.Uuid := array_of_N 16 n.
Definition sample_room (n parent : N) (name : string) (description : option string) : Types.Room :=
  Types.mkRoom (sample_uuid n) name (sample_uuid parent) description true [] 0.
Definition sample_user (n room : N) (name : string) : Types.User :=
  Types.mkUser n name (sample_uuid room) false false false false [] None.
Definition sample_rooms_1 : list Types.Room :=
  [sample_room 0 0 "Root" None; sample_room 1 0 "Lobby" None; sample_room 2 1 "Attic" (Some "up")].
Definition sample_users_1 : list Types.User := [sample_user 7 1 "ann"; sample_user 8 2 "bob"; sample_user 9 0 "bridge"].
Definition sample_rooms_2 : list Types.Room :=
  [sample_room 3 1 "Cellar" None; sample_room 1 0 "Hall" None; sample_room 0 0 "Root" None].
Definition sample_users_2 : list Types.User := [sample_user 7 3 "ann"; sample_user 9 0 "bridge"; sample_user 5 0 "cid"].
Definition sample_skip : SkipRules := mkSkip (Some 9%N) ∅ ∅.
Definition sample_first : option (ReconcileOutput * ChannelMap * UserMap) :=
  reconcile_server_state 3 [] [] sample_rooms_1 sample_users_1 ChannelMap_new UserMap_new sample_skip.
Definition sample_second : option (ReconcileOutput * ChannelMap * UserMap) :=
  '(out, channels, sessions) ← sample_first;
  reconcile_server_state 3 sample_rooms_1 sample_users_1 sample_rooms_2 sample_users_2 channels sessions sample_skip.

(** Bob leaves, the cellar appears below the hall, the attic goes last. *)
Example sample_messages :
  (λ r, messages r.1.1) <$> sample_second =
  Some [UserRemove 100001 (Some "Left"); ChannelState (Some 1%N) (Some 0%N) (Some "Hall") None;
        ChannelState (Some 3%N) (Some 1%N) (Some "Cellar") None;
        UserState (Some 100000%N) None (Some "ann") (Some 3%N) (Some false) (Some false);
        UserState (Some 100002%N) None (Some "cid") (Some 0%N) (Some false) (Some false); ChannelRemove 2]%string.
Proof. vm_compute. reflexivity. Qed.

#[local] Ltac decided := by apply (bool_decide_unpack _); vm_compute.
#[local] Ltac each_of l := repeat (apply elem_of_cons in l as [->|l]); last by apply elem_of_nil in l.
#[local] Ltac sample_snapshot :=
  split; [decided|right; decided| |decided|];
    [intros r Hr; each_of Hr; eexists; repeat (first [apply Acl.anc_root|eapply Acl.anc_up; [decided|reflexivity|]])
    |intros u Hu; each_of Hu; decided].

Lemma sample_snapshot_1 : snapshot_ok sample_rooms_1 sample_users_1.
Proof. sample_snapshot. Qed.

Lemma sample_snapshot_2 : snapshot_ok sample_rooms_2 sample_users_2.
Proof. sample_snapshot. Qed.

Lemma sample_start : projected [] [] ChannelMap_new UserMap_new (mkView ∅ ∅).
Proof.
  split.
  - split; [|by intros k; split; [|intros [_ [? ?]]]|done]. split; [|done]. intros k i. by split.
  - split; [|done]. intros k i. by split.
  - by intros r Hr%elem_of_nil.
  - intros i b. split; [done|]. by intros (a & Ha%elem_of_nil & _).
  - intros i b. split; [done|]. by intros (a & Ha%elem_of_nil & _).
Qed.

Lemma sample_ids : (λ r, (next_id r.1.2, next_id r.2)) <$> sample_first = Some (3%N, 100002%N).
Proof. vm_compute. reflexivity. Qed.

Lemma sample_kept : descriptions_kept sample_rooms_1 sample_rooms_2.
Proof.
  intros o r Ho Hr Hid. each_of Ho; each_of Hr; try (by intros [? ?]); by apply (f_equal arr) in Hid; vm_compute in Hid.
Qed.

Lemma reconcile_spec_witness :
  ∃ out channels sessions v v',
    sample_second = Some (out, channels, sessions) ∧ show_all (messages out) v = Some v' ∧
    projected sample_rooms_2 sample_users_2 channels sessions v'.
Proof.
  destruct (reconcile_spec 3 [] [] sample_rooms_1 sample_users_1 ChannelMap_new UserMap_new sample_skip (mkView ∅ ∅))
    as (out1 & c1 & s1 & v1 & E1 & R1 & _).
  { split; [constructor|by left|by intros r Hr%elem_of_nil|constructor|by intros r Hr%elem_of_nil]. }
  { exact sample_snapshot_1. }
  { done. }
  { by intros o r Ho%elem_of_nil. }
  { exact sample_start. }
  { vm_compute. done. }
  { vm_compute. done. }
  { cbn. lia. }
  pose proof sample_ids as Eids. unfold sample_second, sample_first in *. rewrite E1 in *. cbn [mbind option_bind] in *.
  injection Eids as Ec Es.
  destruct (reconcile_spec 3 sample_rooms_1 sample_users_1 sample_rooms_2 sample_users_2 c1 s1 sample_skip v1)
    as (out2 & c2 & s2 & v2 & E2 & R2 & _).
  { exact sample_snapshot_1. }
  { exact sample_snapshot_2. }
  { done. }
  { exact sample_kept. }
  { apply R1. }
  { cbn in Ec. rewrite Ec. vm_compute. done. }
  { cbn in Es. rewrite Es. vm_compute. done. }
  { cbn. lia. }
  exists out2, c2, s2, v1, v2. split_and!; [exact E2|apply R2|apply R2].
Defined.

(** A description that is cleared is never taken back on the Mumble side: an absent
    field changes nothing. *)
Example cleared_description_stays :
  let old := [sample_room 0 0 "Root" None; sample_room 1 0 "Lobby" (Some "welcome")] in
  let new := [sample_room 0 0 "Root" None; sample_room 1 0 "Lobby" None] in
  (λ v, ch_description <$> v_channels v !! 1%N) <$>
    (r1 ← reconcile_server_state 2 [] [] old [] ChannelMap_new UserMap_new sample_skip;
     r2 ← reconcile_server_state 2 old [] new [] r1.1.2 r1.2 sample_skip;
     v ← show_all (messages r1.1.1) (mkView ∅ ∅);
     show_all (messages r2.1.1) v)
  = Some (Some (Some "welcome")).
Proof. vm_compute. reflexivity. Qed.

(** Rooms that repeat an id and are their own parents keep the queue growing: no
    fuel is enough. *)
Definition repeated_rooms : list Types.Room :=
  [sample_room 0 0 "Root" None; sample_room 1 0 "A" None; sample_room 1 1 "A" None].
Example repeated_rooms_run_on :
  reconcile_server_state 1000 [] [] repeated_rooms [] ChannelMap_new UserMap_new sample_skip = None.
Proof. vm_compute. reflexivity. Qed.
End Reconcile.
