(* ===== verification/Bridge.v ===== *)
(** The event loop of the Mumble bridge: [crates/mumble-bridge/src/bridge.rs],
    with the client table of [mumble_server.rs] and [state.rs].

    One event is one step from a [Bridge] to a [Bridge]: the shared
    [BridgeState], the loop's own [BridgeLoopState] and what has been sent, in
    order.  A send that fails is logged and otherwise ignored by the code, so
    sending is appending.  [client_senders] is the set of sessions that have an
    outbound channel.  The loop holds one event at a time; the handshake and
    the clean-up of a Mumble connection run beside it and change the shared
    state under its lock. *)
From Stdlib Require Import NArith ZArith Lia String.
From stdpp Require Import base gmap strings list pretty.
From S2P Require Import Prelude Proto Types Wire State World Acl Ops Voice MumbleVoice Reconcile.

Module Bridge.
Import Reconcile.
Open Scope list_scope.
Local Arguments Types.ROOT_ROOM_UUID : simpl never.
Local Arguments id_of : simpl never.

(** ** State *)

Record BridgeConfig := mkConfig { bridge_name : string; welcome_text : string; max_bandwidth : N }.

Record MumbleClient := mkClient {
  mc_session : N;
  mc_username : string;
  mc_channel_id : N;
  mc_is_muted : bool;
  mc_is_deafened : bool;
}.

Record BridgeState := mkState {
  channels : ChannelMap;
  users : UserMap;
  mumble_clients : gmap N MumbleClient;
  next_mumble_session : N;
  rumble_rooms : list Types.Room;
  rumble_users : list Types.User;
  bridge_user_id : option N;
  rumble_connected : bool;
  pending_registrations : list (string * N);
  virtual_user_map : gmap N N;
  reverse_virtual_user_map : gmap N N;
  welcome_message : option string;
}.
Definition BridgeState_new : BridgeState :=
  mkState ChannelMap_new UserMap_new ∅ 1000 [] [] None false [] ∅ ∅ None.

Definition with_maps (c : ChannelMap) (u : UserMap) (s : BridgeState) : BridgeState :=
  mkState c u (mumble_clients s) (next_mumble_session s) (rumble_rooms s) (rumble_users s) (bridge_user_id s)
    (rumble_connected s) (pending_registrations s) (virtual_user_map s) (reverse_virtual_user_map s) (welcome_message s).
Definition with_clients (f : gmap N MumbleClient → gmap N MumbleClient) (s : BridgeState) : BridgeState :=
  mkState (channels s) (users s) (f (mumble_clients s)) (next_mumble_session s) (rumble_rooms s) (rumble_users s)
    (bridge_user_id s) (rumble_connected s) (pending_registrations s) (virtual_user_map s) (reverse_virtual_user_map s)
    (welcome_message s).
Definition with_next_session (n : N) (s : BridgeState) : BridgeState :=
  mkState (channels s) (users s) (mumble_clients s) n (rumble_rooms s) (rumble_users s) (bridge_user_id s)
    (rumble_connected s) (pending_registrations s) (virtual_user_map s) (reverse_virtual_user_map s) (welcome_message s).
Definition with_roster (rooms : list Types.Room) (us : list Types.User) (s : BridgeState) : BridgeState :=
  mkState (channels s) (users s) (mumble_clients s) (next_mumble_session s) rooms us (bridge_user_id s)
    (rumble_connected s) (pending_registrations s) (virtual_user_map s) (reverse_virtual_user_map s) (welcome_message s).
Definition with_connection (id : option N) (connected : bool) (s : BridgeState) : BridgeState :=
  mkState (channels s) (users s) (mumble_clients s) (next_mumble_session s) (rumble_rooms s) (rumble_users s) id connected
    (pending_registrations s) (virtual_user_map s) (reverse_virtual_user_map s) (welcome_message s).
Definition with_virtual (pending : list (string * N)) (m r : gmap N N) (s : BridgeState) : BridgeState :=
  mkState (channels s) (users s) (mumble_clients s) (next_mumble_session s) (rumble_rooms s) (rumble_users s)
    (bridge_user_id s) (rumble_connected s) pending m r (welcome_message s).
Definition with_welcome (w : option string) (s : BridgeState) : BridgeState :=
  mkState (channels s) (users s) (mumble_clients s) (next_mumble_session s) (rumble_rooms s) (rumble_users s)
    (bridge_user_id s) (rumble_connected s) (pending_registrations s) (virtual_user_map s) (reverse_virtual_user_map s) w.

Definition allocate_mumble_session (s : BridgeState) : N * BridgeState :=
  (next_mumble_session s, with_next_session (wrap_u32 (next_mumble_session s + 1)) s).

Record BridgeLoopState := mkLoop {
  client_senders : gset N;
  mumble_to_rumble_seq : gmap N N;
  rumble_outbound_seq : gmap N N;
}.
Definition BridgeLoopState_new : BridgeLoopState := mkLoop ∅ ∅ ∅.

(** What goes to a Mumble client. *)
Inductive Outbound :=
  | Sync (m : SyncMessage)
  | TextMessage (actor : option N) (channel_id : list N) (message : option string)
  | PingReply (timestamp : option N)
  | PingEcho (payload : bytes)
  | ServerSync (session max_bandwidth : N) (welcome_text : string) (permissions : N)
  | ServerConfig (max_bandwidth : N) (welcome_text : string)
  | Voice (data : bytes).

Inductive Effect :=
  | ToMumble (session : N) (m : Outbound)
  | ToRumble (p : Proto.ClientPayload)
  | SendDatagram (d : Proto.VoiceDatagram).

Record Bridge := mkBridge { state : BridgeState; loop : BridgeLoopState; log : list Effect }.

Definition set_state (s : BridgeState) (b : Bridge) : Bridge := mkBridge s (loop b) (log b).
Definition set_loop (l : BridgeLoopState) (b : Bridge) : Bridge := mkBridge (state b) l (log b).
Definition emit (es : list Effect) (b : Bridge) : Bridge := mkBridge (state b) (loop b) (log b ++ es).
Definition to_rumble (p : Proto.ClientPayload) (b : Bridge) : Bridge := emit [ToRumble p] b.

Definition send_to_mumble_session (session : N) (m : Outbound) (b : Bridge) : Bridge :=
  if bool_decide (session ∈ client_senders (loop b)) then emit [ToMumble session m] b else b.

(** [for (session, sender) in senders], to those that satisfy [p]. *)
Definition send_where (p : N → bool) (m : Outbound) (b : Bridge) : Bridge :=
  emit (map (λ s, ToMumble s m) (retain p (elements (client_senders (loop b))))) b.
Definition broadcast_to_all_mumble (m : Outbound) (b : Bridge) : Bridge := send_where (λ _, true) m b.
Definition broadcast_to_mumble_except (exclude_session : N) (m : Outbound) (b : Bridge) : Bridge :=
  send_where (λ s, negb (s =? exclude_session)%N) m b.

(** ** State updates

    Each arm changes the cached state and says what to broadcast. *)

Definition uid_of (id : option Proto.UserId) : N := default 0%N (Proto.uid_value <$> id).
Definition is_virtual (rumble_id : N) (s : BridgeState) : bool :=
  bool_decide (is_Some (reverse_virtual_user_map s !! rumble_id)).
Definition is_pending (name : string) (s : BridgeState) : bool :=
  existsb (λ e : string * N, bool_decide (e.1 = name)) (pending_registrations s).
Definition has_user_id (id : N) (u : Types.User) : bool := bool_decide (Types.user_id u = id).

Definition on_user_joined (user : Proto.User) (s : BridgeState) : BridgeState * list SyncMessage :=
  let rumble_id := uid_of (Proto.pu_user_id user) in
  if bool_decide (Some rumble_id = bridge_user_id s) then (s, [])
  else if is_virtual rumble_id s then (s, [])
  else if is_pending (Proto.pu_username user) s then (s, [])
  else
    let '(session, sessions) := get_or_assign rumble_id (users s) in
    let '(channel_id, chs) :=
      match Proto.pu_current_room user ≫= Types.uuid_from_room_id with
      | Some uuid => channel_get_or_insert uuid (channels s)
      | None => (0%N, channels s)
      end in
    let roster := match Types.user_from_proto user with
                  | Some u => rumble_users s ++ [u]
                  | None => rumble_users s
                  end in
    (with_roster (rumble_rooms s) roster (with_maps chs sessions s),
     [UserState (Some session) None (Some (Proto.pu_username user)) (Some channel_id)
        (Some (Proto.pu_is_muted user)) (Some (Proto.pu_is_deafened user))]).

Definition on_user_left (user_id : option Proto.UserId) (s : BridgeState) : BridgeState * list SyncMessage :=
  let rumble_id := uid_of user_id in
  if is_virtual rumble_id s then (s, [])
  else
    (with_roster (rumble_rooms s) (retain (λ u, negb (has_user_id rumble_id u)) (rumble_users s))
       (with_maps (channels s) (remove_key rumble_id (users s)) s),
     match id_of (users s) rumble_id with
     | Some session => [UserRemove session (Some "Left"%string)]
     | None => []
     end).

Definition with_current_room (room : Types.Uuid) (u : Types.User) : Types.User :=
  Types.mkUser (Types.user_id u) (Types.username u) room (Types.is_muted u) (Types.is_deafened u)
    (Types.server_muted u) (Types.is_elevated u) (Types.groups u) (Types.label u).
Definition with_mute (is_muted is_deafened : bool) (u : Types.User) : Types.User :=
  Types.mkUser (Types.user_id u) (Types.username u) (Types.current_room u) is_muted is_deafened
    (Types.server_muted u) (Types.is_elevated u) (Types.groups u) (Types.label u).

Definition on_user_moved (user_id : option Proto.UserId) (to_room_id : option Proto.RoomId) (s : BridgeState)
    : BridgeState * list SyncMessage :=
  let rumble_id := uid_of user_id in
  if is_virtual rumble_id s then (s, [])
  else
    let to := to_room_id ≫= Types.uuid_from_room_id in
    let roster := (update_first (has_user_id rumble_id)
                     (with_current_room (default Types.ROOT_ROOM_UUID to)) (rumble_users s)).1 in
    let '(channel_id, chs) := match to with
                              | Some uuid => let '(c, m) := channel_get_or_insert uuid (channels s) in (Some c, m)
                              | None => (None, channels s)
                              end in
    (with_roster (rumble_rooms s) roster (with_maps chs (users s) s),
     match id_of (users s) rumble_id, channel_id with
     | Some session, Some channel_id => [UserState (Some session) None None (Some channel_id) None None]
     | _, _ => []
     end).

Definition on_user_status_changed (user_id : option Proto.UserId) (is_muted is_deafened : bool) (s : BridgeState)
    : BridgeState * list SyncMessage :=
  let rumble_id := uid_of user_id in
  if is_virtual rumble_id s then (s, [])
  else
    (with_roster (rumble_rooms s)
       (update_first (has_user_id rumble_id) (with_mute is_muted is_deafened) (rumble_users s)).1 s,
     match id_of (users s) rumble_id with
     | Some session => [UserState (Some session) None None None (Some is_muted) (Some is_deafened)]
     | None => []
     end).

Definition on_room_created (room : Proto.RoomInfo) (s : BridgeState) : BridgeState * list SyncMessage :=
  match Proto.ri_id room ≫= Types.uuid_from_room_id with
  | None => (s, [])
  | Some uuid =>
      let '(channel_id, chs) := channel_get_or_insert uuid (channels s) in
      let '(parent, chs) :=
        match Proto.ri_parent_id room ≫= Types.uuid_from_room_id with
        | Some p => channel_get_or_insert p chs
        | None => (0%N, chs)
        end in
      let rooms := match Types.room_from_proto room with
                   | Some r => rumble_rooms s ++ [r]
                   | None => rumble_rooms s
                   end in
      (with_roster rooms (rumble_users s) (with_maps chs (users s) s),
       [ChannelState (Some channel_id) (Some parent) (Some (Proto.ri_name room)) (Proto.ri_description room)])
  end.

Definition on_room_deleted (room_id : option Proto.RoomId) (s : BridgeState) : BridgeState * list SyncMessage :=
  match room_id ≫= Types.uuid_from_room_id with
  | None => (s, [])
  | Some uuid =>
      (with_roster (retain (λ r, negb (bool_decide (Types.room_id r = uuid))) (rumble_rooms s)) (rumble_users s)
         (with_maps (remove_key uuid (channels s)) (users s) s),
       match id_of (channels s) uuid with
       | Some channel_id => [ChannelRemove channel_id]
       | None => []
       end)
  end.

(** The cached rooms keep their old name. *)
Definition on_room_renamed (room_id : option Proto.RoomId) (new_name : string) (s : BridgeState) : list SyncMessage :=
  match (room_id ≫= Types.uuid_from_room_id) ≫= id_of (channels s) with
  | Some channel_id => [ChannelState (Some channel_id) None (Some new_name) None]
  | None => []
  end.

(** The cached rooms keep their old parent. *)
Definition on_room_moved (room_id new_parent_id : option Proto.RoomId) (s : BridgeState) : list SyncMessage :=
  match room_id ≫= Types.uuid_from_room_id, new_parent_id ≫= Types.uuid_from_room_id with
  | Some uuid, Some parent_uuid =>
      match id_of (channels s) uuid, id_of (channels s) parent_uuid with
      | Some channel_id, Some parent_id => [ChannelState (Some channel_id) (Some parent_id) None None]
      | _, _ => []
      end
  | _, _ => []
  end.

Definition with_description (d : option string) (r : Types.Room) : Types.Room :=
  Types.mkRoom (Types.room_id r) (Types.room_name r) (Types.room_parent r) d (Types.room_inherit_acl r)
    (Types.room_acls r) (Types.room_effective_permissions r).

Definition on_room_description_changed (room_id : option Proto.RoomId) (description : string) (s : BridgeState)
    : BridgeState * list SyncMessage :=
  match room_id ≫= Types.uuid_from_room_id with
  | None => (s, [])
  | Some uuid =>
      let d := if str_is_empty description then None else Some description in
      (with_roster (update_first (St.has_room_id uuid) (with_description d) (rumble_rooms s)).1 (rumble_users s) s,
       match id_of (channels s) uuid with
       | Some channel_id => [ChannelState (Some channel_id) None None d]
       | None => []
       end)
  end.

Definition update_state (su : Proto.Update) (s : BridgeState) : BridgeState * list SyncMessage :=
  match su with
  | Proto.UserJoined (Some user) => on_user_joined user s
  | Proto.UserJoined None => (s, [])
  | Proto.UserLeft user_id => on_user_left user_id s
  | Proto.UserMoved user_id to => on_user_moved user_id to s
  | Proto.UserStatusChanged user_id m d _ _ => on_user_status_changed user_id m d s
  | Proto.RoomCreated (Some room) => on_room_created room s
  | Proto.RoomCreated None => (s, [])
  | Proto.RoomDeleted room_id _ => on_room_deleted room_id s
  | Proto.RoomRenamed room_id new_name => (s, on_room_renamed room_id new_name s)
  | Proto.RoomMoved room_id parent => (s, on_room_moved room_id parent s)
  | Proto.RoomDescriptionChanged room_id d => on_room_description_changed room_id d s
  | Proto.RoomAclChanged _ _ _ | Proto.GroupChanged _ _ | Proto.UserGroupChanged _ _ _ _ => (s, [])
  end.

Definition broadcast_all (ms : list SyncMessage) (b : Bridge) : Bridge :=
  fold_left (λ b m, broadcast_to_all_mumble (Sync m) b) ms b.

Definition handle_state_update (su : Proto.Update) (b : Bridge) : Bridge :=
  let '(s, ms) := update_state su (state b) in
  let b := set_state s b in
  let b := match su with
           | Proto.UserLeft user_id =>
               if is_virtual (uid_of user_id) s then b
               else set_loop (mkLoop (client_senders (loop b)) (mumble_to_rumble_seq (loop b))
                      (delete (uid_of user_id) (rumble_outbound_seq (loop b)))) b
           | _ => b
           end in
  broadcast_all ms b.

(** ** Where a chat line goes *)

(** [Option::or]. *)
Definition opt_or {A} (x y : option A) : option A := match x with Some _ => x | None => y end.

Definition root_channel (uuid : Types.Uuid) : option N :=
  if bool_decide (uuid = Types.ROOT_ROOM_UUID) then Some 0%N else None.
Definition roster_user_channel (s : BridgeState) (user : Types.User) : option N :=
  opt_or (id_of (channels s) (Types.current_room user)) (root_channel (Types.current_room user)).

(** Channel 0 is Root before the map has seen the room. *)
Definition channel_uuid (chs : ChannelMap) (channel : N) : option Types.Uuid :=
  opt_or (key_of chs channel) (if (channel =? 0)%N then Some Types.ROOT_ROOM_UUID else None).

Definition named_client (s : BridgeState) (name : string) : option MumbleClient :=
  List.find (λ c, bool_decide (mc_username c = name)) (map snd (map_to_list (mumble_clients s))).

Definition resolve_chat_sender_channel (s : BridgeState) (sender_id : N) (sender_name : string) : option N :=
  let by_id :=
    if (sender_id =? 0)%N then None
    else match reverse_virtual_user_map s !! sender_id ≫= (λ session, mumble_clients s !! session) with
         | Some client => Some (mc_channel_id client)
         | None => List.find (has_user_id sender_id) (rumble_users s) ≫= roster_user_channel s
         end in
  match by_id with
  | Some channel => Some channel
  | None =>
      match named_client s sender_name with
      | Some client => Some (mc_channel_id client)
      | None => List.find (λ u, bool_decide (Types.username u = sender_name)) (rumble_users s) ≫= roster_user_channel s
      end
  end.

(** The walk over parent links is that of the server's
    [collect_descendant_rooms]: the same children map, the same visited set. *)
Definition collect_subtree_channels (rooms : list Types.Room) (chs : ChannelMap) (root : N) : gset N :=
  match channel_uuid chs root with
  | None => {[ root ]}
  | Some root_uuid =>
      {[ root ]} ∪ list_to_set (omap (id_of chs) (elements
        (Voice.bfs (S (List.length rooms)) (Voice.children_map rooms) {[ root_uuid ]} [root_uuid] ∖ {[ root_uuid ]})))
  end.

Definition in_channels (s : BridgeState) (target : gset N) (client_session : N) : bool :=
  match mumble_clients s !! client_session with
  | Some c => bool_decide (mc_channel_id c ∈ target)
  | None => false
  end.

Definition chat_targets (s : BridgeState) (is_tree : bool) (sender_channel : N) : gset N :=
  if is_tree then collect_subtree_channels (rumble_rooms s) (channels s) sender_channel else {[ sender_channel ]}.

Definition chat_actor (s : BridgeState) (sender_id : N) (sender : string) : option N :=
  let rumble_user_id :=
    if (sender_id =? 0)%N
    then Types.user_id <$> List.find (λ u, bool_decide (Types.username u = sender)) (rumble_users s)
    else Some sender_id in
  rumble_user_id ≫= (λ rid, opt_or (reverse_virtual_user_map s !! rid) (id_of (users s) rid)).

Definition handle_chat_broadcast (cb : Proto.ChatBroadcast) (b : Bridge) : Bridge :=
  let s := state b in
  let text := (Proto.cb_sender cb ++ ": " ++ Proto.cb_text cb)%string in
  let actor := chat_actor s (Proto.cb_sender_id cb) (Proto.cb_sender cb) in
  match resolve_chat_sender_channel s (Proto.cb_sender_id cb) (Proto.cb_sender cb) with
  | Some sender_channel =>
      send_where (in_channels s (chat_targets s (default false (Proto.cb_tree cb)) sender_channel))
        (TextMessage actor [sender_channel] (Some text)) b
  | None => broadcast_to_all_mumble (TextMessage actor [0%N] (Some text)) b
  end.

(** ** Messages of the server *)

(** [position] and [remove]. *)
Fixpoint take_from (name : string) (before l : list (string * N)) : option (N * list (string * N)) :=
  match l with
  | [] => None
  | e :: rest => if bool_decide (e.1 = name) then Some (e.2, before ++ rest) else take_from name (before ++ [e]) rest
  end.
Definition take_pending (name : string) (l : list (string * N)) : option (N * list (string * N)) := take_from name [] l.

Definition skip_rules (s : BridgeState) : SkipRules :=
  mkSkip (bridge_user_id s) (dom (reverse_virtual_user_map s)) (list_to_set (map fst (pending_registrations s))).

(** [None]: the reconciliation does not end. *)
Definition handle_server_state (fuel : nat) (ss : Proto.ServerState) (b : Bridge) : option Bridge :=
  let new_rooms := omap Types.room_from_proto (Proto.ss_rooms ss) in
  let new_users := omap Types.user_from_proto (Proto.ss_users ss) in
  let s := state b in
  '(out, chs, sessions) ← reconcile_server_state fuel (rumble_rooms s) (rumble_users s) new_rooms new_users
                            (channels s) (users s) (skip_rules s);
  let b := set_state (with_roster new_rooms new_users (with_maps chs sessions s)) b in
  let b := set_loop (mkLoop (client_senders (loop b)) (mumble_to_rumble_seq (loop b))
             (fold_left (λ m id, delete id m) (removed_user_ids out) (rumble_outbound_seq (loop b)))) b in
  Some (broadcast_all (messages out) b).

(** A registered participant: its owner, or nobody any more. *)
Inductive Pending := JoinRoom (vid session : N) | Unregister (vid : N).

Definition handle_participant_registered (user_id : N) (username : string) (b : Bridge) : Bridge * Pending :=
  let s := state b in
  match take_pending username (pending_registrations s) with
  | Some (session, rest) =>
      (set_state (with_virtual rest (<[session := user_id]> (virtual_user_map s))
                    (<[user_id := session]> (reverse_virtual_user_map s)) s) b,
       JoinRoom user_id session)
  | None => (b, Unregister user_id)
  end.

Definition handle_direct_message (dm : Proto.DirectMessageReceived) (b : Bridge) : Bridge :=
  match reverse_virtual_user_map (state b) !! Proto.dmr_target_user_id dm with
  | Some session =>
      send_to_mumble_session session
        (TextMessage (id_of (users (state b)) (Proto.dmr_sender_id dm)) []
           (Some ("[DM] " ++ Proto.dmr_sender_name dm ++ ": " ++ Proto.dmr_text dm)%string)) b
  | None => b
  end.

(** The flag: the server refused our [ControllerHello]. *)
Definition handle_rumble_envelope (fuel : nat) (env : Proto.ServerPayload) (b : Bridge)
    : option (bool * list Pending * Bridge) :=
  match env with
  | Proto.EvServerState ss => b ← handle_server_state fuel ss b; Some (false, [], b)
  | Proto.EvStateUpdate _ su => Some (false, [], handle_state_update su b)
  | Proto.EvChatBroadcast cb => Some (false, [], handle_chat_broadcast cb b)
  | Proto.EvDirectMessageReceived dm => Some (false, [], handle_direct_message dm b)
  | Proto.EvWelcomeMessage text => Some (false, [], set_state (with_welcome (Some text) (state b)) b)
  | Proto.ParticipantRegistered user_id username =>
      let '(b, p) := handle_participant_registered user_id username b in Some (false, [p], b)
  | Proto.CommandResult command success _ =>
      Some (negb success && bool_decide (command = "ControllerHello"%string), [], b)
  | _ => Some (false, [], b)
  end.

Definition process_pending (p : Pending) (b : Bridge) : Bridge :=
  match p with
  | JoinRoom vid session =>
      let client := mumble_clients (state b) !! session in
      let room_id := default Types.root_room_id
        (Types.room_id_from_uuid <$> ((mc_channel_id <$> client) ≫= key_of (channels (state b)))) in
      let is_muted := default false (mc_is_muted <$> client) in
      let is_deafened := default false (mc_is_deafened <$> client) in
      let b := to_rumble (Proto.PMoveParticipant vid (Some room_id)) b in
      if is_muted || is_deafened then to_rumble (Proto.PSetParticipantStatus vid is_muted is_deafened) b else b
  | Unregister vid => to_rumble (Proto.PUnregisterParticipant vid) b
  end.

(** ** Voice from the server *)

Definition is_empty {A} (l : list A) : bool := match l with [] => true | _ => false end.

Definition hears (s : BridgeState) (exclude : option N) (target : option N) (client_session : N) : bool :=
  if bool_decide (exclude = Some client_session) then false
  else match target with
       | Some target =>
           match mumble_clients s !! client_session with
           | Some c => negb (mc_is_deafened c) && (mc_channel_id c =? target)%N
           | None => false
           end
       | None =>
           match mumble_clients s !! client_session with
           | Some c => negb (mc_is_deafened c)
           | None => true
           end
       end.

Definition handle_rumble_voice (d : Proto.VoiceDatagram) (b : Bridge) : Bridge :=
  if is_empty (Proto.vd_opus_data d) && negb (Proto.vd_end_of_stream d) then b
  else match Proto.vd_sender_id d with
       | None => b
       | Some sender_id =>
           let s := state b in
           let vu_session := reverse_virtual_user_map s !! sender_id in
           let session := opt_or vu_session (id_of (users s) sender_id) in
           let target_channel := (Proto.vd_room_id d ≫= array_of_slice 16) ≫= id_of (channels s) in
           match session with
           | None => b
           | Some session =>
               let seq := wrap_u64 (default 0%N (rumble_outbound_seq (loop b) !! sender_id) + 2) in
               let b := set_loop (mkLoop (client_senders (loop b)) (mumble_to_rumble_seq (loop b))
                          (<[sender_id := seq]> (rumble_outbound_seq (loop b)))) b in
               send_where (hears s vu_session target_channel)
                 (Voice (MumbleVoice.encode_voice_packet session seq (Proto.vd_opus_data d) (Proto.vd_end_of_stream d))) b
           end
       end.

(** ** What a new Mumble client is told *)

(** One room: its state, with ids assigned on the way. *)
Definition room_state (room : Types.Room) (chs : ChannelMap) : SyncMessage * ChannelMap :=
  let '(channel_id, chs) := channel_get_or_insert (Types.room_id room) chs in
  let '(parent, chs) :=
    if bool_decide (Types.room_id room = Types.ROOT_ROOM_UUID) then (None, chs)
    else let '(p, chs) := channel_get_or_insert (Types.room_parent room) chs in (Some p, chs) in
  (ChannelState (Some channel_id) parent (Some (Types.room_name room)) (Types.room_description room), chs).

Fixpoint walk_rooms (fuel : nat) (children_of : gmap Types.Uuid (list Types.Room)) (queue : list Types.Room)
    (acc : list SyncMessage * ChannelMap) : option (list SyncMessage * ChannelMap) :=
  match queue with
  | [] => Some acc
  | room :: queue =>
      match fuel with
      | O => None
      | S fuel =>
          let '(m, chs) := room_state room acc.2 in
          walk_rooms fuel children_of (queue ++ default [] (children_of !! Types.room_id room)) (acc.1 ++ [m], chs)
      end
  end.

(** Every room gets its id first.  Root is made up when the state has no root
    room. *)
Definition assign_ids (rooms : list Types.Room) (chs : ChannelMap) : ChannelMap :=
  fold_left (λ m r, (channel_get_or_insert (Types.room_id r) m).2) rooms chs.
Definition build_channel_states (fuel : nat) (rooms : list Types.Room) (chs : ChannelMap)
    : option (list SyncMessage * ChannelMap) :=
  let children_of := children_map rooms in
  let synthesized := match List.find (St.has_room_id Types.ROOT_ROOM_UUID) rooms with
                     | Some _ => []
                     | None => [ChannelState (Some 0%N) None (Some "Root"%string) None]
                     end in
  walk_rooms fuel children_of (first_queue rooms children_of) (synthesized, assign_ids rooms chs).

Definition rumble_user_state (s : BridgeState) (user : Types.User) : option SyncMessage :=
  if bool_decide (Some (Types.user_id user) = bridge_user_id s) then None
  else (λ session, UserState (Some session) None (Some (Types.username user)) (id_of (channels s) (Types.current_room user))
                     (Some (Types.is_muted user)) (Some (Types.is_deafened user))) <$> id_of (users s) (Types.user_id user).
Definition client_state (c : MumbleClient) : SyncMessage :=
  UserState (Some (mc_session c)) None (Some (mc_username c)) (Some (mc_channel_id c))
    (Some (mc_is_muted c)) (Some (mc_is_deafened c)).
Definition build_user_states (s : BridgeState) (exclude_session : N) : list SyncMessage :=
  omap (rumble_user_state s) (rumble_users s) ++
  map client_state (retain (λ c, negb (mc_session c =? exclude_session)%N) (map snd (map_to_list (mumble_clients s)))).

Definition send_initial_sync (fuel : nat) (config : BridgeConfig) (session : N) (b : Bridge) : option Bridge :=
  '(chs, map_) ← build_channel_states fuel (rumble_rooms (state b)) (channels (state b));
  let s := with_maps map_ (users (state b)) (state b) in
  let b := set_state s b in
  match mumble_clients s !! session with
  | None => Some b
  | Some client =>
      let self_user := UserState (Some session) None (Some (mc_username client)) (Some (mc_channel_id client)) None None in
      let welcome := default (welcome_text config) (welcome_message s) in
      Some (emit (map (λ m, ToMumble session m)
        (map Sync (chs ++ build_user_states s session ++ [self_user]) ++
         [ServerSync session (max_bandwidth config) welcome 0x07FFFFFF; ServerConfig (max_bandwidth config) welcome])) b)
  end.

(** ** Events *)

Inductive BridgeEvent :=
  | MumbleClientJoined (session : N) (username : string)
  | MumbleClientLeft (session : N)
  | MumbleClientSender (session : N)
  | MumblePing (session : N) (payload : bytes)
  | MumbleVoice (session : N) (data : bytes)
  | MumbleChat (session : N) (message : string) (target_sessions target_tree_ids : list N)
  | MumbleChannelChange (session channel_id : N)
  | MumbleMuteDeafChange (session : N) (is_muted is_deafened : option bool)
  | RumbleEnvelope (env : Proto.ServerPayload)
  | RumbleVoice (d : Proto.VoiceDatagram)
  | RumbleReceiverDied.

Definition on_client_joined (session : N) (username : string) (b : Bridge) : Bridge :=
  let b := broadcast_to_mumble_except session
             (Sync (UserState (Some session) None (Some username) (Some 0%N) None None)) b in
  let s := state b in
  let b := set_state (with_virtual (pending_registrations s ++ [(username, session)]) (virtual_user_map s)
             (reverse_virtual_user_map s) s) b in
  to_rumble (Proto.PRegisterParticipant username (Some "Mumble"%string) None) b.

Definition on_client_left (session : N) (b : Bridge) : Bridge :=
  let l := loop b in
  let b := set_loop (mkLoop (client_senders l ∖ {[ session ]}) (delete session (mumble_to_rumble_seq l))
             (rumble_outbound_seq l)) b in
  let s := state b in
  let virtual_user_id := virtual_user_map s !! session in
  let b := set_state (with_virtual (retain (λ e : string * N, negb (e.2 =? session)%N) (pending_registrations s))
             (delete session (virtual_user_map s))
             (match virtual_user_id with
              | Some vid => delete vid (reverse_virtual_user_map s)
              | None => reverse_virtual_user_map s
              end) s) b in
  let b := match virtual_user_id with
           | Some vid => to_rumble (Proto.PUnregisterParticipant vid) b
           | None => b
           end in
  broadcast_to_all_mumble (Sync (UserRemove session (Some "Disconnected"%string))) b.

Definition on_client_sender (fuel : nat) (config : BridgeConfig) (session : N) (b : Bridge) : option Bridge :=
  b ← send_initial_sync fuel config session b;
  let l := loop b in
  Some (set_loop (mkLoop ({[ session ]} ∪ client_senders l) (mumble_to_rumble_seq l) (rumble_outbound_seq l)) b).

(** [decode] is the generated [Ping::decode]: the timestamp, if the payload is a
    ping. *)
Definition on_ping (decode : bytes → option (option N)) (session : N) (payload : bytes) (b : Bridge) : Bridge :=
  send_to_mumble_session session
    (match decode payload with Some timestamp => PingReply timestamp | None => PingEcho payload end) b.

Definition on_mumble_voice (session : N) (data : bytes) (b : Bridge) : Bridge :=
  let s := state b in
  let sender_muted := default false (mc_is_muted <$> mumble_clients s !! session) in
  if sender_muted then b
  else match virtual_user_map s !! session with
       | None => b
       | Some virtual_user_id =>
           match MumbleVoice.parse_voice_packet data with
           | None => b
           | Some voice =>
               if (MumbleVoice.target voice =? 31)%N then
                 send_to_mumble_session session
                   (Voice (MumbleVoice.encode_voice_packet session (MumbleVoice.sequence voice)
                      (MumbleVoice.opus_data voice) (MumbleVoice.is_last voice))) b
               else if negb (MumbleVoice.target voice =? 0)%N then b
               else
                 let seq := wrap_u32 (default 0%N (mumble_to_rumble_seq (loop b) !! session) + 1) in
                 let l := loop b in
                 let b := set_loop (mkLoop (client_senders l) (<[session := seq]> (mumble_to_rumble_seq l))
                            (rumble_outbound_seq l)) b in
                 emit [SendDatagram (Proto.mkVoiceDatagram (MumbleVoice.opus_data voice) seq (seq * 20000)
                         (MumbleVoice.is_last voice) (Some virtual_user_id) None)] b
           end
       end.

(** [tree.then_some(true)]. *)
Definition then_true (tree : bool) : option bool := if tree then Some true else None.

(** A private message goes to every listed session that stands for a Rumble
    user, through the server.  [fresh i] is the [i]-th message id drawn. *)
Definition send_private (fresh : nat → bytes) (now_ms : Z) (message : string) (target_sessions : list N) (b : Bridge) : Bridge :=
  let s := state b in
  let ids := omap (λ ts, opt_or (virtual_user_map s !! ts) (key_of (users s) ts)) target_sessions in
  emit (imap (λ i id, ToRumble (Proto.PDirectMessage (Proto.mkDirectMessage id message (fresh i) now_ms))) ids) b.

(** To the server: as the virtual user, or as the bridge with a prefix. *)
Definition send_room_chat (config : BridgeConfig) (fresh : nat → bytes) (now_ms : Z) (session : N) (message : string)
    (target_tree_ids : list N) (b : Bridge) : Bridge :=
  let s := state b in
  let is_tree := negb (is_empty target_tree_ids) in
  match virtual_user_map s !! session with
  | Some vid =>
      let room_id :=
        if is_tree then Types.room_id_from_uuid <$> (head target_tree_ids ≫= channel_uuid (channels s)) else None in
      to_rumble (Proto.PParticipantChat (Proto.mkParticipantChat vid message room_id (then_true is_tree))) b
  | None =>
      let username := match mumble_clients s !! session with
                      | Some c => mc_username c
                      | None => ("session-" ++ pretty session)%string
                      end in
      to_rumble (Proto.PChatMessage (Proto.mkChatMessage (fresh 0) now_ms (bridge_name config)
        ("[" ++ username ++ "] " ++ message)%string (then_true is_tree) None)) b
  end.

(** The channel a line comes from, and the channels it is meant for. *)
Definition chat_scope (s : BridgeState) (session : N) (target_tree_ids : list N) : N * gset N :=
  match target_tree_ids with
  | first :: _ => (first, ⋃ map (collect_subtree_channels (rumble_rooms s) (channels s)) target_tree_ids)
  | [] => let ch := default 0%N (mc_channel_id <$> mumble_clients s !! session) in (ch, {[ ch ]})
  end.

Definition on_mumble_chat (config : BridgeConfig) (fresh : nat → bytes) (now_ms : Z) (session : N) (message : string)
    (target_sessions target_tree_ids : list N) (b : Bridge) : Bridge :=
  if negb (is_empty target_sessions) then send_private fresh now_ms message target_sessions b
  else
    let b := send_room_chat config fresh now_ms session message target_tree_ids b in
    let '(origin, targets) := chat_scope (state b) session target_tree_ids in
    send_where (λ c, negb (c =? session)%N && in_channels (state b) targets c)
      (TextMessage (Some session) [origin] (Some message)) b.

Definition set_channel (channel_id : N) (c : MumbleClient) : MumbleClient :=
  mkClient (mc_session c) (mc_username c) channel_id (mc_is_muted c) (mc_is_deafened c).

Definition on_channel_change (session channel_id : N) (b : Bridge) : Bridge :=
  let b := set_state (with_clients (alter (set_channel channel_id) session) (state b)) b in
  let s := state b in
  let b := match virtual_user_map s !! session, key_of (channels s) channel_id with
           | Some vid, Some uuid => to_rumble (Proto.PMoveParticipant vid (Some (Types.room_id_from_uuid uuid))) b
           | _, _ => b
           end in
  broadcast_to_all_mumble (Sync (UserState (Some session) None None (Some channel_id) None None)) b.

(** Deaf implies mute; unmuting clears deaf. *)
Definition set_mute_deaf (is_muted is_deafened : option bool) (c : MumbleClient) : MumbleClient :=
  let m := default (mc_is_muted c) is_muted in
  let d := default (mc_is_deafened c) is_deafened in
  let m := if d then true else m in
  let d := if m then d else false in
  mkClient (mc_session c) (mc_username c) (mc_channel_id c) m d.

Definition on_mute_deaf_change (session : N) (is_muted is_deafened : option bool) (b : Bridge) : Bridge :=
  let b := set_state (with_clients (alter (set_mute_deaf is_muted is_deafened) session) (state b)) b in
  let s := state b in
  let client := mumble_clients s !! session in
  let final_muted := default false (mc_is_muted <$> client) in
  let final_deafened := default false (mc_is_deafened <$> client) in
  let b := match virtual_user_map s !! session with
           | Some vid => to_rumble (Proto.PSetParticipantStatus vid final_muted final_deafened) b
           | None => b
           end in
  broadcast_to_all_mumble
    (Sync (UserState (Some session) (Some session) None None (Some final_muted) (Some final_deafened))) b.

(** Why the loop ends. *)
Inductive BridgeExit := EventLoopEnded | ControllerRejected.

Record Env := mkEnv {
  env_fuel : nat;
  env_config : BridgeConfig;
  env_fresh : nat → bytes;
  env_now_ms : Z;
  env_decode_ping : bytes → option (option N);
}.

Definition go_on (b : Bridge) : option (option BridgeExit * Bridge) := Some (None, b).

(** One round of [run_bridge]. *)
Definition handle_event (e : Env) (ev : BridgeEvent) (b : Bridge) : option (option BridgeExit * Bridge) :=
  match ev with
  | MumbleClientJoined session username => go_on (on_client_joined session username b)
  | MumbleClientLeft session => go_on (on_client_left session b)
  | MumbleClientSender session => on_client_sender (env_fuel e) (env_config e) session b ≫= go_on
  | MumblePing session payload => go_on (on_ping (env_decode_ping e) session payload b)
  | MumbleVoice session data => go_on (on_mumble_voice session data b)
  | MumbleChat session message targets trees =>
      go_on (on_mumble_chat (env_config e) (env_fresh e) (env_now_ms e) session message targets trees b)
  | MumbleChannelChange session channel_id => go_on (on_channel_change session channel_id b)
  | MumbleMuteDeafChange session m d => go_on (on_mute_deaf_change session m d b)
  | RumbleEnvelope env =>
      '(rejected, pending, b) ← handle_rumble_envelope (env_fuel e) env b;
      if (rejected : bool) then Some (Some ControllerRejected, b)
      else go_on (fold_left (λ b p, process_pending p b) pending b)
  | RumbleVoice d => go_on (handle_rumble_voice d b)
  | RumbleReceiverDied => Some (Some EventLoopEnded, b)
  end.

(** What follows a shutdown signal. *)
Definition shut_down (b : Bridge) : Bridge :=
  emit (map (λ e : N * N, ToRumble (Proto.PUnregisterParticipant e.2)) (map_to_list (virtual_user_map (state b)))) b.

(** ** Beside the loop *)

(** The registration of the handshake: [None] when a native user holds the
    name, otherwise the new session and the one it supersedes. *)
Definition register_client (username : string) (s : BridgeState) : option (N * option N) * BridgeState :=
  if existsb (λ u, bool_decide (Types.username u = username) && negb (is_virtual (Types.user_id u) s)) (rumble_users s)
  then (None, s)
  else
    let superseded := mc_session <$> named_client s username in
    let s := match superseded with Some old => with_clients (delete old) s | None => s end in
    let '(session, s) := allocate_mumble_session s in
    (Some (session, superseded), with_clients (<[session := mkClient session username 0 false false]>) s).

(** The clean-up after a connection ends. *)
Definition unregister_client (session : N) (s : BridgeState) : BridgeState := with_clients (delete session) s.

(** A new connection to the server: everyone who is connected is registered
    again. *)
Definition on_reconnect (user_id : N) (b : Bridge) : Bridge :=
  let b := set_state (with_connection (Some user_id) true (state b)) b in
  let s := state b in
  let clients := map (λ e : N * MumbleClient, (mc_username e.2, mc_session e.2)) (map_to_list (mumble_clients s)) in
  if is_empty clients then b
  else
    let b := set_state (with_virtual [] ∅ ∅ s) b in
    fold_left (λ b e, to_rumble (Proto.PRegisterParticipant e.1 (Some "Mumble"%string) None)
      (set_state (with_virtual (pending_registrations (state b) ++ [e]) (virtual_user_map (state b))
         (reverse_virtual_user_map (state b)) (state b)) b)) clients b.

(** ** Samples *)

Definition sample_config : BridgeConfig := mkConfig "bridge" "welcome" 558000.
Definition sample_env : Env := mkEnv 8 sample_config (λ _, []) 0 (λ _, None).
Definition play (evs : list BridgeEvent) (b : Bridge) : option Bridge :=
  fold_left (λ ob ev, b ← ob; snd <$> handle_event sample_env ev b) evs (Some b).
Definition sample_start : Bridge := mkBridge BridgeState_new BridgeLoopState_new [].
Definition registered (vid : N) (name : string) : BridgeEvent := RumbleEnvelope (Proto.ParticipantRegistered vid name).

(** Ann and Bob join; Bob leaves before he is registered. *)
Definition sample_joined : Bridge := on_client_joined 1001 "bob" (on_client_joined 1000 "ann" sample_start).
Definition sample_ann : Bridge := default sample_start (play [registered 501 "ann"] sample_joined).
Definition sample_left : Bridge := on_client_left 1001 sample_ann.
Definition sample_orphan : Bridge := default sample_start (play [registered 502 "bob"] sample_left).

(** Ann is connected when the first full state arrives. *)
Definition sample_state : Proto.ServerState :=
  Proto.mkServerState (map Types.room_to_proto sample_rooms_1) (map Types.user_to_proto sample_users_1) [] [].
Definition sample_ready : Bridge :=
  mkBridge (register_client "ann" BridgeState_new).2 (mkLoop {[ 1000%N ]} ∅ ∅) [].
End Bridge.
