(* ===== verification/BridgeSync.v ===== *)
(** Mumble clients follow the server through the bridge: each message of the
    server keeps the view of a connected client in step with the cached state
    ([mumble_clients_follow]), and a client that joins later is shown the same
    ([late_joiner_in_step]). *)
From Stdlib Require Import NArith ZArith Lia String Strings.Byte.
From stdpp Require Import base gmap strings list pretty.
From S2P Require Import Prelude Proto Types Wire State World Acl Ops Voice MumbleVoice Reconcile Bridge.

Module BridgeSync.
Import Reconcile Bridge.
Open Scope list_scope.
Local Arguments Types.ROOT_ROOM_UUID : simpl never.
Local Arguments id_of : simpl never.

(** ** Updates keep the Mumble side in step *)

Section shown_updates.
Context {K : Type} `{Countable K} {A B : Type} (key : A → K).
Implicit Types (m : IdMap K) (l : list A) (g : gmap N B) (render : A → B).

Definition replaced (k : K) (f : A → A) l : list A := (λ x, if bool_decide (key x = k) then f x else x) <$> l.

Lemma elem_of_replaced k f l x :
  x ∈ replaced k f l ↔ (∃ a, a ∈ l ∧ key a = k ∧ x = f a) ∨ (x ∈ l ∧ key x ≠ k).
Proof.
  unfold replaced. rewrite list_elem_of_fmap. split.
  - intros (a & -> & Ha). cbn. case_bool_decide as E; [left; by exists a|by right].
  - intros [(a & Ha & Hk & ->)|[Hx Hk]].
    + exists a. split; [|done]. cbn. by rewrite bool_decide_eq_true_2.
    + exists x. split; [|done]. cbn. by rewrite bool_decide_eq_false_2.
Qed.

Lemma replaced_keys k f l : (∀ x, key (f x) = key x) → key <$> replaced k f l = key <$> l.
Proof.
  intros Hf. unfold replaced. rewrite <- list_fmap_compose. apply list_fmap_ext. intros i x _. cbn.
  case_bool_decide; [apply Hf|done].
Qed.

Lemma shown_set render m l g k i f a :
  idmap_ok m → NoDup (key <$> l) → (∀ x, key (f x) = key x) → a ∈ l → key a = k → id_of m k = Some i →
  shown key render m l g → shown key render m (replaced k f l) (<[i := render (f a)]> g).
Proof.
  intros Hok Hnd Hf Ha Hk Hi Hs j b. destruct (decide (j = i)) as [->|Hne].
  - rewrite lookup_insert_eq. split.
    + intros [= <-]. exists (f a). rewrite elem_of_replaced, Hf, Hk. split_and!; [left; by exists a|done|done].
    + intros (x & Hx & Hxi & ->). apply elem_of_replaced in Hx as [(a' & Ha' & Hk' & ->)|[_ Hx]].
      * by rewrite (NoDup_fmap_inj key l a a') by congruence.
      * by destruct Hx, (id_of_inj m (key x) k i).
  - rewrite lookup_insert_ne by done. rewrite (Hs j b). setoid_rewrite elem_of_replaced. split.
    + intros (x & Hx & Hxi & ->). exists x. split_and!; [|done|done]. right. split; [done|]. congruence.
    + intros (x & [(a' & Ha' & Hk' & ->)|[Hx _]] & Hxi & ->); [rewrite Hf in Hxi; congruence|by exists x].
Qed.

Lemma shown_hidden render m l g k f :
  (∀ x, key (f x) = key x) → (id_of m k = None ∨ k ∉ key <$> l) → shown key render m l g →
  shown key render m (replaced k f l) g.
Proof.
  intros Hf Hk Hs j b. rewrite (Hs j b). setoid_rewrite elem_of_replaced. split.
  - intros (x & Hx & Hxi & ->). exists x. split_and!; [|done|done]. right. split; [done|].
    intros <-. destruct Hk as [Hk|Hk]; [congruence|]. by apply Hk, list_elem_of_fmap_2.
  - intros (x & [(a' & Ha' & <- & ->)|[Hx _]] & Hxi & ->); [|by exists x]. exfalso.
    destruct Hk as [Hk|Hk]; [rewrite Hf in Hxi; congruence|]. by apply Hk, list_elem_of_fmap_2.
Qed.

Lemma shown_add render render' m m' l a i g :
  idmap_ok m' → extends m m' → (∀ k, k ≠ key a → id_of m' k = id_of m k) → id_of m' (key a) = Some i →
  key a ∉ key <$> l → (∀ x, x ∈ l → render' x = render x) →
  shown key render m l g → shown key render' m' (l ++ [a]) (<[i := render' a]> g).
Proof.
  intros Hok Hext Hsame Ha Hnot Hr Hs.
  assert (∀ d : list A, overlay key d [] = d) as Hov by (intros d; unfold overlay; cbn; by rewrite app_nil_r).
  rewrite <- (Hov (l ++ [a])). apply (shown_step key render render' m m'); try done; [|by rewrite Hov].
  intros x Hx _. apply Hr. by rewrite Hov in Hx.
Qed.

Lemma shown_drop render m l g k i :
  idmap_ok m → id_of m k = Some i → shown key render m l g →
  shown key render (remove_key k m) (retain (λ x, negb (bool_decide (key x = k))) l) (delete i g).
Proof.
  intros Hok Hi Hs. eapply shown_ext; [| | | |by apply (shown_remove key render m l g k i)]; try done.
  intros x j Hj. rewrite elem_of_retain, Bool.negb_true_iff, bool_decide_eq_false.
  split; [intros Hx; split; [done|]|by intros [? _]]. intros E.
  destruct (remove_key_spec k m Hok) as (_ & Hr & _). by rewrite E, Hr, decide_True in Hj.
Qed.
End shown_updates.

(** The cached state is a well-formed snapshot, Mumble clients see its
    projection, and only users of the roster have a proxy. *)
Record in_step (s : BridgeState) (v : View) : Prop := {
  is_snapshot : snapshot_ok (rumble_rooms s) (rumble_users s);
  is_projected : projected (rumble_rooms s) (rumble_users s) (channels s) (users s) v;
  is_roster : ∀ k, is_Some (id_of (users s) k) → k ∈ Types.user_id <$> rumble_users s;
}.

Lemma known_channel s v uuid :
  in_step s v → uuid ∈ Types.room_id <$> rumble_rooms s →
  ∃ i, id_of (channels s) uuid = Some i ∧ is_Some (v_channels v !! i) ∧
    channel_get_or_insert uuid (channels s) = (i, channels s).
Proof.
  intros [_ [Hc _ Hm Hr _] _] (r & -> & Hin)%list_elem_of_fmap_1. destruct (Hm r Hin) as [i Hi]. exists i.
  split_and!; [done| |by apply channel_get_known]. exists (channel_of (channels s) r).
  by apply (shown_lookup Types.room_id (channel_of (channels s)) (channels s) (rumble_rooms s)).
Qed.

(** Changing one user of the roster, and telling Mumble clients about it if it
    has a proxy. *)
Lemma roster_changed s v (rumble_id : N) f m :
  in_step s v →
  (∀ u, Types.user_id (f u) = Types.user_id u) →
  (∀ u, u ∈ rumble_users s → Types.current_room (f u) ∈ Types.room_id <$> rumble_rooms s) →
  (∀ u i, u ∈ rumble_users s → Types.user_id u = rumble_id → id_of (users s) rumble_id = Some i →
     v_users v !! i = Some (user_of (channels s) u) →
     show (m i) v = Some (mkView (v_channels v) (<[i := user_of (channels s) (f u)]> (v_users v)))) →
  let s' := with_roster (rumble_rooms s) (update_first (has_user_id rumble_id) f (rumble_users s)).1 s in
  ∃ v', show_all (match id_of (users s) rumble_id with Some i => [m i] | None => [] end) v = Some v' ∧ in_step s' v'.
Proof.
  intros [Hsn Hpr Hro] Hf Hroom Hshow s'.
  assert ((update_first (has_user_id rumble_id) f (rumble_users s)).1 = replaced Types.user_id rumble_id f (rumble_users s))
    as E by (apply (update_first_map Types.user_id); apply Hsn).
  subst s'. rewrite E. destruct Hpr as [Hc Hu Hm Hr Hus].
  assert (snapshot_ok (rumble_rooms s) (replaced Types.user_id rumble_id f (rumble_users s))) as Hsn'.
  { destruct Hsn as [S1 S2 S3 S4 S5]. split; try done; [by rewrite replaced_keys|].
    intros u [(a & Ha & _ & ->)|[Hin _]]%elem_of_replaced; auto. }
  destruct (id_of (users s) rumble_id) as [i|] eqn:Ei.
  - destruct (list_elem_of_fmap_1 _ _ _ (Hro rumble_id ltac:(by exists i))) as (u & Eu & Hin).
    cbn [show_all]. rewrite (Hshow u i Hin (eq_sym Eu) eq_refl); [|eapply shown_lookup; [done|done|by rewrite <- Eu]].
    eexists. split; [done|]. split; cbn; [done| |by rewrite replaced_keys].
    split; try done. cbn. apply (shown_set Types.user_id); try done. apply Hsn.
  - exists v. split; [done|]. split; cbn; [done| |by rewrite replaced_keys].
    split; try done. cbn. apply shown_hidden; auto.
Qed.

(** What the server sends is about rooms and users that are there. *)
Definition update_ok (su : Proto.Update) (s : BridgeState) : Prop :=
  match su with
  | Proto.UserJoined (Some pu) =>
      ∃ u, pu = Types.user_to_proto u ∧ Types.user_id u ∉ Types.user_id <$> rumble_users s ∧
        Types.current_room u ∈ Types.room_id <$> rumble_rooms s ∧ (next_id (users s) + 1 < 2 ^ 32)%N
  | Proto.UserMoved _ to =>
      ∃ room, to = Some (Types.room_id_from_uuid room) ∧ room ∈ Types.room_id <$> rumble_rooms s
  | Proto.RoomCreated (Some pr) =>
      ∃ r, pr = Types.room_to_proto r ∧ Types.room_id r ∉ Types.room_id <$> rumble_rooms s ∧
        Types.room_parent r ∈ Types.room_id <$> rumble_rooms s ∧ (next_id (channels s) + 1 < 2 ^ 32)%N
  | Proto.RoomDeleted room_id _ =>
      ∃ uuid, room_id = Some (Types.room_id_from_uuid uuid) ∧ uuid ≠ Types.ROOT_ROOM_UUID ∧
        (∀ r, r ∈ rumble_rooms s → Types.room_id r ≠ Types.ROOT_ROOM_UUID → Types.room_parent r ≠ uuid) ∧
        (∀ u, u ∈ rumble_users s → Types.current_room u ≠ uuid)
  | Proto.RoomRenamed _ _ | Proto.RoomMoved _ _ => False
  | Proto.RoomDescriptionChanged room_id d =>
      ∃ uuid, room_id = Some (Types.room_id_from_uuid uuid) ∧ uuid ∈ Types.room_id <$> rumble_rooms s ∧ d ≠ EmptyString
  | _ => True
  end.

Lemma user_left_shown s v user_id :
  in_step s v →
  let '(s', ms) := on_user_left user_id s in ∃ v', show_all ms v = Some v' ∧ in_step s' v'.
Proof.
  intros Hs. unfold on_user_left. destruct (is_virtual _ s); [by exists v|]. set (k := uid_of user_id).
  destruct Hs as [[S1 S2 S3 S4 S5] [Hc Hu Hm Hr Hus] Hro].
  assert (snapshot_ok (rumble_rooms s) (retain (λ u, negb (has_user_id k u)) (rumble_users s))) as Hsn.
  { split; try done; [by apply NoDup_fmap_retain|]. intros u [Hin _]%elem_of_retain. by apply S5. }
  destruct (remove_key_spec k (users s) Hu) as (R1 & R2 & R3).
  assert (∀ j, is_Some (id_of (remove_key k (users s)) j) →
    j ∈ Types.user_id <$> retain (λ u, negb (has_user_id k u)) (rumble_users s)) as Hro'.
  { intros j Hj. rewrite R2 in Hj. case_decide as E; [by destruct Hj|].
    destruct (list_elem_of_fmap_1 _ _ _ (Hro j Hj)) as (u & -> & Hin). apply list_elem_of_fmap_2, elem_of_retain.
    split; [done|]. by apply Bool.negb_true_iff, bool_decide_eq_false. }
  destruct (id_of (users s) k) as [i|] eqn:Ei.
  - eexists. split; [done|]. split; cbn; [done| |done]. split; try done. cbn. by apply shown_drop.
  - exists v. split; [done|]. split; cbn; [done| |done]. split; try done. cbn.
    eapply shown_ext; [| | | |exact Hus]; try done.
    + intros u j Hj. rewrite elem_of_retain. split; [|by intros [? _]]. intros Hin. split; [done|].
      apply Bool.negb_true_iff, bool_decide_eq_false. intros E. rewrite E in Hj. congruence.
    + intros u Hin. rewrite R2. case_decide as E; [by rewrite E|done].
    + intros u Hin. rewrite R2. case_decide as E; [by rewrite E|done].
Qed.

Lemma user_joined_shown s v u :
  in_step s v → Types.user_id u ∉ Types.user_id <$> rumble_users s →
  Types.current_room u ∈ Types.room_id <$> rumble_rooms s → (next_id (users s) + 1 < 2 ^ 32)%N →
  let '(s', ms) := on_user_joined (Types.user_to_proto u) s in ∃ v', show_all ms v = Some v' ∧ in_step s' v'.
Proof.
  intros Hs Hnew Hroom Hn. unfold on_user_joined. case_bool_decide; [by exists v|].
  destruct (is_virtual _ s); [by exists v|]. destruct (is_pending _ s); [by exists v|].
  destruct (known_channel s v _ Hs Hroom) as (c & Hc & [ch Hch] & Eg).
  rewrite Types.user_from_to_proto. cbn [Types.user_to_proto Proto.pu_current_room Proto.pu_user_id uid_of Proto.uid_value
    fmap option_fmap option_map default mbind option_bind]. rewrite Types.uuid_from_room_id_from_uuid, Eg.
  destruct Hs as [[S1 S2 S3 S4 S5] [Hck Hu Hm Hr Hus] Hro].
  pose proof (get_or_assign_spec (Types.user_id u) (users s) Hu Hn) as Hg. unfold id in *.
  destruct (get_or_assign (Types.user_id u) (users s)) as [i m']. destruct Hg as (G1 & G2 & G3 & G4 & G5 & G6).
  assert (id_of (users s) (Types.user_id u) = None) as Hnone.
  { destruct (id_of (users s) (Types.user_id u)) eqn:E; [|done]. destruct Hnew. apply Hro. by rewrite E. }
  assert (extends (users s) m') as Hext by (intros k j Hk; rewrite G3; [done|congruence]).
  eexists. split.
  { cbn [show_all show or_old default]. unfold id. rewrite Hch. done. }
  split; cbn.
  - split; try done; cbn.
    + rewrite fmap_app. apply NoDup_app. split_and!; [done| |apply NoDup_singleton].
      by intros k Hk ->%list_elem_of_singleton.
    + intros x [Hx| ->%list_elem_of_singleton]%elem_of_app; [by apply S5|done].
  - split; try done. cbn.
    assert (mkMumbleUser (Types.username u) c (Types.is_muted u) (Types.is_deafened u) = user_of (channels s) u) as ->
      by (unfold user_of; by rewrite Hc).
    by eapply (shown_add Types.user_id (user_of (channels s))).
  - intros k Hk. rewrite fmap_app, elem_of_app. destruct (decide (k = Types.user_id u)) as [->|Hne']; [by right; left|].
    left. apply Hro. by rewrite <- G3.
Qed.

Lemma user_moved_shown s v user_id room :
  in_step s v → room ∈ Types.room_id <$> rumble_rooms s →
  let '(s', ms) := on_user_moved user_id (Some (Types.room_id_from_uuid room)) s in
  ∃ v', show_all ms v = Some v' ∧ in_step s' v'.
Proof.
  intros Hs Hroom. unfold on_user_moved. destruct (is_virtual _ s); [by exists v|]. cbn [mbind option_bind].
  rewrite Types.uuid_from_room_id_from_uuid. destruct (known_channel s v _ Hs Hroom) as (c & Hc & [ch Hch] & ->).
  assert (with_maps (channels s) (users s) s = s) as -> by (by destruct s). cbn [default].
  eapply (roster_changed s v (uid_of user_id) (with_current_room room) (λ session, UserState (Some session) None None (Some c) None None));
    [done|done|done|].
  intros u i Hu <- Hi Hv. cbn [show]. rewrite Hv. cbn [or_old fmap option_fmap option_map default mu_channel mu_name]. unfold id.
  rewrite Hch. by unfold user_of; cbn; rewrite Hc.
Qed.

Lemma user_status_shown s v user_id m d :
  in_step s v →
  let '(s', ms) := on_user_status_changed user_id m d s in ∃ v', show_all ms v = Some v' ∧ in_step s' v'.
Proof.
  intros Hs. unfold on_user_status_changed. destruct (is_virtual _ s); [by exists v|].
  eapply (roster_changed s v (uid_of user_id) (with_mute m d) (λ session, UserState (Some session) None None None (Some m) (Some d)));
    [done|done| |].
  - intros u Hu. exact (so_placed _ _ (is_snapshot _ _ Hs) u Hu).
  - intros u i Hu <- Hi Hv. cbn [show]. rewrite Hv. cbn [or_old fmap option_fmap option_map default mu_channel mu_name]. unfold id.
    destruct (known_channel s v _ Hs (so_placed _ _ (is_snapshot _ _ Hs) u Hu)) as (c & Hc & [ch Hch] & _).
    unfold user_of. cbn. rewrite Hc. cbn. by rewrite Hch.
Qed.

(** A new description changes no id and no parent. *)
Lemma described_snapshot rooms us uuid d :
  snapshot_ok rooms us → snapshot_ok (replaced Types.room_id uuid (with_description d) rooms) us.
Proof.
  intros [S1 S2 S3 S4 S5]. set (rooms' := replaced _ _ _ _).
  assert (Types.room_id <$> rooms' = Types.room_id <$> rooms) as Eids by (by apply replaced_keys).
  assert (∀ k p, Acl.ancestors rooms k p → Acl.ancestors rooms' k p) as Hanc.
  { induction 1 as [|k x p Hk Hx Hp IH]; [apply Acl.anc_root|].
    apply find_Some_iff in Hx as [Hx Hid]. apply bool_decide_eq_true in Hid.
    set (y := if bool_decide (Types.room_id x = uuid) then with_description d x else x).
    assert (Types.room_id y = k ∧ Types.room_parent y = Types.room_parent x) as [Ey Ep] by (unfold y; by case_bool_decide).
    eapply (Acl.anc_up _ _ y); [done| |by rewrite Ep].
    rewrite <- Ey. apply (find_key Types.room_id); [by rewrite Eids|].
    apply elem_of_replaced. unfold y. case_bool_decide; [left; by exists x|by right]. }
  split; [by rewrite Eids| | |done|by rewrite Eids].
  - rewrite Eids. destruct S2 as [->|?]; [by left|by right].
  - intros r [(a & Ha & _ & ->)|[Hin _]]%elem_of_replaced; [destruct (S3 a Ha) as [p Hp]|destruct (S3 r Hin) as [p Hp]];
      exists p; by apply Hanc.
Qed.

Lemma room_described_shown s v uuid d :
  in_step s v → uuid ∈ Types.room_id <$> rumble_rooms s → d ≠ EmptyString →
  let '(s', ms) := on_room_description_changed (Some (Types.room_id_from_uuid uuid)) d s in
  ∃ v', show_all ms v = Some v' ∧ in_step s' v'.
Proof.
  intros Hs Hin Hd. unfold on_room_description_changed. cbn [mbind option_bind]. rewrite Types.uuid_from_room_id_from_uuid.
  assert (str_is_empty d = false) as -> by (by apply String.eqb_neq).
  destruct (known_channel s v _ Hs Hin) as (i & Ei & _ & _). rewrite Ei.
  apply list_elem_of_fmap_1 in Hin as (r & -> & Hin).
  destruct Hs as [Hsn [Hck Hu Hm Hr Hus] Hro].
  assert ((update_first (St.has_room_id (Types.room_id r)) (with_description (Some d)) (rumble_rooms s)).1
    = replaced Types.room_id (Types.room_id r) (with_description (Some d)) (rumble_rooms s)) as ->
    by (apply (update_first_map Types.room_id); apply Hsn).
  pose proof (shown_lookup _ _ _ _ _ _ _ Hr Hin Ei) as Hv. eexists. split.
  { cbn [show_all show]. rewrite Hv.
    cbn [or_old fmap option_fmap option_map mbind option_bind channel_of ch_name ch_parent ch_description]. done. }
  split; cbn; [by apply described_snapshot| |done].
  split; try done; cbn.
  - intros x [(a & Ha & _ & ->)|[Hx _]]%elem_of_replaced; [exact (Hm a Ha)|by apply Hm].
  - assert (mkChannel (if bool_decide (Types.room_id r = Types.ROOT_ROOM_UUID) then None else id_of (channels s) (Types.room_parent r))
      (Types.room_name r) (Some d) = channel_of (channels s) (with_description (Some d) r)) as -> by done.
    apply shown_set; try done; [apply Hck|apply Hsn].
Qed.

Lemma created_snapshot rooms us r :
  snapshot_ok rooms us → Types.room_id r ∉ Types.room_id <$> rooms → Types.room_parent r ∈ Types.room_id <$> rooms →
  Types.ROOT_ROOM_UUID ∈ Types.room_id <$> rooms → snapshot_ok (rooms ++ [r]) us.
Proof.
  intros [S1 _ S3 S4 S5] Hnew Hpar Hroot. split; [| | |done|].
  - rewrite fmap_app. apply NoDup_app. split_and!; [done| |apply NoDup_singleton].
    by intros k Hk ->%list_elem_of_singleton.
  - right. rewrite fmap_app. apply elem_of_app. by left.
  - intros x [Hx| ->%list_elem_of_singleton]%elem_of_app.
    + destruct (S3 x Hx) as [q Hq]. exists q. by apply Ops.ancestors_app.
    + apply list_elem_of_fmap_1 in Hpar as (y & Ey & Hy). destruct (S3 y Hy) as [q Hq]. exists (Types.room_id r :: q).
      apply (Acl.anc_up _ _ r); [congruence| |rewrite Ey; by apply Ops.ancestors_app].
      apply Ops.find_app_new; [|by apply bool_decide_eq_true]. apply find_None_iff. intros x Hx.
      apply bool_decide_eq_false. intros E. apply Hnew. rewrite <- E. by apply list_elem_of_fmap_2.
  - intros u Hu'. rewrite fmap_app. apply elem_of_app. left. by apply S5.
Qed.

Lemma room_created_shown s v r :
  in_step s v → Types.room_id r ∉ Types.room_id <$> rumble_rooms s →
  Types.room_parent r ∈ Types.room_id <$> rumble_rooms s → (next_id (channels s) + 1 < 2 ^ 32)%N →
  let '(s', ms) := on_room_created (Types.room_to_proto r) s in ∃ v', show_all ms v = Some v' ∧ in_step s' v'.
Proof.
  intros Hs Hnew Hpar Hn. unfold on_room_created. rewrite Types.room_from_to_proto, Types.room_to_proto_id.
  cbn [mbind option_bind]. rewrite Types.uuid_from_room_id_from_uuid.
  destruct (known_channel s v _ Hs Hpar) as (p & Hp & [pch Hpch] & _).
  assert (Types.ROOT_ROOM_UUID ∈ Types.room_id <$> rumble_rooms s) as Hroot.
  { destruct (so_root _ _ (is_snapshot _ _ Hs)) as [E|?]; [|done]. rewrite E in Hpar. by apply elem_of_nil in Hpar. }
  destruct (known_channel s v _ Hs Hroot) as (c0 & Hc0 & _ & _).
  destruct Hs as [Hsn [Hck Hu Hm Hr Hus] Hro].
  assert (c0 = 0%N) as -> by (assert (id_of (channels s) Types.ROOT_ROOM_UUID = Some 0%N) as E0; [apply (ch_zero _ Hck); split; [done|by exists c0]|congruence]).
  assert (Types.room_id r ≠ Types.ROOT_ROOM_UUID) as Hnr by congruence.
  pose proof (channel_get_spec (Types.room_id r) (channels s) Hck Hn) as Hg.
  destruct (channel_get_or_insert (Types.room_id r) (channels s)) as [i cm]. destruct Hg as (G1 & G2 & G3 & G4 & G5).
  assert (extends (channels s) cm) as Hext.
  { intros k j Hk. destruct (decide (k = Types.room_id r)) as [->|Hk']; [|by rewrite G3]. rewrite G5 by eauto. done. }
  assert ((match Proto.ri_parent_id (Types.room_to_proto r) ≫= Types.uuid_from_room_id with
           | Some p => channel_get_or_insert p cm | None => (0%N, cm) end) = (p, cm)) as Ep.
  { cbn [Types.room_to_proto Proto.ri_parent_id]. case_bool_decide as E; cbn [negb mbind option_bind].
    - rewrite E in Hp. congruence.
    - rewrite Types.uuid_from_room_id_from_uuid. apply channel_get_known; [done|by apply Hext]. }
  cbn [mbind option_bind] in Ep. rewrite Ep.
  assert (∀ x, x ∈ rumble_rooms s → channel_of cm x = channel_of (channels s) x) as Hsame.
  { intros x Hx. unfold channel_of. f_equal. case_bool_decide as E; [done|].
    destruct (parent_known _ _ x Hsn Hx E) as (Hxp & _).
    apply list_elem_of_fmap_1 in Hxp as (y & -> & Hy). destruct (Hm y Hy) as [j Hj]. by rewrite Hj, (Hext _ _ Hj). }
  assert (v_channels v !! i = None) as Hnone.
  { destruct (v_channels v !! i) as [o|] eqn:Eo; [|done]. apply Hr in Eo as (x & Hx & Hxi & _). destruct Hnew.
    rewrite <- (channels_inj cm (Types.room_id x) (Types.room_id r) i); [by apply list_elem_of_fmap_2|done|by apply Hext|done]. }
  eexists. split.
  { cbn [show_all show or_old]. rewrite Hpch, Hnone. cbn [or_old fmap option_fmap option_map mbind option_bind]. done. }
  split; cbn.
  - by apply created_snapshot.
  - split; cbn; [done|done| | |].
    + intros x [Hx| ->%list_elem_of_singleton]%elem_of_app; [|by exists i]. destruct (Hm x Hx) as [j Hj]. exists j. by apply Hext.
    + assert (mkChannel (Some p) (Types.room_name r) (or_old (Types.room_description r) None) = channel_of cm r) as ->.
      { unfold channel_of. rewrite bool_decide_eq_false_2, (Hext _ _ Hp) by done. by destruct (Types.room_description r). }
      eapply (shown_add Types.room_id (channel_of (channels s))); [apply G1|exact Hext|exact G3|exact G2|exact Hnew|exact Hsame|exact Hr].
    + by eapply users_follow.
  - done.
Qed.

(** A leaf leaves a tree behind. *)
Lemma deleted_snapshot rooms us uuid :
  snapshot_ok rooms us → uuid ≠ Types.ROOT_ROOM_UUID →
  (∀ r, r ∈ rooms → Types.room_id r ≠ Types.ROOT_ROOM_UUID → Types.room_parent r ≠ uuid) →
  (∀ u, u ∈ us → Types.current_room u ≠ uuid) →
  snapshot_ok (retain (λ r, negb (bool_decide (Types.room_id r = uuid))) rooms) us.
Proof.
  intros [S1 S2 S3 S4 S5] Hroot Hkids Husers. set (rooms' := retain _ rooms).
  assert (∀ k, k ∈ Types.room_id <$> rooms' ↔ k ∈ Types.room_id <$> rooms ∧ k ≠ uuid) as Hids.
  { intros k. rewrite !list_elem_of_fmap. unfold rooms'. setoid_rewrite elem_of_retain. setoid_rewrite Bool.negb_true_iff.
    setoid_rewrite bool_decide_eq_false. split; [intros (r & -> & ? & ?); eauto|intros [(r & -> & ?) ?]; eauto]. }
  assert (NoDup (Types.room_id <$> rooms')) as S1' by by apply NoDup_fmap_retain.
  split; [done| | |done|].
  - destruct S2 as [E|E]; [left; unfold rooms'; by rewrite E|right; by apply Hids].
  - assert (∀ k p, Acl.ancestors rooms k p → k ≠ uuid → Acl.ancestors rooms' k p) as Hanc.
    { induction 1 as [|k x p Hk Hx Hp IH]; intros Hku; [apply Acl.anc_root|].
      apply find_Some_iff in Hx as [Hx Hid]. apply bool_decide_eq_true in Hid. subst k.
      eapply (Acl.anc_up _ _ x); [done| |apply IH; by apply Hkids].
      apply (find_key Types.room_id); [done|]. apply elem_of_retain. split; [done|].
      by apply Bool.negb_true_iff, bool_decide_eq_false. }
    intros r [Hr Hru]%elem_of_retain. apply Bool.negb_true_iff, bool_decide_eq_false in Hru.
    destruct (S3 r Hr) as [p Hp]. exists p. by apply Hanc.
  - intros u Hu. apply Hids. split; [by apply S5|by apply Husers].
Qed.

Lemma room_deleted_shown s v uuid :
  in_step s v → uuid ≠ Types.ROOT_ROOM_UUID →
  (∀ r, r ∈ rumble_rooms s → Types.room_id r ≠ Types.ROOT_ROOM_UUID → Types.room_parent r ≠ uuid) →
  (∀ u, u ∈ rumble_users s → Types.current_room u ≠ uuid) →
  let '(s', ms) := on_room_deleted (Some (Types.room_id_from_uuid uuid)) s in ∃ v', show_all ms v = Some v' ∧ in_step s' v'.
Proof.
  intros Hs Hroot Hkids Husers. unfold on_room_deleted. cbn [mbind option_bind]. rewrite Types.uuid_from_room_id_from_uuid.
  destruct Hs as [Hsn [Hck Hu Hm Hr Hus] Hro].
  pose proof (deleted_snapshot _ _ uuid Hsn Hroot Hkids Husers) as Hsn'.
  set (rooms' := retain _ (rumble_rooms s)) in *. set (cm := remove_key uuid (channels s)).
  destruct (remove_key_spec uuid (channels s) (ch_ok _ Hck)) as (R1 & R2 & R3).
  assert (∀ k, k ≠ uuid → id_of cm k = id_of (channels s) k) as Hsame by (intros k Hk; unfold cm; by rewrite R2, decide_False).
  assert (∀ x, x ∈ rumble_rooms s → channel_of cm x = channel_of (channels s) x) as Hch.
  { intros x Hx. unfold channel_of. f_equal. case_bool_decide as E; [done|]. apply Hsame. by apply Hkids. }
  assert (∀ x, x ∈ rooms' → x ∈ rumble_rooms s ∧ Types.room_id x ≠ uuid) as Hrooms'.
  { intros x [Hx Hk]%elem_of_retain. by apply Bool.negb_true_iff, bool_decide_eq_false in Hk. }
  assert (∀ g, shown Types.room_id (channel_of (channels s)) cm rooms' g → shown Types.room_id (channel_of cm) cm rooms' g) as Hre.
  { intros g. apply shown_ext; try done. intros x j Hx _. symmetry. apply Hch. by apply Hrooms'. }
  assert (shown Types.user_id (user_of cm) (users s) (rumble_users s) (v_users v)) as Hus'.
  { revert Hus. apply shown_ext; try done. intros u j Hin _. unfold user_of. rewrite Hsame; [done|]. by apply Husers. }
  assert (∀ g, v_users g = v_users v → shown Types.room_id (channel_of cm) cm rooms' (v_channels g) →
    in_step (with_roster rooms' (rumble_users s) (with_maps cm (users s) s)) g) as Hdone.
  { intros g Eg Hg. split; cbn; [done| |done]. split; cbn; [by apply remove_channel_ok|done| |done|by rewrite Eg].
    intros x [Hx Hk]%Hrooms'. rewrite Hsame by done. by apply Hm. }
  destruct (id_of (channels s) uuid) as [i|] eqn:Ei.
  - pose proof (shown_drop Types.room_id _ _ _ _ uuid i (ch_ok _ Hck) Ei Hr) as Hd.
    exists (mkView (delete i (v_channels v)) (v_users v)). split; [|apply Hdone; [done|by apply Hre]].
    cbn [show_all show]. rewrite !bool_decide_eq_true_2; [done| |].
    + intros j b Hb E. apply Hus in Hb as (u & Hin & _ & ->). unfold user_of in E. cbn in E.
      destruct (list_elem_of_fmap_1 _ _ _ (so_placed _ _ Hsn u Hin)) as (r & Er & Hr'). rewrite Er in E.
      destruct (Hm r Hr') as [c Hc]. rewrite Hc in E. cbn in E. subst c.
      apply (Husers u Hin). rewrite Er. by apply (channels_inj (channels s) _ _ i).
    + intros j b Hb E. apply Hr in Hb as (x & Hin & _ & ->). unfold channel_of in E. cbn in E.
      case_bool_decide as Ex; [done|]. apply (Hkids x Hin Ex). by apply (channels_inj (channels s) _ _ i).
  - exists v. split; [done|]. apply Hdone; [done|]. apply Hre. eapply shown_ext; [| | | |exact Hr]; try done.
    + intros x j Hj. unfold rooms'. rewrite elem_of_retain. split; [|by intros [? _]]. intros Hin. split; [done|].
      apply Bool.negb_true_iff, bool_decide_eq_false. intros E. rewrite E in Hj. congruence.
    + intros x Hin. symmetry. apply Hsame. intros E. destruct (Hm x Hin) as [j Hj]. rewrite E in Hj. congruence.
    + intros x [Hin Hk]%Hrooms'. symmetry. by apply Hsame.
Qed.

Lemma update_shown su s v :
  in_step s v → update_ok su s →
  let '(s', ms) := update_state su s in ∃ v', show_all ms v = Some v' ∧ in_step s' v'.
Proof.
  intros Hs. destruct su as [uid to|[pu|]|uid|[pr|]|rid fb|rid n|rid p|rid d|uid m d sm el|rid ih en|g d|k g a x];
    cbn [update_ok update_state]; try (by exists v); try done.
  - intros (room & -> & Hroom). by apply user_moved_shown.
  - intros (u & -> & ? & ? & ?). by apply user_joined_shown.
  - intros _. by apply user_left_shown.
  - intros (r & -> & ? & ? & ?). by apply room_created_shown.
  - intros (uuid & -> & ? & ? & ?). by apply room_deleted_shown.
  - intros (uuid & -> & ? & ?). by apply room_described_shown.
  - intros _. by apply user_status_shown.
Qed.

(** What one Mumble client is told. *)
Definition told (c : N) (es : list Effect) : list SyncMessage :=
  omap (λ e, match e with ToMumble c' (Sync m) => if (c' =? c)%N then Some m else None | _ => None end) es.

Lemma told_app c es es' : told c (es ++ es') = told c es ++ told c es'.
Proof. apply omap_app. Qed.

Lemma told_send c p m b :
  c ∈ client_senders (loop b) → p c = true →
  told c (map (λ s, ToMumble s (Sync m)) (retain p (elements (client_senders (loop b))))) = [m].
Proof.
  intros Hc Hp. pose proof (NoDup_elements (client_senders (loop b))) as Hnd. apply elem_of_elements in Hc. revert Hnd Hc.
  generalize (elements (client_senders (loop b))). intros l Hnd Hc.
  assert (∀ k, c ∉ k → told c (map (λ s, ToMumble s (Sync m)) (retain p k)) = []) as Hnone.
  { induction k as [|x k IH]; [done|]. rewrite not_elem_of_cons. intros [Hx Hk]. cbn. destruct (p x); cbn; [|by apply IH].
    rewrite (proj2 (N.eqb_neq x c)) by congruence. by apply IH. }
  induction l as [|x l IH]; [by apply elem_of_nil in Hc|]. apply NoDup_cons in Hnd as [Hx Hnd]. cbn.
  destruct (decide (x = c)) as [->|Hne].
  - rewrite Hp. cbn. rewrite N.eqb_refl. f_equal. by apply Hnone.
  - apply elem_of_cons in Hc as [->|Hc]; [done|]. destruct (p x); cbn; [|by apply IH].
    rewrite (proj2 (N.eqb_neq x c)) by congruence. by apply IH.
Qed.

Lemma broadcast_all_told c ms b :
  c ∈ client_senders (loop b) →
  ∃ es, broadcast_all ms b = emit es b ∧ told c es = ms.
Proof.
  unfold broadcast_all. revert b. induction ms as [|m ms IH]; intros b Hc; cbn [fold_left].
  - exists []. split; [|done]. unfold emit. rewrite app_nil_r. by destruct b.
  - destruct (IH (broadcast_to_all_mumble (Sync m) b) Hc) as (es & -> & Et). unfold broadcast_to_all_mumble, send_where, emit.
    eexists. split; [cbn; by rewrite <- app_assoc|]. rewrite told_app, told_send by done. by rewrite Et.
Qed.

Lemma told_none c p es m b :
  (∀ x, m ≠ Sync x) → es = map (λ s, ToMumble s m) (retain p (elements (client_senders (loop b)))) → told c es = [].
Proof.
  intros Hm ->. generalize (retain p (elements (client_senders (loop b)))). intros l. induction l as [|x l IH]; [done|].
  cbn. destruct m; try done. by destruct (Hm m).
Qed.

(** A well-formed message of the server. *)
Definition envelope_ok (fuel : nat) (env : Proto.ServerPayload) (s : BridgeState) : Prop :=
  match env with
  | Proto.EvStateUpdate _ su => update_ok su s
  | Proto.EvServerState ss =>
      ∃ rooms us, Proto.ss_rooms ss = map Types.room_to_proto rooms ∧ Proto.ss_users ss = map Types.user_to_proto us ∧
        snapshot_ok rooms us ∧ rooms ≠ [] ∧ descriptions_kept (rumble_rooms s) rooms ∧
        (next_id (channels s) + N.of_nat (List.length rooms) + 1 < 2 ^ 32)%N ∧
        (next_id (users s) + N.of_nat (List.length us) < 2 ^ 32)%N ∧ (List.length rooms ≤ fuel)%nat
  | Proto.CommandResult command success _ => success = true ∨ command ≠ "ControllerHello"%string
  | _ => True
  end.

Lemma in_step_ext s s' v :
  rumble_rooms s' = rumble_rooms s → rumble_users s' = rumble_users s → channels s' = channels s → users s' = users s →
  in_step s v → in_step s' v.
Proof. intros E1 E2 E3 E4 [S1 S2 S3]. split; rewrite ?E1, ?E2, ?E3, ?E4; done. Qed.

Lemma server_state_shown fuel ss b v c :
  in_step (state b) v → envelope_ok fuel (Proto.EvServerState ss) (state b) → c ∈ client_senders (loop b) →
  ∃ b' es v', handle_server_state fuel ss b = Some b' ∧ log b' = log b ++ es ∧
    show_all (told c es) v = Some v' ∧ in_step (state b') v'.
Proof.
  intros [Hsn Hpr Hro] (rooms & us & Er & Eu & Hnew & Hne & Hkept & Hn1 & Hn2 & Hf) Hc. unfold handle_server_state.
  assert (omap Types.room_from_proto (Proto.ss_rooms ss) = rooms) as ->.
  { rewrite Er. apply omap_inverse, Types.room_from_to_proto. }
  assert (omap Types.user_from_proto (Proto.ss_users ss) = us) as ->.
  { rewrite Eu. apply omap_inverse, Types.user_from_to_proto. }
  destruct (reconcile_runs fuel (rumble_rooms (state b)) (rumble_users (state b)) rooms us (channels (state b))
    (users (state b)) (skip_rules (state b)) v) as (out & chs & sessions & v' & -> & R); try done.
  cbn [mbind option_bind]. set (b1 := set_loop _ _).
  destruct (broadcast_all_told c (messages out) b1) as (es & -> & Et); [done|].
  exists (emit es b1), es, v'. split_and!; [done|done|rewrite Et; apply R|].
  split; cbn; [done|apply R|]. intros k Hk. apply (rc_sessions _ _ _ _ _ _ _ _ _ _ R) in Hk as (u & Hu & _ & <-).
  by apply list_elem_of_fmap_2.
Qed.

Lemma pending_told c pending b :
  ∃ es, fold_left (λ b p, process_pending p b) pending b = emit es b ∧ told c es = [].
Proof.
  revert b. induction pending as [|p pending IH]; intros b; cbn [fold_left].
  - exists []. split; [|done]. unfold emit. rewrite app_nil_r. by destruct b.
  - assert (∃ es, process_pending p b = emit es b ∧ told c es = []) as (es1 & -> & E1).
    { destruct p as [vid session|vid]; cbn [process_pending].
      - destruct (_ || _); [|by eexists]. unfold to_rumble, emit. cbn. rewrite <- app_assoc. eexists. by split.
      - by eexists. }
    destruct (IH (emit es1 b)) as (es2 & -> & E2). exists (es1 ++ es2). unfold emit. cbn. rewrite app_assoc, told_app, E1, E2.
    done.
Qed.

(** C16: Mumble clients follow the server.  Whatever well-formed message the server
    sends (a full state, or an update other than a rename or a move of a room
    and the clearing of a description), the loop goes on, and a client that is
    connected and applies what it is sent shows the rooms and users the bridge
    has cached afterwards, as it did before. *)
Theorem mumble_clients_follow e env b v c :
  in_step (state b) v → envelope_ok (env_fuel e) env (state b) → c ∈ client_senders (loop b) →
  ∃ b' es v', handle_event e (RumbleEnvelope env) b = Some (None, b') ∧ log b' = log b ++ es ∧
    show_all (told c es) v = Some v' ∧ in_step (state b') v'.
Proof.
  intros Hs Henv Hc. cbn [handle_event].
  enough (∃ pending b' es v', handle_rumble_envelope (env_fuel e) env b = Some (false, pending, b') ∧ log b' = log b ++ es ∧
    show_all (told c es) v = Some v' ∧ in_step (state b') v') as (pending & b' & es & v' & -> & El & Hv & Hs').
  { cbn [mbind option_bind]. destruct (pending_told c pending b') as (es' & -> & Et). unfold go_on.
    exists (emit es' b'), (es ++ es'), v'. rewrite told_app, Et, app_nil_r.
    split_and!; [done|cbn; by rewrite El, app_assoc|done|done]. }
  assert (∀ b' es pending, handle_rumble_envelope (env_fuel e) env b = Some (false, pending, b') →
    log b' = log b ++ es → told c es = [] → in_step (state b') v →
    ∃ pending b' es v', handle_rumble_envelope (env_fuel e) env b = Some (false, pending, b') ∧ log b' = log b ++ es ∧
    show_all (told c es) v = Some v' ∧ in_step (state b') v') as Hquiet.
  { intros b' es pending E El Et Hs'. exists pending, b', es, v. by rewrite Et. }
  destruct env as [| |command success msg| | |vid name| |ss|hash su|cb|dm|text]; cbn [handle_rumble_envelope] in *;
    try (by eapply (Hquiet b []); [done|by rewrite app_nil_r|done|done]).
  - apply (Hquiet b [] []); [|by rewrite app_nil_r|done|done]. cbn in Henv.
    destruct Henv as [->|Hne]; [done|]. by rewrite bool_decide_eq_false_2, andb_false_r.
  - unfold handle_participant_registered in *. destruct (take_pending _ _) as [[session rest]|].
    + eapply (Hquiet _ []); [done|by rewrite app_nil_r|done|]. by eapply in_step_ext; [..|exact Hs].
    + by eapply (Hquiet b []); [done|by rewrite app_nil_r|done|done].
  - destruct (server_state_shown (env_fuel e) ss b v c Hs Henv Hc) as (b' & es & v' & -> & El & Hv & Hs'). by exists [], b', es, v'.
  - pose proof (update_shown su (state b) v Hs Henv) as Hu. unfold handle_state_update.
    destruct (update_state su (state b)) as [s' ms]. destruct Hu as (v' & Hv & Hs').
    set (b1 := match su with Proto.UserLeft _ => _ | _ => _ end).
    assert (log b1 = log b ∧ state b1 = s' ∧ client_senders (loop b1) = client_senders (loop b)) as (El & Es & Ec).
    { unfold b1. destruct su; try done. by destruct (is_virtual _ _). }
    destruct (broadcast_all_told c ms b1) as (es & -> & Et); [by rewrite Ec|].
    exists [], (emit es b1), es, v'. cbn. by rewrite El, Es, Et.
  - unfold handle_chat_broadcast in *. destruct (resolve_chat_sender_channel _ _ _).
    + eapply Hquiet; [done|done| |done]. eapply told_none; [|reflexivity]; done.
    + eapply Hquiet; [done|done| |done]. eapply told_none; [|reflexivity]; done.
  - unfold handle_direct_message in *. destruct (reverse_virtual_user_map _ !! _) as [session|].
    + unfold send_to_mumble_session in *. case_bool_decide.
      * by eapply (Hquiet _ [_]).
      * by eapply (Hquiet b []); [done|by rewrite app_nil_r|done|done].
    + by eapply (Hquiet b []); [done|by rewrite app_nil_r|done|done].
  - eapply (Hquiet _ []); [done|by rewrite app_nil_r|done|]. by eapply in_step_ext; [..|exact Hs].
Qed.

(** ** A client that joins later *)

Lemma walk_rooms_sync fuel children_of queue acc :
  walk_rooms fuel children_of queue acc = sync_rooms fuel (collect Types.room_id []) children_of queue acc.
Proof.
  revert queue acc. induction fuel as [|fuel IH]; intros [|r queue] acc; cbn [walk_rooms sync_rooms]; try done.
  assert (sync_room (collect Types.room_id []) r acc.2 = let '(m, chs) := room_state r acc.2 in ([m], chs)) as ->.
  { unfold sync_room, room_state. destruct (channel_get_or_insert _ _) as [i cm].
    case_bool_decide; [done|]. by destruct (channel_get_or_insert _ cm). }
  destruct (room_state r acc.2). apply IH.
Qed.

Lemma sync_rooms_known fuel old_by rooms queue ms cm res :
  (∀ r, r ∈ rooms → (sync_room old_by r cm).2 = cm) → (∀ r, r ∈ queue → r ∈ rooms) →
  sync_rooms fuel old_by (children_map rooms) queue (ms, cm) = Some res → res.2 = cm.
Proof.
  intros Hq. revert queue ms. induction fuel as [|fuel IH]; intros [|r queue] ms Hin; cbn [sync_rooms]; try (by intros [= <-]).
  cbn [fst snd]. pose proof (Hq r ltac:(apply Hin; by left)) as Hr. destruct (sync_room old_by r cm) as [m cm']. cbn in Hr. subst cm'.
  apply IH. intros x [Hx|Hx]%elem_of_app; [apply Hin; by right|]. by apply elem_of_children in Hx as [Hx _].
Qed.

(** The channels, to someone who knows nothing. *)
Lemma snapshot_channels fuel rooms us chs g users :
  snapshot_ok rooms us → rooms ≠ [] → channels_ok chs → (∀ r, r ∈ rooms → is_Some (id_of chs (Types.room_id r))) →
  shown Types.room_id (channel_of chs) chs rooms g → (List.length rooms ≤ fuel)%nat →
  (next_id chs + N.of_nat (List.length rooms) + 1 < 2 ^ 32)%N →
  ∃ ms, build_channel_states fuel rooms chs = Some (ms, chs) ∧ show_all ms (mkView ∅ users) = Some (mkView g users).
Proof.
  intros Hok Hne Hck Hm Hg Hf Hn. unfold build_channel_states.
  assert (assign_ids rooms chs = chs) as ->.
  { unfold assign_ids. revert Hm. clear -Hck. induction rooms as [|r rooms IH]; intros Hm; cbn [fold_left]; [done|].
    destruct (Hm r ltac:(by left)) as [i Hi]. rewrite (channel_get_known _ i) by done. apply IH. intros x Hx. apply Hm. by right. }
  assert (is_Some (List.find (St.has_room_id Types.ROOT_ROOM_UUID) rooms)) as [root ->].
  { destruct (so_root _ _ Hok) as [?|Hroot]; [done|]. apply list_elem_of_fmap_1 in Hroot as (x & Ex & Hx).
    destruct (List.find _ _) eqn:E; [by eexists|]. pose proof (proj1 (find_None_iff _ _) E x Hx) as E'.
    by apply bool_decide_eq_false in E'. }
  rewrite walk_rooms_sync.
  assert (synced [] chs [] chs (mkView ∅ users)) as Hsy.
  { split; cbn; [done|by intros ???|by intros k Hk; left|by intros r Hr%elem_of_nil|lia|by intros r Hr%elem_of_nil|].
    intros i b. cbn. split; [done|]. by intros (x & Hx%elem_of_nil & _). }
  assert (snapshot_ok [] []) as Hnil.
  { split; [constructor|by left|by intros r Hr%elem_of_nil|constructor|by intros r Hr%elem_of_nil]. }
  destruct (sync_rooms_shows [] [] rooms us chs Hnil Hok (λ o r Ho, match not_elem_of_nil o Ho with end)
    (λ r Hr, match not_elem_of_nil r Hr with end) fuel [] _ [] chs _ Hsy (first_queue_ok rooms us Hok Hne) Hf Hn)
    as (ms & all & cm & v' & E & S1 & U1 & Hsy' & Hperm).
  assert (cm = chs) as ->.
  { change cm with ((([] : list SyncMessage) ++ ms, cm).2). eapply (sync_rooms_known _ _ rooms); [| |exact E].
    - intros r Hr. unfold sync_room. destruct (Hm r Hr) as [i Hi]. rewrite (channel_get_known _ i) by done.
      case_bool_decide as Er; [done|]. destruct (parent_known _ _ r Hok Hr Er) as (Hp & _).
      apply list_elem_of_fmap_1 in Hp as (x & -> & Hx). destruct (Hm x Hx) as [p Hp]. by rewrite (channel_get_known _ p).
    - intros r Hr. by apply (q_new _ _ _ (first_queue_ok rooms us Hok Hne)). }
  exists ms. rewrite E. split; [done|]. rewrite S1. f_equal. destruct v' as [gc gu]. cbn in U1. subst gu. f_equal.
  apply map_eq. intros i. apply option_eq. intros b. rewrite (Hg i b). rewrite (sy_shown _ _ _ _ _ Hsy' i b).
  cbn. unfold overlay. cbn. rewrite app_nil_r. by setoid_rewrite Hperm.
Qed.

(** Users, one after the other. *)
Definition introduce (p : N * MumbleUser) : SyncMessage :=
  UserState (Some p.1) None (Some (mu_name p.2)) (Some (mu_channel p.2)) (Some (mu_mute p.2)) (Some (mu_deaf p.2)).

Lemma introduce_all ps v :
  NoDup ps.*1 → (∀ p, p ∈ ps → is_Some (v_channels v !! mu_channel p.2)) →
  ∃ v', show_all (map introduce ps) v = Some v' ∧ v_channels v' = v_channels v ∧
    ∀ i u, v_users v' !! i = Some u ↔ (i, u) ∈ ps ∨ (i ∉ ps.*1 ∧ v_users v !! i = Some u).
Proof.
  revert v. induction ps as [|[i mu] ps IH]; intros v Hnd Hch; cbn [map show_all].
  - exists v. split_and!; [done|done|]. intros i u. rewrite elem_of_nil. cbn. pose proof (not_elem_of_nil i). naive_solver.
  - cbn in Hnd. apply NoDup_cons in Hnd as [Hi Hnd]. destruct (Hch (i, mu) ltac:(by left)) as [c Hc].
    set (v1 := mkView (v_channels v) (<[i := mu]> (v_users v))).
    assert (show (introduce (i, mu)) v = Some v1) as ->.
    { cbn in *. rewrite Hc. by destruct mu. }
    destruct (IH v1 Hnd) as (v' & V1 & V2 & V3); [intros p Hp; apply (Hch p); by right|].
    exists v'. split_and!; [done|done|]. intros j u. rewrite (V3 j u). cbn. rewrite !elem_of_cons, lookup_insert_Some.
    assert (∀ w, (j, w) ∈ ps → j ∈ ps.*1) as Hin by (intros w Hw; by apply (list_elem_of_fmap_2 fst _ (j, w))).
    specialize (Hin u). clear -Hi Hin. destruct (decide (i = j)) as [<-|Hne].
    + split.
      * intros [Hu|[_ [[_ ->]|[? _]]]]; [left; by right|left; by left|done].
      * intros [[[= ->]|Hu]|[Hn _]]; [right; split; [done|by left]|by left|]. destruct Hn. by left.
    + split.
      * intros [Hu|[Hn [[? _]|[_ Hu]]]]; [left; by right|done|]. right. split; [|done]. by intros [->|?].
      * intros [[[= -> _]|Hu]|[Hn Hu]]; [done|by left|]. right. split; [|by right]. intros ?. apply Hn. by right.
Qed.

(** Mumble clients stand in channels that exist, under sessions of their own;
    the bridge itself has no proxy. *)
Record clients_ok (s : BridgeState) (v : View) : Prop := {
  cl_key : ∀ k c, mumble_clients s !! k = Some c → mc_session c = k ∧ (k < 100000)%N;
  cl_channel : ∀ k c, mumble_clients s !! k = Some c → is_Some (v_channels v !! mc_channel_id c);
  cl_proxies : ∀ k i, id_of (users s) k = Some i → (100000 <= i)%N;
  cl_bridge : ∀ id, bridge_user_id s = Some id → id_of (users s) id = None;
}.

Definition client_shown (c : MumbleClient) : MumbleUser :=
  mkMumbleUser (mc_username c) (mc_channel_id c) (mc_is_muted c) (mc_is_deafened c).
Definition proxy_pair (s : BridgeState) (u : Types.User) : option (N * MumbleUser) :=
  (λ i, (i, user_of (channels s) u)) <$> id_of (users s) (Types.user_id u).
Definition other_clients (s : BridgeState) (session : N) : list MumbleClient :=
  retain (λ c, negb (mc_session c =? session)%N) (map snd (map_to_list (mumble_clients s))).
(** Everyone a new client is told about. *)
Definition introductions (s : BridgeState) (session : N) : list (N * MumbleUser) :=
  omap (proxy_pair s) (rumble_users s) ++ map (λ c, (mc_session c, client_shown c)) (other_clients s session).

Lemma elem_of_other_clients s v session c :
  clients_ok s v → c ∈ other_clients s session ↔ mumble_clients s !! mc_session c = Some c ∧ mc_session c ≠ session.
Proof.
  intros Hcl. unfold other_clients. rewrite elem_of_retain, Bool.negb_true_iff, N.eqb_neq, list_elem_of_fmap. split.
  - intros [([k c'] & -> & Hc%elem_of_map_to_list) Hne]. cbn in *. destruct (cl_key _ _ Hcl k c' Hc) as [E _]. split; [by rewrite E|done].
  - intros [Hc Hne]. split; [|done]. exists (mc_session c, c). split; [done|]. by apply elem_of_map_to_list.
Qed.

Lemma elem_of_proxies s v i mu :
  in_step s v → (i, mu) ∈ omap (proxy_pair s) (rumble_users s) ↔ v_users v !! i = Some mu.
Proof.
  intros [_ [_ _ _ _ Hus] _]. rewrite (Hus i mu), list_elem_of_omap. unfold proxy_pair. split.
  - intros (u & Hu & E). destruct (id_of (users s) (Types.user_id u)) as [j|] eqn:Ej; [|done]. injection E as <- <-. by exists u.
  - intros (u & Hu & Hi & ->). exists u. by rewrite Hi.
Qed.

Lemma omap_NoDup_keys (s : BridgeState) l :
  idmap_ok (users s) → NoDup (Types.user_id <$> l) → NoDup (omap (proxy_pair s) l).*1.
Proof.
  intros Hok. induction l as [|u l IH]; intros Hnd; [constructor|]. cbn in Hnd. apply NoDup_cons in Hnd as [Hu Hnd].
  cbn. unfold proxy_pair at 1. destruct (id_of (users s) (Types.user_id u)) as [i|] eqn:Ei; cbn; [|by apply IH].
  apply NoDup_cons. split; [|by apply IH]. intros ([j mu] & -> & Hin)%list_elem_of_fmap_1.
  apply list_elem_of_omap in Hin as (u' & Hin & E). unfold proxy_pair in E. cbn in Ei.
  destruct (id_of (users s) (Types.user_id u')) as [j'|] eqn:Ej; [|done]. injection E as <- _.
  apply Hu. rewrite (id_of_inj _ _ _ _ Hok Ei Ej). by apply list_elem_of_fmap_2.
Qed.

Lemma introductions_NoDup s v session : in_step s v → clients_ok s v → NoDup (introductions s session).*1.
Proof.
  intros Hs Hcl. unfold introductions. rewrite fmap_app. apply NoDup_app. split_and!.
  - apply omap_NoDup_keys; [apply Hs|apply (is_snapshot _ _ Hs)].
  - intros i ([j mu] & -> & Hin)%list_elem_of_fmap_1 (p & Ep & Hp)%list_elem_of_fmap_1. cbn in Ep. subst j.
    apply list_elem_of_fmap_1 in Hp as (c & -> & Hc%(elem_of_other_clients _ v)); [|done]. cbn in Hin.
    apply (elem_of_proxies _ v) in Hin; [|done]. apply (pr_users _ _ _ _ _ (is_projected _ _ Hs)) in Hin as (u & _ & Hi & _).
    apply (cl_proxies _ _ Hcl) in Hi. destruct (cl_key _ _ Hcl _ _ (proj1 Hc)). lia.
  - change (map (λ c, (mc_session c, client_shown c)) ?l) with ((λ c, (mc_session c, client_shown c)) <$> l).
    rewrite <- list_fmap_compose. apply NoDup_fmap_retain.
    change (map snd ?l) with (snd <$> l). rewrite <- list_fmap_compose.
    rewrite (list_fmap_ext _ fst); [apply NoDup_fst_map_to_list|].
    intros i [k c] E%list_elem_of_lookup_2. cbn. apply elem_of_map_to_list in E. by destruct (cl_key _ _ Hcl _ _ E).
Qed.

Lemma user_states_introduce s v session :
  in_step s v → clients_ok s v → build_user_states s session = map introduce (introductions s session).
Proof.
  intros Hs Hcl. unfold build_user_states, introductions. rewrite map_app, map_map. f_equal.
  assert (∀ u, u ∈ rumble_users s → is_Some (id_of (channels s) (Types.current_room u))) as Hroom.
  { intros u Hu. destruct (known_channel s v _ Hs (so_placed _ _ (is_snapshot _ _ Hs) u Hu)) as (i & Hi & _). by exists i. }
  revert Hroom. induction (rumble_users s) as [|u l IH]; intros Hroom; [done|].
  assert (rumble_user_state s u = introduce <$> proxy_pair s u) as E.
  { unfold rumble_user_state, proxy_pair. case_bool_decide as Eb; cbn.
    - by rewrite (cl_bridge _ _ Hcl (Types.user_id u)).
    - destruct (id_of (users s) (Types.user_id u)); [|done]. cbn. unfold introduce, user_of. cbn.
      destruct (Hroom u ltac:(by left)) as [i ->]. done. }
  change (omap (rumble_user_state s) (u :: l)) with
    (match rumble_user_state s u with Some y => y :: omap (rumble_user_state s) l | None => omap (rumble_user_state s) l end).
  change (omap (proxy_pair s) (u :: l)) with
    (match proxy_pair s u with Some y => y :: omap (proxy_pair s) l | None => omap (proxy_pair s) l end).
  rewrite E, IH by (intros x Hx; apply Hroom; by right). by destruct (proxy_pair s u).
Qed.

Lemma elem_of_client_pairs s v session i u :
  clients_ok s v → (i, u) ∈ map (λ c, (mc_session c, client_shown c)) (other_clients s session) ↔
  ∃ c, mumble_clients s !! i = Some c ∧ i ≠ session ∧ u = client_shown c.
Proof.
  intros Hcl. change (map ?f ?l) with (f <$> l). rewrite list_elem_of_fmap. split.
  - intros (c & [= -> ->] & [Hc Hns]%(elem_of_other_clients _ v)); [|done]. by exists c.
  - intros (c & Hc & Hns & ->). exists c. destruct (cl_key _ _ Hcl _ _ Hc) as [E _].
    rewrite <- E at 1. split; [done|]. apply (elem_of_other_clients _ v); [done|]. by rewrite E.
Qed.

Lemma introductions_placed s v session p :
  in_step s v → clients_ok s v → p ∈ introductions s session → is_Some (v_channels v !! mu_channel p.2).
Proof.
  intros Hs Hcl [Hp|Hp]%elem_of_app.
  - apply list_elem_of_omap in Hp as (u & Hu & E). unfold proxy_pair in E.
    destruct (id_of (users s) (Types.user_id u)); [|done]. injection E as <-. cbn.
    by destruct (known_channel _ v _ Hs (so_placed _ _ (is_snapshot _ _ Hs) u Hu)) as (i & -> & Hi & _).
  - destruct p as [i mu]. apply (elem_of_client_pairs _ v) in Hp as (c & Hc & _ & ->); [|done]. by eapply cl_channel.
Qed.

Lemma not_introduced s v session client :
  in_step s v → clients_ok s v → mumble_clients s !! session = Some client → session ∉ (introductions s session).*1.
Proof.
  intros Hs Hcl Hself ([i mu] & Ei & [Hp|Hp]%elem_of_app)%list_elem_of_fmap_1; cbn in Ei; subst i.
  - apply (elem_of_proxies _ v) in Hp; [|done]. apply (pr_users _ _ _ _ _ (is_projected _ _ Hs)) in Hp as (u & _ & Hi & _).
    apply (cl_proxies _ _ Hcl) in Hi. destruct (cl_key _ _ Hcl _ _ Hself). lia.
  - apply (elem_of_client_pairs _ v) in Hp as (c & _ & ? & _); done.
Qed.

Lemma told_all session l : told session (map (λ m, ToMumble session m) (map Sync l)) = l.
Proof. induction l as [|m l IH]; [done|]. cbn. rewrite N.eqb_refl. cbn. by f_equal. Qed.

(** A client that joins later is shown the same world.  What it is sent
    when its sender is registered introduces, from nothing and in an order that
    never refers to a channel or user not yet introduced, exactly the channels and
    the users that the clients before it are shown, the other Mumble clients
    and itself; from then on it receives every broadcast. *)
Theorem late_joiner_in_step e b v session client :
  in_step (state b) v → clients_ok (state b) v → mumble_clients (state b) !! session = Some client →
  rumble_rooms (state b) ≠ [] → (List.length (rumble_rooms (state b)) ≤ env_fuel e)%nat →
  (next_id (channels (state b)) + N.of_nat (List.length (rumble_rooms (state b))) + 1 < 2 ^ 32)%N →
  ∃ b' es v', handle_event e (MumbleClientSender session) b = Some (None, b') ∧ state b' = state b ∧
    log b' = log b ++ es ∧ client_senders (loop b') = {[ session ]} ∪ client_senders (loop b) ∧
    show_all (told session es) (mkView ∅ ∅) = Some v' ∧ v_channels v' = v_channels v ∧
    (∀ i u, v_users v' !! i = Some u ↔
       v_users v !! i = Some u ∨
       (∃ c, mumble_clients (state b) !! i = Some c ∧ i ≠ session ∧ u = client_shown c) ∨
       (i = session ∧ u = mkMumbleUser (mc_username client) (mc_channel_id client) false false)).
Proof.
  intros Hs Hcl Hself Hne Hf Hn. cbn [handle_event]. unfold on_client_sender, send_initial_sync.
  destruct (snapshot_channels (env_fuel e) (rumble_rooms (state b)) (rumble_users (state b)) (channels (state b))
    (v_channels v) ∅) as (ms & -> & S1); try done; try apply Hs. cbn [mbind option_bind].
  assert (with_maps (channels (state b)) (users (state b)) (state b) = state b) as -> by (by destruct (state b)).
  rewrite Hself. cbn [mbind option_bind go_on].
  set (self := mkMumbleUser (mc_username client) (mc_channel_id client) false false).
  set (welcome := default _ _). set (rest := [ServerSync _ _ _ _; ServerConfig _ _]).
  destruct (introduce_all (introductions (state b) session) (mkView (v_channels v) ∅)) as (w & W1 & W2 & W3).
  { by eapply introductions_NoDup. }
  { intros p Hp. exact (introductions_placed _ v session p Hs Hcl Hp). }
  pose proof (not_introduced _ v session client Hs Hcl Hself) as Hnot.
  assert (v_users w !! session = None) as Hnone.
  { destruct (v_users w !! session) as [u|] eqn:E; [|done]. apply W3 in E as [E|[_ E]]; [|done].
    destruct Hnot. by apply (list_elem_of_fmap_2 fst _ (session, u)). }
  eexists _, _, (mkView (v_channels v) (<[session := self]> (v_users w))). split_and!; [done|done|done|done| |done|].
  - rewrite map_app, told_app. assert (told session (map (λ m, ToMumble session m) rest) = []) as -> by done.
    rewrite app_nil_r, told_all, show_all_app, S1. cbn [mbind option_bind].
    rewrite (user_states_introduce _ v), show_all_app, W1 by done. cbn [mbind option_bind show_all show].
    rewrite Hnone, W2. cbn [or_old default fmap option_fmap option_map v_channels]. unfold id.
    by destruct (cl_channel _ _ Hcl _ _ Hself) as [ch ->].
  - intros i u. cbn [v_users]. rewrite lookup_insert_Some, (W3 i u). cbn [v_users]. rewrite lookup_empty.
    unfold introductions. rewrite elem_of_app, (elem_of_proxies _ v), (elem_of_client_pairs _ v) by done.
    destruct (decide (session = i)) as [<-|Hne'].
    + split; [intros [[_ <-]|[? _]]; [by right; right|done]|]. intros [Hu|[(c & _ & ? & _)|[_ ->]]]; [|done|by left].
      exfalso. apply Hnot. apply (elem_of_proxies (state b) v) in Hu; [|done]. apply (list_elem_of_fmap_2 fst _ (session, u)).
      apply elem_of_app. by left.
    + split; [intros [[? _]|[_ [[?|?]|[_ ?]]]]; auto; done|]. intros [?|[?|[? _]]]; [right; auto|right; auto|done].
Qed.

(** ** Examples *)

Lemma sample_in_step : in_step (state sample_ready) (mkView ∅ ∅).
Proof.
  assert (snapshot_ok [] []) as Hnil.
  { split; [constructor|by left|by intros r Hr%elem_of_nil|constructor|by intros r Hr%elem_of_nil]. }
  assert (in_step BridgeState_new (mkView ∅ ∅)) as Hs.
  { split; [exact Hnil|exact Reconcile.sample_start|]. intros k [i Hi]. unfold id_of in Hi. cbn in Hi. by apply lookup_empty_Some in Hi. }
  by eapply in_step_ext; [..|exact Hs].
Qed.

Lemma sample_envelope : envelope_ok 8 (Proto.EvServerState sample_state) (state sample_ready).
Proof.
  exists sample_rooms_1, sample_users_1. split_and!; [done|done|exact sample_snapshot_1|done| |vm_compute; done|vm_compute; done|cbn; lia].
  by intros o r Ho%elem_of_nil.
Qed.

Lemma mumble_clients_follow_witness :
  ∃ b' es v', handle_event sample_env (RumbleEnvelope (Proto.EvServerState sample_state)) sample_ready = Some (None, b') ∧
    log b' = log sample_ready ++ es ∧ show_all (told 1000 es) (mkView ∅ ∅) = Some v' ∧ in_step (state b') v'.
Proof.
  apply (mumble_clients_follow sample_env (Proto.EvServerState sample_state) sample_ready (mkView ∅ ∅) 1000).
  - exact sample_in_step.
  - exact sample_envelope.
  - by apply (bool_decide_unpack _); vm_compute.
Defined.

(** The state after it is one a late joiner can enter. *)
Definition sample_check (s : BridgeState) : bool :=
  bool_decide (map_Forall (λ k c, mc_session c = k ∧ (k < 100000)%N ∧ mc_channel_id c = 0%N) (mumble_clients s)) &&
  bool_decide (map_Forall (λ _ i, (100000 <= i)%N) (rumble_to_mumble (users s))) &&
  bool_decide (bridge_user_id s = None) && bool_decide (is_Some (mumble_clients s !! 1000%N)) &&
  bool_decide (id_of (channels s) Types.ROOT_ROOM_UUID = Some 0%N) && (next_id (channels s) <? 100)%N &&
  Nat.eqb (List.length (rumble_rooms s)) 3.

Lemma sample_checked : (λ b, sample_check (state b)) <$> handle_server_state 8 sample_state sample_ready = Some true.
Proof. vm_compute. reflexivity. Qed.

Lemma late_joiner_in_step_witness :
  ∃ b b' es v v', handle_server_state 8 sample_state sample_ready = Some b ∧
    handle_event sample_env (MumbleClientSender 1000) b = Some (None, b') ∧ log b' = log b ++ es ∧
    show_all (told 1000 es) (mkView ∅ ∅) = Some v' ∧ v_channels v' = v_channels v.
Proof.
  destruct (server_state_shown 8 sample_state sample_ready (mkView ∅ ∅) 1000 sample_in_step sample_envelope) as (b & es & v & Eb & _ & _ & Hs).
  { by apply (bool_decide_unpack _); vm_compute. }
  pose proof sample_checked as Hck. rewrite Eb in Hck. cbn [fmap option_fmap option_map] in Hck. injection Hck as Hck.
  unfold sample_check in Hck. rewrite !Bool.andb_true_iff, !bool_decide_eq_true, Nat.eqb_eq, N.ltb_lt in Hck.
  destruct Hck as ((((((C1 & C2) & C3) & [client C4]) & C5) & C6) & C7).
  assert (Types.ROOT_ROOM_UUID ∈ Types.room_id <$> rumble_rooms (state b)) as Hroot.
  { destruct (so_root _ _ (is_snapshot _ _ Hs)) as [E|E]; [rewrite E in C7; discriminate C7|exact E]. }
  destruct (known_channel _ _ _ Hs Hroot) as (i & Hi & Hch & _). rewrite C5 in Hi. injection Hi as <-.
  destruct (late_joiner_in_step sample_env b v 1000 client) as (b' & es' & v' & E1 & _ & E2 & _ & E3 & E4 & _).
  - exact Hs.
  - split.
    + intros k c Hc. destruct (C1 k c Hc) as (E1 & E2 & _). split; assumption.
    + intros k c Hc. destruct (C1 k c Hc) as (_ & _ & E3). rewrite E3. exact Hch.
    + intros k j Hj. exact (C2 k j Hj).
    + intros id Hid. rewrite C3 in Hid. discriminate Hid.
  - exact C4.
  - intros E. rewrite E in C7. discriminate C7.
  - rewrite C7. cbn. lia.
  - rewrite C7. lia.
  - exists b, b', es', v, v'. split_and!; assumption.
Defined.

(** ** What the updates leave behind *)

Definition sample_world (b : Bridge) : option Bridge := handle_server_state 8 sample_state b.

(** A rename reaches the clients that are connected; the cached room keeps the old
    name, and a client that joins later is told that one. *)
Example renamed_room_is_stale :
  (b ← sample_world sample_ready;
   let b := handle_state_update (Proto.RoomRenamed (Some (Types.room_id_from_uuid (sample_uuid 1))) "Hall") b in
   v ← show_all (told 1000 (log b)) (mkView ∅ ∅);
   b' ← on_client_sender 8 sample_config 1000 (mkBridge (state b) (loop b) []);
   v' ← show_all (told 1000 (log b')) (mkView ∅ ∅);
   Some (ch_name <$> v_channels v !! 1%N, ch_name <$> v_channels v' !! 1%N))
  = Some (Some "Hall"%string, Some "Lobby"%string).
Proof. vm_compute. reflexivity. Qed.

(** Clearing a description sends a message without one, which changes nothing. *)
Example cleared_description_is_lost :
  (b ← sample_world sample_ready;
   let b := handle_state_update (Proto.RoomDescriptionChanged (Some (Types.room_id_from_uuid (sample_uuid 2))) "") b in
   v ← show_all (told 1000 (log b)) (mkView ∅ ∅);
   Some (ch_description <$> v_channels v !! 2%N, Types.room_description <$> List.find (St.has_room_id (sample_uuid 2)) (rumble_rooms (state b))))
  = Some (Some (Some "up"%string), Some None).
Proof. vm_compute. reflexivity. Qed.

(** A Mumble client may name any channel: it is stored and announced, whether it
    exists or not. *)
Example any_channel_is_announced :
  (b ← sample_world sample_ready;
   b ← on_client_sender 8 sample_config 1000 (mkBridge (state b) (loop b) []);
   let b' := on_channel_change 1000 77 b in
   Some (mc_channel_id <$> mumble_clients (state b') !! 1000%N, bool_decide (is_Some (show_all (told 1000 (log b)) (mkView ∅ ∅))),
         bool_decide (is_Some (show_all (told 1000 (log b')) (mkView ∅ ∅)))))
  = Some (Some 77%N, true, false).
Proof. vm_compute. reflexivity. Qed.
End BridgeSync.
