(* ===== verification/BridgeTraffic.v ===== *)
(** Who stands for whom, who hears whom: the ownership of participants
    ([participants_accounted]), the routing of voice ([bridge_voice_spec]) and
    the scope of chat ([bridge_chat_spec]). *)
From Stdlib Require Import NArith ZArith Lia String Strings.Byte.
From stdpp Require Import base gmap strings list pretty.
From S2P Require Import Prelude Proto Types Wire State World Acl Ops Voice MumbleVoice Reconcile Bridge.

Module BridgeTraffic.
Import Reconcile Bridge.
Open Scope list_scope.
Local Arguments Types.ROOT_ROOM_UUID : simpl never.
Local Arguments id_of : simpl never.

(** ** Every participant has an owner *)

(** A step that registers and removes nobody. *)
Record bystander (b b' : Bridge) : Prop := {
  by_map : virtual_user_map (state b') = virtual_user_map (state b);
  by_reverse : reverse_virtual_user_map (state b') = reverse_virtual_user_map (state b);
  by_pending : pending_registrations (state b') = pending_registrations (state b);
  by_log : ∃ es, log b' = log b ++ es;
}.

#[export] Instance bystander_preorder : PreOrder bystander.
Proof.
  split.
  - intros b. split; try done. exists []. by rewrite app_nil_r.
  - intros b1 b2 b3 [A1 A2 A3 [es1 A4]] [B1 B2 B3 [es2 B4]]. split; try congruence.
    exists (es1 ++ es2). by rewrite B4, A4, app_assoc.
Qed.

Lemma bystander_emit es b : bystander b (emit es b).
Proof. split; try done. by exists es. Qed.

Lemma bystander_silent b b' :
  virtual_user_map (state b') = virtual_user_map (state b) →
  reverse_virtual_user_map (state b') = reverse_virtual_user_map (state b) →
  pending_registrations (state b') = pending_registrations (state b) → log b' = log b → bystander b b'.
Proof. intros E1 E2 E3 E4. split; try done. exists []. by rewrite app_nil_r. Qed.

Lemma bystander_send_to session m b : bystander b (send_to_mumble_session session m b).
Proof. unfold send_to_mumble_session. case_bool_decide; [apply bystander_emit|done]. Qed.

Lemma bystander_broadcast_all ms b : bystander b (broadcast_all ms b).
Proof.
  unfold broadcast_all. revert b. induction ms as [|m ms IH]; intros b; cbn [fold_left]; [done|].
  etransitivity; [|apply IH]. apply bystander_emit.
Qed.

Lemma bystander_pending pending b : bystander b (fold_left (λ b p, process_pending p b) pending b).
Proof.
  revert b. induction pending as [|p pending IH]; intros b; cbn [fold_left]; [done|]. etransitivity; [|apply IH].
  destruct p as [vid session|vid]; cbn [process_pending]; [|apply bystander_emit].
  destruct (_ || _); [|apply bystander_emit]. etransitivity; apply bystander_emit.
Qed.

Lemma update_state_virtual su s :
  let s' := (update_state su s).1 in
  virtual_user_map s' = virtual_user_map s ∧ reverse_virtual_user_map s' = reverse_virtual_user_map s ∧
  pending_registrations s' = pending_registrations s.
Proof.
  destruct su as [uid to|[pu|]|uid|[pr|]|rid fb|rid n|rid p|rid d|uid m d sm el|rid ih en|g d|k g a x]; cbn [update_state]; try done.
  - unfold on_user_moved. destruct (is_virtual _ _); [done|]. by destruct (to ≫= _); [destruct (channel_get_or_insert _ _)|].
  - unfold on_user_joined. case_bool_decide; [done|]. destruct (is_virtual _ _); [done|]. destruct (is_pending _ _); [done|].
    destruct (get_or_assign _ _). by destruct (_ ≫= _); [destruct (channel_get_or_insert _ _)|].
  - unfold on_user_left. by destruct (is_virtual _ _).
  - unfold on_room_created. destruct (_ ≫= _); [|done]. destruct (channel_get_or_insert _ _).
    by destruct (_ ≫= _); [destruct (channel_get_or_insert _ _)|].
  - unfold on_room_deleted. by destruct (_ ≫= _).
  - unfold on_room_description_changed. by destruct (_ ≫= _).
  - unfold on_user_status_changed. by destruct (is_virtual _ _).
Qed.

Lemma bystander_update su b : bystander b (handle_state_update su b).
Proof.
  unfold handle_state_update. pose proof (update_state_virtual su (state b)) as (E1 & E2 & E3).
  destruct (update_state su (state b)) as [s' ms]. cbn in E1, E2, E3. etransitivity; [|apply bystander_broadcast_all].
  destruct su as [| |uid| | | | | | | | |]; try (by apply bystander_silent). by destruct (is_virtual _ _); apply bystander_silent.
Qed.

Definition registers (ev : BridgeEvent) : bool :=
  match ev with
  | MumbleClientJoined _ _ | MumbleClientLeft _ | RumbleEnvelope (Proto.ParticipantRegistered _ _) => true
  | _ => false
  end.

Lemma bystander_envelope fuel env b rejected pending b' :
  registers (RumbleEnvelope env) = false → handle_rumble_envelope fuel env b = Some (rejected, pending, b') → bystander b b'.
Proof.
  intros Hr. destruct env; cbn [handle_rumble_envelope]; try (by intros [= <- <- <-]); try done.
  - unfold handle_server_state. destruct (reconcile_server_state _ _ _ _ _ _ _ _) as [[[out chs] sessions]|]; [|done].
    cbn [mbind option_bind]. intros [= <- <- <-]. etransitivity; [|apply bystander_broadcast_all]. by apply bystander_silent.
  - intros [= <- <- <-]. apply bystander_update.
  - intros [= <- <- <-]. unfold handle_chat_broadcast. destruct (resolve_chat_sender_channel _ _ _); apply bystander_emit.
  - intros [= <- <- <-]. unfold handle_direct_message. destruct (_ !! _); [apply bystander_send_to|done].
  - intros [= <- <- <-]. by apply bystander_silent.
Qed.

Lemma bystander_event e ev b o b' : registers ev = false → handle_event e ev b = Some (o, b') → bystander b b'.
Proof.
  intros Hr. destruct ev as [| |session|session payload|session data|session m ts tt|session ch|session m d|env|d|];
    cbn [handle_event go_on]; try done.
  - unfold on_client_sender, send_initial_sync. destruct (build_channel_states _ _ _) as [[ms cm]|]; [|done].
    cbn [mbind option_bind]. destruct (mumble_clients _ !! session); cbn [mbind option_bind go_on]; intros [= <- <-].
    + etransitivity; [by apply (bystander_silent b (set_state (with_maps cm (users (state b)) (state b)) b))|].
      etransitivity; [apply bystander_emit|]. by apply bystander_silent.
    + by apply bystander_silent.
  - intros [= <- <-]. apply bystander_send_to.
  - intros [= <- <-]. unfold on_mumble_voice. destruct (default _ _); [done|]. destruct (virtual_user_map _ !! _); [|done].
    destruct (MumbleVoice.parse_voice_packet data); [|done]. destruct (_ =? 31)%N; [apply bystander_send_to|].
    destruct (negb _); [done|]. etransitivity; [|apply bystander_emit]. by apply bystander_silent.
  - intros [= <- <-]. unfold on_mumble_chat. destruct (negb _); [apply bystander_emit|].
    assert (bystander b (send_room_chat (env_config e) (env_fresh e) (env_now_ms e) session m tt b)) as Hs.
    { unfold send_room_chat. destruct (_ !! _); apply bystander_emit. }
    set (b1 := send_room_chat _ _ _ _ _ _ _) in *. destruct (chat_scope _ _ _). etransitivity; [exact Hs|]. apply bystander_emit.
  - intros [= <- <-]. unfold on_channel_change. etransitivity; [|apply bystander_emit].
    set (b1 := set_state _ b). assert (bystander b b1) as Hb by by apply bystander_silent.
    destruct (virtual_user_map _ !! _); [|done]. destruct (key_of _ _); [|done]. etransitivity; [exact Hb|apply bystander_emit].
  - intros [= <- <-]. unfold on_mute_deaf_change. etransitivity; [|apply bystander_emit].
    set (b1 := set_state _ b). assert (bystander b b1) as Hb by by apply bystander_silent.
    destruct (virtual_user_map _ !! _); [|done]. etransitivity; [exact Hb|apply bystander_emit].
  - destruct (handle_rumble_envelope _ env b) as [[[rejected pending] b1]|] eqn:E; [|done]. cbn [mbind option_bind].
    apply bystander_envelope in E; [|done]. destruct rejected; [by intros [= <- <-]|]. intros [= <- <-].
    etransitivity; [exact E|apply bystander_pending].
  - intros [= <- <-]. unfold handle_rumble_voice. destruct (_ && _); [done|]. destruct (Proto.vd_sender_id d); [|done].
    destruct (opt_or _ _); [|done]. etransitivity; [|apply bystander_emit]. by apply bystander_silent.
  - by intros [= <- <-].
Qed.

Lemma take_pending_spec name l session rest :
  take_pending name l = Some (session, rest) → ∃ l1 l2, l = l1 ++ (name, session) :: l2 ∧ rest = l1 ++ l2.
Proof.
  enough (∀ before l, take_from name before l = Some (session, rest) →
    ∃ l1 l2, l = l1 ++ (name, session) :: l2 ∧ rest = before ++ l1 ++ l2) as Hgo by apply Hgo.
  clear l. intros before l. revert before. induction l as [|[n s] l IH]; intros before; cbn; [done|]. case_bool_decide as E.
  - intros [= -> <-]. cbn in E. subst n. by exists [], l.
  - intros (l1 & l2 & -> & ->)%IH. exists ((n, s) :: l1), l2. by rewrite <- app_assoc.
Qed.

(** A connection to the server, from its start: what has been registered for us,
    and the sessions that asked for it.  The server gives every participant a
    new id, and a Mumble connection announces its session once. *)
Inductive run : Bridge → gset N → gset N → Prop :=
  | run_start b :
      virtual_user_map (state b) = ∅ → reverse_virtual_user_map (state b) = ∅ → NoDup (pending_registrations (state b)).*2 →
      run b ∅ (list_to_set (pending_registrations (state b)).*2)
  | run_event b reg joined e ev b' :
      run b reg joined → registers ev = false → handle_event e ev b = Some (None, b') → run b' reg joined
  | run_left b reg joined session : run b reg joined → run (on_client_left session b) reg joined
  | run_joined b reg joined session name :
      run b reg joined → session ∉ joined → run (on_client_joined session name b) reg ({[ session ]} ∪ joined)
  | run_registered b reg joined e vid name b' :
      run b reg joined → vid ∉ reg → handle_event e (RumbleEnvelope (Proto.ParticipantRegistered vid name)) b = Some (None, b') →
      run b' ({[ vid ]} ∪ reg) joined
  | run_handshake b reg joined name : run b reg joined → run (set_state (register_client name (state b)).2 b) reg joined
  | run_gone b reg joined session : run b reg joined → run (set_state (unregister_client session (state b)) b) reg joined.

Record owned (b : Bridge) (reg joined : gset N) : Prop := {
  ow_inverse : ∀ s v, virtual_user_map (state b) !! s = Some v ↔ reverse_virtual_user_map (state b) !! v = Some s;
  ow_registered : ∀ s v, virtual_user_map (state b) !! s = Some v → v ∈ reg ∧ s ∈ joined;
  ow_nodup : NoDup (pending_registrations (state b)).*2;
  ow_pending : ∀ s, s ∈ (pending_registrations (state b)).*2 → s ∈ joined ∧ virtual_user_map (state b) !! s = None;
  ow_accounted : ∀ v, v ∈ reg → is_Some (reverse_virtual_user_map (state b) !! v) ∨
    ToRumble (Proto.PUnregisterParticipant v) ∈ log b;
}.

Lemma owned_bystander b b' reg joined : owned b reg joined → bystander b b' → owned b' reg joined.
Proof.
  intros [O1 O2 O3 O4 O5] [E1 E2 E3 [es E4]]. split; rewrite ?E1, ?E2, ?E3, ?E4; try done.
  intros v Hv. destruct (O5 v Hv) as [?|?]; [by left|right]. apply elem_of_app. by left.
Qed.

Lemma owned_left b reg joined session : owned b reg joined → owned (on_client_left session b) reg joined.
Proof.
  intros [O1 O2 O3 O4 O5]. unfold on_client_left. cbn [loop state set_loop set_state].
  set (s := state b) in *. set (rest := retain _ (pending_registrations s)).
  assert (NoDup rest.*2 ∧ ∀ x, x ∈ rest.*2 → x ∈ (pending_registrations s).*2) as [Hnd Hsub].
  { split; [by apply NoDup_fmap_retain|]. intros x (e & -> & [He _]%elem_of_retain)%list_elem_of_fmap_1.
    by apply list_elem_of_fmap_2. }
  destruct (virtual_user_map s !! session) as [vid|] eqn:Ev; cbn [state].
  - split; cbn; [| |done| |].
    + intros x v. rewrite !lookup_delete_Some. rewrite (O1 x v). apply O1 in Ev as Er. split; intros [Hne Hx]; split; try done.
      * intros <-. congruence.
      * intros <-. apply O1 in Hx. congruence.
    + intros x v [_ Hx]%lookup_delete_Some. by apply O2.
    + intros x Hx. destruct (O4 x (Hsub x Hx)) as [? ?]. split; [done|]. rewrite lookup_delete_None. by right.
    + intros v Hv. rewrite !elem_of_app. destruct (decide (v = vid)) as [->|Hne]; [right; left; right; by left|].
      destruct (O5 v Hv) as [[x Hx]|Hx]; [left|right; by left; left]. exists x. by rewrite lookup_delete_ne.
  - split; cbn; [| |done| |].
    + intros x v. rewrite (delete_id (virtual_user_map s)) by done. apply O1.
    + intros x v [_ Hx]%lookup_delete_Some. by apply O2.
    + intros x Hx. destruct (O4 x (Hsub x Hx)) as [? ?]. split; [done|]. rewrite lookup_delete_None. by right.
    + intros v Hv. rewrite elem_of_app. destruct (O5 v Hv) as [?|?]; [by left|right; by left].
Qed.

Lemma owned_joined b reg joined session name :
  owned b reg joined → session ∉ joined → owned (on_client_joined session name b) reg ({[ session ]} ∪ joined).
Proof.
  intros [O1 O2 O3 O4 O5] Hnew. split; cbn.
  - done.
  - intros x v Hx. destruct (O2 x v Hx). set_solver.
  - rewrite fmap_app. apply NoDup_app. split_and!; [done| |apply NoDup_singleton].
    intros x Hx ->%list_elem_of_singleton. by destruct (O4 _ Hx).
  - intros x. rewrite fmap_app, elem_of_app. intros [Hx| ->%list_elem_of_singleton].
    + destruct (O4 x Hx). split; [set_solver|done].
    + split; [set_solver|]. destruct (virtual_user_map (state b) !! session) as [v|] eqn:E; [|done]. by destruct (O2 _ _ E).
  - intros v Hv. rewrite !elem_of_app. destruct (O5 v Hv) as [?|?]; [by left|right; by left; left].
Qed.

Lemma owned_registered b reg joined vid name :
  owned b reg joined → vid ∉ reg →
  let '(b', p) := handle_participant_registered vid name b in owned (process_pending p b') ({[ vid ]} ∪ reg) joined.
Proof.
  intros [O1 O2 O3 O4 O5] Hnew. unfold handle_participant_registered.
  destruct (take_pending name (pending_registrations (state b))) as [[session rest]|] eqn:Et.
  - apply take_pending_spec in Et as (l1 & l2 & El & ->). rewrite El in O3, O4.
    assert (session ∈ joined ∧ virtual_user_map (state b) !! session = None) as [Hj Hnone].
    { apply O4. rewrite fmap_app, elem_of_app. right. by left. }
    assert (NoDup (l1 ++ l2).*2 ∧ session ∉ (l1 ++ l2).*2) as [Hnd Hnot].
    { rewrite fmap_app in *. cbn in O3. rewrite <- Permutation_middle in O3. by apply NoDup_cons in O3 as [? ?]. }
    set (b1 := set_state _ b).
    assert (owned b1 ({[ vid ]} ∪ reg) joined) as Hb1.
    { split; cbn.
      - intros x v. destruct (decide (x = session)) as [->|Hx].
        + rewrite lookup_insert_eq. split; [intros [= <-]; by rewrite lookup_insert_eq|].
          intros [[<- _]|[_ Hv]]%lookup_insert_Some; [done|]. apply O1 in Hv. congruence.
        + rewrite lookup_insert_ne by done. destruct (decide (v = vid)) as [->|Hv].
          * rewrite lookup_insert_eq. split; [|congruence]. intros Hxv. by destruct (O2 _ _ Hxv).
          * rewrite lookup_insert_ne by done. apply O1.
      - intros x v [[<- <-]|[_ Hx]]%lookup_insert_Some; [set_solver|]. destruct (O2 _ _ Hx). set_solver.
      - done.
      - intros x Hx. assert (x ≠ session) as Hne by (intros ->; done). rewrite lookup_insert_ne by done. apply O4.
        rewrite fmap_app in *. rewrite elem_of_app in *. destruct Hx; [by left|right; by right].
      - intros v [->%elem_of_singleton|Hv]%elem_of_union; [left; rewrite lookup_insert_eq; by eexists|].
        destruct (O5 v Hv) as [Hs|?]; [left|by right]. rewrite lookup_insert_is_Some. destruct (decide (vid = v)); auto. }
    eapply owned_bystander; [exact Hb1|]. apply (bystander_pending [JoinRoom vid session]).
  - split; cbn; try done.
    + intros x v Hx. destruct (O2 _ _ Hx). set_solver.
    + intros v [->%elem_of_singleton|Hv]%elem_of_union; rewrite elem_of_app; [right; right; by left|].
      destruct (O5 v Hv); [by left|right; by left].
Qed.

Lemma run_owned b reg joined : run b reg joined → owned b reg joined.
Proof.
  induction 1 as [b E1 E2 E3|b reg joined e ev b' _ IH Hr He|b reg joined session _ IH|b reg joined session name _ IH Hnew
    |b reg joined e vid name b' _ IH Hnew He|b reg joined name _ IH|b reg joined session _ IH].
  - split; rewrite ?E1, ?E2; try done. intros s Hs. by rewrite elem_of_list_to_set.
  - eapply owned_bystander; [exact IH|]. by eapply bystander_event.
  - by apply owned_left.
  - by apply owned_joined.
  - cbn [handle_event handle_rumble_envelope] in He. pose proof (owned_registered b reg joined vid name IH Hnew) as Ho.
    destruct (handle_participant_registered vid name b) as [b1 p]. by injection He as <-.
  - eapply owned_bystander; [exact IH|]. unfold register_client. destruct (existsb _ _); [by apply bystander_silent|].
    by destruct (mc_session <$> _); apply bystander_silent.
  - eapply owned_bystander; [exact IH|]. by apply bystander_silent.
Qed.


(** ** Voice and chat reach whom they should *)

(** The session a Rumble user speaks as: its own, or its proxy's. *)
Definition speaks_as (s : BridgeState) (sender session : N) : Prop :=
  reverse_virtual_user_map s !! sender = Some session ∨
  (reverse_virtual_user_map s !! sender = None ∧ id_of (users s) sender = Some session).

Lemma speaks_as_iff s sender session :
  opt_or (reverse_virtual_user_map s !! sender) (id_of (users s) sender) = Some session ↔ speaks_as s sender session.
Proof. unfold speaks_as, opt_or. destruct (reverse_virtual_user_map s !! sender); naive_solver. Qed.

(** Whether a client is sent what [sender] says: it is not [sender] itself, not
    deafened, and in the channel when the room is known. *)
Definition may_hear (s : BridgeState) (sender : N) (channel : option N) (c : N) : Prop :=
  reverse_virtual_user_map s !! sender ≠ Some c ∧
  match channel with
  | Some ch => ∃ cl, mumble_clients s !! c = Some cl ∧ mc_is_deafened cl = false ∧ mc_channel_id cl = ch
  | None => ∀ cl, mumble_clients s !! c = Some cl → mc_is_deafened cl = false
  end.

Lemma hears_iff s sender channel c :
  hears s (reverse_virtual_user_map s !! sender) channel c = true ↔ may_hear s sender channel c.
Proof.
  unfold hears, may_hear. case_bool_decide as E; [split; [done|by intros [? _]]|].
  destruct channel as [ch|]; destruct (mumble_clients s !! c) as [cl|].
  - rewrite Bool.andb_true_iff, Bool.negb_true_iff, N.eqb_eq. naive_solver.
  - naive_solver.
  - rewrite Bool.negb_true_iff. naive_solver.
  - naive_solver.
Qed.

Lemma elem_of_sent p m l x :
  x ∈ map (λ c : N, ToMumble c m) (retain p l) ↔ ∃ c, x = ToMumble c m ∧ c ∈ l ∧ p c = true.
Proof.
  change (map ?f ?l) with (f <$> l). rewrite list_elem_of_fmap. setoid_rewrite elem_of_retain. done.
Qed.

Lemma NoDup_sent p m l : NoDup l → NoDup (map (λ c : N, ToMumble c m) (retain p l)).
Proof.
  intros Hnd. change (map ?f ?l) with (f <$> l). apply NoDup_fmap_2; [by intros x y [= ->]|by apply NoDup_retain].
Qed.

(** A step that changes no shared state and sends, once each, what [P] says. *)
Definition sends_exactly (b b' : Bridge) (P : Effect → Prop) : Prop :=
  state b' = state b ∧ ∃ es, log b' = log b ++ es ∧ NoDup es ∧ ∀ x, x ∈ es ↔ P x.

Lemma sends_nothing b (P : Effect → Prop) : (∀ x, ¬ P x) → sends_exactly b b P.
Proof.
  intros HP. split; [done|]. exists []. rewrite app_nil_r. split_and!; [done|constructor|]. intros x.
  split; [by intros Hx%elem_of_nil|]. intros Hx. by destruct (HP x).
Qed.

Lemma sends_one b b' x (P : Effect → Prop) :
  state b' = state b → log b' = log b ++ [x] → (∀ y, P y ↔ y = x) → sends_exactly b b' P.
Proof.
  intros Es El HP. split; [done|]. exists [x]. split_and!; [done|apply NoDup_singleton|]. intros y.
  by rewrite list_elem_of_singleton, HP.
Qed.

(** What a datagram of the server becomes. *)
Definition relayed (b : Bridge) (d : Proto.VoiceDatagram) (x : Effect) : Prop :=
  ∃ c sender session,
    x = ToMumble c (Voice (MumbleVoice.encode_voice_packet session
          (wrap_u64 (default 0%N (rumble_outbound_seq (loop b) !! sender) + 2)) (Proto.vd_opus_data d) (Proto.vd_end_of_stream d))) ∧
    c ∈ client_senders (loop b) ∧ Proto.vd_sender_id d = Some sender ∧ speaks_as (state b) sender session ∧
    (Proto.vd_opus_data d ≠ [] ∨ Proto.vd_end_of_stream d = true) ∧
    may_hear (state b) sender ((Proto.vd_room_id d ≫= array_of_slice 16) ≫= id_of (channels (state b))) c.

(** What a voice packet of a Mumble client becomes. *)
Definition next_seq (b : Bridge) (session : N) : N := wrap_u32 (default 0%N (mumble_to_rumble_seq (loop b) !! session) + 1).
Definition packet_becomes (b : Bridge) (session vid : N) (voice : MumbleVoice.MumbleVoicePacket) (x : Effect) : Prop :=
  (MumbleVoice.target voice = 31%N ∧ session ∈ client_senders (loop b) ∧
   x = ToMumble session (Voice (MumbleVoice.encode_voice_packet session (MumbleVoice.sequence voice)
         (MumbleVoice.opus_data voice) (MumbleVoice.is_last voice)))) ∨
  (MumbleVoice.target voice = 0%N ∧
   x = SendDatagram (Proto.mkVoiceDatagram (MumbleVoice.opus_data voice) (next_seq b session) (next_seq b session * 20000)
         (MumbleVoice.is_last voice) (Some vid) None)).
Definition taken (b : Bridge) (session : N) (data : bytes) (x : Effect) : Prop :=
  ∃ vid voice,
    virtual_user_map (state b) !! session = Some vid ∧
    (∀ cl, mumble_clients (state b) !! session = Some cl → mc_is_muted cl = false) ∧
    MumbleVoice.parse_voice_packet data = Some voice ∧ packet_becomes b session vid voice x.

Lemma rumble_voice_sent b d : sends_exactly b (handle_rumble_voice d b) (relayed b d).
Proof.
  unfold handle_rumble_voice.
  destruct (is_empty (Proto.vd_opus_data d) && negb (Proto.vd_end_of_stream d)) eqn:Ee.
  { apply sends_nothing. intros x (c & sender & session & _ & _ & _ & _ & Hv & _).
    apply Bool.andb_true_iff in Ee as [E1 E2%Bool.negb_true_iff].
    destruct Hv as [Hv|Hv]; [by destruct (Proto.vd_opus_data d)|congruence]. }
  destruct (Proto.vd_sender_id d) as [sender|] eqn:Ed; [|apply sends_nothing; intros x (? & ? & ? & _ & _ & ? & _); congruence].
  destruct (opt_or _ _) as [session|] eqn:Es.
  - split; [done|]. eexists. split; [done|]. split; [apply NoDup_sent, NoDup_elements|]. intros x.
    rewrite elem_of_sent. setoid_rewrite elem_of_elements. setoid_rewrite hears_iff. split.
    + intros (c & -> & Hc & Hh). apply speaks_as_iff in Es. exists c, sender, session. split_and!; try done.
      apply Bool.andb_false_iff in Ee as [Ee|Ee%Bool.negb_false_iff]; [left|by right]. by intros E; rewrite E in Ee.
    + intros (c & sender' & session' & -> & Hc & Ed' & Hs' & _ & Hh). exists c.
      assert (sender' = sender) as -> by congruence. apply speaks_as_iff in Hs'.
      assert (session' = session) as -> by congruence. done.
  - apply sends_nothing. intros x (c & sender' & session' & _ & _ & Ed' & Hs%speaks_as_iff & _). congruence.
Qed.

Lemma mumble_voice_sent b session data : sends_exactly b (on_mumble_voice session data b) (taken b session data).
Proof.
  unfold on_mumble_voice. destruct (default false (mc_is_muted <$> mumble_clients (state b) !! session)) eqn:Em.
  { apply sends_nothing. intros x (vid & voice & _ & Hm & _).
    destruct (mumble_clients (state b) !! session) as [cl|]; [|done]. cbn in Em. rewrite (Hm cl) in Em by done. done. }
  assert (∀ cl, mumble_clients (state b) !! session = Some cl → mc_is_muted cl = false) as Hm by (intros cl E; by rewrite E in Em).
  destruct (virtual_user_map (state b) !! session) as [vid|] eqn:Ev;
    [|apply sends_nothing; intros x (? & ? & ? & _); congruence].
  destruct (MumbleVoice.parse_voice_packet data) as [voice|] eqn:Ep;
    [|apply sends_nothing; intros x (? & ? & _ & _ & ? & _); congruence].
  assert (∀ x, taken b session data x ↔ packet_becomes b session vid voice x) as Htaken.
  { intros x. split; [intros (vid' & voice' & E1 & _ & E2 & Hx)|intros Hx; by exists vid, voice].
    assert (vid' = vid) as -> by congruence. by assert (voice' = voice) as -> by congruence. }
  unfold packet_becomes in Htaken.
  destruct (N.eqb_spec (MumbleVoice.target voice) 31) as [Et|Et].
  - unfold send_to_mumble_session. case_bool_decide as Hc.
    + eapply sends_one; [done|done|]. intros y. rewrite Htaken, Et. naive_solver.
    + apply sends_nothing. intros x. rewrite Htaken, Et. naive_solver.
  - destruct (N.eqb_spec (MumbleVoice.target voice) 0) as [E0|E0]; cbn [negb].
    + eapply sends_one; [done|done|]. intros y. rewrite Htaken, E0. naive_solver.
    + apply sends_nothing. intros x. rewrite Htaken. naive_solver.
Qed.

(** C18: Voice crosses the bridge to the right listeners.  A datagram of the server
    is sent, once each, to exactly the connected Mumble clients that are not its
    author and not deafened and, when its room is known, are in that channel,
    under the author's session and the next sequence number; one without audio
    or whose author is unknown goes to nobody.  A packet of a Mumble client
    becomes a datagram in the name of its participant, or an echo to itself for
    the loopback target, and is dropped when the client is muted, is not
    registered, whispers, or sends something that is no voice packet; the
    datagrams of a session are numbered one after the other. *)
Theorem bridge_voice_spec b :
  (∀ d, sends_exactly b (handle_rumble_voice d b) (relayed b d)) ∧
  (∀ session data, sends_exactly b (on_mumble_voice session data b) (taken b session data)) ∧
  (∀ session data d, taken b session data (SendDatagram d) →
     let b' := on_mumble_voice session data b in
     Proto.vd_sequence d = next_seq b session ∧ next_seq b' session = wrap_u32 (Proto.vd_sequence d + 1) ∧
     ∀ other, other ≠ session → next_seq b' other = next_seq b other).
Proof.
  split; [apply rumble_voice_sent|]. split; [apply mumble_voice_sent|].
  intros session data d (vid & voice & Ev & Hm & Ep & [(_ & _ & ?)|(E0 & [= ->])]); [done|]. unfold on_mumble_voice.
  assert (default false (mc_is_muted <$> mumble_clients (state b) !! session) = false) as ->.
  { destruct (mumble_clients (state b) !! session) as [cl|]; [|done]. by apply Hm. }
  rewrite Ev, Ep, E0. cbn. unfold next_seq. cbn. rewrite lookup_insert_eq. split_and!; [done|done|].
  intros other Hne. by rewrite lookup_insert_ne.
Qed.

(** Channel [root] or one whose room lies below it. *)
Definition subtree (s : BridgeState) (root c : N) : Prop :=
  c = root ∨ ∃ u r, channel_uuid (channels s) root = Some u ∧ Voice.descendant (rumble_rooms s) u r ∧ r ≠ u ∧
    id_of (channels s) r = Some c.

Lemma elem_of_subtree s root c :
  c ∈ collect_subtree_channels (rumble_rooms s) (channels s) root ↔ subtree s root c.
Proof.
  unfold collect_subtree_channels, subtree. destruct (channel_uuid (channels s) root) as [u|].
  - rewrite elem_of_union, elem_of_singleton, elem_of_list_to_set, list_elem_of_omap. setoid_rewrite elem_of_elements.
    setoid_rewrite elem_of_difference. setoid_rewrite elem_of_singleton.
    change (Voice.bfs (S (List.length (rumble_rooms s))) (Voice.children_map (rumble_rooms s)) {[u]} [u])
      with (Voice.collect_descendant_rooms (rumble_rooms s) u). setoid_rewrite Voice.collect_descendant_rooms_elem.
    split; (intros [?|Hx]; [by left|right]).
    + destruct Hx as (r & [Hd Hne] & Hi). by exists u, r.
    + destruct Hx as (u' & r & [= <-] & Hd & Hne & Hi). by exists r.
  - rewrite elem_of_singleton. split; [by left|]. by intros [?|(? & ? & ? & _)].
Qed.

Lemma in_channels_iff s target c :
  in_channels s target c = true ↔ ∃ cl, mumble_clients s !! c = Some cl ∧ mc_channel_id cl ∈ target.
Proof.
  unfold in_channels. destruct (mumble_clients s !! c) as [cl|]; [rewrite bool_decide_eq_true|]; naive_solver.
Qed.

(** Whom a line from [session] is meant for: its channel, or the listed subtrees. *)
Definition meant_for (s : BridgeState) (session : N) (trees : list N) (channel : N) : Prop :=
  match trees with
  | [] => channel = default 0%N (mc_channel_id <$> mumble_clients s !! session)
  | _ => ∃ t, t ∈ trees ∧ subtree s t channel
  end.

Lemma chat_scope_iff s session trees channel :
  channel ∈ (chat_scope s session trees).2 ↔ meant_for s session trees channel.
Proof.
  destruct trees as [|t trees]; cbn [chat_scope snd meant_for]; [apply elem_of_singleton|].
  rewrite elem_of_union_list. change (map ?f ?l) with (f <$> l). setoid_rewrite list_elem_of_fmap. split.
  - intros (X & (t' & -> & Ht) & Hc%elem_of_subtree). by exists t'.
  - intros (t' & Ht & Hc%elem_of_subtree). eexists. split; [by exists t'|done].
Qed.

(** What a line of a Mumble client becomes on the server's side. *)
Definition chat_to_server (config : BridgeConfig) (fresh : nat → bytes) (now_ms : Z) (s : BridgeState) (session : N)
    (message : string) (trees : list N) (p : Proto.ClientPayload) : Prop :=
  let tree := match trees with [] => None | _ => Some true end in
  (∃ vid room, virtual_user_map s !! session = Some vid ∧
     p = Proto.PParticipantChat (Proto.mkParticipantChat vid message room tree) ∧
     match trees with
     | [] => room = None
     | t :: _ => room = Types.room_id_from_uuid <$> channel_uuid (channels s) t
     end) ∨
  (virtual_user_map s !! session = None ∧ ∃ name,
     (∀ cl, mumble_clients s !! session = Some cl → name = mc_username cl) ∧
     p = Proto.PChatMessage (Proto.mkChatMessage (fresh 0) now_ms (bridge_name config)
           ("[" ++ name ++ "] " ++ message)%string tree None)).

Lemma send_room_chat_spec config fresh now_ms session message trees b :
  ∃ p, send_room_chat config fresh now_ms session message trees b = emit [ToRumble p] b ∧
    chat_to_server config fresh now_ms (state b) session message trees p.
Proof.
  unfold send_room_chat, chat_to_server. destruct (virtual_user_map (state b) !! session) as [vid|].
  - eexists. split; [done|]. left. by destruct trees; eexists _, _.
  - eexists. split; [done|]. right. split; [done|].
    exists (match mumble_clients (state b) !! session with Some c => mc_username c | None => ("session-" ++ pretty session)%string end).
    split; [by intros cl ->|]. by destruct trees.
Qed.

(** The Rumble user a Mumble session stands for. *)
Definition stands_for (s : BridgeState) (session id : N) : Prop :=
  virtual_user_map s !! session = Some id ∨
  (virtual_user_map s !! session = None ∧ key_of (users s) session = Some id).

Lemma stands_for_iff s session id :
  opt_or (virtual_user_map s !! session) (key_of (users s) session) = Some id ↔ stands_for s session id.
Proof. unfold stands_for, opt_or. destruct (virtual_user_map s !! session); naive_solver. Qed.

(** Chat crosses the bridge within its scope.  A private message of a Mumble
    client goes only to the server, addressed to exactly the Rumble users its
    targets stand for.  Any other line goes to the server once, as its
    participant or, before it is registered, under the bridge's name with a
    prefix, and to exactly the other connected Mumble clients in its channel, or
    in the subtrees it names.  A line of the server goes to exactly the
    connected Mumble clients in the author's channel, or in the subtree below
    it for a tree message, and to all of them when the author is unknown. *)
Theorem bridge_chat_spec config fresh now_ms b :
  (∀ session message targets trees, targets ≠ [] →
     ∃ es, on_mumble_chat config fresh now_ms session message targets trees b = emit es b ∧
       (∀ x, x ∈ es → ∃ i id t, x = ToRumble (Proto.PDirectMessage (Proto.mkDirectMessage id message (fresh i) now_ms)) ∧
          t ∈ targets ∧ stands_for (state b) t id) ∧
       (∀ t id, t ∈ targets → stands_for (state b) t id →
          ∃ i, ToRumble (Proto.PDirectMessage (Proto.mkDirectMessage id message (fresh i) now_ms)) ∈ es)) ∧
  (∀ session message trees, ∃ p origin es,
     on_mumble_chat config fresh now_ms session message [] trees b = emit (ToRumble p :: es) b ∧
     chat_to_server config fresh now_ms (state b) session message trees p ∧ meant_for (state b) session trees origin ∧
     NoDup es ∧
     ∀ x, x ∈ es ↔ ∃ c cl, x = ToMumble c (TextMessage (Some session) [origin] (Some message)) ∧
       c ∈ client_senders (loop b) ∧ c ≠ session ∧ mumble_clients (state b) !! c = Some cl ∧
       meant_for (state b) session trees (mc_channel_id cl)) ∧
  (∀ cb, ∃ m es, handle_chat_broadcast cb b = emit es b ∧ NoDup es ∧
     ∀ x, x ∈ es ↔ ∃ c, x = ToMumble c m ∧ c ∈ client_senders (loop b) ∧
       match resolve_chat_sender_channel (state b) (Proto.cb_sender_id cb) (Proto.cb_sender cb) with
       | Some channel => ∃ cl, mumble_clients (state b) !! c = Some cl ∧
           if default false (Proto.cb_tree cb) then subtree (state b) channel (mc_channel_id cl)
           else mc_channel_id cl = channel
       | None => True
       end).
Proof.
  split_and!.
  - intros session message targets trees Hne. unfold on_mumble_chat.
    assert (negb (is_empty targets) = true) as -> by (by destruct targets). unfold send_private.
    set (ids := omap _ targets). eexists. split; [done|]. split.
    + intros x [i Hx]%list_elem_of_lookup. rewrite list_lookup_imap in Hx.
      destruct (ids !! i) as [id|] eqn:Ei; [|done]. cbn in Hx. injection Hx as <-.
      apply list_elem_of_lookup_2, list_elem_of_omap in Ei as (t & Ht & E%stands_for_iff). by exists i, id, t.
    + intros t id Ht Hs%stands_for_iff. assert (id ∈ ids) as [i Hi]%list_elem_of_lookup.
      { apply list_elem_of_omap. by exists t. }
      exists i. apply list_elem_of_lookup. exists i. by rewrite list_lookup_imap, Hi.
  - intros session message trees. unfold on_mumble_chat. cbn [is_empty negb].
    destruct (send_room_chat_spec config fresh now_ms session message trees b) as (p & -> & Hp).
    assert (meant_for (state b) session trees (chat_scope (state b) session trees).1) as Ho.
    { destruct trees as [|t trees]; [done|]. exists t. split; [by left|by left]. }
    pose proof (chat_scope_iff (state b) session trees) as Hscope. cbn [emit state].
    destruct (chat_scope (state b) session trees) as [origin target]. cbn [fst snd] in Ho, Hscope.
    exists p, origin. eexists. split; [unfold send_where, emit; cbn; by rewrite <- app_assoc|].
    split_and!; [done|done|apply NoDup_sent, NoDup_elements|]. intros x. rewrite elem_of_sent.
    setoid_rewrite elem_of_elements. setoid_rewrite Bool.andb_true_iff. setoid_rewrite Bool.negb_true_iff.
    setoid_rewrite N.eqb_neq. setoid_rewrite in_channels_iff. setoid_rewrite Hscope. naive_solver.
  - intros cb. unfold handle_chat_broadcast. destruct (resolve_chat_sender_channel _ _ _) as [channel|].
    + eexists _, _. split; [done|]. split; [apply NoDup_sent, NoDup_elements|]. intros x. rewrite elem_of_sent.
      setoid_rewrite elem_of_elements. setoid_rewrite in_channels_iff. unfold chat_targets.
      destruct (default false (Proto.cb_tree cb)); [setoid_rewrite elem_of_subtree|setoid_rewrite elem_of_singleton]; done.
    + eexists _, _. split; [done|]. split; [apply NoDup_sent, NoDup_elements|]. intros x. rewrite elem_of_sent.
      setoid_rewrite elem_of_elements. naive_solver.
Qed.

(** ** Examples *)


(** A client that connected while the bridge had no server is registered twice:
    by the reconnect, and when its queued event is processed.  The first
    participant is never removed. *)
Definition sample_reconnect : option Bridge :=
  play [MumbleClientJoined 1000 "ann"; registered 501 "ann"; registered 502 "ann"; MumbleClientLeft 1000]%string
    (on_reconnect 7 (mkBridge (register_client "ann" BridgeState_new).2 BridgeLoopState_new [])).
Definition unregisters (vid : N) (e : Effect) : bool :=
  match e with ToRumble (Proto.PUnregisterParticipant v) => (v =? vid)%N | _ => false end.
Example twice_registered :
  (λ b, (existsb (unregisters 501) (log b), existsb (unregisters 502) (log b), map_to_list (virtual_user_map (state b))))
    <$> sample_reconnect = Some (false, true, []).
Proof. vm_compute. reflexivity. Qed.

(** Ann, registered as 501, says [00 01 02] twice; the second packet gets the next
    number. *)
Definition sample_packet : bytes := [Byte.x80; Byte.x05; Byte.x03; Byte.x00; Byte.x01; Byte.x02].
Lemma bridge_voice_spec_witness :
  ∃ d, taken sample_ann 1000 sample_packet (SendDatagram d) ∧ Proto.vd_sender_id d = Some 501%N ∧
    Proto.vd_sequence d = next_seq sample_ann 1000 ∧
    next_seq (on_mumble_voice 1000 sample_packet sample_ann) 1000 = 2%N.
Proof.
  assert (taken sample_ann 1000 sample_packet (SendDatagram (Proto.mkVoiceDatagram [Byte.x00; Byte.x01; Byte.x02] 1 20000 false (Some 501%N) None))) as Ht.
  { exists 501%N, (MumbleVoice.mkPacket 0 5 [Byte.x00; Byte.x01; Byte.x02] false). split; [vm_compute; reflexivity|].
    split; [|split; [vm_compute; reflexivity|right; split; vm_compute; reflexivity]].
    intros cl E. vm_compute in E. discriminate E. }
  destruct (proj2 (proj2 (bridge_voice_spec sample_ann)) _ _ _ Ht) as (E1 & E2 & _).
  eexists. split; [exact Ht|]. split; [reflexivity|]. split; [exact E1|]. rewrite E2. reflexivity.
Defined.

(** Nobody knows Zoe: everyone hears her. *)
Definition sample_line : Proto.ChatBroadcast := Proto.mkChatBroadcast [] 0 "zoe" "hello" None None 0.
Lemma bridge_chat_spec_witness :
  ∃ m es, handle_chat_broadcast sample_line sample_ready = emit es sample_ready ∧ NoDup es ∧ ToMumble 1000 m ∈ es.
Proof.
  destruct (proj2 (proj2 (bridge_chat_spec sample_config (λ _, []) 0 sample_ready)) sample_line) as (m & es & E & Hnd & Hx).
  exists m, es. split; [exact E|]. split; [exact Hnd|]. apply Hx. exists 1000%N. split; [reflexivity|].
  split; [by apply (bool_decide_unpack _); vm_compute|].
  assert (resolve_chat_sender_channel (state sample_ready) (Proto.cb_sender_id sample_line) (Proto.cb_sender sample_line) = None) as ->
    by (vm_compute; reflexivity).
  exact I.
Defined.
End BridgeTraffic.
