(* ===== verification/Relay.v ===== *)
(** The file relay of the server: [crates/server/src/relay_plugin.rs], with the
    frames of [plugin.rs] it answers with.

    Uploads, fetches, departures and the expiry sweep run at the same time and
    share the cache and the byte counter.  Each of them is a [Task]: a program
    counter that moves at one access to the shared state, or at one [await], per
    step; [step] interleaves the tasks in every order.  An [await] ends with an
    [Input]: the world in which permissions were evaluated, what arrived on the
    stream, or the end of a write.  A compare-and-swap loop is one access.  A
    task that returns early, or is cancelled at an [await], drops its
    [QuotaGuard].

    [Uuid::parse_str], the [Display] of [Uuid] and of [ByteSize] are
    parameters. *)
From Stdlib Require Import NArith Lia String.
From stdpp Require Import base gmap strings list pretty relations.
From S2P Require Import Prelude Permissions Proto Types Store Persistence State World Acl Session.

Module Relay.

(** ** Messages of a relay stream ([proto/api.proto]) *)

Record RelayUpload := mkRelayUpload {
  up_transfer_id : string; up_room_id : string; up_file_name : string; up_file_size : N; up_mime : string }.

Inductive RelayResult := ResultOk | ResultNotFound | ResultTooLarge | ResultError.
Inductive PluginAckStatus := AckOk | AckRejected.

Record PluginStreamAck := mkAck { ack_status : PluginAckStatus; ack_code : N; ack_error : string }.
Record RelayUploadResponse := mkUploadResponse { ur_status : RelayResult; ur_error : string }.
Record RelayFetchResponse := mkFetchResponse {
  fr_status : RelayResult; fr_file_name : string; fr_file_size : N; fr_mime : string; fr_error : string }.

(** What is written to the stream: length-prefixed messages, raw bytes, and the
    calls [recv.stop] and [send.finish]. *)
Inductive Out :=
  | Ack (a : PluginStreamAck)
  | StopRecv (code : N)
  | UploadResponse (r : RelayUploadResponse)
  | FetchResponse (r : RelayFetchResponse)
  | Raw (data : bytes)
  | Finish.

Definition REJECT_CODE_TOO_LARGE : N := 1.
Definition REJECT_CODE_CACHE_FULL : N := 2.
Definition REJECT_CODE_FORBIDDEN : N := 4.
Definition REJECT_CODE_DUPLICATE_ID : N := 5.

Definition send_plugin_ack_ok : Out := Ack (mkAck AckOk 0 "").
Definition reject_plugin_stream (code : N) (error : string) : list Out :=
  [Ack (mkAck AckRejected code error); StopRecv code].

(** ** The cache and its quota *)

Record CachedFile := mkCachedFile {
  cf_room_id : string; cf_file_name : string; cf_file_size : N; cf_mime : string; cf_data : bytes; cf_created_at : N }.

Record RelayCacheConfig := mkConfig {
  ttl : N; evict_on_room_clear : bool; max_total_size : N; max_file_size : N }.

Definition mib (n : N) : N := n * 1048576.
Definition RelayCacheConfig_default : RelayCacheConfig :=
  mkConfig (30 * 60 * 1000000000) true (mib 1024) (mib 256).

Record FileTransferRelayPlugin := mkRelay {
  cache : gmap string CachedFile; config : RelayCacheConfig; total_cached : N; cancelled : bool }.

Definition with_config (config : RelayCacheConfig) : FileTransferRelayPlugin := mkRelay ∅ config 0 false.

Definition set_cache (c : gmap string CachedFile) (r : FileTransferRelayPlugin) : FileTransferRelayPlugin :=
  mkRelay c (config r) (total_cached r) (cancelled r).
Definition set_total (n : N) (r : FileTransferRelayPlugin) : FileTransferRelayPlugin :=
  mkRelay (cache r) (config r) n (cancelled r).

(** [saturating_sub] is the subtraction of [N]. *)
Definition release_quota (amount : N) (r : FileTransferRelayPlugin) : FileTransferRelayPlugin :=
  set_total (total_cached r - amount) r.

(** [checked_add], then the bound. *)
Definition try_reserve (amount : N) (r : FileTransferRelayPlugin) : option FileTransferRelayPlugin :=
  let next := (total_cached r + amount)%N in
  if (u64_max <? next)%N then None
  else if (max_total_size (config r) <? next)%N then None
  else Some (set_total next r).

(** [cache.remove(tid)] and the release that follows it. *)
Definition evict (tid : string) (r : FileTransferRelayPlugin) : FileTransferRelayPlugin :=
  match cache r !! tid with
  | Some cached => release_quota (cf_file_size cached) (set_cache (delete tid (cache r)) r)
  | None => r
  end.

Definition keys_where (p : CachedFile → bool) (r : FileTransferRelayPlugin) : list string :=
  (filter (λ e : string * CachedFile, p e.2 = true) (map_to_list (cache r))).*1.

Definition room_entries (room_id : string) : FileTransferRelayPlugin → list string :=
  keys_where (λ f, bool_decide (cf_room_id f = room_id)).

(** [now.duration_since(created_at)] saturates at zero. *)
Definition expired (now : N) (r : FileTransferRelayPlugin) : list string :=
  keys_where (λ f, (ttl (config r) <? now - cf_created_at f)%N) r.

(** ** Tasks *)

Inductive Pc :=
  | AwaitType
  | AwaitUpload
  | CheckUpload (u : RelayUpload)
  | AuthorizeUpload (u : RelayUpload) (room : Types.Uuid)
  | ReserveUpload (u : RelayUpload)
  | Admitting (u : RelayUpload)
  | Receiving (u : RelayUpload) (data : bytes)
  | Storing (u : RelayUpload) (data : bytes)
  | AwaitFetch
  | LookUpRoom (tid : string)
  | AuthorizeFetch (tid : string) (room : Types.Uuid)
  | LookUpFile (tid : string) (authorized : bool)
  | Answering (guard : N) (outs : list Out)
  | Closed.

(** What the [QuotaGuard] of the task, if it has one, gives back when dropped. *)
Definition held (pc : Pc) : N :=
  match pc with
  | Admitting u | Receiving u _ | Storing u _ => up_file_size u
  | Answering guard _ => guard
  | _ => 0
  end.

Inductive Task :=
  | Stream (user : N) (pc : Pc)
  | Leaving (user : N)
  | LeavingRoom (user : N) (room : Types.Uuid)
  | Sweep
  | Evicting (keys : list string).

Definition task_held (t : Task) : N := match t with Stream _ pc => held pc | _ => 0 end.

Section relay.
Context {T : Type} `{!KV T} `{!Persist.Codecs} `{!External}.
Abbreviation W := (Wld.World T).
Context (parse_uuid : string → option Types.Uuid) (uuid_string : Types.Uuid → string) (size_string : N → string).

Inductive Input :=
  | Go
  | At (now : N)
  | TypeByte (b : byte)
  | UploadMsg (u : RelayUpload)
  | FetchMsg (tid : string)
  | World (w : W)
  | Chunk (b : bytes)
  | Eof
  | Stall
  | Written
  | Failed
  | Snapshot (d : option St.StateData)
  | Cancel.

(** What a run leaves behind: evaluations of permissions, bytes received, files
    stored and served, writes. *)
Inductive Event :=
  | Evaluated (w : W) (user : N) (room : Types.Uuid)
  | Received (b : bytes)
  | Stored (tid : string) (f : CachedFile)
  | Served (tid : string) (f : CachedFile)
  | Sent (o : Out).

(** *** [handle_upload], one definition per segment *)

Definition check_upload (u : RelayUpload) (r : FileTransferRelayPlugin) : Pc :=
  if (max_file_size (config r) <? up_file_size u)%N then
    Answering 0 (reject_plugin_stream REJECT_CODE_TOO_LARGE
      ("file too large: " ++ pretty (up_file_size u) ++ " bytes (max " ++ size_string (max_file_size (config r)) ++ ")"))
  else if bool_decide (is_Some (cache r !! up_transfer_id u)) then
    Answering 0 (reject_plugin_stream REJECT_CODE_DUPLICATE_ID "transfer id already in use")
  else match parse_uuid (up_room_id u) with
       | None => Answering 0 (reject_plugin_stream REJECT_CODE_FORBIDDEN ("invalid room id: " ++ up_room_id u))
       | Some room_uuid => AuthorizeUpload u room_uuid
       end.

Definition authorize_upload (u : RelayUpload) (perms : Perm.Permissions) : Pc :=
  if negb (Perm.contains perms Perm.TEXT_MESSAGE) then
    Answering 0 (reject_plugin_stream REJECT_CODE_FORBIDDEN ("not permitted to upload to room " ++ up_room_id u))
  else ReserveUpload u.

Definition reserve_upload (u : RelayUpload) (r : FileTransferRelayPlugin) : Pc * FileTransferRelayPlugin :=
  match try_reserve (up_file_size u) r with
  | None => (Answering 0 (reject_plugin_stream REJECT_CODE_CACHE_FULL "server cache full"), r)
  | Some r => (Admitting u, r)
  end.

(** The test of [while remaining > 0]. *)
Definition read_on (u : RelayUpload) (data : bytes) : Pc :=
  if (0 <? up_file_size u - N.of_nat (List.length data))%N then Receiving u data else Storing u data.

Definition upload_failed (u : RelayUpload) (error : string) : Pc :=
  Answering (up_file_size u) [UploadResponse (mkUploadResponse ResultError error)].

Definition progress (u : RelayUpload) (data : bytes) : string :=
  pretty (N.of_nat (List.length data)) ++ " of " ++ pretty (up_file_size u) ++ " bytes".

Definition to_read (u : RelayUpload) (data : bytes) : N :=
  N.min (up_file_size u - N.of_nat (List.length data)) (64 * 1024).

Definition store_upload (now : N) (u : RelayUpload) (data : bytes) (r : FileTransferRelayPlugin)
    : Pc * FileTransferRelayPlugin * list Event :=
  let actual_size := N.of_nat (List.length data) in
  match cache r !! up_transfer_id u with
  | Some _ => (upload_failed u "transfer id already in use", r, [])
  | None =>
      let f := mkCachedFile (up_room_id u) (up_file_name u) actual_size (up_mime u) data now in
      (Answering 0 [UploadResponse (mkUploadResponse ResultOk "")],
       set_cache (<[up_transfer_id u := f]> (cache r)) r, [Stored (up_transfer_id u) f])
  end.

(** *** [handle_fetch] *)

Definition look_up_room (tid : string) (r : FileTransferRelayPlugin) : Pc :=
  match cf_room_id <$> cache r !! tid with
  | Some room_id_str => match parse_uuid room_id_str with
                        | Some room_uuid => AuthorizeFetch tid room_uuid
                        | None => LookUpFile tid false
                        end
  | None => LookUpFile tid false
  end.

Definition file_head (f : CachedFile) : RelayFetchResponse :=
  mkFetchResponse ResultOk (cf_file_name f) (cf_file_size f) (cf_mime f) "".
Definition not_found : RelayFetchResponse :=
  mkFetchResponse ResultNotFound "" 0 "" "transfer not found or expired".

Definition look_up_file (tid : string) (authorized : bool) (r : FileTransferRelayPlugin) : Pc * list Event :=
  match (if authorized then cache r !! tid else None) with
  | Some f => (Answering 0 [FetchResponse (file_head f); Raw (cf_data f); Finish], [Served tid f])
  | None => (Answering 0 [FetchResponse not_found; Finish], [])
  end.

(** A write or [finish] can fail; the result of [recv.stop] is ignored. *)
Definition fallible (o : Out) : bool := match o with StopRecv _ => false | _ => true end.

(** *** One step of a stream ([on_stream] and the two handlers) *)

Definition stream_step (user : N) (i : Input) (pc : Pc) (r : FileTransferRelayPlugin)
    : option (Pc * FileTransferRelayPlugin * list Event) :=
  match pc, i with
  | AwaitType, TypeByte b =>
      Some (if (N_of_byte b =? 1)%N then AwaitUpload else if (N_of_byte b =? 2)%N then AwaitFetch else Closed, r, [])
  | AwaitUpload, UploadMsg u => Some (CheckUpload u, r, [])
  | CheckUpload u, Go => Some (check_upload u r, r, [])
  | AuthorizeUpload u room, World w =>
      Some (authorize_upload u (Acl.evaluate_user_permissions w user room), r, [Evaluated w user room])
  | ReserveUpload u, Go => let '(pc, r) := reserve_upload u r in Some (pc, r, [])
  | Admitting u, Written => Some (read_on u [], r, [Sent send_plugin_ack_ok])
  | Receiving u data, Chunk b =>
      if (to_read u data <? N.of_nat (List.length b))%N then None
      else Some (read_on u (data ++ b), r, [Received b])
  | Receiving u data, Stall => Some (upload_failed u ("upload stalled after " ++ progress u data), r, [])
  | Receiving u data, Eof => Some (upload_failed u ("stream closed after " ++ progress u data), r, [])
  | Storing u data, At now => Some (store_upload now u data r)
  | AwaitFetch, FetchMsg tid => Some (LookUpRoom tid, r, [])
  | LookUpRoom tid, Go => Some (look_up_room tid r, r, [])
  | AuthorizeFetch tid room, World w =>
      Some (LookUpFile tid (Perm.contains (Acl.evaluate_user_permissions w user room) Perm.ENTER), r,
            [Evaluated w user room])
  | LookUpFile tid authorized, Go => let '(pc, es) := look_up_file tid authorized r in Some (pc, r, es)
  | Answering guard (o :: outs), Written => Some (Answering guard outs, r, [Sent o])
  | Answering guard [], Go => Some (Closed, release_quota guard r, [])
  | Answering guard (o :: _), Failed => if fallible o then Some (Closed, release_quota guard r, []) else None
  | (AwaitType | AwaitUpload | Admitting _ | Receiving _ _ | AwaitFetch), Failed =>
      Some (Closed, release_quota (held pc) r, [])
  | (AwaitUpload | AuthorizeUpload _ _ | Admitting _ | Receiving _ _ | AwaitFetch | AuthorizeFetch _ _
     | Answering _ (_ :: _)), Cancel => if cancelled r then Some (Closed, release_quota (held pc) r, []) else None
  | _, _ => None
  end.

(** *** Departures, expiry, and the tasks together *)

(** [snapshot_state_sync]: empty when the write lock is held. *)
Definition snapshot_state_sync (d : option St.StateData) : St.StateData := default (St.mkStateData [] [] []) d.

Definition remaining (user : N) (members : list N) : nat :=
  List.length (List.filter (λ uid, negb (uid =? user)%N) members).

Definition leaving_step (user : N) (d : option St.StateData) (r : FileTransferRelayPlugin) : Task :=
  if evict_on_room_clear (config r) then
    match St.get_user_room (snapshot_state_sync d) user with
    | Some room_id => LeavingRoom user room_id
    | None => Evicting []
    end
  else Evicting [].

Definition leaving_room_step (user : N) (room_id : Types.Uuid) (d : option St.StateData)
    (r : FileTransferRelayPlugin) : Task :=
  if Nat.eqb (remaining user (St.get_room_members (snapshot_state_sync d) room_id)) 0
  then Evicting (room_entries (uuid_string room_id) r) else Evicting [].

Definition task_step (i : Input) (t : Task) (r : FileTransferRelayPlugin)
    : option (Task * FileTransferRelayPlugin * list Event) :=
  match t, i with
  | Stream user pc, _ => '(pc, r, es) ← stream_step user i pc r; Some (Stream user pc, r, es)
  | Leaving user, Snapshot d => Some (leaving_step user d r, r, [])
  | LeavingRoom user room, Snapshot d => Some (leaving_room_step user room d r, r, [])
  | Sweep, At now => Some (Evicting (expired now r), r, [])
  | Evicting (tid :: keys), Go => Some (Evicting keys, evict tid r, [])
  | _, _ => None
  end.

(** How a task begins: a stream routed to the plugin, a client that disconnects, a
    tick of the sweep. *)
Inductive Starts : Task → Prop :=
  | starts_stream user : Starts (Stream user AwaitType)
  | starts_leaving user : Starts (Leaving user)
  | starts_sweep : Starts Sweep.

Record System := mkSystem { relay : FileTransferRelayPlugin; tasks : gmap N Task; log : list (N * Event) }.

(** [stop] cancels the token. *)
Definition stop (s : System) : System :=
  mkSystem (mkRelay (cache (relay s)) (config (relay s)) (total_cached (relay s)) true) (tasks s) (log s).

Definition start (k : N) (t : Task) (s : System) : System := mkSystem (relay s) (<[k := t]> (tasks s)) (log s).

(** Task [k] takes a step. *)
Definition run (k : N) (i : Input) (s : System) : option System :=
  t ← tasks s !! k;
  '(t, r, es) ← task_step i t (relay s);
  Some (mkSystem r (<[k := t]> (tasks s)) (log s ++ ((k,.) <$> es))).

Inductive step (s : System) : System → Prop :=
  | step_start k t : tasks s !! k = None → Starts t → step s (start k t s)
  | step_run k i s' : run k i s = Some s' → step s s'
  | step_stop : step s (stop s).

Definition initial (config : RelayCacheConfig) : System := mkSystem (with_config config) ∅ [].

(** A schedule, for running the system. *)
Fixpoint play (l : list (N * Input)) (s : System) : option System :=
  match l with
  | [] => Some s
  | (k, i) :: l => s ← run k i s; play l s
  end.

End relay.

Arguments Input T : clear implicits.
Arguments Event T : clear implicits.
Arguments System T : clear implicits.

End Relay.
