(* ===== verification/RelayFacts.v ===== *)
(** What holds of the file relay (Relay.v) at every point of every interleaving:
    its memory is bounded and accounted for ([relay_bounded]), it keeps what was
    admitted ([relay_keeps_what_was_admitted]), downloads are confined
    ([relay_downloads_confined]), and what is uploaded is what is downloaded
    ([relay_round_trip]). *)
From Stdlib Require Import NArith Lia String Strings.Byte.
From stdpp Require Import base gmap strings list pretty relations.
From S2P Require Import Prelude Permissions Proto Types Store Persistence State World Acl Session Relay.

Module RelayFacts.
Import Relay.

(** ** What holds at every point of every interleaving *)

Section facts.
Context {T : Type} `{!KV T} `{!Persist.Codecs} `{!External}.
Abbreviation W := (Wld.World T).
Context (parse_uuid : string → option Types.Uuid) (uuid_string : Types.Uuid → string) (size_string : N → string).
Abbreviation Log := (list (N * Event T)).
#[local] Abbreviation stream_step := (stream_step parse_uuid size_string).
#[local] Abbreviation task_step := (task_step parse_uuid uuid_string size_string).
#[local] Abbreviation step := (step parse_uuid uuid_string size_string).

Definition may (p : Perm.Permissions) (w : W) (user : N) (room : Types.Uuid) : Prop :=
  Perm.contains (Acl.evaluate_user_permissions w user room) p = true.

(** Stream [k] was allowed [p] in a room written [room_id]. *)
Definition allowed (L : Log) (k user : N) (p : Perm.Permissions) (room_id : string) : Prop :=
  ∃ room w, parse_uuid room_id = Some room ∧ (k, Evaluated w user room) ∈ L ∧ may p w user room.

(** Bytes received by stream [k], in order. *)
Definition received (k : N) (L : Log) : bytes :=
  List.concat (omap (λ e, match e with (j, Received b) => if (j =? k)%N then Some b else None | _ => None end) L).

Definition admitted (conf : RelayCacheConfig) (L : Log) (k user : N) (u : RelayUpload) : Prop :=
  (up_file_size u ≤ max_file_size conf)%N ∧ allowed L k user Perm.TEXT_MESSAGE (up_room_id u).

(** [f] is the file of an upload that was admitted, byte for byte as stream [k]
    received it. *)
Definition stored_ok (conf : RelayCacheConfig) (L : Log) (k : N) (tid : string) (f : CachedFile) : Prop :=
  ∃ user u, admitted conf L k user u ∧ up_transfer_id u = tid ∧ cf_room_id f = up_room_id u ∧
    cf_file_name f = up_file_name u ∧ cf_mime f = up_mime u ∧ cf_file_size f = up_file_size u ∧
    N.of_nat (List.length (cf_data f)) = up_file_size u ∧ cf_data f `prefix_of` received k L.

(** Stream [k] was allowed to enter the room of a file stored under [tid]. *)
Definition may_fetch (L : Log) (k user : N) (tid : string) : Prop :=
  ∃ j f, (j, Stored tid f) ∈ L ∧ allowed L k user Perm.ENTER (cf_room_id f).

Definition served_ok (L : Log) (k : N) (tid : string) (f : CachedFile) : Prop :=
  (∃ j, (j, Stored tid f) ∈ L) ∧ ∃ user, may_fetch L k user tid.

Definition answer_ok (L : Log) (k : N) (o : Out) : Prop :=
  match o with
  | Raw d => ∃ tid f, (k, Served tid f) ∈ L ∧ d = cf_data f
  | FetchResponse r => r = not_found ∨ ∃ tid f, (k, Served tid f) ∈ L ∧ r = file_head f
  | _ => True
  end.

Definition event_ok (conf : RelayCacheConfig) (L : Log) (e : N * Event T) : Prop :=
  match e.2 with
  | Stored tid f => stored_ok conf L e.1 tid f
  | Served tid f => served_ok L e.1 tid f
  | Sent o => answer_ok L e.1 o
  | _ => True
  end.

Definition stream_ok (conf : RelayCacheConfig) (L : Log) (k user : N) (pc : Pc) : Prop :=
  match pc with
  | AwaitType | AwaitUpload | CheckUpload _ => received k L = []
  | AuthorizeUpload u room =>
      received k L = [] ∧ (up_file_size u ≤ max_file_size conf)%N ∧ parse_uuid (up_room_id u) = Some room
  | ReserveUpload u | Admitting u => received k L = [] ∧ admitted conf L k user u
  | Receiving u data =>
      received k L = data ∧ admitted conf L k user u ∧ (N.of_nat (List.length data) ≤ up_file_size u)%N
  | Storing u data =>
      received k L = data ∧ admitted conf L k user u ∧ N.of_nat (List.length data) = up_file_size u
  | AuthorizeFetch tid room => ∃ j f, (j, Stored tid f) ∈ L ∧ parse_uuid (cf_room_id f) = Some room
  | LookUpFile tid true => may_fetch L k user tid
  | Answering _ outs => Forall (answer_ok L k) outs
  | _ => True
  end.

Definition task_ok (conf : RelayCacheConfig) (L : Log) (k : N) (t : Task) : Prop :=
  match t with Stream user pc => stream_ok conf L k user pc | _ => True end.

Definition cache_ok (L : Log) (c : gmap string CachedFile) : Prop :=
  ∀ tid f, c !! tid = Some f → ∃ j, (j, Stored tid f) ∈ L.

(** *** Facts about logs *)

Lemma received_app k L es j :
  received k (L ++ ((j,.) <$> es)) =
  received k L ++ (if (j =? k)%N then List.concat (omap (λ e, match e with Received b => Some b | _ => None end) es) else []).
Proof.
  unfold received. rewrite omap_app, concat_app. f_equal.
  induction es as [|e es IH]; cbn; [by destruct (j =? k)%N|].
  destruct e; cbn; try exact IH. destruct (j =? k)%N; [|exact IH]. cbn. by rewrite IH.
Qed.

Lemma received_none k L : (∀ e, (k, e) ∉ L) → received k L = [].
Proof.
  induction L as [|[j e] L IH]; intros Hn; [done|].
  assert (received k L = []) as E by (apply IH; intros e' He; by apply (Hn e'), list_elem_of_further).
  unfold received in *. cbn. destruct e; try exact E.
  destruct (N.eqb_spec j k) as [->|_]; [|exact E]. destruct (Hn (Received b)). apply list_elem_of_here.
Qed.

Lemma log_incl (L M : Log) : L ⊆ L ++ M.
Proof. intros e He. apply elem_of_app. by left. Qed.

Lemma log_new (L : Log) e : e ∈ L ++ [e].
Proof. apply elem_of_app. right. apply list_elem_of_here. Qed.

Lemma allowed_mono L L' k user p room_id : L ⊆ L' → allowed L k user p room_id → allowed L' k user p room_id.
Proof. intros Hs (room & w & E & He & Hm). exists room, w. auto. Qed.

Lemma admitted_mono conf L L' k user u : L ⊆ L' → admitted conf L k user u → admitted conf L' k user u.
Proof. intros Hs [Hsz Ha]. split; [done|]. by eapply allowed_mono. Qed.

Lemma may_fetch_mono L L' k user tid : L ⊆ L' → may_fetch L k user tid → may_fetch L' k user tid.
Proof. intros Hs (j & f & Hf & Ha). exists j, f. split; [auto|]. by eapply allowed_mono. Qed.

Lemma answer_ok_mono L L' k o : L ⊆ L' → answer_ok L k o → answer_ok L' k o.
Proof.
  intros Hs. destruct o; cbn; try done.
  - intros [->|(tid & f & Hf & ->)]; [by left|right]. exists tid, f. auto.
  - intros (tid & f & Hf & ->). exists tid, f. auto.
Qed.

Lemma event_ok_mono conf L M e : event_ok conf L e → event_ok conf (L ++ M) e.
Proof.
  pose proof (log_incl L M) as Hs. unfold event_ok. destruct e as [k [| |tid f|tid f|o]]; cbn; try done.
  - intros (user & u & Ha & E1 & E2 & E3 & E4 & E5 & E6 & Hp). exists user, u. split_and!; try done.
    + by eapply admitted_mono.
    + etrans; [exact Hp|]. unfold received. rewrite omap_app, concat_app. by apply prefix_app_r.
  - intros [[j Hj] [user Hu]]. split; [exists j; auto|]. exists user. by eapply may_fetch_mono.
  - by apply answer_ok_mono.
Qed.

Lemma stream_ok_mono conf L L' k user pc :
  L ⊆ L' → received k L' = received k L → stream_ok conf L k user pc → stream_ok conf L' k user pc.
Proof.
  intros Hs Hr. destruct pc as [| | | | |u|u|u| | | |tid b|g outs|]; cbn; rewrite ?Hr; try done.
  - intros [? ?]. split; [done|]. by eapply admitted_mono.
  - intros [? ?]. split; [done|]. by eapply admitted_mono.
  - intros (? & ? & ?). split_and!; [done| |done]. by eapply admitted_mono.
  - intros (? & ? & ?). split_and!; [done| |done]. by eapply admitted_mono.
  - intros (j & f & Hf & E). exists j, f. auto.
  - destruct b; [|done]. by apply may_fetch_mono.
  - intros Ho. eapply Forall_impl; [exact Ho|]. intros o. by apply answer_ok_mono.
Qed.

Lemma cache_ok_mono L M c : cache_ok L c → cache_ok (L ++ M) c.
Proof. intros Hc tid f [j Hj]%Hc. exists j. by apply log_incl. Qed.

(** *** One step of a stream *)

Lemma answers_none L k guard outs :
  Forall (λ o, match o with Raw _ | FetchResponse _ => False | _ => True end) outs →
  ∀ conf user, stream_ok conf L k user (Answering guard outs).
Proof. intros Ho conf user. eapply Forall_impl; [exact Ho|]. by intros []. Qed.

Lemma read_on_ok conf L k user u data :
  received k L = data → admitted conf L k user u → (N.of_nat (List.length data) ≤ up_file_size u)%N →
  stream_ok conf L k user (read_on u data).
Proof.
  intros Hr Ha Hl. unfold read_on. destruct (N.ltb_spec 0 (up_file_size u - N.of_nat (List.length data))); cbn; [done|].
  split_and!; [done|done|lia].
Qed.

Lemma received_step k L es :
  received k (L ++ ((k,.) <$> es)) =
  received k L ++ List.concat (omap (λ e, match e with Received b => Some b | _ => None end) es).
Proof. by rewrite received_app, N.eqb_refl. Qed.

(** What a stream looks like when it ends early. *)
Definition dropped (pc : Pc) (r : FileTransferRelayPlugin) : Pc * FileTransferRelayPlugin * list (Event T) :=
  (Closed, release_quota (held pc) r, []).

Lemma stream_ends user i pc r x :
  (i = Failed ∨ i = Cancel) → stream_step user i pc r = Some x → x = dropped pc r.
Proof.
  intros [-> | ->] Hstep; destruct pc as [| | | | | | | | | | | |g [|o outs]|]; cbn in Hstep; try discriminate;
    try (destruct (fallible o); [|discriminate]); try (destruct (cancelled r); [|discriminate]); by injection Hstep as <-.
Qed.

(** A step that logs nothing and leaves the cache alone. *)
Lemma quiet_ok conf L k user pc' r r' :
  cache_ok L (cache r) → config r = conf → cache r' = cache r → config r' = config r → stream_ok conf L k user pc' →
  let L' := L ++ ((k,.) <$> []) in
  stream_ok conf L' k user pc' ∧ cache_ok L' (cache r') ∧ config r' = conf ∧ Forall (event_ok conf L') ((k,.) <$> []).
Proof. intros Hcache Hc E1 E2 Hok. cbn. rewrite app_nil_r, E1, E2. by split_and!. Qed.

Lemma check_upload_ok L k user u r :
  received k L = [] → stream_ok (config r) L k user (check_upload parse_uuid size_string u r).
Proof.
  intros Hr. unfold check_upload. destruct (N.ltb_spec (max_file_size (config r)) (up_file_size u));
    [by apply answers_none; repeat constructor|].
  case_bool_decide; [by apply answers_none; repeat constructor|].
  destruct (parse_uuid _) as [room|] eqn:E; [done|]. apply answers_none. by repeat constructor.
Qed.

Lemma look_up_room_ok L k user tid r :
  cache_ok L (cache r) → stream_ok (config r) L k user (look_up_room parse_uuid tid r).
Proof.
  intros Hcache. unfold look_up_room. destruct (cache r !! tid) as [f|] eqn:Ef; cbn; [|done].
  destruct (parse_uuid (cf_room_id f)) as [room|] eqn:E; [|done]. apply Hcache in Ef as [j Hj]. by exists j, f.
Qed.

Lemma store_upload_ok now L k user u data r pc' r' es :
  store_upload now u data r = (pc', r', es) → stream_ok (config r) L k user (Storing u data) → cache_ok L (cache r) →
  let L' := L ++ ((k,.) <$> es) in
  stream_ok (config r) L' k user pc' ∧ cache_ok L' (cache r') ∧ config r' = config r ∧
  Forall (event_ok (config r) L') ((k,.) <$> es).
Proof.
  intros E (Hr & Ha & Hl) Hcache. unfold store_upload in E. destruct (cache r !! up_transfer_id u); injection E as <- <- <-.
  - eapply quiet_ok; try done. apply answers_none. by repeat constructor.
  - cbn. set (f := mkCachedFile _ _ _ _ _ _). set (L' := L ++ [(k, Stored (up_transfer_id u) f)]).
    assert ((k, Stored (up_transfer_id u) f) ∈ L') as Hin by apply log_new.
    split_and!; [by repeat constructor| |done|].
    + intros tid f' [[<- <-]|[_ Hf]]%lookup_insert_Some; [by exists k|]. by apply (cache_ok_mono L _ (cache r) Hcache tid).
    + apply Forall_singleton. exists user, u. split_and!; try done.
      * eapply admitted_mono; [apply log_incl|exact Ha].
      * pose proof (received_step k L [Stored (up_transfer_id u) f]) as E. cbn in E. change (data `prefix_of` received k L'). unfold L'. by rewrite E, app_nil_r, Hr.
Qed.

Lemma look_up_file_ok conf L k user tid b r pc' es :
  look_up_file tid b r = (pc', es) → stream_ok conf L k user (LookUpFile tid b) → cache_ok L (cache r) →
  let L' := L ++ ((k,.) <$> es) in
  stream_ok conf L' k user pc' ∧ Forall (event_ok conf L') ((k,.) <$> es).
Proof.
  intros E Hok Hcache. unfold look_up_file in E. destruct b; cbn in Hok.
  - destruct (cache r !! tid) as [f|] eqn:Ef; injection E as <- <-; cbn.
    + set (L' := L ++ [(k, Served tid f)]). assert ((k, Served tid f) ∈ L') as Hin by apply log_new.
      split; [|apply Forall_singleton; split].
      * apply Forall_cons. split; [right; by exists tid, f|].
        apply Forall_cons. split; [by exists tid, f|by repeat constructor].
      * apply Hcache in Ef as [j Hj]. exists j. by apply log_incl.
      * exists user. eapply may_fetch_mono; [apply log_incl|exact Hok].
    + split; [|by apply Forall_nil]. apply Forall_cons. split; [by left|by repeat constructor].
  - injection E as <- <-. cbn. split; [|by apply Forall_nil]. apply Forall_cons. split; [by left|by repeat constructor].
Qed.

Lemma stream_step_ok conf L k user i pc r pc' r' es :
  stream_step user i pc r = Some (pc', r', es) → config r = conf → stream_ok conf L k user pc → cache_ok L (cache r) →
  let L' := L ++ ((k,.) <$> es) in
  stream_ok conf L' k user pc' ∧ cache_ok L' (cache r') ∧ config r' = conf ∧ Forall (event_ok conf L') ((k,.) <$> es).
Proof.
  intros Hstep <- Hok Hcache.
  assert ((i = Failed ∨ i = Cancel) ∨ ¬ (i = Failed ∨ i = Cancel)) as [Hi|Hi]
    by (destruct i; auto; right; intros [|]; discriminate).
  { apply stream_ends in Hstep; [|done]. injection Hstep as -> -> ->. by apply (quiet_ok _ L k user _ r). }
  destruct pc as [| |u|u room|u|u|u data|u data| |tid|tid room|tid b|g [|o outs]|]; destruct i; cbn in Hstep;
    try discriminate; try (by destruct Hi; auto).
  all: try (injection Hstep as <- <- <-).
  - apply (quiet_ok _ L k user _ r); try done. destruct (_ =? 1)%N; [done|]. by destruct (_ =? 2)%N.
  - by apply (quiet_ok _ L k user _ r).
  - apply (quiet_ok _ L k user _ r); try done. by apply check_upload_ok.
  - destruct Hok as (Hr & Hsz & Hp). split_and!; [|by apply cache_ok_mono|done|by apply Forall_singleton].
    unfold authorize_upload. destruct (Perm.contains _ _) eqn:E; [|by apply answers_none; repeat constructor].
    split; [by rewrite received_step, Hr|]. split; [done|]. exists room, w. split; [done|]. split; [apply log_new|done].
  - unfold reserve_upload, try_reserve in Hstep.
    destruct (_ <? _)%N; [|destruct (_ <? _)%N]; injection Hstep as <- <- <-; apply (quiet_ok _ L k user _ r); try done;
      apply answers_none; by repeat constructor.
  - destruct Hok as [Hr Ha]. split_and!; [|by apply cache_ok_mono|done|by apply Forall_singleton].
    apply read_on_ok; [by rewrite received_step, Hr| |cbn; lia]. eapply admitted_mono; [apply log_incl|done].
  - destruct (N.ltb_spec (to_read u data) (N.of_nat (List.length b))) as [|Hb]; [discriminate|]. injection Hstep as <- <- <-.
    destruct Hok as (Hr & Ha & Hl). split_and!; [|by apply cache_ok_mono|done|by apply Forall_singleton].
    apply read_on_ok; [rewrite received_step, Hr; cbn; by rewrite app_nil_r| |].
    + eapply admitted_mono; [apply log_incl|done].
    + rewrite length_app. unfold to_read in Hb. lia.
  - apply (quiet_ok _ L k user _ r); try done. apply answers_none. by repeat constructor.
  - apply (quiet_ok _ L k user _ r); try done. apply answers_none. by repeat constructor.
  - by apply (store_upload_ok now L k user u data r); [injection Hstep| |].
  - by apply (quiet_ok _ L k user _ r).
  - apply (quiet_ok _ L k user _ r); try done. by apply look_up_room_ok.
  - destruct Hok as (j & f & Hj & Hp). split_and!; [|by apply cache_ok_mono|done|by apply Forall_singleton].
    cbn. destruct (Perm.contains _ _) eqn:E; [|done]. exists j, f. split; [by apply log_incl|].
    exists room, w. split; [done|]. split; [apply log_new|done].
  - destruct (look_up_file tid b r) as [pc es0] eqn:E. injection Hstep as <- <- <-.
    destruct (look_up_file_ok (config r) L k user tid b r pc es0 E Hok Hcache). split_and!; [done|by apply cache_ok_mono|done|done].
  - by apply (quiet_ok _ L k user _ r).
  - apply Forall_cons in Hok as [Ho Hok]. split_and!; [|by apply cache_ok_mono|done|].
    + eapply Forall_impl; [exact Hok|]. intros o'. apply answer_ok_mono, log_incl.
    + apply Forall_singleton. cbn. eapply answer_ok_mono; [apply log_incl|done].
Qed.

(** *** The byte counter *)

Abbreviation cached_bytes := (map_sum cf_file_size).

(** What a step adds to the counter is what the task holds and the cache stores
    beyond what they did. *)
Definition balanced (r r' : FileTransferRelayPlugin) (before after : N) : Prop :=
  (total_cached r' + before + cached_bytes (cache r) = total_cached r + after + cached_bytes (cache r'))%N ∧
  ((total_cached r ≤ max_total_size (config r))%N → (total_cached r' ≤ max_total_size (config r'))%N).

Lemma balanced_same r n m : n = m → balanced r r n m.
Proof. intros <-. split; [done|auto]. Qed.

Lemma balanced_release r n : (n ≤ total_cached r)%N → balanced r (release_quota n r) n 0.
Proof. intros Hn. split; cbn; lia. Qed.

Lemma held_check_upload u r : held (check_upload parse_uuid size_string u r) = 0%N.
Proof. unfold check_upload. destruct (_ <? _)%N; [done|]. case_bool_decide; [done|]. by destruct (parse_uuid _). Qed.

Lemma held_read_on u data : held (read_on u data) = up_file_size u.
Proof. unfold read_on. by destruct (_ <? _)%N. Qed.

Lemma stream_step_balanced L k user i pc r pc' r' es :
  stream_step user i pc r = Some (pc', r', es) → stream_ok (config r) L k user pc → (held pc ≤ total_cached r)%N →
  balanced r r' (held pc) (held pc').
Proof.
  intros Hstep Hok Hle.
  assert ((i = Failed ∨ i = Cancel) ∨ ¬ (i = Failed ∨ i = Cancel)) as [Hi|Hi]
    by (destruct i; auto; right; intros [|]; discriminate).
  { apply stream_ends in Hstep; [|done]. injection Hstep as -> -> ->. by apply balanced_release. }
  destruct pc as [| |u|u room|u|u|u data|u data| |tid|tid room|tid b|g [|o outs]|]; destruct i; cbn in Hstep;
    try discriminate; try (by destruct Hi; auto).
  all: try (injection Hstep as <- <- <-).
  all: try (apply balanced_same; cbn; done).
  - apply balanced_same. destruct (_ =? 1)%N; [done|]. by destruct (_ =? 2)%N.
  - apply balanced_same. by rewrite held_check_upload.
  - apply balanced_same. unfold authorize_upload. by destruct (negb _).
  - unfold reserve_upload, try_reserve in Hstep. destruct (_ <? _)%N; [by injection Hstep as <- <- <-; apply balanced_same|].
    destruct (N.ltb_spec (max_total_size (config r)) (total_cached r + up_file_size u)); injection Hstep as <- <- <-;
      [by apply balanced_same|]. split; cbn; lia.
  - apply balanced_same. by rewrite held_read_on.
  - destruct (_ <? _)%N; [discriminate|]. injection Hstep as <- <- <-. apply balanced_same. by rewrite held_read_on.
  - unfold store_upload in Hstep. destruct Hok as (_ & _ & Hl).
    destruct (cache r !! up_transfer_id u) eqn:E; injection Hstep as <- <- <-; [by apply balanced_same|].
    split; cbn; [|done]. rewrite map_sum_insert_new by done. cbn. lia.
  - apply balanced_same. unfold look_up_room. destruct (cf_room_id <$> _); cbn; [by destruct (parse_uuid _)|done].
  - unfold look_up_file in Hstep. destruct b; [destruct (cache r !! tid)|]; injection Hstep as <- <- <-; by apply balanced_same.
  - by apply balanced_release.
Qed.

Lemma evict_balanced tid r : (cached_bytes (cache r) ≤ total_cached r)%N → balanced r (evict tid r) 0 0.
Proof.
  intros Hle. unfold evict. destruct (cache r !! tid) as [f|] eqn:E; [|by apply balanced_same].
  pose proof (map_sum_delete cf_file_size (cache r) tid f E). split; cbn; lia.
Qed.

Lemma task_step_ok L k i t r t' r' es :
  task_step i t r = Some (t', r', es) → task_ok (config r) L k t → cache_ok L (cache r) →
  let L' := L ++ ((k,.) <$> es) in
  task_ok (config r) L' k t' ∧ cache_ok L' (cache r') ∧ config r' = config r ∧
  Forall (event_ok (config r) L') ((k,.) <$> es).
Proof.
  intros Hstep Hok Hcache. destruct t as [user pc|user|user room| |[|tid keys]]; cbn in Hstep.
  - destruct (stream_step user i pc r) as [[[pc1 r1] es1]|] eqn:E; cbn in Hstep; [|discriminate].
    injection Hstep as <- <- <-. by apply (stream_step_ok (config r) L k user i pc r).
  - destruct i; try discriminate. injection Hstep as <- <- <-.
    cbn. rewrite app_nil_r. split_and!; [|done|done|by apply Forall_nil].
    unfold leaving_step. destruct (evict_on_room_clear _); [|done]. by destruct (St.get_user_room _ _).
  - destruct i; try discriminate. injection Hstep as <- <- <-.
    cbn. rewrite app_nil_r. split_and!; [|done|done|by apply Forall_nil].
    unfold leaving_room_step. by destruct (Nat.eqb _ _).
  - destruct i; try discriminate. injection Hstep as <- <- <-.
    cbn. rewrite app_nil_r. split_and!; [done|done|done|by apply Forall_nil].
  - by destruct i.
  - destruct i; try discriminate. injection Hstep as <- <- <-.
    cbn. rewrite app_nil_r. unfold evict. destruct (cache r !! tid); cbn; (split_and!; [done| |done|by apply Forall_nil]); [|done].
    intros tid' f' [_ Hf]%lookup_delete_Some. by eapply Hcache.
Qed.

Lemma task_step_balanced L k i t r t' r' es :
  task_step i t r = Some (t', r', es) → task_ok (config r) L k t →
  (task_held t + cached_bytes (cache r) ≤ total_cached r)%N → balanced r r' (task_held t) (task_held t').
Proof.
  intros Hstep Hok Hle. destruct t as [user pc|user|user room| |[|tid keys]]; cbn in Hstep.
  - destruct (stream_step user i pc r) as [[[pc1 r1] es1]|] eqn:E; cbn in Hstep; [|discriminate].
    injection Hstep as <- <- <-. eapply stream_step_balanced; [exact E|exact Hok|]. cbn in Hle. lia.
  - destruct i; try discriminate. injection Hstep as <- <- <-. apply balanced_same.
    unfold leaving_step. destruct (evict_on_room_clear _); [|done]. by destruct (St.get_user_room _ _).
  - destruct i; try discriminate. injection Hstep as <- <- <-. apply balanced_same.
    unfold leaving_room_step. by destruct (Nat.eqb _ _).
  - destruct i; try discriminate. injection Hstep as <- <- <-. by apply balanced_same.
  - by destruct i.
  - destruct i; try discriminate. injection Hstep as <- <- <-. apply evict_balanced. cbn in Hle. lia.
Qed.

(** *** The invariant of the whole system *)

Record good (conf : RelayCacheConfig) (s : System T) : Prop := mkGood {
  g_config : config (relay s) = conf;
  g_total : total_cached (relay s) = (cached_bytes (cache (relay s)) + map_sum task_held (tasks s))%N;
  g_bound : (total_cached (relay s) ≤ max_total_size conf)%N;
  g_known : ∀ k e, (k, e) ∈ log s → is_Some (tasks s !! k);
  g_cache : cache_ok (log s) (cache (relay s));
  g_tasks : ∀ k t, tasks s !! k = Some t → task_ok conf (log s) k t;
  g_log : ∀ e, e ∈ log s → event_ok conf (log s) e }.

Lemma good_initial conf : good conf (initial conf).
Proof.
  split; cbn; try done; try (by intros ? ? []%not_elem_of_nil); try (by intros ? []%not_elem_of_nil). lia.
Qed.

Lemma good_start conf k t s : tasks s !! k = None → Starts t → good conf s → good conf (start k t s).
Proof.
  intros Hk Ht [G1 G2 G3 G4 G5 G6 G7]. split; cbn; try done.
  - rewrite map_sum_insert_new by done. by destruct Ht.
  - intros j e He. destruct (decide (j = k)) as [->|Hne]; [rewrite lookup_insert_eq; by eexists|].
    rewrite lookup_insert_ne by done. by eapply G4.
  - intros j t' [[<- <-]|[_ Hj]]%lookup_insert_Some; [|by apply G6].
    destruct Ht; cbn; try done. apply received_none. intros e [x Hx]%G4. congruence.
Qed.

Lemma task_ok_other conf L k t j es : j ≠ k → task_ok conf L k t → task_ok conf (L ++ ((j,.) <$> es)) k t.
Proof.
  intros Hne. destruct t; cbn; try done. apply stream_ok_mono; [apply log_incl|].
  rewrite received_app. destruct (N.eqb_spec j k); [done|]. apply app_nil_r.
Qed.

Lemma task_held_le k t (s : System T) : tasks s !! k = Some t → (task_held t ≤ map_sum task_held (tasks s))%N.
Proof. intros Hk. rewrite (map_sum_delete task_held _ k t Hk). lia. Qed.

Lemma good_run conf k i s s' : run parse_uuid uuid_string size_string k i s = Some s' → good conf s → good conf s'.
Proof.
  intros Hrun [G1 G2 G3 G4 G5 G6 G7]. unfold run in Hrun. destruct (tasks s !! k) as [t|] eqn:Ek; [|discriminate].
  cbn in Hrun. destruct (task_step i t (relay s)) as [[[t' r'] es]|] eqn:E; cbn in Hrun; [|discriminate].
  injection Hrun as <-. subst conf.
  destruct (task_step_ok (log s) k i t (relay s) t' r' es E (G6 k t Ek) G5) as (T1 & T2 & T3 & T4).
  pose proof (task_held_le k t s Ek) as Hle.
  destruct (task_step_balanced (log s) k i t (relay s) t' r' es E (G6 k t Ek) ltac:(lia)) as [B1 B2].
  split; cbn; try done.
  - pose proof (map_sum_insert task_held (tasks s) k t t' Ek). lia.
  - rewrite <- T3. exact (B2 G3).
  - intros j e He. destruct (decide (j = k)) as [->|Hne]; [rewrite lookup_insert_eq; by eexists|].
    rewrite lookup_insert_ne by done. apply elem_of_app in He as [He|(e' & [= -> ->] & _)%list_elem_of_fmap_1]; [by eapply G4|done].
  - intros j t0 [[<- <-]|[Hne Hj]]%lookup_insert_Some; [done|]. apply task_ok_other; [done|]. by apply G6.
  - intros e [He|He]%elem_of_app; [by apply event_ok_mono, G7|]. by eapply (proj1 (Forall_forall _ _)) in T4.
Qed.

Lemma good_step conf s s' : step s s' → good conf s → good conf s'.
Proof.
  intros [k t Hk Ht|k i s1 Hrun|] G; [by apply good_start|by eapply good_run|]. destruct G. by split.
Qed.

Lemma reachable_good conf s : rtc step (initial conf) s → good conf s.
Proof.
  intros Hr. pose proof (good_initial conf) as G. induction Hr as [|s1 s2 s3 Hs _ IH]; [done|]. by eapply IH, good_step.
Qed.

Lemma good_file conf (s : System T) tid f :
  good conf s → cache (relay s) !! tid = Some f → ∃ k, (k, Stored tid f) ∈ log s ∧ stored_ok conf (log s) k tid f.
Proof. intros G [k Hk]%(g_cache _ _ G). exists k. split; [done|]. exact (g_log _ _ G _ Hk). Qed.

Lemma store_upload_keeps now u data r tid f :
  cache r !! tid = Some f → cache (store_upload (T := T) now u data r).1.2 !! tid = Some f.
Proof.
  intros Hf. unfold store_upload. destruct (cache r !! up_transfer_id u) eqn:E; [done|]. cbn.
  rewrite lookup_insert_ne; [done|congruence].
Qed.

Lemma stream_step_keeps user i pc r pc' r' es tid f :
  stream_step user i pc r = Some (pc', r', es) → cache r !! tid = Some f → cache r' !! tid = Some f.
Proof.
  intros Hstep Hf. destruct pc as [| |u|u room|u|u|u data|u data| |tid'|tid' room|tid' b|g [|o outs]|]; destruct i;
    cbn in Hstep; try discriminate; try (destruct (cancelled r); [|discriminate]);
    try (destruct (fallible o); [|discriminate]); try (by injection Hstep as <- <- <-).
  - unfold reserve_upload in Hstep. destruct (try_reserve _ _) as [r1|] eqn:E; injection Hstep as <- <- <-; [|done].
    unfold try_reserve in E. destruct (_ <? _)%N; [discriminate|]. destruct (_ <? _)%N; [discriminate|]. by injection E as <-.
  - destruct (_ <? _)%N; [discriminate|]. by injection Hstep as <- <- <-.
  - pose proof (store_upload_keeps now u data r tid f Hf) as Hk. injection Hstep as E. by rewrite E in Hk.
  - destruct (look_up_file _ _ _). by injection Hstep as <- <- <-.
Qed.

(** Only an eviction removes a file. *)
Lemma task_step_keeps i t r t' r' es tid f (s : System T) k :
  tasks s !! k = Some t → task_step i t r = Some (t', r', es) → cache r !! tid = Some f →
  cache r' !! tid = Some f ∨ cache r' !! tid = None ∧ ∃ k keys, tasks s !! k = Some (Evicting (tid :: keys)).
Proof.
  intros Ek Hstep Hf. destruct t as [user pc|user|user room| |[|tid0 keys]]; cbn in Hstep.
  - left. destruct (stream_step user i pc r) as [[[pc1 r1] es1]|] eqn:E; cbn in Hstep; [|discriminate].
    injection Hstep as <- <- <-. by eapply stream_step_keeps.
  - left. destruct i; try discriminate. by injection Hstep as <- <- <-.
  - left. destruct i; try discriminate. by injection Hstep as <- <- <-.
  - left. destruct i; try discriminate. by injection Hstep as <- <- <-.
  - by destruct i.
  - destruct i; try discriminate. injection Hstep as <- <- <-. unfold evict.
    destruct (decide (tid = tid0)) as [<-|Hne].
    + right. rewrite Hf. cbn. rewrite lookup_delete_eq. split; [done|]. by exists k, keys.
    + left. destruct (cache r !! tid0); [|done]. cbn. by rewrite lookup_delete_ne.
Qed.

(** The bytes of a body that a task has in memory. *)
Definition task_bytes (t : Task) : N :=
  match t with
  | Stream _ (Receiving _ data) | Stream _ (Storing _ data) => N.of_nat (List.length data)
  | _ => 0
  end.

Lemma task_bytes_le conf L k t : task_ok conf L k t → (task_bytes t ≤ task_held t)%N.
Proof. destruct t as [user []| | | |]; cbn; try lia; intros (_ & _ & ?); lia. Qed.

(** ** The theorems *)

(** C27: The relay's memory is bounded and its accounting exact.  However
    uploads, fetches, departures, the expiry sweep and a shutdown interleave,
    the counter is the size of the cached files plus the reservations still
    held, so an upload that ends, in whatever way, leaves behind just what it
    stored; the bytes in memory never exceed it, and it never exceeds the
    configured maximum; no file is larger than the maximum for one. *)
Theorem relay_bounded conf s :
  rtc step (initial conf) s →
  let r := relay s in
  total_cached r = (map_sum cf_file_size (cache r) + map_sum task_held (tasks s))%N ∧
  (map_sum (λ f, N.of_nat (List.length (cf_data f))) (cache r) + map_sum task_bytes (tasks s) ≤ total_cached r)%N ∧
  (total_cached r ≤ max_total_size conf)%N ∧
  (∀ tid f, cache r !! tid = Some f →
     N.of_nat (List.length (cf_data f)) = cf_file_size f ∧ (cf_file_size f ≤ max_file_size conf)%N).
Proof.
  intros G%reachable_good. cbn. split; [apply G|].
  assert (∀ tid f, cache (relay s) !! tid = Some f →
     N.of_nat (List.length (cf_data f)) = cf_file_size f ∧ (cf_file_size f ≤ max_file_size conf)%N) as Hf.
  { intros tid f (k & _ & user & u & [Hsz _] & _ & _ & _ & _ & -> & -> & _)%(good_file conf s tid f G). done. }
  split; [|split; [apply G|exact Hf]]. rewrite (g_total _ _ G).
  assert (map_sum (λ f, N.of_nat (List.length (cf_data f))) (cache (relay s)) ≤ cached_bytes (cache (relay s)))%N.
  { apply map_sum_le. intros tid f Ef. destruct (Hf tid f Ef). lia. }
  assert (map_sum task_bytes (tasks s) ≤ map_sum task_held (tasks s))%N; [|lia].
  apply map_sum_le. intros k t Ek. eapply task_bytes_le. by apply G.
Qed.

(** The relay keeps only what was admitted, and keeps it.  Every cached file
    was stored by a stream whose user was allowed to write in the room it
    names, with the size and the names the upload declared and the bytes that
    stream received first; and from one step to the next a cached file stays as
    it is unless an eviction removes it, so an upload never replaces another. *)
Theorem relay_keeps_what_was_admitted conf s :
  rtc step (initial conf) s →
  (∀ tid f, cache (relay s) !! tid = Some f → ∃ k, (k, Stored tid f) ∈ log s ∧ stored_ok conf (log s) k tid f) ∧
  (∀ s' tid f, step s s' → cache (relay s) !! tid = Some f →
     cache (relay s') !! tid = Some f ∨
     cache (relay s') !! tid = None ∧ ∃ k keys, tasks s !! k = Some (Evicting (tid :: keys))).
Proof.
  intros G%reachable_good. split; [intros tid f; by apply good_file|].
  intros s' tid f [k t _ _|k i s1 Hrun|] Hf; [by left| |by left].
  unfold run in Hrun. destruct (tasks s !! k) as [t|] eqn:Ek; [|discriminate]. cbn in Hrun.
  destruct (task_step i t (relay s)) as [[[t' r'] es]|] eqn:E; cbn in Hrun; [|discriminate]. injection Hrun as <-. cbn.
  by eapply task_step_keeps.
Qed.


(** *** A stream that runs by itself *)

Fixpoint run_stream (user : N) (l : list (Input T)) (pc : Pc) (r : FileTransferRelayPlugin)
    : option (Pc * FileTransferRelayPlugin * list (Event T)) :=
  match l with
  | [] => Some (pc, r, [])
  | i :: l => '(pc, r, es) ← stream_step user i pc r; '(pc, r, es') ← run_stream user l pc r; Some (pc, r, es ++ es')
  end.

#[local] Abbreviation play := (play parse_uuid uuid_string size_string).

Lemma play_stream k user l pc (s : System T) pc' r' es :
  tasks s !! k = Some (Stream user pc) → run_stream user l pc (relay s) = Some (pc', r', es) →
  play ((k,.) <$> l) s = Some (mkSystem r' (<[k := Stream user pc']> (tasks s)) (log s ++ ((k,.) <$> es))).
Proof.
  revert pc s es. induction l as [|i l IH]; intros pc s es Hk Hrun; cbn in Hrun |- *.
  - injection Hrun as <- <- <-. rewrite app_nil_r, insert_id by done. by destruct s.
  - destruct (stream_step user i pc (relay s)) as [[[pc1 r1] es1]|] eqn:E1; cbn in Hrun; [|discriminate].
    destruct (run_stream user l pc1 r1) as [[[pc2 r2] es2]|] eqn:E2; cbn in Hrun; [|discriminate].
    injection Hrun as -> -> <-. unfold run. rewrite Hk. cbn. rewrite E1. cbn.
    rewrite (IH pc1 _ es2); [|apply lookup_insert_eq|exact E2]. cbn. by rewrite insert_insert_eq, fmap_app, app_assoc.
Qed.

Lemma play_app l l' (s : System T) : play (l ++ l') s = play l s ≫= play l'.
Proof. revert s. induction l as [|[k i] l IH]; intros s; [done|]. cbn. destruct (run _ _ _ k i s); cbn; [apply IH|done]. Qed.

Lemma run_stream_app user l l' pc r pc1 r1 es1 :
  run_stream user l pc r = Some (pc1, r1, es1) →
  run_stream user (l ++ l') pc r = '(pc2, r2, es2) ← run_stream user l' pc1 r1; Some (pc2, r2, es1 ++ es2).
Proof.
  revert pc r es1. induction l as [|i l IH]; intros pc r es1 E; cbn in E |- *.
  - injection E as -> -> <-. by destruct (run_stream user l' pc1 r1) as [[[? ?] ?]|].
  - destruct (stream_step user i pc r) as [[[pc' r'] es']|]; cbn in E |- *; [|discriminate].
    destruct (run_stream user l pc' r') as [[[pc2 r2] es2]|] eqn:E2; cbn in E; [|discriminate].
    injection E as -> -> <-. rewrite (IH _ _ _ E2).
    destruct (run_stream user l' pc1 r1) as [[[? ?] ?]|]; [|done]. cbn. by rewrite app_assoc.
Qed.

(** A body that arrives in chunks of the sizes [recv.read] can return. *)
Definition chunked (chunks : list bytes) (data : bytes) : Prop :=
  List.concat chunks = data ∧ Forall (λ c, c ≠ [] ∧ (N.of_nat (List.length c) ≤ 64 * 1024)%N) chunks.

Lemma receive_chunks user u r done chunks data :
  chunked chunks data → N.of_nat (List.length (done ++ data)) = up_file_size u →
  run_stream user (Chunk <$> chunks) (read_on u done) r = Some (Storing u (done ++ data), r, Received <$> chunks).
Proof.
  intros [<- Hc]. revert done. induction Hc as [|c chunks [Hne Hmax] _ IH]; intros done Hl; cbn in Hl |- *.
  - rewrite app_nil_r in Hl |- *. unfold read_on. rewrite Hl, N.sub_diag. done.
  - rewrite !length_app in Hl. assert (0 < List.length c)%nat by (by destruct c; cbn; [done|lia]).
    unfold read_on at 1. destruct (N.ltb_spec 0 (up_file_size u - N.of_nat (List.length done))); [|lia]. cbn.
    destruct (N.ltb_spec (to_read u done) (N.of_nat (List.length c))) as [Hlt|_]; [unfold to_read in Hlt; lia|]. cbn.
    rewrite (IH (done ++ c)); [|by rewrite <- app_assoc, !length_app in *; lia]. by rewrite <- app_assoc.
Qed.

Definition upload_inputs (u : RelayUpload) (w : W) (chunks : list bytes) (now : N) : list (Input T) :=
  [TypeByte x01; UploadMsg u; Go; World w; Go; Written] ++ (Chunk <$> chunks) ++ [At now; Written; Go].
Definition fetch_inputs (tid : string) (w : W) (writes : nat) : list (Input T) :=
  [TypeByte x02; FetchMsg tid; Go; World w; Go] ++ replicate writes Written ++ [Go].

(** What stream [k] has sent. *)
Definition sent (k : N) (L : Log) : list Out :=
  omap (λ e, match e with (j, Sent o) => if (j =? k)%N then Some o else None | _ => None end) L.

Lemma sent_app k L j es :
  sent k (L ++ ((j,.) <$> es)) =
  sent k L ++ (if (j =? k)%N then omap (λ e, match e with Sent o => Some o | _ => None end) es else []).
Proof.
  unfold sent. rewrite omap_app. f_equal. induction es as [|e es IH]; cbn; [by destruct (j =? k)%N|].
  destruct e; cbn; rewrite ?IH; by destruct (j =? k)%N.
Qed.

(** An upload the relay has every reason to take. *)
Record acceptable (r : FileTransferRelayPlugin) (w : W) (user : N) (u : RelayUpload) : Prop := mkAcceptable {
  acc_size : (up_file_size u ≤ max_file_size (config r))%N;
  acc_new : cache r !! up_transfer_id u = None;
  acc_room : ∃ room, parse_uuid (up_room_id u) = Some room ∧ may Perm.TEXT_MESSAGE w user room;
  acc_quota : (total_cached r + up_file_size u ≤ N.min u64_max (max_total_size (config r)))%N }.

Definition file_of (u : RelayUpload) (data : bytes) (now : N) : CachedFile :=
  mkCachedFile (up_room_id u) (up_file_name u) (up_file_size u) (up_mime u) data now.

Lemma upload_runs user u w chunks now data r :
  acceptable r w user u → chunked chunks data → N.of_nat (List.length data) = up_file_size u →
  ∃ r' es, run_stream user (upload_inputs u w chunks now) AwaitType r = Some (Closed, r', es) ∧
    cache r' = <[up_transfer_id u := file_of u data now]> (cache r) ∧ config r' = config r ∧
    total_cached r' = (total_cached r + up_file_size u)%N ∧
    omap (λ e, match e with Sent o => Some o | _ => None end) es =
      [send_plugin_ack_ok; UploadResponse (mkUploadResponse ResultOk "")].
Proof.
  intros [Hsz Hnew (room & Hp & Hm) Hq] Hc Hl.
  assert (stream_step user Go (CheckUpload u) r = Some (AuthorizeUpload u room, r, [])) as E1.
  { cbn. unfold check_upload. destruct (N.ltb_spec (max_file_size (config r)) (up_file_size u)); [lia|].
    by rewrite bool_decide_eq_false_2, Hp by (rewrite Hnew; by intros []). }
  assert (stream_step user Go (ReserveUpload u) r
    = Some (Admitting u, set_total (total_cached r + up_file_size u) r, [])) as E2.
  { cbn. unfold reserve_upload, try_reserve. destruct (N.ltb_spec u64_max (total_cached r + up_file_size u)); [lia|].
    by destruct (N.ltb_spec (max_total_size (config r)) (total_cached r + up_file_size u)); [lia|]. }
  set (r1 := set_total _ r) in E2. unfold upload_inputs.
  erewrite run_stream_app; last first.
  { cbn [run_stream]. change (stream_step user (TypeByte x01) AwaitType r) with (Some (AwaitUpload, r, @nil (Event T))).
    cbn [mbind option_bind]. change (stream_step user (UploadMsg u) AwaitUpload r) with (Some (CheckUpload u, r, @nil (Event T))).
    cbn [mbind option_bind]. rewrite E1. cbn [mbind option_bind stream_step].
    unfold authorize_upload. rewrite Hm. cbn [negb mbind option_bind]. rewrite E2. cbn. reflexivity. }
  erewrite run_stream_app; [|by apply receive_chunks]. cbn.
  unfold store_upload. assert (cache r1 !! up_transfer_id u = None) as -> by exact Hnew. cbn. eexists _, _. split; [reflexivity|]. cbn. unfold file_of.
  rewrite N.sub_0_r, <- Hl. split_and!; try done. rewrite !omap_app. cbn. clear.
  assert (omap (λ e : Event T, match e with Sent o => Some o | _ => None end) (Received <$> chunks) = []) as ->; [|done].
  by induction chunks.
Qed.

Lemma fetch_runs user tid w f room r :
  cache r !! tid = Some f → parse_uuid (cf_room_id f) = Some room → may Perm.ENTER w user room →
  run_stream user (fetch_inputs tid w 3) AwaitType r =
  Some (Closed, release_quota 0 r,
    [Evaluated w user room; Served tid f; Sent (FetchResponse (file_head f)); Sent (Raw (cf_data f)); Sent Finish]).
Proof.
  intros Hf Hp Hm. unfold fetch_inputs. cbn. unfold look_up_room. rewrite Hf. cbn. rewrite Hp. cbn. rewrite Hm. cbn.
  unfold look_up_file. rewrite Hf. done.
Qed.

Lemma fetch_refused user tid w f room r :
  cache r !! tid = Some f → parse_uuid (cf_room_id f) = Some room → ¬ may Perm.ENTER w user room →
  run_stream user (fetch_inputs tid w 2) AwaitType r =
  Some (Closed, release_quota 0 r, [Evaluated w user room; Sent (FetchResponse not_found); Sent Finish]).
Proof.
  intros Hf Hp Hm. unfold fetch_inputs. cbn. unfold look_up_room. rewrite Hf. cbn. rewrite Hp. cbn.
  by rewrite (not_true_is_false _ Hm).
Qed.

Lemma fetch_unknown user tid r :
  cache r !! tid = None →
  run_stream user [TypeByte x02; FetchMsg tid; Go; Go; Written; Written; Go] AwaitType r =
  Some (Closed, release_quota 0 r, [Sent (FetchResponse not_found); Sent Finish]).
Proof. intros Hn. cbn. unfold look_up_room. by rewrite Hn. Qed.

Lemma play_sent k user l (s : System T) pc r' es :
  tasks s !! k = Some (Stream user AwaitType) → run_stream user l AwaitType (relay s) = Some (pc, r', es) →
  ∃ s', play ((k,.) <$> l) s = Some s' ∧ relay s' = r' ∧ tasks s' = <[k := Stream user pc]> (tasks s) ∧
    sent k (log s') = sent k (log s) ++ omap (λ e, match e with Sent o => Some o | _ => None end) es ∧
    (∀ j, j ≠ k → sent j (log s') = sent j (log s)).
Proof.
  intros Hk Hrun. rewrite (play_stream k user l AwaitType s pc r' es Hk Hrun).
  eexists. split; [done|]. cbn [log relay tasks]. split_and!; [done|done|by rewrite sent_app, N.eqb_refl|].
  intros j Hj. rewrite sent_app. destruct (N.eqb_spec k j); [done|]. apply app_nil_r.
Qed.

(** What is uploaded is what is downloaded.  An upload that fits, by a user
    who may write in its room, is admitted and completes however its body is cut
    into chunks; from then on a user who may enter the room gets the file with
    its name, size, type and bytes, and one who may not gets, word for word, the
    answer for an identifier that does not exist. *)
Theorem relay_round_trip s k k' user user' u w w' chunks now data :
  tasks s !! k = Some (Stream user AwaitType) → tasks s !! k' = Some (Stream user' AwaitType) → k ≠ k' →
  acceptable (relay s) w user u → chunked chunks data → N.of_nat (List.length data) = up_file_size u →
  ∃ s1 room, play ((k,.) <$> upload_inputs u w chunks now) s = Some s1 ∧
    sent k (log s1) = sent k (log s) ++ [send_plugin_ack_ok; UploadResponse (mkUploadResponse ResultOk "")] ∧
    total_cached (relay s1) = (total_cached (relay s) + up_file_size u)%N ∧
    parse_uuid (up_room_id u) = Some room ∧
    (may Perm.ENTER w' user' room → ∃ s2, play ((k',.) <$> fetch_inputs (up_transfer_id u) w' 3) s1 = Some s2 ∧
       sent k' (log s2) = sent k' (log s) ++
         [FetchResponse (mkFetchResponse ResultOk (up_file_name u) (up_file_size u) (up_mime u) ""); Raw data; Finish]) ∧
    (¬ may Perm.ENTER w' user' room → ∃ s2, play ((k',.) <$> fetch_inputs (up_transfer_id u) w' 2) s1 = Some s2 ∧
       sent k' (log s2) = sent k' (log s) ++ [FetchResponse not_found; Finish]) ∧
    (∀ tid, cache (relay s1) !! tid = None →
       ∃ s2, play ((k',.) <$> [TypeByte x02; FetchMsg tid; Go; Go; Written; Written; Go]) s1 = Some s2 ∧
       sent k' (log s2) = sent k' (log s) ++ [FetchResponse not_found; Finish]).
Proof.
  intros Hk Hk' Hne Ha Hc Hl. destruct (upload_runs user u w chunks now data (relay s) Ha Hc Hl) as (r1 & es & R & C1 & _ & C3 & C4).
  destruct (play_sent k user _ s _ _ _ Hk R) as (s1 & P1 & E1 & E2 & E3 & E4). subst r1.
  destruct (acc_room _ _ _ _ Ha) as (room & Hp & _). exists s1, room.
  assert (cache (relay s1) !! up_transfer_id u = Some (file_of u data now)) as Hf by (by rewrite C1, lookup_insert_eq).
  assert (tasks s1 !! k' = Some (Stream user' AwaitType)) as Hk1 by (by rewrite E2, lookup_insert_ne).
  assert (∀ l pc r' es outs, run_stream user' l AwaitType (relay s1) = Some (pc, r', es) →
    omap (λ e, match e with Sent o => Some o | _ => None end) es = outs →
    ∃ s2, play ((k',.) <$> l) s1 = Some s2 ∧ sent k' (log s2) = sent k' (log s) ++ outs) as Hplay.
  { intros l pc r' es' outs R' <-. destruct (play_sent k' user' l s1 pc r' es' Hk1 R') as (s2 & P2 & _ & _ & E & _).
    exists s2. by rewrite E, E4. }
  split_and!; [exact P1|by rewrite E3, C4|exact C3|exact Hp| | |].
  - intros Hm. by eapply Hplay; [by eapply fetch_runs|].
  - intros Hm. by eapply Hplay; [by eapply fetch_refused|].
  - intros tid Hn. by eapply Hplay; [by eapply fetch_unknown|].
Qed.

Lemma play_steps l (s s' : System T) : play l s = Some s' → rtc step s s'.
Proof.
  revert s. induction l as [|[k i] l IH]; intros s E; cbn in E; [by injection E as <-|].
  destruct (run _ _ _ k i s) as [s1|] eqn:E1; cbn in E; [|discriminate]. eapply rtc_l; [by eapply step_run|by apply IH].
Qed.

End facts.

(** ** A small run, for the witnesses *)

#[local] Existing Instances Persist.codecs Persist.codecs_laws Session.sample_external.

Definition sample_parse (s : string) : option Types.Uuid :=
  if String.eqb s "root" then Some Types.ROOT_ROOM_UUID else if String.eqb s "lobby" then Some St.lobby else None.
Definition sample_print (u : Types.Uuid) : string := if bool_decide (u = St.lobby) then "lobby" else "root".
Definition sample_size (n : N) : string := pretty n.
#[local] Abbreviation sample_play := (play (T := Persist.memory) sample_parse sample_print sample_size).

Definition sample_upload : RelayUpload := mkRelayUpload "t1" "lobby" "a.txt" 3 "text/plain".
Definition sample_again : RelayUpload := mkRelayUpload "t1" "root" "b.txt" 1 "text/plain".
Definition sample_config : RelayCacheConfig := mkConfig 1000 true 100 10.

(** The moderator has opened streams 0 and 3, user 2 stream 1; user 2 is about to
    disconnect (task 2); a sweep is due (task 4). *)
Definition sample_opened : System Persist.memory :=
  start 4 Sweep (start 3 (Stream 1 AwaitType) (start 2 (Leaving 2)
    (start 1 (Stream 2 AwaitType) (start 0 (Stream 1 AwaitType) (initial sample_config))))).

Lemma sample_opened_reachable : rtc (step sample_parse sample_print sample_size) (initial sample_config) sample_opened.
Proof.
  unfold sample_opened. eapply rtc_r; [|apply step_start; [reflexivity|constructor]].
  eapply rtc_r; [|apply step_start; [reflexivity|constructor]].
  eapply rtc_r; [|apply step_start; [reflexivity|constructor]].
  eapply rtc_r; [|apply step_start; [reflexivity|constructor]].
  eapply rtc_r; [|apply step_start; [reflexivity|constructor]]. apply rtc_refl.
Qed.

Definition sample_body : list bytes := [[x61; x62]; [x63]].
Definition sample_uploading : list (N * Input Persist.memory) :=
  (0%N,.) <$> upload_inputs sample_upload Session.sample_world sample_body 7.

Definition sample_uploaded : System Persist.memory := default sample_opened (sample_play sample_uploading sample_opened).

Lemma sample_acceptable :
  acceptable (T := Persist.memory) sample_parse (relay sample_opened) Session.sample_world 1 sample_upload.
Proof.
  split; [vm_compute; discriminate|reflexivity| |vm_compute; discriminate].
  exists St.lobby. split; [reflexivity|]. vm_compute. reflexivity.
Qed.

Lemma sample_uploaded_reachable : rtc (step sample_parse sample_print sample_size) (initial sample_config) sample_uploaded.
Proof.
  etrans; [exact sample_opened_reachable|]. apply (play_steps _ _ _ sample_uploading).
  unfold sample_uploaded. destruct (sample_play sample_uploading sample_opened) as [s|] eqn:E; [done|].
  exfalso. apply (f_equal (λ o, match o with Some _ => true | None => false end)) in E. vm_compute in E. discriminate E.
Qed.

Definition after (l : list (N * Input Persist.memory)) (s : System Persist.memory) : System Persist.memory :=
  default s (sample_play l s).

Lemma after_reachable l s :
  rtc (step sample_parse sample_print sample_size) (initial sample_config) s →
  rtc (step sample_parse sample_print sample_size) (initial sample_config) (after l s).
Proof.
  intros Hs. unfold after. destruct (sample_play l s) as [s'|] eqn:E; [|done]. etrans; [exact Hs|]. by eapply play_steps.
Qed.

Definition sample_fetched : System Persist.memory :=
  after ((1%N,.) <$> fetch_inputs "t1" Session.sample_world 3) sample_uploaded.

Definition has_file (tid : string) (s : System Persist.memory) : bool := bool_decide (is_Some (cache (relay s) !! tid)).

(** User 4 is still in the lobby when user 2 disconnects.  When the state is
    locked for writing between the two snapshots, the room looks empty, and its
    files go. *)
Example occupied_room_evicted :
  let data := Some (Wld.data Session.sample_world) in
  St.get_room_members (Wld.data Session.sample_world) St.lobby = [2%N; 4%N] ∧
  has_file "t1" (after [(2%N, Snapshot data); (2%N, Snapshot data)] sample_uploaded) = true ∧
  has_file "t1" (after [(2%N, Snapshot data); (2%N, Snapshot None); (2%N, Go)] sample_uploaded) = false.
Proof. vm_compute. auto. Qed.

(** Between the check and the second look-up the file expires and its identifier
    is used again in another room: the reader, who was never checked against
    that room, gets the new file. *)
Definition sample_raced : System Persist.memory :=
  after ([(1%N, TypeByte x02); (1%N, FetchMsg "t1"); (1%N, Go); (1%N, World Session.sample_world);
          (4%N, At 100000); (4%N, Go)] ++
         ((3%N,.) <$> upload_inputs sample_again Session.sample_world [[x7a]] 100000) ++ [(1%N, Go); (1%N, Written)])
    sample_uploaded.

Definition evaluated_in (k : N) (e : N * Event Persist.memory) : list Types.Uuid :=
  match e with (j, Evaluated _ _ room) => if (j =? k)%N then [room] else [] | _ => [] end.

Example other_room_served :
  let served := sent 1 (log sample_raced) in
  served = [FetchResponse (mkFetchResponse ResultOk "b.txt" 1 "text/plain" "")] ∧
  flat_map (evaluated_in 1) (log sample_raced) = [St.lobby] ∧
  (cf_room_id <$> cache (relay sample_raced) !! "t1"%string) = Some "root"%string.
Proof. vm_compute. auto. Qed.

(** The reservations of two uploads that run at once are seen by each other: 60
    of 100 bytes are promised, so 50 more are refused. *)
Example reservations_add_up :
  try_reserve 50 (set_total 60 (with_config sample_config)) = None ∧
  total_cached (release_quota 100 (set_total 30 (with_config sample_config))) = 0%N ∧
  try_reserve 100 (set_total (u64_max - 10) (with_config (mkConfig 0 true u64_max 0))) = None.
Proof. vm_compute. auto. Qed.

Lemma relay_bounded_witness :
  total_cached (relay sample_uploaded) = 3%N ∧ (total_cached (relay sample_uploaded) ≤ max_total_size sample_config)%N.
Proof.
  split; [vm_compute; reflexivity|].
  destruct (relay_bounded sample_parse sample_print sample_size sample_config sample_uploaded sample_uploaded_reachable)
    as (_ & _ & Hmax & _). exact Hmax.
Defined.

Lemma relay_keeps_what_was_admitted_witness :
  ∃ k, (k, Stored "t1" (file_of sample_upload [x61; x62; x63] 7)) ∈ log sample_uploaded.
Proof.
  destruct (proj1 (relay_keeps_what_was_admitted sample_parse sample_print sample_size sample_config sample_uploaded
    sample_uploaded_reachable) "t1"%string (file_of sample_upload [x61; x62; x63] 7)) as (k & Hk & _);
    [vm_compute; reflexivity|]. exists k. exact Hk.
Defined.


Lemma relay_round_trip_witness :
  ∃ s1, sample_play sample_uploading sample_opened = Some s1 ∧ total_cached (relay s1) = 3%N.
Proof.
  destruct (relay_round_trip sample_parse sample_print sample_size sample_opened 0 1 1 2 sample_upload Session.sample_world
    Session.sample_world sample_body 7 [x61; x62; x63]) as (s1 & room & P & _ & Et & _);
    [reflexivity|reflexivity|discriminate|exact sample_acceptable| |reflexivity|].
  - split; [reflexivity|]. repeat constructor; try discriminate.
  - exists s1. split; [exact P|]. rewrite Et. reflexivity.
Defined.

End RelayFacts.
