(* ===== verification/Jitter.v ===== *)
(** The jitter buffer of the client: [UserAudioState] of
    [crates/rumble-client/src/audio_task.rs], which turns the datagrams of one
    peer, late, lost, reordered or repeated as they are, into one frame of sound
    per tick of the device.

    The decoder is the parameter [VoiceDecoder], the trait of
    [crates/rumble-client-traits/src/codec.rs]; samples are of any type.  The
    fields of the struct are grouped into the estimate of the jitter, the
    statistics and the rest; its receive pipeline and volume are with the mixer
    (Playback.v).  The [BTreeMap] is a [gmap], its least key [min_key].  An
    [f64] is an IEEE binary64 number of the Standard Library's [SpecFloat].  An
    [Instant] is a number of nanoseconds and [elapsed] takes the current one.
    Sums on [u32] wrap, as in a release build; the [u64] frame numbers and
    counters, which a client would need centuries to exhaust, do not. *)
From Stdlib Require Import NArith ZArith Lia Floats.SpecFloat.
From stdpp Require Import base gmap list.
From S2P Require Import Prelude.

Module Jitter.

(** ** [f64] *)

Abbreviation f64 := spec_float.
Definition f64_of_N (n : N) : f64 := binary_normalize 53 1024 (Z.of_N n) 0 false.
Definition f64_add : f64 → f64 → f64 := SFadd 53 1024.
Definition f64_sub : f64 → f64 → f64 := SFsub 53 1024.
Definition f64_mul : f64 → f64 → f64 := SFmul 53 1024.
Definition f64_div : f64 → f64 → f64 := SFdiv 53 1024.
Definition f64_abs : f64 → f64 := SFabs.

(** [x.ceil() as u32]: the conversion saturates and sends NaN to zero. *)
Definition ceil_as_u32 (x : f64) : N :=
  match x with
  | S754_finite false m e =>
      N.min u32_max (if (0 <=? e)%Z then N.shiftl (Npos m) (Z.to_N e)
                     else N.shiftr (Npos m + N.shiftl 1 (Z.to_N (- e)) - 1) (Z.to_N (- e)))
  | S754_infinity false => u32_max
  | _ => 0
  end.

(** ** Constants *)

Definition FRAME_US : N := 20000.
Definition JITTER_BUFFER_MAX_PACKETS : nat := 20.
Definition MIN_TARGET_FRAMES : N := 2.
Definition MAX_TARGET_FRAMES : N := 12.
Definition DRIFT_DROP_SLACK : N := 4.
Definition RESTART_BACKWARD_FRAMES : N := 100.
Definition LATE_RESYNC_FRAMES : N := 10.
Definition STREAM_STALE_THRESHOLD : N := 200 * 1000000.

Definition clamp (x lo hi : N) : N := N.min hi (N.max lo x).
Definition clamp_target (x : N) : N := clamp x MIN_TARGET_FRAMES MAX_TARGET_FRAMES.
Definition wrapping_sub_u32 (a b : N) : N := wrap_u32 (a + 2 ^ 32 - b).

(** ** The decoder *)

(** A call gives the number of samples written, or an error, the output buffer
    and the decoder after it. *)
Class VoiceDecoder (D A : Type) := mkVoiceDecoder {
  decode : bytes → list A → D → option nat * list A * D;
  decode_plc : list A → D → option nat * list A * D;
  decode_fec : bytes → list A → D → option nat * list A * D }.

(** ** State *)

Record BufferedPacket := mkPacket { seq : N; opus : bytes }.

Record Estimate := mkEstimate {
  target_frames : N; base_frames : N; jitter_est_us : f64;
  last_arrival : N; last_arrival_frame : N; have_arrival : bool }.

Record Stats := mkStats {
  packets_received : N; packets_lost : N; packets_recovered_fec : N; frames_concealed : N; bytes_received : N }.

Record UserAudioState (D : Type) := mkState {
  decoder : D;
  jitter_buffer : gmap N BufferedPacket;
  next_play_frame : N;
  started : bool;
  last_played_seq : N;
  last_played_frame : N;
  estimate : Estimate;
  stats : Stats;
  stream_ended : bool;
  needs_prime : bool;
  pending_eos_seqs : list N;
  consecutive_late : N }.
Arguments mkState {D}. Arguments decoder {D}. Arguments jitter_buffer {D}. Arguments next_play_frame {D}.
Arguments started {D}. Arguments last_played_seq {D}. Arguments last_played_frame {D}. Arguments estimate {D}.
Arguments stats {D}. Arguments stream_ended {D}. Arguments needs_prime {D}. Arguments pending_eos_seqs {D}.
Arguments consecutive_late {D}.

(** The least key at or above [from]: [range(from..).next()]. *)
Definition key_from {A} (from : N) (m : gmap N A) : option N :=
  map_fold (λ k _ acc, if (from <=? k)%N then Some (match acc with Some a => N.min k a | None => k end) else acc) None m.
Definition min_key {A} (m : gmap N A) : option N := key_from 0 m.

Section jitter.
Context {D A : Type} `{!VoiceDecoder D A}.
Abbreviation UA := (UserAudioState D).

Definition UserAudioState_new (decoder : D) (base_delay : N) (now : N) : UA :=
  let base := clamp_target base_delay in
  mkState decoder ∅ 0 false 0 0 (mkEstimate base base (S754_zero false) now 0 false) (mkStats 0 0 0 0 0) true false [] 0.

(** *** Field updates *)

Definition with_decoder (d : D) (s : UA) : UA :=
  mkState d (jitter_buffer s) (next_play_frame s) (started s) (last_played_seq s) (last_played_frame s) (estimate s)
    (stats s) (stream_ended s) (needs_prime s) (pending_eos_seqs s) (consecutive_late s).
Definition with_buffer (m : gmap N BufferedPacket) (s : UA) : UA :=
  mkState (decoder s) m (next_play_frame s) (started s) (last_played_seq s) (last_played_frame s) (estimate s)
    (stats s) (stream_ended s) (needs_prime s) (pending_eos_seqs s) (consecutive_late s).
Definition with_cursor (f : N) (s : UA) : UA :=
  mkState (decoder s) (jitter_buffer s) f (started s) (last_played_seq s) (last_played_frame s) (estimate s)
    (stats s) (stream_ended s) (needs_prime s) (pending_eos_seqs s) (consecutive_late s).
Definition with_estimate (e : Estimate) (s : UA) : UA :=
  mkState (decoder s) (jitter_buffer s) (next_play_frame s) (started s) (last_played_seq s) (last_played_frame s) e
    (stats s) (stream_ended s) (needs_prime s) (pending_eos_seqs s) (consecutive_late s).
Definition with_stats (f : Stats → Stats) (s : UA) : UA :=
  mkState (decoder s) (jitter_buffer s) (next_play_frame s) (started s) (last_played_seq s) (last_played_frame s)
    (estimate s) (f (stats s)) (stream_ended s) (needs_prime s) (pending_eos_seqs s) (consecutive_late s).
Definition with_ended (b : bool) (s : UA) : UA :=
  mkState (decoder s) (jitter_buffer s) (next_play_frame s) (started s) (last_played_seq s) (last_played_frame s)
    (estimate s) (stats s) b (needs_prime s) (pending_eos_seqs s) (consecutive_late s).
Definition with_eos (l : list N) (s : UA) : UA :=
  mkState (decoder s) (jitter_buffer s) (next_play_frame s) (started s) (last_played_seq s) (last_played_frame s)
    (estimate s) (stats s) (stream_ended s) (needs_prime s) l (consecutive_late s).
Definition with_late (n : N) (s : UA) : UA :=
  mkState (decoder s) (jitter_buffer s) (next_play_frame s) (started s) (last_played_seq s) (last_played_frame s)
    (estimate s) (stats s) (stream_ended s) (needs_prime s) (pending_eos_seqs s) n.

Definition count_received (n : N) (t : Stats) : Stats :=
  mkStats (wrap_u32 (packets_received t + 1)) (packets_lost t) (packets_recovered_fec t) (frames_concealed t)
    (bytes_received t + n).
Definition count_lost (t : Stats) : Stats :=
  mkStats (packets_received t) (packets_lost t + 1) (packets_recovered_fec t) (frames_concealed t) (bytes_received t).
Definition count_recovered (t : Stats) : Stats :=
  mkStats (packets_received t) (packets_lost t) (packets_recovered_fec t + 1) (frames_concealed t) (bytes_received t).
Definition count_concealed (t : Stats) : Stats :=
  mkStats (packets_received t) (packets_lost t) (packets_recovered_fec t) (frames_concealed t + 1) (bytes_received t).

(** *** Arrivals *)

(** Frames at or ahead of the cursor. *)
Definition depth (s : UA) : nat := size (filter (λ e : N * BufferedPacket, (next_play_frame s ≤ e.1)%N) (jitter_buffer s)).

Definition jitter_after (est : f64) (arrival_us media_frames : N) : f64 :=
  let arrival_delta := f64_of_N arrival_us in
  let media_delta := f64_mul (f64_of_N media_frames) (f64_of_N FRAME_US) in
  let transit := f64_abs (f64_sub arrival_delta media_delta) in
  f64_add est (f64_div (f64_sub transit est) (f64_of_N 16)).

Definition target_after (base : N) (est : f64) : N :=
  let jitter_frames := ceil_as_u32 (f64_div (f64_mul (f64_of_N 2) est) (f64_of_N FRAME_US)) in
  clamp_target (wrap_u32 (base + jitter_frames)).

Definition update_jitter (frame now : N) (e : Estimate) : Estimate :=
  if have_arrival e && (last_arrival_frame e <? frame)%N then
    let est := jitter_after (jitter_est_us e) ((now - last_arrival e) / 1000) (frame - last_arrival_frame e) in
    mkEstimate (target_after (base_frames e) est) (base_frames e) est now frame true
  else mkEstimate (target_frames e) (base_frames e) (jitter_est_us e) now frame true.

Definition reanchor (frame : N) (s : UA) : UA :=
  mkState (decoder s) (jitter_buffer s) frame false (last_played_seq s) (last_played_frame s) (estimate s)
    (stats s) (stream_ended s) true [] (consecutive_late s).

(** One round of the trimming loop. *)
Definition trim_one (oldest : N) (s : UA) : UA :=
  let s := with_buffer (delete oldest (jitter_buffer s)) s in
  if started s then
    if (next_play_frame s <=? oldest)%N then with_cursor (oldest + 1) s else s
  else match min_key (jitter_buffer s) with
       | Some first => with_cursor first s
       | None => s
       end.

Definition max_depth (s : UA) : nat :=
  if started s then N.to_nat (target_frames (estimate s) + DRIFT_DROP_SLACK) else JITTER_BUFFER_MAX_PACKETS.

Definition over_full (max_depth : nat) (s : UA) : bool :=
  Nat.ltb JITTER_BUFFER_MAX_PACKETS (size (jitter_buffer s)) || Nat.ltb max_depth (depth s).

(** A round removes a packet, so the packets there are bound the rounds. *)
Fixpoint trim (fuel max_depth : nat) (s : UA) : UA :=
  match fuel with
  | O => s
  | Datatypes.S fuel =>
      if over_full max_depth s then
        match min_key (jitter_buffer s) with
        | None => s
        | Some oldest => trim fuel max_depth (trim_one oldest s)
        end
      else s
  end.

(** From "an accepted packet clears the late run" on. *)
Definition accept (frame sequence : N) (opus_data : bytes) (s : UA) : UA :=
  let s := with_ended false (with_late 0 s) in
  let s := with_buffer (<[frame := mkPacket sequence opus_data]> (jitter_buffer s)) s in
  let s := if started s then s
           else match min_key (jitter_buffer s) with Some first => with_cursor first s | None => s end in
  trim (size (jitter_buffer s)) (max_depth s) s.

Definition insert_packet_at (sequence timestamp_us : N) (opus_data : bytes) (arrival : N) (s : UA) : UA :=
  let frame := (timestamp_us / FRAME_US)%N in
  let s := with_stats (count_received (N.of_nat (List.length opus_data))) s in
  let s := with_estimate (update_jitter frame arrival (estimate s)) s in
  if started s && (frame + RESTART_BACKWARD_FRAMES <? next_play_frame s)%N then
    accept frame sequence opus_data (reanchor frame (with_buffer ∅ s))
  else if started s && (frame <? next_play_frame s)%N then
    let s := with_late (N.min u32_max (consecutive_late s + 1)) s in
    if (consecutive_late s <=? LATE_RESYNC_FRAMES)%N then s
    else accept frame sequence opus_data (reanchor frame (with_buffer ∅ s))
  else accept frame sequence opus_data s.

Definition mark_end_of_stream (sequence : N) (s : UA) : UA :=
  let s := with_ended true s in
  if contains (pending_eos_seqs s) sequence then s
  else
    let l := if Nat.leb 8 (List.length (pending_eos_seqs s)) then tail (pending_eos_seqs s) else pending_eos_seqs s in
    with_eos (l ++ [sequence]) s.

(** *** Playing *)

Definition ready_to_play (s : UA) : bool :=
  started s || Nat.leb (N.to_nat (target_frames (estimate s))) (depth s).

Definition is_stale (now : N) (s : UA) : bool :=
  have_arrival (estimate s) && (STREAM_STALE_THRESHOLD <? now - last_arrival (estimate s))%N.

Definition is_empty (s : UA) : bool := bool_decide (jitter_buffer s = ∅).

Definition is_stream_live (now : N) (s : UA) : bool :=
  if negb (stream_ended s) && negb (is_stale now s) then true
  else ready_to_play s && negb (is_empty s).

Definition stale_guard (now : N) (s : UA) : UA :=
  if negb (stream_ended s) && is_stale now s then with_ended true s else s.

(** The discarded frame that primes the decoder at an onset; [silence] is the
    zeroed buffer it is written to. *)
Definition prime (silence : list A) (s : UA) : UA :=
  if needs_prime s then
    let d := (decode_plc silence (decoder s)).2 in
    mkState d (jitter_buffer s) (next_play_frame s) (started s) (last_played_seq s) (last_played_frame s) (estimate s)
      (stats s) (stream_ended s) false (pending_eos_seqs s) (consecutive_late s)
  else s.

Definition plc (out : list A) (s : UA) : option nat * list A * UA :=
  let '(n, out, d) := decode_plc out (decoder s) in (n, out, with_decoder d s).

(** What is left of the EOS markers once the packet [played_seq] has played. *)
Definition still_ahead (played_seq : N) (l : list N) : list N :=
  retain (λ s, let d := wrapping_sub_u32 s played_seq in negb (d =? 0)%N && (d <? u32_max / 2)%N) l.

Definition play_packet (frame : N) (pkt : BufferedPacket) (out : list A) (s : UA) : option nat * list A * UA :=
  let s := mkState (decoder s) (delete frame (jitter_buffer s)) (next_play_frame s + 1) true (seq pkt) frame (estimate s)
             (stats s) (stream_ended s) (needs_prime s) (still_ahead (seq pkt) (pending_eos_seqs s)) (consecutive_late s) in
  let '(r, out, d) := decode (opus pkt) out (decoder s) in
  let s := with_decoder d s in
  match r with
  | Some n => (Some n, out, s)
  | None => plc out (with_stats count_concealed s)
  end.

(** A frame whose time has passed with nothing to play. *)
Definition conceal (out : list A) (s : UA) : option nat * list A * UA :=
  plc out (with_cursor (next_play_frame s + 1) (with_stats count_concealed s)).

Definition eos_in_span (s : UA) (seq_span : N) : N :=
  N.of_nat (List.length (retain (λ e, let d := wrapping_sub_u32 e (last_played_seq s) in
    (0 <? d)%N && (d <? seq_span)%N) (pending_eos_seqs s))).

(** The media clock went further than the sequence numbers: the sender was
    silent. *)
Definition silent_gap (s : UA) (next_frame next_seq : N) : bool :=
  let media_span := (next_frame - last_played_frame s)%N in
  let seq_span := wrapping_sub_u32 next_seq (last_played_seq s) in
  (seq_span - eos_in_span s seq_span <? media_span)%N.

Definition recover (frame next_frame : N) (out : list A) (s : UA) : option nat * list A * UA :=
  let s := with_cursor (next_play_frame s + 1) (with_stats count_lost s) in
  match (if (next_frame =? frame + 1)%N then jitter_buffer s !! next_frame else None) with
  | Some pkt =>
      let '(r, out, d) := decode_fec (opus pkt) out (decoder s) in
      let s := with_decoder d s in
      match r with
      | Some n => (Some n, out, with_stats count_recovered s)
      | None => plc out (with_stats count_concealed s)
      end
  | None => plc out (with_stats count_concealed s)
  end.

Definition decode_next_into (silence : list A) (now : N) (out : list A) (s : UA) : option nat * list A * UA :=
  if negb (ready_to_play s) then (None, out, s)
  else
    let s := stale_guard now s in
    if stream_ended s && is_empty s then (None, out, s)
    else
      let s := prime silence s in
      let frame := next_play_frame s in
      match jitter_buffer s !! frame with
      | Some pkt => play_packet frame pkt out s
      | None =>
          match (next_frame ← key_from (frame + 1) (jitter_buffer s);
                 pkt ← jitter_buffer s !! next_frame; Some (next_frame, seq pkt)) with
          | None => if stream_ended s then (None, out, s) else conceal out s
          | Some (next_frame, next_seq) =>
              if started s && silent_gap s next_frame next_seq then (None, out, reanchor next_frame s)
              else recover frame next_frame out s
          end
      end.

End jitter.

End Jitter.
