(* ===== verification/JitterFacts.v ===== *)
(** What holds of the jitter buffer (Jitter.v): its bounds ([jitter_bounds]), the
    order in which it plays ([plays_in_order]), the tellings of loss from
    silence ([gap_classification]), that a spurt is played through
    ([spurt_plays_through]) and that an ended stream falls silent
    ([ended_stream_falls_silent]). *)
From Stdlib Require Import NArith ZArith Lia Floats.SpecFloat.
From stdpp Require Import base gmap list sorting.
From S2P Require Import Prelude Jitter.

Module JitterFacts.
Import Jitter.

(** ** Least keys *)

Lemma key_from_spec {A} (from : N) (m : gmap N A) :
  match key_from from m with
  | Some k => is_Some (m !! k) ∧ (from ≤ k)%N ∧ ∀ j, is_Some (m !! j) → (from ≤ j)%N → (k ≤ j)%N
  | None => ∀ j, is_Some (m !! j) → (j < from)%N
  end.
Proof.
  unfold key_from. refine (map_fold_weak_ind (λ r m, match r with
    | Some k => is_Some (m !! k) ∧ (from ≤ k)%N ∧ ∀ j, is_Some (m !! j) → (from ≤ j)%N → (k ≤ j)%N
    | None => ∀ j, is_Some (m !! j) → (j < from)%N end) _ _ _ _ m).
  - intros j [y Hj]. by rewrite lookup_empty in Hj.
  - clear m. intros k x m acc Hk IH.
    assert (∀ j, is_Some (<[k:=x]> m !! j) → j = k ∨ is_Some (m !! j)) as Hj.
    { intros j [y [[-> _]|[_ Hj]]%lookup_insert_Some]; [by left|right; by eexists]. }
    assert (∀ j, is_Some (m !! j) → is_Some (<[k:=x]> m !! j)) as Hold.
    { intros j Hm. destruct (decide (j = k)) as [->|]; [rewrite lookup_insert_eq; by eexists|by rewrite lookup_insert_ne]. }
    assert (is_Some (<[k:=x]> m !! k)) as Hnew by (rewrite lookup_insert_eq; by eexists).
    destruct (N.leb_spec from k) as [Hle|Hlt], acc as [a|].
    + destruct IH as (Ha & Hfa & Hmin). split; [|split; [lia|]].
      * destruct (N.min_spec k a) as [[_ ->]|[_ ->]]; auto.
      * intros j [->|Hm]%Hj Hf; [lia|]. specialize (Hmin j Hm Hf). lia.
    + split; [done|split; [done|]]. intros j [->|Hm]%Hj Hf; [lia|]. specialize (IH j Hm). lia.
    + destruct IH as (Ha & Hfa & Hmin). split; [auto|split; [done|]]. intros j [->|Hm]%Hj Hf; [lia|]. by apply Hmin.
    + intros j [->|Hm]%Hj; [done|]. by apply IH.
Qed.

Lemma min_key_Some {A} (m : gmap N A) k :
  min_key m = Some k → is_Some (m !! k) ∧ ∀ j, is_Some (m !! j) → (k ≤ j)%N.
Proof.
  unfold min_key. intros E. pose proof (key_from_spec 0 m) as H. rewrite E in H. destruct H as (Hk & _ & Hmin).
  split; [done|]. intros j Hj. apply Hmin; [done|lia].
Qed.

Lemma min_key_None {A} (m : gmap N A) : min_key m = None → m = ∅.
Proof.
  unfold min_key. intros E. pose proof (key_from_spec 0 m) as H. rewrite E in H. apply map_empty. intros j.
  destruct (m !! j) eqn:Ej; [|done]. specialize (H j ltac:(by eexists)). lia.
Qed.

Lemma min_key_eq {A} (m : gmap N A) k :
  is_Some (m !! k) → (∀ j, is_Some (m !! j) → (k ≤ j)%N) → min_key m = Some k.
Proof.
  intros Hk Hmin. destruct (min_key m) as [a|] eqn:E.
  - apply min_key_Some in E as [Ha Hmina]. specialize (Hmin a Ha). specialize (Hmina k Hk). f_equal. lia.
  - apply min_key_None in E as ->. destruct Hk as [x Hx]. by rewrite lookup_empty in Hx.
Qed.

Section facts.
Context {D A : Type} `{!VoiceDecoder D A}.
Abbreviation UA := (UserAudioState D).
Implicit Types s : UA.

Definition has (s : UA) (f : N) : Prop := is_Some (jitter_buffer s !! f).

(** ** The invariant *)

(** Where the cursor may stand: nothing is buffered behind it; before a spurt
    starts it is on the earliest frame, after, past the last one played. *)
Record placed (s : UA) : Prop := mkPlaced {
  pl_keys : ∀ f, has s f → (next_play_frame s ≤ f)%N;
  pl_first : started s = false → jitter_buffer s ≠ ∅ → has s (next_play_frame s);
  pl_played : started s = true → (last_played_frame s < next_play_frame s)%N }.

Record bounded (s : UA) : Prop := mkBounded {
  bd_size : (size (jitter_buffer s) ≤ JITTER_BUFFER_MAX_PACKETS)%nat;
  bd_target : (MIN_TARGET_FRAMES ≤ target_frames (estimate s) ≤ MAX_TARGET_FRAMES)%N;
  bd_late : (consecutive_late s ≤ LATE_RESYNC_FRAMES)%N;
  bd_eos : (List.length (pending_eos_seqs s) ≤ 8)%nat }.

Definition wf (s : UA) : Prop := placed s ∧ bounded s.

Lemma clamp_target_bounds x : (MIN_TARGET_FRAMES ≤ clamp_target x ≤ MAX_TARGET_FRAMES)%N.
Proof. unfold clamp_target, clamp, MIN_TARGET_FRAMES, MAX_TARGET_FRAMES. lia. Qed.

Lemma new_wf d base now : wf (UserAudioState_new d base now).
Proof.
  split; split; cbn; try done.
  - intros f [x Hx]. cbn in Hx. by rewrite lookup_empty in Hx.
  - rewrite map_size_empty. unfold JITTER_BUFFER_MAX_PACKETS. lia.
  - apply clamp_target_bounds.
  - lia.
Qed.

Lemma depth_le s : (depth s ≤ size (jitter_buffer s))%nat.
Proof. apply map_subseteq_size, map_filter_subseteq. Qed.

Lemma depth_placed s : placed s → depth s = size (jitter_buffer s).
Proof.
  intros P. unfold depth. f_equal. apply map_filter_id. intros f x Hx. cbn. apply (pl_keys _ P). by eexists.
Qed.

(** *** Trimming *)

(** What trimming leaves alone. *)
Definition trimmed (s s' : UA) : Prop :=
  started s' = started s ∧ decoder s' = decoder s ∧ last_played_seq s' = last_played_seq s ∧
  last_played_frame s' = last_played_frame s ∧ estimate s' = estimate s ∧ stats s' = stats s ∧
  stream_ended s' = stream_ended s ∧ needs_prime s' = needs_prime s ∧ pending_eos_seqs s' = pending_eos_seqs s ∧
  consecutive_late s' = consecutive_late s ∧ jitter_buffer s' ⊆ jitter_buffer s.

Lemma trim_one_spec oldest s :
  min_key (jitter_buffer s) = Some oldest → placed s →
  placed (trim_one oldest s) ∧ trimmed s (trim_one oldest s) ∧
  Datatypes.S (size (jitter_buffer (trim_one oldest s))) = size (jitter_buffer s).
Proof.
  intros Hmin P. apply min_key_Some in Hmin as [Ho Hmin].
  assert (jitter_buffer (trim_one oldest s) = delete oldest (jitter_buffer s)) as Eb.
  { unfold trim_one. cbn. destruct (started s) eqn:Est; [by destruct (_ <=? _)%N|].
    by destruct (min_key (delete oldest (jitter_buffer s))). }
  assert (Datatypes.S (size (jitter_buffer (trim_one oldest s))) = size (jitter_buffer s)) as Esz.
  { rewrite Eb, map_size_delete_Some by done. destruct Ho as [x Hx].
    assert (size (jitter_buffer s) ≠ 0%nat) by (apply (map_size_ne_0_lookup_2 _ oldest); by eexists). lia. }
  assert (∀ f, has (trim_one oldest s) f → has s f ∧ (oldest < f)%N) as Hhas.
  { intros f. unfold has. rewrite Eb. intros [x [Hne Hx]%lookup_delete_Some]. split; [by eexists|].
    specialize (Hmin f ltac:(by eexists)). lia. }
  split; [|split; [|exact Esz]].
  - destruct (started s) eqn:Est.
    + assert (started (trim_one oldest s) = true ∧ last_played_frame (trim_one oldest s) = last_played_frame s ∧
        next_play_frame (trim_one oldest s) = N.max (next_play_frame s) (oldest + 1)) as (E1 & E2 & E3).
      { unfold trim_one. cbn. rewrite Est. cbn. destruct (N.leb_spec (next_play_frame s) oldest); cbn; rewrite Est; split_and!; try done; lia. }
      split; rewrite ?E1, ?E2, ?E3; try done.
      * intros f [Hf Hlt]%Hhas. pose proof (pl_keys _ P f Hf). lia.
      * intros _. pose proof (pl_played _ P Est). lia.
    + assert (started (trim_one oldest s) = false) as E1.
      { unfold trim_one. cbn. rewrite Est. by destruct (min_key _). }
      destruct (min_key (jitter_buffer (trim_one oldest s))) as [first|] eqn:Ef.
      * assert (next_play_frame (trim_one oldest s) = first) as E3.
        { rewrite Eb in Ef. unfold trim_one. cbn. rewrite Est. by rewrite Ef. }
        apply min_key_Some in Ef as [Hfirst Hminf]. split; rewrite ?E1, ?E3; try done.
      * apply min_key_None in Ef. split; rewrite ?E1; try done. intros f [x Hx]. by rewrite Ef, lookup_empty in Hx.
  - unfold trimmed. rewrite Eb. unfold trim_one. cbn. destruct (started s) eqn:Est; cbn.
    + destruct (_ <=? _)%N; cbn; split_and!; try done; apply delete_subseteq.
    + destruct (min_key _); cbn; split_and!; try done; apply delete_subseteq.
Qed.

Lemma over_full_empty md s : jitter_buffer s = ∅ → over_full md s = false.
Proof.
  intros E. pose proof (depth_le s) as Hd. unfold over_full. rewrite E, map_size_empty in Hd |- *.
  apply orb_false_iff. split; apply Nat.ltb_ge; [unfold JITTER_BUFFER_MAX_PACKETS|]; lia.
Qed.

Lemma trim_spec fuel md s :
  (size (jitter_buffer s) ≤ fuel)%nat → placed s →
  placed (trim fuel md s) ∧ trimmed s (trim fuel md s) ∧ over_full md (trim fuel md s) = false.
Proof.
  revert s. induction fuel as [|fuel IH]; intros s Hf P; cbn.
  - assert (jitter_buffer s = ∅) as E by (apply map_size_empty_iff; lia). split_and!; [done|by repeat split|].
    by apply over_full_empty.
  - destruct (over_full md s) eqn:Eo; [|split_and!; [done|by repeat split|done]].
    destruct (min_key (jitter_buffer s)) as [oldest|] eqn:Em.
    + destruct (trim_one_spec oldest s Em P) as (P1 & T1 & Esz). destruct (IH (trim_one oldest s) ltac:(lia) P1) as (P2 & T2 & O2).
      split_and!; [done| |done].
      destruct T1 as (? & ? & ? & ? & ? & ? & ? & ? & ? & ? & ?), T2 as (? & ? & ? & ? & ? & ? & ? & ? & ? & ? & ?).
      split_and!; try (by etrans).
    + apply min_key_None, (over_full_empty md) in Em. congruence.
Qed.

(** *** Arrivals *)

(** The state before trimming. *)
Definition entered (frame sequence : N) (opus_data : bytes) (s : UA) : UA :=
  let s := with_ended false (with_late 0 s) in
  let s := with_buffer (<[frame := mkPacket sequence opus_data]> (jitter_buffer s)) s in
  if started s then s else match min_key (jitter_buffer s) with Some first => with_cursor first s | None => s end.

Lemma entered_spec frame sequence opus_data s :
  (started s = true → placed s ∧ (next_play_frame s ≤ frame)%N) →
  let s1 := entered frame sequence opus_data s in
  placed s1 ∧ started s1 = started s ∧ jitter_buffer s1 = <[frame := mkPacket sequence opus_data]> (jitter_buffer s) ∧
  estimate s1 = estimate s ∧ pending_eos_seqs s1 = pending_eos_seqs s ∧ consecutive_late s1 = 0%N ∧
  stream_ended s1 = false ∧ last_played_seq s1 = last_played_seq s ∧ last_played_frame s1 = last_played_frame s ∧
  decoder s1 = decoder s ∧ stats s1 = stats s ∧ needs_prime s1 = needs_prime s.
Proof.
  intros Hst. unfold entered. cbn. set (buf := <[frame := _]> (jitter_buffer s)).
  assert (is_Some (buf !! frame)) as Hnew by (unfold buf; rewrite lookup_insert_eq; by eexists).
  destruct (started s) eqn:Est; cbn.
  - destruct (Hst eq_refl) as [P Hf]. rewrite Est. split_and!; try done. split; cbn.
    + unfold has; cbn. intros f [y [[<- _]|[_ Hy]]%lookup_insert_Some]; [done|]. apply (pl_keys _ P). by eexists.
    + congruence.
    + intros _. by apply (pl_played _ P).
  - destruct (min_key buf) as [first|] eqn:Em.
    + apply min_key_Some in Em as [Hfirst Hmin]. cbn. rewrite Est. split_and!; try done. split; cbn; try congruence; done.
    + apply min_key_None in Em. rewrite Em, lookup_empty in Hnew. by destruct Hnew.
Qed.

Lemma accept_entered frame sequence opus_data s :
  accept frame sequence opus_data s =
  let s1 := entered frame sequence opus_data s in trim (size (jitter_buffer s1)) (max_depth s1) s1.
Proof. done. Qed.

Lemma accept_spec frame sequence opus_data s :
  (started s = true → placed s ∧ (next_play_frame s ≤ frame)%N) →
  (MIN_TARGET_FRAMES ≤ target_frames (estimate s) ≤ MAX_TARGET_FRAMES)%N → (List.length (pending_eos_seqs s) ≤ 8)%nat →
  let s' := accept frame sequence opus_data s in
  wf s' ∧ (depth s' ≤ max_depth s')%nat ∧ started s' = started s ∧
  jitter_buffer s' ⊆ <[frame := mkPacket sequence opus_data]> (jitter_buffer s) ∧
  estimate s' = estimate s ∧ stream_ended s' = false ∧ last_played_frame s' = last_played_frame s.
Proof.
  intros Hst Ht He. rewrite accept_entered. cbn zeta.
  destruct (entered_spec frame sequence opus_data s Hst) as (P & E1 & E2 & E3 & E4 & E5 & E6 & _ & E8 & _).
  set (s1 := entered _ _ _ s) in *.
  destruct (trim_spec (size (jitter_buffer s1)) (max_depth s1) s1 ltac:(done) P) as (P2 & T & O).
  destruct T as (T1 & _ & _ & T4 & T5 & _ & T7 & _ & T9 & T10 & T11).
  apply orb_false_iff in O as [O1%Nat.ltb_ge O2%Nat.ltb_ge].
  split_and!; [split; [done|]|unfold max_depth in *; by rewrite T1, T5|congruence|by rewrite <- E2|congruence|congruence|congruence].
  split; [done| | |]; rewrite ?T5, ?T9, ?T10, ?E3, ?E4, ?E5; [done|unfold LATE_RESYNC_FRAMES; lia|done].
Qed.

Lemma update_jitter_target frame now e :
  (MIN_TARGET_FRAMES ≤ target_frames e ≤ MAX_TARGET_FRAMES)%N →
  (MIN_TARGET_FRAMES ≤ target_frames (update_jitter frame now e) ≤ MAX_TARGET_FRAMES)%N.
Proof. intros Ht. unfold update_jitter. destruct (_ && _); cbn; [apply clamp_target_bounds|done]. Qed.

(** Whether an arrival makes the buffer start over. *)
Definition restarts (frame : N) (s : UA) : bool :=
  started s && ((frame + RESTART_BACKWARD_FRAMES <? next_play_frame s)%N
    || (frame <? next_play_frame s)%N && (LATE_RESYNC_FRAMES <=? consecutive_late s)%N).

(** What is done before an arrival is judged. *)
Definition noted (timestamp_us : N) (opus_data : bytes) (arrival : N) (s : UA) : UA :=
  with_estimate (update_jitter (timestamp_us / FRAME_US) arrival (estimate s))
    (with_stats (count_received (N.of_nat (List.length opus_data))) s).

(** An arrival is dropped, starts the buffer over, or is entered. *)
Lemma insert_cases sequence timestamp_us opus_data arrival s :
  (consecutive_late s ≤ LATE_RESYNC_FRAMES)%N →
  let frame := (timestamp_us / FRAME_US)%N in
  let s1 := noted timestamp_us opus_data arrival s in
  let s' := insert_packet_at sequence timestamp_us opus_data arrival s in
  (restarts frame s = true ∧ ∃ n, s' = accept frame sequence opus_data (reanchor frame (with_buffer ∅ (with_late n s1)))) ∨
  (restarts frame s = false ∧ started s = true ∧ (frame < next_play_frame s)%N ∧ (consecutive_late s < LATE_RESYNC_FRAMES)%N ∧
     s' = with_late (consecutive_late s + 1) s1) ∨
  (restarts frame s = false ∧ (started s = true → (next_play_frame s ≤ frame)%N) ∧
     s' = accept frame sequence opus_data s1).
Proof.
  intros Hl frame s1 s'. unfold s', insert_packet_at, restarts. fold frame.
  change (with_estimate _ (with_stats _ s)) with s1. cbn [started next_play_frame s1 noted with_estimate with_stats].
  destruct (started s) eqn:Est; cbn [andb].
  - destruct (N.ltb_spec (frame + RESTART_BACKWARD_FRAMES) (next_play_frame s)) as [H1|H1]; cbn [orb].
    + left. split; [done|]. by exists (consecutive_late s1).
    + destruct (N.ltb_spec frame (next_play_frame s)) as [H2|H2]; cbn [andb].
      * change (consecutive_late s1) with (consecutive_late s).
        assert (N.min u32_max (consecutive_late s + 1) = consecutive_late s + 1)%N as ->
          by (unfold u32_max, LATE_RESYNC_FRAMES in *; lia).
        cbn [consecutive_late with_late].
        destruct (N.leb_spec (consecutive_late s + 1) LATE_RESYNC_FRAMES), (N.leb_spec LATE_RESYNC_FRAMES (consecutive_late s)); try lia.
        -- right. left. split_and!; try done; lia.
        -- left. split; [done|]. by eexists.
      * right. right. split_and!; [done|lia|done].
  - right. right. split_and!; done.
Qed.

Lemma insert_wf sequence timestamp_us opus_data arrival s :
  wf s → wf (insert_packet_at sequence timestamp_us opus_data arrival s).
Proof.
  intros [P [B1 B2 B3 B4]]. pose proof (update_jitter_target (timestamp_us / FRAME_US) arrival (estimate s) B2) as Ht.
  destruct (insert_cases sequence timestamp_us opus_data arrival s B3) as [(_ & n & ->)|[(_ & Est & Hlt & Hl & ->)|(_ & Hle & ->)]].
  - apply accept_spec; [done|exact Ht|cbn; lia].
  - split; [by destruct P|]. split; cbn; [done|exact Ht|lia|done].
  - apply accept_spec; [|exact Ht|exact B4]. intros Est. split; [by destruct P|by apply Hle].
Qed.

Lemma mark_end_wf sequence s : wf s → wf (mark_end_of_stream sequence s).
Proof.
  intros [[P1 P2 P3] [B1 B2 B3 B4]]. unfold mark_end_of_stream. cbn [pending_eos_seqs with_ended].
  destruct (contains _ _); [by split|]. destruct (Nat.leb_spec 8 (List.length (pending_eos_seqs s))) as [Hl|Hl];
    (split; [by split|split; [done|done|done|]]); cbn [pending_eos_seqs with_eos]; rewrite length_app; cbn [List.length].
  - destruct (pending_eos_seqs s); cbn [tail List.length] in *; lia.
  - lia.
Qed.

(** *** Ticks *)

(** What the guards at the head of [decode_next_into] leave alone. *)
Definition same_place (s s' : UA) : Prop :=
  jitter_buffer s' = jitter_buffer s ∧ next_play_frame s' = next_play_frame s ∧ started s' = started s ∧
  last_played_seq s' = last_played_seq s ∧ last_played_frame s' = last_played_frame s ∧ estimate s' = estimate s ∧
  pending_eos_seqs s' = pending_eos_seqs s ∧ consecutive_late s' = consecutive_late s ∧ stats s' = stats s.

Lemma stale_guard_place now s : same_place s (stale_guard now s).
Proof. unfold stale_guard. by destruct (_ && _). Qed.

Definition awake (silence : list A) (now : N) (s : UA) : UA := prime silence (stale_guard now s).

Lemma awake_place silence now s : same_place s (awake silence now s) ∧
  stream_ended (awake silence now s) = stream_ended (stale_guard now s).
Proof. unfold awake, prime, stale_guard. destruct (_ && _); cbn; by destruct (needs_prime s). Qed.

Lemma silent_gap_place s s' f q : same_place s s' → silent_gap s' f q = silent_gap s f q.
Proof.
  intros (_ & _ & _ & E4 & E5 & _ & E7 & _). unfold silent_gap, eos_in_span. by rewrite E4, E5, E7.
Qed.

(** The next packet ahead of the cursor. *)
Definition next_packet (s : UA) (nf : N) (pkt : BufferedPacket) : Prop :=
  min_key (jitter_buffer s) = Some nf ∧ jitter_buffer s !! nf = Some pkt ∧ (next_play_frame s < nf)%N.

Lemma key_ahead s : placed s → jitter_buffer s !! next_play_frame s = None →
  key_from (next_play_frame s + 1) (jitter_buffer s) = min_key (jitter_buffer s).
Proof.
  intros P Hn. pose proof (key_from_spec (next_play_frame s + 1) (jitter_buffer s)) as Hs.
  destruct (key_from _ _) as [k|] eqn:E.
  - destruct Hs as (Hk & _ & Hmin). symmetry. apply min_key_eq; [done|]. intros j Hj. apply Hmin; [done|].
    pose proof (pl_keys _ P j Hj). assert (j ≠ next_play_frame s); [|lia]. intros ->. destruct Hj as [x Hx]. congruence.
  - destruct (min_key (jitter_buffer s)) as [k|] eqn:Ek; [|done]. apply min_key_Some in Ek as [Hk _].
    specialize (Hs k Hk). pose proof (pl_keys _ P k Hk). assert (k = next_play_frame s) as -> by lia.
    destruct Hk as [x Hx]. congruence.
Qed.

(** What one tick does, case by case. *)
Lemma tick_cases silence now out s :
  placed s → (0 < target_frames (estimate s))%N →
  let s1 := awake silence now s in
  let x := decode_next_into silence now out s in
  (ready_to_play s = false ∧ x = (None, out, s)) ∨
  (ready_to_play s = true ∧ jitter_buffer s = ∅ ∧ stream_ended (stale_guard now s) = true ∧
     x = (None, out, stale_guard now s)) ∨
  (ready_to_play s = true ∧ ∃ pkt, jitter_buffer s !! next_play_frame s = Some pkt ∧
     x = play_packet (next_play_frame s) pkt out s1) ∨
  (started s = true ∧ jitter_buffer s = ∅ ∧ stream_ended (stale_guard now s) = false ∧ x = conceal out s1) ∨
  (started s = true ∧ ∃ nf pkt, next_packet s nf pkt ∧ silent_gap s nf (seq pkt) = true ∧ x = (None, out, reanchor nf s1)) ∨
  (started s = true ∧ ∃ nf pkt, next_packet s nf pkt ∧ silent_gap s nf (seq pkt) = false ∧
     x = recover (next_play_frame s) nf out s1).
Proof.
  intros P Ht s1 x. unfold x, decode_next_into. destruct (ready_to_play s) eqn:Er; [right|by left]. cbn [negb].
  pose proof (stale_guard_place now s) as (G1 & _).
  destruct (awake_place silence now s) as [Hp Een]. fold s1 in Hp, Een. pose proof Hp as (E1 & E2 & E3 & _).
  unfold is_empty. rewrite G1. change (prime silence (stale_guard now s)) with s1.
  assert (jitter_buffer s = ∅ → started s = true) as Hst.
  { intros E. unfold ready_to_play in Er. apply orb_true_iff in Er as [?|Hd%Nat.leb_le]; [done|].
    pose proof (depth_le s) as Hd'. rewrite E, map_size_empty in Hd'. lia. }
  destruct (decide (jitter_buffer s = ∅)) as [E|E].
  - rewrite bool_decide_eq_true_2 by done. destruct (stream_ended (stale_guard now s)) eqn:Ee; cbn [andb]; [by left|].
    right. right. left. split_and!; try done; [by apply Hst|]. rewrite E2, E1, E, lookup_empty.
    pose proof (key_from_spec (next_play_frame s + 1) (∅ : gmap N BufferedPacket)) as Hk.
    destruct (key_from _ _); [destruct Hk as [[y Hy] _]; by rewrite lookup_empty in Hy|]. cbn [mbind option_bind]. by rewrite Een.
  - rewrite bool_decide_eq_false_2, andb_false_r by done. rewrite E2, E1. right.
    destruct (jitter_buffer s !! next_play_frame s) as [pkt|] eqn:Ef; [left; split; [done|by exists pkt]|right; right].
    assert (started s = true) as Est.
    { destruct (started s) eqn:Est; [done|]. destruct (pl_first _ P Est E) as [y Hy]. congruence. }
    rewrite (key_ahead s P Ef). destruct (min_key (jitter_buffer s)) as [nf|] eqn:Em; [|by apply min_key_None in Em].
    pose proof Em as [[pkt Hpkt] _]%min_key_Some. cbn. rewrite Hpkt, E3, Est. cbn.
    assert (next_packet s nf pkt) as Hnp.
    { split_and!; try done. pose proof (pl_keys _ P nf ltac:(by eexists)). assert (nf ≠ next_play_frame s) by congruence. lia. }
    rewrite (silent_gap_place s s1) by done.
    destruct (silent_gap s nf (seq pkt)) eqn:Eg; [left|right]; (split; [done|exists nf, pkt; done]).
Qed.

(** What calling the decoder leaves alone. *)
Lemma plc_same out s n out' s' : plc out s = (n, out', s') → s' = with_decoder (decoder s') s.
Proof. unfold plc. destruct (decode_plc out (decoder s)) as [[? ?] ?]. by intros [= <- <- <-]. Qed.

Definition moved (s s' : UA) (buf : gmap N BufferedPacket) (cursor : N) : Prop :=
  jitter_buffer s' = buf ∧ next_play_frame s' = cursor ∧ estimate s' = estimate s ∧
  consecutive_late s' = consecutive_late s ∧ stream_ended s' = stream_ended s ∧ needs_prime s' = needs_prime s.

Lemma play_packet_spec frame pkt out s r out' s' :
  play_packet frame pkt out s = (r, out', s') →
  moved s s' (delete frame (jitter_buffer s)) (next_play_frame s + 1) ∧ started s' = true ∧
  last_played_seq s' = seq pkt ∧ last_played_frame s' = frame ∧
  pending_eos_seqs s' = still_ahead (seq pkt) (pending_eos_seqs s) ∧ packets_lost (stats s') = packets_lost (stats s).
Proof.
  unfold play_packet, plc. cbn. destruct (decode (opus pkt) out (decoder s)) as [[[n|] o] d]; cbn; [by intros [= <- <- <-]|].
  destruct (decode_plc o d) as [[? ?] ?]. by intros [= <- <- <-].
Qed.

(** A tick that plays no packet but takes its time. *)
Definition skipped (s s' : UA) (lost : N) : Prop :=
  moved s s' (jitter_buffer s) (next_play_frame s + 1) ∧ started s' = started s ∧
  last_played_seq s' = last_played_seq s ∧ last_played_frame s' = last_played_frame s ∧
  pending_eos_seqs s' = pending_eos_seqs s ∧ packets_lost (stats s') = (packets_lost (stats s) + lost)%N.

Lemma conceal_spec out s r out' s' : conceal out s = (r, out', s') → skipped s s' 0.
Proof.
  unfold conceal, plc. cbn. destruct (decode_plc out (decoder s)) as [[? ?] ?]. intros [= <- <- <-].
  unfold skipped, moved. cbn. rewrite N.add_0_r. by split_and!.
Qed.

Lemma recover_spec frame nf out s r out' s' : recover frame nf out s = (r, out', s') → skipped s s' 1.
Proof.
  unfold recover, plc. cbn. destruct (if (nf =? frame + 1)%N then _ else _) as [pkt|].
  - destruct (decode_fec (opus pkt) out (decoder s)) as [[[n|] o] d]; cbn; [by intros [= <- <- <-]|].
    destruct (decode_plc o d) as [[? ?] ?]. by intros [= <- <- <-].
  - destruct (decode_plc out (decoder s)) as [[? ?] ?]. by intros [= <- <- <-].
Qed.

(** ** Runs *)

Inductive Op :=
  | Arrive (sequence timestamp_us : N) (opus_data : bytes) (arrival : N)
  | EndOfStream (sequence : N)
  | Tick (now : N).

Context (silence scratch : list A).

(** The packet a tick hands to the decoder, with its frame. *)
Definition plays (s : UA) : option (N * BufferedPacket) :=
  if ready_to_play s then (λ pkt, (next_play_frame s, pkt)) <$> jitter_buffer s !! next_play_frame s else None.

Definition tick (now : N) (s : UA) : UA := (decode_next_into silence now scratch s).2.

Definition do_op (o : Op) (s : UA) : UA * list (N * BufferedPacket) :=
  match o with
  | Arrive sequence timestamp_us opus_data arrival => (insert_packet_at sequence timestamp_us opus_data arrival s, [])
  | EndOfStream sequence => (mark_end_of_stream sequence s, [])
  | Tick now => (tick now s, option_list (plays s))
  end.

(** The state after some operations, and the packets played on the way. *)
Fixpoint run (ops : list Op) (s : UA) : UA * list (N * BufferedPacket) :=
  match ops with
  | [] => (s, [])
  | o :: ops => let '(s, p) := do_op o s in let '(s, q) := run ops s in (s, p ++ q)
  end.

Lemma run_app ops ops' s :
  run (ops ++ ops') s = let '(s, p) := run ops s in let '(s, q) := run ops' s in (s, p ++ q).
Proof.
  revert s. induction ops as [|o ops IH]; intros s; cbn; [by destruct (run ops' s)|].
  destruct (do_op o s) as [s1 p1]. rewrite IH. destruct (run ops s1) as [s2 p2]. destruct (run ops' s2). by rewrite app_assoc.
Qed.

(** A tick, from the outside. *)
Lemma tick_moves now s :
  placed s → (0 < target_frames (estimate s))%N →
  let s' := tick now s in
  estimate s' = estimate s ∧ consecutive_late s' = consecutive_late s ∧
  (List.length (pending_eos_seqs s') ≤ List.length (pending_eos_seqs s))%nat ∧
  (plays s = None ∧ jitter_buffer s' = jitter_buffer s ∧ next_play_frame s' = next_play_frame s ∧
     started s' = started s ∧ last_played_frame s' = last_played_frame s ∨
   (∃ pkt, plays s = Some (next_play_frame s, pkt) ∧ jitter_buffer s !! next_play_frame s = Some pkt ∧
     jitter_buffer s' = delete (next_play_frame s) (jitter_buffer s) ∧ next_play_frame s' = (next_play_frame s + 1)%N ∧
     started s' = true ∧ last_played_frame s' = next_play_frame s) ∨
   (plays s = None ∧ jitter_buffer s' = jitter_buffer s ∧ jitter_buffer s !! next_play_frame s = None ∧
     next_play_frame s' = (next_play_frame s + 1)%N ∧ started s = true ∧ started s' = true ∧
     last_played_frame s' = last_played_frame s) ∨
   (plays s = None ∧ jitter_buffer s' = jitter_buffer s ∧ (∃ pkt, next_packet s (next_play_frame s') pkt) ∧
     started s' = false)).
Proof.
  intros P Ht s'. pose proof (tick_cases silence now scratch s P Ht) as Hc. cbn zeta in Hc.
  destruct (awake_place silence now s) as [(A1 & A2 & A3 & A4 & A5 & A6 & A7 & A8 & A9) _].
  pose proof (stale_guard_place now s) as (G1 & G2 & G3 & G4 & G5 & G6 & G7 & G8 & G9).
  unfold s', tick, plays. clear s'.
  destruct Hc as [(Er & ->)|[(Er & Eb & _ & ->)|[(Er & pkt & Ef & ->)|[(Est & Eb & _ & ->)|[(Est & nf & pkt & Hnp & _ & ->)|(Est & nf & pkt & Hnp & _ & ->)]]]]];
    cbn [snd]; rewrite ?Er.
  - split_and!; try done. by left.
  - rewrite G1, G2, G3, G5, G6, G7, G8, Eb, lookup_empty. split_and!; try done. by left.
  - destruct (play_packet _ _ _ _) as [[r o] s'] eqn:E. apply play_packet_spec in E as ((E1 & E2 & E3 & E4 & _) & E6 & _ & E8 & E9 & _).
    cbn [snd]. rewrite E1, E2, E3, E4, E8, E9, A1, A2, A6, A7, A8, Ef. split_and!; try done.
    + apply sublist_length, retain_sublist.
    + right. left. by exists pkt.
  - destruct (conceal _ _) as [[r o] s'] eqn:E. apply conceal_spec in E as ((E1 & E2 & E3 & E4 & _) & E6 & _ & E8 & E9 & _).
    cbn [snd]. rewrite E1, E2, E3, E4, E6, E8, E9, A1, A2, A3, A5, A6, A7, A8, Eb, lookup_empty. split_and!; try done.
    right. right. left. unfold ready_to_play. by rewrite Est.
  - cbn [reanchor snd jitter_buffer next_play_frame started estimate consecutive_late pending_eos_seqs last_played_frame].
    rewrite A1, A6, A8. assert (jitter_buffer s !! next_play_frame s = None) as ->.
    { destruct Hnp as ([_ Hmin]%min_key_Some & _ & Hlt). destruct (jitter_buffer s !! next_play_frame s) eqn:E; [|done].
      specialize (Hmin (next_play_frame s) ltac:(by eexists)). lia. }
    split_and!; try done; [cbn; lia|]. right. right. right. split_and!; try done; [by destruct (ready_to_play s)|by exists pkt].
  - destruct (recover _ _ _ _) as [[r o] s'] eqn:E. apply recover_spec in E as ((E1 & E2 & E3 & E4 & _) & E6 & _ & E8 & E9 & _).
    assert (jitter_buffer s !! next_play_frame s = None) as En.
    { destruct Hnp as ([_ Hmin]%min_key_Some & _ & Hlt). destruct (jitter_buffer s !! next_play_frame s) eqn:En; [|done].
      specialize (Hmin (next_play_frame s) ltac:(by eexists)). lia. }
    cbn [snd]. rewrite E1, E2, E3, E4, E6, E8, E9, A1, A2, A3, A5, A6, A7, A8, En. split_and!; try done.
    right. right. left. by destruct (ready_to_play s).
Qed.

Lemma wf_target_pos s : wf s → (0 < target_frames (estimate s))%N.
Proof. intros [_ [_ Ht _ _]]. unfold MIN_TARGET_FRAMES in Ht. lia. Qed.

Lemma tick_wf now s : wf s → wf (tick now s).
Proof.
  intros W. pose proof (wf_target_pos s W) as Ht. destruct W as [P [B1 B2 B3 B4]].
  destruct (tick_moves now s P Ht) as (E1 & E2 & E3 & Hm). set (s' := tick now s) in *.
  assert (bounded s').
  { split; [|by rewrite E1|by rewrite E2|lia].
    assert (jitter_buffer s' ⊆ jitter_buffer s) as Hsub; [|apply map_subseteq_size in Hsub; lia].
    destruct Hm as [(_ & -> & _)|[(pkt & _ & _ & -> & _)|[(_ & -> & _)|(_ & -> & _)]]]; try done. apply delete_subseteq. }
  split; [|done]. destruct Hm as [(_ & Eb & Ec & Es & El)|[(pkt & _ & Hp & Eb & Ec & Es & El)|[(_ & Eb & Hn & Ec & Es & Es' & El)|(_ & Eb & (pkt & Em & Hpkt & Hlt) & Es)]]].
  - destruct P as [P1 P2 P3]. split; unfold has; rewrite ?Eb, ?Ec, ?Es, ?El; done.
  - split; unfold has; rewrite ?Eb, ?Ec, ?Es, ?El; try done; [|intros _; lia].
    intros f [x [Hne Hx]%lookup_delete_Some]. pose proof (pl_keys _ P f ltac:(by eexists)). lia.
  - split; unfold has; rewrite ?Eb, ?Ec, ?Es', ?El; try done; [|intros _; pose proof (pl_played _ P Es); lia].
    intros f [x Hx]. pose proof (pl_keys _ P f ltac:(by eexists)). assert (f ≠ next_play_frame s) by congruence. lia.
  - apply min_key_Some in Em as [Hk Hmin]. split; unfold has; rewrite ?Eb, ?Es; done.
Qed.

Lemma do_op_wf o s : wf s → wf (do_op o s).1.
Proof. intros W. destruct o; cbn; [by apply insert_wf|by apply mark_end_wf|by apply tick_wf]. Qed.

Lemma run_wf ops s : wf s → wf (run ops s).1.
Proof.
  revert s. induction ops as [|o ops IH]; intros s W; cbn; [done|]. pose proof (do_op_wf o s W) as W1.
  destruct (do_op o s) as [s1 p]. specialize (IH s1 W1). by destruct (run ops s1).
Qed.

(** C29: The jitter buffer stays within its bounds.  Whatever arrives, in whatever
    order, and however often it is played from, it holds at most 20 packets,
    none behind the cursor; the adaptive target stays between 2 and 12 frames;
    and an arrival that is accepted while a spurt plays leaves no more than the
    target and the slack of 4 to be played, so the latency stays bounded. *)
Theorem jitter_bounds ops d base now :
  let s := (run ops (UserAudioState_new d base now)).1 in
  (size (jitter_buffer s) ≤ 20)%nat ∧ (2 ≤ target_frames (estimate s) ≤ 12)%N ∧
  (∀ f, has s f → (next_play_frame s ≤ f)%N) ∧ (started s = true → (last_played_frame s < next_play_frame s)%N) ∧
  ∀ sequence timestamp_us opus_data arrival,
    let s' := insert_packet_at sequence timestamp_us opus_data arrival s in
    consecutive_late s' = 0%N → started s' = true → (depth s' ≤ N.to_nat (target_frames (estimate s')) + 4)%nat.
Proof.
  intros s. assert (wf s) as W by apply run_wf, new_wf. pose proof W as [P [B1 B2 B3 B4]].
  split_and!; [done|apply B2|apply B2|apply P|apply P|]. intros sequence ts o at_ s' Hz Hst.
  assert ((depth s' ≤ max_depth s')%nat ∨ consecutive_late s' ≠ 0%N) as [Hd|?]; [| |done].
  - pose proof (update_jitter_target (ts / FRAME_US) at_ (estimate s) B2) as Ht. unfold s'.
    destruct (insert_cases sequence ts o at_ s B3) as [(_ & n & ->)|[(_ & _ & _ & _ & ->)|(_ & Hle & ->)]].
    + left. apply accept_spec; [done|exact Ht|cbn; lia].
    + right. cbn. lia.
    + left. apply accept_spec; [|exact Ht|exact B4]. intros Est. split; [by destruct P|by apply Hle].
  - unfold max_depth in Hd. rewrite Hst in Hd. unfold DRIFT_DROP_SLACK in Hd. lia.
Qed.

(** *** Order and origin of what is played *)

(** Packet [pkt] arrived for frame [f]. *)
Definition arrived (ops : list Op) (f : N) (pkt : BufferedPacket) : Prop :=
  ∃ timestamp_us arrival, Arrive (seq pkt) timestamp_us (opus pkt) arrival ∈ ops ∧ (timestamp_us / FRAME_US)%N = f.

(** No packet arrives for a frame at or behind one already played. *)
Fixpoint timely (ops : list Op) (s : UA) (played : list N) : bool :=
  match ops with
  | [] => true
  | o :: ops =>
      match o with
      | Arrive _ timestamp_us _ _ => forallb (λ f, (f <? timestamp_us / FRAME_US)%N) played
      | _ => true
      end && let '(s, p) := do_op o s in timely ops s (played ++ p.*1)
  end.

Lemma trim_cursor fuel md s :
  placed s → (next_play_frame s ≤ next_play_frame (trim fuel md s))%N.
Proof.
  revert s. induction fuel as [|fuel IH]; intros s P; cbn; [done|]. destruct (over_full md s); [|done].
  destruct (min_key (jitter_buffer s)) as [oldest|] eqn:Em; [|done].
  destruct (trim_one_spec oldest s Em P) as (P1 & _). specialize (IH (trim_one oldest s) P1).
  assert (next_play_frame s ≤ next_play_frame (trim_one oldest s))%N; [|lia]. pose proof Em as [Ho _]%min_key_Some.
  pose proof (pl_keys _ P oldest Ho). unfold trim_one. cbn. destruct (started s) eqn:Est; cbn.
  - destruct (N.leb_spec (next_play_frame s) oldest); cbn; lia.
  - destruct (min_key (delete oldest (jitter_buffer s))) as [first|] eqn:Ef; cbn; [|done].
    apply min_key_Some in Ef as [[x [_ Hx]%lookup_delete_Some] _]. apply (pl_keys _ P). by eexists.
Qed.

Lemma accept_cursor frame sequence o s :
  started s = true → placed s ∧ (next_play_frame s ≤ frame)%N →
  (next_play_frame s ≤ next_play_frame (accept frame sequence o s))%N.
Proof.
  intros Est Hp. rewrite accept_entered. cbn zeta.
  destruct (entered_spec frame sequence o s (λ _, Hp)) as (P & _).
  etrans; [|by apply trim_cursor]. unfold entered. cbn. by rewrite Est.
Qed.

Lemma insert_buffer sequence ts o at_ s :
  wf s → let s' := insert_packet_at sequence ts o at_ s in
  (∀ f pkt, jitter_buffer s' !! f = Some pkt →
     jitter_buffer s !! f = Some pkt ∨ (f = (ts / FRAME_US)%N ∧ pkt = mkPacket sequence o)) ∧
  (started s' = true → started s = true ∧ (next_play_frame s ≤ next_play_frame s')%N).
Proof.
  intros W s'. pose proof W as [P [B1 B2 B3 B4]].
  pose proof (update_jitter_target (ts / FRAME_US) at_ (estimate s) B2) as Ht. unfold s'. clear s'.
  destruct (insert_cases sequence ts o at_ s B3) as [(_ & n & ->)|[(_ & Est & _ & _ & ->)|(_ & Hle & ->)]].
  - assert (∀ s0 : UA, started s0 = false → (MIN_TARGET_FRAMES ≤ target_frames (estimate s0) ≤ MAX_TARGET_FRAMES)%N →
      (List.length (pending_eos_seqs s0) ≤ 8)%nat → jitter_buffer s0 = ∅ →
      let s' := accept (ts / FRAME_US)%N sequence o s0 in
      (∀ f pkt, jitter_buffer s' !! f = Some pkt →
         jitter_buffer s !! f = Some pkt ∨ (f = (ts / FRAME_US)%N ∧ pkt = mkPacket sequence o)) ∧
      (started s' = true → started s = true ∧ (next_play_frame s ≤ next_play_frame s')%N)) as Hempty.
    { intros s0 E0 Ht0 He0 Eb0. destruct (accept_spec (ts / FRAME_US) sequence o s0 ltac:(congruence) Ht0 He0) as (_ & _ & Es & Hsub & _).
      split; [|rewrite Es, E0; done]. intros f pkt Hf. right. eapply lookup_weaken in Hf; [|exact Hsub].
      rewrite Eb0 in Hf. apply lookup_insert_Some in Hf as [[<- <-]|[_ Hf]]; [done|]. by rewrite lookup_empty in Hf. }
    apply Hempty; [done|exact Ht|cbn; lia|done].
  - split; [by left|done].
  - destruct (accept_spec (ts / FRAME_US) sequence o (noted ts o at_ s)) as (_ & _ & Es & Hsub & _); [|exact Ht|exact B4|].
    { intros Est. split; [by destruct P|by apply Hle]. }
    split.
    + intros f pkt Hf. eapply lookup_weaken in Hf; [|exact Hsub].
      apply lookup_insert_Some in Hf as [[<- <-]|[_ Hf]]; [by right|by left].
    + rewrite Es. intros Est. split; [done|].
      change (next_play_frame s) with (next_play_frame (noted ts o at_ s)). apply accept_cursor; [done|]. split; [by destruct P|by apply Hle].
Qed.

(** Everything ahead is past what was played. *)
Record past (s : UA) (played : list N) : Prop := mkPast {
  pa_keys : ∀ f g, f ∈ played → has s g → (f < g)%N;
  pa_cursor : ∀ f, f ∈ played → started s = true → (f < next_play_frame s)%N }.

Lemma do_op_past o s played :
  wf s → past s played →
  match o with Arrive _ ts _ _ => ∀ f, f ∈ played → (f < ts / FRAME_US)%N | _ => True end →
  let '(s', p) := do_op o s in past s' (played ++ p.*1) ∧ ∀ f g, f ∈ played → g ∈ p.*1 → (f < g)%N.
Proof.
  intros W [K C] Ho. destruct o as [q ts op at_|q|now]; cbn [do_op].
  - destruct (insert_buffer q ts op at_ s W) as [Hb Hc]. set (s' := insert_packet_at _ _ _ _ _) in *. cbn. rewrite app_nil_r.
    split; [split|by intros f g _ ?%not_elem_of_nil].
    + intros f g Hf [x [Hx|[-> _]]%Hb]; [by apply (K f); [|eexists]|by apply Ho].
    + intros f Hf [Est Hle]%Hc. specialize (C f Hf Est). lia.
  - cbn. rewrite app_nil_r. split; [|by intros f g _ ?%not_elem_of_nil].
    unfold mark_end_of_stream. cbn. by destruct (contains _ _); split.
  - destruct (tick_moves now s (proj1 W) (wf_target_pos s W)) as (_ & _ & _ & Hm). set (s' := tick now s) in *.
    destruct Hm as [(-> & Eb & Ec & Es & _)|[(pkt & -> & Hp & Eb & Ec & Es & _)|[(-> & Eb & Hn & Ec & Es & Es' & _)|(-> & Eb & (pkt & Em & Hpkt & Hlt) & Es)]]];
      cbn [option_list fmap list_fmap]; rewrite ?app_nil_r.
    + split; [split; unfold has; rewrite ?Eb, ?Ec, ?Es; done|by intros f g _ ?%not_elem_of_nil].
    + split; [split; unfold has; rewrite ?Eb, ?Ec|].
      * intros f g [Hf|Hf%list_elem_of_singleton]%elem_of_app [x [Hne Hx]%lookup_delete_Some]; [by apply (K f); [|eexists]|].
        subst f. pose proof (pl_keys _ (proj1 W) g ltac:(by eexists)). cbn in *. lia.
      * intros f [Hf|Hf%list_elem_of_singleton]%elem_of_app _; [|subst f; cbn; lia].
        pose proof (K f (next_play_frame s) Hf ltac:(by eexists)). lia.
      * intros f g Hf Hg%list_elem_of_singleton. subst g. apply (K f); [done|by eexists].
    + split; [split; unfold has; rewrite ?Eb, ?Ec; [done|]|by intros f g _ ?%not_elem_of_nil].
      intros f Hf _. specialize (C f Hf Es). lia.
    + split; [split; unfold has; rewrite ?Eb; [done|congruence]|by intros f g _ ?%not_elem_of_nil].
Qed.

Lemma timely_sorted ops s played :
  wf s → past s played → StronglySorted N.lt played → timely ops s played = true →
  StronglySorted N.lt (played ++ (run ops s).2.*1).
Proof.
  revert s played. induction ops as [|o ops IH]; intros s played W Hp Hs Ht; cbn; [by rewrite app_nil_r|].
  cbn in Ht. apply andb_true_iff in Ht as [Ho Ht]. pose proof (do_op_wf o s W) as W1.
  pose proof (do_op_past o s played W Hp) as Hpast.
  destruct (do_op o s) as [s1 p] eqn:Eo. destruct Hpast as [Hp1 Hlt].
  { destruct o; try done. intros f Hf. apply N.ltb_lt. rewrite forallb_forall in Ho. apply Ho. by apply list_elem_of_In. }
  assert (StronglySorted N.lt (played ++ p.*1)) as Hs1.
  { apply StronglySorted_app_2; [exact Hlt|done|]. destruct o; cbn in Eo; injection Eo as _ <-; try constructor.
    destruct (plays s); cbn; repeat constructor. }
  specialize (IH s1 (played ++ p.*1) W1 Hp1 Hs1 Ht). destruct (run ops s1) as [s2 q]. cbn in *.
  by rewrite fmap_app, app_assoc.
Qed.

Definition sourced (ops : list Op) (s : UA) : Prop := ∀ f pkt, jitter_buffer s !! f = Some pkt → arrived ops f pkt.

Lemma run_sourced ops0 ops s :
  wf s → sourced ops0 s → ∀ f pkt, (f, pkt) ∈ (run ops s).2 → arrived (ops0 ++ ops) f pkt.
Proof.
  revert ops0 s. induction ops as [|o ops IH]; intros ops0 s W Hs f pkt; cbn; [by intros ?%not_elem_of_nil|].
  pose proof (do_op_wf o s W) as W1.
  assert (sourced (ops0 ++ [o]) (do_op o s).1 ∧ ∀ f pkt, (f, pkt) ∈ (do_op o s).2 → arrived ops0 f pkt) as [H1 H2].
  { assert (∀ f pkt, arrived ops0 f pkt → arrived (ops0 ++ [o]) f pkt) as Hmono.
    { intros f' p' (ts & at_ & Hin & E). exists ts, at_. split; [|done]. apply elem_of_app. by left. }
    destruct o as [q ts op at_|q|now]; cbn [do_op fst snd].
    - split; [|by intros f' p' ?%not_elem_of_nil]. intros f' p' [Hf|[-> ->]]%(proj1 (insert_buffer q ts op at_ s W)).
      + by apply Hmono, Hs.
      + exists ts, at_. split; [|done]. apply elem_of_app. right. apply list_elem_of_here.
    - split; [|by intros f' p' ?%not_elem_of_nil]. intros f' p' Hf. apply Hmono, Hs. revert Hf.
      unfold mark_end_of_stream. cbn. by destruct (contains _ _).
    - destruct (tick_moves now s (proj1 W) (wf_target_pos s W)) as (_ & _ & _ & Hm). set (s' := tick now s) in *.
      assert (jitter_buffer s' ⊆ jitter_buffer s) as Hsub.
      { destruct Hm as [(_ & -> & _)|[(? & _ & _ & -> & _)|[(_ & -> & _)|(_ & -> & _)]]]; try done. apply delete_subseteq. }
      split; [intros f' p' Hf; eapply Hmono, Hs, lookup_weaken; done|].
      intros f' p' Hin. destruct (plays s) as [[f0 p0]|] eqn:Ep; cbn in Hin; [|by apply not_elem_of_nil in Hin].
      apply list_elem_of_singleton in Hin as [= -> ->]. apply Hs. unfold plays in Ep.
      destruct (ready_to_play s); [|done]. destruct (jitter_buffer s !! next_play_frame s) eqn:E; [|done]. by injection Ep as <- <-. }
  destruct (do_op o s) as [s1 p]. cbn in *. specialize (IH (ops0 ++ [o]) s1 W1 H1 f pkt).
  destruct (run ops s1) as [s2 q]. cbn in *. rewrite <- app_assoc in IH. intros [Hp|Hq]%elem_of_app; [|by apply IH].
  destruct (H2 f pkt Hp) as (ts & at_ & Hin & E). exists ts, at_. split; [|done]. apply elem_of_app. by left.
Qed.

(** C30: Frames play in order, and only frames that came.  Every packet handed to
    the decoder for a frame arrived for that frame; and as long as no packet
    arrives for a frame at or behind one already played, each frame plays
    once at most and in the order of the sender's clock, however the network
    loses, delays or reorders. *)
Theorem plays_in_order ops d base now :
  let played := (run ops (UserAudioState_new d base now)).2 in
  (∀ f pkt, (f, pkt) ∈ played → arrived ops f pkt) ∧
  (timely ops (UserAudioState_new d base now) [] = true → StronglySorted N.lt played.*1).
Proof.
  split.
  - apply (run_sourced []); [apply new_wf|]. intros f pkt Hf. cbn in Hf. by rewrite lookup_empty in Hf.
  - intros Ht. apply (timely_sorted ops _ []); [apply new_wf| |constructor|done].
    split; by intros f ? ?%not_elem_of_nil || intros f ?%not_elem_of_nil.
Qed.

(** *** Loss or silence *)

(** What the sender sent between the last packet played and the next one
    buffered: [Some f] is the voice of frame [f], [None] an end of stream.  The
    [k]-th of them has the number [number q k] when [q] was played. *)
Definition number (q : N) (k : nat) : N := wrap_u32 (q + 1 + N.of_nat k).

Definition voices (mid : list (option N)) : nat := List.length (omap id mid).

(** The numbers of the ends of stream among them. *)
Fixpoint markers (q : N) (k : nat) (mid : list (option N)) : list N :=
  match mid with
  | [] => []
  | None :: mid => number q k :: markers q (Datatypes.S k) mid
  | Some _ :: mid => markers q (Datatypes.S k) mid
  end.

(** Those that came through. *)
Definition heard (q : N) (mid : list (option N)) (pending : list N) : list N :=
  filter (λ n, n ∈ pending) (markers q 0 mid).

Lemma voices_markers q k mid : (voices mid + List.length (markers q k mid) = List.length mid)%nat.
Proof.
  revert k. induction mid as [|[f|] mid IH]; intros k; [done| |]; specialize (IH (Datatypes.S k)); unfold voices in *; cbn in *; lia.
Qed.

Lemma elem_of_markers q k mid n :
  n ∈ markers q k mid → ∃ i, (i < List.length mid)%nat ∧ n = number q (k + i).
Proof.
  revert k. induction mid as [|x mid IH]; intros k Hn; [by apply not_elem_of_nil in Hn|].
  assert (n ∈ markers q (Datatypes.S k) mid → ∃ i, (i < List.length (x :: mid))%nat ∧ n = number q (k + i)) as Hrec.
  { intros (i & Hi & ->)%IH. exists (Datatypes.S i). cbn. split; [lia|]. f_equal. lia. }
  destruct x; [by apply Hrec|]. apply elem_of_cons in Hn as [->|Hn]; [|by apply Hrec]. exists 0%nat. cbn. split; [lia|]. f_equal. lia.
Qed.

Lemma wrapping_sub_number q k : (N.of_nat k + 1 < 2 ^ 32)%N → (q < 2 ^ 32)%N →
  wrapping_sub_u32 (number q k) q = (N.of_nat k + 1)%N.
Proof.
  intros Hk Hq. unfold wrapping_sub_u32, number, wrap_u32.
  destruct (N.lt_ge_cases (q + 1 + N.of_nat k) (2 ^ 32)) as [Hlt|Hge].
  - rewrite (N.mod_small (q + 1 + N.of_nat k)) by done.
    replace (q + 1 + N.of_nat k + 2 ^ 32 - q)%N with (N.of_nat k + 1 + 1 * 2 ^ 32)%N by lia.
    rewrite N.Div0.mod_add. by apply N.mod_small.
  - assert ((q + 1 + N.of_nat k) mod 2 ^ 32 = q + 1 + N.of_nat k - 2 ^ 32)%N as ->.
    { replace (q + 1 + N.of_nat k)%N with (q + 1 + N.of_nat k - 2 ^ 32 + 1 * 2 ^ 32)%N at 1 by lia.
      rewrite N.Div0.mod_add. apply N.mod_small. lia. }
    replace (q + 1 + N.of_nat k - 2 ^ 32 + 2 ^ 32 - q)%N with (N.of_nat k + 1)%N by lia. by apply N.mod_small.
Qed.

Lemma NoDup_markers q k mid : (q < 2 ^ 32)%N → (N.of_nat (k + List.length mid) + 1 < 2 ^ 32)%N → NoDup (markers q k mid).
Proof.
  intros Hq. revert k. induction mid as [|x mid IH]; intros k Hk; [constructor|]. cbn [List.length] in Hk.
  destruct x; cbn [markers]; [apply IH; lia|]. constructor; [|apply IH; lia].
  intros (i & Hi & E)%elem_of_markers. apply (f_equal (λ n, wrapping_sub_u32 n q)) in E.
  rewrite !wrapping_sub_number in E by lia. lia.
Qed.

Lemma eos_in_span_heard s mid :
  (last_played_seq s < 2 ^ 32)%N → (N.of_nat (List.length mid) + 1 < 2 ^ 32)%N → NoDup (pending_eos_seqs s) →
  (∀ e, e ∈ pending_eos_seqs s → e ∈ markers (last_played_seq s) 0 mid ∨
     let d := wrapping_sub_u32 e (last_played_seq s) in d = 0%N ∨ (N.of_nat (List.length mid) < d)%N) →
  eos_in_span s (N.of_nat (List.length mid) + 1) = N.of_nat (List.length (heard (last_played_seq s) mid (pending_eos_seqs s))).
Proof.
  intros Hq Hl Hn He. unfold eos_in_span. f_equal. apply Permutation_length, NoDup_Permutation.
  - by apply NoDup_retain.
  - apply NoDup_filter, NoDup_markers; [done|cbn; lia].
  - intros e. unfold heard. rewrite elem_of_retain, list_elem_of_filter, andb_true_iff, !N.ltb_lt. split.
    + intros [Hin [H1 H2]]. split; [done|]. destruct (He e Hin) as [?|[?|?]]; [done|lia|lia].
    + intros [Hin Hm]. split; [done|]. apply elem_of_markers in Hm as (i & Hi & ->). rewrite wrapping_sub_number by lia. lia.
Qed.

(** Loss is told from silence.  Let the sender have sent, after the last packet
    played and before the next one buffered, some voice packets and some ends of
    stream, and let the markers in memory be from among these or from elsewhere.
    The gap is taken for silence, and playing resumes at the next packet
    without concealment, exactly when more frames were silent than ends of
    stream went missing; with all of them heard, exactly when a frame was
    silent, and a gap in which every frame was sent is never taken for
    silence. *)
Theorem gap_classification s (mid : list (option N)) next_frame :
  (last_played_seq s < 2 ^ 32)%N → (N.of_nat (List.length mid) + 1 < 2 ^ 32)%N → NoDup (pending_eos_seqs s) →
  (∀ e, e ∈ pending_eos_seqs s → e ∈ markers (last_played_seq s) 0 mid ∨
     let d := wrapping_sub_u32 e (last_played_seq s) in d = 0%N ∨ (N.of_nat (List.length mid) < d)%N) →
  let silent := (next_frame - last_played_frame s - 1 - N.of_nat (voices mid))%N in
  let missed := N.of_nat (List.length (markers (last_played_seq s) 0 mid)
                          - List.length (heard (last_played_seq s) mid (pending_eos_seqs s))) in
  silent_gap s next_frame (number (last_played_seq s) (List.length mid)) = true ↔ (missed < silent)%N.
Proof.
  intros Hq Hl Hn He silent missed. unfold silent_gap. rewrite wrapping_sub_number by done.
  rewrite (eos_in_span_heard s mid) by done. rewrite N.ltb_lt. unfold silent, missed.
  pose proof (voices_markers (last_played_seq s) 0 mid).
  assert (List.length (heard (last_played_seq s) mid (pending_eos_seqs s)) ≤ List.length (markers (last_played_seq s) 0 mid))%nat.
  { unfold heard. apply length_filter. }
  lia.
Qed.

(** *** A spurt is played through *)

Definition packet_of (o : Op) : option (N * BufferedPacket) :=
  match o with
  | Arrive sequence timestamp_us opus_data _ => Some ((timestamp_us / FRAME_US)%N, mkPacket sequence opus_data)
  | _ => None
  end.

(** The frames of [l] follow one another from [f]. *)
Fixpoint consecutive (f : N) (l : list (N * BufferedPacket)) : Prop :=
  match l with
  | [] => True
  | p :: l => p.1 = f ∧ consecutive (f + 1) l
  end.

Lemma consecutive_ge f l p : consecutive f l → p ∈ l → (f ≤ p.1)%N.
Proof.
  revert f. induction l as [|x l IH]; intros f Hc Hp; [by apply not_elem_of_nil in Hp|]. destruct Hc as [Hx Hc].
  apply elem_of_cons in Hp as [->|Hp]; [lia|]. specialize (IH (f + 1)%N Hc Hp). lia.
Qed.

Lemma consecutive_NoDup f l : consecutive f l → NoDup l.*1.
Proof.
  revert f. induction l as [|x l IH]; intros f Hc; cbn; [constructor|]. destruct Hc as [Hx Hc]. constructor; [|by eapply IH].
  intros (p & Hp & Hin)%list_elem_of_fmap_1. pose proof (consecutive_ge _ _ _ Hc Hin). lia.
Qed.

(** An arrival before playing starts, with room to spare. *)
Lemma insert_waiting sequence ts o at_ s :
  wf s → started s = false →
  (size (<[(ts / FRAME_US)%N := mkPacket sequence o]> (jitter_buffer s)) ≤ JITTER_BUFFER_MAX_PACKETS)%nat →
  let s' := insert_packet_at sequence ts o at_ s in
  started s' = false ∧ jitter_buffer s' = <[(ts / FRAME_US)%N := mkPacket sequence o]> (jitter_buffer s).
Proof.
  intros W Est Hsz s'. destruct (insert_cases sequence ts o at_ s (bd_late _ (proj2 W))) as [(Hr & _)|[(_ & ? & _)|(_ & Hle & E)]];
    [unfold restarts in Hr; by rewrite Est in Hr|congruence|]. unfold s'. rewrite E, accept_entered. cbn zeta.
  destruct (entered_spec (ts / FRAME_US) sequence o (noted ts o at_ s)) as (P & E1 & E2 & _); [cbn; congruence|].
  set (s1 := entered _ _ _ _) in *. change (jitter_buffer (noted ts o at_ s)) with (jitter_buffer s) in E2.
  assert (over_full (max_depth s1) s1 = false) as Ho.
  { unfold over_full, max_depth. rewrite E1. cbn [started noted with_estimate with_stats]. rewrite Est.
    pose proof (depth_le s1) as Hd. rewrite E2 in Hd |- *. apply orb_false_iff. split; apply Nat.ltb_ge; lia. }
  assert (trim (size (jitter_buffer s1)) (max_depth s1) s1 = s1) as ->.
  { destruct (size (jitter_buffer s1)); cbn; [done|]. by rewrite Ho. }
  by rewrite E1, E2.
Qed.

Lemma arrivals_fill arrivals s :
  wf s → started s = false → Forall (λ o, is_Some (packet_of o)) arrivals → NoDup ((omap packet_of arrivals).*1) →
  (∀ p, p ∈ omap packet_of arrivals → jitter_buffer s !! p.1 = None) →
  (size (jitter_buffer s) + List.length arrivals ≤ JITTER_BUFFER_MAX_PACKETS)%nat →
  let '(s', played) := run arrivals s in
  wf s' ∧ started s' = false ∧ played = [] ∧ jitter_buffer s' = list_to_map (omap packet_of arrivals) ∪ jitter_buffer s.
Proof.
  revert s. induction arrivals as [|o arrivals IH]; intros s W Est Hall Hnd Hnew Hsz; cbn [run].
  - split_and!; try done. cbn. by rewrite (left_id_L ∅ _).
  - apply Forall_cons in Hall as [[p Hp] Hall]. cbn [omap list_omap] in Hnd, Hnew |- *. rewrite Hp in Hnd, Hnew |- *.
    destruct o as [q ts op at_| |]; try done. cbn in Hp. injection Hp as <-. cbn [fmap list_fmap fst] in Hnd.
    apply NoDup_cons in Hnd as [Hni Hnd]. cbn [List.length] in Hsz.
    pose proof (Hnew _ (list_elem_of_here _ _)) as Hn. cbn [fst] in Hn.
    pose proof (map_size_insert_None _ (mkPacket q op) _ Hn) as Esz.
    destruct (insert_waiting q ts op at_ s W Est ltac:(lia)) as [Est1 Eb].
    pose proof (insert_wf q ts op at_ s W) as W1. cbn [do_op]. set (s1 := insert_packet_at _ _ _ _ _) in *.
    specialize (IH s1 W1 Est1 Hall Hnd). destruct (run arrivals s1) as [s2 played]. destruct IH as (W2 & E1 & -> & E2).
    + intros p' Hp'. rewrite Eb, lookup_insert_ne; [by apply Hnew, list_elem_of_further|].
      intros E. apply Hni. rewrite E. by apply list_elem_of_fmap_2.
    + rewrite Eb. lia.
    + split_and!; try done. rewrite E2, Eb. cbn [list_to_map foldr fst snd uncurry].
      rewrite <- insert_union_l, insert_union_r; [done|]. by apply not_elem_of_list_to_map_1.
Qed.

(** Ticks through a run of consecutive frames. *)
Lemma ticks_play l f s nows :
  wf s → consecutive f l → jitter_buffer s = list_to_map l → (l ≠ [] → next_play_frame s = f ∧ ready_to_play s = true) →
  List.length nows = List.length l → (run (map Tick nows) s).2 = l.
Proof.
  revert f s nows. induction l as [|p l IH]; intros f s nows W Hc Eb Hr Hn; [by destruct nows|].
  destruct nows as [|now nows]; [done|]. cbn [List.length] in Hn. cbn [map run do_op].
  destruct Hc as [Hp Hc]. destruct (Hr ltac:(done)) as [Ef Er]. pose proof (consecutive_NoDup f (p :: l) (conj Hp Hc)) as Hnd.
  apply NoDup_cons in Hnd as [Hni _].
  assert (jitter_buffer s !! f = Some p.2) as Hf by (rewrite Eb, <- Hp; destruct p; cbn; by rewrite lookup_insert_eq).
  assert (plays s = Some p) as Epl.
  { unfold plays. rewrite Er, Ef, Hf. cbn. rewrite <- Hp. by destruct p. }
  destruct (tick_moves now s (proj1 W) (wf_target_pos s W)) as (_ & _ & _ & Hm). pose proof (tick_wf now s W) as W1.
  set (s1 := tick now s) in *.
  destruct Hm as [(E & _)|[(pkt & _ & _ & E1 & E2 & E3 & _)|[(E & _)|(E & _)]]]; [congruence| |congruence|congruence].
  specialize (IH (f + 1)%N s1 nows W1 Hc). destruct (run (map Tick nows) s1) as [s2 q] eqn:Erun. cbn [snd] in IH |- *.
  rewrite Epl. cbn. f_equal. apply IH; [|intros _|lia].
  - rewrite E1, Ef, Eb. destruct p as [f0 p]. cbn in Hp |- *. subst f0. rewrite delete_insert_eq, delete_id; [done|].
    by apply not_elem_of_list_to_map_1.
  - split; [by rewrite E2, Ef|]. unfold ready_to_play. by rewrite E3.
Qed.

(** A spurt is played through.  When the packets of consecutive frames, at least
    as many as the largest target and no more than the buffer holds, have
    arrived in any order at a buffer that waits for a spurt, the ticks that
    follow play all of them, each once and in order. *)
Theorem spurt_plays_through s f spurt arrivals nows :
  wf s → started s = false → jitter_buffer s = ∅ →
  consecutive f spurt → (12 ≤ List.length spurt ≤ 20)%nat →
  Forall (λ o, is_Some (packet_of o)) arrivals → omap packet_of arrivals ≡ₚ spurt →
  List.length nows = List.length spurt →
  (run (arrivals ++ map Tick nows) s).2 = spurt.
Proof.
  intros W Est Eb Hc Hlen Hall Hperm Hn. rewrite run_app.
  pose proof (consecutive_NoDup f spurt Hc) as Hnd.
  assert (NoDup (omap packet_of arrivals).*1) as Hnd' by by rewrite Hperm.
  assert (List.length arrivals = List.length spurt) as El.
  { rewrite <- Hperm. clear -Hall. induction Hall as [|o arrivals [p Hp] _ IH]; cbn; [done|]. rewrite Hp. cbn. by f_equal. }
  pose proof (arrivals_fill arrivals s W Est Hall Hnd') as Hfill. destruct (run arrivals s) as [s1 played].
  destruct Hfill as (W1 & Est1 & -> & Eb1).
  { intros p _. by rewrite Eb, lookup_empty. }
  { rewrite Eb, map_size_empty. unfold JITTER_BUFFER_MAX_PACKETS. lia. }
  assert (jitter_buffer s1 = list_to_map spurt) as Es1.
  { rewrite Eb1, Eb, (right_id_L ∅ _). by apply list_to_map_proper. }
  assert (size (jitter_buffer s1) = List.length spurt) as Esz by by rewrite Es1, map_size_list_to_map.
  pose proof (ticks_play spurt f s1 nows W1 Hc Es1) as Hplay. destruct (run (map Tick nows) s1) as [s2 q]. cbn in Hplay |- *.
  apply Hplay; [|done]. intros Hne. destruct W1 as [P1 [_ Ht _ _]]. split.
  - assert (jitter_buffer s1 ≠ ∅) as Hbne by (apply map_size_non_empty_iff; rewrite Esz; lia).
    pose proof (pl_first _ P1 Est1 Hbne) as [x Hx]. rewrite Es1 in Hx. apply elem_of_list_to_map_2 in Hx.
    pose proof (consecutive_ge f spurt _ Hc Hx). cbn in *. assert (next_play_frame s1 ≤ f)%N; [|lia].
    apply (pl_keys _ P1). unfold has. rewrite Es1. destruct spurt as [|[f0 p] spurt]; [done|]. destruct Hc as [<- _].
    cbn. rewrite lookup_insert_eq. by eexists.
  - unfold ready_to_play. rewrite (depth_placed s1 P1), Esz. apply orb_true_iff. right. apply Nat.leb_le.
    unfold MAX_TARGET_FRAMES in Ht. lia.
Qed.

(** *** An ended stream falls silent *)

Definition is_output (x : option nat * list A * UA) : bool := match x.1.1 with Some _ => true | None => false end.

(** How many of the ticks at [nows] give the mixer a frame. *)
Fixpoint frames_out (nows : list N) (s : UA) : nat :=
  match nows with
  | [] => 0
  | now :: nows =>
      let x := decode_next_into silence now scratch s in
      ((if is_output x then 1 else 0) + frames_out nows x.2)%nat
  end.

(** C31: An ended stream falls silent.  Once the sender's end of stream was heard, or
    nothing has come for the stale threshold, ticks give the mixer at most the
    frames up to the last one buffered, however many ticks there are: there is
    no endless concealment. *)
Theorem ended_stream_falls_silent s nows last :
  wf s → (stream_ended s = true ∨ Forall (λ now, is_stale now s = true) nows) → (∀ f, has s f → (f < last)%N) →
  (frames_out nows s ≤ N.to_nat (last - next_play_frame s))%nat.
Proof.
  revert s. induction nows as [|now nows IH]; intros s W Hend Hlast; cbn [frames_out]; [lia|].
  assert (stream_ended (stale_guard now s) = true) as Hg.
  { unfold stale_guard. destruct (stream_ended s) eqn:E; cbn; [done|]. destruct Hend as [?|Hst]; [done|].
    apply Forall_cons in Hst as [-> _]. done. }
  pose proof (tick_cases silence now scratch s (proj1 W) (wf_target_pos s W)) as Hc. cbn zeta in Hc.
  pose proof (tick_wf now s W) as W1. destruct (tick_moves now s (proj1 W) (wf_target_pos s W)) as (Ee & _ & _ & Hm).
  unfold tick in *. set (x := decode_next_into silence now scratch s) in *.
  assert (stream_ended x.2 = true ∨ Forall (λ now, is_stale now x.2 = true) nows) as Hend'.
  { destruct Hend as [He|Hst]; [left|right].
    - destruct (awake_place silence now s) as [_ Ea]. rewrite Hg in Ea.
      destruct Hc as [(_ & ->)|[(_ & _ & _ & ->)|[(_ & pkt & _ & ->)|[(_ & _ & ? & _)|[(_ & nf & pkt & _ & _ & ->)|(_ & nf & pkt & _ & _ & ->)]]]]];
        try done; cbn [snd]; [|congruence|].
      + destruct (play_packet _ _ _ _) as [[r o] s'] eqn:E. cbn. by apply play_packet_spec in E as ((_ & _ & _ & _ & -> & _) & _).
      + destruct (recover _ _ _ _) as [[r o] s'] eqn:E. cbn. by apply recover_spec in E as ((_ & _ & _ & _ & -> & _) & _).
    - apply Forall_cons in Hst as [_ Hst]. unfold is_stale in *. by rewrite Ee. }
  assert (∀ f, has x.2 f → has s f) as Hsub.
  { intros f. unfold has. destruct Hm as [(_ & -> & _)|[(pkt & _ & _ & -> & _)|[(_ & -> & _)|(_ & -> & _)]]]; try done.
    intros [y [_ Hy]%lookup_delete_Some]. by eexists. }
  specialize (IH x.2 W1 Hend' (λ f Hf, Hlast f (Hsub f Hf))).
  assert ((if is_output x then 1 else 0) + N.to_nat (last - next_play_frame x.2) ≤ N.to_nat (last - next_play_frame s))%nat; [|lia].
  destruct Hc as [(_ & ->)|[(_ & _ & _ & Ex)|[(Er & pkt & Hf & _)|[(_ & _ & ? & _)|[(_ & nf & pkt & (_ & _ & Hlt) & _ & ->)|(_ & nf & pkt & Hnp & _ & Ex)]]]]].
  - cbn. lia.
  - rewrite Ex. cbn. destruct (stale_guard_place now s) as (_ & -> & _). lia.
  - assert (next_play_frame x.2 = next_play_frame s + 1)%N as ->.
    { destruct Hm as [(Ep & _)|[(pkt' & _ & _ & _ & -> & _)|[(Ep & _)|(Ep & _)]]]; try done;
        unfold plays in Ep; by rewrite Er, Hf in Ep. }
    specialize (Hlast (next_play_frame s) ltac:(by eexists)). destruct (is_output x); lia.
  - congruence.
  - cbn. lia.
  - destruct Hnp as ([Hk _]%min_key_Some & _ & Hlt). specialize (Hlast nf Hk).
    destruct (awake_place silence now s) as [(_ & A2 & _) _].
    assert (next_play_frame x.2 = next_play_frame s + 1)%N as ->.
    { rewrite Ex. destruct (recover _ _ _ _) as [[r o] s'] eqn:E. cbn. apply recover_spec in E as ((_ & -> & _) & _). by rewrite A2. }
    destruct (is_output x); lia.
Qed.

End facts.

(** ** Small runs *)

(** A decoder whose frames show the first byte of the packet. *)
#[local] Instance sample_decoder : VoiceDecoder unit N := {|
  decode data out d := (Some 960%nat, [of_le_bytes (take 1 data)], d);
  decode_plc out d := (Some 960, [1000%N], d);
  decode_fec data out d := (Some 960, [2000 + of_le_bytes (take 1 data)]%N, d) |}.

#[local] Abbreviation sample_new := (UserAudioState_new tt 2 0).
#[local] Abbreviation sample_run := (run (A := N) [] []).
Definition sample_arrive (q f at_ms : N) : Op := Arrive q (f * FRAME_US) [byte_of_N q] (at_ms * 1000000).

Definition sample_spurt (f : N) (n : nat) : list (N * BufferedPacket) :=
  imap (λ i _, ((f + N.of_nat i)%N, mkPacket (f + N.of_nat i) [byte_of_N (f + N.of_nat i)])) (replicate n tt).
Definition sample_arrivals (f : N) (n : nat) : list Op :=
  imap (λ i _, sample_arrive (f + N.of_nat i) (f + N.of_nat i) (20 * N.of_nat i)) (replicate n tt).

(** Frames 0, 1, 2; the loss of 3, recovered from 4; the silence of 6 to 8. *)
Definition sample_ops : list Op :=
  [sample_arrive 0 0 0; sample_arrive 2 2 40; sample_arrive 1 1 41; sample_arrive 4 4 80; sample_arrive 5 5 100;
   Tick 101; Tick 102; Tick 103; Tick 104; Tick 105; Tick 106;
   EndOfStream 6; sample_arrive 7 9 180; sample_arrive 8 10 200; sample_arrive 9 11 220;
   Tick 230; Tick 231; Tick 232; Tick 233].

Example loss_and_silence :
  let '(s, played) := sample_run sample_ops sample_new in
  played.*1 = [0; 1; 2; 4; 5; 9; 10; 11]%N ∧ packets_lost (stats s) = 1%N ∧ packets_recovered_fec (stats s) = 1%N.
Proof. vm_compute. auto. Qed.

(** After a silence the buffer waits for the next spurt and takes any frame as its
    start: a packet that the network repeats late is played a second time. *)
Definition sample_repeated : list Op := sample_ops ++
  [EndOfStream 10; sample_arrive 11 20 400; sample_arrive 12 21 420; Tick 421; sample_arrive 5 5 422; Tick 423].

Example stale_frame_replayed : (sample_run sample_repeated sample_new).2.*1 = [0; 1; 2; 4; 5; 9; 10; 11; 5]%N.
Proof. vm_compute. reflexivity. Qed.

(** A timestamp far ahead makes the estimate so large that the sum of the base and
    the jitter frames leaves [u32]: it wraps below the base, and the target ends
    at its floor instead of its ceiling. *)
Example hostile_timestamp :
  let est := jitter_after (S754_zero false) 20000 (2 ^ 64 / FRAME_US) in
  ceil_as_u32 (f64_div (f64_mul (f64_of_N 2) est) (f64_of_N FRAME_US)) = u32_max ∧
  (u32_max < 2 + u32_max)%N ∧ target_after 2 est = MIN_TARGET_FRAMES ∧
  target_after 2 (jitter_after (S754_zero false) 200000 1) = 4%N.
Proof. vm_compute. auto. Qed.

Lemma plays_in_order_witness :
  timely [] [] sample_ops sample_new [] = true ∧ StronglySorted N.lt (sample_run sample_ops sample_new).2.*1.
Proof.
  assert (timely [] [] sample_ops sample_new [] = true) as Ht by (vm_compute; reflexivity).
  split; [exact Ht|]. exact (proj2 (plays_in_order [] [] sample_ops tt 2 0) Ht).
Defined.

Lemma jitter_bounds_witness : (size (jitter_buffer (sample_run sample_ops sample_new).1) ≤ 20)%nat.
Proof. exact (proj1 (jitter_bounds [] [] sample_ops tt 2 0)). Defined.

(** Frame 3 of the sample run is lost; of frames 6 to 8, whose end of stream was
    heard, none was sent. *)
Definition sample_at (n : nat) : UserAudioState unit := (sample_run (take n sample_ops) sample_new).1.

Lemma gap_classification_witness :
  silent_gap (sample_at 8) 4 (number (last_played_seq (sample_at 8)) 1) = false ∧
  silent_gap (sample_at 14) 9 (number (last_played_seq (sample_at 14)) 1) = true.
Proof.
  split.
  - apply not_true_is_false. intros H.
    apply (gap_classification (sample_at 8) [Some 3%N]) in H; [vm_compute in H; discriminate H|reflexivity|reflexivity| |].
    + apply (bool_decide_unpack _). vm_compute. exact I.
    + intros e He. vm_compute in He. inversion He.
  - apply (gap_classification (sample_at 14) [None]); [reflexivity|reflexivity| | |vm_compute; reflexivity].
    + apply (bool_decide_unpack _). vm_compute. exact I.
    + intros e He. left. change (e ∈ [6%N]) in He. change (e ∈ [6%N]). exact He.
Defined.

Lemma spurt_plays_through_witness :
  (sample_run (rev (sample_arrivals 7 15) ++ map Tick (replicate 15 400000000%N)) sample_new).2 = sample_spurt 7 15.
Proof.
  apply (spurt_plays_through [] [] sample_new 7).
  - apply new_wf.
  - reflexivity.
  - reflexivity.
  - vm_compute. auto 20.
  - cbn. lia.
  - apply Forall_forall. intros o Ho. vm_compute in Ho.
    repeat (apply elem_of_cons in Ho as [->|Ho]; [eexists; reflexivity|]). by apply not_elem_of_nil in Ho.
  - assert (omap packet_of (rev (sample_arrivals 7 15)) = rev (sample_spurt 7 15)) as -> by (vm_compute; reflexivity).
    symmetry. apply Permutation_rev.
  - reflexivity.
Defined.

Lemma ended_stream_falls_silent_witness :
  (frames_out [] [] (replicate 1000 (10 ^ 12)%N) (sample_at 14) ≤ 11)%nat.
Proof.
  etransitivity; [apply (ended_stream_falls_silent [] [] (sample_at 14) _ 11)|vm_compute; lia].
  - apply run_wf, new_wf.
  - right. apply Forall_replicate. vm_compute. reflexivity.
  - intros f Hf. apply elem_of_dom in Hf.
    assert (Forall (λ g, (g < 11)%N) (elements (dom (jitter_buffer (sample_at 14))))) as Hall.
    { apply (bool_decide_unpack _). vm_compute. exact I. }
    rewrite Forall_forall in Hall. by apply Hall, elem_of_elements.
Defined.

End JitterFacts.
