(* ===== verification/Pipeline.v ===== *)
(** The audio pipeline: [crates/rumble-audio/src/lib.rs] and [outputs.rs].

    A pipeline is a chain of processors that a registry of factories builds from
    a configuration; its stages publish live values through a flat array of
    slots, whose layout the user interface derives on its own side.

    A [Box<dyn AudioProcessor>] is a value of a type [P] of the class
    [AudioProcessor], a [Box<dyn ProcessorFactory>] one of [ProcessorFactory].
    An [f32] is an IEEE binary32 number of the Standard Library's [SpecFloat];
    [powf] and [log10], whose precision Rust leaves open, are the class [Libm].
    A JSON value is of a type of the class [JsonValue], of which the code uses
    the conversion from and to objects and, for schemas, the constructors of the
    other kinds, a number being given by its literal. *)
From Stdlib Require Import NArith ZArith Lia Floats.SpecFloat.
From stdpp Require Import base gmap list strings.
From S2P Require Import Prelude.

Module Pipeline.

(** ** [f32] *)

Abbreviation f32 := spec_float.
Definition f32_of_N (n : N) : f32 := binary_normalize 24 128 (Z.of_N n) 0 false.
(** [m · 2^e]. *)
Definition f32_const (m e : Z) : f32 := binary_normalize 24 128 m e false.
Definition f32_zero : f32 := S754_zero false.
Definition f32_neg_infinity : f32 := S754_infinity true.
Definition f32_add : f32 → f32 → f32 := SFadd 24 128.
Definition f32_sub : f32 → f32 → f32 := SFsub 24 128.
Definition f32_mul : f32 → f32 → f32 := SFmul 24 128.
Definition f32_div : f32 → f32 → f32 := SFdiv 24 128.
Definition f32_sqrt : f32 → f32 := SFsqrt 24 128.
Definition f32_abs : f32 → f32 := SFabs.
Definition f32_eq : f32 → f32 → bool := SFeqb.
Definition f32_lt : f32 → f32 → bool := SFltb.
Definition f32_le : f32 → f32 → bool := SFleb.

(** [f32::min] and [f32::max]: the other one when one is NaN. *)
Definition f32_min (a b : f32) : f32 :=
  match a, b with S754_nan, _ => b | _, S754_nan => a | _, _ => if f32_lt b a then b else a end.
Definition f32_max (a b : f32) : f32 :=
  match a, b with S754_nan, _ => b | _, S754_nan => a | _, _ => if f32_lt a b then b else a end.

(** [x.clamp(lo, hi)]; NaN stays NaN. *)
Definition f32_clamp (x lo hi : f32) : f32 :=
  if f32_lt x lo then lo else if f32_lt hi x then hi else x.

Definition copysign (x sign : f32) : f32 :=
  match x, sign with
  | S754_zero _, (S754_zero s | S754_infinity s | S754_finite s _ _) => S754_zero s
  | S754_infinity _, (S754_zero s | S754_infinity s | S754_finite s _ _) => S754_infinity s
  | S754_finite _ m e, (S754_zero s | S754_infinity s | S754_finite s _ _) => S754_finite s m e
  | _, _ => x
  end.

Class Libm := mkLibm { powf : f32 → f32 → f32; log10 : f32 → f32 }.

(** ** Levels and limiting *)

Section levels.
Context `{!Libm}.

Definition linear_to_db (linear : f32) : f32 :=
  if f32_le linear f32_zero then f32_neg_infinity else f32_mul (f32_of_N 20) (log10 linear).

Definition db_to_linear (db : f32) : f32 := powf (f32_of_N 10) (f32_div db (f32_of_N 20)).

Definition calculate_rms_db (samples : list f32) : f32 :=
  match samples with
  | [] => f32_neg_infinity
  | _ =>
      let sum_squares := fold_left (λ acc s, f32_add acc (f32_mul s s)) samples f32_zero in
      linear_to_db (f32_sqrt (f32_div sum_squares (f32_of_N (N.of_nat (List.length samples)))))
  end.

Definition calculate_peak_db (samples : list f32) : f32 :=
  linear_to_db (fold_left f32_max (map f32_abs samples) f32_zero).

End levels.

Definition SOFT_CLIP_THRESHOLD : f32 := f32_const 3 (-2).

Definition soft_clip (x : f32) : f32 :=
  let a := f32_abs x in
  if f32_le a SOFT_CLIP_THRESHOLD then x
  else
    let over := f32_sub a SOFT_CLIP_THRESHOLD in
    let headroom := f32_sub (f32_of_N 1) SOFT_CLIP_THRESHOLD in
    let limited := f32_add SOFT_CLIP_THRESHOLD (f32_mul headroom (f32_div over (f32_add over headroom))) in
    copysign limited x.

(** ** JSON *)

Class JsonValue (V : Type) := mkJson {
  as_object : V → option (gmap string V);
  json_object : gmap string V → V;
  as_object_object : ∀ m, as_object (json_object m) = Some m;
  object_as_object : ∀ v m, as_object v = Some m → v = json_object m;
  json_string : string → V;
  json_number : string → V;
  json_bool : bool → V;
}.

Definition json_get {V} `{!JsonValue V} (key : string) (v : V) : option V := m ← as_object v; m !! key.

Definition backfill_settings_from_schema {V} `{!JsonValue V} (value schema : V) : V :=
  match json_get "properties" schema ≫= as_object with
  | None => value
  | Some properties =>
      json_object (map_fold (λ key prop_schema object,
        match object !! key with
        | Some _ => object
        | None => match json_get "default" prop_schema with
                  | Some dflt => <[key := dflt]> object
                  | None => object
                  end
        end) (default ∅ (as_object value)) properties)
  end.

(** ** Descriptors of live outputs *)

Inductive Role := Neutral | Inactive | Active | Warning | Danger.
Inductive Anchor := Fixed (at_ : f32) | Setting (key : string).
Record Zone := mkZone { z_lo : Anchor; z_hi : Anchor; z_role : Role; z_label : option string }.
Record Mark := mkMark { m_at : Anchor; m_role : Role; m_label : option string }.
Inductive OutputKind :=
  | Meter (min max : f32) (unit : option string) (zones : list Zone) (marks : list Mark)
  | Indicator.
Record OutputSpec := mkSpec { os_key : string; os_title : string; os_kind : OutputKind }.

Definition Anchor_resolve (lookup : string → option f32) (a : Anchor) : option f32 :=
  match a with Fixed v => Some v | Setting key => lookup key end.

Definition MAX_OUTPUTS : nat := 16.

Record OutputFrame := mkFrame { values : list f32; frame_len : nat }.
Definition OutputFrame_default : OutputFrame := mkFrame (replicate MAX_OUTPUTS f32_zero) 0.

Definition OutputFrame_get (slot : nat) (f : OutputFrame) : option f32 :=
  if Nat.ltb slot (frame_len f) then values f !! slot else None.

(** [iter().position(|s| s.key == key)]. *)
Fixpoint position (key : string) (specs : list OutputSpec) : option nat :=
  match specs with
  | [] => None
  | s :: r => if String.eqb (os_key s) key then Some 0 else Datatypes.S <$> position key r
  end.

(** [OutputSink::set] on the window [slots]; stdpp's [insert] does nothing out
    of range, as [get_mut]. *)
Definition OutputSink_set (specs : list OutputSpec) (kv : string * f32) (slots : list f32) : list f32 :=
  match position kv.1 specs with Some i => <[i := kv.2]> slots | None => slots end.

(** ** Interfaces *)

(** [write_outputs] can only call [set] on its sink: it is the list of these
    calls.  [process] takes the samples and their rate and gives [suppress]. *)
Class AudioProcessor (P V : Type) := mkProcessor {
  process : list f32 → N → P → bool * list f32 * P;
  name : P → string;
  reset : P → P;
  config : P → V;
  set_config : V → P → P;
  is_enabled : P → bool;
  set_enabled : bool → P → P;
  write_outputs : P → list (string * f32);
}.

Class ProcessorFactory (F P V : Type) := mkFactory {
  type_id : F → string;
  display_name : F → string;
  description : F → string;
  create_default : F → P;
  create_from_config : F → V → result P;
  settings_schema : F → V;
  outputs : F → list OutputSpec;
  default_settings : F → V;
}.

(** The default method. *)
Definition default_settings_of {F P V} `{!AudioProcessor P V} (create_default : F → P) (f : F) : V := config (create_default f).

(** ** Configuration and registry *)

Record ProcessorConfig (V : Type) := mkConfig { type_id_of : string; enabled : bool; settings : V }.
Arguments mkConfig {V}. Arguments type_id_of {V}. Arguments enabled {V}. Arguments settings {V}.

Definition default_frame_size : nat := 960.

Record PipelineConfig (V : Type) := mkPipelineConfig { processors : list (ProcessorConfig V); frame_size : nat }.
Arguments mkPipelineConfig {V}. Arguments processors {V}. Arguments frame_size {V}.
Definition PipelineConfig_default {V} : PipelineConfig V := mkPipelineConfig [] default_frame_size.

Record UserRxConfig (V : Type) := mkRx { pipeline_override : option (PipelineConfig V); rx_volume_db : f32 }.
Arguments mkRx {V}. Arguments pipeline_override {V}. Arguments rx_volume_db {V}.
Definition UserRxConfig_default {V} : UserRxConfig V := mkRx None f32_zero.

Record AudioPipeline (P : Type) := mkPipeline {
  stages : list P; output_specs : list (list OutputSpec); pl_frame_size : nat }.
Arguments mkPipeline {P}. Arguments stages {P}. Arguments output_specs {P}. Arguments pl_frame_size {P}.

Record OutputEntry := mkEntry { proc_index : nat; oe_type_id : string; slot : nat; spec : OutputSpec }.
Record OutputLayout := mkLayout { entries : list OutputEntry; truncated : bool }.

Section pipeline.
Context {F P V : Type} `{!JsonValue V} `{!AudioProcessor P V} `{!ProcessorFactory F P V}.

(** [ProcessorRegistry]. *)
Definition ProcessorRegistry : Type := gmap string F.

Definition register (f : F) (r : ProcessorRegistry) : ProcessorRegistry := <[type_id f := f]> r.

Definition create (r : ProcessorRegistry) (c : ProcessorConfig V) : result P :=
  match r !! type_id_of c with
  | None => Err ("Unknown processor type: " +:+ type_id_of c)
  | Some f => match create_from_config f (settings c) with
              | Ok p => Ok (set_enabled (enabled c) p)
              | Err e => Err e
              end
  end.

Definition has (r : ProcessorRegistry) (id : string) : bool := bool_decide (is_Some (r !! id)).

Definition registry_outputs (r : ProcessorRegistry) (id : string) : list OutputSpec := default [] (outputs <$> r !! id).

Definition default_config (r : ProcessorRegistry) (id : string) : option (ProcessorConfig V) :=
  f ← r !! id; Some (mkConfig id true (default_settings f)).

Definition backfill_settings (r : ProcessorRegistry) (id : string) (s : V) : V :=
  match settings_schema <$> r !! id with Some schema => backfill_settings_from_schema s schema | None => s end.

(** ** The pipeline *)

Definition AudioPipeline_new (frame_size : nat) : AudioPipeline P := mkPipeline [] [] frame_size.

Fixpoint build (r : ProcessorRegistry) (cs : list (ProcessorConfig V)) : result (list P * list (list OutputSpec)) :=
  match cs with
  | [] => Ok ([], [])
  | c :: cs =>
      match create r c with
      | Err e => Err e
      | Ok p => match build r cs with
                | Err e => Err e
                | Ok (ps, specs) => Ok (p :: ps, registry_outputs r (type_id_of c) :: specs)
                end
      end
  end.

Definition from_config (c : PipelineConfig V) (r : ProcessorRegistry) : result (AudioPipeline P) :=
  match build r (processors c) with
  | Err e => Err e
  | Ok (ps, specs) => Ok (mkPipeline ps specs (frame_size c))
  end.

Definition add (p : P) (pl : AudioPipeline P) : AudioPipeline P :=
  mkPipeline (stages pl ++ [p]) (output_specs pl ++ [[]]) (pl_frame_size pl).

Fixpoint process_stages (rate : N) (samples : list f32) (ps : list P) : bool * list f32 * list P :=
  match ps with
  | [] => (false, samples, [])
  | p :: ps =>
      let '(suppress, samples, p) := if is_enabled p then process samples rate p else (false, samples, p) in
      let '(rest, samples, ps) := process_stages rate samples ps in
      (suppress || rest, samples, p :: ps)
  end.

Definition pipeline_process (samples : list f32) (rate : N) (pl : AudioPipeline P) : bool * list f32 * AudioPipeline P :=
  let '(suppress, samples, ps) := process_stages rate samples (stages pl) in
  (suppress, samples, mkPipeline ps (output_specs pl) (pl_frame_size pl)).

Definition pipeline_reset (pl : AudioPipeline P) : AudioPipeline P :=
  mkPipeline (map reset (stages pl)) (output_specs pl) (pl_frame_size pl).

Definition update_config (c : PipelineConfig V) (r : ProcessorRegistry) (pl : AudioPipeline P) : result unit * AudioPipeline P :=
  match from_config c r with Ok pl => (Ok tt, pl) | Err e => (Err e, pl) end.

(** The window of one stage: zeroed, and set by the stage when it is enabled. *)
Definition stage_slots (p : P) (specs : list OutputSpec) : list f32 :=
  let slots := replicate (List.length specs) f32_zero in
  if is_enabled p then fold_left (λ slots kv, OutputSink_set specs kv slots) (write_outputs p) slots else slots.

(** [frame.values[offset..offset + n]] overwritten. *)
Definition write_window (offset : nat) (window values : list f32) : list f32 :=
  take offset values ++ window ++ drop (offset + List.length window) values.

Fixpoint write_stages (zipped : list (P * list OutputSpec)) (offset : nat) (values : list f32) : list f32 * nat :=
  match zipped with
  | [] => (values, offset)
  | (p, specs) :: rest =>
      match specs with
      | [] => write_stages rest offset values
      | _ =>
          let n := List.length specs in
          if Nat.ltb MAX_OUTPUTS (offset + n) then (values, offset)
          else write_stages rest (offset + n) (write_window offset (stage_slots p specs) values)
      end
  end.

Definition pipeline_write_outputs (pl : AudioPipeline P) (frame : OutputFrame) : OutputFrame :=
  let '(values, offset) := write_stages (zip (stages pl) (output_specs pl)) 0 (values frame) in
  mkFrame values offset.

(** ** The layout on the reader's side *)

Definition stage_entries (index : nat) (id : string) (offset : nat) (specs : list OutputSpec) : list OutputEntry :=
  imap (λ i s, mkEntry index id (offset + i) s) specs.

Fixpoint derive_from (r : ProcessorRegistry) (index : nat) (cs : list (ProcessorConfig V)) (offset : nat) : list OutputEntry * bool :=
  match cs with
  | [] => ([], false)
  | c :: cs =>
      let specs := registry_outputs r (type_id_of c) in
      match specs with
      | [] => derive_from r (Datatypes.S index) cs offset
      | _ =>
          let n := List.length specs in
          if Nat.ltb MAX_OUTPUTS (offset + n) then ([], true)
          else let '(es, t) := derive_from r (Datatypes.S index) cs (offset + n) in
               (stage_entries index (type_id_of c) offset specs ++ es, t)
      end
  end.

Definition derive (c : PipelineConfig V) (r : ProcessorRegistry) : OutputLayout :=
  let '(es, t) := derive_from r 0 (processors c) 0 in mkLayout es t.

Definition for_processor (index : nat) (l : OutputLayout) : list OutputEntry :=
  retain (λ e, Nat.eqb (proc_index e) index) (entries l).

End pipeline.

(** ** Facts *)

Section facts.
Context {F P V : Type} `{!JsonValue V} `{!AudioProcessor P V} `{!ProcessorFactory F P V}.

Lemma position_lookup specs k s :
  NoDup (os_key <$> specs) → specs !! k = Some s → position (os_key s) specs = Some k.
Proof.
  revert k. induction specs as [|x specs IH]; intros k Hn Hk; [done|]. apply NoDup_cons in Hn as [Hx Hn]. cbn.
  destruct k as [|k]; cbn in Hk.
  - injection Hk as <-. by rewrite String.eqb_refl.
  - destruct (String.eqb_spec (os_key x) (os_key s)) as [E|]; [|by rewrite (IH k)].
    exfalso. apply Hx. rewrite E. apply list_elem_of_fmap. exists s. split; [done|by eapply list_elem_of_lookup_2].
Qed.

Lemma position_inj specs key k s : position key specs = Some k → specs !! k = Some s → os_key s = key.
Proof.
  revert k. induction specs as [|x specs IH]; intros k Hk Hs; [done|]. cbn in Hk.
  destruct (String.eqb_spec (os_key x) key) as [E|]; [injection Hk as <-; cbn in Hs; by injection Hs as <-|].
  destruct (position key specs) as [j|] eqn:Ej; [|done]. injection Hk as <-. by apply (IH j).
Qed.

(** What a stage shows under a key: the last value it set, nothing being 0. *)
Definition last_set (key : string) (sets : list (string * f32)) (start : f32) : f32 :=
  fold_left (λ acc kv, if String.eqb kv.1 key then kv.2 else acc) sets start.
Definition shown (p : P) (key : string) : f32 := if is_enabled p then last_set key (write_outputs p) f32_zero else f32_zero.

Lemma sets_lookup specs sets slots k s v :
  NoDup (os_key <$> specs) → specs !! k = Some s → slots !! k = Some v →
  fold_left (λ slots kv, OutputSink_set specs kv slots) sets slots !! k = Some (last_set (os_key s) sets v).
Proof.
  intros Hn Hs. revert slots v. induction sets as [|[key x] sets IH]; intros slots v Hv; [done|]. cbn [fold_left].
  apply IH. unfold OutputSink_set. cbn [fst snd]. destruct (String.eqb_spec key (os_key s)) as [->|Hne].
  - rewrite (position_lookup _ _ _ Hn Hs), list_lookup_insert_eq; [done|]. by eapply lookup_lt_Some.
  - destruct (position key specs) as [j|] eqn:Ej; [|done]. rewrite list_lookup_insert_ne; [done|].
    intros ->. apply Hne. symmetry. by eapply position_inj.
Qed.

Lemma sets_length specs sets slots :
  List.length (fold_left (λ slots kv, OutputSink_set specs kv slots) sets slots) = List.length slots.
Proof.
  revert slots. induction sets as [|kv sets IH]; intros slots; [done|]. cbn. rewrite IH. unfold OutputSink_set.
  destruct (position _ _); [apply length_insert|done].
Qed.

Lemma stage_slots_length p specs : List.length (stage_slots p specs) = List.length specs.
Proof. unfold stage_slots. destruct (is_enabled p); [rewrite sets_length|]; apply length_replicate. Qed.

Lemma stage_slots_lookup p specs k s :
  NoDup (os_key <$> specs) → specs !! k = Some s → stage_slots p specs !! k = Some (shown p (os_key s)).
Proof.
  intros Hn Hs. assert (replicate (List.length specs) f32_zero !! k = Some f32_zero) as Hr.
  { apply lookup_replicate_2. by eapply lookup_lt_Some. }
  unfold stage_slots, shown. destruct (is_enabled p); [by apply sets_lookup|done].
Qed.

Lemma write_window_spec offset window vals :
  (offset + List.length window ≤ List.length vals)%nat →
  List.length (write_window offset window vals) = List.length vals ∧
  take offset (write_window offset window vals) = take offset vals ∧
  ∀ k, (k < List.length window)%nat → write_window offset window vals !! (offset + k)%nat = window !! k.
Proof.
  intros Hl. unfold write_window. assert (List.length (take offset vals) = offset) as Et by (rewrite length_take; lia).
  split_and!.
  - rewrite !length_app, Et, length_drop. lia.
  - rewrite take_app_le by lia. by rewrite take_take, Nat.min_id.
  - intros k Hk. rewrite lookup_app_r by lia. rewrite Et. replace (offset + k - offset)%nat with k by lia.
    by rewrite lookup_app_l.
Qed.

(** The writer and the reader walk the stages in step. *)
Lemma write_derive (r : ProcessorRegistry (F:=F)) cs ps index offset vals :
  List.length ps = List.length cs → List.length vals = MAX_OUTPUTS → (offset ≤ MAX_OUTPUTS)%nat →
  Forall (λ c : ProcessorConfig V, NoDup (os_key <$> registry_outputs r (type_id_of c))) cs →
  let w := write_stages (zip ps (map (λ c, registry_outputs r (type_id_of c)) cs)) offset vals in
  let d := derive_from r index cs offset in
  List.length w.1 = MAX_OUTPUTS ∧ w.2 = (offset + List.length d.1)%nat ∧ take offset w.1 = take offset vals ∧
  ∀ i e, d.1 !! i = Some e →
    slot e = (offset + i)%nat ∧ (index ≤ proc_index e)%nat ∧
    ∃ p, ps !! (proc_index e - index)%nat = Some p ∧ w.1 !! slot e = Some (shown p (os_key (spec e))).
Proof.
  intros Hps. revert ps Hps index offset vals. induction cs as [|c cs IH]; intros ps Hps index offset vals Hv Ho Hn.
  - destruct ps; [|done]. cbn. split_and!; [done|lia|done|]. intros i e He. by destruct i.
  - destruct ps as [|p ps]; [done|]. injection Hps as Hps. apply Forall_cons in Hn as [Hn1 Hn]. cbn [map zip zip_with write_stages derive_from].
    destruct (registry_outputs r (type_id_of c)) as [|sp specs'] eqn:Es.
    + destruct (IH ps Hps (S index) offset vals Hv Ho Hn) as (A & B & C & D). split_and!; [done..|].
      intros i e He. destruct (D i e He) as (D1 & D2 & q & D3 & D4). split_and!; [done|lia|]. exists q. split; [|done].
      by replace (proc_index e - index)%nat with (S (proc_index e - S index)) by lia.
    + rewrite <- Es in *. set (specs := registry_outputs r (type_id_of c)) in *. clearbody specs.
      destruct (Nat.ltb_spec MAX_OUTPUTS (offset + List.length specs)) as [Hlt|Hle].
      { cbn. split_and!; [done|lia|done|]. intros i e He. by destruct i. }
      destruct (write_window_spec offset (stage_slots p specs) vals) as (W1 & W2 & W3); [rewrite stage_slots_length; lia|].
      rewrite stage_slots_length in W3.
      destruct (IH ps Hps (S index) (offset + List.length specs)%nat (write_window offset (stage_slots p specs) vals)) as (A & B & C & D);
        [by rewrite W1|done|done|].
      set (w := write_stages _ _ _) in *. destruct (derive_from r (S index) cs (offset + List.length specs)) as [es t]. cbn [fst snd] in *.
      assert (∀ k, (k < offset + List.length specs)%nat → w.1 !! k = write_window offset (stage_slots p specs) vals !! k) as Hk.
      { intros k Hk. rewrite <- (lookup_take_lt w.1 _ k Hk), C. by apply lookup_take_lt. }
      assert (List.length (stage_entries index (type_id_of c) offset specs) = List.length specs) as El by apply length_imap.
      split_and!; [done|rewrite length_app, El; lia| |].
      * transitivity (take offset (take (offset + List.length specs) w.1)); [by rewrite take_take, Nat.min_l by lia|].
        by rewrite C, take_take, Nat.min_l by lia.
      * intros i e He. apply lookup_app_Some in He as [He|[Hi He]].
        -- unfold stage_entries in He. rewrite list_lookup_imap in He. destruct (specs !! i) as [s|] eqn:Esi; [|done].
           cbn in He. injection He as <-. cbn. split_and!; [done|lia|]. exists p. rewrite Nat.sub_diag. split; [done|].
           assert (i < List.length specs)%nat by by eapply lookup_lt_Some.
           rewrite Hk, W3 by lia. by apply stage_slots_lookup.
        -- destruct (D _ e He) as (D1 & D2 & q & D3 & D4). split_and!; [lia|lia|]. exists q. split; [|done].
           by replace (proc_index e - index)%nat with (S (proc_index e - S index)) by lia.
Qed.

Lemma build_shape (r : ProcessorRegistry (F:=F)) cs ps specs :
  build r cs = Ok (ps, specs) →
  List.length ps = List.length cs ∧ specs = map (λ c, registry_outputs r (type_id_of c)) cs.
Proof.
  revert ps specs. induction cs as [|c cs IH]; intros ps specs E; cbn in E; [by injection E as <- <-|].
  destruct (create r c) as [p|]; [|done]. destruct (build r cs) as [[ps' specs']|]; [|done]. injection E as <- <-.
  destruct (IH ps' specs' eq_refl) as [E ->]. cbn. by rewrite E.
Qed.

Lemma process_stages_length rate samples (ps : list P) : List.length (process_stages rate samples ps).2 = List.length ps.
Proof.
  revert samples. induction ps as [|p ps IH]; intros samples; [done|]. cbn [process_stages].
  destruct (if is_enabled p then _ else _) as [[s samples'] p'].
  specialize (IH samples'). destruct (process_stages rate samples' ps) as [[s' samples''] ps']. cbn in *. by f_equal.
Qed.

(** A pipeline after the frames [heard]. *)
Definition after_frames (heard : list (list f32)) (pl : AudioPipeline P) : AudioPipeline P :=
  fold_left (λ pl samples, (pipeline_process samples 48000 pl).2) heard pl.

Lemma after_frames_shape heard pl :
  output_specs (after_frames heard pl) = output_specs pl ∧ List.length (stages (after_frames heard pl)) = List.length (stages pl).
Proof.
  revert pl. induction heard as [|x heard IH]; intros pl; [done|].
  change (after_frames (x :: heard) pl) with (after_frames heard (pipeline_process x 48000 pl).2).
  destruct (IH (pipeline_process x 48000 pl).2) as [-> ->]. unfold pipeline_process. pose proof (process_stages_length 48000 x (stages pl)) as E.
  destruct (process_stages 48000 x (stages pl)) as [[s samples] ps]. done.
Qed.

(** Live values reach the meters they belong to.  Whatever frames a pipeline
    built from a configuration has processed, and whatever was in the snapshot
    before, every entry of the layout that the user interface derives from the
    same configuration names the slot that holds what the stage set last under
    the entry's key, or 0 when the stage is disabled; the entries fill the slots
    from 0 on without a gap, and there are as many as the snapshot declares. *)
Theorem live_outputs_addressed (c : PipelineConfig V) (r : ProcessorRegistry (F:=F)) pl heard snapshot :
  from_config c r = Ok pl → List.length (values snapshot) = MAX_OUTPUTS →
  (∀ pc, pc ∈ processors c → NoDup (os_key <$> registry_outputs r (type_id_of pc))) →
  let now := after_frames heard pl in
  let frame := pipeline_write_outputs now snapshot in
  frame_len frame = List.length (entries (derive c r)) ∧ (frame_len frame ≤ MAX_OUTPUTS)%nat ∧
  ∀ i e, entries (derive c r) !! i = Some e →
    slot e = i ∧ ∃ p, stages now !! proc_index e = Some p ∧ OutputFrame_get (slot e) frame = Some (shown p (os_key (spec e))).
Proof.
  intros Hf Hl Hn now frame. unfold from_config in Hf. destruct (build r (processors c)) as [[ps specs]|] eqn:Eb; [|done].
  injection Hf as <-. apply build_shape in Eb as [Elen ->]. destruct (after_frames_shape heard (mkPipeline ps (map (λ c, registry_outputs r (type_id_of c)) (processors c)) (frame_size c))) as [E1 E2].
  fold now in E1, E2. cbn in E1, E2.
  assert (Forall (λ c : ProcessorConfig V, NoDup (os_key <$> registry_outputs r (type_id_of c))) (processors c)) as Hn'
    by by apply Forall_forall.
  destruct (write_derive r (processors c) (stages now) 0 0 (values snapshot)) as (A & B & _ & D); [congruence|done|lia|done|].
  unfold frame, pipeline_write_outputs, derive. rewrite E1. set (w := write_stages _ _ _) in *.
  destruct w as [vals off]. destruct (derive_from r 0 (processors c) 0) as [es t]. cbn in *. subst off.
  split_and!; [done| |].
  - destruct es as [|e0 es0] eqn:Ees using rev_ind; [cbn; lia|]. clear Ees.
    destruct (D (List.length es0) e0) as (D1 & _ & p & _ & D4); [by rewrite lookup_app_r, Nat.sub_diag by lia|].
    apply lookup_lt_Some in D4. rewrite length_app. cbn. lia.
  - intros i e He. destruct (D i e He) as (D1 & _ & p & D3 & D4). split; [done|]. exists p. rewrite Nat.sub_0_r in D3. split; [done|].
    unfold OutputFrame_get. cbn [frame_len values]. destruct (Nat.ltb_spec (slot e) (List.length es)) as [|Hge]; [exact D4|].
    apply lookup_lt_Some in He. lia.
Qed.

End facts.

(** ** Backfilled settings *)

Section backfill.
Context {V : Type} `{!JsonValue V}.

(** The defaults a schema declares. *)
Definition schema_defaults (schema : V) : gmap string V :=
  match json_get "properties" schema ≫= as_object with Some properties => omap (json_get "default") properties | None => ∅ end.

Lemma backfill_union (value schema : V) :
  backfill_settings_from_schema value schema =
    match json_get "properties" schema ≫= as_object with
    | Some _ => json_object (default ∅ (as_object value) ∪ schema_defaults schema)
    | None => value
    end.
Proof.
  unfold backfill_settings_from_schema, schema_defaults. destruct (json_get "properties" schema ≫= as_object) as [properties|]; [|done].
  f_equal. set (o := default ∅ (as_object value)). clearbody o.
  refine (map_fold_weak_ind (λ r m, r = o ∪ omap (json_get "default") m) _ _ _ _ properties).
  - by rewrite omap_empty, (right_id_L ∅ (∪)).
  - clear properties. intros k s m r Hk ->. apply map_eq. intros j.
    assert (omap (json_get "default") m !! k = None) as Hm by (rewrite lookup_omap, Hk; done).
    destruct ((o ∪ omap (json_get "default") m) !! k) as [x|] eqn:Eu.
    + apply lookup_union_Some_raw in Eu as [Eo|[_ ?]]; [|congruence]. rewrite !lookup_union, !lookup_omap.
      destruct (decide (k = j)) as [<-|]; [|by rewrite lookup_insert_ne]. rewrite Eo. by destruct (_ ≫= _), (_ ≫= _).
    + apply lookup_union_None in Eu as [Eo _]. destruct (json_get "default" s) as [d|] eqn:Ed.
      * destruct (decide (k = j)) as [<-|]; [|by rewrite lookup_insert_ne, !lookup_union, !lookup_omap, lookup_insert_ne].
        by rewrite lookup_insert_eq, lookup_union, lookup_omap, lookup_insert_eq, Eo; cbn; rewrite Ed.
      * rewrite !lookup_union, !lookup_omap. destruct (decide (k = j)) as [<-|]; [|by rewrite lookup_insert_ne].
        rewrite lookup_insert_eq, Eo, Hk. cbn. by rewrite Ed.
Qed.

End backfill.

(** ** A JSON type *)

Inductive json := JObject (m : gmap string json) | JString (s : string) | JNumber (literal : string) | JBool (b : bool).

#[export] Program Instance json_value : JsonValue json := {|
  as_object v := match v with JObject m => Some m | JString _ | JNumber _ | JBool _ => None end;
  json_object := JObject; json_string := JString; json_number := JNumber; json_bool := JBool |}.
Next Obligation. done. Qed.
Next Obligation. intros [m|s|s|b] m' E; try done; by injection E as ->. Qed.

#[export] Instance json_eq_dec : EqDecision json.
Proof.
  refine (fix go a b := let _ : EqDecision json := @go in
    match a, b with
    | JObject m, JObject m' => cast_if (decide (m = m'))
    | JString s, JString s' => cast_if (decide (s = s'))
    | JNumber s, JNumber s' => cast_if (decide (s = s'))
    | JBool s, JBool s' => cast_if (decide (s = s'))
    | _, _ => right _
    end); try clear go r; congruence.
Defined.

(** ** The order of floats *)

(** The order is lexicographic in a class, an exponent and a mantissa. *)
Definition rank (x : f32) : Z * Z * Z :=
  match x with
  | S754_infinity true => (-2, 0, 0)%Z | S754_infinity false => (2, 0, 0)%Z
  | S754_finite true m e => (-1, - e, - Zpos m)%Z | S754_finite false m e => (1, e, Zpos m)%Z
  | S754_zero _ | S754_nan => (0, 0, 0)%Z
  end.
Definition rank_lt (a b : Z * Z * Z) : Prop :=
  (a.1.1 < b.1.1 ∨ a.1.1 = b.1.1 ∧ (a.1.2 < b.1.2 ∨ a.1.2 = b.1.2 ∧ a.2 < b.2))%Z.

Lemma f32_lt_rank a b : f32_lt a b = true ↔ a ≠ S754_nan ∧ b ≠ S754_nan ∧ rank_lt (rank a) (rank b).
Proof.
  unfold f32_lt, SFltb, rank_lt. destruct a as [[]|[]| |[] m e], b as [[]|[]| |[] m' e']; cbn;
    try (split; [try done; intros _; split_and!; try done; lia|by intros (? & ? & ?); try done; lia]).
  - destruct (Z.compare_spec e e') as [->|H|H]; cbn.
    + change (Pos.compare_cont Eq m m') with (Pos.compare m m'). destruct (Pos.compare_spec m m') as [->|H|H]; cbn;
        (split; [try done; intros _; split_and!; try done; lia|intros (_ & _ & ?); try done; lia]).
    + split; [done|intros (_ & _ & ?); lia].
    + split; [intros _; split_and!; try done; lia|done].
  - destruct (Z.compare_spec e e') as [->|H|H]; cbn.
    + change (Pos.compare_cont Eq m m') with (Pos.compare m m'). destruct (Pos.compare_spec m m') as [->|H|H]; cbn;
        (split; [try done; intros _; split_and!; try done; lia|intros (_ & _ & ?); try done; lia]).
    + split; [intros _; split_and!; try done; lia|done].
    + split; [done|intros (_ & _ & ?); lia].
Qed.

Lemma f32_lt_min_l a b x : f32_lt b x = true → f32_lt (f32_min a b) x = true.
Proof.
  intros H. pose proof H as (Hb & Hx & Hr)%f32_lt_rank. unfold f32_min.
  destruct a as [sa|sa| |sa ma ea] eqn:Ea, b as [sb|sb| |sb mb eb] eqn:Eb; try done; rewrite <- Ea, <- Eb in *;
    (destruct (f32_lt b a) eqn:E; [done|]; apply f32_lt_rank; split_and!; [by subst|done|];
     assert (¬ rank_lt (rank b) (rank a)) as Hn by (intros Hba; assert (f32_lt b a = true) by (apply f32_lt_rank; by subst); congruence);
     unfold rank_lt in *; lia).
Qed.

End Pipeline.
