(* ===== verification/Processors.v ===== *)
(** The built-in audio processors: [crates/rumble-client/src/processors/].

    The gain, the denoiser with its voice gate, the noise gate, the state machine
    that both gates share ([VadShaper]), and the handling of the microphone's
    pipeline configuration ([mod.rs]).

    The neural network is the parameter [RNNoise], serde's reading and writing of
    the settings records is [SettingsJson]. *)
From Stdlib Require Import NArith ZArith Lia Floats.SpecFloat.
From stdpp Require Import base gmap list strings.
From S2P Require Import Prelude Pipeline.

Module Processors.
Import Pipeline.

(** ** [vad_shaper.rs] *)

Record VadShaperSettings := mkShaperSettings { trigger : f32; release : f32; attack_ms : N; holdoff_ms : N }.

Record VadShaper := mkShaper {
  voice_active : bool; attack_samples_accumulated : N; holdoff_samples_remaining : N }.

Definition VadShaper_new : VadShaper := mkShaper false 0 0.
Definition shaper_reset (_ : VadShaper) : VadShaper := mkShaper false 0 0.

Definition saturating_add_u32 (a b : N) : N := N.min u32_max (a + b).

(** [(ms as u64 * sample_rate as u64 / 1000) as u32]. *)
Definition ms_to_samples (ms sample_rate : N) : N := wrap_u32 (ms * sample_rate / 1000).

Definition update (score : f32) (frame_samples sample_rate : N) (settings : VadShaperSettings) (s : VadShaper) : VadShaper :=
  let trigger := trigger settings in
  let release := f32_min (release settings) trigger in
  let holdoff_samples := ms_to_samples (holdoff_ms settings) sample_rate in
  let attack_samples_required := ms_to_samples (attack_ms settings) sample_rate in
  if voice_active s then
    if f32_lt release score then mkShaper true (attack_samples_accumulated s) holdoff_samples
    else if (0 <? holdoff_samples_remaining s)%N then
      mkShaper true (attack_samples_accumulated s) (holdoff_samples_remaining s - frame_samples)
    else mkShaper false 0 (holdoff_samples_remaining s)
  else if f32_lt trigger score then
    let acc := saturating_add_u32 (attack_samples_accumulated s) frame_samples in
    if (attack_samples_required <=? acc)%N then mkShaper true 0 holdoff_samples
    else mkShaper false acc (holdoff_samples_remaining s)
  else mkShaper false 0 (holdoff_samples_remaining s).

(** ** Settings *)

Record GainSettings := mkGainSettings { gain_db : f32 }.
Definition GainSettings_default : GainSettings := mkGainSettings f32_zero.

Record NoiseGateSettings := mkGateSettings {
  threshold_db : f32; release_threshold_db : f32; gate_attack_ms : N; gate_holdoff_ms : N }.
Definition NoiseGateSettings_default : NoiseGateSettings :=
  mkGateSettings (f32_const (-40) 0) (f32_const (-45) 0) 0 300.

Record DenoiseSettings := mkDenoiseSettings {
  denoise_enabled : bool; vad_enabled : bool; vad_trigger : f32; vad_release : f32; vad_attack_ms : N; vad_holdoff_ms : N }.
Definition DenoiseSettings_default : DenoiseSettings :=
  mkDenoiseSettings true true (f32_const 1 (-1)) (f32_div (f32_of_N 35) (f32_of_N 100)) 0 300.

(** [serde_json::from_value] and [to_value] on the settings. *)
Class SettingsJson (V : Type) := mkSettingsJson {
  gain_of_json : V → result GainSettings; gain_to_json : GainSettings → V;
  gate_of_json : V → result NoiseGateSettings; gate_to_json : NoiseGateSettings → V;
  denoise_of_json : V → result DenoiseSettings; denoise_to_json : DenoiseSettings → V;
}.

(** [DENOISE_FRAME_SIZE], the frame size of the network. *)
Definition DENOISE_FRAME_SIZE : nat := 480.

(** [process_frame] gives the voice probability and the output frame. *)
Class RNNoise (R : Type) := mkRNNoise {
  DenoiseState_new : R;
  process_frame : list f32 → R → f32 * list f32 * R;
  process_frame_length : ∀ x r, List.length (process_frame x r).1.2 = DENOISE_FRAME_SIZE;
}.

(** ** [gain.rs] *)

Section processors.
Context `{!Libm} {R V : Type} `{!RNNoise R} `{!JsonValue V} `{!SettingsJson V}.

Record GainProcessor := mkGain { gain_settings : GainSettings; gain_linear : f32; gain_enabled : bool }.

Definition GainProcessor_new (gain_db : f32) : GainProcessor := mkGain (mkGainSettings gain_db) (db_to_linear gain_db) true.

Definition gain_process (samples : list f32) (_ : N) (g : GainProcessor) : bool * list f32 * GainProcessor :=
  if f32_eq (gain_linear g) (f32_of_N 1) then (false, samples, g)
  else
    let limit := f32_lt (f32_of_N 1) (gain_linear g) in
    (false, map (λ sample, let sample := f32_mul sample (gain_linear g) in
                           if limit then soft_clip sample else sample) samples, g).

Definition gain_set_config (config : V) (g : GainProcessor) : GainProcessor :=
  match gain_of_json config with
  | Ok s => mkGain s (db_to_linear (gain_db s)) (gain_enabled g)
  | Err _ => g
  end.

(** ** [noise_gate.rs] *)

Definition METER_MIN_DB : f32 := f32_const (-60) 0.

Record NoiseGateProcessor := mkGate {
  gate_settings : NoiseGateSettings; gate_enabled : bool; gate_shaper : VadShaper; last_level_db : f32 }.

Definition NoiseGate_with_settings (s : NoiseGateSettings) : NoiseGateProcessor :=
  mkGate s true VadShaper_new f32_neg_infinity.

Definition gate_shaper_settings (s : NoiseGateSettings) : VadShaperSettings :=
  mkShaperSettings (threshold_db s) (release_threshold_db s) (gate_attack_ms s) (gate_holdoff_ms s).

Definition gate_process (samples : list f32) (sample_rate : N) (g : NoiseGateProcessor) : bool * list f32 * NoiseGateProcessor :=
  let level_db := calculate_rms_db samples in
  let shaper := update level_db (wrap_u32 (N.of_nat (List.length samples))) sample_rate
                  (gate_shaper_settings (gate_settings g)) (gate_shaper g) in
  (negb (voice_active shaper), samples, mkGate (gate_settings g) (gate_enabled g) shaper level_db).

Definition gate_reset (g : NoiseGateProcessor) : NoiseGateProcessor :=
  mkGate (gate_settings g) (gate_enabled g) (shaper_reset (gate_shaper g)) f32_neg_infinity.

Definition gate_set_config (config : V) (g : NoiseGateProcessor) : NoiseGateProcessor :=
  match gate_of_json config with
  | Ok s => mkGate s (gate_enabled g) (gate_shaper g) (last_level_db g)
  | Err _ => g
  end.

Definition gate_set_enabled (enabled : bool) (g : NoiseGateProcessor) : NoiseGateProcessor :=
  let g := mkGate (gate_settings g) enabled (gate_shaper g) (last_level_db g) in
  if enabled then g else gate_reset g.

Definition gate_write_outputs (g : NoiseGateProcessor) : list (string * f32) :=
  [("level_db", f32_max (last_level_db g) METER_MIN_DB);
   ("gate_open", if voice_active (gate_shaper g) then f32_of_N 1 else f32_zero)].

(** ** [denoise.rs] *)

Record DenoiseProcessor := mkDenoise {
  denoise_state : R; input_buffer : list f32; output_buffer : list f32; first_frame_done : bool;
  last_vad_prob : f32; denoise_settings : DenoiseSettings; denoise_shaper : VadShaper; is_denoise_enabled : bool }.

Definition Denoise_with_settings (s : DenoiseSettings) : DenoiseProcessor :=
  mkDenoise DenoiseState_new [] [] false f32_zero s VadShaper_new true.

Definition denoise_shaper_settings (s : DenoiseSettings) : VadShaperSettings :=
  mkShaperSettings (vad_trigger s) (vad_release s) (vad_attack_ms s) (vad_holdoff_ms s).

Definition i16_scale : f32 := f32_of_N 32767.

(** One round of the loop: the leading chunk of the input. *)
Definition denoise_chunk (sample_rate : N) (d : DenoiseProcessor) : DenoiseProcessor :=
  let scaled := map (λ src, f32_mul src i16_scale) (take DENOISE_FRAME_SIZE (input_buffer d)) in
  let '(vad_prob, out_buf, state) := process_frame scaled (denoise_state d) in
  let shaper := if vad_enabled (denoise_settings d)
                then update vad_prob (N.of_nat DENOISE_FRAME_SIZE) sample_rate
                       (denoise_shaper_settings (denoise_settings d)) (denoise_shaper d)
                else denoise_shaper d in
  let out := if first_frame_done d then map (λ sample, f32_div sample i16_scale) out_buf
             else replicate DENOISE_FRAME_SIZE f32_zero in
  mkDenoise state (drop DENOISE_FRAME_SIZE (input_buffer d)) (output_buffer d ++ out) true vad_prob
    (denoise_settings d) shaper (is_denoise_enabled d).

(** A round consumes a chunk, so the length of the input bounds the rounds. *)
Fixpoint denoise_chunks (fuel : nat) (sample_rate : N) (d : DenoiseProcessor) : DenoiseProcessor :=
  match fuel with
  | O => d
  | S fuel => if Nat.leb DENOISE_FRAME_SIZE (List.length (input_buffer d))
              then denoise_chunks fuel sample_rate (denoise_chunk sample_rate d) else d
  end.

Definition next_multiple_of (n m : nat) : nat := ((n + m - 1) / m * m)%nat.

Definition with_buffers (input output : list f32) (d : DenoiseProcessor) : DenoiseProcessor :=
  mkDenoise (denoise_state d) input output (first_frame_done d) (last_vad_prob d) (denoise_settings d)
    (denoise_shaper d) (is_denoise_enabled d).

(** The silence inserted at the front when the output falls short. *)
Definition pad_output (wanted : nat) (output : list f32) : list f32 :=
  let shortfall := (wanted - List.length output)%nat in
  if Nat.ltb 0 shortfall then replicate (next_multiple_of shortfall DENOISE_FRAME_SIZE) f32_zero ++ output else output.

Definition denoise_process (samples : list f32) (sample_rate : N) (d : DenoiseProcessor) : bool * list f32 * DenoiseProcessor :=
  let want_denoise := denoise_enabled (denoise_settings d) in
  let want_vad := vad_enabled (denoise_settings d) in
  if negb want_denoise && negb want_vad then (false, samples, d)
  else
    let input := input_buffer d ++ samples in
    let d := denoise_chunks (List.length input) sample_rate (with_buffers input (output_buffer d) d) in
    let copy_len := List.length samples in
    let output := pad_output copy_len (output_buffer d) in
    let d := with_buffers (input_buffer d) (drop copy_len output) d in
    (want_vad && negb (voice_active (denoise_shaper d)), if want_denoise then take copy_len output else samples, d).

Definition denoise_reset (d : DenoiseProcessor) : DenoiseProcessor :=
  mkDenoise DenoiseState_new [] [] false f32_zero (denoise_settings d) (shaper_reset (denoise_shaper d)) (is_denoise_enabled d).

Definition denoise_set_config (config : V) (d : DenoiseProcessor) : DenoiseProcessor :=
  match denoise_of_json config with
  | Ok s =>
      let shaper := if Bool.eqb (vad_enabled s) (vad_enabled (denoise_settings d)) then denoise_shaper d
                    else shaper_reset (denoise_shaper d) in
      mkDenoise (denoise_state d) (input_buffer d) (output_buffer d) (first_frame_done d) (last_vad_prob d) s shaper
        (is_denoise_enabled d)
  | Err _ => d
  end.

Definition denoise_set_enabled (enabled : bool) (d : DenoiseProcessor) : DenoiseProcessor :=
  let d := mkDenoise (denoise_state d) (input_buffer d) (output_buffer d) (first_frame_done d) (last_vad_prob d)
             (denoise_settings d) (denoise_shaper d) enabled in
  if enabled then denoise_reset d else d.

Definition denoise_write_outputs (d : DenoiseProcessor) : list (string * f32) :=
  [("vad_probability", last_vad_prob d);
   ("voice_active", if voice_active (denoise_shaper d) then f32_of_N 1 else f32_zero)].

(** ** The processors as one type *)

Inductive Builtin := BGain (g : GainProcessor) | BDenoise (d : DenoiseProcessor) | BGate (g : NoiseGateProcessor).

#[export] Instance builtin_processor : AudioProcessor Builtin V := {|
  process samples rate b := match b with
    | BGain g => let '(s, l, g) := gain_process samples rate g in (s, l, BGain g)
    | BDenoise d => let '(s, l, d) := denoise_process samples rate d in (s, l, BDenoise d)
    | BGate g => let '(s, l, g) := gate_process samples rate g in (s, l, BGate g)
    end;
  name b := match b with
    | BGain _ => "Gain" | BDenoise _ => "Denoise + Voice Gate (RNNoise)" | BGate _ => "Noise Gate" end;
  reset b := match b with BGain g => BGain g | BDenoise d => BDenoise (denoise_reset d) | BGate g => BGate (gate_reset g) end;
  config b := match b with
    | BGain g => gain_to_json (gain_settings g)
    | BDenoise d => denoise_to_json (denoise_settings d)
    | BGate g => gate_to_json (gate_settings g)
    end;
  set_config v b := match b with
    | BGain g => BGain (gain_set_config v g)
    | BDenoise d => BDenoise (denoise_set_config v d)
    | BGate g => BGate (gate_set_config v g)
    end;
  is_enabled b := match b with
    | BGain g => gain_enabled g | BDenoise d => is_denoise_enabled d | BGate g => gate_enabled g end;
  set_enabled e b := match b with
    | BGain g => BGain (mkGain (gain_settings g) (gain_linear g) e)
    | BDenoise d => BDenoise (denoise_set_enabled e d)
    | BGate g => BGate (gate_set_enabled e g)
    end;
  write_outputs b := match b with
    | BGain _ => [] | BDenoise d => denoise_write_outputs d | BGate g => gate_write_outputs g end;
|}.

End processors.
Arguments Builtin : clear implicits.
Arguments DenoiseProcessor : clear implicits.

(** ** Factories and default configuration *)

Inductive BuiltinFactory := GainProcessorFactory | DenoiseProcessorFactory | NoiseGateProcessorFactory.

Definition GAIN : string := "builtin.gain".
Definition DENOISE : string := "builtin.denoise".
Definition NOISE_GATE : string := "builtin.vad".

Section factories.
Context `{!Libm} {R V : Type} `{!RNNoise R} `{!JsonValue V} `{!SettingsJson V}.

(** One property of a schema. *)
Definition schema_property (ty title description : string) (dflt : V) (range : option (string * string)) : V :=
  json_object (list_to_map
    ([("type", json_string ty); ("title", json_string title); ("description", json_string description); ("default", dflt)] ++
     match range with Some (lo, hi) => [("minimum", json_number lo); ("maximum", json_number hi)] | None => [] end)).

Definition schema_of (properties : list (string * V)) : V :=
  json_object (list_to_map [("type", json_string "object"); ("properties", json_object (list_to_map properties))]).

Definition gain_schema : V := schema_of
  [("gain_db", schema_property "number" "Gain (dB)" "Volume adjustment in decibels. 0 = no change, negative = quieter, positive = louder."
      (json_number "0.0") (Some ("-60.0", "20.0")))].

Definition denoise_schema : V := schema_of
  [("denoise_enabled", schema_property "boolean" "Apply noise suppression" "Replace the input audio with the denoised output."
      (json_bool true) None);
   ("vad_enabled", schema_property "boolean" "Gate transmission on voice"
      "Use the RNNoise voice probability to suppress silence and non-speech." (json_bool true) None);
   ("vad_trigger", schema_property "number" "Voice trigger (probability)" "Voice probability above which transmission starts."
      (json_number "0.5") (Some ("0.0", "1.0")));
   ("vad_release", schema_property "number" "Voice release (probability)"
      "Once active, stay active until probability drops below this. Set lower than the trigger for hysteresis."
      (json_number "0.35") (Some ("0.0", "1.0")));
   ("vad_attack_ms", schema_property "integer" "Voice attack (ms)"
      "Probability must stay above trigger for this long before activating. The delayed audio is recovered from the 100 ms pre-roll buffer, not lost."
      (json_number "0") (Some ("0", "200")));
   ("vad_holdoff_ms", schema_property "integer" "Voice holdoff (ms)"
      "Keep transmitting for this long after the probability drops below release." (json_number "300") (Some ("0", "2000")))].

Definition gate_schema : V := schema_of
  [("threshold_db", schema_property "number" "Trigger threshold (dB)" "Audio level required to start transmitting."
      (json_number "-40.0") (Some ("-60.0", "0.0")));
   ("release_threshold_db", schema_property "number" "Release threshold (dB)"
      "Once active, stay active until level drops below this. Set lower than the trigger threshold for hysteresis."
      (json_number "-45.0") (Some ("-60.0", "0.0")));
   ("attack_ms", schema_property "integer" "Attack (ms)"
      "Signal must stay above the trigger threshold for this long before activating. Rejects short transients; the delayed audio is recovered from the 100 ms pre-roll buffer, not lost."
      (json_number "0") (Some ("0", "200")));
   ("holdoff_ms", schema_property "integer" "Holdoff (ms)"
      "Time to keep transmitting after the level drops below the release threshold. Prevents cutting off word endings."
      (json_number "300") (Some ("0", "2000")))].

(** The three bands of a gate's meter. *)
Definition gate_zones (lo hi : f32) (release_key trigger_key closed hold open : string) : list Zone :=
  [mkZone (Fixed lo) (Setting release_key) Inactive (Some closed);
   mkZone (Setting release_key) (Setting trigger_key) Warning (Some hold);
   mkZone (Setting trigger_key) (Fixed hi) Active (Some open)].

Definition denoise_outputs : list OutputSpec :=
  [mkSpec "vad_probability" "Voice probability"
     (Meter f32_zero (f32_of_N 1) None (gate_zones f32_zero (f32_of_N 1) "vad_release" "vad_trigger" "silent" "hold" "speech") []);
   mkSpec "voice_active" "Voice gate open" Indicator].

Definition gate_outputs : list OutputSpec :=
  [mkSpec "level_db" "Input level"
     (Meter METER_MIN_DB f32_zero (Some "dB")
        (gate_zones METER_MIN_DB f32_zero "release_threshold_db" "threshold_db" "closed" "hold" "open") []);
   mkSpec "gate_open" "Gate open" Indicator].

Definition builtin_default (f : BuiltinFactory) : Builtin R :=
  match f with
  | GainProcessorFactory => BGain (GainProcessor_new f32_zero)
  | DenoiseProcessorFactory => BDenoise (Denoise_with_settings DenoiseSettings_default)
  | NoiseGateProcessorFactory => BGate (NoiseGate_with_settings NoiseGateSettings_default)
  end.

Definition builtin_from_config (f : BuiltinFactory) (config : V) : result (Builtin R) :=
  match f with
  | GainProcessorFactory =>
      match gain_of_json config with
      | Ok s => Ok (BGain (GainProcessor_new (gain_db s)))
      | Err e => Err ("Invalid gain settings: " +:+ e)
      end
  | DenoiseProcessorFactory =>
      Ok (BDenoise (Denoise_with_settings (default DenoiseSettings_default (ok (denoise_of_json config)))))
  | NoiseGateProcessorFactory =>
      match gate_of_json config with
      | Ok s => Ok (BGate (NoiseGate_with_settings s))
      | Err e => Err ("Invalid noise gate settings: " +:+ e)
      end
  end.

#[export] Instance builtin_factory : ProcessorFactory BuiltinFactory (Builtin R) V := {|
  type_id f := match f with GainProcessorFactory => GAIN | DenoiseProcessorFactory => DENOISE | NoiseGateProcessorFactory => NOISE_GATE end;
  display_name f := match f with
    | GainProcessorFactory => "Gain" | DenoiseProcessorFactory => "Denoise + Voice Gate (RNNoise)"
    | NoiseGateProcessorFactory => "Noise Gate" end;
  description f := match f with
    | GainProcessorFactory => "Adjusts audio volume by a fixed amount in decibels"
    | DenoiseProcessorFactory => "RNNoise neural-network noise suppression with an integrated voice-activity gate"
    | NoiseGateProcessorFactory => "Simple amplitude-based gate that suppresses transmission while the input level is below a threshold" end;
  create_default := builtin_default;
  create_from_config := builtin_from_config;
  settings_schema f := match f with
    | GainProcessorFactory => gain_schema | DenoiseProcessorFactory => denoise_schema | NoiseGateProcessorFactory => gate_schema end;
  outputs f := match f with
    | GainProcessorFactory => [] | DenoiseProcessorFactory => denoise_outputs | NoiseGateProcessorFactory => gate_outputs end;
  default_settings := default_settings_of builtin_default;
|}.

End factories.

(** ** [mod.rs] *)

Section config.
Context {F P V : Type} `{!JsonValue V} `{!AudioProcessor P V} `{!ProcessorFactory F P V}.

Definition DEFAULT_TX_PIPELINE : list (string * bool) := [(GAIN, true); (DENOISE, true); (NOISE_GATE, false)].

Definition build_default_tx_pipeline (registry : ProcessorRegistry (F:=F)) : PipelineConfig V :=
  mkPipelineConfig (omap (λ d : string * bool, c ← default_config registry d.1; Some (mkConfig (type_id_of c) d.2 (settings c)))
                      DEFAULT_TX_PIPELINE) default_frame_size.

Definition merge_with_default_tx_pipeline (persisted : PipelineConfig V) (registry : ProcessorRegistry (F:=F)) : PipelineConfig V :=
  mkPipelineConfig
    (map (λ c, mkConfig (type_id_of c) (enabled c) (backfill_settings registry (type_id_of c) (settings c)))
       (retain (λ p, has registry (type_id_of p)) (processors persisted)))
    (frame_size persisted).

End config.

Definition register_builtin_processors `{!Libm} {R V} `{!RNNoise R} `{!JsonValue V} `{!SettingsJson V}
    (registry : ProcessorRegistry (F:=BuiltinFactory)) : ProcessorRegistry (F:=BuiltinFactory) :=
  register (P:=Builtin R) (V:=V) NoiseGateProcessorFactory
    (register (P:=Builtin R) (V:=V) DenoiseProcessorFactory (register (P:=Builtin R) (V:=V) GainProcessorFactory registry)).

(** ** The voice gate *)

Section gate.
Context (c : VadShaperSettings) (n rate : N).

(** The thresholds the gate compares with. *)
Definition above_trigger (x : f32) : bool := f32_lt (trigger c) x.
Definition above_release (x : f32) : bool := f32_lt (f32_min (release c) (trigger c)) x.

Definition gate (xs : list f32) (s : VadShaper) : VadShaper := fold_left (λ s x, update x n rate c s) xs s.

Lemma gate_app xs ys s : gate (xs ++ ys) s = gate ys (gate xs s).
Proof. apply fold_left_app. Qed.

Lemma ms_to_samples_u32 ms : (ms_to_samples ms rate ≤ u32_max)%N.
Proof. unfold ms_to_samples, wrap_u32, u32_max. pose proof (N.mod_lt (ms * rate / 1000) (2 ^ 32)). lia. Qed.

(** Closed, the gate adds up loud frames. *)
Lemma opening xs s k :
  voice_active s = false → attack_samples_accumulated s = N.min u32_max (k * n) →
  Forall (λ x, above_trigger x = true ∧ above_release x = true) xs → xs ≠ [] → (k * n < ms_to_samples (attack_ms c) rate ∨ k = 0)%N →
  voice_active (gate xs s) = true ↔ (ms_to_samples (attack_ms c) rate ≤ (k + N.of_nat (List.length xs)) * n)%N.
Proof.
  pose proof (ms_to_samples_u32 (attack_ms c)) as HA. set (A := ms_to_samples (attack_ms c) rate) in *.
  assert (∀ xs s, voice_active s = true → Forall (λ x, above_trigger x = true ∧ above_release x = true) xs → voice_active (gate xs s) = true) as Hstay.
  { clear -c. intros xs. induction xs as [|x xs IH]; intros s Hs Hx; [done|]. apply Forall_cons in Hx as [[_ Hx] Hxs]. cbn.
    apply IH; [|done]. unfold update. rewrite Hs. unfold above_release in Hx. by rewrite Hx. }
  intros Hs Ha Hx Hne Hk. destruct xs as [|x xs]; [done|]. clear Hne.
  revert x s k Hs Ha Hx Hk. induction xs as [|y xs IH]; intros x s k Hs Ha Hx Hk; apply Forall_cons in Hx as [[H1 H2] Hxs].
  - cbn. unfold update. rewrite Hs. unfold above_trigger in H1. rewrite H1, Ha. fold A. unfold saturating_add_u32.
    destruct (N.leb_spec A (N.min u32_max (N.min u32_max (k * n) + n))); cbn; split; try done; lia.
  - change (gate (x :: y :: xs) s) with (gate (y :: xs) (update x n rate c s)).
    assert (update x n rate c s = let acc := saturating_add_u32 (attack_samples_accumulated s) n in
      if (A <=? acc)%N then mkShaper true 0 (ms_to_samples (holdoff_ms c) rate) else mkShaper false acc (holdoff_samples_remaining s)) as ->.
    { unfold update. rewrite Hs. unfold above_trigger in H1. by rewrite H1. }
    cbv zeta. unfold saturating_add_u32. rewrite Ha. destruct (N.leb_spec A (N.min u32_max (N.min u32_max (k * n) + n))) as [Hle|Hgt].
    + rewrite Hstay by done. split; [intros _|done]. cbn [List.length]. nia.
    + rewrite (IH y _ (k + 1)%N); [|done|cbn; lia|done|left; lia]. cbn [List.length]. split; intros; nia.
Qed.

(** A quiet frame never counts as loud, however the thresholds are ordered. *)
Lemma quiet_not_loud x : above_release x = false → above_trigger x = false.
Proof. unfold above_release, above_trigger. intros H. destruct (f32_lt (trigger c) x) eqn:E; [|done]. by rewrite f32_lt_min_l in H. Qed.

Lemma closed_quiet xs s : voice_active s = false → Forall (λ x, above_release x = false) xs → voice_active (gate xs s) = false.
Proof.
  intros Hs Hx. revert s Hs. induction Hx as [|x xs Hx _ IH]; intros s Hs; [done|]. cbn. apply IH.
  unfold update. rewrite Hs. apply quiet_not_loud in Hx. unfold above_trigger in Hx. by rewrite Hx.
Qed.

(** Open, the gate counts quiet frames down. *)
Lemma closing xs s :
  voice_active s = true → Forall (λ x, above_release x = false) xs → (0 < n)%N →
  voice_active (gate xs s) = true ↔ (xs = [] ∨ (N.of_nat (List.length xs) - 1) * n < holdoff_samples_remaining s)%N.
Proof.
  intros Hs Hx Hn. revert s Hs. induction Hx as [|x xs Hx Hxs IH]; intros s Hs; [cbn; rewrite Hs; split; [by left|done]|].
  change (gate (x :: xs) s) with (gate xs (update x n rate c s)).
  assert (update x n rate c s = if (0 <? holdoff_samples_remaining s)%N
    then mkShaper true (attack_samples_accumulated s) (holdoff_samples_remaining s - n) else mkShaper false 0 (holdoff_samples_remaining s)) as ->.
  { unfold update. rewrite Hs. unfold above_release in Hx. by rewrite Hx. }
  destruct (N.ltb_spec 0 (holdoff_samples_remaining s)) as [Hh|Hh].
  - rewrite IH by done. cbn [List.length holdoff_samples_remaining]. destruct xs as [|y xs].
    + split; [intros _; right; cbn; lia|by left].
    + cbn [List.length]. split; (intros [?|?]; [done|right; nia]).
  - rewrite closed_quiet by done. split; [done|]. intros [?|Hlt]; [done|].
    apply N.le_0_r in Hh. rewrite Hh in Hlt. by apply N.nlt_0_r in Hlt.
Qed.

(** A closed gate whose last frame was not loud has nothing accumulated. *)
Lemma closed_accumulated xs :
  voice_active (gate xs VadShaper_new) = false → (∀ x, last xs = Some x → above_trigger x = false) →
  attack_samples_accumulated (gate xs VadShaper_new) = 0%N.
Proof.
  induction xs as [|x xs _] using rev_ind; [done|]. rewrite gate_app, last_snoc. intros Hs Hx. specialize (Hx x eq_refl).
  cbn in Hs |- *. unfold update in *. unfold above_trigger in Hx. rewrite Hx in *.
  destruct (voice_active (gate xs VadShaper_new)); [|done]. by repeat case_match.
Qed.

(** The gate follows its settings.  Whatever came before: while the gate is
    closed and the last frame was not loud, a run of loud frames opens it exactly
    when it lasts as long as the attack time, so shorter transients are rejected
    and do not add up; and from a frame that holds the gate open, quiet frames
    close it exactly when they have lasted longer than the holdoff time. *)
Theorem gate_follows_its_settings before :
  (0 < n)%N →
  (∀ loud, voice_active (gate before VadShaper_new) = false → (∀ x, last before = Some x → above_trigger x = false) →
     Forall (λ x, above_trigger x = true ∧ above_release x = true) loud → loud ≠ [] →
     voice_active (gate (before ++ loud) VadShaper_new) = true
       ↔ (ms_to_samples (attack_ms c) rate ≤ N.of_nat (List.length loud) * n)%N) ∧
  (∀ x quiet, voice_active (gate (before ++ [x]) VadShaper_new) = true → above_release x = true →
     Forall (λ x, above_release x = false) quiet →
     voice_active (gate (before ++ [x] ++ quiet) VadShaper_new) = true
       ↔ quiet = [] ∨ ((N.of_nat (List.length quiet) - 1) * n < ms_to_samples (holdoff_ms c) rate)%N).
Proof.
  intros Hn. split.
  - intros loud Hs Hl Hx Hne. rewrite gate_app.
    rewrite (opening loud _ 0%N); [|done|by rewrite closed_accumulated|done..|by right]. by rewrite N.add_0_l.
  - intros x quiet Hs Hx Hq. rewrite (assoc_L (++)), gate_app, closing by done.
    assert (holdoff_samples_remaining (gate (before ++ [x]) VadShaper_new) = ms_to_samples (holdoff_ms c) rate) as ->; [|done].
    rewrite gate_app in Hs |- *. cbn in Hs |- *. unfold update in *. unfold above_release in Hx.
    destruct (voice_active (gate before VadShaper_new)); [by rewrite Hx|].
    destruct (f32_lt (trigger c) x); [|done]. by case_match.
Qed.

End gate.

(** ** The denoiser as a delay line *)

Section denoise.
Context `{!Libm} {R V : Type} `{!RNNoise R} (rate : N).
Abbreviation D := (DenoiseProcessor R).

Lemma frame_size_pos : (0 < DENOISE_FRAME_SIZE)%nat.
Proof. unfold DENOISE_FRAME_SIZE. lia. Qed.
#[local] Opaque DENOISE_FRAME_SIZE.
#[local] Hint Resolve frame_size_pos : core.
Ltac size_lia := pose proof frame_size_pos; lia.

Definition push_input (x : list f32) (d : D) : D := with_buffers (input_buffer d ++ x) (output_buffer d) d.
Definition drain_input (d : D) : D := denoise_chunks (List.length (input_buffer d)) rate d.

(** The whole input at once: what comes out of the network in the end. *)
Definition bulk (s : DenoiseSettings) (input : list f32) : D := drain_input (push_input input (Denoise_with_settings s)).
Definition stream (s : DenoiseSettings) (input : list f32) : list f32 := output_buffer (bulk s input).

Lemma denoise_chunk_spec (d : D) :
  (DENOISE_FRAME_SIZE ≤ List.length (input_buffer d))%nat →
  input_buffer (denoise_chunk rate d) = drop DENOISE_FRAME_SIZE (input_buffer d) ∧
  denoise_settings (denoise_chunk rate d) = denoise_settings d ∧
  ∃ out, List.length out = DENOISE_FRAME_SIZE ∧ output_buffer (denoise_chunk rate d) = output_buffer d ++ out.
Proof.
  intros Hl. unfold denoise_chunk. pose proof (process_frame_length (map (λ src, f32_mul src i16_scale) (take DENOISE_FRAME_SIZE (input_buffer d))) (denoise_state d)) as Hp.
  destruct (process_frame _ _) as [[prob out] r]. cbn in Hp |- *. split_and!; [done..|]. eexists. split; [|done].
  destruct (first_frame_done d); [by rewrite length_map|by rewrite length_replicate].
Qed.

(** A chunk does not look at the output, nor at what follows it in the input. *)
Lemma denoise_chunk_frame x o (d : D) :
  (DENOISE_FRAME_SIZE ≤ List.length (input_buffer d))%nat →
  denoise_chunk rate (with_buffers (input_buffer d ++ x) (o ++ output_buffer d) d) =
    with_buffers (input_buffer (denoise_chunk rate d) ++ x) (o ++ output_buffer (denoise_chunk rate d)) (denoise_chunk rate d).
Proof.
  intros Hl. unfold denoise_chunk. cbn [input_buffer with_buffers denoise_state denoise_settings denoise_shaper first_frame_done output_buffer is_denoise_enabled].
  rewrite take_app_le, drop_app_le by done. destruct (process_frame _ _) as [[prob out] r]. unfold with_buffers; cbn. by rewrite (assoc_L (++)).
Qed.

Lemma denoise_chunks_fuel fuel fuel' (d : D) :
  (List.length (input_buffer d) ≤ fuel)%nat → (List.length (input_buffer d) ≤ fuel')%nat →
  denoise_chunks fuel rate d = denoise_chunks fuel' rate d.
Proof.
  revert fuel' d. induction fuel as [|fuel IH]; intros fuel' d H1 H2; destruct fuel' as [|fuel']; try done; cbn.
  - destruct (Nat.leb_spec DENOISE_FRAME_SIZE (List.length (input_buffer d))); [size_lia|done].
  - destruct (Nat.leb_spec DENOISE_FRAME_SIZE (List.length (input_buffer d))); [size_lia|done].
  - destruct (Nat.leb_spec DENOISE_FRAME_SIZE (List.length (input_buffer d))) as [Hl|]; [|done].
    destruct (denoise_chunk_spec d Hl) as [E _]. apply IH; rewrite E, length_drop; size_lia.
Qed.

Lemma drain_unfold (d : D) :
  drain_input d = if Nat.leb DENOISE_FRAME_SIZE (List.length (input_buffer d)) then drain_input (denoise_chunk rate d) else d.
Proof.
  unfold drain_input. destruct (List.length (input_buffer d)) as [|k] eqn:E; [done|].
  rewrite <- E. rewrite E at 1. cbn [denoise_chunks]. destruct (Nat.leb_spec DENOISE_FRAME_SIZE (List.length (input_buffer d))) as [Hl|]; [|done].
  destruct (denoise_chunk_spec d Hl) as [Ei _]. apply denoise_chunks_fuel; rewrite Ei, length_drop; size_lia.
Qed.

(** More input later is as good as all of it at once, and the output before
    stays in front. *)
Lemma drain_frame x o (d : D) :
  drain_input (with_buffers (input_buffer d ++ x) (o ++ output_buffer d) d) =
    drain_input (with_buffers (input_buffer (drain_input d) ++ x) (o ++ output_buffer (drain_input d)) (drain_input d)).
Proof.
  remember (List.length (input_buffer d)) as k eqn:Ek. revert d Ek.
  induction k as [k IH] using lt_wf_ind. intros d ->. rewrite (drain_unfold d).
  destruct (Nat.leb_spec DENOISE_FRAME_SIZE (List.length (input_buffer d))) as [Hl|Hl]; [|done].
  rewrite (drain_unfold (with_buffers _ _ _)). cbn [input_buffer with_buffers]. rewrite length_app.
  destruct (Nat.leb_spec DENOISE_FRAME_SIZE (List.length (input_buffer d) + List.length x)); [|lia].
  fold (with_buffers (input_buffer d ++ x) (o ++ output_buffer d) d). rewrite denoise_chunk_frame by done.
  eapply IH; [|done]. destruct (denoise_chunk_spec d Hl) as [-> _]. rewrite length_drop. size_lia.
Qed.

Lemma drain_output (d : D) :
  (List.length (input_buffer (drain_input d)) = List.length (input_buffer d) mod DENOISE_FRAME_SIZE)%nat ∧
  denoise_settings (drain_input d) = denoise_settings d ∧
  ∃ out, output_buffer (drain_input d) = output_buffer d ++ out ∧
    List.length out = (List.length (input_buffer d) / DENOISE_FRAME_SIZE * DENOISE_FRAME_SIZE)%nat.
Proof.
  remember (List.length (input_buffer d)) as k eqn:Ek. revert d Ek.
  induction k as [k IH] using lt_wf_ind. intros d ->. rewrite (drain_unfold d).
  destruct (Nat.leb_spec DENOISE_FRAME_SIZE (List.length (input_buffer d))) as [Hl|Hl].
  - destruct (denoise_chunk_spec d Hl) as (Ei & Es & out & Eo & Eob).
    destruct (IH (List.length (input_buffer (denoise_chunk rate d)))) with (d := denoise_chunk rate d) as (A & B & out' & C1 & C2); [|done|].
    { rewrite Ei, length_drop. size_lia. }
    assert (List.length (input_buffer d) = List.length (input_buffer (denoise_chunk rate d)) + 1 * DENOISE_FRAME_SIZE)%nat as El
      by (rewrite Ei, length_drop; lia).
    split_and!; [by rewrite A, El, Nat.Div0.mod_add|by rewrite B|]. exists (out ++ out').
    split; [by rewrite C1, Eob, (assoc_L (++))|]. rewrite length_app, C2, Eo, El, Nat.div_add by size_lia. lia.
  - rewrite Nat.mod_small, Nat.div_small by done. split_and!; [done..|]. exists []. by rewrite (right_id_L [] (++)).
Qed.

Lemma bulk_settings s x : denoise_settings (bulk s x) = s.
Proof. unfold bulk. by destruct (drain_output (push_input x (Denoise_with_settings s))) as (_ & -> & _). Qed.

Lemma stream_length s x : List.length (stream s x) = (List.length x / DENOISE_FRAME_SIZE * DENOISE_FRAME_SIZE)%nat.
Proof. unfold stream, bulk. destruct (drain_output (push_input x (Denoise_with_settings s))) as (_ & _ & out & E & El). by rewrite E.
Qed.

Lemma bulk_app s x y o :
  drain_input (with_buffers (input_buffer (bulk s x) ++ y) (o ++ output_buffer (bulk s x)) (bulk s x)) =
  with_buffers (input_buffer (bulk s (x ++ y))) (o ++ output_buffer (bulk s (x ++ y))) (bulk s (x ++ y)).
Proof.
  unfold bulk at 1 2 3. rewrite <- drain_frame. unfold push_input at 1 2 3. cbn [input_buffer output_buffer with_buffers Denoise_with_settings app].
  pose proof (drain_frame [] o (push_input (x ++ y) (Denoise_with_settings s))) as Hf. fold (bulk s (x ++ y)) in Hf.
  rewrite !(right_id_L [] (++)) in Hf. unfold push_input in Hf. cbn [input_buffer output_buffer with_buffers Denoise_with_settings app] in Hf.
  unfold with_buffers in *. cbn [denoise_state first_frame_done last_vad_prob denoise_settings denoise_shaper is_denoise_enabled Denoise_with_settings] in *.
  rewrite Hf. rewrite drain_unfold. cbn [input_buffer].
  destruct (drain_output (push_input (x ++ y) (Denoise_with_settings s))) as (Hm & _). fold (bulk s (x ++ y)) in Hm.
  destruct (Nat.leb_spec DENOISE_FRAME_SIZE (List.length (input_buffer (bulk s (x ++ y))))) as [Hl|]; [|done].
  rewrite Hm in Hl. pose proof (Nat.mod_upper_bound (List.length (input_buffer (push_input (x ++ y) (Denoise_with_settings s)))) DENOISE_FRAME_SIZE). size_lia.
Qed.

Lemma stream_app s x y : ∃ more, stream s (x ++ y) = stream s x ++ more.
Proof.
  pose proof (bulk_app s x y []) as Hb. apply (f_equal output_buffer) in Hb. cbn [output_buffer with_buffers app] in Hb. unfold stream. rewrite <- Hb.
  destruct (drain_output (with_buffers (input_buffer (bulk s x) ++ y) (output_buffer (bulk s x)) (bulk s x))) as (_ & _ & out & E & _).
  exists out. exact E.
Qed.

Lemma drain_out ob (d : D) :
  drain_input (with_buffers (input_buffer d) (ob ++ output_buffer d) d) =
    with_buffers (input_buffer (drain_input d)) (ob ++ output_buffer (drain_input d)) (drain_input d).
Proof.
  pose proof (drain_frame [] ob d) as Hf. rewrite !(right_id_L [] (++)) in Hf. rewrite Hf, drain_unfold.
  cbn [input_buffer with_buffers]. destruct (drain_output d) as (Hm & _).
  destruct (Nat.leb_spec DENOISE_FRAME_SIZE (List.length (input_buffer (drain_input d)))) as [Hl|]; [|done].
  rewrite Hm in Hl. pose proof (Nat.mod_upper_bound (List.length (input_buffer d)) DENOISE_FRAME_SIZE). size_lia.
Qed.

(** What a call adds, whatever the output buffer holds. *)
Lemma bulk_step s x y ob : ∃ more, stream s (x ++ y) = stream s x ++ more ∧
  drain_input (with_buffers (input_buffer (bulk s x) ++ y) ob (bulk s x)) =
    with_buffers (input_buffer (bulk s (x ++ y))) (ob ++ more) (bulk s (x ++ y)).
Proof.
  set (d0 := with_buffers (input_buffer (bulk s x) ++ y) [] (bulk s x)).
  pose proof (bulk_app s x y []) as Hb. cbn [app] in Hb. pose proof (drain_out (output_buffer (bulk s x)) d0) as H1.
  pose proof (drain_out ob d0) as H2. subst d0. unfold with_buffers in H1, H2, Hb |- *.
  cbn [input_buffer output_buffer denoise_state first_frame_done last_vad_prob denoise_settings denoise_shaper is_denoise_enabled] in *.
  rewrite (right_id_L [] (++)) in H1, H2. rewrite Hb in H1. set (d' := drain_input _) in H1, H2. exists (output_buffer d').
  rewrite H2. unfold stream. split; [by apply (f_equal output_buffer) in H1|].
  injection H1 as -> -> _ -> -> -> -> ->. done.
Qed.

(** The frames a denoiser is given one after the other. *)
Definition denoised (d : D) (frames : list (list f32)) : list (list f32) * D :=
  fold_left (λ acc x, let '(_, out, d) := denoise_process x rate acc.2 in (acc.1 ++ [out], d)) frames ([], d).

Definition silence : list f32 := replicate DENOISE_FRAME_SIZE f32_zero.

(** The stream with a chunk of silence inserted at [cut]. *)
Definition delayed (cut : nat) (l : list f32) : list f32 := take cut l ++ silence ++ drop cut l.

Definition delay_line (s : DenoiseSettings) (frames : list (list f32)) (all : list f32) : Prop :=
  let S := stream s (concat frames) in
  all = S ∧ (List.length (concat frames) mod DENOISE_FRAME_SIZE = 0)%nat ∨
  ∃ before x after, frames = before ++ x :: after ∧
    (List.length (concat (before ++ [x])) mod DENOISE_FRAME_SIZE ≠ 0)%nat ∧
    (List.length (concat before) ≤ List.length S)%nat ∧ all = delayed (List.length (concat before)) S.

Lemma pad_output_chunk wanted output :
  (wanted - List.length output < DENOISE_FRAME_SIZE)%nat →
  pad_output wanted output = if Nat.ltb (List.length output) wanted then silence ++ output else output.
Proof.
  intros Hl. unfold pad_output. destruct (Nat.ltb_spec 0 (wanted - List.length output)), (Nat.ltb_spec (List.length output) wanted);
    try done; try lia. unfold next_multiple_of, silence.
  replace (wanted - List.length output + DENOISE_FRAME_SIZE - 1)%nat with (wanted - List.length output - 1 + 1 * DENOISE_FRAME_SIZE)%nat by lia.
  rewrite Nat.div_add by size_lia. rewrite Nat.div_small by lia. by rewrite Nat.mul_1_l.
Qed.

Lemma bulk_nil s : bulk s [] = Denoise_with_settings s.
Proof. done. Qed.

Lemma denoise_process_step s T x ob : denoise_enabled s = true →
  ∃ more suppress, stream s (T ++ x) = stream s T ++ more ∧
    let output := pad_output (List.length x) (ob ++ more) in
    denoise_process x rate (with_buffers (input_buffer (bulk s T)) ob (bulk s T)) =
      (suppress, take (List.length x) output,
       with_buffers (input_buffer (bulk s (T ++ x))) (drop (List.length x) output) (bulk s (T ++ x))).
Proof.
  intros Hs. destruct (bulk_step s T x ob) as (more & Hmore & Hdrain). exists more. eexists. split; [done|]. cbv zeta.
  unfold denoise_process. cbn [denoise_settings input_buffer output_buffer with_buffers]. rewrite bulk_settings, Hs. cbn [negb andb].
  unfold drain_input in Hdrain. cbn [input_buffer with_buffers] in Hdrain.
  change (with_buffers (input_buffer (bulk s T) ++ x) ob (with_buffers (input_buffer (bulk s T)) ob (bulk s T)))
    with (with_buffers (input_buffer (bulk s T) ++ x) ob (bulk s T)). rewrite Hdrain. reflexivity.
Qed.

Lemma delay_line_snoc s frames x all more :
  stream s (concat (frames ++ [x])) = stream s (concat frames) ++ more →
  delay_line s frames all →
  List.length (concat frames) + List.length x ≤ List.length (all ++ more) ∧ delay_line s (frames ++ [x]) (all ++ more) ∨
  List.length (concat frames) + List.length x > List.length (all ++ more) ∧
  (List.length (concat frames) + List.length x - List.length (all ++ more) < DENOISE_FRAME_SIZE)%nat ∧
  all = stream s (concat frames) ∧ List.length all = List.length (concat frames) ∧
  delay_line s (frames ++ [x]) (all ++ silence ++ more).
Proof.
  intros Hmore Hdl. assert (concat (frames ++ [x]) = concat frames ++ x) as Ec by (rewrite concat_app; cbn; by rewrite (right_id_L [] (++))).
  pose proof (stream_length s (concat frames)) as HT. pose proof (stream_length s (concat frames ++ x)) as HTx.
  rewrite Ec in Hmore. rewrite Hmore, length_app in HTx. rewrite length_app in HTx.
  set (t := List.length (concat frames)) in *. set (n := List.length x) in *.
  pose proof (Nat.div_mod_eq t DENOISE_FRAME_SIZE) as Dt. pose proof (Nat.div_mod_eq (t + n) DENOISE_FRAME_SIZE) as Dn.
  pose proof (Nat.mod_upper_bound (t + n) DENOISE_FRAME_SIZE) as Mn. pose proof frame_size_pos as Hp.
  rewrite Nat.mul_comm in Dt, Dn. rewrite length_app. destruct Hdl as [[-> Hmod]|(before & y & after & -> & Hne & Hle & ->)].
  - fold t in Hmod. destruct (Nat.eq_dec ((t + n) mod DENOISE_FRAME_SIZE) 0) as [E|E].
    + left. split; [lia|]. left. rewrite Ec, Hmore, length_app. by split.
    + right. split_and!; [lia|lia|done|lia|]. right. exists frames, x, []. rewrite Ec, Hmore.
      split_and!; [done|by rewrite length_app|rewrite length_app; lia|].
      unfold delayed. rewrite take_app_le, drop_app_le by lia. by rewrite take_ge, drop_ge by lia.
  - left. assert (delayed (List.length (concat before)) (stream s (concat (before ++ y :: after))) ++ more =
      delayed (List.length (concat before)) (stream s (concat (before ++ y :: after)) ++ more)) as Ed.
    { unfold delayed. rewrite take_app_le, drop_app_le by done. by rewrite <- !(assoc_L (++)). }
    split.
    + rewrite <- length_app, Ed. unfold delayed, silence. rewrite !length_app, length_replicate, length_take, length_drop, length_app. lia.
    + right. exists before, y, (after ++ [x]). rewrite Ec, Hmore, length_app. split_and!; [by rewrite <- (assoc_L (++))|done|lia|done].
Qed.

Lemma denoised_inv s frames :
  denoise_enabled s = true →
  let '(outs, d) := denoised (Denoise_with_settings s) frames in
  map List.length outs = map List.length frames ∧
  d = with_buffers (input_buffer (bulk s (concat frames))) (output_buffer d) (bulk s (concat frames)) ∧
  delay_line s frames (concat outs ++ output_buffer d).
Proof.
  intros Hs. induction frames as [|x frames IH] using rev_ind.
  - split_and!; [done..|]. left. cbn [concat]. unfold stream. rewrite bulk_nil. split; [done|apply Nat.Div0.mod_0_l].
  - unfold denoised in *. rewrite fold_left_app. cbn [fold_left]. destruct (fold_left _ frames _) as [outs d].
    destruct IH as (Hlen & Hd & Hdl). cbn [fst snd]. rewrite Hd. remember (output_buffer d) as ob eqn:Eob. clear Hd Eob d.
    destruct (denoise_process_step s (concat frames) x ob Hs) as (more & sup & Hmore & ->). cbv beta iota zeta.
    assert (concat (frames ++ [x]) = concat frames ++ x) as Ec by (rewrite concat_app; cbn; by rewrite (right_id_L [] (++))).
    rewrite Ec. cbn [output_buffer with_buffers]. set (output := pad_output (List.length x) (ob ++ more)).
    assert (List.length (concat outs) = List.length (concat frames)) as El.
    { clear -Hlen. revert frames Hlen. induction outs as [|o outs IH]; intros [|f frames] E; try done.
      cbn in *. injection E as E1 E2. rewrite !length_app, E1. f_equal. by apply IH. }
    assert (List.length x ≤ List.length output ∧ delay_line s (frames ++ [x]) (concat outs ++ output)) as [Hl Hdl'].
    { rewrite <- Ec in Hmore. destruct (delay_line_snoc s frames x (concat outs ++ ob) more Hmore Hdl)
        as [[H1 H2]|(H1 & H2 & H3 & H4 & H5)]; unfold output.
      - rewrite pad_output_chunk by (rewrite !length_app in *; size_lia).
        destruct (Nat.ltb_spec (List.length (ob ++ more)) (List.length x)); [rewrite !length_app in *; lia|].
        split; [lia|]. by rewrite (assoc_L (++)).
      - rewrite length_app in H4. assert (ob = []) as -> by (destruct ob; [done|cbn in H4; lia]).
        rewrite (right_id_L [] (++)) in *. cbn [app]. rewrite pad_output_chunk by (rewrite !length_app in *; lia).
        rewrite !length_app in H1. destruct (Nat.ltb_spec (List.length more) (List.length x)); [|lia].
        split; [|done]. unfold silence in *. rewrite !length_app, length_replicate in *. lia. }
    split_and!.
    + rewrite !map_app, Hlen. cbn. by rewrite length_take_le.
    + done.
    + rewrite concat_app. cbn [concat]. rewrite (right_id_L [] (++)), <- (assoc_L (++)), take_drop. done.
Qed.

(** The denoiser is a delay line.  However the input is cut into frames, each
    call returns as many samples as it was given, and what is returned over all
    calls is, in order and without a gap, what the network makes of the whole
    input cut into chunks of 480 samples, the first of them muted; with a single
    exception: the first frame that ends off a chunk boundary is preceded by one
    chunk of silence, once and for all.  Frames that are multiples of a chunk
    are never delayed. *)
Theorem denoise_is_a_delay_line s frames :
  denoise_enabled s = true →
  let outs := (denoised (Denoise_with_settings s) frames).1 in
  let input := concat frames in
  map List.length outs = map List.length frames ∧
  (concat outs = stream s input ∨
   ∃ before x after, frames = before ++ x :: after ∧ (List.length (concat (before ++ [x])) mod DENOISE_FRAME_SIZE ≠ 0)%nat ∧
     concat outs = take (List.length input) (delayed (List.length (concat before)) (stream s input))) ∧
  (Forall (λ x, List.length x mod DENOISE_FRAME_SIZE = 0)%nat frames → concat outs = stream s input).
Proof.
  intros Hs outs input. pose proof (denoised_inv s frames Hs) as Hi. unfold outs. destruct (denoised _ frames) as [os d]. cbn [fst].
  destruct Hi as (Hlen & _ & Hdl). fold input in Hdl. split; [done|].
  assert (List.length (concat os) = List.length input) as El.
  { unfold input. clear -Hlen. revert frames Hlen. induction os as [|o os IH]; intros [|f frames] E; try done.
    cbn in *. injection E as E1 E2. rewrite !length_app, E1. f_equal. by apply IH. }
  pose proof (stream_length s input) as HT. pose proof (Nat.div_mod_eq (List.length input) DENOISE_FRAME_SIZE) as Dt. rewrite Nat.mul_comm in Dt.
  destruct Hdl as [[E Hmod]|(before & x & after & E & Hne & _ & Ed)].
  - fold input in E, Hmod. assert (concat os = stream s input) as Eo; [|by split; [left|]].
    apply (f_equal List.length) in E as El2. rewrite length_app in El2. assert (output_buffer d = []) as Eb by (destruct (output_buffer d); [done|cbn in El2; lia]).
    by rewrite Eb, (right_id_L [] (++)) in E.
  - split.
    + right. exists before, x, after. split_and!; [done..|]. fold input in Ed. by rewrite <- Ed, <- El, take_app_length.
    + intros Hall. exfalso. apply Hne. subst frames. apply Forall_app in Hall as [H1 H2]. apply Forall_cons in H2 as [H2 _].
      assert (Forall (λ x, List.length x mod DENOISE_FRAME_SIZE = 0)%nat (before ++ [x])) as Hb by (apply Forall_app; split; [done|by constructor]).
      clear -Hb. induction Hb as [|y l Hy _ IH]; [apply Nat.Div0.mod_0_l|]. cbn. rewrite length_app, Nat.Div0.add_mod, Hy, IH.
      apply Nat.Div0.mod_0_l.
Qed.

End denoise.

(** ** The stored configuration *)

Section merge.
Context {F P V : Type} `{!JsonValue V} `{!AudioProcessor P V} `{!ProcessorFactory F P V}.

Definition known (r : ProcessorRegistry (F:=F)) (c : ProcessorConfig V) : bool := has r (type_id_of c).

Lemma backfill_idempotent (value schema : V) :
  backfill_settings_from_schema (backfill_settings_from_schema value schema) schema = backfill_settings_from_schema value schema.
Proof.
  rewrite !backfill_union. destruct (json_get "properties" schema ≫= as_object); [|done].
  rewrite as_object_object. cbn [from_option id]. by rewrite <- (assoc_L _), (idemp_L _).
Qed.

(** A stored configuration stays the user's.  Making it executable drops the
    stages whose type is not registered and nothing else: order, duplicates,
    enabled flags and frame size stay; in the settings of a stage every key that
    was there keeps its value and only missing ones are filled from the schema;
    and doing it again changes nothing. *)
Theorem merge_keeps_the_composition (c : PipelineConfig V) (r : ProcessorRegistry (F:=F)) :
  let m := merge_with_default_tx_pipeline c r in
  frame_size m = frame_size c ∧ merge_with_default_tx_pipeline m r = m ∧
  Forall2 (λ stage merged : ProcessorConfig V,
      type_id_of merged = type_id_of stage ∧ enabled merged = enabled stage ∧
      (∀ o key x, as_object (settings stage) = Some o → o !! key = Some x →
         ∃ o', as_object (settings merged) = Some o' ∧ o' !! key = Some x) ∧
      (∀ f key, r !! type_id_of stage = Some f → is_Some (schema_defaults (settings_schema f) !! key) →
         ∃ o', as_object (settings merged) = Some o' ∧ is_Some (o' !! key)))
    (retain (known r) (processors c)) (processors m).
Proof.
  intros m. split_and!; [done| |].
  - unfold m, merge_with_default_tx_pipeline. cbn [processors frame_size]. f_equal.
    set (l := retain _ (processors c)). assert (Forall (λ p, known r p = true) l) as Hl by (apply Forall_forall; intros p Hp%elem_of_retain; by destruct Hp).
    clearbody l. induction Hl as [|p l Hp _ IH]; [done|]. cbn [map retain List.filter type_id_of]. unfold known in Hp. rewrite Hp.
    cbn [map type_id_of enabled settings]. f_equal; [|done]. f_equal. unfold backfill_settings.
    destruct (settings_schema <$> r !! type_id_of p); [apply backfill_idempotent|done].
  - unfold m, merge_with_default_tx_pipeline. cbn [processors]. set (l := retain _ (processors c)).
    change (retain (known r) (processors c)) with l. clearbody l. induction l as [|p l IH]; constructor; [|done].
    cbn [type_id_of enabled settings]. split_and!; [done..| |]; unfold backfill_settings.
    + intros o key x Ho Hk. destruct (settings_schema <$> r !! type_id_of p) as [schema|]; [|by exists o]. rewrite backfill_union, Ho.
      destruct (json_get "properties" schema ≫= as_object); [|by exists o]. eexists. rewrite as_object_object. split; [done|].
      cbn. by apply lookup_union_Some_l.
    + intros f key -> Hk. cbn. rewrite backfill_union. unfold schema_defaults in *.
      destruct (json_get "properties" (settings_schema f) ≫= as_object) eqn:Ep; [|by rewrite lookup_empty in Hk; destruct Hk].
      eexists. rewrite as_object_object. split; [done|]. apply lookup_union_is_Some. by right.
Qed.

End merge.

(** ** Concrete interfaces *)

#[local] Instance sample_libm : Libm := {| powf := λ _ _, f32_of_N 1; log10 := λ _, f32_zero |}.
#[local] Instance sample_settings : SettingsJson json := {|
  gain_of_json _ := Ok GainSettings_default; gain_to_json _ := JObject ∅;
  gate_of_json _ := Ok NoiseGateSettings_default; gate_to_json _ := JObject ∅;
  denoise_of_json _ := Ok DenoiseSettings_default; denoise_to_json _ := JObject ∅ |}.
#[local] Program Instance sample_network : RNNoise unit := {|
  DenoiseState_new := tt; process_frame x r := (f32_const 3 (-2), take DENOISE_FRAME_SIZE (x ++ replicate DENOISE_FRAME_SIZE f32_zero), r) |}.
Next Obligation. intros x r. cbn [fst snd]. rewrite length_take, length_app, length_replicate. lia. Qed.

Definition sample_registry : ProcessorRegistry (F:=BuiltinFactory) := register_builtin_processors (R:=unit) (V:=json) ∅.
Definition sample_config : PipelineConfig json :=
  mkPipelineConfig [mkConfig NOISE_GATE true (JObject ∅); mkConfig GAIN true (JObject ∅); mkConfig DENOISE true (JObject ∅)] 960.
Definition sample_pipeline : AudioPipeline (Builtin unit) :=
  match from_config sample_config sample_registry with Ok pl => pl | Err _ => AudioPipeline_new 960 end.

Lemma live_outputs_addressed_witness :
  let now := after_frames [replicate 960 f32_zero] sample_pipeline in
  ∃ e p, entries (derive sample_config sample_registry) !! 1%nat = Some e ∧ slot e = 1%nat ∧ stages now !! proc_index e = Some p ∧
    OutputFrame_get 1 (pipeline_write_outputs now OutputFrame_default) = Some (shown p (os_key (spec e))).
Proof.
  intros now. assert (from_config sample_config sample_registry = Ok sample_pipeline) as E by reflexivity.
  destruct (live_outputs_addressed sample_config sample_registry sample_pipeline [replicate 960 f32_zero] OutputFrame_default E)
    as (_ & _ & H); [reflexivity| |].
  2:{ destruct (entries (derive sample_config sample_registry) !! 1%nat) as [e|] eqn:Ee; [|vm_compute in Ee; discriminate Ee].
      destruct (H _ _ Ee) as (Hs & p & Hp & Hg). exists e, p. rewrite Hs in Hg. by split_and!. }
  intros pc Hpc. repeat (apply elem_of_cons in Hpc as [->|Hpc]); [..|by apply elem_of_nil in Hpc];
    apply (bool_decide_unpack _); vm_compute; exact I.
Defined.

Definition sample_gate : VadShaperSettings := mkShaperSettings (f32_const 1 (-1)) (f32_const 1 (-2)) 20 40.

Lemma gate_follows_its_settings_witness :
  voice_active (gate sample_gate 480 48000 ([] ++ [f32_of_N 1; f32_of_N 1]) VadShaper_new) = true ∧
  voice_active (gate sample_gate 480 48000 ([f32_of_N 1] ++ [f32_of_N 1] ++ replicate 6 f32_zero) VadShaper_new) = false.
Proof.
  split.
  - destruct (gate_follows_its_settings sample_gate 480 48000 [] ltac:(lia)) as [H _].
    apply (H [f32_of_N 1; f32_of_N 1]); [reflexivity|done|repeat constructor|done|vm_compute; discriminate].
  - destruct (gate_follows_its_settings sample_gate 480 48000 [f32_of_N 1] ltac:(lia)) as [_ H].
    destruct (H (f32_of_N 1) (replicate 6 f32_zero)) as [Hc _]; [reflexivity|reflexivity|repeat constructor|].
    destruct (voice_active _); [|done]. destruct (Hc eq_refl) as [Hq|Hq]; [discriminate|vm_compute in Hq; discriminate].
Defined.

Lemma denoise_is_a_delay_line_witness :
  let d := Denoise_with_settings (R:=unit) DenoiseSettings_default in
  map List.length (denoised 48000 d [replicate 500 f32_zero; replicate 460 f32_zero]).1 = [500; 460]%nat.
Proof.
  intros d. destruct (denoise_is_a_delay_line (R:=unit) 48000 DenoiseSettings_default [replicate 500 f32_zero; replicate 460 f32_zero] eq_refl)
    as [H _]. exact H.
Defined.

(** ** Examples *)

(** The limiter reaches full scale, and turns an infinite sample into NaN. *)
Example soft_clip_reaches_one :
  soft_clip (f32_of_N (2 ^ 40)) = f32_of_N 1 ∧ soft_clip (S754_infinity false) = S754_nan.
Proof. by vm_compute. Qed.

(** A transient shorter than the attack time does not open the gate, and
    transients do not add up. *)
Example transients_rejected :
  voice_active (gate sample_gate 480 48000 [f32_of_N 1; f32_zero; f32_of_N 1; f32_zero] VadShaper_new) = false.
Proof. reflexivity. Qed.

End Processors.
