(* ===== verification/Playback.v ===== *)
(** Playback in the client: the half of
    [crates/rumble-client/src/audio_task.rs] between the jitter buffers
    (Jitter.v) and the sound card.

    The mixer takes a frame from every peer that is ready, runs it through the
    peer's receive pipeline (Pipeline.v) and sums; the producer keeps a ring of
    samples at a fixed depth; the callback of the output device empties it.

    The ring ([rtrb]) is the parameter [RingBuffer], with the laws of a bounded
    queue; producer and consumer work on it from two threads, and what each does
    between two accesses is the other's step.  Hash maps are finite maps, and the
    order in which one is iterated is an argument.  The clock is read once per
    call. *)
From Stdlib Require Import NArith ZArith Lia Floats.SpecFloat.
From stdpp Require Import base gmap list strings.
From S2P Require Import Prelude Pipeline Jitter.

Module Playback.
Import Pipeline Jitter.

Definition OPUS_FRAME_SIZE : nat := 960.
Definition MAX_PLAYBACK_BUFFER_SAMPLES : nat := 9600.
Definition PLAYBACK_PRIME_SAMPLES : nat := 2 * OPUS_FRAME_SIZE.
Definition PLAYBACK_TARGET_SAMPLES : nat := PLAYBACK_PRIME_SAMPLES.
Definition ORPHAN_DECODER_TTL : N := 300 * 1000000000.
(** [stale_threshold]. *)
Definition TALKING_STALE : N := 300 * 1000000.

Definition zeroed (n : nat) : list f32 := replicate n f32_zero.

(** ** Events of [domain_events.rs] *)

Inductive DeviceKind := Input | Output.
Inductive VoiceMode := PushToTalk | Continuous.

Record AudioSettings := mkSettings {
  bitrate : Z; encoder_complexity : Z; jitter_buffer_delay_packets : N; fec_enabled : bool; packet_loss_percent : Z }.

#[export] Instance settings_eq_dec : EqDecision AudioSettings.
Proof. solve_decision. Defined.

Inductive VoiceEvent (V : Type) :=
  | UserStartedTalking (user_id : N)
  | UserStoppedTalking (user_id : N)
  | SelfMutedChanged (muted : bool)
  | SelfDeafenedChanged (deafened : bool)
  | LocalMuteToggled (user_id : N) (muted : bool)
  | ServerMutedChanged (muted : bool)
  | TransmittingChanged (active : bool)
  | DevicesEnumerated (input output : list string)
  | SelectedDeviceChanged (kind : DeviceKind) (id : option string)
  | DeviceUnavailable (kind : DeviceKind)
  | DeviceError (kind : DeviceKind) (recovering : bool)
  | VoiceModeChanged (mode : VoiceMode)
  | AudioSettingsChanged (settings : AudioSettings)
  | TxPipelineChanged (config : PipelineConfig V)
  | RxPipelineDefaultsChanged (config : PipelineConfig V)
  | UserRxConfigChanged (user_id : N) (config : UserRxConfig V)
  | UserRxOverrideCleared (user_id : N).
Arguments UserStartedTalking {V}. Arguments UserStoppedTalking {V}. Arguments SelfMutedChanged {V}.
Arguments SelfDeafenedChanged {V}. Arguments LocalMuteToggled {V}. Arguments ServerMutedChanged {V}.
Arguments TransmittingChanged {V}. Arguments DevicesEnumerated {V}. Arguments SelectedDeviceChanged {V}.
Arguments DeviceUnavailable {V}. Arguments DeviceError {V}. Arguments VoiceModeChanged {V}.
Arguments AudioSettingsChanged {V}. Arguments TxPipelineChanged {V}. Arguments RxPipelineDefaultsChanged {V}.
Arguments UserRxConfigChanged {V}. Arguments UserRxOverrideCleared {V}.

(** ** The ring *)

(** [write_chunk n] followed by copying [n] samples and [commit_all] is one
    operation, as is [read_chunk]. *)
Class RingBuffer (R : Type) := mkRingBuffer {
  ring_new : nat → R;
  producer_slots : R → nat;
  write_chunk : list f32 → R → option R;
  consumer_slots : R → nat;
  read_chunk : nat → R → option (list f32 * R);
  queued : R → list f32;
  capacity : R → nat;
  queued_new : ∀ n, queued (ring_new n) = [];
  capacity_new : ∀ n, capacity (ring_new n) = n;
  producer_slots_free : ∀ r, producer_slots r = (capacity r - List.length (queued r))%nat;
  consumer_slots_queued : ∀ r, consumer_slots r = List.length (queued r);
  write_chunk_appends : ∀ l r, (List.length l ≤ producer_slots r)%nat →
    ∃ r', write_chunk l r = Some r' ∧ queued r' = queued r ++ l ∧ capacity r' = capacity r;
  read_chunk_pops : ∀ n r, (n ≤ consumer_slots r)%nat →
    ∃ r', read_chunk n r = Some (take n (queued r), r') ∧ queued r' = drop n (queued r) ∧ capacity r' = capacity r;
}.

(** ** Peers *)

Record Peer (D P : Type) := mkPeer { audio : UserAudioState D; rx_pipeline : option (AudioPipeline P); volume_db : f32 }.
Arguments mkPeer {D P}. Arguments audio {D P}. Arguments rx_pipeline {D P}. Arguments volume_db {D P}.

Section playback.
Context {D F P V R : Type} `{!VoiceDecoder D f32} `{!Libm} `{!JsonValue V} `{!AudioProcessor P V}
  `{!ProcessorFactory F P V} `{!RingBuffer R}.

Abbreviation Users := (gmap N (Peer D P)).

Definition apply_volume (volume_db : f32) (samples : list f32) : list f32 :=
  if negb (f32_eq volume_db f32_zero) then
    let gain := powf (f32_of_N 10) (f32_div volume_db (f32_of_N 20)) in
    map (λ sample, f32_clamp (f32_mul sample gain) (f32_const (-1) 0) (f32_of_N 1)) samples
  else samples.

(** [AudioPipeline::from_config(..)], an error being logged. *)
Definition build_rx (registry : ProcessorRegistry (F:=F)) (config : PipelineConfig V) : option (AudioPipeline P) :=
  ok (from_config config registry).

(** The pipeline configuration and the volume that a user's settings ask for. *)
Definition rx_choice (per_user_rx : gmap N (UserRxConfig V)) (rx_pipeline_defaults : PipelineConfig V) (user_id : N) : PipelineConfig V * f32 :=
  match per_user_rx !! user_id with
  | Some user_rx => (default rx_pipeline_defaults (pipeline_override user_rx), rx_volume_db user_rx)
  | None => (rx_pipeline_defaults, f32_zero)
  end.

(** The state for a new peer. *)
Definition new_peer (registry : ProcessorRegistry (F:=F)) (per_user_rx : gmap N (UserRxConfig V))
    (rx_pipeline_defaults : PipelineConfig V) (settings : AudioSettings) (now user_id : N) (decoder : D) : Peer D P :=
  let '(pipeline_config, volume_db) := rx_choice per_user_rx rx_pipeline_defaults user_id in
  mkPeer (UserAudioState_new decoder (jitter_buffer_delay_packets settings) now) (build_rx registry pipeline_config) volume_db.

(** [create_decoder] is the answer of the codec. *)
Definition handle_voice_datagram (registry : ProcessorRegistry (F:=F)) (per_user_rx : gmap N (UserRxConfig V))
    (rx_pipeline_defaults : PipelineConfig V) (settings : AudioSettings) (talking_users : gset N) (create_decoder : option D) (now : N)
    (sender_id sequence timestamp_us : N) (opus_data : bytes) (end_of_stream : bool) (users : Users) : Users * list (VoiceEvent V) :=
  if end_of_stream then
    (match users !! sender_id with
     | Some p => <[sender_id := mkPeer (mark_end_of_stream sequence (audio p)) (rx_pipeline p) (volume_db p)]> users
     | None => users
     end, [])
  else
    match (match users !! sender_id with
           | Some p => Some p
           | None => new_peer registry per_user_rx rx_pipeline_defaults settings now sender_id <$> create_decoder
           end) with
    | None => (users, [])
    | Some p =>
        (<[sender_id := mkPeer (insert_packet_at sequence timestamp_us opus_data now (audio p)) (rx_pipeline p) (volume_db p)]> users,
         if bool_decide (sender_id ∈ talking_users) then [] else [UserStartedTalking sender_id])
    end.

(** ** Mixing *)

(** [mixed_buffer[i] += sample], for the samples there are and the slots there
    are. *)
Fixpoint add_into (pcm mixed : list f32) : list f32 :=
  match pcm, mixed with
  | x :: pcm, y :: mixed => f32_add y x :: add_into pcm mixed
  | _, _ => mixed
  end.

Record Mix := mkMix { mx_users : Users; mx_frame : list f32; mx_mixed : list f32; mx_has_audio : bool }.

(** The body of the loop over the peers; [frame] is the scratch frame they
    share. *)
Definition mix_peer (now : N) (m : Mix) (user_id : N) : Mix :=
  match mx_users m !! user_id with
  | None => m
  | Some p =>
      if negb (ready_to_play (audio p)) then m
      else
        let '(r, frame, s) := decode_next_into (zeroed OPUS_FRAME_SIZE) now (mx_frame m) (audio p) in
        let put p := <[user_id := p]> (mx_users m) in
        match r with
        | None => mkMix (put (mkPeer s (rx_pipeline p) (volume_db p))) frame (mx_mixed m) (mx_has_audio m)
        | Some len =>
            let '(suppress, pcm, pipeline) :=
              match rx_pipeline p with
              | Some pl => let '(suppress, pcm, pl) := pipeline_process (take len frame) 48000 pl in (suppress, pcm, Some pl)
              | None => (false, take len frame, None)
              end in
            if suppress then mkMix (put (mkPeer s pipeline (volume_db p))) (pcm ++ drop len frame) (mx_mixed m) (mx_has_audio m)
            else
              let pcm := apply_volume (volume_db p) pcm in
              mkMix (put (mkPeer s pipeline (volume_db p))) (pcm ++ drop len frame) (add_into pcm (mx_mixed m)) true
        end
  end.

Definition mix_peer_frames (order : list N) (now : N) (users : Users) : option (list f32) * Users :=
  let m := fold_left (mix_peer now) order (mkMix users (zeroed OPUS_FRAME_SIZE) (zeroed OPUS_FRAME_SIZE) false) in
  (if mx_has_audio m then Some (map soft_clip (mx_mixed m)) else None, mx_users m).

(** The samples of [sfx] on top of the frame, as far as both go. *)
Fixpoint mix_sfx (sfx mixed : list f32) : list f32 :=
  match sfx, mixed with
  | x :: sfx, y :: mixed => soft_clip (f32_add y x) :: mix_sfx sfx mixed
  | _, _ => mixed
  end.

Definition mix_one_frame (order : list N) (now : N) (users : Users) (sfx_queue : list f32) : option (list f32) * Users * list f32 :=
  let '(peer_mix, users) := mix_peer_frames order now users in
  let mixed_buffer := default (zeroed OPUS_FRAME_SIZE) peer_mix in
  match sfx_queue with
  | [] => (peer_mix, users, [])
  | _ => (Some (mix_sfx sfx_queue mixed_buffer), users, drop OPUS_FRAME_SIZE sfx_queue)
  end.

(** ** The producer *)

Definition push_frame (frame : list f32) (ring : R) (overflows : N) : R * N :=
  let n := Nat.min (List.length frame) (producer_slots ring) in
  let ring := if Nat.ltb 0 n then default ring (write_chunk (take n frame) ring) else ring in
  (ring, if Nat.ltb n (List.length frame) then (overflows + 1)%N else overflows).

(** The condition of the refill loop. *)
Definition below_target (ring : R) : bool :=
  Nat.ltb (MAX_PLAYBACK_BUFFER_SAMPLES - producer_slots ring) PLAYBACK_TARGET_SAMPLES.

Fixpoint refill (fuel : nat) (order : list N) (now : N) (users : Users) (sfx_queue : list f32) (ring : R) (overflows : N)
    : Users * list f32 * R * N :=
  match fuel with
  | O => (users, sfx_queue, ring, overflows)
  | S fuel =>
      if below_target ring then
        let '(mixed, users, sfx_queue) := mix_one_frame order now users sfx_queue in
        match mixed with
        | None => (users, sfx_queue, ring, overflows)
        | Some frame => let '(ring, overflows) := push_frame frame ring overflows in refill fuel order now users sfx_queue ring overflows
        end
      else (users, sfx_queue, ring, overflows)
  end.

(** A round adds a frame, so the frames of the target bound the rounds. *)
Definition refill_rounds : nat := (PLAYBACK_TARGET_SAMPLES / OPUS_FRAME_SIZE)%nat.

Definition stream_active (now : N) (users : Users) (sfx_queue : list f32) : bool :=
  negb (bool_decide (sfx_queue = [])) || existsb (λ e : N * Peer D P, is_stream_live now (audio e.2)) (map_to_list users).

(** The result: what is published, the peers, the queue, the ring and the
    overflows. *)
Definition fill_playback_ring (order : list N) (now : N) (users : Users) (sfx_queue : list f32) (producer : option R) (overflows : N)
    : bool * Users * list f32 * option R * N :=
  let active := stream_active now users sfx_queue in
  match producer with
  | None => (active, users, sfx_queue, None, overflows)
  | Some ring =>
      let '(users, sfx_queue, ring, overflows) := refill refill_rounds order now users sfx_queue ring overflows in
      (active, users, sfx_queue, Some ring, overflows)
  end.

(** ** The device *)

Record PlaybackFiller := mkFiller { consumer : R; priming : bool }.

Definition PlaybackFiller_new (ring : R) : PlaybackFiller := mkFiller ring true.

(** [output] has [len] samples. *)
Definition fill (len : nat) (producer_active : bool) (underruns : N) (f : PlaybackFiller) : list f32 * N * PlaybackFiller :=
  if priming f && Nat.ltb (consumer_slots (consumer f)) PLAYBACK_PRIME_SAMPLES && producer_active then (zeroed len, underruns, f)
  else
    let n := Nat.min (consumer_slots (consumer f)) len in
    let '(popped, ring) :=
      if Nat.ltb 0 n then match read_chunk n (consumer f) with Some x => x | None => ([], consumer f) end else ([], consumer f) in
    let output := popped ++ zeroed (len - n) in
    if Nat.ltb n len then (output, if producer_active then (underruns + 1)%N else underruns, mkFiller ring true)
    else (output, underruns, mkFiller ring false).

(** ** House-keeping *)

Definition cleanup_stale_users (users : Users) (talking_users : gset N) (now : N) : list (VoiceEvent V) :=
  let stale := filter (λ e : N * Peer D P, (TALKING_STALE < now - last_arrival (estimate (audio e.2)))%N) (map_to_list users) in
  omap (λ e : N * Peer D P, if bool_decide (e.1 ∈ talking_users) then Some (UserStoppedTalking e.1) else None) stale.

Definition gc_orphaned_users (users : Users) (room_members : gset N) (now : N) : Users :=
  filter (λ e : N * Peer D P, e.1 ∈ room_members ∨ (now - last_arrival (estimate (audio e.2)) ≤ ORPHAN_DECODER_TTL)%N) users.

Record AudioStats := mkStatsRollup {
  st_packets_sent : N; st_packets_received : N; st_packets_lost : N; st_packets_recovered_fec : N; st_frames_concealed : N;
  st_bytes_sent : N; st_bytes_received : N; avg_frame_size_bytes : f32; actual_bitrate_bps : f32;
  playback_buffer_packets : N; playback_buffer_samples : N; buffer_underruns : N; buffer_overflows : N }.

Definition AudioStats_default : AudioStats := mkStatsRollup 0 0 0 0 0 0 0 f32_zero f32_zero 0 0 0 0.

Definition update_stats (users : Users) (packets_sent bytes_sent : N) (playback_producer : option R) (underruns overflows : N) : AudioStats :=
  let total f := map_sum (λ p : Peer D P, f (stats (audio p))) users in
  let avg_frame_size := if (0 <? packets_sent)%N then f32_div (f32_of_N bytes_sent) (f32_of_N packets_sent) else f32_zero in
  mkStatsRollup packets_sent (total packets_received) (total packets_lost) (total packets_recovered_fec) (total frames_concealed)
    bytes_sent (total bytes_received) avg_frame_size (f32_mul (f32_mul avg_frame_size (f32_of_N 50)) (f32_of_N 8))
    (map_sum (λ p : Peer D P, N.of_nat (size (jitter_buffer (audio p)))) users)
    (match playback_producer with Some r => N.of_nat (MAX_PLAYBACK_BUFFER_SAMPLES - producer_slots r) | None => 0 end)
    underruns overflows.

End playback.

End Playback.
