(* ===== verification/PlaybackFacts.v ===== *)
(** What holds of playback (Playback.v): that between the mixer and the sound
    card no sample is lost, repeated or reordered ([playback_lossless]), how
    often it can click ([clicks_are_bounded]), that the refill loop ends with the
    ring at its target ([refill_tops_up]), and that mixing treats every peer as
    if it were alone ([mix_treats_peers_apart]). *)
From Stdlib Require Import NArith ZArith Lia Floats.SpecFloat.
From stdpp Require Import base gmap list strings.
From S2P Require Import Prelude Pipeline Jitter Playback.

Module PlaybackFacts.
Import Pipeline Jitter Playback.

Lemma ring_holds_ten_frames : MAX_PLAYBACK_BUFFER_SAMPLES = (10 * OPUS_FRAME_SIZE)%nat.
Proof. done. Qed.
Lemma frame_pos : (0 < OPUS_FRAME_SIZE)%nat.
Proof. apply Nat.ltb_lt. done. Qed.
Ltac size_lia :=
  pose proof ring_holds_ten_frames; pose proof frame_pos; unfold PLAYBACK_TARGET_SAMPLES, PLAYBACK_PRIME_SAMPLES in *;
  generalize dependent MAX_PLAYBACK_BUFFER_SAMPLES; generalize dependent OPUS_FRAME_SIZE; intros; lia.
#[local] Opaque MAX_PLAYBACK_BUFFER_SAMPLES OPUS_FRAME_SIZE.

(** ** The ring *)

Section ring.
Context {R : Type} `{!RingBuffer R}.

Lemma push_frame_spec frame ring overflows :
  (List.length frame ≤ capacity ring - List.length (queued ring))%nat →
  let '(ring', overflows') := push_frame frame ring overflows in
  queued ring' = queued ring ++ frame ∧ capacity ring' = capacity ring ∧ overflows' = overflows.
Proof.
  intros Hl. unfold push_frame. rewrite producer_slots_free, Nat.min_l by done. rewrite Nat.ltb_irrefl.
  destruct (Nat.ltb_spec 0 (List.length frame)) as [H0|H0].
  - rewrite firstn_all. destruct (write_chunk_appends frame ring) as (r' & -> & H); [by rewrite producer_slots_free|]. cbn. split_and!; [apply H..|done].
  - destruct frame; [|cbn in H0; lia]. by rewrite (right_id_L [] (++)).
Qed.

(** What the device gets: silence while the cushion builds, else what there is
    and silence behind it. *)
Lemma fill_spec len active underruns (f : PlaybackFiller (R:=R)) :
  let q := queued (consumer f) in
  let '(output, underruns', f') := fill len active underruns f in
  capacity (consumer f') = capacity (consumer f) ∧ List.length output = len ∧
  (priming f = true ∧ (List.length q < PLAYBACK_PRIME_SAMPLES)%nat ∧ active = true ∧
     output = zeroed len ∧ underruns' = underruns ∧ f' = f ∨
   (priming f = true → (PLAYBACK_PRIME_SAMPLES ≤ List.length q)%nat ∨ active = false) ∧
   let n := Nat.min (List.length q) len in
   output = take n q ++ zeroed (len - n) ∧ queued (consumer f') = drop n q ∧
   (n = len ∧ priming f' = false ∧ underruns' = underruns ∨
    (n < len)%nat ∧ priming f' = true ∧ underruns' = if active then (underruns + 1)%N else underruns)).
Proof.
  intros q. unfold fill. rewrite consumer_slots_queued. fold q.
  destruct (priming f && Nat.ltb (List.length q) PLAYBACK_PRIME_SAMPLES && active) eqn:Ep.
  - apply andb_true_iff in Ep as [[Ep El]%andb_true_iff ->]. apply Nat.ltb_lt in El. split_and!; [done|apply length_replicate|]. left. done.
  - set (n := Nat.min (List.length q) len).
    assert (∃ ring, (if Nat.ltb 0 n then match read_chunk n (consumer f) with Some x => x | None => ([], consumer f) end else ([], consumer f)) = (take n q, ring)
      ∧ queued ring = drop n q ∧ capacity ring = capacity (consumer f)) as (ring & -> & Eq & Ec).
    { destruct (Nat.ltb_spec 0 n) as [H0|H0].
      - destruct (read_chunk_pops n (consumer f)) as (r' & -> & H); [rewrite consumer_slots_queued; fold q; lia|]. by exists r'.
      - replace n with 0%nat by lia. by exists (consumer f). }
    assert (priming f = true → (PLAYBACK_PRIME_SAMPLES ≤ List.length q)%nat ∨ active = false) as Hp.
    { intros E. rewrite E in Ep. destruct active; [left|by right]. destruct (Nat.ltb_spec (List.length q) PLAYBACK_PRIME_SAMPLES); [done|lia]. }
    assert (List.length (take n q ++ zeroed (len - n)) = len) as Hlen
      by (unfold zeroed; rewrite length_app, length_take, length_replicate; lia).
    destruct (Nat.ltb_spec n len) as [Hn|Hn]; cbn; (split_and!; [done..|right; split_and!; [done..|]]); [right; by split_and!|left].
    split_and!; [lia|done..].
Qed.

End ring.

(** ** Producer and device, interleaved *)

Section system.
Context {R : Type} `{!RingBuffer R}.

(** The producer reads the depth and mixes a frame; it is pushed later, and the
    device may have run in between. *)
Inductive Event := Publish (active : bool) | Produce (frame : list f32) | Push | Device (len : nat).

Record System := mkSystem {
  filler : PlaybackFiller (R:=R); active : bool; underruns : N; overflows : N;
  pending : option (list f32); produced : list (list f32); blocks : list (list f32) }.

Definition initial : System :=
  mkSystem (PlaybackFiller_new (ring_new MAX_PLAYBACK_BUFFER_SAMPLES)) false 0 0 None [] [].

Definition step (s : System) (e : Event) : System :=
  match e with
  | Publish a => mkSystem (filler s) a (underruns s) (overflows s) (pending s) (produced s) (blocks s)
  | Produce frame =>
      match pending s with
      | None => if below_target (consumer (filler s))
                then mkSystem (filler s) (active s) (underruns s) (overflows s) (Some frame) (produced s) (blocks s) else s
      | Some _ => s
      end
  | Push =>
      match pending s with
      | None => s
      | Some frame =>
          let '(ring, overflows) := push_frame frame (consumer (filler s)) (overflows s) in
          mkSystem (mkFiller ring (priming (filler s))) (active s) (underruns s) overflows None (produced s ++ [frame]) (blocks s)
      end
  | Device len =>
      let '(output, underruns, f) := fill len (active s) (underruns s) (filler s) in
      mkSystem f (active s) underruns (overflows s) (pending s) (produced s) (blocks s ++ [output])
  end.

Definition run (events : list Event) (s : System) : System := fold_left step events s.

Definition mixed_frames (events : list Event) : Prop :=
  Forall (λ e, match e with Produce frame => List.length frame = OPUS_FRAME_SIZE | _ => True end) events.

(** A block is the sound it begins with, and silence. *)
Definition sounds_as (sound block : list f32) : Prop := block = sound ++ zeroed (List.length block - List.length sound).

Record lossless (s : System) : Prop := {
  ls_capacity : capacity (consumer (filler s)) = MAX_PLAYBACK_BUFFER_SAMPLES;
  ls_depth : (List.length (queued (consumer (filler s))) < PLAYBACK_TARGET_SAMPLES + OPUS_FRAME_SIZE)%nat;
  ls_pending : ∀ f, pending s = Some f → List.length f = OPUS_FRAME_SIZE ∧
    (List.length (queued (consumer (filler s))) < PLAYBACK_TARGET_SAMPLES)%nat;
  ls_overflows : overflows s = 0%N;
  ls_sound : ∃ sounds, Forall2 sounds_as sounds (blocks s) ∧ concat sounds ++ queued (consumer (filler s)) = concat (produced s) }.

Lemma below_target_spec (ring : R) : capacity ring = MAX_PLAYBACK_BUFFER_SAMPLES → (List.length (queued ring) ≤ MAX_PLAYBACK_BUFFER_SAMPLES)%nat →
  below_target ring = Nat.ltb (List.length (queued ring)) PLAYBACK_TARGET_SAMPLES.
Proof.
  intros Ec Hl. unfold below_target. rewrite producer_slots_free, Ec.
  assert (∀ m n, n ≤ m → m - (m - n) = n)%nat as E by lia. by rewrite E.
Qed.

Lemma step_lossless s e : lossless s → mixed_frames [e] → lossless (step s e).
Proof.
  intros [Hc Hd Hp Ho Hs] He. apply Forall_cons in He as [He _]. destruct e as [a|frame| |len]; cbn [step].
  - by split.
  - destruct (pending s) as [f|] eqn:Epd; [by split; rewrite ?Epd|].
    rewrite below_target_spec by size_lia. destruct (Nat.ltb_spec (List.length (queued (consumer (filler s)))) PLAYBACK_TARGET_SAMPLES); [|by split; rewrite ?Epd].
    split; cbn; [done..| |done|done]. intros f [= <-]. done.
  - destruct (pending s) as [f|] eqn:Epd; [|by split; rewrite ?Epd]. destruct (Hp f eq_refl) as [Hf Hlt].
    pose proof (push_frame_spec f (consumer (filler s)) (overflows s)) as Hpush. destruct (push_frame _ _ _) as [ring ov].
    destruct Hpush as (Eq & Ec & ->); [size_lia|]. split; cbn; [congruence|rewrite Eq, length_app; size_lia|done|done|].
    destruct Hs as (sounds & H1 & H2). exists sounds. split; [done|]. by rewrite Eq, (assoc_L (++)), H2, concat_app, concat_cons, concat_nil, (right_id_L [] (++)).
  - pose proof (fill_spec len (active s) (underruns s) (filler s)) as Hf. cbv zeta in Hf.
    destruct (fill _ _ _ _) as [[output u] f]. destruct Hf as (Ec & El & Hf). destruct Hs as (sounds & H1 & H2).
    destruct Hf as [(_ & _ & _ & -> & -> & ->)|(_ & -> & Eq & _)].
    + split; cbn; try done. exists (sounds ++ [[]]). split.
      * apply Forall2_app; [done|]. constructor; [|done]. unfold sounds_as, zeroed. cbn. by rewrite length_replicate, Nat.sub_0_r.
      * rewrite concat_app. cbn. by rewrite (right_id_L [] (++)).
    + set (n := Nat.min _ len) in *. split; cbn; [congruence|rewrite Eq, length_drop; size_lia| |done|].
      * intros g Hg. destruct (Hp g Hg). rewrite Eq, length_drop. split; [done|size_lia].
      * exists (sounds ++ [take n (queued (consumer (filler s)))]). split.
        -- apply Forall2_app; [done|]. constructor; [|done]. unfold sounds_as. rewrite El. f_equal. f_equal. rewrite length_take. lia.
        -- rewrite Eq, concat_app, concat_cons, concat_nil, (right_id_L [] (++)), <- (assoc_L (++)), take_drop. done.
Qed.

Lemma run_lossless events s : lossless s → mixed_frames events → lossless (run events s).
Proof.
  revert s. induction events as [|e events IH]; intros s Hs He; [done|]. apply Forall_cons in He as [He Hes].
  apply IH; [|done]. apply step_lossless; [done|by constructor].
Qed.

Lemma initial_lossless : lossless initial.
Proof.
  split; cbn; [by rewrite capacity_new|rewrite queued_new; cbn; size_lia|done|done|]. exists []. by rewrite queued_new.
Qed.

(** C35: Nothing is lost between the mixer and the sound card.  However producer and
    device are interleaved and whatever block sizes the device asks for, each
    block is a stretch of sound followed by silence; the stretches and what is
    still in the ring are, joined, exactly the frames produced, in order; the
    ring never overflows, and holds less than the target and a frame. *)
Theorem playback_lossless events :
  mixed_frames events →
  let s := run events initial in
  (∃ sounds, Forall2 sounds_as sounds (blocks s) ∧ concat sounds ++ queued (consumer (filler s)) = concat (produced s)) ∧
  overflows s = 0%N ∧ (List.length (queued (consumer (filler s))) < PLAYBACK_TARGET_SAMPLES + OPUS_FRAME_SIZE)%nat.
Proof. intros He s. destruct (run_lossless events initial initial_lossless He) as [_ Hd _ Ho Hs]. done. Qed.

(** *** Clicks *)

Definition heard (s : System) : nat := (List.length (concat (produced s)) - List.length (queued (consumer (filler s))))%nat.

(** While the producer is active, playing means that a full cushion was there. *)
Definition cushioned (s : System) : Prop :=
  active s = true ∧ (List.length (queued (consumer (filler s))) ≤ List.length (concat (produced s)))%nat ∧
  if priming (filler s) then (N.to_nat (underruns s) * PLAYBACK_PRIME_SAMPLES ≤ heard s)%nat
  else ((N.to_nat (underruns s) + 1) * PLAYBACK_PRIME_SAMPLES ≤ List.length (concat (produced s)))%nat.

Lemma step_cushioned s e :
  lossless s → cushioned s → mixed_frames [e] → e ≠ Publish false → cushioned (step s e).
Proof.
  intros [Hc Hd Hp Ho _] (Ha & Hq & Hk) He Hne. unfold cushioned, heard in *. apply Forall_cons in He as [He _].
  destruct e as [a|frame| |len]; cbn [step].
  - destruct a; [|done]. done.
  - destruct (pending s); [done|]. by destruct (below_target _).
  - destruct (pending s) as [f|] eqn:Epd; [|done]. destruct (Hp f eq_refl) as [Hf Hlt].
    pose proof (push_frame_spec f (consumer (filler s)) (overflows s)) as Hpush. destruct (push_frame _ _ _) as [ring ov].
    destruct Hpush as (Eq & _ & ->); [size_lia|]. cbn. rewrite Eq, concat_app, !length_app. cbn. rewrite (right_id_L [] (++)).
    split_and!; [done|size_lia|]. destruct (priming (filler s)); size_lia.
  - pose proof (fill_spec len (active s) (underruns s) (filler s)) as Hf. cbv zeta in Hf.
    destruct (fill _ _ _ _) as [[output u] f]. destruct Hf as (_ & _ & Hf). cbn.
    destruct Hf as [(_ & _ & _ & _ & -> & ->)|(Hpr & _ & Eq & Hf)]; [done|]. rewrite Eq, length_drop.
    split_and!; [done|size_lia|]. assert (((N.to_nat (underruns s) + 1) * PLAYBACK_PRIME_SAMPLES ≤ List.length (concat (produced s)))%nat) as Hpl.
    { destruct (priming (filler s)); [|done]. destruct (Hpr eq_refl) as [?|?]; [size_lia|congruence]. }
    destruct Hf as [(_ & -> & ->)|(Hn & -> & ->)]; [done|]. rewrite Ha, N2Nat.inj_add. change (N.to_nat 1) with 1%nat. size_lia.
Qed.

(** One rebuffer per cushion.  While the producer is active, every counted
    underrun is preceded by at least a full cushion of 1920 samples of sound
    since the one before: a starving stream clicks once and is silent until the
    cushion has been rebuilt, not once per callback. *)
Theorem clicks_are_bounded events :
  mixed_frames events → Publish false ∉ events →
  let s := run (Publish true :: events) initial in (N.to_nat (underruns s) * PLAYBACK_PRIME_SAMPLES ≤ List.length (concat (produced s)))%nat.
Proof.
  intros He Hne s. assert (cushioned s) as (_ & _ & Hk); [|unfold heard in Hk; destruct (priming (filler s)); lia].
  unfold s. cbn [run fold_left]. set (s0 := step initial (Publish true)).
  assert (lossless s0) as Hl by (apply step_lossless; [apply initial_lossless|by constructor]).
  assert (cushioned s0) as Hc by (unfold s0, cushioned, heard; cbn; rewrite queued_new; cbn; split_and!; [done|lia|lia]).
  clearbody s0. clear s. revert s0 Hl Hc. induction events as [|e events IH]; intros s Hl Hc; [done|].
  apply Forall_cons in He as [He Hes]. apply not_elem_of_cons in Hne as [Hne Hnes]. cbn. apply IH; [done|done| |].
  - apply step_lossless; [done|by constructor].
  - apply step_cushioned; [done|done|by constructor|congruence].
Qed.

End system.

(** ** The refill loop *)

Section refill.
Context {D P V R : Type} `{!VoiceDecoder D f32} `{!Libm} `{!AudioProcessor P V} `{!RingBuffer R}.

Lemma add_into_length pcm mixed : List.length (add_into pcm mixed) = List.length mixed.
Proof. revert mixed. induction pcm as [|x pcm IH]; intros [|y mixed]; cbn; [done..|]. by rewrite IH. Qed.

Lemma mix_sfx_length sfx mixed : List.length (mix_sfx sfx mixed) = List.length mixed.
Proof. revert mixed. induction sfx as [|x sfx IH]; intros [|y mixed]; cbn; [done..|]. by rewrite IH. Qed.

Lemma mix_peer_length now (m : Mix (D:=D) (P:=P)) id : List.length (mx_mixed (mix_peer now m id)) = List.length (mx_mixed m).
Proof.
  unfold mix_peer. destruct (mx_users m !! id) as [p|]; [|done]. destruct (negb (ready_to_play (audio p))); [done|].
  destruct (decode_next_into _ _ _ _) as [[[len|] frame] s]; [|done].
  destruct (match rx_pipeline p with Some _ => _ | None => _ end) as [[[] pcm] pl]; [done|]. apply add_into_length.
Qed.

Lemma mix_peers_length now order (m : Mix (D:=D) (P:=P)) :
  List.length (mx_mixed (fold_left (mix_peer now) order m)) = List.length (mx_mixed m).
Proof. revert m. induction order as [|id order IH]; intros m; [done|]. cbn. by rewrite IH, mix_peer_length. Qed.

Lemma mix_one_frame_length order now (users : gmap N (Peer D P)) sfx frame :
  (mix_one_frame order now users sfx).1.1 = Some frame → List.length frame = OPUS_FRAME_SIZE.
Proof.
  unfold mix_one_frame, mix_peer_frames. set (m := fold_left _ _ _).
  assert (List.length (mx_mixed m) = OPUS_FRAME_SIZE) as Hm 
    by (unfold m, zeroed; rewrite mix_peers_length; cbn [mx_mixed]; apply length_replicate).
  destruct sfx as [|x sfx]; cbn [fst].
  - destruct (mx_has_audio m); [|done]. intros [= <-]. by rewrite length_map.
  - intros E. apply (inj Some) in E. rewrite <- E, mix_sfx_length.
    destruct (mx_has_audio m); [|apply length_replicate]. by transitivity (List.length (mx_mixed m)); [apply length_map|].
Qed.

Lemma refill_spec fuel order now (users : gmap N (Peer D P)) sfx (ring : R) overflows :
  capacity ring = MAX_PLAYBACK_BUFFER_SAMPLES → (List.length (queued ring) ≤ MAX_PLAYBACK_BUFFER_SAMPLES)%nat →
  (PLAYBACK_TARGET_SAMPLES ≤ fuel * OPUS_FRAME_SIZE + List.length (queued ring))%nat →
  let '(users', sfx', ring', overflows') := refill fuel order now users sfx ring overflows in
  ∃ frames, Forall (λ f, List.length f = OPUS_FRAME_SIZE) frames ∧ queued ring' = queued ring ++ concat frames ∧
    capacity ring' = capacity ring ∧ overflows' = overflows ∧
    (frames = [] ∨ List.length (queued ring') < PLAYBACK_TARGET_SAMPLES + OPUS_FRAME_SIZE)%nat ∧
    ((PLAYBACK_TARGET_SAMPLES ≤ List.length (queued ring'))%nat ∨
     ∃ us sf, mix_one_frame order now us sf = (None, users', sfx')).
Proof.
  revert users sfx ring overflows. induction fuel as [|fuel IH]; intros users sfx ring overflows Hc Hl Hf; cbn [refill].
  - exists []. cbn [concat]. rewrite (right_id_L [] (++)). split_and!; try done; [by left|left; lia].
  - rewrite below_target_spec by done. destruct (Nat.ltb_spec (List.length (queued ring)) PLAYBACK_TARGET_SAMPLES) as [Hlt|Hge].
    + pose proof (mix_one_frame_length order now users sfx) as Hm.
      destruct (mix_one_frame order now users sfx) as [[[frame|] us] sf] eqn:Em; cbn [fst] in Hm.
      * specialize (Hm frame eq_refl). pose proof (push_frame_spec frame ring overflows) as Hp.
        destruct (push_frame frame ring overflows) as [ring1 ov1]. destruct Hp as (Eq & Ec & ->); [size_lia|].
        specialize (IH us sf ring1 overflows). destruct (refill fuel order now us sf ring1 overflows) as [[[us' sf'] ring'] ov'].
        destruct IH as (frames & H1 & H2 & H3 & H4 & H5 & H6); [congruence|rewrite Eq, length_app; size_lia|rewrite Eq, length_app; size_lia|].
        exists (frame :: frames). split_and!; [by constructor|by rewrite H2, Eq, <- (assoc_L (++))|congruence|done| |done].
        right. destruct H5 as [->|?]; [|done]. cbn in H2. rewrite H2, (right_id_L [] (++)), Eq, length_app. size_lia.
      * exists []. cbn [concat]. rewrite (right_id_L [] (++)). split_and!; try done; [by left|]. right. by exists users, sfx.
    + exists []. cbn [concat]. rewrite (right_id_L [] (++)). split_and!; try done; [by left|by left].
Qed.

(** The refill loop ends, with the ring at its target.  From any ring of the
    capacity the code gives it, the two rounds allowed are enough: the loop has
    appended whole frames, dropped nothing and not gone further than the target
    and a frame, and it stopped because the target is reached or because the
    last attempt to mix found nothing to play. *)
Theorem refill_tops_up order now (users : gmap N (Peer D P)) sfx (ring : R) overflows :
  capacity ring = MAX_PLAYBACK_BUFFER_SAMPLES → (List.length (queued ring) ≤ MAX_PLAYBACK_BUFFER_SAMPLES)%nat →
  let '(active, users', sfx', ring', overflows') := fill_playback_ring order now users sfx (Some ring) overflows in
  active = stream_active now users sfx ∧ overflows' = overflows ∧
  ∃ ring1 frames, ring' = Some ring1 ∧ Forall (λ f, List.length f = OPUS_FRAME_SIZE) frames ∧
    queued ring1 = queued ring ++ concat frames ∧
    (frames = [] ∨ List.length (queued ring1) < PLAYBACK_TARGET_SAMPLES + OPUS_FRAME_SIZE)%nat ∧
    ((PLAYBACK_TARGET_SAMPLES ≤ List.length (queued ring1))%nat ∨
     ∃ us sf, mix_one_frame order now us sf = (None, users', sfx')).
Proof.
  intros Hc Hl. pose proof (refill_spec refill_rounds order now users sfx ring overflows Hc Hl) as Hr. unfold fill_playback_ring.
  destruct (refill _ _ _ _ _ _ _) as [[[us' sf'] ring'] ov']. destruct Hr as (frames & H1 & H2 & H3 & H4 & H5 & H6).
  - unfold refill_rounds, PLAYBACK_TARGET_SAMPLES, PLAYBACK_PRIME_SAMPLES. rewrite Nat.div_mul by size_lia. lia.
  - split_and!; [done..|]. by exists ring', frames.
Qed.

End refill.

(** ** Mixing *)

(** What the mixer relies on: a decoder only writes to the buffer it is given,
    and a processor works in place. *)
Class DecoderWrites (D : Type) `{!VoiceDecoder D f32} := {
  writes : (list f32 → D → option nat * list f32 * D) → Prop := λ call, ∀ o1 o2 d, List.length o1 = List.length o2 →
    (call o1 d).1.1 = (call o2 d).1.1 ∧ (call o1 d).2 = (call o2 d).2 ∧
    List.length (call o1 d).1.2 = List.length o1 ∧ ∀ n, (call o1 d).1.1 = Some n → take n (call o1 d).1.2 = take n (call o2 d).1.2;
  decode_writes data : writes (decode data);
  decode_plc_writes : writes decode_plc;
  decode_fec_writes data : writes (decode_fec data) }.

Class InPlace (P V : Type) `{!AudioProcessor P V} := {
  process_in_place : ∀ samples rate (p : P), List.length (process samples rate p).1.2 = List.length samples }.

Section mixing.
Context {D P V : Type} `{!VoiceDecoder D f32} {libm : Libm} `{!AudioProcessor P V} `{!DecoderWrites D} `{!InPlace P V}.

(** A peer alone, with a fresh buffer: what it adds to the mix, and its state
    after. *)
Definition peer_tick (now : N) (p : Peer D P) : option (list f32) * Peer D P :=
  if negb (ready_to_play (audio p)) then (None, p)
  else
    let '(r, frame, s) := decode_next_into (zeroed OPUS_FRAME_SIZE) now (zeroed OPUS_FRAME_SIZE) (audio p) in
    match r with
    | None => (None, mkPeer s (rx_pipeline p) (volume_db p))
    | Some len =>
        let '(suppress, pcm, pipeline) :=
          match rx_pipeline p with
          | Some pl => let '(suppress, pcm, pl) := pipeline_process (take len frame) 48000 pl in (suppress, pcm, Some pl)
          | None => (false, take len frame, None)
          end in
        (if suppress then None else Some (apply_volume (volume_db p) pcm), mkPeer s pipeline (volume_db p))
    end.

Lemma process_stages_in_place rate samples (ps : list P) :
  List.length (process_stages rate samples ps).1.2 = List.length samples.
Proof.
  revert samples. induction ps as [|p ps IH]; intros samples; [done|]. cbn [process_stages].
  pose proof (process_in_place samples rate p) as Hp. destruct (is_enabled p).
  - destruct (process samples rate p) as [[s samples'] p']. specialize (IH samples').
    destruct (process_stages rate samples' ps) as [[s' samples''] ps']. cbn in *. congruence.
  - specialize (IH samples). destruct (process_stages rate samples ps) as [[s' samples''] ps']. done.
Qed.

(** Two results of a decoder that agree but for what was not written. *)
Definition agree {S} (size : nat) (a b : option nat * list f32 * S) : Prop :=
  a.1.1 = b.1.1 ∧ a.2 = b.2 ∧ List.length a.1.2 = size ∧ List.length b.1.2 = size ∧ ∀ n, a.1.1 = Some n → take n a.1.2 = take n b.1.2.

Lemma agree_silent {S} size o1 o2 (s : S) : List.length o1 = size → List.length o2 = size → agree size (None, o1, s) (None, o2, s).
Proof. intros. by split_and!. Qed.

Lemma call_agree (call : list f32 → D → option nat * list f32 * D) size o1 o2 d :
  writes call → List.length o1 = size → List.length o2 = size → agree size (call o1 d) (call o2 d).
Proof.
  intros H H1 H2. destruct (H o1 o2 d ltac:(congruence)) as (A & B & C & E). destruct (H o2 o1 d ltac:(congruence)) as (_ & _ & C' & _).
  split_and!; [done..|congruence|congruence|done].
Qed.

Lemma plc_agree size o1 o2 (s : UserAudioState D) : List.length o1 = size → List.length o2 = size → agree size (plc o1 s) (plc o2 s).
Proof.
  intros H1 H2. unfold plc. destruct (call_agree decode_plc size o1 o2 (decoder s) decode_plc_writes H1 H2) as (A & B & C & C' & E).
  destruct (decode_plc o1 (decoder s)) as [[r1 b1] d1], (decode_plc o2 (decoder s)) as [[r2 b2] d2]. cbn in *. subst. by split_and!.
Qed.

(** A call, and concealment when it fails. *)
Lemma call_or_plc_agree (call : list f32 → D → option nat * list f32 * D) size o1 o2 d (f g : D → UserAudioState D) :
  writes call → List.length o1 = size → List.length o2 = size →
  agree size (let '(r, out, d) := call o1 d in match r with Some n => (Some n, out, f d) | None => plc out (g d) end)
        (let '(r, out, d) := call o2 d in match r with Some n => (Some n, out, f d) | None => plc out (g d) end).
Proof.
  intros H H1 H2. destruct (call_agree call size o1 o2 d H H1 H2) as (A & B & C & C' & E).
  destruct (call o1 d) as [[r1 b1] d1], (call o2 d) as [[r2 b2] d2]. cbn in A, B, C, C', E. subst r1 d1.
  destruct r2; [by split_and!|by apply plc_agree].
Qed.

Lemma decode_next_into_agree z now size o1 o2 (s : UserAudioState D) :
  List.length o1 = size → List.length o2 = size → agree size (decode_next_into z now o1 s) (decode_next_into z now o2 s).
Proof.
  intros H1 H2. unfold decode_next_into. destruct (negb (ready_to_play s)); [by apply agree_silent|]. cbv zeta.
  destruct (stream_ended (stale_guard now s) && is_empty (stale_guard now s)); [by apply agree_silent|].
  set (s1 := prime z (stale_guard now s)). clearbody s1. destruct (jitter_buffer s1 !! next_play_frame s1) as [pkt|].
  { unfold play_packet. apply (call_or_plc_agree (decode (opus pkt)) size o1 o2 _ (λ d, with_decoder d _)
      (λ d, with_stats count_concealed (with_decoder d _))); [apply decode_writes|done..]. }
  destruct (_ ≫= _) as [[nf ns]|].
  - destruct (started s1 && silent_gap s1 nf ns); [by apply agree_silent|]. unfold recover. cbv zeta.
    destruct (if (nf =? next_play_frame s1 + 1)%N then _ else _) as [pkt|]; [|by apply plc_agree].
    apply (call_or_plc_agree (decode_fec (opus pkt)) size o1 o2 _ (λ d, with_stats count_recovered (with_decoder d _))
             (λ d, with_stats count_concealed (with_decoder d _))); [apply decode_fec_writes|done..].
  - destruct (stream_ended s1); [by apply agree_silent|]. unfold conceal. by apply plc_agree.
Qed.

Lemma pipeline_in_place (pl : option (AudioPipeline P)) pcm :
  let '(suppress, pcm', pl') := match pl with
    | Some pl => let '(suppress, pcm, pl) := pipeline_process pcm 48000 pl in (suppress, pcm, Some pl)
    | None => (false, pcm, None) end in List.length pcm' = List.length pcm.
Proof.
  destruct pl as [pl|]; [|done]. unfold pipeline_process. pose proof (process_stages_in_place 48000 pcm (stages pl)) as H.
  by destruct (process_stages 48000 pcm (stages pl)) as [[s l] ps].
Qed.

Lemma apply_volume_length volume pcm : List.length (apply_volume volume pcm) = List.length pcm.
Proof. unfold apply_volume. destruct (negb _); [apply length_map|done]. Qed.

(** The loop body does to a peer what [peer_tick] does. *)
Lemma mix_peer_spec now (m : Mix) id p :
  List.length (mx_frame m) = OPUS_FRAME_SIZE → mx_users m !! id = Some p →
  let m' := mix_peer now m id in
  mx_users m' = <[id := (peer_tick now p).2]> (mx_users m) ∧ List.length (mx_frame m') = OPUS_FRAME_SIZE ∧
  match (peer_tick now p).1 with
  | Some pcm => mx_mixed m' = add_into pcm (mx_mixed m) ∧ mx_has_audio m' = true
  | None => mx_mixed m' = mx_mixed m ∧ mx_has_audio m' = mx_has_audio m
  end.
Proof.
  intros Hf Hp. unfold mix_peer, peer_tick. rewrite Hp. destruct (negb (ready_to_play (audio p))).
  { cbn [fst snd]. by rewrite insert_id. }
  assert (List.length (zeroed OPUS_FRAME_SIZE) = OPUS_FRAME_SIZE) as Hz by apply length_replicate.
  destruct (decode_next_into_agree (zeroed OPUS_FRAME_SIZE) now OPUS_FRAME_SIZE _ _ (audio p) Hf Hz) as (A & B & C & C' & E).
  destruct (decode_next_into _ now (mx_frame m) (audio p)) as [[r frame] s].
  destruct (decode_next_into _ now (zeroed OPUS_FRAME_SIZE) (audio p)) as [[r' frame'] s']. cbn in A, B, C, C', E. subst r' s'.
  destruct r as [len|]; [|done]. rewrite (E len eq_refl). pose proof (pipeline_in_place (rx_pipeline p) (take len frame')) as Hi.
  destruct (match rx_pipeline p with Some _ => _ | None => _ end) as [[suppress pcm] pl].
  assert (List.length pcm = List.length (take len frame)) as Hlen by by rewrite Hi, (E len eq_refl).
  assert (List.length (take len frame) + List.length (drop len frame) = OPUS_FRAME_SIZE)%nat as Hsum by by rewrite <- length_app, take_drop.
  destruct suppress; cbn; (split_and!; [done|rewrite length_app, ?apply_volume_length; lia|done..]).
Qed.

Lemma mix_peers_spec now order (m : Mix) :
  List.length (mx_frame m) = OPUS_FRAME_SIZE → NoDup order → (∀ id, id ∈ order → is_Some (mx_users m !! id)) →
  let m' := fold_left (mix_peer now) order m in
  let contributions := omap (λ id, p ← mx_users m !! id; (peer_tick now p).1) order in
  mx_mixed m' = fold_left (λ mixed pcm, add_into pcm mixed) contributions (mx_mixed m) ∧
  mx_has_audio m' = mx_has_audio m || negb (bool_decide (contributions = [])) ∧
  ∀ id, mx_users m' !! id = if bool_decide (id ∈ order) then (λ p, (peer_tick now p).2) <$> mx_users m !! id else mx_users m !! id.
Proof.
  revert m. induction order as [|id order IH]; intros m Hf Hn Hin.
  - cbn. split_and!; [done|by rewrite orb_false_r|done].
  - apply NoDup_cons in Hn as [Hid Hn]. destruct (Hin id (list_elem_of_here _ _)) as [p Hp].
    destruct (mix_peer_spec now m id p Hf Hp) as (Hu & Hf' & Hc). cbn [fold_left].
    destruct (IH (mix_peer now m id) Hf' Hn) as (H1 & H2 & H3).
    { intros j Hj. rewrite Hu. destruct (decide (j = id)) as [->|]; [by rewrite lookup_insert_eq|].
      rewrite lookup_insert_ne by done. apply Hin. by apply list_elem_of_further. }
    assert (omap (λ j, p ← mx_users (mix_peer now m id) !! j; (peer_tick now p).1) order
          = omap (λ j, p ← mx_users m !! j; (peer_tick now p).1) order) as Eo.
    { clear -Hu Hid. rewrite Hu. clear Hu. induction order as [|j order IH]; [done|]. apply not_elem_of_cons in Hid as [Hne Hid].
      cbn. rewrite lookup_insert_ne by done. by rewrite IH. }
    rewrite Eo in H1, H2. cbn [omap list_omap]. rewrite Hp. cbn [mbind option_bind].
    destruct (peer_tick now p).1 as [pcm|]; destruct Hc as [E1 E2]; rewrite E1 in H1; rewrite E2 in H2; (split_and!; [done| |]).
    1: by rewrite H2; cbn; rewrite orb_true_r. 2: done.
    all: intros j; rewrite H3, Hu; destruct (decide (j = id)) as [->|Hne];
      [rewrite (bool_decide_false (id ∈ order)), bool_decide_true, lookup_insert_eq, Hp by (done || apply list_elem_of_here); done|].
    all: rewrite lookup_insert_ne by done; rewrite (bool_decide_ext (j ∈ id :: order) (j ∈ order)) by (rewrite elem_of_cons; naive_solver); done.
Qed.

(** Mixing treats every peer as if it were alone.  In whatever order the hash
    map is iterated, each peer's state after the tick is what it would be by
    itself, although all of them decode into one shared buffer; there is a frame
    exactly when some peer contributes, and it is the limited sum, in that
    order, of what each would contribute by itself. *)
Theorem mix_treats_peers_apart order now (users : gmap N (Peer D P)) :
  NoDup order → (∀ id, id ∈ order ↔ is_Some (users !! id)) →
  let contributions := omap (λ id, p ← users !! id; (peer_tick now p).1) order in
  let '(frame, users') := mix_peer_frames order now users in
  users' = (λ p, (peer_tick now p).2) <$> users ∧
  frame = if bool_decide (contributions = []) then None
          else Some (map soft_clip (fold_left (λ mixed pcm, add_into pcm mixed) contributions (zeroed OPUS_FRAME_SIZE))).
Proof.
  intros Hn Hin contributions. unfold mix_peer_frames.
  destruct (mix_peers_spec now order (mkMix users (zeroed OPUS_FRAME_SIZE) (zeroed OPUS_FRAME_SIZE) false)) as (H1 & H2 & H3);
    [apply length_replicate|done|intros id Hid; by apply Hin|].
  cbn [mx_users mx_mixed mx_has_audio orb] in *. fold contributions in H1, H2. rewrite H1, H2. split.
  - apply map_eq. intros id. rewrite H3, lookup_fmap. destruct (bool_decide_reflect (id ∈ order)) as [|Hid]; [done|].
    destruct (users !! id) as [p|] eqn:E; [|done]. exfalso. apply Hid, Hin. by rewrite E.
  - by destruct (bool_decide (contributions = [])).
Qed.

End mixing.

(** ** Concrete interfaces *)

Record ListRing := mkListRing { items : list f32; room : nat }.

#[local] Program Instance list_ring : RingBuffer ListRing := {|
  ring_new n := mkListRing [] n;
  producer_slots r := (room r - List.length (items r))%nat;
  write_chunk l r := if Nat.leb (List.length l) (room r - List.length (items r)) then Some (mkListRing (items r ++ l) (room r)) else None;
  consumer_slots r := List.length (items r);
  read_chunk n r := if Nat.leb n (List.length (items r)) then Some (take n (items r), mkListRing (drop n (items r)) (room r)) else None;
  queued := items;
  capacity := room |}.
Solve Obligations with (cbn; intros; rewrite ?(proj2 (Nat.leb_le _ _)) by done; eauto).

#[local] Instance loud_decoder : VoiceDecoder unit f32 := {|
  decode _ out d := (Some (List.length out), map (λ _, f32_of_N 1) out, d);
  decode_plc out d := (Some (List.length out), map (λ _, f32_of_N 1) out, d);
  decode_fec _ out d := (Some (List.length out), map (λ _, f32_of_N 1) out, d) |}.

Lemma constant_map_length {A} (c : A) (l1 l2 : list A) : List.length l1 = List.length l2 → map (λ _, c) l1 = map (λ _, c) l2.
Proof. revert l2. induction l1 as [|x l1 IH]; intros [|y l2] E; try done. cbn. f_equal. apply IH. by injection E. Qed.

#[local] Program Instance loud_writes : DecoderWrites unit.
Solve Obligations with (intros; intros o1 o2 d E; cbn; split_and!;
  [by rewrite E|done|apply length_map|intros; f_equal; by apply constant_map_length]).

#[local] Instance idle_processor : AudioProcessor unit json := {|
  process samples _ p := (false, samples, p); name _ := "idle"; reset p := p; config _ := JNumber "0"; set_config _ p := p;
  is_enabled _ := true; set_enabled _ p := p; write_outputs _ := [] |}.
#[local] Instance idle_in_place : InPlace unit json.
Proof. constructor. done. Qed.
#[local] Instance unit_libm : Libm := {| powf := λ _ _, f32_of_N 1; log10 := λ _, f32_zero |}.

Definition sample_events : list Event :=
  [Publish true; Produce (zeroed OPUS_FRAME_SIZE); Push; Device 100; Produce (zeroed OPUS_FRAME_SIZE); Device 10; Push; Device 1000; Device 1000; Device 10].

Lemma sample_events_mixed : mixed_frames sample_events.
Proof. repeat (constructor; [first [exact I|apply length_replicate]|]). constructor. Defined.

Lemma playback_lossless_witness : overflows (run (R:=ListRing) sample_events initial) = 0%N.
Proof. destruct (playback_lossless (R:=ListRing) sample_events sample_events_mixed) as (_ & H & _). exact H. Defined.

Lemma clicks_are_bounded_witness :
  let s := run (R:=ListRing) (Publish true :: sample_events) initial in
  (N.to_nat (underruns s) * PLAYBACK_PRIME_SAMPLES ≤ List.length (concat (produced s)))%nat.
Proof.
  refine (clicks_are_bounded (R:=ListRing) sample_events sample_events_mixed _).
  intros H. repeat (apply elem_of_cons in H as [?|H]; [discriminate|]). by apply elem_of_nil in H.
Defined.

(** The device ran dry once, after a full cushion. *)
Example one_click : underruns (run (R:=ListRing) sample_events initial) = 1%N.
Proof. by vm_compute. Qed.

Definition sample_peer : Peer unit unit :=
  mkPeer (insert_packet_at 2 40000 [] 21000000 (insert_packet_at 1 20000 [] 1000000 (UserAudioState_new tt 2 0))) None f32_zero.

Lemma refill_tops_up_witness :
  ∃ active users' sfx' ring', fill_playback_ring [1%N] 30000000 {[1%N := sample_peer]} [] (Some (ring_new (R:=ListRing) MAX_PLAYBACK_BUFFER_SAMPLES)) 0
    = (active, users', sfx', ring', 0%N).
Proof.
  pose proof (refill_tops_up [1%N] 30000000 {[1%N := sample_peer]} [] (ring_new (R:=ListRing) MAX_PLAYBACK_BUFFER_SAMPLES) 0 eq_refl) as H.
  destruct (fill_playback_ring _ _ _ _ _ _) as [[[[a u] q] r] o]. destruct H as (_ & -> & _); [apply Nat.le_0_l|]. by eexists _, _, _, _.
Defined.

(** A ready peer: the refill plays both of its frames. *)
Example both_frames_play :
  (match fill_playback_ring [1%N] 30000000 {[1%N := sample_peer]} [] (Some (ring_new (R:=ListRing) MAX_PLAYBACK_BUFFER_SAMPLES)) 0 with
   | (_, _, _, Some ring, _) => List.length (items ring) | _ => 0%nat end) = PLAYBACK_TARGET_SAMPLES.
Proof. by vm_compute. Qed.

Lemma mix_treats_peers_apart_witness :
  (mix_peer_frames [2; 1]%N 30000000 {[1%N := sample_peer; 2%N := sample_peer]}).2
    = (λ p, (peer_tick 30000000 p).2) <$> {[1%N := sample_peer; 2%N := sample_peer]}.
Proof.
  pose proof (mix_treats_peers_apart [2; 1]%N 30000000 {[1%N := sample_peer; 2%N := sample_peer]}) as H.
  destruct (mix_peer_frames _ _ _) as [frame users']. apply H.
  - apply (bool_decide_unpack _). exact I.
  - intros id. rewrite !elem_of_cons, elem_of_nil. destruct (decide (id = 1%N)) as [->|H1]; [by split; [eauto|intros _; right; left]|].
    rewrite lookup_insert_ne by done. destruct (decide (id = 2%N)) as [->|H2]; [by split; [eauto|intros _; left]|].
    rewrite lookup_singleton_ne by done. split; [by intros [?|[?|?]]|by intros [? ?]].
Defined.

End PlaybackFacts.
