(* ===== verification/AudioTask.v ===== *)
(** The audio task of the client: [run_audio_task] of
    [crates/rumble-client/src/audio_task.rs] with the callback of the microphone
    that [start_transmission] installs.

    One event loop owns the devices, the connection and the peers.  The locals
    of [run_audio_task] are the fields of [Task], grouped by what they serve; an
    event of its [select!] is an [Event], and [step] is the body of the arm.  The
    callbacks of the two devices run on threads of their own and are events too,
    [Captured] and [DeviceBlock]: they share with the loop what the code shares
    through atomics, mutexes, the encoded channel and the ring.  A pipeline or an
    encoder behind an [Arc] is one field, since no two users of it ever see
    different ones.  A stream that is inactive does not call back, as in the
    backends of [rumble-desktop].

    The answers of the surroundings during an event are an [Env]: the clock,
    whether a device opens or is healthy, what the codec creates, who is shown as
    talking.  Error texts are left out of the events, and so are logging, the debug
    dumper, repaints and the snapshots of levels and live outputs that the callback
    publishes for the settings window.  The encoded channel is the list of all
    messages ever sent and the number of those received. *)
From Stdlib Require Import NArith ZArith Lia Floats.SpecFloat.
From stdpp Require Import base gmap list strings.
From S2P Require Import Prelude Proto Pipeline Jitter PreRoll Playback.

Module AudioTask.
Import Proto Pipeline Jitter Playback.

Definition MAX_SFX_QUEUE_SAMPLES : N := 96000.

(** ** Decisions *)

Definition should_capture (voice_mode : VoiceMode) (self_muted server_muted ptt_active connected : bool) : bool :=
  if negb connected || self_muted || server_muted then false
  else match voice_mode with Continuous => true | PushToTalk => ptt_active end.

Inductive CaptureTransition := NoTransition | Activate | Deactivate.

Definition capture_transition (want active : bool) : CaptureTransition :=
  match want, active with
  | true, false => Activate
  | false, true => Deactivate
  | _, _ => NoTransition
  end.

(** ** Messages and commands *)

Inductive CaptureMessage :=
  | EncodedFrame (data : bytes) (size_bytes : nat) (timestamp_us : N)
  | EndOfStream (timestamp_us : N).

Record EncoderSettings := mkEncoderSettings {
  es_bitrate : Z; es_complexity : Z; es_fec_enabled : bool; es_packet_loss_percent : Z; dtx_enabled : bool; vbr_enabled : bool }.

(** [encode] gives the bytes written, or an error; [apply_settings] may fail. *)
Class VoiceEncoder (E : Type) := mkVoiceEncoder {
  encode : list f32 → E → option bytes * E;
  apply_settings : EncoderSettings → E → E;
}.

Inductive AudioCommand (V : Type) :=
  | ConnectionEstablished (datagram my_user_id : N)
  | ConnectionClosed
  | SetInputDevice (device_id : option string)
  | SetOutputDevice (device_id : option string)
  | StartTransmit
  | StopTransmit
  | SetVoiceMode (mode : VoiceMode)
  | SetMuted (muted : bool)
  | SetDeafened (deafened : bool)
  | SetServerMuted (muted : bool)
  | MuteUser (user_id : N)
  | UnmuteUser (user_id : N)
  | RefreshDevices
  | UpdateSettings (settings : AudioSettings)
  | ResetStats
  | UpdateTxPipeline (config : PipelineConfig V)
  | UpdateRxPipelineDefaults (config : PipelineConfig V)
  | UpdateUserRxConfig (user_id : N) (config : UserRxConfig V)
  | ClearUserRxOverride (user_id : N)
  | SetUserVolume (user_id : N) (volume_db : f32)
  | UserJoinedRoom (user_id : N)
  | UserLeftRoom (user_id : N)
  | RoomChanged (user_ids_in_room : list N)
  | PeerLeft (user_id : N)
  | PlaySfx (samples : list f32)
  | Shutdown.

Arguments ConnectionEstablished {V}.
Arguments ConnectionClosed {V}.
Arguments SetInputDevice {V}.
Arguments SetOutputDevice {V}.
Arguments StartTransmit {V}.
Arguments StopTransmit {V}.
Arguments SetVoiceMode {V}.
Arguments SetMuted {V}.
Arguments SetDeafened {V}.
Arguments SetServerMuted {V}.
Arguments MuteUser {V}.
Arguments UnmuteUser {V}.
Arguments RefreshDevices {V}.
Arguments UpdateSettings {V}.
Arguments ResetStats {V}.
Arguments UpdateTxPipeline {V}.
Arguments UpdateRxPipelineDefaults {V}.
Arguments UpdateUserRxConfig {V}.
Arguments ClearUserRxOverride {V}.
Arguments SetUserVolume {V}.
Arguments UserJoinedRoom {V}.
Arguments UserLeftRoom {V}.
Arguments RoomChanged {V}.
Arguments PeerLeft {V}.
Arguments PlaySfx {V}.
Arguments Shutdown {V}.

(** ** State *)

(** The microphone: its stream's gate, and what its callback owns. *)
Record Capture := mkCapture { is_active : bool; frames_to_discard : N; preroll : PreRoll.PreRollRing (A:=f32) }.


Record Controls := mkControls {
  voice_mode : VoiceMode; self_muted : bool; self_deafened : bool; ptt_active : bool; server_muted : bool }.

Record Net := mkNet {
  connection : option N; my_user_id : N; send_sequence : N; packets_sent : N; bytes_sent : N; sent : list (N * VoiceDatagram) }.

Section task.
Context {D E F P V R : Type} `{!VoiceDecoder D f32} `{!VoiceEncoder E} {libm : Libm} `{!JsonValue V} `{!EqDecision V}
  `{!AudioProcessor P V} `{!ProcessorFactory F P V} `{!RingBuffer R}.

Record CaptureState := mkCapState {
  audio_input : option Capture; capture_is_active : bool; tx_pipeline : option (AudioPipeline P); was_transmitting : bool; vad_gate_bypass : bool; capture_frame_index : N; capture_epoch : N; encoder : option E; input_recovering : bool; selected_input : option string; encoded : list CaptureMessage; received : nat }.

Record PlaybackState := mkPlayState {
  playback : option (PlaybackFiller (R:=R)); sfx_queue : list f32; user_audio : gmap N (Peer D P); room_members : gset N; muted_users : gset N; playback_underruns : N; playback_overflows : N; playback_producer_active : bool; output_recovering : bool; selected_output : option string; heard : list (list f32) }.

Record Settings := mkConf {
  audio_settings : AudioSettings; tx_pipeline_config : PipelineConfig V; rx_pipeline_defaults : PipelineConfig V; per_user_rx : gmap N (UserRxConfig V) }.

Record Task := mkTask {
  controls : Controls; net : Net; capture : CaptureState; play : PlaybackState; conf : Settings; events : list (VoiceEvent V); stats_roll : AudioStats; running : bool }.

(** What the surroundings answer during one event. *)
Record Env := mkEnv {
  now : N; input_opens : bool; output_opens : bool; input_healthy : bool; output_healthy : bool;
  new_encoder : EncoderSettings → option E; new_decoder : N → option D; talking_users : gset N;
  input_devices : list string; output_devices : list string; registry : ProcessorRegistry (F:=F) }.

(** *** Updates *)

Definition set_voice_mode (x : VoiceMode) (r : Controls) : Controls :=
  mkControls x (self_muted r) (self_deafened r) (ptt_active r) (server_muted r).
Definition set_self_muted (x : bool) (r : Controls) : Controls :=
  mkControls (voice_mode r) x (self_deafened r) (ptt_active r) (server_muted r).
Definition set_self_deafened (x : bool) (r : Controls) : Controls :=
  mkControls (voice_mode r) (self_muted r) x (ptt_active r) (server_muted r).
Definition set_ptt_active (x : bool) (r : Controls) : Controls :=
  mkControls (voice_mode r) (self_muted r) (self_deafened r) x (server_muted r).
Definition set_server_muted (x : bool) (r : Controls) : Controls :=
  mkControls (voice_mode r) (self_muted r) (self_deafened r) (ptt_active r) x.

Definition set_connection (x : option N) (r : Net) : Net :=
  mkNet x (my_user_id r) (send_sequence r) (packets_sent r) (bytes_sent r) (sent r).
Definition set_my_user_id (x : N) (r : Net) : Net :=
  mkNet (connection r) x (send_sequence r) (packets_sent r) (bytes_sent r) (sent r).
Definition set_send_sequence (x : N) (r : Net) : Net :=
  mkNet (connection r) (my_user_id r) x (packets_sent r) (bytes_sent r) (sent r).
Definition set_packets_sent (x : N) (r : Net) : Net :=
  mkNet (connection r) (my_user_id r) (send_sequence r) x (bytes_sent r) (sent r).
Definition set_bytes_sent (x : N) (r : Net) : Net :=
  mkNet (connection r) (my_user_id r) (send_sequence r) (packets_sent r) x (sent r).
Definition set_sent (x : list (N * VoiceDatagram)) (r : Net) : Net :=
  mkNet (connection r) (my_user_id r) (send_sequence r) (packets_sent r) (bytes_sent r) x.

Definition set_audio_input (x : option Capture) (r : CaptureState) : CaptureState :=
  mkCapState x (capture_is_active r) (tx_pipeline r) (was_transmitting r) (vad_gate_bypass r) (capture_frame_index r) (capture_epoch r) (encoder r) (input_recovering r) (selected_input r) (encoded r) (received r).
Definition set_capture_is_active (x : bool) (r : CaptureState) : CaptureState :=
  mkCapState (audio_input r) x (tx_pipeline r) (was_transmitting r) (vad_gate_bypass r) (capture_frame_index r) (capture_epoch r) (encoder r) (input_recovering r) (selected_input r) (encoded r) (received r).
Definition set_tx_pipeline (x : option (AudioPipeline P)) (r : CaptureState) : CaptureState :=
  mkCapState (audio_input r) (capture_is_active r) x (was_transmitting r) (vad_gate_bypass r) (capture_frame_index r) (capture_epoch r) (encoder r) (input_recovering r) (selected_input r) (encoded r) (received r).
Definition set_was_transmitting (x : bool) (r : CaptureState) : CaptureState :=
  mkCapState (audio_input r) (capture_is_active r) (tx_pipeline r) x (vad_gate_bypass r) (capture_frame_index r) (capture_epoch r) (encoder r) (input_recovering r) (selected_input r) (encoded r) (received r).
Definition set_vad_gate_bypass (x : bool) (r : CaptureState) : CaptureState :=
  mkCapState (audio_input r) (capture_is_active r) (tx_pipeline r) (was_transmitting r) x (capture_frame_index r) (capture_epoch r) (encoder r) (input_recovering r) (selected_input r) (encoded r) (received r).
Definition set_capture_frame_index (x : N) (r : CaptureState) : CaptureState :=
  mkCapState (audio_input r) (capture_is_active r) (tx_pipeline r) (was_transmitting r) (vad_gate_bypass r) x (capture_epoch r) (encoder r) (input_recovering r) (selected_input r) (encoded r) (received r).
Definition set_capture_epoch (x : N) (r : CaptureState) : CaptureState :=
  mkCapState (audio_input r) (capture_is_active r) (tx_pipeline r) (was_transmitting r) (vad_gate_bypass r) (capture_frame_index r) x (encoder r) (input_recovering r) (selected_input r) (encoded r) (received r).
Definition set_encoder (x : option E) (r : CaptureState) : CaptureState :=
  mkCapState (audio_input r) (capture_is_active r) (tx_pipeline r) (was_transmitting r) (vad_gate_bypass r) (capture_frame_index r) (capture_epoch r) x (input_recovering r) (selected_input r) (encoded r) (received r).
Definition set_input_recovering (x : bool) (r : CaptureState) : CaptureState :=
  mkCapState (audio_input r) (capture_is_active r) (tx_pipeline r) (was_transmitting r) (vad_gate_bypass r) (capture_frame_index r) (capture_epoch r) (encoder r) x (selected_input r) (encoded r) (received r).
Definition set_selected_input (x : option string) (r : CaptureState) : CaptureState :=
  mkCapState (audio_input r) (capture_is_active r) (tx_pipeline r) (was_transmitting r) (vad_gate_bypass r) (capture_frame_index r) (capture_epoch r) (encoder r) (input_recovering r) x (encoded r) (received r).
Definition set_encoded (x : list CaptureMessage) (r : CaptureState) : CaptureState :=
  mkCapState (audio_input r) (capture_is_active r) (tx_pipeline r) (was_transmitting r) (vad_gate_bypass r) (capture_frame_index r) (capture_epoch r) (encoder r) (input_recovering r) (selected_input r) x (received r).
Definition set_received (x : nat) (r : CaptureState) : CaptureState :=
  mkCapState (audio_input r) (capture_is_active r) (tx_pipeline r) (was_transmitting r) (vad_gate_bypass r) (capture_frame_index r) (capture_epoch r) (encoder r) (input_recovering r) (selected_input r) (encoded r) x.

Definition set_playback (x : option (PlaybackFiller (R:=R))) (r : PlaybackState) : PlaybackState :=
  mkPlayState x (sfx_queue r) (user_audio r) (room_members r) (muted_users r) (playback_underruns r) (playback_overflows r) (playback_producer_active r) (output_recovering r) (selected_output r) (heard r).
Definition set_sfx_queue (x : list f32) (r : PlaybackState) : PlaybackState :=
  mkPlayState (playback r) x (user_audio r) (room_members r) (muted_users r) (playback_underruns r) (playback_overflows r) (playback_producer_active r) (output_recovering r) (selected_output r) (heard r).
Definition set_user_audio (x : gmap N (Peer D P)) (r : PlaybackState) : PlaybackState :=
  mkPlayState (playback r) (sfx_queue r) x (room_members r) (muted_users r) (playback_underruns r) (playback_overflows r) (playback_producer_active r) (output_recovering r) (selected_output r) (heard r).
Definition set_room_members (x : gset N) (r : PlaybackState) : PlaybackState :=
  mkPlayState (playback r) (sfx_queue r) (user_audio r) x (muted_users r) (playback_underruns r) (playback_overflows r) (playback_producer_active r) (output_recovering r) (selected_output r) (heard r).
Definition set_muted_users (x : gset N) (r : PlaybackState) : PlaybackState :=
  mkPlayState (playback r) (sfx_queue r) (user_audio r) (room_members r) x (playback_underruns r) (playback_overflows r) (playback_producer_active r) (output_recovering r) (selected_output r) (heard r).
Definition set_playback_underruns (x : N) (r : PlaybackState) : PlaybackState :=
  mkPlayState (playback r) (sfx_queue r) (user_audio r) (room_members r) (muted_users r) x (playback_overflows r) (playback_producer_active r) (output_recovering r) (selected_output r) (heard r).
Definition set_playback_overflows (x : N) (r : PlaybackState) : PlaybackState :=
  mkPlayState (playback r) (sfx_queue r) (user_audio r) (room_members r) (muted_users r) (playback_underruns r) x (playback_producer_active r) (output_recovering r) (selected_output r) (heard r).
Definition set_playback_producer_active (x : bool) (r : PlaybackState) : PlaybackState :=
  mkPlayState (playback r) (sfx_queue r) (user_audio r) (room_members r) (muted_users r) (playback_underruns r) (playback_overflows r) x (output_recovering r) (selected_output r) (heard r).
Definition set_output_recovering (x : bool) (r : PlaybackState) : PlaybackState :=
  mkPlayState (playback r) (sfx_queue r) (user_audio r) (room_members r) (muted_users r) (playback_underruns r) (playback_overflows r) (playback_producer_active r) x (selected_output r) (heard r).
Definition set_selected_output (x : option string) (r : PlaybackState) : PlaybackState :=
  mkPlayState (playback r) (sfx_queue r) (user_audio r) (room_members r) (muted_users r) (playback_underruns r) (playback_overflows r) (playback_producer_active r) (output_recovering r) x (heard r).
Definition set_heard (x : list (list f32)) (r : PlaybackState) : PlaybackState :=
  mkPlayState (playback r) (sfx_queue r) (user_audio r) (room_members r) (muted_users r) (playback_underruns r) (playback_overflows r) (playback_producer_active r) (output_recovering r) (selected_output r) x.

Definition set_audio_settings (x : AudioSettings) (r : Settings) : Settings :=
  mkConf x (tx_pipeline_config r) (rx_pipeline_defaults r) (per_user_rx r).
Definition set_tx_pipeline_config (x : PipelineConfig V) (r : Settings) : Settings :=
  mkConf (audio_settings r) x (rx_pipeline_defaults r) (per_user_rx r).
Definition set_rx_pipeline_defaults (x : PipelineConfig V) (r : Settings) : Settings :=
  mkConf (audio_settings r) (tx_pipeline_config r) x (per_user_rx r).
Definition set_per_user_rx (x : gmap N (UserRxConfig V)) (r : Settings) : Settings :=
  mkConf (audio_settings r) (tx_pipeline_config r) (rx_pipeline_defaults r) x.

Definition set_controls (x : Controls) (r : Task) : Task :=
  mkTask x (net r) (capture r) (play r) (conf r) (events r) (stats_roll r) (running r).
Definition set_net (x : Net) (r : Task) : Task :=
  mkTask (controls r) x (capture r) (play r) (conf r) (events r) (stats_roll r) (running r).
Definition set_capture (x : CaptureState) (r : Task) : Task :=
  mkTask (controls r) (net r) x (play r) (conf r) (events r) (stats_roll r) (running r).
Definition set_play (x : PlaybackState) (r : Task) : Task :=
  mkTask (controls r) (net r) (capture r) x (conf r) (events r) (stats_roll r) (running r).
Definition set_conf (x : Settings) (r : Task) : Task :=
  mkTask (controls r) (net r) (capture r) (play r) x (events r) (stats_roll r) (running r).
Definition set_events (x : list (VoiceEvent V)) (r : Task) : Task :=
  mkTask (controls r) (net r) (capture r) (play r) (conf r) x (stats_roll r) (running r).
Definition set_stats_roll (x : AudioStats) (r : Task) : Task :=
  mkTask (controls r) (net r) (capture r) (play r) (conf r) (events r) x (running r).
Definition set_running (x : bool) (r : Task) : Task :=
  mkTask (controls r) (net r) (capture r) (play r) (conf r) (events r) (stats_roll r) x.

Abbreviation M := (ST Task).
Definition on_controls (f : Controls → Controls) : M unit := modify (λ t, set_controls (f (controls t)) t).
Definition on_net (f : Net → Net) : M unit := modify (λ t, set_net (f (net t)) t).
Definition on_capture (f : CaptureState → CaptureState) : M unit := modify (λ t, set_capture (f (capture t)) t).
Definition on_play (f : PlaybackState → PlaybackState) : M unit := modify (λ t, set_play (f (play t)) t).
Definition on_conf (f : Settings → Settings) : M unit := modify (λ t, set_conf (f (conf t)) t).

(** [bus.voice.send(..)] and [encoded_tx.send(..)]. *)
Definition emit (e : VoiceEvent V) : M unit := modify (λ t, set_events (events t ++ [e]) t).
Definition send_encoded (m : CaptureMessage) : M unit := on_capture (λ c, set_encoded (encoded c ++ [m]) c).

Definition emit_all (es : list (VoiceEvent V)) : M unit := for_each es emit.

(** *** Capture *)

Definition set_stream_active (b : bool) : M unit :=
  on_capture (λ c, match audio_input c with
                   | Some s => set_audio_input (Some (mkCapture b (frames_to_discard s) (preroll s))) c
                   | None => c
                   end).

(** [deactivate_capture!]. *)
Definition deactivate_capture : M unit :=
  active ← gets (λ t, capture_is_active (capture t));
  if (active : bool) then
    index ← gets (λ t, capture_frame_index (capture t));
    send_encoded (EndOfStream (wrap_u64 (index * FRAME_US)));;
    on_capture (set_capture_is_active false);;
    set_stream_active false;;
    on_capture (set_was_transmitting false);;
    emit (TransmittingChanged false)
  else mret tt.

(** [sync_transmission!]. *)
Definition sync_transmission (env : Env) : M unit :=
  c ← gets controls;
  connected ← gets (λ t, bool_decide (is_Some (connection (net t))));
  active ← gets (λ t, capture_is_active (capture t));
  match capture_transition (should_capture (voice_mode c) (self_muted c) (server_muted c) (ptt_active c) connected) active with
  | Activate =>
      input ← gets (λ t, audio_input (capture t));
      match (input : option Capture) with
      | None => mret tt
      | Some _ =>
          on_capture (set_capture_is_active true);;
          on_capture (λ c, set_capture_frame_index
            (N.max (capture_frame_index c) ((now env - capture_epoch c) / 1000 / FRAME_US)%N) c);;
          on_capture (λ c, set_tx_pipeline (pipeline_reset <$> tx_pipeline c) c);;
          set_stream_active true
      end
  | Deactivate => deactivate_capture
  | NoTransition => mret tt
  end.

Definition encoder_settings (s : AudioSettings) : EncoderSettings :=
  mkEncoderSettings (bitrate s) (encoder_complexity s) (fec_enabled s) (packet_loss_percent s) true true.

(** [AudioPipeline::from_config], with the fallback of [start_transmission]. *)
Definition build_tx (env : Env) (config : PipelineConfig V) : AudioPipeline P :=
  match from_config config (registry env) with Ok p => p | Err _ => AudioPipeline_new (frame_size config) end.

Definition start_transmission (env : Env) : M (result unit) :=
  input ← gets (λ t, audio_input (capture t));
  match (input : option Capture) with
  | Some _ => done_ok
  | None =>
      enc ← gets (λ t, encoder (capture t));
      match (enc : option E) with
      | None => mret (Err "connection-scoped encoder not available")
      | Some enc =>
          settings ← gets (λ t, audio_settings (conf t));
          config ← gets (λ t, tx_pipeline_config (conf t));
          on_capture (set_encoder (Some (apply_settings (encoder_settings settings) enc)));;
          on_capture (set_tx_pipeline (Some (build_tx env config)));;
          if input_opens env then
            on_capture (set_audio_input (Some (mkCapture false 3 (PreRoll.new PreRoll.PRE_ROLL_FRAMES FRAME_US))));;
            done_ok
          else mret (Err "failed to start audio input")
      end
  end.

Definition stop_transmission : M unit :=
  on_capture (λ c, match audio_input c with Some _ => set_tx_pipeline None (set_audio_input None c) | None => c end).

(** Tear the stream down, ending the spurt first. *)
Definition close_input : M unit :=
  input ← gets (λ t, audio_input (capture t));
  match (input : option Capture) with
  | Some _ => deactivate_capture;; stop_transmission
  | None => mret tt
  end.

(** Open the stream; a failure is shown. *)
Definition open_input (env : Env) : M unit :=
  r ← start_transmission env;
  match (r : result unit) with
  | Ok _ => mret tt
  | Err _ => on_capture (set_capture_is_active false);; emit (DeviceUnavailable Input)
  end.

Definition is_connected : M bool := gets (λ t, bool_decide (is_Some (connection (net t)))).

(** *** Playback *)

Definition open_playback (env : Env) : M unit :=
  on_play (set_playback (if output_opens env then Some (PlaybackFiller_new (ring_new MAX_PLAYBACK_BUFFER_SAMPLES)) else None)).

Definition has_playback : M bool := gets (λ t, bool_decide (is_Some (playback (play t)))).

(** A stop event for everyone who is shown as talking. *)
Definition stop_talkers (env : Env) : M unit := emit_all (map UserStoppedTalking (elements (talking_users env))).

(** State for one peer, when the codec creates a decoder. *)
Definition create_peer (env : Env) (user_id : N) : M unit :=
  cf ← gets conf;
  match new_decoder env user_id with
  | Some d => on_play (λ p, set_user_audio (<[user_id :=
      new_peer (registry env) (per_user_rx cf) (rx_pipeline_defaults cf) (audio_settings cf) (now env) user_id d]> (user_audio p)) p)
  | None => mret tt
  end.

(** A new receive pipeline; when it cannot be built the old one stays. *)
Definition rebuild_rx (env : Env) (config : PipelineConfig V) (p : Peer D P) : Peer D P :=
  match build_rx (registry env) config with Some pl => mkPeer (audio p) (Some pl) (volume_db p) | None => p end.

Definition set_volume (v : f32) (p : Peer D P) : Peer D P := mkPeer (audio p) (rx_pipeline p) v.

Definition on_peer (user_id : N) (f : Peer D P → Peer D P) : M unit :=
  on_play (λ p, set_user_audio (alter f user_id (user_audio p)) p).

(** ** Commands *)

Definition on_connection_established (env : Env) (datagram uid : N) : M unit :=
  on_net (λ n, set_my_user_id uid (set_connection (Some datagram) n));;
  on_capture (λ c, set_capture_frame_index 0 (set_capture_epoch (now env) c));;
  settings ← gets (λ t, audio_settings (conf t));
  match new_encoder env (encoder_settings settings) with
  | Some enc => on_capture (set_encoder (Some enc))
  | None => mret tt
  end;;
  playing ← has_playback;
  deafened ← gets (λ t, self_deafened (controls t));
  (if negb playing && negb deafened then open_playback env else mret tt);;
  input ← gets (λ t, audio_input (capture t));
  match (input : option Capture) with Some _ => mret tt | None => open_input env end;;
  sync_transmission env.

Definition on_connection_closed (env : Env) : M unit :=
  on_net (λ n, set_my_user_id 0 (set_connection None n));;
  sync_transmission env;;
  stop_transmission;;
  on_capture (set_input_recovering false);;
  on_capture (set_encoder None);;
  on_controls (λ c, set_server_muted false (set_ptt_active false c));;
  stop_talkers env;;
  on_play (λ p, set_room_members ∅ (set_user_audio ∅ p)).

Definition on_set_input_device (env : Env) (device_id : option string) : M unit :=
  selected ← gets (λ t, selected_input (capture t));
  input ← gets (λ t, audio_input (capture t));
  if bool_decide (device_id = selected) && bool_decide (is_Some (A:=Capture) input) then
    emit (SelectedDeviceChanged Input device_id);;
    sync_transmission env
  else
    on_capture (λ c, set_input_recovering false (set_selected_input device_id c));;
    close_input;;
    connected ← is_connected;
    (if connected : bool then
      r ← start_transmission env;
      match (r : result unit) with
      | Ok _ => emit (SelectedDeviceChanged Input device_id)
      | Err _ => on_capture (set_capture_is_active false);; emit (DeviceUnavailable Input)
      end
    else emit (SelectedDeviceChanged Input device_id));;
    sync_transmission env.

Definition on_set_output_device (env : Env) (device_id : option string) : M unit :=
  on_play (λ p, set_playback None (set_output_recovering false (set_selected_output device_id p)));;
  deafened ← gets (λ t, self_deafened (controls t));
  if negb deafened then
    open_playback env;;
    playing ← has_playback;
    emit (if (playing : bool) then SelectedDeviceChanged Output device_id else DeviceUnavailable Output)
  else emit (SelectedDeviceChanged Output device_id).

Definition on_set_voice_mode (env : Env) (mode : VoiceMode) : M unit :=
  on_controls (set_voice_mode mode);;
  on_capture (set_vad_gate_bypass (match mode with PushToTalk => true | Continuous => false end));;
  emit (VoiceModeChanged mode);;
  sync_transmission env.

Definition on_set_deafened (env : Env) (deafened : bool) : M unit :=
  on_controls (set_self_deafened deafened);;
  on_controls (λ c, if deafened && negb (self_muted c) then set_self_muted true c else c);;
  emit (SelfDeafenedChanged deafened);;
  muted ← gets (λ t, self_muted (controls t));
  emit (SelfMutedChanged muted);;
  (if deafened then
    on_play (λ p, set_user_audio ∅ (set_sfx_queue [] (set_output_recovering false (set_playback None p))));;
    stop_talkers env
  else
    connected ← is_connected;
    playing ← has_playback;
    if (connected : bool) && negb playing then open_playback env else mret tt);;
  sync_transmission env.

Definition on_set_server_muted (env : Env) (muted : bool) : M unit :=
  was ← gets (λ t, server_muted (controls t));
  if Bool.eqb was muted then mret tt
  else
    on_controls (set_server_muted muted);;
    emit (ServerMutedChanged muted);;
    sync_transmission env.

(** Reopen the stream with what has changed: [UpdateSettings] and
    [UpdateTxPipeline]. *)
Definition restart_input (env : Env) : M unit :=
  close_input;;
  connected ← is_connected;
  (if connected : bool then open_input env else mret tt);;
  sync_transmission env.

#[local] Instance processor_config_eq_dec : EqDecision (ProcessorConfig V).
Proof. solve_decision. Defined.
#[local] Instance pipeline_config_eq_dec : EqDecision (PipelineConfig V).
Proof. solve_decision. Defined.

Definition on_update_settings (env : Env) (settings : AudioSettings) : M unit :=
  old ← gets (λ t, audio_settings (conf t));
  if bool_decide (settings = old) then mret tt
  else
    on_conf (set_audio_settings settings);;
    emit (AudioSettingsChanged settings);;
    restart_input env.

Definition on_update_tx_pipeline (env : Env) (config : PipelineConfig V) : M unit :=
  old ← gets (λ t, tx_pipeline_config (conf t));
  if bool_decide (config = old) then mret tt
  else
    on_conf (set_tx_pipeline_config config);;
    emit (TxPipelineChanged config);;
    restart_input env.

(** What [ResetStats] does to a peer: [packets_received] stays. *)
Definition reset_peer_stats (p : Peer D P) : Peer D P :=
  mkPeer (with_stats (λ s, mkStats (packets_received s) 0 0 0 0) (audio p)) (rx_pipeline p) (volume_db p).

Definition on_reset_stats : M unit :=
  on_net (λ n, set_bytes_sent 0 (set_packets_sent 0 n));;
  on_play (λ p, set_playback_overflows 0 (set_playback_underruns 0 (set_user_audio (reset_peer_stats <$> user_audio p) p)));;
  modify (set_stats_roll AudioStats_default).

Definition on_update_rx_defaults (env : Env) (config : PipelineConfig V) : M unit :=
  on_conf (set_rx_pipeline_defaults config);;
  emit (RxPipelineDefaultsChanged config);;
  per_user ← gets (λ t, per_user_rx (conf t));
  on_play (λ p, set_user_audio (map_imap (λ id peer,
    Some (if bool_decide (is_Some ((per_user : gmap N (UserRxConfig V)) !! id)) then peer else rebuild_rx env config peer)) (user_audio p)) p).

Definition on_update_user_rx (env : Env) (user_id : N) (config : UserRxConfig V) : M unit :=
  on_conf (λ c, set_per_user_rx (<[user_id := config]> (per_user_rx c)) c);;
  emit (UserRxConfigChanged user_id config);;
  defaults ← gets (λ t, rx_pipeline_defaults (conf t));
  on_peer user_id (λ p, set_volume (rx_volume_db config) (rebuild_rx env (default defaults (pipeline_override config)) p)).

Definition on_clear_user_rx (env : Env) (user_id : N) : M unit :=
  on_conf (λ c, set_per_user_rx (delete user_id (per_user_rx c)) c);;
  emit (UserRxOverrideCleared user_id);;
  defaults ← gets (λ t, rx_pipeline_defaults (conf t));
  on_peer user_id (λ p, set_volume f32_zero (rebuild_rx env defaults p)).

Definition on_set_user_volume (user_id : N) (volume : f32) : M unit :=
  per_user ← gets (λ t, per_user_rx (conf t));
  let user_rx := mkRx (pipeline_override (default UserRxConfig_default ((per_user : gmap N (UserRxConfig V)) !! user_id))) volume in
  on_conf (λ c, set_per_user_rx (<[user_id := user_rx]> (per_user_rx c)) c);;
  emit (UserRxConfigChanged user_id user_rx);;
  on_peer user_id (set_volume volume).

Definition on_user_joined_room (env : Env) (user_id : N) : M unit :=
  me ← gets (λ t, my_user_id (net t));
  if (user_id =? me)%N then mret tt
  else
    on_play (λ p, set_room_members ({[user_id]} ∪ room_members p) p);;
    users ← gets (λ t, user_audio (play t));
    match (users : gmap N (Peer D P)) !! user_id with Some _ => mret tt | None => create_peer env user_id end.

Definition on_user_left_room (env : Env) (user_id : N) : M unit :=
  on_play (λ p, set_room_members (room_members p ∖ {[user_id]}) p);;
  users ← gets (λ t, user_audio (play t));
  match (users : gmap N (Peer D P)) !! user_id with
  | Some _ =>
      on_play (λ p, set_user_audio (delete user_id (user_audio p)) p);;
      if bool_decide (user_id ∈ talking_users env) then emit (UserStoppedTalking user_id) else mret tt
  | None => mret tt
  end.

Definition on_room_changed (env : Env) (user_ids_in_room : list N) : M unit :=
  on_play (set_user_audio ∅);;
  stop_talkers env;;
  me ← gets (λ t, my_user_id (net t));
  on_play (set_room_members (list_to_set (retain (λ u, negb (u =? me)%N) user_ids_in_room)));;
  for_each (retain (λ u, negb (u =? me)%N) user_ids_in_room) (create_peer env).

Definition on_peer_left (user_id : N) : M unit :=
  on_play (λ p, set_user_audio (delete user_id (user_audio p)) (set_room_members (room_members p ∖ {[user_id]}) p)).

(** The samples that stay when the queue is over its cap. *)
Definition cap_sfx (queue : list f32) : list f32 :=
  drop (N.to_nat (N.of_nat (List.length queue) - MAX_SFX_QUEUE_SAMPLES)) queue.

Definition on_play_sfx (samples : list f32) : M unit :=
  on_play (λ p, match playback p with Some _ => set_sfx_queue (cap_sfx (sfx_queue p ++ samples)) p | None => p end).

Definition handle_command (env : Env) (cmd : AudioCommand V) : M unit :=
  match cmd with
  | ConnectionEstablished datagram uid => on_connection_established env datagram uid
  | ConnectionClosed => on_connection_closed env
  | SetInputDevice id => on_set_input_device env id
  | SetOutputDevice id => on_set_output_device env id
  | StartTransmit => on_controls (set_ptt_active true);; sync_transmission env
  | StopTransmit => on_controls (set_ptt_active false);; sync_transmission env
  | SetVoiceMode mode => on_set_voice_mode env mode
  | SetMuted muted => on_controls (set_self_muted muted);; emit (SelfMutedChanged muted);; sync_transmission env
  | SetDeafened deafened => on_set_deafened env deafened
  | SetServerMuted muted => on_set_server_muted env muted
  | MuteUser id => on_play (λ p, set_muted_users ({[id]} ∪ muted_users p) p);; emit (LocalMuteToggled id true)
  | UnmuteUser id => on_play (λ p, set_muted_users (muted_users p ∖ {[id]}) p);; emit (LocalMuteToggled id false)
  | RefreshDevices => emit (DevicesEnumerated (input_devices env) (output_devices env))
  | UpdateSettings settings => on_update_settings env settings
  | ResetStats => on_reset_stats
  | UpdateTxPipeline config => on_update_tx_pipeline env config
  | UpdateRxPipelineDefaults config => on_update_rx_defaults env config
  | UpdateUserRxConfig id config => on_update_user_rx env id config
  | ClearUserRxOverride id => on_clear_user_rx env id
  | SetUserVolume id v => on_set_user_volume id v
  | UserJoinedRoom id => on_user_joined_room env id
  | UserLeftRoom id => on_user_left_room env id
  | RoomChanged ids => on_room_changed env ids
  | PeerLeft id => on_peer_left id
  | PlaySfx samples => on_play_sfx samples
  | Shutdown => modify (set_running false)
  end.

(** ** The other arms *)

(** The datagram for a message of the capture callback. *)
Definition datagram_of (me sequence : N) (m : CaptureMessage) : VoiceDatagram :=
  match m with
  | EncodedFrame data _ ts => mkVoiceDatagram data sequence ts false (Some me) None
  | EndOfStream ts => mkVoiceDatagram [] sequence ts true (Some me) None
  end.

Definition on_capture_message : M unit :=
  c ← gets capture;
  match encoded c !! received c with
  | None => mret tt
  | Some m =>
      on_capture (set_received (S (received c)));;
      conn ← gets (λ t, connection (net t));
      match (conn : option N) with
      | None => mret tt
      | Some conn =>
          me ← gets (λ t, my_user_id (net t));
          sequence ← gets (λ t, send_sequence (net t));
          on_net (set_send_sequence (wrap_u32 (sequence + 1)));;
          match m with
          | EncodedFrame _ size _ => on_net (λ n, set_bytes_sent (bytes_sent n + N.of_nat size) (set_packets_sent (packets_sent n + 1) n))
          | EndOfStream _ => mret tt
          end;;
          on_net (λ n, set_sent (sent n ++ [(conn, datagram_of me sequence m)]) n)
      end
  end.

(** What [recv_datagram] gives: a datagram, decoded if it can be, or the end. *)
Inductive Incoming := Datagram (d : option VoiceDatagram) | StreamClosed | ReceiveError.

Definition on_datagram (env : Env) (i : Incoming) : M unit :=
  match i with
  | Datagram None => mret tt
  | Datagram (Some v) =>
      t ← gets id;
      match vd_sender_id v with
      | None => mret tt
      | Some sender_id =>
          if negb (sender_id =? my_user_id (net t))%N && negb (bool_decide (sender_id ∈ muted_users (play t))) then
            let '(users, es) := handle_voice_datagram (registry env) (per_user_rx (conf t)) (rx_pipeline_defaults (conf t))
              (audio_settings (conf t)) (talking_users env) (new_decoder env sender_id) (now env)
              sender_id (vd_sequence v) (vd_timestamp_us v) (vd_opus_data v) (vd_end_of_stream v) (user_audio (play t)) in
            on_play (set_user_audio users);;
            emit_all es
          else mret tt
      end
  | StreamClosed | ReceiveError => on_net (set_connection None)
  end.

Definition with_ring (f : PlaybackFiller (R:=R)) (ring : R) : PlaybackFiller (R:=R) := mkFiller ring (priming f).

Definition on_produce_tick (env : Env) (order : list N) : M unit :=
  on_play (λ p,
    let '(active, users, queue, ring, overflows) :=
      fill_playback_ring order (now env) (user_audio p) (sfx_queue p) (consumer <$> playback p) (playback_overflows p) in
    set_playback (f ← playback p; r ← ring; Some (with_ring f r))
      (set_playback_overflows overflows (set_sfx_queue queue (set_user_audio users (set_playback_producer_active active p))))).

Definition on_cleanup_tick (env : Env) : M unit :=
  users ← gets (λ t, user_audio (play t));
  emit_all (cleanup_stale_users users (talking_users env) (now env));;
  on_play (λ p, set_user_audio (gc_orphaned_users (user_audio p) (room_members p) (now env)) p).

Definition recover_input (env : Env) : M unit :=
  close_input;;
  on_capture (set_input_recovering true);;
  connected ← is_connected;
  if (connected : bool) then
    r ← start_transmission env;
    match (r : result unit) with
    | Ok _ =>
        on_capture (set_input_recovering false);;
        selected ← gets (λ t, selected_input (capture t));
        emit (SelectedDeviceChanged Input selected);;
        sync_transmission env
    | Err _ => emit (DeviceError Input true)
    end
  else
    on_capture (set_input_recovering false);;
    emit (DeviceError Input false).

Definition recover_output (env : Env) : M unit :=
  on_play (λ p, set_output_recovering true (set_playback None p));;
  deafened ← gets (λ t, self_deafened (controls t));
  if negb deafened then
    open_playback env;;
    playing ← has_playback;
    if (playing : bool) then
      on_play (set_output_recovering false);;
      selected ← gets (λ t, selected_output (play t));
      emit (SelectedDeviceChanged Output selected)
    else emit (DeviceError Output true)
  else
    on_play (set_output_recovering false);;
    emit (DeviceError Output false).

Definition on_health_tick (env : Env) : M unit :=
  c ← gets capture;
  (if (match audio_input c with Some _ => negb (input_healthy env) | None => input_recovering c end) then recover_input env else mret tt);;
  p ← gets play;
  (if (match playback p with Some _ => negb (output_healthy env) | None => output_recovering p end) then recover_output env else mret tt).

Definition on_stats_tick : M unit :=
  modify (λ t, set_stats_roll (update_stats (user_audio (play t)) (packets_sent (net t)) (bytes_sent (net t))
    (consumer <$> playback (play t)) (playback_underruns (play t)) (playback_overflows (play t))) t).

(** ** The devices *)

Definition with_preroll (r : PreRoll.PreRollRing) : M unit :=
  on_capture (λ c, match audio_input c with
                   | Some s => set_audio_input (Some (mkCapture (is_active s) (frames_to_discard s) r)) c
                   | None => c
                   end).

(** One frame through the encoder; an error is logged. *)
Definition encode_frame (samples : list f32) (timestamp_us : N) : M unit :=
  enc ← gets (λ t, encoder (capture t));
  match (enc : option E) with
  | None => mret tt
  | Some enc =>
      let '(r, enc) := encode samples enc in
      on_capture (set_encoder (Some enc));;
      match r with
      | Some data => send_encoded (EncodedFrame data (List.length data) timestamp_us)
      | None => mret tt
      end
  end.

(** A frame that the gate holds back. *)
Definition suppressed_frame (samples : list f32) (timestamp_us : N) (was_tx : bool) (s : Capture) : M unit :=
  (if was_tx then on_capture (set_was_transmitting false);; send_encoded (EndOfStream timestamp_us) else mret tt);;
  with_preroll (PreRoll.push timestamp_us samples (preroll s)).

(** A frame that goes out, behind what the pre-roll ring holds. *)
Definition transmitted_frame (samples : list f32) (timestamp_us : N) (s : Capture) : M unit :=
  on_capture (set_was_transmitting true);;
  enc ← gets (λ t, encoder (capture t));
  match (enc : option E) with
  | None => mret tt
  | Some _ =>
      let '(slots, ring) := PreRoll.flush_into timestamp_us (preroll s) in
      for_each slots (λ f, encode_frame (PreRoll.samples f) (PreRoll.timestamp_us f));;
      with_preroll ring;;
      encode_frame samples timestamp_us
  end.

(** The callback of the microphone. *)
Definition on_frame (samples : list f32) : M unit :=
  input ← gets (λ t, audio_input (capture t));
  match (input : option Capture) with
  | None => mret tt
  | Some s =>
      if negb (is_active s) then mret tt
      else
        index ← gets (λ t, capture_frame_index (capture t));
        on_capture (set_capture_frame_index (wrap_u64 (index + 1)));;
        let timestamp_us := wrap_u64 (index * FRAME_US) in
        if (0 <? frames_to_discard s)%N then
          on_capture (set_audio_input (Some (mkCapture (is_active s) (frames_to_discard s - 1) (preroll s))))
        else
          pipeline ← gets (λ t, tx_pipeline (capture t));
          let '(suppress, samples, pipeline) :=
            match (pipeline : option (AudioPipeline P)) with
            | Some pl => let '(suppress, samples, pl) := pipeline_process samples 48000 pl in (suppress, samples, Some pl)
            | None => (false, samples, None)
            end in
          on_capture (set_tx_pipeline pipeline);;
          bypass ← gets (λ t, vad_gate_bypass (capture t));
          was_tx ← gets (λ t, was_transmitting (capture t));
          let suppress := suppress && negb bypass in
          (if negb (Bool.eqb was_tx (negb suppress)) then emit (TransmittingChanged (negb suppress)) else mret tt);;
          if suppress then suppressed_frame samples timestamp_us was_tx s else transmitted_frame samples timestamp_us s
  end.

(** The callback of the output device. *)
Definition on_device_block (len : nat) : M unit :=
  on_play (λ p, match playback p with
    | None => p
    | Some f =>
        let '(output, underruns, f) := fill len (playback_producer_active p) (playback_underruns p) f in
        set_playback (Some f) (set_playback_underruns underruns (set_heard (heard p ++ [output]) p))
    end).

(** ** The loop *)

Inductive Event :=
  | Command (cmd : AudioCommand V)
  | CaptureReady
  | Received (i : Incoming)
  | ProduceTick (order : list N)
  | CleanupTick
  | HealthTick
  | StatsTick
  | Captured (samples : list f32)
  | DeviceBlock (len : nat).

(** No datagram is received without a connection. *)
Definition handle_event (env : Env) (e : Event) : M unit :=
  match e with
  | Command cmd => handle_command env cmd
  | CaptureReady => on_capture_message
  | Received i => connected ← is_connected; if (connected : bool) then on_datagram env i else mret tt
  | ProduceTick order => on_produce_tick env order
  | CleanupTick => on_cleanup_tick env
  | HealthTick => on_health_tick env
  | StatsTick => on_stats_tick
  | Captured samples => on_frame samples
  | DeviceBlock len => on_device_block len
  end.

Definition step (t : Task) (e : Env * Event) : Task := if running t then (handle_event e.1 e.2 t).2 else t.

(** The state before the loop, with the settings found in [State]. *)
Definition initial (epoch : N) (settings : Settings) (opens : bool) : Task :=
  mkTask (mkControls PushToTalk false false false false) (mkNet None 0 0 0 0 [])
    (mkCapState None false None false true 0 epoch None false None [] 0)
    (mkPlayState (if opens then Some (PlaybackFiller_new (ring_new MAX_PLAYBACK_BUFFER_SAMPLES)) else None) [] ∅ ∅ ∅ 0 0 false false None [])
    settings [] AudioStats_default true.

Definition run (epoch : N) (settings : Settings) (opens : bool) (es : list (Env * Event)) : Task :=
  fold_left step es (initial epoch settings opens).

End task.

End AudioTask.
