(* ===== verification/AudioTaskFacts.v ===== *)
(** What holds of the audio task (AudioTask.v), whatever commands, datagrams,
    ticks and device callbacks come in whatever order: who is muted or deafened is
    silent ([muted_is_silent]), spurts are ended and the transmit light is true
    ([spurts_are_ended]), and datagrams carry the captured messages in order under
    consecutive numbers ([datagrams_follow_capture]).  The first two come from an
    invariant of the capture stream ([inv]), which every arm preserves ([event_spec]);
    [sync_transmission] restores it from less ([sync_aligns]). *)
From Stdlib Require Import NArith ZArith Lia Floats.SpecFloat.
From stdpp Require Import base gmap list strings.
From S2P Require Import Prelude Proto Pipeline Jitter PreRoll Playback PlaybackFacts AudioTask.

Module AudioTaskFacts.
Import Proto Pipeline Jitter Playback AudioTask.

Section facts.
Context {D E F P V R : Type} `{!VoiceDecoder D f32} `{!VoiceEncoder E} {libm : Libm} `{!JsonValue V} `{!EqDecision V}
  `{!AudioProcessor P V} `{!ProcessorFactory F P V} `{!RingBuffer R}.
Abbreviation Task := (AudioTask.Task (D:=D) (E:=E) (P:=P) (V:=V) (R:=R)).
Abbreviation Env := (AudioTask.Env (D:=D) (E:=E) (F:=F)).
Abbreviation M := (ST Task).

(** ** The invariant *)

(** The transmit light, as a listener of the events sees it. *)
Definition light (es : list (VoiceEvent V)) : bool :=
  fold_left (λ lit e, match e with TransmittingChanged b => b | _ => lit end) es false.

Definition ended (l : list CaptureMessage) : Prop := match last l with Some (EncodedFrame _ _ _) => False | _ => True end.

Definition wanted (c : Controls) : bool := should_capture (voice_mode c) (self_muted c) (server_muted c) (ptt_active c) true.

(** The part of the state the invariant speaks of. *)
Record View := mkView {
  v_controls : Controls; v_connected : bool; v_input : option bool; v_capturing : bool; v_transmitting : bool;
  v_encoded : list CaptureMessage; v_light : bool; v_playing : bool }.

Definition view (t : Task) : View :=
  mkView (controls t) (bool_decide (is_Some (connection (net t)))) (is_active <$> audio_input (capture t)) (capture_is_active (capture t))
    (was_transmitting (capture t)) (encoded (capture t)) (light (events t)) (bool_decide (is_Some (playback (play t)))).

(** The stream is open for callbacks exactly while capture is active; the light
    shows what is transmitted; a spurt that is over has been ended. *)
Record capture_ok (v : View) : Prop := {
  ok_stream : v_capturing v = default false (v_input v);
  ok_transmitting : v_transmitting v = true → v_capturing v = true;
  ok_light : v_light v = v_transmitting v;
  ok_ended : v_transmitting v = false → ended (v_encoded v) }.

Definition gated (v : View) : Prop :=
  (v_capturing v = true → wanted (v_controls v) = true) ∧
  (v_connected v = true → wanted (v_controls v) = true → is_Some (v_input v) → v_capturing v = true).

Definition deaf_ok (v : View) : Prop := self_deafened (v_controls v) = true → v_playing v = false.

Definition inv (v : View) : Prop := capture_ok v ∧ gated v ∧ deaf_ok v.

Lemma light_snoc es e : light (es ++ [e]) = match e with TransmittingChanged b => b | _ => light es end.
Proof. unfold light. rewrite fold_left_app. by destruct e. Qed.

Lemma ended_eos l ts : ended (l ++ [EndOfStream ts]).
Proof. unfold ended. by rewrite last_snoc. Qed.

(** A closed stream satisfies whatever the controls say. *)
Lemma closed_inv v : capture_ok v → deaf_ok v → v_input v = None → inv v.
Proof.
  intros H Hd Hi. split_and!; [done| |done]. destruct H as [Hs _ _ _]. rewrite Hi in Hs.
  split; rewrite Hs; [done|]. rewrite Hi. by intros _ _ [? ?].
Qed.

(** *** Quiet operations *)

Abbreviation quiet := (keeps (same view)).

Lemma quiet_emit e : match e with TransmittingChanged _ => False | _ => True end → quiet (emit e : M unit).
Proof. intros H. apply keeps_modify. intros t. unfold same, view. cbn -[light]. rewrite light_snoc. by destruct e. Qed.

Lemma quiet_emit_all es :
  Forall (λ e, match e with TransmittingChanged _ => False | _ => True end) es → quiet (emit_all es : M unit).
Proof. intros H. apply keeps_for_each; [apply _|]. intros e He. apply quiet_emit. by eapply Forall_forall in H. Qed.

Lemma quiet_conf f : quiet (on_conf f : M unit).
Proof. by apply keeps_modify. Qed.

Lemma quiet_play f : (∀ p, is_Some (playback (f p)) ↔ is_Some (playback p)) → quiet (on_play f : M unit).
Proof. intros H. apply keeps_modify. intros t. unfold same, view. cbn. f_equal. by apply bool_decide_ext. Qed.

Lemma quiet_net f : (∀ n, connection (f n) = connection n) → quiet (on_net f : M unit).
Proof. intros H. apply keeps_modify. intros t. unfold same, view. cbn. by rewrite H. Qed.

Lemma quiet_capture f :
  (∀ c, is_active <$> audio_input (f c) = is_active <$> audio_input c ∧ capture_is_active (f c) = capture_is_active c ∧
        was_transmitting (f c) = was_transmitting c ∧ encoded (f c) = encoded c) → quiet (on_capture f : M unit).
Proof. intros H. apply keeps_modify. intros t. unfold same, view. cbn. by destruct (H (capture t)) as (-> & -> & -> & ->). Qed.

(** *** The capture stream *)

Definition A (v : View) : Prop := capture_ok v ∧ deaf_ok v.
Abbreviation on_view Q := (λ _ t, Q (view t)).

Definition same_rest (v v' : View) : Prop :=
  v_controls v' = v_controls v ∧ v_connected v' = v_connected v ∧ v_playing v' = v_playing v.

#[local] Arguments light : simpl never.
#[local] Arguments ended : simpl never.

(** The state by its fields. *)
Local Ltac crack t :=
  destruct t as [? ? [ai ca ? wt ? ? ? ? ? ? ecd ?] [pb ? ? ? ? ? ? ? ? ? ?] ? ? ? ?]; unfold view in *; simpl in *.

Lemma deactivate_spec t :
  let v := view t in let v' := view (deactivate_capture t).2 in
  capture_ok v → same_rest v v' ∧ capture_ok v' ∧ v_capturing v' = false.
Proof.
  cbn zeta. intros [H1 H2 H3 H4]. crack t. destruct ca, ai as [c|]; simpl in *;
    (split; [done|]); (split; [|done]); split; simpl; rewrite ?light_snoc; auto using ended_eos.
Qed.

(** The stream may be off when nothing is wanted. *)
Lemma off_inv v : capture_ok v → deaf_ok v → v_capturing v = false → v_connected v && wanted (v_controls v) = false → inv v.
Proof.
  intros Hc Hd Hoff Hw. split_and!; [done| |done]. split; [by rewrite Hoff|]. intros Hn Hwd. by rewrite Hn, Hwd in Hw.
Qed.

(** [sync_transmission] brings the stream in line with the controls. *)
Lemma sync_aligns (env : Env) :
  triple (λ t, A (view t)) (sync_transmission env) (on_view (λ v, inv v ∧ (v_capturing v = true → v_connected v = true))).
Proof.
  intros t [Hc Hd]. pose proof (deactivate_spec t Hc) as ((Hr1 & Hr2 & Hr3) & Hc' & Hoff).
  unfold sync_transmission, gets. unfold mbind, ST_bind.
  set (w := should_capture _ _ _ _ _).
  assert (Hw : v_connected (view t) && wanted (v_controls (view t)) = w).
  { subst w. unfold wanted, should_capture. simpl. by destruct (bool_decide _), (self_muted _), (server_muted _). }
  clearbody w. destruct w, (capture_is_active (capture t)) eqn:Ha; cbn [capture_transition]; cbv iota.
  - apply andb_true_iff in Hw as [Hn Hwd]. split; [|done]. split_and!; [done| |done]. by split.
  - apply andb_true_iff in Hw as [Hn Hwd]. destruct Hc as [H1 H2 H3 H4]. crack t.
    destruct ai as [c|]; simpl in *; (split; [split_and!|by auto]); (split; simpl; by auto) || done.
  - split; [|congruence]. apply off_inv; [done|unfold deaf_ok; by rewrite Hr1, Hr3|by apply Hoff|by rewrite Hr1, Hr2].
  - split; [by apply off_inv|]. simpl. congruence.
Qed.

Lemma sync_spec (env : Env) : triple (λ t, A (view t)) (sync_transmission env) (on_view inv).
Proof. eapply triple_weaken; [apply sync_aligns|done|]. by intros _ t [H _]. Qed.

(** Closed and open streams. *)
Lemma close_spec : triple (λ t, A (view t)) close_input (on_view (λ v, A v ∧ v_input v = None)).
Proof.
  intros t [Hc Hd]. unfold close_input, gets. unfold mbind, ST_bind.
  destruct (audio_input (capture t)) eqn:Hi; [|by split_and!; [..|simpl; rewrite Hi]].
  pose proof (deactivate_spec t Hc) as ((Hr1 & Hr2 & Hr3) & Hc' & Hoff).
  destruct (deactivate_capture t) as [[] t']. simpl in *. unfold stop_transmission.
  assert (Hd' : deaf_ok (view t')) by (unfold deaf_ok in *; simpl in *; by rewrite Hr1, Hr3). clear -Hc' Hd' Hoff.
  destruct Hc' as [H1 H2 H3 H4]. crack t'. destruct ai; simpl in *; split_and!; done || split; simpl; congruence || auto.
Qed.

Lemma start_spec (env : Env) :
  triple (λ t, A (view t) ∧ v_input (view t) = None) (start_transmission env)
    (λ r t, A (view t) ∧ (is_ok r = false → v_input (view t) = None)).
Proof.
  intros t [[Hc Hd] Hi]. unfold start_transmission, gets. unfold mbind, ST_bind. simpl in Hi. apply fmap_None in Hi. rewrite Hi.
  destruct (encoder (capture t)) as [enc|] eqn:He; [|by split_and!; [..|intros _; simpl; rewrite Hi]].
  destruct Hc as [H1 H2 H3 H4]. destruct (input_opens env) eqn:Ho; crack t; subst; split_and!; done || split; simpl; auto.
Qed.

Lemma open_spec (env : Env) : triple (λ t, A (view t) ∧ v_input (view t) = None) (open_input env) (on_view A).
Proof.
  eapply triple_bind; [apply start_spec|]. intros [[]|e]; [by intros t [H _]|].
  intros t [[[H1 H2 H3 H4] Hd] Hi]. specialize (Hi eq_refl). crack t. apply fmap_None in Hi. subst.
  split; [|done]. split; simpl; rewrite ?light_snoc; auto.
Qed.

Lemma stop_spec :
  triple (λ t, A (view t) ∧ v_capturing (view t) = false) stop_transmission (on_view (λ v, A v ∧ v_input v = None)).
Proof.
  intros t [[[H1 H2 H3 H4] Hd] Hoff]. unfold stop_transmission. crack t.
  destruct ai; simpl in *; split_and!; done || split; simpl; auto; congruence.
Qed.

(** *** What leaves [A] alone *)

Abbreviation keepsA := (keeps (under (λ t : Task, A (view t)))).

Lemma keepsA_quiet {B} (m : M B) : quiet m → keepsA m.
Proof. intros H t Ht. by rewrite (H t). Qed.

Lemma keepsA_controls f : (∀ c, self_deafened (f c) = self_deafened c) → keepsA (on_controls f : M unit).
Proof.
  intros H. apply keeps_modify. intros t [[H1 H2 H3 H4] Hd]. split; [by split|].
  unfold deaf_ok in *. simpl. by rewrite H.
Qed.

Lemma keepsA_net f : keepsA (on_net f : M unit).
Proof. apply keeps_modify. intros t [[H1 H2 H3 H4] Hd]. by repeat split. Qed.

Lemma keepsA_silence f : (∀ p, playback (f p) = None) → keepsA (on_play f : M unit).
Proof.
  intros H. apply keeps_modify. intros t [[H1 H2 H3 H4] Hd]. split; [by split|].
  unfold deaf_ok. simpl. by rewrite H.
Qed.

Lemma triple_quiet {B} Q (m : M B) : quiet m → triple (λ t, Q (view t)) m (on_view Q).
Proof. intros H t Ht. by rewrite (H t). Qed.

Lemma keepsA_open_playback (env : Env) :
  triple (λ t, A (view t) ∧ self_deafened (controls t) = false) (open_playback env) (on_view A).
Proof.
  intros t [[[H1 H2 H3 H4] Hd] Hdf]. split; [by split|]. unfold deaf_ok. simpl. by rewrite Hdf.
Qed.

(** A command that ends with [sync_transmission] may leave the stream out of line
    on the way. *)
Lemma then_sync (env : Env) {B} Pre (m : M B) :
  triple Pre m (on_view A) → triple Pre (m;; sync_transmission env) (on_view inv).
Proof. intros H. eapply triple_bind; [exact H|intros ?; apply sync_spec]. Qed.

Lemma inv_A v : inv v → A v.
Proof. by intros (? & ? & ?). Qed.

Lemma triple_keepsA {B} (m : M B) : keepsA m → triple (λ t, A (view t)) m (on_view A).
Proof. intros H t Ht. by apply H. Qed.

Abbreviation invt := (λ t : Task, inv (view t)).
Abbreviation At := (λ t : Task, A (view t)).

Lemma triple_inv_A {B} (m : M B) Q : triple At m Q → triple invt m Q.
Proof. intros H t Ht. by apply H, inv_A. Qed.

(** Reading a part of the state, and going on with what was read. *)
Lemma triple_read {B C} Pre (f : Task → B) (k : B → M C) Q :
  (∀ a, triple (λ t, Pre t ∧ a = f t) (k a) Q) → triple Pre (gets f ≫= k) Q.
Proof. intros H. eapply triple_bind; [apply triple_gets|exact H]. Qed.

Lemma triple_seq {B C} Pre (m : M B) (k : M C) Q Q' : triple Pre m (λ _, Q) → triple Q k Q' → triple Pre (m;; k) Q'.
Proof. intros H H'. eapply triple_bind; [exact H|]. intros ?. exact H'. Qed.

Lemma triple_forget {B} Pre Pre' (m : M B) Q : triple Pre m Q → triple (λ t, Pre t ∧ Pre' t) m Q.
Proof. intros H t [Ht _]. by apply H. Qed.

Local Ltac quiets := solve [repeat first [solve [apply quiet_emit; done] | apply quiet_conf
  | solve [apply quiet_net; done] | solve [apply quiet_capture; done] | solve [apply quiet_play; exact (λ _, iff_refl _)] | keeps_step]].

Lemma quiet_stop_talkers (env : Env) : quiet (stop_talkers env : M unit).
Proof. apply quiet_emit_all, Forall_forall. intros e (u & -> & _)%list_elem_of_fmap. done. Qed.

(** The commands that end in [sync_transmission]. *)
Lemma established_spec (env : Env) datagram uid : triple invt (on_connection_established env datagram uid) (on_view inv).
Proof.
  apply triple_inv_A. unfold on_connection_established.
  eapply triple_seq; [apply triple_keepsA, keepsA_net|].
  eapply triple_seq; [apply triple_quiet; quiets|].
  eapply triple_read. intros settings. apply triple_forget.
  eapply triple_seq; [apply triple_quiet; quiets|].
  eapply triple_read. intros playing. apply triple_forget. eapply triple_read. intros deafened.
  eapply triple_seq with (Q := At).
  { destruct playing, deafened; simpl; try (apply triple_forget, triple_ret; done).
    intros t [Ht Hd]. by apply keepsA_open_playback. }
  eapply triple_read. intros input. 
  apply then_sync. destruct input as [c|]; [by apply triple_forget, triple_ret|].
  intros t [Ht Hi]. apply open_spec. split; [done|]. simpl. by rewrite <- Hi.
Qed.

Abbreviation closed := (λ t : Task, A (view t) ∧ v_input (view t) = None).

Lemma triple_closed {B} (m : M B) : quiet m → triple closed m (λ _, closed).
Proof. intros H t Ht. by rewrite (H t). Qed.

Lemma triple_if {B} (b : bool) Pre (m k : M B) Q :
  (b = true → triple Pre m Q) → (b = false → triple Pre k Q) → triple Pre (if b then m else k) Q.
Proof. destruct b; auto. Qed.

Lemma sync_net (env : Env) : keeps (same net) (sync_transmission env : M unit).
Proof. unfold sync_transmission, deactivate_capture. repeat first [by apply keeps_modify | keeps_step]. Qed.

Lemma connection_closed_spec (env : Env) : triple invt (on_connection_closed env) (on_view inv).
Proof.
  apply triple_inv_A. unfold on_connection_closed.
  eapply triple_seq with (Q := λ t, A (view t) ∧ connection (net t) = None).
  { intros t Ht. split; [by apply keepsA_net|done]. }
  eapply triple_seq with (Q := λ t, A (view t) ∧ v_capturing (view t) = false).
  { intros t [Ht Hn]. pose proof (sync_aligns env t Ht) as [Hi Hc]. split; [by apply inv_A|].
    apply not_true_is_false. intros Ha. specialize (Hc Ha). simpl in Hc.
    by rewrite (sync_net env t), Hn in Hc. }
  eapply triple_seq; [apply stop_spec|].
  eapply triple_seq; [apply triple_closed; quiets|]. eapply triple_seq; [apply triple_closed; quiets|].
  eapply triple_seq with (Q := closed).
  { intros t [Ht Hi]. split; [by apply keepsA_controls|done]. }
  eapply triple_seq; [apply triple_closed, quiet_stop_talkers|].
  intros t [[Hc Hd] Hi]. by apply closed_inv.
Qed.

Lemma restart_spec (env : Env) : triple At (restart_input env) (on_view inv).
Proof.
  unfold restart_input. eapply triple_seq; [apply close_spec|].
  eapply triple_read. intros connected. apply then_sync, triple_forget.
  apply triple_if; intros _; [apply open_spec|]. apply triple_ret. by intros t [H _].
Qed.

(** A stream that could not be opened is shown as unavailable. *)
Lemma unavailable_spec : triple closed (on_capture (set_capture_is_active false);; emit (DeviceUnavailable Input)) (on_view A).
Proof.
  intros t [[[H1 H2 H3 H4] Hd] Hi]. crack t. apply fmap_None in Hi. subst. split; [|done]. split; simpl; rewrite ?light_snoc; auto.
Qed.

Lemma set_input_device_spec (env : Env) device_id : triple invt (on_set_input_device env device_id) (on_view inv).
Proof.
  apply triple_inv_A. unfold on_set_input_device. eapply triple_read. intros selected. apply triple_forget.
  eapply triple_read. intros input. apply triple_forget, triple_if; intros _.
  { apply then_sync, triple_quiet. quiets. }
  eapply triple_seq; [apply triple_quiet; quiets|]. eapply triple_seq; [apply close_spec|].
  eapply triple_read. intros connected. apply then_sync, triple_forget, triple_if; intros _.
  - eapply triple_bind; [apply start_spec|]. intros [[]|e].
    + apply triple_forget, triple_quiet. quiets.
    + intros t [Ht Hi]. apply unavailable_spec. split; [done|by apply Hi].
  - apply triple_forget, triple_quiet. quiets.
Qed.

(** The commands about the output. *)
Lemma capture_inv_play f : (∀ p, playback (f p) = None) → triple invt (on_play f : M unit) (on_view inv).
Proof.
  intros H t ([H1 H2 H3 H4] & [H5 H6] & Hd). split_and!; [by split|by split|]. unfold deaf_ok. simpl. by rewrite H.
Qed.

Lemma open_playback_inv (env : Env) :
  triple (λ t, inv (view t) ∧ self_deafened (controls t) = false) (open_playback env) (on_view inv).
Proof.
  intros t [([H1 H2 H3 H4] & [H5 H6] & Hd) Hf]. split_and!; [by split|by split|]. unfold deaf_ok. simpl. by rewrite Hf.
Qed.

Lemma set_output_device_spec (env : Env) device_id : triple invt (on_set_output_device env device_id) (on_view inv).
Proof.
  unfold on_set_output_device. eapply triple_seq; [by apply capture_inv_play|].
  eapply triple_read. intros deafened. apply triple_if; intros Hd; [|apply triple_forget, triple_quiet; quiets].
  eapply triple_seq with (Q := invt).
  { intros t [Ht ->]. apply open_playback_inv. split; [done|]. by destruct (self_deafened _). }
  eapply triple_read. intros playing. apply triple_forget, triple_quiet. apply quiet_emit. by destruct playing.
Qed.

Lemma recover_output_spec (env : Env) : triple invt (recover_output env) (on_view inv).
Proof.
  unfold recover_output. eapply triple_seq; [by apply capture_inv_play|].
  eapply triple_read. intros deafened. apply triple_if; intros Hd; [|apply triple_forget, triple_quiet; quiets].
  eapply triple_seq with (Q := invt).
  { intros t [Ht ->]. apply open_playback_inv. split; [done|]. by destruct (self_deafened _). }
  eapply triple_read. intros playing. apply triple_forget, triple_quiet. quiets.
Qed.


Lemma recover_input_spec (env : Env) : triple invt (recover_input env) (on_view inv).
Proof.
  apply triple_inv_A. unfold recover_input. eapply triple_seq; [apply close_spec|].
  eapply triple_seq; [apply triple_closed; quiets|]. eapply triple_read. intros connected. apply triple_if; intros _.
  - apply triple_forget. eapply triple_bind; [apply start_spec|]. intros [[]|e].
    + eapply triple_seq; [apply triple_forget, triple_quiet; quiets|]. eapply triple_read. intros selected.
      eapply triple_seq; [apply triple_forget, triple_quiet; quiets|]. apply sync_spec.
    + intros t [[Hc Hd] Hi]. eapply triple_quiet; [by apply quiet_emit|]. apply closed_inv; auto.
  - apply triple_forget. intros t [[Hc Hd] Hi]. eapply triple_quiet; [quiets|]. by apply closed_inv.
Qed.

Lemma health_spec (env : Env) : triple invt (on_health_tick env) (on_view inv).
Proof.
  unfold on_health_tick. eapply triple_read. intros c. eapply triple_seq with (Q := invt).
  { apply triple_if; intros _; apply triple_forget; [apply recover_input_spec|by apply triple_ret]. }
  eapply triple_read. intros p. apply triple_if; intros _; apply triple_forget; [apply recover_output_spec|by apply triple_ret].
Qed.

Lemma set_deafened_spec (env : Env) deafened : triple invt (on_set_deafened env deafened) (on_view inv).
Proof.
  unfold on_set_deafened.
  eapply triple_seq with (Q := λ t, capture_ok (view t) ∧ self_deafened (controls t) = deafened).
  { intros t ([H1 H2 H3 H4] & _). by repeat split. }
  eapply triple_seq with (Q := λ t, capture_ok (view t) ∧ self_deafened (controls t) = deafened).
  { intros t ([H1 H2 H3 H4] & Hd). split; [by split|]. simpl. by destruct (_ && _). }
  assert (Hq : ∀ B (m : M B), quiet m → triple (λ t, capture_ok (view t) ∧ self_deafened (controls t) = deafened) m
    (λ _ t, capture_ok (view t) ∧ self_deafened (controls t) = deafened)).
  { intros B m Hm t [Hc Hd]. pose proof (Hm t) as E'. unfold same in E'. split; [by rewrite E'|].
    exact (eq_trans (f_equal (λ v, self_deafened (v_controls v)) E') Hd). }
  eapply triple_seq; [apply Hq; quiets|]. eapply triple_read. intros muted. 
  eapply triple_seq; [apply triple_forget, Hq; quiets|]. eapply triple_seq with (Q := At); [|apply sync_spec].
  apply triple_if; intros ->.
  - eapply triple_seq with (Q := At); [|apply triple_quiet, quiet_stop_talkers].
    intros t ([H1 H2 H3 H4] & _). by repeat split.
  - eapply triple_read. intros connected. apply triple_forget. eapply triple_read. intros playing. apply triple_forget.
    assert (Hf : ∀ t : Task, capture_ok (view t) ∧ self_deafened (controls t) = false → A (view t)).
    { intros t [Hc Hd]. split; [done|]. unfold deaf_ok. simpl. congruence. }
    apply triple_if; intros _; [|by apply triple_ret].
    intros t [Hc Hd]. apply keepsA_open_playback. split; [by apply Hf|done].
Qed.


(** *** The other arms *)

Lemma quiet_peers f : quiet (on_play (λ p, set_user_audio (f p) p) : M unit).
Proof. by apply quiet_play. Qed.

Lemma quiet_create_peer (env : Env) id : quiet (create_peer env id : M unit).
Proof. unfold create_peer. quiets. Qed.

Lemma quiet_command (env : Env) cmd :
  match cmd with
  | ConnectionEstablished _ _ | ConnectionClosed | SetInputDevice _ | SetOutputDevice _ | StartTransmit | StopTransmit
  | SetVoiceMode _ | SetMuted _ | SetDeafened _ | SetServerMuted _ | UpdateSettings _ | UpdateTxPipeline _ => True
  | _ => quiet (handle_command env cmd : M unit)
  end.
Proof.
  destruct cmd; try exact I; simpl.
  - quiets.
  - quiets.
  - quiets.
  - unfold on_reset_stats. quiets.
  - unfold on_update_rx_defaults. quiets.
  - unfold on_update_user_rx, on_peer. quiets.
  - unfold on_clear_user_rx, on_peer. quiets.
  - unfold on_set_user_volume, on_peer. quiets.
  - unfold on_user_joined_room. repeat first [apply quiet_create_peer | by apply quiet_play | keeps_step].
  - unfold on_user_left_room. quiets.
  - unfold on_room_changed. repeat first [apply quiet_create_peer | apply quiet_stop_talkers | by apply quiet_play | keeps_step].
  - unfold on_peer_left. quiets.
  - unfold on_play_sfx. apply quiet_play. intros p. by destruct (playback p) eqn:Hp; simpl; rewrite ?Hp.
  - by apply keeps_modify.
Qed.

Lemma command_spec (env : Env) cmd : triple invt (handle_command env cmd) (on_view inv).
Proof.
  pose proof (quiet_command env cmd) as Hq. destruct cmd; simpl in *; try (by apply triple_quiet); clear Hq.
  - apply established_spec.
  - apply connection_closed_spec.
  - apply set_input_device_spec.
  - apply set_output_device_spec.
  - apply triple_inv_A, then_sync, triple_keepsA, keepsA_controls. done.
  - apply triple_inv_A, then_sync, triple_keepsA, keepsA_controls. done.
  - apply triple_inv_A. eapply triple_seq; [by apply triple_keepsA, keepsA_controls|].
    eapply triple_seq; [apply triple_quiet; quiets|]. apply then_sync, triple_quiet. quiets.
  - apply triple_inv_A. eapply triple_seq; [by apply triple_keepsA, keepsA_controls|]. apply then_sync, triple_quiet. quiets.
  - apply set_deafened_spec.
  - eapply triple_read. intros was. apply triple_forget, triple_if; intros _; [by apply triple_ret|]. apply triple_inv_A.
    eapply triple_seq; [by apply triple_keepsA, keepsA_controls|]. apply then_sync, triple_quiet. quiets.
  - eapply triple_read. intros old. apply triple_forget, triple_if; intros _; [by apply triple_ret|]. apply triple_inv_A.
    eapply triple_seq; [apply triple_quiet; quiets|]. eapply triple_seq; [apply triple_quiet; quiets|]. apply restart_spec.
  - eapply triple_read. intros old. apply triple_forget, triple_if; intros _; [by apply triple_ret|]. apply triple_inv_A.
    eapply triple_seq; [apply triple_quiet; quiets|]. eapply triple_seq; [apply triple_quiet; quiets|]. apply restart_spec.
Qed.


Lemma quiet_with_preroll r : quiet (with_preroll r : M unit).
Proof. apply quiet_capture. intros c. by destruct (audio_input c) eqn:Hi; simpl; rewrite ?Hi. Qed.

(** While a frame is handled the light is already right. *)
Definition lit (b was : bool) (v : View) : Prop :=
  v_capturing v = true ∧ v_light v = b ∧ v_transmitting v = was ∧
  v_capturing v = default false (v_input v) ∧ (was = false → ended (v_encoded v)) ∧ gated v ∧ deaf_ok v.

Lemma lit_inv b v : lit b b v → inv v.
Proof.
  intros (H1 & H2 & H3 & H4 & H5 & H6 & H7). split_and!; [|done|done]. split; [done|by rewrite H1|congruence|].
  rewrite H3. exact H5.
Qed.

Lemma encode_frame_spec samples ts : keeps (under (λ t, lit true true (view t))) (encode_frame samples ts : M unit).
Proof.
  intros t Ht. unfold encode_frame, gets. unfold mbind, ST_bind.
  destruct (encoder (capture t)) as [enc|]; [|exact Ht]. destruct (encode samples enc) as [[data|] enc']; [|exact Ht].
  destruct Ht as (H1 & H2 & H3 & H4 & H5 & H6 & H7). unfold lit. by split_and!.
Qed.

Lemma suppressed_spec samples ts was s :
  triple (λ t, lit false was (view t)) (suppressed_frame samples ts was s) (on_view inv).
Proof.
  unfold suppressed_frame. eapply triple_seq with (Q := λ t, lit false false (view t)).
  - apply triple_if; intros ->; [|by apply triple_ret]. intros t (H1 & H2 & H3 & H4 & H5 & H6 & H7).
    unfold lit. split_and!; try done. intros _. apply ended_eos.
  - intros t Ht. eapply triple_quiet; [apply quiet_with_preroll|]. by eapply lit_inv.
Qed.

Lemma transmitted_spec samples ts was s :
  triple (λ t, lit true was (view t)) (transmitted_frame samples ts s) (on_view inv).
Proof.
  unfold transmitted_frame. eapply triple_seq with (Q := λ t, lit true true (view t)).
  { intros t (H1 & H2 & H3 & H4 & H5 & H6 & H7). unfold lit. by split_and!. }
  assert (Hk : ∀ m : M unit, keeps (under (λ t, lit true true (view t))) m →
    triple (λ t, lit true true (view t)) m (on_view inv)).
  { intros m Hm t Ht. eapply lit_inv, Hm, Ht. }
  apply Hk. repeat first [apply encode_frame_spec | keeps_step].
  intros t Ht. by rewrite (quiet_with_preroll _ t).
Qed.

Lemma frame_spec samples : triple invt (on_frame samples) (on_view inv).
Proof.
  unfold on_frame. eapply triple_read. intros [s|]; [|by apply triple_forget, triple_ret].
  apply triple_if; [intros _; by apply triple_forget, triple_ret|]. intros Ha%negb_false_iff.
  eapply triple_read. intros index. apply triple_forget.
  set (Pre := λ t : Task, inv (view t) ∧ v_capturing (view t) = true).
  assert (HP : ∀ B (m : M B), quiet m → triple Pre m (λ _, Pre)).
  { intros B m Hm t [Ht Hc]. split; by rewrite (Hm t). }
  eapply triple_seq with (Q := Pre).
  { intros t [Ht Hs]. apply HP; [quiets|]. split; [done|]. destruct Ht as [[H1 _ _ _] _]. rewrite H1. simpl.
    by rewrite <- Hs. }
  apply triple_if; intros _.
  { intros t [Ht Hc]. assert (E' : view (on_capture (set_audio_input (Some (mkCapture (is_active s) (frames_to_discard s - 1)
      (preroll s)))) t).2 = view t); [|by rewrite E'].
    destruct Ht as [[H1 _ _ _] _]. rewrite Hc in H1. unfold view. simpl in *. rewrite Ha.
    by destruct (audio_input (capture t)) as [c|]; simpl in *; [rewrite <- H1|]. }
  eapply triple_read. intros pipeline. apply triple_forget.
  destruct (match pipeline with Some pl => _ | None => _ end) as [[suppress samples'] pipeline'].
  eapply triple_seq; [apply HP; quiets|]. eapply triple_read. intros bypass. apply triple_forget.
  eapply triple_read. intros was. set (b := suppress && negb bypass).
  eapply triple_seq with (Q := λ t, lit (negb b) was (view t)).
  - intros t [[([H1 H2 H3 H4] & Hg & Hd) Hc] ->]. unfold lit. simpl in *.
    destruct b, (was_transmitting (capture t)) eqn:Hw; simpl; split_and!; rewrite ?light_snoc; try done; try apply Hg; auto.
  - clearbody b. apply triple_if; intros ->; [apply suppressed_spec|apply transmitted_spec].
Qed.


Lemma handle_voice_datagram_quiet registry per_user defaults settings talking dec now id sq ts data eos (users : gmap N (Peer D P)) :
  Forall (λ e, match e with TransmittingChanged _ => False | _ => True end)
    (handle_voice_datagram (F:=F) (V:=V) registry per_user defaults settings talking dec now id sq ts data eos users).2.
Proof.
  unfold handle_voice_datagram. destruct eos; [constructor|]. destruct (match users !! id with Some _ => _ | None => _ end); [|constructor].
  simpl. destruct (bool_decide _); repeat constructor.
Qed.

Lemma datagram_spec (env : Env) i : triple invt (on_datagram env i) (on_view inv).
Proof.
  assert (Hn : triple invt (on_net (set_connection None) : M unit) (on_view inv)).
  { intros t ([H1 H2 H3 H4] & [H5 H6] & Hd). split_and!; [by split| |done]. split; [done|]. by intros ?. }
  destruct i as [[v|]| |]; [|by apply triple_ret|done|done]. apply triple_quiet. unfold on_datagram.
  keeps_step; [keeps_step|]. match goal with |- keeps _ (match _ with Some id => _ | None => _ end) => idtac end.
  destruct (vd_sender_id v) as [sender|]; [|keeps_step]. destruct (negb _ && negb _); [|keeps_step].
  match goal with |- keeps _ (let '(_, _) := handle_voice_datagram ?a ?b ?c ?d ?e ?f ?g ?h ?i ?j ?k ?l ?m in _) =>
    pose proof (handle_voice_datagram_quiet a b c d e f g h i j k l m) as Hq; destruct (handle_voice_datagram a b c d e f g h i j k l m) end.
  keeps_step; [by apply quiet_play|by apply quiet_emit_all].
Qed.

Lemma event_spec (env : Env) e : triple invt (handle_event env e) (on_view inv).
Proof.
  destruct e; simpl.
  - apply command_spec.
  - apply triple_quiet. unfold on_capture_message. quiets.
  - apply triple_read. intros connected. apply triple_forget, triple_if; intros _; [|by apply triple_ret].
    apply datagram_spec.
  - apply triple_quiet. unfold on_produce_tick. apply quiet_play. intros p. unfold fill_playback_ring.
    destruct (playback p) as [f|]; [|done]. cbn [fmap option_fmap option_map].
    by destruct (refill refill_rounds order (now env) (user_audio p) (sfx_queue p) (consumer f) (playback_overflows p)) as [[[? ?] ?] ?].
  - apply triple_quiet. unfold on_cleanup_tick. apply keeps_bind; [apply _|apply keeps_gets; apply _|]. intros users.
    apply keeps_bind; [apply _| |intros ?; by apply quiet_play]. apply quiet_emit_all, Forall_forall.
    intros e (u & _ & Hu)%list_elem_of_omap. by destruct (bool_decide _); simplify_eq.
  - apply health_spec.
  - apply triple_quiet, keeps_modify. done.
  - apply frame_spec.
  - apply triple_quiet, quiet_play. intros p. destruct (playback p) as [f|] eqn:Hp; [|by rewrite Hp].
    destruct (fill _ _ _ _) as [[? ?] ?]. by split.
Qed.

(** ** What is sent *)

Create HintDb appends.

(** All arms but one only append to the encoded channel. *)
Definition appends : relation Task := λ t t',
  sent (net t') = sent (net t) ∧ send_sequence (net t') = send_sequence (net t) ∧
  received (capture t') = received (capture t) ∧ encoded (capture t) `prefix_of` encoded (capture t').

#[local] Instance appends_preorder : PreOrder appends.
Proof.
  split; [by intros t|]. intros t1 t2 t3 (A1 & A2 & A3 & A4) (B1 & B2 & B3 & B4).
  split_and!; [congruence|congruence|congruence|by etrans].
Qed.

Lemma appends_capture f :
  (∀ c, received (f c) = received c ∧ encoded c `prefix_of` encoded (f c)) → keeps appends (on_capture f : M unit).
Proof. intros H. apply keeps_modify. intros t. destruct (H (capture t)). by split_and!. Qed.

Lemma appends_net f :
  (∀ n, sent (f n) = sent n ∧ send_sequence (f n) = send_sequence n) → keeps appends (on_net f : M unit).
Proof. intros H. apply keeps_modify. intros t. destruct (H (net t)). by split_and!. Qed.

Lemma appends_other f : (∀ t, net (f t) = net t ∧ capture (f t) = capture t) → keeps appends (modify f : M unit).
Proof. intros H. apply keeps_modify. intros t. destruct (H t) as [E1 E2]. unfold appends. by rewrite E1, E2. Qed.

Lemma appends_send m : keeps appends (send_encoded m : M unit).
Proof. apply appends_capture. intros c. split; [done|]. by exists [m]. Qed.

Local Ltac appending := repeat first [ keeps_step |
  lazymatch goal with
  | |- keeps _ (send_encoded _) => apply appends_send
  | |- keeps _ (on_capture _) => apply appends_capture; let c := fresh in intros c; first [done | by destruct (audio_input c)]
  | |- keeps _ (on_net _) => by apply appends_net
  | |- keeps _ (sync_transmission _) => solve [eauto with appends nocore]
  | |- keeps _ close_input => solve [eauto with appends nocore]
  | |- keeps _ (start_transmission _) => solve [eauto with appends nocore]
  | |- keeps _ _ => by apply appends_other
  end ].

Lemma appends_sync (env : Env) : keeps appends (sync_transmission env : M unit).
Proof. unfold sync_transmission, deactivate_capture, set_stream_active. appending. Qed.

Lemma appends_close : keeps appends (close_input : M unit).
Proof. unfold close_input, deactivate_capture, set_stream_active, stop_transmission. appending. Qed.

Lemma appends_start (env : Env) : keeps appends (start_transmission env : M (result unit)).
Proof. unfold start_transmission. appending. Qed.

#[local] Hint Resolve appends_sync appends_close appends_start : appends.

Lemma appends_command (env : Env) cmd : keeps appends (handle_command env cmd : M unit).
Proof.
  destruct cmd; simpl;
    unfold on_connection_established, on_connection_closed, on_set_input_device, on_set_output_device, on_set_voice_mode,
      on_set_deafened, on_set_server_muted, on_update_settings, on_update_tx_pipeline, on_reset_stats, on_update_rx_defaults, on_update_user_rx, on_clear_user_rx,
      on_set_user_volume, on_user_joined_room, on_user_left_room, on_room_changed, on_peer_left, on_play_sfx;
    unfold restart_input, open_input, stop_transmission, stop_talkers, emit_all, on_peer, create_peer; appending.
Qed.

Lemma appends_frame samples : keeps appends (on_frame samples : M unit).
Proof.
  unfold on_frame, suppressed_frame, transmitted_frame, encode_frame, with_preroll. appending.
Qed.

Lemma appends_event (env : Env) e : match e with CaptureReady => True | _ => keeps appends (handle_event env e : M unit) end.
Proof.
  destruct e; simpl; try exact I.
  - apply appends_command.
  - unfold on_datagram, emit_all. appending.
  - unfold on_produce_tick. appending.
  - unfold on_cleanup_tick, emit_all. appending.
  - unfold on_health_tick, recover_input, recover_output. appending.
  - unfold on_stats_tick. appending.
  - apply appends_frame.
  - unfold on_device_block. appending.
Qed.

Definition carries (m : CaptureMessage) (d : VoiceDatagram) : Prop := ∃ me sequence, d = datagram_of me sequence m.

(** The datagrams carry messages that were received, in their order, under
    consecutive numbers. *)
Definition sent_ok (t : Task) : Prop :=
  send_sequence (net t) = wrap_u32 (N.of_nat (List.length (sent (net t)))) ∧
  (received (capture t) ≤ List.length (encoded (capture t)))%nat ∧
  (∃ ms, ms `sublist_of` take (received (capture t)) (encoded (capture t)) ∧ Forall2 carries ms (sent (net t)).*2) ∧
  (∀ i c d, sent (net t) !! i = Some (c, d) → vd_sequence d = wrap_u32 (N.of_nat i)).

Lemma sent_ok_appends t t' : appends t t' → sent_ok t → sent_ok t'.
Proof.
  intros (E1 & E2 & E3 & [k E4]) (H1 & H2 & (ms & H3 & H4) & H5). unfold sent_ok. rewrite E1, E2, E3, E4.
  split_and!; [done|rewrite length_app; lia| |done]. exists ms. split; [|done]. by rewrite take_app_le.
Qed.

Lemma sent_ok_capture_message : keeps (under sent_ok) (on_capture_message : M unit).
Proof.
  intros t (H1 & H2 & (ms & H3 & H4) & H5). unfold on_capture_message, gets. unfold mbind, ST_bind.
  destruct (encoded (capture t) !! received (capture t)) as [m|] eqn:Hm; [|by repeat split; eauto].
  pose proof (lookup_lt_Some _ _ _ Hm) as Hlt. pose proof (take_S_r _ _ _ Hm) as Htake.
  destruct (connection (net t)) as [conn|] eqn:Hc; cbn; rewrite Hc; cbn.
  - assert (Hs : wrap_u32 (send_sequence (net t) + 1) = wrap_u32 (N.of_nat (S (List.length (sent (net t)))))).
    { rewrite H1. unfold wrap_u32. rewrite N.Div0.add_mod_idemp_l. f_equal. lia. }
    assert (Hgoal : ∀ t' : Task,
      sent (net t') = sent (net t) ++ [(conn, datagram_of (my_user_id (net t)) (send_sequence (net t)) m)] →
      send_sequence (net t') = wrap_u32 (send_sequence (net t) + 1) →
      received (capture t') = S (received (capture t)) → encoded (capture t') = encoded (capture t) → sent_ok t').
    { intros t' En1 En2 Et2 Et3. unfold sent_ok. rewrite Et2, Et3, En1, En2, Hs. split_and!.
      - rewrite length_app. simpl. by rewrite Nat.add_1_r.
      - lia.
      - exists (ms ++ [m]). rewrite Htake. split; [by apply sublist_app|]. rewrite fmap_app. apply Forall2_app; [done|].
        constructor; [by eexists _, _|constructor].
      - intros i c d Hi. apply lookup_app_Some in Hi as [Hi|[Hle Hi]]; [by eapply H5|].
        apply list_lookup_singleton_Some in Hi as [Hi [= <- <-]]. replace i with (List.length (sent (net t))) by lia.
        rewrite <- H1. by destruct m. }
    destruct m; apply Hgoal; reflexivity.
  - split_and!; [done|cbn; lia| |done]. exists ms. split; [|done]. cbn. rewrite Htake. by apply sublist_inserts_r.
Qed.

Lemma sent_ok_step (t : Task) e : sent_ok t → sent_ok (step t e).
Proof.
  intros H. unfold step. destruct (running t); [|done]. pose proof (appends_event e.1 e.2) as Ha.
  destruct e.2; try (by eapply sent_ok_appends; [apply Ha|]). by apply sent_ok_capture_message.
Qed.

(** ** What every reachable state satisfies *)

Theorem run_inv epoch settings opens es : inv (view (run epoch settings opens es : Task)).
Proof.
  unfold run. assert (H : inv (view (initial epoch settings opens : Task))).
  { split_and!; [by split|by split|by unfold deaf_ok]. }
  revert H. generalize (initial epoch settings opens : Task). induction es as [|[env e] es IH]; intros t Ht; [exact Ht|].
  apply IH. unfold step. destruct (running t); [|exact Ht]. by apply (event_spec env e).
Qed.

(** C32: Who must not be heard is not heard, and who has deafened hears nothing: in any
    state the audio task can reach by any sequence of commands, datagrams, ticks
    and device callbacks, with any answers of the surroundings, while the user is
    muted, muted by the server or has not pressed the key to talk, the microphone's
    callback changes nothing at all - it neither encodes nor sends, not even the
    pre-roll sees the frame - and nothing counts as transmitted; while the user is
    deafened there is no output stream and the output callback changes nothing
    either.  Otherwise, connected and with an open stream, capture is on. *)
Theorem muted_is_silent epoch settings opens es (env : Env) samples len :
  let t : Task := run epoch settings opens es in
  (self_muted (controls t) || server_muted (controls t) ||
    match voice_mode (controls t) with PushToTalk => negb (ptt_active (controls t)) | Continuous => false end = true →
   step t (env, Captured samples) = t ∧ was_transmitting (capture t) = false) ∧
  (self_deafened (controls t) = true → playback (play t) = None ∧ step t (env, DeviceBlock len) = t) ∧
  (self_muted (controls t) = false → server_muted (controls t) = false →
   match voice_mode (controls t) with PushToTalk => ptt_active (controls t) = true | Continuous => True end →
   is_Some (connection (net t)) → is_Some (audio_input (capture t)) → capture_is_active (capture t) = true).
Proof.
  intros t. pose proof (run_inv epoch settings opens es : inv (view t)) as ([H1 H2 H3 H4] & [H5 H6] & Hd).
  clearbody t. simpl in *. split_and!.
  - intros Hm. assert (Hoff : capture_is_active (capture t) = false).
    { apply not_true_is_false. intros Ha. specialize (H5 Ha). unfold wanted, should_capture in H5.
      by destruct (controls t) as [[|] [|] ? [|] [|]]. }
    split.
    + unfold step. destruct (running t); [|done]. simpl. unfold on_frame, gets. unfold mbind, ST_bind.
      rewrite Hoff in H1. destruct (audio_input (capture t)) as [c|]; [|done]. simpl in H1. by rewrite <- H1.
    + apply not_true_is_false. intros Hw. specialize (H2 Hw). congruence.
  - intros Hf. assert (Hp : playback (play t) = None).
    { specialize (Hd Hf). simpl in Hd. apply bool_decide_eq_false in Hd. by destruct (playback (play t)); [destruct Hd|]. }
    split; [done|]. unfold step. destruct (running t); [|done]. cbn. rewrite Hp. by destruct t.
  - intros Hm Hs Hv Hn Hi. apply H6.
    + by apply bool_decide_eq_true.
    + unfold wanted, should_capture. rewrite Hm, Hs. simpl. by destruct (voice_mode (controls t)).
    + by apply fmap_is_Some.
Qed.


(** What leaves the client is what the microphone gave, in order: in any state the
    audio task can reach, the [i]-th datagram ever handed to the transport has sequence number [i]
    modulo 2^32, across connections; and the datagrams carry, in this order and
    each at most once, messages of the encoded channel that have been received
    from it (those received without a connection are dropped): their data, their
    media timestamp and whether they end a stream are the message's. *)
Theorem datagrams_follow_capture epoch settings opens es :
  let t : Task := run epoch settings opens es in
  (∀ i c d, sent (net t) !! i = Some (c, d) → vd_sequence d = wrap_u32 (N.of_nat i)) ∧
  ∃ ms, ms `sublist_of` take (received (capture t)) (encoded (capture t)) ∧
    Forall2 (λ m d, ∃ me sequence, d = datagram_of me sequence m) ms (sent (net t)).*2.
Proof.
  intros t. assert (H : sent_ok t); [|by destruct H as (_ & _ & H & H')].
  unfold t, run. assert (H : sent_ok (initial epoch settings opens : Task)).
  { split_and!; [done|done| |done]. by exists []. }
  revert H. generalize (initial epoch settings opens : Task). induction es as [|e es IH]; intros t' Ht; [exact Ht|].
  by apply IH, sent_ok_step.
Qed.

End facts.

(** ** A session *)

#[local] Existing Instances PlaybackFacts.list_ring PlaybackFacts.loud_decoder PlaybackFacts.idle_processor PlaybackFacts.unit_libm.

Definition byte_encoder : VoiceEncoder unit := {| encode _ e := (Some [Byte.x01], e); apply_settings _ e := e |}.
Definition idle_factory : ProcessorFactory unit unit json := {|
  type_id _ := "idle"; display_name _ := "Idle"; description _ := ""; create_default _ := tt; create_from_config _ _ := Ok tt;
  settings_schema _ := JNumber "0"; outputs _ := []; default_settings _ := JNumber "0" |}.
#[local] Existing Instances byte_encoder idle_factory.

Abbreviation sample_task := (AudioTask.Task (D:=unit) (E:=unit) (P:=unit) (V:=json) (R:=PlaybackFacts.ListRing)).
Abbreviation sample_event := (AudioTask.Env (D:=unit) (E:=unit) (F:=unit) * Event (V:=json))%type.

(** Everything opens, at [now]. *)
Definition at_time (now : N) (e : Event (V:=json)) : sample_event :=
  (mkEnv now true true true true (λ _, Some tt) (λ _, Some tt) ∅ [] [] (∅ : ProcessorRegistry (F:=unit)), e).

Definition sample_settings : Settings (V:=json) := mkConf (mkSettings 64000 10 5 true 5) (mkPipelineConfig [] 960) (mkPipelineConfig [] 960) ∅.

Definition frame : list f32 := replicate 960 f32_zero.
Definition captured (n : nat) : list sample_event := replicate n (at_time 0 (Captured frame)).

(** Talking by voice; then muted, and deafened. *)
Definition talk : list sample_event :=
  [at_time 0 (Command (SetVoiceMode Continuous)); at_time 0 (Command (ConnectionEstablished 7 1))] ++ captured 5 ++
  [at_time 0 CaptureReady; at_time 0 CaptureReady].
Definition deafen : list sample_event := talk ++ [at_time 0 (Command (SetDeafened true))].

Abbreviation sample_run := (λ es : list sample_event, run 0 sample_settings true es : sample_task).

Lemma some_is {A} (x : option A) : match x with Some _ => true | None => false end = true → is_Some x.
Proof. by destruct x. Qed.

Lemma muted_is_silent_witness :
  let t := sample_run deafen in
  was_transmitting (capture t) = false ∧ playback (play t) = None ∧ capture_is_active (capture (sample_run talk)) = true.
Proof.
  pose proof (muted_is_silent 0 sample_settings true deafen (at_time 0 StatsTick).1 frame 960) as (H1 & H2 & _).
  pose proof (muted_is_silent 0 sample_settings true talk (at_time 0 StatsTick).1 frame 960) as (_ & _ & H3).
  split_and!.
  - apply H1. by vm_compute.
  - apply H2. by vm_compute.
  - apply H3; [by vm_compute..|vm_compute; exact I|apply some_is; by vm_compute|apply some_is; by vm_compute].
Defined.


(** Two frames were encoded after the three that are discarded, and both are sent. *)
Example talk_is_sent :
  map (λ d, (vd_sequence d.2, vd_timestamp_us d.2)) (sent (net (sample_run talk))) = [(0, 60000); (1, 80000)]%N.
Proof. by vm_compute. Qed.

Lemma datagrams_follow_capture_witness :
  ∃ ms, ms `sublist_of` take (received (capture (sample_run talk))) (encoded (capture (sample_run talk))) ∧
    Forall2 (λ m d, ∃ me sequence, d = datagram_of me sequence m) ms (sent (net (sample_run talk))).*2.
Proof. exact (proj2 (datagrams_follow_capture 0 sample_settings true talk)). Defined.

(** Undeafening without a connection does not bring the output back. *)
Example undeafened_without_output :
  let t := sample_run [at_time 0 (Command (SetDeafened true)); at_time 0 (Command (SetDeafened false))] in
  (self_deafened (controls t), bool_decide (is_Some (playback (play t))), bool_decide (is_Some (playback (play (sample_run []))))) =
  (false, false, true).
Proof. by vm_compute. Qed.

(** Unmuting while deafened: heard by everyone, hearing no one. *)
Example deafened_and_heard :
  let t := sample_run (deafen ++ [at_time 0 (Command (SetMuted false))] ++ captured 1) in
  (self_deafened (controls t), was_transmitting (capture t)) = (true, true).
Proof. by vm_compute. Qed.

(** What one connection left in the channel goes out on the next. *)
Example old_frames_on_new_connection :
  let t := sample_run (talk ++ captured 1 ++
    [at_time 0 (Command ConnectionClosed); at_time 0 (Command (ConnectionEstablished 8 2)); at_time 0 CaptureReady]) in
  map (λ d, (d.1, vd_timestamp_us d.2)) (drop 2 (sent (net t))) = [(8, 100000)]%N.
Proof. by vm_compute. Qed.

End AudioTaskFacts.
