(* ===== verification/MediaClock.v ===== *)
(** The media clock of the microphone (AudioTask.v): the timestamps of the voice
    frames that go out never repeat and never run back while a connection lasts,
    the pre-roll frames among them ([media_clock_advances]). *)
From Stdlib Require Import NArith ZArith Lia Sorted Floats.SpecFloat.
From stdpp Require Import base gmap list strings sorting.
From S2P Require Import Prelude Proto Pipeline Jitter PreRoll Playback PlaybackFacts AudioTask AudioTaskFacts.

Module MediaClock.
Import Proto Pipeline Jitter Playback AudioTask AudioTaskFacts.

(** The bounds within which no counter wraps: a clock of nanoseconds in 64 bits,
    and [MAX_EVENTS] events. *)
Definition CLOCK : N := 2 ^ 64 / 1000 / FRAME_US.
Definition MAX_EVENTS : N := 2 ^ 44.

Definition voice_ts (m : CaptureMessage) : option N :=
  match m with EncodedFrame _ _ ts => Some ts | EndOfStream _ => None end.

(** The timestamps of the voice frames among some messages. *)
Definition voices (l : list CaptureMessage) : list N := omap voice_ts l.

Lemma voices_app l k : voices (l ++ k) = voices l ++ voices k.
Proof. apply omap_app. Qed.

(** ** Lists *)

Lemma sublist_StronglySorted {A} (R : relation A) l k : l `sublist_of` k → StronglySorted R k → StronglySorted R l.
Proof.
  induction 1 as [|x l k H IH|x l k H IH]; [done| |]; intros [Hs Hx]%StronglySorted_inv; [|by apply IH].
  constructor; [by apply IH|]. apply Forall_forall. intros y Hy. eapply Forall_forall; [exact Hx|]. by eapply elem_of_sublist.
Qed.

Lemma StronglySorted_snoc l (x : N) : StronglySorted N.lt l → Forall (λ y, (y < x)%N) l → StronglySorted N.lt (l ++ [x]).
Proof.
  intros Hl Hx. apply StronglySorted_app_2; [|done|by repeat constructor].
  intros y z Hy Hz%list_elem_of_singleton. subst. by eapply Forall_forall in Hx.
Qed.

(** ** The pre-roll ring *)

Abbreviation ring := (PreRoll.PreRollRing (A:=f32)).

(** Its frames carry consecutive ticks of the media clock, none of them beyond
    [n]. *)
Definition ticks_below (n : N) (l : list N) : Prop := Forall (λ t, ∃ k, (k < n)%N ∧ t = (k * FRAME_US)%N) l.

Record ring_good (n : N) (r : ring) : Prop := {
  rg_ok : PreRoll.ring_ok r;
  rg_cap : (0 < List.length (PreRoll.slots r))%nat;
  rg_frame : PreRoll.frame_us r = FRAME_US;
  rg_run : PreRoll.run FRAME_US (PreRoll.contents r);
  rg_ticks : ticks_below n (PreRoll.timestamp_us <$> PreRoll.contents r) }.

Definition stamps (r : ring) : list N := PreRoll.timestamp_us <$> PreRoll.contents r.

Lemma ticks_below_mono n m l : (n ≤ m)%N → ticks_below n l → ticks_below m l.
Proof. intros Hnm H. eapply Forall_impl; [exact H|]. intros t (k & ? & ?). exists k. split; [lia|done]. Qed.

Lemma ring_good_mono n m r : (n ≤ m)%N → ring_good n r → ring_good m r.
Proof. intros Hnm [? ? ? ? ?]. split; try done. by eapply ticks_below_mono. Qed.

Lemma ring_good_new n : ring_good n (PreRoll.new PreRoll.PRE_ROLL_FRAMES FRAME_US).
Proof. split; [split; simpl; lia|simpl; lia|done|done|constructor]. Qed.

Lemma ring_good_reset n r : ring_good n r → ring_good n (PreRoll.mkRing (PreRoll.slots r) (PreRoll.head r) 0 (PreRoll.frame_us r)).
Proof. intros [[Ho _] ? ? ? ?]. split; [split; [exact Ho|simpl; lia]|done|done|done|constructor]. Qed.

Definition fits (n : N) : Prop := (n * FRAME_US < 2 ^ 64)%N.

(** A run of frames that fits in 64 bits is strictly increasing. *)
Lemma run_sorted n (q : list (PreRoll.Slot (A:=f32))) :
  fits n → ticks_below n (PreRoll.timestamp_us <$> q) → PreRoll.run FRAME_US q →
  StronglySorted N.lt (PreRoll.timestamp_us <$> q) ∧
  ∀ t, PreRoll.follows (PreRoll.timestamp_us <$> last q) FRAME_US t = true → (t < 2 ^ 64)%N →
    Forall (λ y, (y < t)%N) (PreRoll.timestamp_us <$> q).
Proof.
  intros Hn. induction q as [|x q IH] using rev_ind; intros Ht Hr; [by split; [constructor|]|].
  rewrite fmap_app in *. apply Forall_app in Ht as [Hq Hx]. apply PreRoll.run_snoc, PreRoll.run_before_iff in Hr as [Hf Hr].
  destruct (IH Hq Hr) as [Hs Hlt]. apply Forall_inv in Hx as (k & Hk & Ek). simpl in Ek.
  assert (Hxt : (PreRoll.timestamp_us x + FRAME_US < 2 ^ 64 + FRAME_US ∧ PreRoll.timestamp_us x < 2 ^ 64)%N).
  { unfold fits in Hn. rewrite Ek. split; nia. }
  specialize (Hlt _ Hf ltac:(lia)). split; [by apply StronglySorted_snoc|].
  intros t Hft Hmax. rewrite last_snoc in Hft. simpl in Hft. apply N.eqb_eq in Hft.
  assert (PreRoll.timestamp_us x < t)%N.
  { assert ((k + 1) * FRAME_US < 2 ^ 64)%N by (unfold fits in Hn; nia).
    unfold wrap_u64 in Hft. rewrite N.mod_small in Hft by (rewrite Ek; lia). unfold FRAME_US in *. lia. }
  apply Forall_app. split; [|by repeat constructor]. eapply Forall_impl; [exact Hlt|]. simpl. intros; lia.
Qed.

Section facts.
Context {D E F P V R : Type} `{!VoiceDecoder D f32} `{!VoiceEncoder E} {libm : Libm} `{!JsonValue V} `{!EqDecision V}
  `{!AudioProcessor P V} `{!ProcessorFactory F P V} `{!RingBuffer R}.
Abbreviation Task := (AudioTask.Task (D:=D) (E:=E) (P:=P) (V:=V) (R:=R)).
Abbreviation Env := (AudioTask.Env (D:=D) (E:=E) (F:=F)).
Abbreviation M := (ST Task).

Definition index (t : Task) : N := capture_frame_index (capture t).
Definition ring_of (t : Task) : option ring := preroll <$> audio_input (capture t).
Definition out (t : Task) : list CaptureMessage := encoded (capture t).
Definition fresh : ring := PreRoll.new PreRoll.PRE_ROLL_FRAMES FRAME_US.

(** ** Everything but the microphone's callback and a new connection *)

(** The clock does not run back, at most an end of stream is sent, and a ring that
    is not the old one is empty. *)
Definition advances : relation Task := λ t t',
  (index t ≤ index t' ≤ N.max (index t) CLOCK)%N ∧ (∃ l, out t' = out t ++ l ∧ voices l = []) ∧
  (ring_of t' = ring_of t ∨ ∀ r, ring_of t' = Some r → r = fresh).

#[local] Instance advances_preorder : PreOrder advances.
Proof.
  split.
  - intros t. split_and!; [lia|lia| |by left]. exists []. by rewrite app_nil_r.
  - intros t1 t2 t3 (A1 & (l & A2 & A3) & A4) (B1 & (k & B2 & B3) & B4). split_and!; [lia|lia| |].
    + exists (l ++ k). split; [by rewrite B2, A2, app_assoc|by rewrite voices_app, A3, B3].
    + destruct B4 as [->|?]; [done|by right].
Qed.

Lemma advances_other f : (∀ t, capture (f t) = capture t) → keeps advances (modify f : M unit).
Proof.
  intros H. apply keeps_modify. intros t. unfold advances, index, out, ring_of. rewrite (H t). split_and!; [lia|lia| |by left].
  exists []. by rewrite app_nil_r.
Qed.

Lemma advances_capture f :
  (∀ c, capture_frame_index (f c) = capture_frame_index c ∧ encoded (f c) = encoded c ∧
    (preroll <$> audio_input (f c) = preroll <$> audio_input c ∨ ∀ r, preroll <$> audio_input (f c) = Some r → r = fresh)) →
  keeps advances (on_capture f : M unit).
Proof.
  intros H. apply keeps_modify. intros t. destruct (H (capture t)) as (H1 & H2 & H3).
  unfold advances, index, out, ring_of. cbn. rewrite H1, H2. split_and!; [lia|lia| |done]. exists []. by rewrite app_nil_r.
Qed.

Lemma advances_eos ts : keeps advances (send_encoded (EndOfStream ts) : M unit).
Proof.
  apply keeps_modify. intros t. unfold advances, index, out, ring_of. cbn. split_and!; [lia|lia| |by left].
  by exists [EndOfStream ts].
Qed.

Lemma advances_clock (env : Env) : (now env < 2 ^ 64)%N → keeps advances (on_capture (λ c, set_capture_frame_index
  (N.max (capture_frame_index c) ((now env - capture_epoch c) / 1000 / FRAME_US)%N) c) : M unit).
Proof.
  intros Hn. apply keeps_modify. intros t. unfold advances, index, out, ring_of. cbn [capture set_capture set_capture_frame_index capture_frame_index].
  split_and!; [lia| |exists []; by rewrite app_nil_r|by left].
  apply N.max_le_compat_l. unfold CLOCK. apply N.Div0.div_le_mono, N.Div0.div_le_mono. lia.
Qed.

Local Ltac advancing := repeat first [ keeps_step |
  lazymatch goal with
  | |- keeps _ (send_encoded (EndOfStream _)) => apply advances_eos
  | |- keeps _ (on_capture (λ c, set_capture_frame_index (N.max _ _) c)) => by apply advances_clock
  | |- keeps _ (on_capture _) => apply advances_capture; let c := fresh in let Hc := fresh in intros c; cbn;
      destruct (audio_input c) eqn:Hc; cbn; rewrite ?Hc; cbn; by (split_and!; auto; right; intros ? [= <-])
  | |- keeps _ (sync_transmission _) => solve [eauto with advances nocore]
  | |- keeps _ close_input => solve [eauto with advances nocore]
  | |- keeps _ (start_transmission _) => solve [eauto with advances nocore]
  | |- keeps _ _ => by apply advances_other
  end ].

Create HintDb advances.

Lemma advances_sync (env : Env) : (now env < 2 ^ 64)%N → keeps advances (sync_transmission env : M unit).
Proof. intros H. unfold sync_transmission, deactivate_capture, set_stream_active. advancing. Qed.

Lemma advances_close : keeps advances (close_input : M unit).
Proof. unfold close_input, deactivate_capture, set_stream_active, stop_transmission. advancing. Qed.

Lemma advances_start (env : Env) : keeps advances (start_transmission env : M (result unit)).
Proof. unfold start_transmission. advancing. Qed.

#[local] Hint Resolve advances_sync advances_close advances_start : advances.

(** What follows the reset of the clock in [on_connection_established]. *)
Definition after_reset (env : Env) (datagram uid : N) (t : Task) : Task :=
  set_capture (set_capture_frame_index 0 (set_capture_epoch (now env) (capture t)))
    (set_net (set_my_user_id uid (set_connection (Some datagram) (net t))) t).

Lemma advances_established (env : Env) datagram uid t : (now env < 2 ^ 64)%N →
  advances (after_reset env datagram uid t) (on_connection_established env datagram uid t).2.
Proof.
  intros H. 
  match eval cbv [on_connection_established] in (on_connection_established env datagram uid : M unit) with
  | (_ ;; (_ ;; ?m)) => change (advances (after_reset env datagram uid t) (m (after_reset env datagram uid t)).2); assert (keeps advances m) as Hk; [|apply Hk]
  end.
  unfold open_input, open_playback. advancing.
Qed.

Lemma advances_command (env : Env) cmd : (now env < 2 ^ 64)%N →
  match cmd with ConnectionEstablished _ _ => True | _ => keeps advances (handle_command env cmd : M unit) end.
Proof.
  intros H. destruct cmd; try exact I; simpl;
    unfold on_connection_closed, on_set_input_device, on_set_output_device, on_set_voice_mode,
      on_set_deafened, on_set_server_muted, on_update_settings, on_update_tx_pipeline, on_reset_stats, on_update_rx_defaults,
      on_update_user_rx, on_clear_user_rx, on_set_user_volume, on_user_joined_room, on_user_left_room, on_room_changed, on_peer_left,
      on_play_sfx; unfold restart_input, open_input, stop_transmission, stop_talkers, emit_all, on_peer, create_peer; advancing.
Qed.

Lemma advances_event (env : Env) e : (now env < 2 ^ 64)%N →
  match e with
  | Command (ConnectionEstablished _ _) | Captured _ => True
  | _ => keeps advances (handle_event env e : M unit)
  end.
Proof.
  intros H. destruct e; simpl; try exact I.
  - apply advances_command; done.
  - unfold on_capture_message. advancing.
  - unfold on_datagram, emit_all. advancing.
  - unfold on_produce_tick. advancing.
  - unfold on_cleanup_tick, emit_all. advancing.
  - unfold on_health_tick, recover_input, recover_output. advancing.
  - unfold on_stats_tick. advancing.
  - unfold on_device_block. advancing.
Qed.

(** ** The microphone's callback *)

(** Encoding leaves the clock and the stream alone and sends at most the frames
    given. *)
Definition emits (stamps : list N) (t t' : Task) : Prop :=
  index t' = index t ∧ audio_input (capture t') = audio_input (capture t) ∧
  ∃ l, out t' = out t ++ l ∧ voices l `sublist_of` stamps.

Lemma emits_trans l k t t' t'' : emits l t t' → emits k t' t'' → emits (l ++ k) t t''.
Proof.
  intros (A1 & A2 & m & A3 & A4) (B1 & B2 & n & B3 & B4). split_and!; [congruence|congruence|].
  exists (m ++ n). rewrite B3, A3, voices_app, app_assoc. split; [done|by apply sublist_app].
Qed.

Lemma emits_nothing l (t t' : Task) : index t' = index t → audio_input (capture t') = audio_input (capture t) → out t' = out t → emits l t t'.
Proof. intros H1 H2 H3. split_and!; [done|done|]. exists []. rewrite app_nil_r. split; [done|apply sublist_nil_l]. Qed.

Lemma encode_frame_emits samples ts (t : Task) : emits [ts] t (encode_frame samples ts t).2.
Proof.
  unfold encode_frame, gets. unfold mbind, ST_bind. destruct (encoder (capture t)) as [enc|]; [|by apply emits_nothing].
  destruct (encode samples enc) as [[data|] enc']; [|by apply emits_nothing]. split_and!; [done|done|]. by eexists.
Qed.

Lemma encode_all_emits (l : list (PreRoll.Slot (A:=f32))) (t : Task) :
  emits (PreRoll.timestamp_us <$> l) t (for_each l (λ f, encode_frame (PreRoll.samples f) (PreRoll.timestamp_us f)) t).2.
Proof.
  revert t. induction l as [|x l IH]; intros t; [by apply emits_nothing|].
  cbn [for_each]. unfold mbind, ST_bind. pose proof (encode_frame_emits (PreRoll.samples x) (PreRoll.timestamp_us x) t) as H.
  destruct (encode_frame _ _ t) as [[] t']. exact (emits_trans [_] _ _ _ _ H (IH t')).
Qed.

(** What one frame does to the clock, the messages and the ring [r]. *)
Inductive frame_effect (ts : N) (r : ring) (t t' : Task) : Prop :=
  | frame_kept (H : out t' = out t) (Hr : ring_of t' = Some r)
  | frame_pushed l samples (H : out t' = out t ++ l) (Hl : voices l = []) (Hr : ring_of t' = Some (PreRoll.push ts samples r))
  | frame_sent l (H : out t' = out t ++ l)
      (Hl : voices l `sublist_of` (PreRoll.timestamp_us <$> (PreRoll.flush_into ts r).1) ++ [ts])
      (Hr : ring_of t' = Some (PreRoll.flush_into ts r).2).

Lemma with_preroll_ring r (t : Task) : is_Some (audio_input (capture t)) →
  index (with_preroll r t).2 = index t ∧ out (with_preroll r t).2 = out t ∧ ring_of (with_preroll r t).2 = Some r.
Proof. intros [c Hc]. unfold index, out, ring_of. cbn. by rewrite Hc. Qed.

Lemma suppressed_effect samples ts was s (t : Task) : audio_input (capture t) = Some s →
  let t' := (suppressed_frame samples ts was s t).2 in index t' = index t ∧ frame_effect ts (preroll s) t t'.
Proof.
  intros Hs. cbn zeta.
  assert (Htail : ∀ (t1 : Task) l, index t1 = index t → audio_input (capture t1) = audio_input (capture t) → out t1 = out t ++ l →
    voices l = [] → let t' := (with_preroll (PreRoll.push ts samples (preroll s)) t1).2 in
    index t' = index t ∧ frame_effect ts (preroll s) t t').
  { intros t1 l H1 H2 H3 H4.
    destruct (with_preroll_ring (PreRoll.push ts samples (preroll s)) t1) as (E1 & E2 & E3); [by rewrite H2, Hs|].
    split; [congruence|]. eapply frame_pushed; [by rewrite E2, H3|done|exact E3]. }
  destruct was; [by apply (Htail _ [EndOfStream ts])|]. apply (Htail t []); by rewrite ?app_nil_r.
Qed.

Lemma transmitted_effect samples ts s (t : Task) : audio_input (capture t) = Some s →
  let t' := (transmitted_frame samples ts s t).2 in index t' = index t ∧ frame_effect ts (preroll s) t t'.
Proof.
  intros Hs. cbn zeta. unfold transmitted_frame, on_capture, modify, gets. unfold mbind, ST_bind. cbv beta iota.
  set (t0 := set_capture _ t). assert (H0 : index t0 = index t ∧ out t0 = out t ∧ audio_input (capture t0) = Some s) by done.
  clearbody t0. destruct H0 as (H1 & H2 & H3).
  destruct (encoder (capture t0)) as [enc|]; [|split; [exact H1|apply frame_kept; [exact H2|change (ring_of t0 = Some (preroll s)); unfold ring_of; by rewrite H3]]].
  destruct (PreRoll.flush_into ts (preroll s)) as [slots r] eqn:Hf.
  pose proof (encode_all_emits slots t0) as He. destruct (for_each slots _ t0) as [[] t1]. simpl in He. destruct He as (E1 & E2 & l & E3 & E4).
  destruct (with_preroll_ring r t1) as (F1 & F2 & F3); [by rewrite E2, H3|]. destruct (with_preroll r t1) as [[] t2]. simpl in F1, F2, F3.
  change (index (encode_frame samples ts t2).2 = index t ∧ frame_effect ts (preroll s) t (encode_frame samples ts t2).2).
  destruct (encode_frame_emits samples ts t2) as (G1 & G2 & k & G3 & G4). split; [congruence|].
  apply frame_sent with (l := l ++ k); rewrite ?Hf; simpl.
  - by rewrite G3, F2, E3, H2, app_assoc.
  - rewrite voices_app. by apply sublist_app.
  - unfold ring_of in *. by rewrite G2.
Qed.

(** ** The invariant *)

(** After [n] events, the last of them since the channel held [base]: what has been
    added is ticks of the clock in order, all behind it, and the ring holds only
    later ones. *)
Record clock_ok (n : N) (base : list CaptureMessage) (t : Task) : Prop := {
  ck_index : (index t ≤ CLOCK + n)%N;
  ck_ring : ∀ r, ring_of t = Some r → ring_good (CLOCK + n) r;
  ck_new : ∃ new, out t = base ++ new ∧ StronglySorted N.lt (voices new) ∧ ticks_below (index t) (voices new) ∧
    ∀ r, ring_of t = Some r → ∀ v x, v ∈ voices new → x ∈ stamps r → (v < x)%N }.

Lemma clock_ok_mono n m base t : (n ≤ m)%N → clock_ok n base t → clock_ok m base t.
Proof.
  intros Hnm [H1 H2 H3]. split; [lia| |done]. intros r Hr. eapply ring_good_mono; [|by apply H2]. lia.
Qed.

(** Any moment may be the base. *)
Lemma clock_ok_rebase n base t : clock_ok n base t → clock_ok n (out t) t.
Proof.
  intros [H1 H2 _]. split; [done|done|]. exists []. rewrite app_nil_r. split_and!; [done|constructor|constructor|].
  intros r _ v x Hv. by apply not_elem_of_nil in Hv.
Qed.

Lemma clock_ok_advances n base t t' : advances t t' → clock_ok n base t → clock_ok n base t'.
Proof.
  intros ([A1 A2] & (l & A3 & A4) & A5) [H1 H2 (new & H3 & H4 & H5 & H6)]. split.
  - lia.
  - intros r Hr. destruct A5 as [E1|E1]; [apply H2; by rewrite <- E1|]. rewrite (E1 r Hr). apply ring_good_new.
  - exists (new ++ l). rewrite voices_app, A4, app_nil_r. split_and!; [by rewrite A3, H3, app_assoc|done| |].
    + by eapply ticks_below_mono.
    + intros r Hr v x Hv Hx. destruct A5 as [E1|E1]; [eapply H6; [by rewrite <- E1|done|done]|].
      rewrite (E1 r Hr) in Hx. by apply not_elem_of_nil in Hx.
Qed.

Lemma ticks_lt n l k : ticks_below n l → (n ≤ k)%N → Forall (λ y, (y < k * FRAME_US)%N) l.
Proof. intros H Hk. eapply Forall_impl; [exact H|]. intros t (i & Hi & ->). unfold FRAME_US. lia. Qed.

(** A frame pushed behind what it continues. *)
Lemma push_good n i samples r : (i < n)%N → ring_good n r →
  ring_good n (PreRoll.push (i * FRAME_US) samples r) ∧
  ∀ x, x ∈ stamps (PreRoll.push (i * FRAME_US) samples r) → x ∈ stamps r ∨ x = (i * FRAME_US)%N.
Proof.
  intros Hi [R1 R2 R3 R4 R5]. destruct (PreRoll.push_refines (i * FRAME_US) samples r R1 R2) as (P1 & P2 & P3 & P4).
  unfold stamps. rewrite R3 in P1. unfold PreRoll.enqueue, PreRoll.keep_last in P1. cbn [PreRoll.timestamp_us] in P1.
  set (q0 := if PreRoll.follows _ _ _ then _ else _) in P1. set (x := PreRoll.mkSlot _ samples) in P1.
  assert (Hq : PreRoll.run FRAME_US (q0 ++ [x]) ∧ q0 ⊆ PreRoll.contents r).
  { unfold q0. destruct (PreRoll.follows _ _ _) eqn:Hf; (split; [apply PreRoll.run_snoc, PreRoll.run_before_iff; by split|set_solver]). }
  destruct Hq as [Hq Hsub]. assert (Hin : ∀ y, y ∈ PreRoll.contents (PreRoll.push (i * FRAME_US) samples r) → y ∈ PreRoll.contents r ∨ y = x).
  { intros y Hy. rewrite P1 in Hy. apply (sublist_subseteq _ _ (sublist_drop _ _)), elem_of_app in Hy.
    destruct Hy as [Hy|Hy%list_elem_of_singleton]; [left; by apply Hsub|by right]. }
  split.
  - split; [done|lia|congruence|rewrite P1; by apply PreRoll.run_drop|]. apply Forall_forall.
    intros y (z & -> & Hz)%list_elem_of_fmap. destruct (Hin z Hz) as [Hz'| ->]; [|by exists i].
    eapply Forall_forall in R5; [exact R5|]. apply list_elem_of_fmap. by exists z.
  - intros y (z & -> & Hz)%list_elem_of_fmap. destruct (Hin z Hz) as [Hz'| ->]; [left|by right].
    apply list_elem_of_fmap. by exists z.
Qed.

(** What a flush at tick [i] hands out. *)
Lemma flushed_good n i r : fits (n + 1) → (i ≤ n)%N → ring_good n r →
  let q := match last (PreRoll.contents r) with
           | Some x => if PreRoll.follows (Some (PreRoll.timestamp_us x)) (PreRoll.frame_us r) (i * FRAME_US) then PreRoll.contents r else []
           | None => [] end in
  let l := PreRoll.timestamp_us <$> q in
  StronglySorted N.lt l ∧ Forall (λ y, (y < i * FRAME_US)%N) l ∧ ticks_below i l ∧ l ⊆ stamps r.
Proof.
  intros Hfit Hi [R1 R2 R3 R4 R5]. cbv zeta.
  destruct (last (PreRoll.contents r)) as [x|] eqn:El; [|cbn; split_and!; [constructor..|apply list_subseteq_nil]].
  destruct (PreRoll.follows _ _ _) eqn:Ef; [|cbn; split_and!; [constructor..|apply list_subseteq_nil]]. rewrite R3 in Ef.
  destruct (run_sorted n (PreRoll.contents r)) as [S1 S2]; [unfold fits in *; lia|done|done|].
  specialize (S2 (i * FRAME_US)%N). rewrite El in S2. specialize (S2 Ef ltac:(unfold fits in *; nia)).
  split_and!; [done|done| |done]. apply Forall_forall. intros y Hy. 
  destruct (proj1 (Forall_forall _ _) R5 y Hy) as (k & Hk & ->). exists k. split; [|done].
  pose proof (proj1 (Forall_forall _ _) S2 _ Hy) as Hlt. simpl in Hlt. unfold FRAME_US in Hlt. lia.
Qed.

Lemma clock_ok_effect n base t t' r :
  fits (CLOCK + n + 1) → ring_of t = Some r → clock_ok n base t → index t' = (index t + 1)%N →
  frame_effect (index t * FRAME_US) r t t' → clock_ok (n + 1) base t'.
Proof.
  intros Hfit Hr [H1 H2 (new & H3 & H4 & H5 & H6)] Hi He. specialize (H2 r Hr). specialize (H6 r Hr).
  assert (H2' : ring_good (CLOCK + (n + 1)) r) by (eapply ring_good_mono; [|exact H2]; lia).
  assert (Hlt : Forall (λ y, (y < index t * FRAME_US)%N) (voices new)) by (eapply ticks_lt; [exact H5|lia]).
  assert (H5' : ticks_below (index t') (voices new)) by (eapply ticks_below_mono; [|exact H5]; lia).
  destruct He as [Ho Hr'|l samples Ho Hl Hr'|l Ho Hl Hr'].
  - split; [lia|by intros ? [= <-]%(eq_trans (eq_sym Hr'))|]. exists new. split_and!; [by rewrite Ho|done|done|].
    by intros ? [= <-]%(eq_trans (eq_sym Hr')).
  - destruct (push_good (CLOCK + (n + 1)) (index t) samples r ltac:(lia) H2') as [P1 P2].
    split; [lia|by intros ? [= <-]%(eq_trans (eq_sym Hr'))|]. exists (new ++ l). rewrite voices_app, Hl, app_nil_r.
    split_and!; [by rewrite Ho, H3, app_assoc|done|done|]. intros ? [= <-]%(eq_trans (eq_sym Hr')) v x Hv Hx.
    destruct (P2 x Hx) as [Hx'| ->]; [by apply H6|]. by eapply Forall_forall in Hlt.
  - rewrite PreRoll.flush_refines in Hl, Hr'. simpl in Hl, Hr'.
    pose proof (ring_good_reset _ _ H2') as Hreset. destruct H2 as [R1 R2 R3 R4 R5].
    set (q := match last _ with Some _ => _ | None => _ end) in Hl.
    destruct (flushed_good (CLOCK + n) (index t) r) as (Q1 & Q2 & Q3 & Q4); [by unfold fits in *; lia|lia|by split|].
    fold q in Q1, Q2, Q3, Q4.
    split; [lia|by intros ? [= <-]%(eq_trans (eq_sym Hr'))|]. exists (new ++ l). rewrite voices_app.
    assert (Hs : voices new ++ voices l `sublist_of` (voices new ++ (PreRoll.timestamp_us <$> q)) ++ [(index t * FRAME_US)%N]).
    { rewrite <- app_assoc. by apply sublist_app. }
    split_and!.
    + by rewrite Ho, H3, app_assoc.
    + eapply sublist_StronglySorted; [exact Hs|]. apply StronglySorted_snoc; [|by apply Forall_app].
      apply StronglySorted_app_2; [|done|done]. intros v x Hv Hx. apply H6; [done|by apply Q4].
    + unfold ticks_below. apply Forall_app. split; [done|]. apply Forall_forall. intros y Hy. 
      apply (sublist_subseteq _ _ Hl), elem_of_app in Hy as [Hy|Hy%list_elem_of_singleton]; [|exists (index t); split; [lia|done]].
      destruct (proj1 (Forall_forall _ _) Q3 y Hy) as (k & Hk & ->). exists k. split; [lia|done].
    + intros ? [= <-]%(eq_trans (eq_sym Hr')) v x _ Hx. by apply not_elem_of_nil in Hx.
Qed.

Lemma frame_effect_from ts r (t1 t t' : Task) : out t1 = out t → frame_effect ts r t1 t' → frame_effect ts r t t'.
Proof.
  intros E1 He. destruct He as [Ho Hr|l samples Ho Hl Hr|l Ho Hl Hr]; rewrite E1 in Ho;
    [by apply frame_kept|by eapply frame_pushed|by eapply frame_sent].
Qed.

Lemma on_frame_effect samples (t : Task) :
  (on_frame samples t).2 = t ∨
  ∃ s, audio_input (capture t) = Some s ∧ index (on_frame samples t).2 = wrap_u64 (index t + 1) ∧
    frame_effect (wrap_u64 (index t * FRAME_US)) (preroll s) t (on_frame samples t).2.
Proof.
  unfold on_frame, gets. unfold mbind, ST_bind. cbv beta iota.
  destruct (audio_input (capture t)) as [s|] eqn:Hs; [|by left]. destruct (negb (is_active s)); [by left|]. right. exists s. split; [done|].
  change (on_capture (set_capture_frame_index (wrap_u64 (capture_frame_index (capture t) + 1))) t)
    with (tt, set_capture (set_capture_frame_index (wrap_u64 (index t + 1)) (capture t)) t). fold (index t). cbv beta iota.
  set (t1 := set_capture (set_capture_frame_index _ _) t).
  assert (H1 : index t1 = wrap_u64 (index t + 1) ∧ out t1 = out t ∧ audio_input (capture t1) = Some s) by done. clearbody t1.
  destruct H1 as (H1 & H2 & H3). destruct (0 <? frames_to_discard s)%N; [split; [exact H1|by apply frame_kept]|].
  destruct (match tx_pipeline (capture t1) with Some pl => _ | None => _ end) as [[suppress smp] pl].
  change (on_capture (set_tx_pipeline pl) t1) with (tt, set_capture (set_tx_pipeline pl (capture t1)) t1). cbv beta iota.
  set (t2 := set_capture (set_tx_pipeline _ _) t1).
  assert (H4 : index t2 = index t1 ∧ out t2 = out t1 ∧ audio_input (capture t2) = audio_input (capture t1)) by done. clearbody t2.
  destruct H4 as (H4 & H5 & H6).
  assert (Htail : ∀ (t3 : Task) (b : bool) was, capture t3 = capture t2 →
    let t' := ((if b then suppressed_frame smp (wrap_u64 (index t * FRAME_US)) was s
                else transmitted_frame smp (wrap_u64 (index t * FRAME_US)) s) t3).2 in
    index t' = wrap_u64 (index t + 1) ∧ frame_effect (wrap_u64 (index t * FRAME_US)) (preroll s) t t').
  { intros t3 b was H7. assert (Hs3 : audio_input (capture t3) = Some s) by congruence.
    assert (H8 : index t3 = wrap_u64 (index t + 1) ∧ out t3 = out t) by (unfold index, out in *; rewrite H7; split; congruence).
    destruct H8 as [H8 H9]. destruct b; cbn zeta.
    - edestruct suppressed_effect as [S1 S2]; [exact Hs3|]. split; [by etrans; [exact S1|]|]. by eapply frame_effect_from.
    - edestruct transmitted_effect as [S1 S2]; [exact Hs3|]. split; [by etrans; [exact S1|]|]. by eapply frame_effect_from. }
  destruct (negb (eqb _ _)); by apply Htail.
Qed.

Lemma clock_ok_frame n base samples t : fits (CLOCK + n + 1) → clock_ok n base t → clock_ok (n + 1) base (on_frame samples t).2.
Proof.
  intros Hfit Hok. destruct (on_frame_effect samples t) as [E1|(s & Hs & Hi & He)].
  { rewrite E1. eapply clock_ok_mono; [|exact Hok]. lia. }
  pose proof (ck_index _ _ _ Hok) as Hidx. unfold fits in Hfit.
  unfold wrap_u64 in Hi, He. rewrite N.mod_small in Hi by (unfold FRAME_US in *; lia). rewrite N.mod_small in He by (unfold FRAME_US in *; lia).
  eapply clock_ok_effect; [exact Hfit| |exact Hok|exact Hi|exact He]. unfold ring_of. by rewrite Hs.
Qed.

(** A new connection starts a new clock; what holds of the ring stays. *)
Lemma clock_ok_established n base (env : Env) datagram uid t : (now env < 2 ^ 64)%N → clock_ok n base t →
  let t' := (on_connection_established env datagram uid t).2 in clock_ok n (out t') t'.
Proof.
  intros Hn [H1 H2 _]. cbn zeta. eapply clock_ok_rebase, clock_ok_advances; [by apply advances_established|].
  split; [cbn; lia|done|]. exists []. split_and!; [symmetry; apply app_nil_r|constructor|constructor|].
  intros r _ v x Hv. by apply not_elem_of_nil in Hv.
Qed.

Definition reconnects (e : Env * Event (V:=V)) : bool :=
  match e.2 with Command (ConnectionEstablished _ _) => true | _ => false end.

Lemma clock_ok_step n base t e : (now e.1 < 2 ^ 64)%N → fits (CLOCK + n + 1) → clock_ok n base t →
  clock_ok (n + 1) (if reconnects e then out (step t e) else base) (step t e).
Proof.
  intros Hn Hfit Hok. unfold step. destruct (running t).
  - destruct (reconnects e) eqn:He.
    + destruct e as [env e]. unfold reconnects in He. simpl in *.
      destruct e as [[datagram uid| | | | | | | | | | | | | | | | | | | | | | | | |]| | | | | | | |]; try discriminate He.
      eapply clock_ok_mono; [|by eapply clock_ok_established]. lia.
    + pose proof (advances_event e.1 e.2 Hn) as Ha. unfold reconnects in He.
      destruct e as [env e]. simpl in *. destruct e as [cmd| | | | | | |samples|]; try (by apply clock_ok_frame);
        (eapply clock_ok_mono; [|eapply clock_ok_advances; [|exact Hok]]; [lia|]); try by apply Ha.
      destruct cmd; by apply Ha || discriminate He.
  - eapply clock_ok_mono with (n := n); [lia|]. destruct (reconnects e); [by eapply clock_ok_rebase|done].
Qed.

(** Within [MAX_EVENTS] events nothing wraps. *)
Lemma fits_within n : (n < MAX_EVENTS)%N → fits (CLOCK + n + 1).
Proof. unfold fits, MAX_EVENTS. assert (CLOCK = 922337203685)%N as -> by reflexivity. unfold FRAME_US. lia. Qed.

Lemma clock_ok_run es : ∀ n base t, (n + N.of_nat (List.length es) ≤ MAX_EVENTS)%N →
  Forall (λ e : Env * Event, now e.1 < 2 ^ 64)%N es → clock_ok n base t →
  let t' := fold_left step es t in let m := (n + N.of_nat (List.length es))%N in
  (∃ base', clock_ok m base' t') ∧ (Forall (λ e, reconnects e = false) es → clock_ok m base t').
Proof.
  induction es as [|e es IH]; intros n base t Hm Hn Hok; cbn [fold_left List.length] in *.
  { rewrite N.add_0_r. by split; [exists base|]. }
  apply Forall_cons in Hn as [Hn Hns]. pose proof (clock_ok_step n base t e Hn (fits_within n ltac:(lia)) Hok) as Hs.
  destruct (IH (n + 1)%N _ _ ltac:(lia) Hns Hs) as [IH1 IH2]. replace (n + N.of_nat (S _))%N with (n + 1 + N.of_nat (List.length es))%N by lia.
  split; [done|]. intros [He Hes]%Forall_cons. rewrite He in IH2. by apply IH2.
Qed.

(** C34: The media clock of what is sent runs forward for as long as a connection lasts,
    pre-roll and all: whatever happens before - including other connections, whose
    suppressed frames may still be in the pre-roll ring - the voice frames given to
    the network half during any further events that are not a new connection carry
    strictly increasing timestamps, each a whole number of frames below the current
    frame index.  So none is sent twice and none after a later one, however often
    the gate opens and closes, the stream is reopened or capture stops and starts
    again.  The counters are assumed not to wrap: a nanosecond clock within 64 bits
    and at most 2^44 events, ten thousand years of frames. *)
Theorem media_clock_advances epoch settings opens (es es' : list (Env * Event)) :
  (N.of_nat (List.length es + List.length es') ≤ MAX_EVENTS)%N →
  Forall (λ e, now e.1 < 2 ^ 64)%N (es ++ es') →
  Forall (λ e, reconnects e = false) es' →
  let t : Task := run epoch settings opens es in
  let t' : Task := run epoch settings opens (es ++ es') in
  ∃ new, encoded (capture t') = encoded (capture t) ++ new ∧ StronglySorted N.lt (voices new) ∧
    Forall (λ ts, ∃ k, (k < capture_frame_index (capture t'))%N ∧ ts = (k * FRAME_US)%N) (voices new).
Proof.
  intros Hm [Hn Hn']%Forall_app Hr. cbv zeta. unfold run. rewrite fold_left_app.
  set (t0 := initial epoch settings opens : Task).
  assert (H0 : clock_ok 0 [] t0).
  { split; [cbn; lia|done|]. exists []. split_and!; [done|constructor|constructor|done]. }
  destruct (clock_ok_run es 0 [] t0 ltac:(lia) Hn H0) as [[base H1] _]. apply clock_ok_rebase in H1.
  destruct (clock_ok_run es' (0 + N.of_nat (List.length es))%N _ _ ltac:(lia) Hn' H1) as [_ H2]. destruct (H2 Hr) as [_ _ (new & N1 & N2 & N3 & _)].
  by exists new.
Qed.

End facts.

#[local] Existing Instances PlaybackFacts.list_ring PlaybackFacts.loud_decoder PlaybackFacts.idle_processor PlaybackFacts.unit_libm
  byte_encoder idle_factory.

(** Muted and unmuted in the middle of a talk. *)
Definition pause : list sample_event :=
  [at_time 0 (Command (SetMuted true)); at_time 0 (Command (SetMuted false))] ++ captured 2.

Lemma media_clock_advances_witness :
  ∃ new, encoded (capture (sample_run (talk ++ pause))) = encoded (capture (sample_run talk)) ++ new ∧ StronglySorted N.lt (voices new).
Proof.
  destruct (media_clock_advances 0 sample_settings true talk pause) as (new & H1 & H2 & _).
  - apply (N.leb_le _ _). by vm_compute.
  - apply Forall_forall. intros e He. assert (Hall : forallb (λ e : sample_event, (now e.1 <? 2 ^ 64)%N) (talk ++ pause) = true) by (by vm_compute).
    apply (proj1 (List.forallb_forall _ _)) with (x := e) in Hall; [by apply N.ltb_lt in Hall|by apply list_elem_of_In].
  - apply Forall_forall. intros e He. assert (Hall : forallb (λ e : sample_event, negb (reconnects e)) pause = true) by (by vm_compute).
    apply (proj1 (List.forallb_forall _ _)) with (x := e) in Hall; [by apply negb_true_iff in Hall|by apply list_elem_of_In].
  - exists new. by split.
Defined.

Example pause_is_heard : voices (encoded (capture (sample_run (talk ++ pause)))) = [60000; 80000; 100000; 120000]%N.
Proof. by vm_compute. Qed.

End MediaClock.
