(* ===== verification/Handshake.v ===== *)
(** How a client joins a server: trust in the server's certificate
    ([crates/rumble-desktop/src/cert_verifier.rs],
    [crates/rumble-client-traits/src/cert.rs] and the connection set-up of
    [crates/rumble-desktop/src/transport.rs]), the waits of
    [crates/rumble-client-traits/src/auth.rs], [connect_to_server] of
    [crates/rumble-client/src/handle.rs] and the bridge's [connect]
    ([crates/mumble-bridge/src/rumble_client.rs]).

    A handshake is a function of what the surroundings do in the meantime, a
    [Net]: what the connection attempt meets, which writes fail, and the frames
    that arrive before the caller's timeout.  A handshake still waiting when the
    frames are used up is [Pending].  rustls, quinn, the file system, the clock and
    the random session key are parts of [Net] and arguments.  An [anyhow] error is
    the list of its messages, the outermost first. *)
From Stdlib Require Import NArith ZArith String.
From stdpp Require Import base list strings.
From S2P Require Import Prelude Proto Types Wire State World Client.

Module Handshake.
Open Scope string_scope.
Open Scope list_scope.

(** ** Results *)

Definition Error := list string.

Inductive outcome (A : Type) := Done (a : A) | Failed (e : Error) | Pending.
Arguments Done {A}.
Arguments Failed {A}.
Arguments Pending {A}.

Definition and_then {A B} (r : outcome A) (k : A → outcome B) : outcome B :=
  match r with Done a => k a | Failed e => Failed e | Pending => Pending end.

Definition to_string (e : Error) : string := match e with m :: _ => m | [] => "" end.

(** [str::contains]. *)
Definition mentions (pattern text : string) : bool :=
  match String.index 0 pattern text with Some _ => true | None => false end.

Definition is_cert_error_message (e : Error) : bool :=
  existsb (λ msg, mentions "UnknownIssuer" msg || mentions "BadSignature" msg
                  || mentions "invalid peer certificate" msg) e.

(** ** Certificates *)

Record ServerCertInfo := mkCertInfo { certificate_der : bytes; fingerprint : array 32; server_name : string }.

(** [format!("{:02X}")]. *)
Definition upper_digit (n : N) : string :=
  string_of_list_byte [byte_of_N (if (n <? 10)%N then 48 + n else 55 + n)].
Definition hex2 (b : byte) : string := upper_digit (N_of_byte b / 16) +:+ upper_digit (N_of_byte b mod 16).

Fixpoint pairs (l : list string) : list string :=
  match l with
  | a :: b :: l => (a +:+ b) :: pairs l
  | l => l
  end.
Definition fingerprint_hex (f : array 32) : string := String.concat ":" (pairs (hex2 <$> arr f)).
Definition fingerprint_short (f : array 32) : string := String.concat ":" (take 8 (hex2 <$> arr f)).
Definition display (i : ServerCertInfo) : string :=
  "Certificate for '" +:+ server_name i +:+ "' (fingerprint: " +:+ fingerprint_short (fingerprint i) +:+ "...)".

(** rustls' errors, as far as the verifier tells them apart. *)
Inductive CertificateError := UnknownIssuer | BadSignature | NotValidForName | NotValidForNameContext | OtherCertificateError.
Inductive TlsError := InvalidCertificate (e : CertificateError) | OtherTlsError (e : string).
#[export] Instance certificate_error_eq_dec : EqDecision CertificateError.
Proof. solve_decision. Defined.
#[export] Instance tls_error_eq_dec : EqDecision TlsError.
Proof. solve_decision. Defined.

(** The name a certificate is checked against; an IP address with its [Debug] text. *)
Inductive ServerName := DnsName (name : string) | IpAddress (debug : string) | UnknownName.
Definition server_name_str (n : ServerName) : string :=
  match n with DnsName name => name | IpAddress ip => ip | UnknownName => "unknown" end.

(** WebPKI over a set of roots judges a leaf certificate for a name. *)
Definition WebPki := bytes → ServerName → option TlsError.

Section trust.
Context `{!External}.

Definition compute_sha256_fingerprint (cert_der : bytes) : array 32 := ext_sha256 cert_der.

Definition ServerCertInfo_new (cert_der : bytes) (server_name : string) : ServerCertInfo :=
  mkCertInfo cert_der (compute_sha256_fingerprint cert_der) server_name.

(** The storage of a captured certificate, where the caller provides one. *)
Definition CapturedCert := option (option ServerCertInfo).

(** [build_error]: why the WebPKI verifier cannot be built, if so. *)
Record InteractiveCertVerifier := mkVerifier {
  build_error : option string; inner : WebPki; pinned_fingerprints : list (array 32) }.

Definition clear_captured (slot : CapturedCert) : CapturedCert := (λ _, None) <$> slot.
Definition capture (cert_info : ServerCertInfo) (slot : CapturedCert) : CapturedCert := (λ _, Some cert_info) <$> slot.

(** The errors after which the user is asked. *)
Definition confirmable (e : TlsError) : bool :=
  match e with
  | InvalidCertificate (UnknownIssuer | BadSignature | NotValidForName | NotValidForNameContext) => true
  | _ => false
  end.

(** [None]: the certificate is trusted. *)
Definition verify_server_cert (v : InteractiveCertVerifier) (end_entity : bytes) (name : ServerName)
    (slot : CapturedCert) : option TlsError * CapturedCert :=
  if contains (pinned_fingerprints v) (compute_sha256_fingerprint end_entity) then (None, clear_captured slot)
  else match build_error v with
  | Some e => (Some (OtherTlsError ("Failed to build verifier: " +:+ e)), slot)
  | None =>
      match inner v end_entity name with
      | None => (None, clear_captured slot)
      | Some err =>
          if confirmable err
          then (Some err, capture (ServerCertInfo_new end_entity (server_name_str name)) slot)
          else (Some err, slot)
      end
  end.

(** ** Connecting *)

Record TlsConfig := mkTls {
  accept_invalid_certs : bool; additional_ca_certs : list bytes;
  accepted_fingerprints : list (array 32); tls_captured_cert : CapturedCert }.

Inductive Recv :=
  | Frame (envelope : option (option Proto.ServerPayload))
  | EndOfStream
  | ReadError (e : Error).

(** What an attempt to join a server meets. *)
Record Net := mkNet {
  (** parsing the address, resolving it and opening the socket *)
  net_dial : outcome unit;
  (** the certificate the server shows and the name it is checked against *)
  net_leaf : bytes;
  net_name : ServerName;
  (** WebPKI with the built-in roots and the additional ones *)
  net_webpki : list bytes → WebPki;
  net_build_error : option string;
  (** the error quinn makes of a refused certificate *)
  net_tls_error : TlsError → Error;
  (** the rest of the QUIC handshake and opening the stream *)
  net_open : outcome unit;
  (** [peer_certificate_der] *)
  net_peer : option bytes;
  (** the error of the n-th write *)
  net_write : nat → option Error;
  net_frames : list Recv;
}.

(** [QuinnTransport::connect]; [insecure] is the build feature
    [dangerous-accept-invalid-certs]. *)
Definition quinn_connect (insecure : bool) (tls : TlsConfig) (net : Net) : outcome unit * CapturedCert :=
  let slot := tls_captured_cert tls in
  match net_dial net with
  | Failed e => (Failed e, slot)
  | Pending => (Pending, slot)
  | Done _ =>
      let '(verdict, slot') :=
        if accept_invalid_certs tls then (if insecure then Ok None else Err "accept_invalid_certs", slot)
        else if negb (bool_decide (accepted_fingerprints tls = [])) || bool_decide (is_Some slot) then
          let '(e, slot') := verify_server_cert
            (mkVerifier (net_build_error net) (net_webpki net (additional_ca_certs tls)) (accepted_fingerprints tls))
            (net_leaf net) (net_name net) slot in (Ok e, slot')
        else (Ok (net_webpki net (additional_ca_certs tls) (net_leaf net) (net_name net)), slot) in
      (match verdict with
       | Err e => Failed [e]
       | Ok (Some e) => Failed (net_tls_error net e)
       | Ok None => net_open net
       end, slot')
  end.

(** [transport.send], the n-th on this connection. *)
Definition send_envelope (net : Net) (n : nat) : outcome unit :=
  match net_write net n with Some e => Failed e | None => Done tt end.

(** The waits return what they leave unread. *)
Fixpoint wait_for_server_hello (l : list Recv) : outcome (array 32 * N) * list Recv :=
  match l with
  | [] => (Pending, [])
  | Frame (Some (Some (Proto.ServerHello nonce _ user_id))) :: l =>
      (match array_of_slice 32 nonce with
       | Some nonce => Done (nonce, user_id)
       | None => Failed ["Invalid nonce length in ServerHello"]
       end, l)
  | Frame (Some (Some (Proto.AuthFailed error))) :: l => (Failed ["Authentication failed: " +:+ error], l)
  | Frame _ :: l => wait_for_server_hello l
  | EndOfStream :: l => (Failed ["Server closed connection during handshake"], l)
  | ReadError e :: l => (Failed e, l)
  end.

Fixpoint wait_for_auth_result (l : list Recv) : outcome Proto.ServerState * list Recv :=
  match l with
  | [] => (Pending, [])
  | Frame (Some (Some (Proto.AuthFailed error))) :: l => (Failed ["Authentication failed: " +:+ error], l)
  | Frame (Some (Some (Proto.EvServerState ss))) :: l => (Done ss, l)
  | Frame _ :: l => wait_for_auth_result l
  | EndOfStream :: l => (Failed ["Server closed connection during authentication"], l)
  | ReadError e :: l => (Failed e, l)
  end.

(** ** The login *)

(** [KeySigning::sign]. *)
Definition KeySigner := Types.PublicKey → bytes → result (array 64).

(** The random session key and the clock ([as_millis() as i64]). *)
Record Fresh := mkFresh { session_public_bytes : array 32; timestamp_ms : Z }.

Record Joined := mkJoined {
  j_user_id : N;
  j_state : Proto.ServerState;
  j_session_public_key : array 32;
  j_session_id : array 32;
  j_issued_ms : Z;
  j_expires_ms : Z;
  j_unread : list Recv;
}.

(** A handshake: what it wrote, what it captured, how it ended. *)
Record Run := mkRun { sent : list Proto.ClientPayload; captured : CapturedCert; ended : outcome Joined }.

Definition server_cert_hash (net : Net) : array 32 :=
  match net_peer net with
  | Some cert_der => Wire.compute_cert_hash ext_sha256 cert_der
  | None => array_of_N 32 0
  end.

Definition session_lifetime_ms : Z := 24 * 60 * 60 * 1000.

(** Steps 4 to 7: the [Authenticate] message. *)
Definition authenticate_message (signer : KeySigner) (public_key : Types.PublicKey) (client_name : string)
    (fresh : Fresh) (cert_hash nonce : array 32) (user_id : N) : outcome Proto.Authenticate :=
  let now := timestamp_ms fresh in
  let expires := (now + session_lifetime_ms)%Z in
  let cert_payload := Wire.build_session_cert_payload (session_public_bytes fresh) now expires (Some client_name) in
  match signer public_key cert_payload with
  | Err e => Failed ["Signing session cert failed: " +:+ e]
  | Ok session_signature =>
      match signer public_key (Wire.build_auth_payload nonce now public_key user_id cert_hash) with
      | Err e => Failed ["Signing handshake payload failed: " +:+ e]
      | Ok signature =>
          Done (Proto.mkAuthenticate (arr signature) now
            (Some (Proto.mkSessionCertificate (arr (session_public_bytes fresh)) now expires
                     (Some client_name) (arr session_signature))))
      end
  end.

(** From the open transport to the server's state: [msgs] collects the writes. *)
Definition login (signer : KeySigner) (public_key : Types.PublicKey) (client_name : string)
    (password : option string) (fresh : Fresh) (net : Net) : list Proto.ClientPayload * outcome Joined :=
  let hello := Proto.PClientHello (Proto.mkClientHello client_name (arr public_key) password) in
  match send_envelope net 0 with
  | Failed e => ([], Failed e)
  | Pending => ([], Pending)
  | Done _ =>
      let '(r, unread) := wait_for_server_hello (net_frames net) in
      match and_then r (λ '(nonce, user_id),
              match authenticate_message signer public_key client_name fresh (server_cert_hash net) nonce user_id with
              | Done auth => Done (user_id, auth) | Failed e => Failed e | Pending => Pending end) with
      | Failed e => ([hello], Failed e)
      | Pending => ([hello], Pending)
      | Done (user_id, auth) =>
          match send_envelope net 1 with
          | Failed e => ([hello], Failed e)
          | Pending => ([hello], Pending)
          | Done _ =>
              let '(r, unread) := wait_for_auth_result unread in
              ([hello; Proto.PAuthenticate auth],
               and_then r (λ ss, Done (mkJoined user_id ss (session_public_bytes fresh)
                 (Wire.compute_session_id ext_blake3 (session_public_bytes fresh)) (timestamp_ms fresh)
                 (timestamp_ms fresh + session_lifetime_ms)%Z unread)))
          end
      end
  end.

(** The fields of [ConnectConfig] the handshake reads. *)
Record ConnectConfig := mkConfig { additional_certs : list string; accepted_certs : list bytes }.

(** [config.accepted_certs.push(der)]. *)
Definition accept_certificate (der : bytes) (config : ConnectConfig) : ConnectConfig :=
  mkConfig (additional_certs config) (accepted_certs config ++ [der]).

(** [read_file]: [std::fs::read(..).ok()]; a file that cannot be read is skipped. *)
Definition tls_config (read_file : string → option bytes) (config : ConnectConfig) : TlsConfig :=
  mkTls false (omap read_file (additional_certs config))
    (compute_sha256_fingerprint <$> accepted_certs config) (Some None).

Definition connect_to_server (read_file : string → option bytes) (insecure : bool) (signer : KeySigner)
    (public_key : Types.PublicKey) (client_name : string) (password : option string)
    (config : ConnectConfig) (fresh : Fresh) (net : Net) : Run :=
  match quinn_connect insecure (tls_config read_file config) net with
  | (Failed e, slot) => mkRun [] slot (Failed e)
  | (Pending, slot) => mkRun [] slot Pending
  | (Done _, slot) =>
      let '(msgs, r) := login signer public_key client_name password fresh net in mkRun msgs slot r
  end.

(** What the caller gets: the records of the snapshot without a usable id are
    dropped. *)
Definition joined_rooms (j : Joined) : list Types.Room := omap Types.room_from_proto (Proto.ss_rooms (j_state j)).
Definition joined_users (j : Joined) : list Types.User := omap Types.user_from_proto (Proto.ss_users (j_state j)).
Definition joined_groups (j : Joined) : list Types.Group := map Types.group_from_proto (Proto.ss_groups (j_state j)).
Definition joined_commands (j : Joined) : list Types.SlashCommand :=
  map Types.slash_command_from_proto (Proto.ss_slash_commands (j_state j)).

(** The bridge logs in with its own key, without a password. *)
Definition bridge_connect (insecure : bool) (sign : bytes → array 64) (public_key : Types.PublicKey)
    (username : string) (tls : TlsConfig) (fresh : Fresh) (net : Net) : Run :=
  match quinn_connect insecure tls net with
  | (Failed e, slot) => mkRun [] slot (Failed e)
  | (Pending, slot) => mkRun [] slot Pending
  | (Done _, slot) =>
      let '(msgs, r) := login (λ _ m, Ok (sign m)) public_key username None fresh net in mkRun msgs slot r
  end.
End trust.

End Handshake.
