(* ===== verification/HandshakeFacts.v ===== *)
(** Facts about the client's handshake ([Handshake]): whom a client trusts, what
    its login is bound to, and the whole conversation with the server of [Auth]. *)
From Stdlib Require Import NArith ZArith Lia String.
From stdpp Require Import base gmap strings list sets.
From S2P Require Import Prelude Permissions Proto Types Store Wire Persistence State World Acl Session Auth Client Handshake.

Module HandshakeFacts.
Import Handshake.
Open Scope string_scope.
Open Scope list_scope.

(** ** Trust *)

Section trust.
Context `{!External}.

(** The verdict the configuration and WebPKI give on the server's certificate. *)
Definition trusted (read_file : string → option bytes) (config : ConnectConfig) (net : Net) : Prop :=
  (∃ der, der ∈ accepted_certs config ∧ ext_sha256 der = ext_sha256 (net_leaf net)) ∨
  (net_build_error net = None ∧
   net_webpki net (omap read_file (additional_certs config)) (net_leaf net) (net_name net) = None).

Lemma dialled (net : Net) : net_dial net = Done tt ∨ net_dial net ≠ Done tt.
Proof. destruct (net_dial net) as [[]|e|]; [by left|by right|by right]. Qed.

Lemma pinned_spec (config : ConnectConfig) (cert : bytes) :
  contains (compute_sha256_fingerprint <$> accepted_certs config) (compute_sha256_fingerprint cert) = true ↔
  ∃ der, der ∈ accepted_certs config ∧ ext_sha256 der = ext_sha256 cert.
Proof.
  unfold contains, compute_sha256_fingerprint. rewrite bool_decide_eq_true, list_elem_of_fmap.
  split; intros (der & ? & ?); by exists der.
Qed.

(** The connection attempt, with the verifier's decision spelled out. *)
Lemma quinn_connect_run read_file insecure config net :
  net_dial net = Done tt →
  (trusted read_file config net ∧
     quinn_connect insecure (tls_config read_file config) net = (net_open net, Some None)) ∨
  (¬ trusted read_file config net ∧ ∃ e slot,
     quinn_connect insecure (tls_config read_file config) net = (Failed (net_tls_error net e), slot) ∧
     slot = Some (if confirmable e then Some (ServerCertInfo_new (net_leaf net) (server_name_str (net_name net)))
                  else None)).
Proof.
  intros Hd. unfold quinn_connect. rewrite Hd. cbn [tls_captured_cert tls_config accept_invalid_certs].
  rewrite (bool_decide_true (is_Some (Some None))) by eauto. rewrite orb_true_r.
  unfold verify_server_cert. cbn [accepted_fingerprints additional_ca_certs tls_config build_error inner pinned_fingerprints].
  destruct (contains _ _) eqn:Ep.
  { left. split; [left; by apply pinned_spec|done]. }
  assert (∀ der, der ∈ accepted_certs config → ext_sha256 der ≠ ext_sha256 (net_leaf net)) as Hn.
  { intros der Hin E. apply not_true_iff_false in Ep. apply Ep, pinned_spec. eauto. }
  destruct (net_build_error net) as [e|] eqn:Eb.
  { right. split; [|by eexists _, _]. intros [(der & Hin & E)|[? _]]; [by eapply Hn|congruence]. }
  destruct (net_webpki _ _ _ _) as [e|] eqn:Ew.
  - right. split; [intros [(der & Hin & E)|[_ ?]]; [by eapply Hn|congruence]|].
    exists e. destruct (confirmable e) eqn:Ec; by eexists.
  - left. split; [by right|done].
Qed.

(** C5: Trust on first use.  A client says nothing to a server (and so shows it
    no password) unless a certificate the user accepted earlier has the same
    SHA-256 as the server's or WebPKI vouches for it.  The user is asked about the
    certificate the server showed and no other, and only after it was refused;
    once it is accepted, every later attempt that meets the same certificate goes
    on to the login, whatever name it is checked against and whatever WebPKI says,
    while the verdict on any certificate with another hash stays what it was. *)
Theorem trust_on_first_use (read_file : string → option bytes) (insecure : bool) (signer : KeySigner)
    (k : Types.PublicKey) (name : string) (password : option string) (config : ConnectConfig)
    (fresh : Fresh) (net : Net) :
  let run c n := connect_to_server read_file insecure signer k name password c fresh n in
  (sent (run config net) ≠ [] → trusted read_file config net) ∧
  (∀ info, captured (run config net) = Some (Some info) →
     ¬ trusted read_file config net ∧
     certificate_der info = net_leaf net ∧ fingerprint info = ext_sha256 (net_leaf net) ∧
     server_name info = server_name_str (net_name net) ∧
     sent (run config net) = [] ∧
     (∃ e, confirmable e = true ∧ ended (run config net) = Failed (net_tls_error net e)) ∧
     (∀ net', net_leaf net' = net_leaf net → net_dial net' = Done tt → net_open net' = Done tt →
        (sent (run (accept_certificate (certificate_der info) config) net'), ended (run (accept_certificate (certificate_der info) config) net')) =
        login signer k name password fresh net') ∧
     (∀ net', ext_sha256 (net_leaf net') ≠ ext_sha256 (net_leaf net) →
        trusted read_file (accept_certificate (certificate_der info) config) net' ↔ trusted read_file config net')).
Proof.
  intros run.
  assert (∀ c n, net_dial n ≠ Done tt → sent (run c n) = [] ∧ captured (run c n) = Some None) as Hnd.
  { intros c n Hd. unfold run, connect_to_server, quinn_connect.
    by destruct (net_dial n) as [[]|e|]; [destruct Hd| |]. }
  split.
  - intros Hs. destruct (dialled net) as [Hd|Hd].
    2: { by destruct (Hnd config net Hd) as [? _]. }
    destruct (quinn_connect_run read_file insecure config net Hd) as [[Ht _]|(_ & e & slot & E & _)]; [done|].
    unfold run, connect_to_server in Hs. by rewrite E in Hs.
  - intros info Hc. destruct (dialled net) as [Hd|Hd].
    2: { destruct (Hnd config net Hd) as [_ Hn]. congruence. }
    destruct (quinn_connect_run read_file insecure config net Hd) as [[_ E]|(Hnt & e & slot & E & Es)].
    { exfalso. unfold run, connect_to_server in Hc. rewrite E in Hc.
      destruct (net_open net); [destruct (login _ _ _ _ _ _)| |]; done. }
    assert (run config net = mkRun [] slot (Failed (net_tls_error net e))) as Er.
    { unfold run, connect_to_server. by rewrite E. }
    rewrite Er in Hc |- *. cbn [captured sent ended] in *.
    rewrite Es in Hc. destruct (confirmable e) eqn:Ee; [|done]. injection Hc as <-.
    split; [done|]. split; [done|]. split; [done|]. split; [done|]. split; [done|]. split; [by exists e|]. split.
    + intros net' El Hd' Ho'. set (c' := accept_certificate _ config).
      destruct (quinn_connect_run read_file insecure c' net' Hd') as [[_ E']|(Hnt' & _)].
      * unfold run, connect_to_server. fold c'. rewrite E', Ho'. by destruct (login _ _ _ _ _ _).
      * exfalso. apply Hnt'. left. exists (net_leaf net). split; [|by rewrite El].
        apply elem_of_app. right. by apply list_elem_of_singleton.
    + intros net' Hne. unfold trusted. cbn [accept_certificate accepted_certs additional_certs certificate_der ServerCertInfo_new].
      split; (intros [(der & Hin & Eh)|Hw]; [|by right]).
      * apply elem_of_app in Hin as [Hin| ->%list_elem_of_singleton]; [left; eauto|congruence].
      * left. exists der. split; [|done]. apply elem_of_app. by left.
Qed.
End trust.

(** ** The server's side of the conversation *)

Section server.
Context {T : Type} `{!KV T} `{!Persist.Codecs} `{!External}.
Abbreviation W := (Wld.World T).

(** What connection [h] reads of what the server did from [w] to [w']. *)
Definition frame_for (h : N) (e : Wld.Event) : option Recv :=
  match e with
  | Wld.Sent to _ p => if (to =? h)%N then Some (Frame (Some (Some p))) else None
  | Wld.Closed c _ _ => if (c =? h)%N then Some EndOfStream else None
  | Wld.Datagram _ _ => None
  end.
Definition replies (h : N) (w w' : W) : list Recv :=
  omap (frame_for h) (drop (List.length (Wld.log w)) (Wld.log w')).

Definition extends (w w' : W) : Prop := ∃ l, Wld.log w' = Wld.log w ++ l.
#[export] Instance extends_preorder : PreOrder extends.
Proof.
  split; [intros w; exists []; by rewrite app_nil_r|].
  intros w1 w2 w3 [l E] [l' E']. exists (l ++ l'). by rewrite E', E, app_assoc.
Qed.

Lemma replies_app h (w w' : W) l : Wld.log w' = Wld.log w ++ l → replies h w w' = omap (frame_for h) l.
Proof. intros E. unfold replies. by rewrite E, drop_app_length. Qed.

(** A connection that can be written to, on a server where a client is found
    under its own id. *)
Record open_to (h : N) (w : W) : Prop := {
  ot_open : h ∉ Wld.closed w;
  ot_prompt : h ∉ Wld.stalled w;
  ot_clients : ∀ id x, St.get_client (Wld.server w) id = Some x → x = id;
}.

(** State updates and what concerns others. *)
Definition harmless (h : N) (e : Wld.Event) : Prop :=
  match e with
  | Wld.Sent to _ p => to = h → ∃ hash u, p = Proto.EvStateUpdate hash u
  | Wld.Closed c _ _ => c ≠ h
  | Wld.Datagram _ _ => True
  end.

Definition undisturbed (h : N) (w w' : W) : Prop :=
  open_to h w → open_to h w' ∧ ∃ l, Wld.log w' = Wld.log w ++ l ∧ Forall (harmless h) l.

#[export] Instance undisturbed_preorder h : PreOrder (undisturbed h).
Proof.
  split.
  - intros w Ho. split; [done|]. exists []. by rewrite app_nil_r.
  - intros w1 w2 w3 H1 H2 Ho. destruct (H1 Ho) as (Ho1 & l1 & E1 & F1). destruct (H2 Ho1) as (Ho2 & l2 & E2 & F2).
    split; [done|]. exists (l1 ++ l2). rewrite E2, E1, app_assoc. split; [done|]. by apply Forall_app.
Qed.

(** Operations away from the connections. *)
Definition elsewhere (w : W) := (Wld.closed w, Wld.stalled w, Wld.log w, Wld.server w).

Lemma undisturbed_elsewhere {A} h (m : ST W A) : keeps (same elsewhere) m → keeps (undisturbed h) m.
Proof.
  intros Hm w Ho. specialize (Hm w). unfold same, elsewhere in Hm. injection Hm as E1 E2 E3 E4.
  split; [|exists []; by rewrite app_nil_r, E3]. destruct Ho as [O1 O2 O3]. by split; rewrite ?E1, ?E2, ?E4.
Qed.

Lemma undisturbed_server {A} h (f : St.ServerState → A * St.ServerState) :
  (∀ s id x, St.get_client (f s).2 id = Some x → St.get_client s id = Some x) → keeps (undisturbed h) (Wld.on_server f).
Proof.
  intros Hf w Ho. rewrite Wld.on_server_run. split; [|exists []; by rewrite app_nil_r].
  destruct Ho as [O1 O2 O3]. split; [done|done|]. intros id x Hx. apply O3, Hf, Hx.
Qed.

Lemma undisturbed_remove_client h c : keeps (undisturbed h) (Wld.on_server (St.remove_client c)).
Proof.
  apply undisturbed_server. intros s id x. unfold St.remove_client, St.get_client. cbn.
  destruct (decide (c = id)) as [->|Hne]; [by rewrite lookup_delete_eq|by rewrite lookup_delete_ne].
Qed.

Lemma undisturbed_set_server h f :
  (∀ s, St.members (f s) = St.members s) → keeps (undisturbed h) (Wld.set_server f).
Proof.
  intros Hf w Ho. split; [|exists []; by rewrite app_nil_r].
  destruct Ho as [O1 O2 O3]. split; [done|done|]. intros id x Hx. apply O3. unfold St.get_client in *. cbn in Hx.
  by rewrite Hf in Hx.
Qed.

Lemma undisturbed_send h to hash p :
  (to = h → ∃ hash u, p = Proto.EvStateUpdate hash u) → keeps (undisturbed h) (Wld.send_frame to hash p).
Proof.
  intros Hp w Ho. unfold Wld.send_frame. unfold_goal_st. destruct (bool_decide _).
  - split; [done|]. exists []. by rewrite app_nil_r.
  - destruct Ho. split; [by split|]. eexists. split; [done|]. by apply Forall_singleton.
Qed.

Lemma undisturbed_close h c code reason : c ≠ h → keeps (undisturbed h) (Wld.close_conn c code reason).
Proof.
  intros Hc w [O1 O2 O3]. unfold Wld.close_conn. split.
  - split; [cbn; set_solver|done|done].
  - eexists. split; [done|]. by apply Forall_singleton.
Qed.

Lemma undisturbed_broadcast h u : keeps (undisturbed h) (Wld.broadcast_state_update u).
Proof.
  unfold Wld.broadcast_state_update, Wld.broadcast_frame.
  do 2 (apply keeps_bind; [apply _|apply keeps_gets, _|intros ?]).
  apply keeps_bind; [apply _| |intros _; apply keeps_done_ok, _].
  apply keeps_for_each; [apply _|]. intros c _ w Ho. unfold_goal_st.
  case_bool_decide as Hs.
  - apply undisturbed_close; [|done]. intros ->. by apply (ot_prompt _ _ Ho).
  - rewrite Wld.ignore_run. cbn [snd]. apply undisturbed_send; [|done]. intros _. by eexists _, _.
Qed.

Ltac und_step :=
  lazymatch goal with
  | |- keeps _ (Wld.ignore _) => apply Wld.keeps_ignore; [apply _|]
  | |- keeps _ (Wld.set_data _) => apply undisturbed_set_server; intros ?; reflexivity
  | |- keeps _ (Wld.set_server (St.remove_session _)) =>
      apply undisturbed_set_server; intros s; unfold St.remove_session; by destruct (St.sessions s !! _)
  | |- keeps _ (Wld.set_server _) => apply undisturbed_set_server; intros ?; reflexivity
  | |- keeps _ (Wld.on_server (St.remove_client _)) =>
      apply undisturbed_remove_client
  | |- keeps _ (Wld.broadcast_state_update _) => apply undisturbed_broadcast
  | |- _ => keeps_step
  end.

Lemma undisturbed_cleanup h c : keeps (undisturbed h) (Session.cleanup_client c).
Proof. unfold Session.cleanup_client, Session.cleanup_participant. repeat und_step. Qed.

(** A takeover evicts other connections. *)
Lemma undisturbed_evict on_disconnect h key name :
  (∀ x, keeps (undisturbed h) (on_disconnect x)) →
  keeps (undisturbed h) (Session.evict_superseded_sessions on_disconnect key name h).
Proof.
  intros Hp. unfold Session.evict_superseded_sessions.
  apply keeps_bind; [apply _|apply keeps_gets, _|]. intros ids. apply keeps_for_each; [apply _|]. intros old_id _.
  unfold Session.evict_one. destruct (N.eqb_spec old_id h) as [|Hne]; [apply keeps_ret, _|].
  intros w Ho. rewrite gets_run. cbv beta.
  destruct (St.get_client (Wld.server w) old_id) as [old|] eqn:Eo; [|by apply (keeps_ret (undisturbed h) tt)].
  assert (old ≠ h) as Hold by (by rewrite (ot_clients _ _ Ho _ _ Eo)).
  match goal with |- context [Wld.log (?m w).2] => cut (keeps (undisturbed h) m); [intros Hm; by apply Hm|] end.
  clear w Ho Eo.
  repeat lazymatch goal with
  | |- keeps _ (Wld.send_frame _ _ _) => apply undisturbed_send; by intros ?
  | |- keeps _ (Wld.close_conn _ _ _) => by apply undisturbed_close
  | |- keeps _ (on_disconnect _) => apply Hp
  | |- keeps _ (Session.cleanup_client _) => apply undisturbed_cleanup
  | |- keeps _ (Session.begin_teardown _) =>
      apply undisturbed_elsewhere; unfold Session.begin_teardown; intros w; by destruct (St.begin_teardown _)
  | |- _ => und_step
  end.
Qed.

(** ** The conversation *)

Definition with_frames (l : list Recv) (net : Net) : Net :=
  mkNet (net_dial net) (net_leaf net) (net_name net) (net_webpki net) (net_build_error net) (net_tls_error net)
    (net_open net) (net_peer net) (net_write net) l.

Lemma wait_auth_skip h l rest :
  Forall (harmless h) l → wait_for_auth_result (omap (frame_for h) l ++ rest) = wait_for_auth_result rest.
Proof.
  induction 1 as [|e l He _ IH]; [done|]. destruct e as [to hash p|to d|c code r]; cbn [omap list_omap frame_for].
  - destruct (N.eqb_spec to h) as [Eq|_]; [|exact IH]. destruct (He Eq) as (hash' & u & ->). exact IH.
  - exact IH.
  - destruct (N.eqb_spec c h) as [Eq|_]; [by destruct He|exact IH].
Qed.

(** A client that may log in: it signs with the key it announces, the transport
    works and shows the server's certificate, the name and the password are fine,
    the clocks agree to five minutes and the key is not banned. *)
Record welcome (signer : KeySigner) (k : Types.PublicKey) (name : string) (password : option string)
    (fresh : Fresh) (net : Net) (server_password : option string) (now_ms : Z) (now_secs : N) (h : N) (w : W) : Prop := {
  wl_signer : ∀ m, ∃ s, signer k m = Ok s ∧ ext_verify k m s = true;
  wl_key : ext_valid_key k = true;
  wl_writes : ∀ n, net_write net n = None;
  wl_peer : net_peer net = Some (St.server_cert_der (Wld.server w));
  wl_open : open_to h w;
  wl_name : Persist.is_username_taken (Wld.persistence w) name k = false;
  wl_password : Persist.is_known_key (Wld.persistence w) k = true ∨ Auth.password_ok server_password password = true;
  wl_clock : (Z.abs (now_ms - timestamp_ms fresh) <= 300000)%Z;
  wl_now : Auth.in_i64 now_ms;
  wl_timestamp : Auth.in_i64 (timestamp_ms fresh);
  wl_not_barred : ¬ Auth.barred (Auth.lifted k now_secs (Wld.persistence w)) k now_secs;
  wl_groups : ∀ i, NoDup (Persist.get_user_groups (Wld.persistence w) i);
}.

(** The server after a hello it accepts. *)
Definition greeted (nonce : array 32) (now : N) (k : Types.PublicKey) (name : string) (h : N) (w : W) : W :=
  Wld.with_log (λ l, l ++ [Wld.Sent h [] (Proto.ServerHello (arr nonce) "Rumble Server" h)])
    (Wld.with_handles (<[h := St.with_h_public_key (λ _, Some k) (Wld.handle_at w h)]>)
      (Wld.with_server (St.set_pending_auth (St.mkPendingAuth nonce h k now name)) w)).

Lemma hello_run nonce now server_password k name password h (w : W) :
  h ∉ Wld.closed w → Persist.is_username_taken (Wld.persistence w) name k = false →
  (Persist.is_known_key (Wld.persistence w) k = true ∨ Auth.password_ok server_password password = true) →
  (Auth.handle_client_hello nonce now server_password (Proto.mkClientHello name (arr k) password) h w).2 =
  greeted nonce now k name h w.
Proof.
  intros Ho Hn Hp. unfold Auth.handle_client_hello. cbn [Proto.ch_public_key Proto.ch_username Proto.ch_password].
  rewrite array_of_slice_arr, gets_run. cbv beta. rewrite Hn, gets_run. cbv beta.
  assert (negb (Persist.is_known_key (Wld.persistence w) k) && negb (Auth.password_ok server_password password) = false)
    as -> by (destruct Hp as [-> | ->]; [done|apply andb_false_r]).
  unfold_goal_st. unfold Wld.send_frame. unfold_goal_st. cbn [Wld.closed Wld.with_handles Wld.with_server].
  rewrite bool_decide_false by done. done.
Qed.

Lemma extends_send_frame to hash p : keeps extends (Wld.send_frame to hash p).
Proof.
  unfold Wld.send_frame, Wld.emit. repeat keeps_step. apply keeps_modify. intros w. by eexists.
Qed.

Lemma extends_broadcast u : keeps extends (Wld.broadcast_state_update u).
Proof.
  unfold Wld.broadcast_state_update, Wld.broadcast_frame, Wld.close_conn, Wld.emit.
  repeat lazymatch goal with
  | |- keeps _ (Wld.ignore _) => apply Wld.keeps_ignore; [apply _|]
  | |- keeps _ (Wld.send_frame _ _ _) => apply extends_send_frame
  | |- keeps _ (modify (Wld.with_log _)) => apply keeps_modify; intros w; by eexists
  | |- keeps _ (modify _) => apply keeps_modify; intros w; exists []; by rewrite app_nil_r
  | |- _ => keeps_step
  end.
Qed.

(** The first frame after a login that is not about somebody else is the state. *)
Lemma announce_log h name room (w : W) :
  h ∉ Wld.closed w →
  ∃ l hash, Wld.log (Auth.announce h name room w).2 =
    Wld.log w ++ [Wld.Sent h hash (Proto.EvServerState (Session.server_state_for w h))] ++ l.
Proof.
  intros Ho. unfold Auth.announce. match goal with |- context [try_bind _ ?k] => set (rest := k) end.
  assert (keeps extends (rest tt)) as Hrest.
  { unfold rest. repeat lazymatch goal with
    | |- keeps _ (Wld.ignore _) => apply Wld.keeps_ignore; [apply _|]
    | |- keeps _ (Wld.send_frame _ _ _) => apply extends_send_frame
    | |- keeps _ (Wld.broadcast_state_update _) => apply extends_broadcast
    | |- _ => keeps_step
    end. }
  clearbody rest. unfold Session.send_server_state_to_client, Wld.send_frame, Wld.emit. unfold_goal_st.
  rewrite bool_decide_false by done.
  match goal with |- context [rest tt ?w0] => destruct (Hrest w0) as [l El] end.
  exists l. eexists. rewrite El. cbn [Wld.log Wld.with_log]. by rewrite <- app_assoc.
Qed.

Lemma prepared_elsewhere now pending h (w : W) : elsewhere (Auth.prepared now pending h w).2 = elsewhere w.
Proof.
  unfold Auth.prepared. generalize w. 
  match goal with |- ∀ w, elsewhere (?m w).2 = _ => change (keeps (same elsewhere) m) end.
  unfold Auth.load_identity, Wld.set_handle, Wld.set_identity.
  repeat lazymatch goal with
  | |- keeps _ (Wld.ignore _) => apply Wld.keeps_ignore; [apply _|]
  | |- keeps _ (Wld.on_persist _) => let w0 := fresh in intros w0; by rewrite Wld.on_persist_run
  | |- keeps _ (modify _) => by apply keeps_modify
  | |- _ => keeps_step
  end.
Qed.

Lemma open_elsewhere h (w w' : W) : elsewhere w' = elsewhere w → open_to h w → open_to h w'.
Proof. intros [= E1 E2 E3 E4] [O1 O2 O3]. by split; rewrite ?E1, ?E2, ?E4. Qed.

Lemma accept_log on_disconnect now pending entry h (w : W) :
  (∀ x, keeps (undisturbed h) (on_disconnect x)) → open_to h w →
  ∃ l hash ws l', Wld.log (Auth.accept_session on_disconnect now pending entry h w).2 =
    Wld.log w ++ l ++ [Wld.Sent h hash (Proto.EvServerState (Session.server_state_for ws h))] ++ l' ∧
    Forall (harmless h) l.
Proof.
  intros Hp Ho. rewrite Auth.accept_session_run.
  pose proof (prepared_elsewhere now pending h w) as He. destruct (Auth.prepared now pending h w) as [v w1].
  cbn [snd] in He. pose proof (open_elsewhere h w w1 He Ho) as Ho1. injection He as _ _ E3 _. cbv zeta.
  set (k := St.pa_public_key pending). set (name := default _ v).
  destruct (undisturbed_evict on_disconnect h k name Hp w1 Ho1) as (Ho2 & l & El & Hl).
  set (w2 := (Session.evict_superseded_sessions _ _ _ _ w1).2) in *.
  match goal with |- context [Auth.announce _ _ ?room ?w0] =>
    destruct (announce_log h name room w0) as (l' & hash & Ea); [apply Ho2|]; rewrite Ea end.
  cbn [Wld.log Wld.with_server]. rewrite El, E3. eexists l, hash, _, l'. by rewrite <- app_assoc.
Qed.

Context `{!KVLaws T} `{!Persist.CodecsLaws}.

Lemma login_run signer k name password fresh (net : Net) :
  (∀ n, net_write net n = None) →
  login signer k name password fresh net =
  let hello := Proto.PClientHello (Proto.mkClientHello name (arr k) password) in
  match wait_for_server_hello (net_frames net) with
  | (Done (nonce, user_id), unread) =>
      match authenticate_message signer k name fresh (server_cert_hash net) nonce user_id with
      | Done auth =>
          ([hello; Proto.PAuthenticate auth],
           let '(r, unread) := wait_for_auth_result unread in
           and_then r (λ ss, Done (mkJoined user_id ss (session_public_bytes fresh)
             (Wire.compute_session_id ext_blake3 (session_public_bytes fresh)) (timestamp_ms fresh)
             (timestamp_ms fresh + session_lifetime_ms)%Z unread)))
      | Failed e => ([hello], Failed e)
      | Pending => ([hello], Pending)
      end
  | (Failed e, _) => ([hello], Failed e)
  | (Pending, _) => ([hello], Pending)
  end.
Proof.
  intros Hw. unfold login, send_envelope. rewrite !Hw.
  destruct (wait_for_server_hello _) as [[[nonce uid]|e|] unread]; cbn [and_then]; try done.
  destruct (authenticate_message _ _ _ _ _ _ _) as [auth|e|]; try done.
  by destruct (wait_for_auth_result unread).
Qed.

(** The message a signer that signs everything produces passes the server's checks. *)
(** A client that has read the server's hello. *)
Lemma login_greeted signer k name password fresh (net : Net) nonce server uid auth l :
  (∀ n, net_write net n = None) →
  authenticate_message signer k name fresh (server_cert_hash net) nonce uid = Done auth →
  login signer k name password fresh (with_frames (Frame (Some (Some (Proto.ServerHello (arr nonce) server uid))) :: l) net) =
  ([Proto.PClientHello (Proto.mkClientHello name (arr k) password); Proto.PAuthenticate auth],
   let '(r, unread) := wait_for_auth_result l in
   and_then r (λ ss, Done (mkJoined uid ss (session_public_bytes fresh)
     (Wire.compute_session_id ext_blake3 (session_public_bytes fresh)) (timestamp_ms fresh)
     (timestamp_ms fresh + session_lifetime_ms)%Z unread))).
Proof.
  intros Hw Ha. rewrite login_run by done. cbn [net_frames with_frames wait_for_server_hello]. rewrite array_of_slice_arr.
  change (server_cert_hash (with_frames _ net)) with (server_cert_hash net). by rewrite Ha.
Qed.

Lemma message_checks signer k name fresh cert_hash nonce uid now_ms :
  (∀ m, ∃ s, signer k m = Ok s ∧ ext_verify k m s = true) →
  (Z.abs (now_ms - timestamp_ms fresh) <= 300000)%Z →
  ∃ auth sig entry,
    authenticate_message signer k name fresh cert_hash nonce uid = Done auth ∧
    Proto.auth_timestamp_ms auth = timestamp_ms fresh ∧ Proto.auth_signature auth = arr sig ∧
    ext_verify k (Wire.build_auth_payload nonce (timestamp_ms fresh) k uid cert_hash) sig = true ∧
    Auth.check_session_cert now_ms k (Proto.auth_session_cert auth) = Ok entry ∧
    entry = St.mkSessionEntry k (session_public_bytes fresh)
      (Wire.compute_session_id ext_blake3 (session_public_bytes fresh)) (timestamp_ms fresh)
      (timestamp_ms fresh + session_lifetime_ms)%Z (Some name).
Proof.
  intros Hs Hc. unfold authenticate_message. cbv zeta.
  match goal with |- context [signer k ?m] => destruct (Hs m) as (s1 & -> & V1) end.
  match goal with |- context [signer k ?m] => destruct (Hs m) as (s2 & -> & V2) end.
  eexists _, s2, _. split; [done|]. split; [done|]. split; [done|]. split; [exact V2|]. split; [|done].
  unfold Auth.check_session_cert. cbn [Proto.auth_session_cert Proto.cert_session_public_key Proto.cert_expires_ms
    Proto.cert_issued_ms Proto.cert_device Proto.cert_user_signature].
  rewrite !array_of_slice_arr. unfold session_lifetime_ms in *.
  destruct (Z.leb_spec (timestamp_ms fresh + 24 * 60 * 60 * 1000) (timestamp_ms fresh)); [lia|].
  destruct (Z.ltb_spec (timestamp_ms fresh + 24 * 60 * 60 * 1000) now_ms); [lia|].
  by rewrite V1.
Qed.

(** C3: A client and the server agree.  When a client that may log in and a server
    talk to each other, each reading exactly what the other sent, the client says
    hello, answers the server's nonce with an [Authenticate] message, is logged in,
    and returns with the server's state; both sides then hold the same user id,
    session key and session id, and neither waits for anything the other does not
    send, whoever is evicted and whatever is broadcast meanwhile. *)
Theorem login_conversation (on_disconnect : N → ST W unit) (signer : KeySigner) (k : Types.PublicKey)
    (name : string) (password : option string) (fresh : Fresh) (net : Net) (server_password : option string)
    (nonce : array 32) (now : N) (now_ms : Z) (now_secs now_secs' : N) (h : N) (w : W) :
  (∀ x, keeps (same Wld.frame_of) (on_disconnect x)) → (∀ x, keeps (undisturbed h) (on_disconnect x)) →
  welcome signer k name password fresh net server_password now_ms now_secs h w →
  let hello := Proto.mkClientHello name (arr k) password in
  let run l := login signer k name password fresh (with_frames l net) in
  let w1 := (Auth.handle_client_hello nonce now server_password hello h w).2 in
  ∃ auth,
    run [] = ([Proto.PClientHello hello], Pending) ∧
    run (replies h w w1) = ([Proto.PClientHello hello; Proto.PAuthenticate auth], Pending) ∧
    let w2 := (Auth.handle_authenticate on_disconnect now_ms now_secs now_secs' auth h w1).2 in
    ∃ j entry ws,
      run (replies h w w1 ++ replies h w1 w2) = ([Proto.PClientHello hello; Proto.PAuthenticate auth], Done j) ∧
      j_user_id j = h ∧ j_state j = Session.server_state_for ws h ∧
      Auth.logged_in h k entry name (Auth.initial_room w k)
        (Persist.username <$> Persist.get_registered_user (Wld.persistence w) k) now_secs' w2 ∧
      St.session_public_key entry = j_session_public_key j ∧ St.session_id entry = j_session_id j ∧
      St.expires_ms entry = j_expires_ms j ∧ St.user_public_key entry = k.
Proof.
  intros Hf Hu [Hs Hk Hw Hpeer Ho Hn Hpw Hc Hnow Hts Hb Hg] hello run.
  intros w1. assert (w1 = greeted nonce now k name h w) as E1 by (apply hello_run; [apply Ho|done|done]).
  clearbody w1. subst w1. set (w1 := greeted nonce now k name h w).
  assert (replies h w w1 = [Frame (Some (Some (Proto.ServerHello (arr nonce) "Rumble Server" h)))]) as R1.
  { rewrite (replies_app h w w1 _ eq_refl). cbn. by rewrite N.eqb_refl. }
  destruct (message_checks signer k name fresh (server_cert_hash net) nonce h now_ms Hs Hc)
    as (auth & sig & entry & Ha & Et & Esig & Hv & Hcheck & Eentry).
  assert (∀ l, run (replies h w w1 ++ l) = (_, _)) as Hrun by (intros l; unfold run; rewrite R1; by apply login_greeted).
  exists auth. split; [unfold run; by rewrite login_run|]. split; [by rewrite <- (app_nil_r (replies h w w1)), Hrun|].
  set (w2 := (Auth.handle_authenticate _ _ _ _ _ _ w1).2).
  set (pending := St.mkPendingAuth nonce h k now name).
  assert (Auth.login_checks now_ms now_secs auth h w1 pending entry) as Hlc.
  { split.
    - cbn. by rewrite lookup_insert_eq.
    - by rewrite Et.
    - exists sig. split; [done|]. rewrite Et. unfold server_cert_hash in Hv. rewrite Hpeer in Hv. exact Hv.
    - exact Hk.
    - exact Hb.
    - exact Hcheck. }
  destruct (Auth.authenticate_cases on_disconnect now_ms now_secs now_secs' auth h w1)
    as [(pending' & entry' & p' & Hlc' & Hr & Hg' & E)|(Hno & _)]; [exact Hg|done|by rewrite Et| |by destruct Hno; eauto].
  assert (pending' = pending) as -> by (pose proof (Auth.lc_pending _ _ _ _ _ _ _ Hlc');
    pose proof (Auth.lc_pending _ _ _ _ _ _ _ Hlc); congruence).
  assert (entry' = entry) as -> by (pose proof (Auth.lc_cert _ _ _ _ _ _ _ Hlc');
    pose proof (Auth.lc_cert _ _ _ _ _ _ _ Hlc); congruence).
  set (w1' := Wld.with_persistence (λ _, p') (Auth.taken h w1)) in E.
  assert (open_to h w1') as Ho1 by (destruct Ho; by split).
  destruct (accept_log on_disconnect now_secs' pending entry h w1' Hu Ho1) as (l & hash & ws & l' & El & Hl).
  rewrite <- E in El. fold w2 in El.
  assert (replies h w1 w2 = omap (frame_for h) l ++
    Frame (Some (Some (Proto.EvServerState (Session.server_state_for ws h)))) :: omap (frame_for h) l') as R2.
  { rewrite (replies_app h w1 w2 _ El), !omap_app. cbn [omap list_omap frame_for]. by rewrite N.eqb_refl. }
  eexists (mkJoined h (Session.server_state_for ws h) _ _ _ _ _), entry, ws.
  split; [rewrite Hrun, R2, (wait_auth_skip h) by done; done|]. split; [done|]. split; [done|]. split.
  - destruct (Auth.accept_effect on_disconnect now_secs' pending entry h w1' Hf (Hg' _)) as (Hli & _).
    rewrite <- E in Hli. fold w2 in Hli. change (Wld.persistence w1') with p' in Hli. rewrite Hr in Hli.
    assert (Auth.initial_room w1' k = Auth.initial_room w k) as <- by (by apply Auth.initial_room_ext; [apply Hr|]).
    exact Hli.
  - by rewrite Eentry.
Qed.

(** C4: A login is good for one server and one attempt.  The [Authenticate] message
    a client sends answers one nonce, for one user id, over a connection on which
    it saw one certificate; a server that issued another nonce, gave another user
    id or has another certificate refuses it.  So a server in the middle that
    relays a client's login to the real server, or replays it, is turned away. *)
Theorem login_is_bound (on_disconnect : N → ST W unit) (signer : KeySigner) (k : Types.PublicKey)
    (name : string) (password : option string) (fresh : Fresh) (net : Net) (auth : Proto.Authenticate)
    (nonce : array 32) (uid : N) (rest : list Recv) (pending : St.PendingAuth)
    (now_ms : Z) (now_secs now_secs' : N) (h : N) (w : W) :
  wait_for_server_hello (net_frames net) = (Done (nonce, uid), rest) →
  Proto.PAuthenticate auth ∈ (login signer k name password fresh net).1 →
  let payload := Wire.build_auth_payload nonce (timestamp_ms fresh) k uid (server_cert_hash net) in
  (∀ s m, signer k payload = Ok s → ext_verify k m s = true → m = payload) →
  Auth.in_i64 now_ms → Auth.in_i64 (timestamp_ms fresh) → (uid < 2 ^ 64)%N →
  (∀ i, NoDup (Persist.get_user_groups (Wld.persistence w) i)) →
  St.pending_auth (Wld.server w) !! h = Some pending → St.pa_public_key pending = k →
  (St.pa_user_id pending < 2 ^ 64)%N →
  (St.pa_nonce pending ≠ nonce ∨ St.pa_user_id pending ≠ uid ∨
   ext_sha256 (St.server_cert_der (Wld.server w)) ≠ server_cert_hash net) →
  Auth.refused h w (Auth.handle_authenticate on_disconnect now_ms now_secs now_secs' auth h w).2.
Proof.
  intros Hh Ha payload Hs Hn Ht Hu Hg Hp Hk Hpu Hne.
  assert (∃ s, signer k payload = Ok s ∧ Proto.auth_signature auth = arr s ∧
               Proto.auth_timestamp_ms auth = timestamp_ms fresh) as (s & Es & Esig & Et).
  { clear -Hh Ha. unfold login in Ha. rewrite Hh in Ha. cbn [and_then] in Ha.
    destruct (send_envelope net 0); cbn in Ha; try by apply elem_of_nil in Ha.
    unfold authenticate_message in Ha. fold payload in Ha.
    assert (∀ (x : Proto.ClientHello), Proto.PAuthenticate auth ∉ [Proto.PClientHello x]) as Hno
      by (intros x [=]%list_elem_of_singleton).
    destruct (signer k (Wire.build_session_cert_payload _ _ _ _)) as [s1|e]; cbn in Ha; [|by apply Hno in Ha].
    destruct (signer k payload) as [s2|e] eqn:E2; cbn in Ha; [|by apply Hno in Ha].
    destruct (send_envelope net 1); cbn in Ha; [|by apply Hno in Ha..].
    destruct (wait_for_auth_result rest) as [r unread]. cbn in Ha.
    apply elem_of_cons in Ha as [[=]|[= ->]%list_elem_of_singleton]. by exists s2. }
  destruct (Auth.authenticate_cases on_disconnect now_ms now_secs now_secs' auth h w)
    as [(pending' & entry & p' & Hlc & _)|(_ & _ & Hrej)]; [done|done|by rewrite Et| |exact Hrej].
  exfalso. pose proof (Auth.lc_pending _ _ _ _ _ _ _ Hlc) as Ep. rewrite Hp in Ep. injection Ep as <-.
  destruct (Auth.lc_signature _ _ _ _ _ _ _ Hlc) as (s' & Es' & Hv). rewrite Esig in Es'.
  apply array_eq in Es'. subst s'. rewrite Hk, Et in Hv. pose proof (Hs s _ Es Hv) as E. unfold payload in E.
  apply (proj1 (proj2 Wire.signed_payloads_injective)) in E as (E1 & _ & _ & E2 & E3); [|done..].
  unfold Wire.compute_cert_hash in E3. destruct Hne as [?|[?|?]]; congruence.
Qed.
End server.

(** ** Witnesses *)

#[local] Existing Instances Persist.codecs Persist.codecs_laws Session.sample_external.

(** A server with a self-signed certificate, dialled by address. *)
Definition sample_net (frames : list Recv) : Net :=
  mkNet (Done tt) [Byte.x2a] (IpAddress "V4(127.0.0.1)") (λ _ _ _, Some (InvalidCertificate UnknownIssuer)) None
    (λ _, ["QUIC handshake failed"; "invalid peer certificate"]) (Done tt) (Some [Byte.x2a]) (λ _, None) frames.
Definition sample_signer : KeySigner := λ _ _, Ok (array_of_N 64 (9 * 2 ^ 256 + 9)).
Definition sample_fresh : Fresh := mkFresh (array_of_N 32 5) 1000.
Definition no_certs : ConnectConfig := mkConfig [] [].

Lemma trust_on_first_use_witness :
  ∃ info, captured (connect_to_server (λ _, None) false sample_signer Auth.key9 "newbie" None no_certs sample_fresh (sample_net []))
            = Some (Some info) ∧
    sent (connect_to_server (λ _, None) false sample_signer Auth.key9 "newbie" None
            (accept_certificate (certificate_der info) no_certs) sample_fresh (sample_net []))
      = [Proto.PClientHello (Proto.mkClientHello "newbie" (arr Auth.key9) None)].
Proof.
  eexists. split; [reflexivity|].
  destruct (trust_on_first_use (λ _, None) false sample_signer Auth.key9 "newbie" None no_certs sample_fresh (sample_net []))
    as [_ H]. specialize (H _ eq_refl). destruct H as (_ & _ & _ & _ & _ & _ & H & _).
  specialize (H (sample_net []) eq_refl eq_refl eq_refl). 
  etrans; [exact (f_equal fst H)|reflexivity].
Defined.

Lemma sample_open : open_to 2 Session.sample_world.
Proof.
  split; [apply not_elem_of_empty|apply not_elem_of_empty|]. intros id x. unfold St.get_client.
  destruct (St.members (Wld.server Session.sample_world) !! id) as [m|] eqn:Em; [|done]. cbn.
  destruct (Session.sample_wf_members _ _ Em) as [_ Hb]. unfold St.member_client.
  destruct (St.binding m) eqn:E; [|done]. intros [= <-]. by apply Hb.
Qed.

Lemma sample_welcome :
  welcome sample_signer Auth.key9 "newbie" None sample_fresh
    (mkNet (Done tt) [] UnknownName (λ _ _ _, None) None (λ _, []) (Done tt)
       (Some (St.server_cert_der (Wld.server Session.sample_world))) (λ _, None) [])
    None 2000 2 2 Session.sample_world.
Proof.
  split; try done.
  - intros m. eexists. split; [reflexivity|]. vm_compute. reflexivity.
  - exact sample_open.
  - by right.
  - destruct Auth.hello_checks as [entry Hc]. exact (Auth.lc_not_barred _ _ _ _ _ _ _ Hc).
  - intros i. pose proof (Auth.hello_groups i) as E. change (Wld.persistence Auth.hello_world) with
      (Wld.persistence Session.sample_world) in E. rewrite E. apply NoDup_nil_2.
Qed.

Lemma login_conversation_witness :
  ∃ auth j entry,
    j_user_id j = 2%N ∧ St.session_id entry = j_session_id j ∧
    login sample_signer Auth.key9 "newbie" None sample_fresh
      (mkNet (Done tt) [] UnknownName (λ _ _ _, None) None (λ _, []) (Done tt)
         (Some (St.server_cert_der (Wld.server Session.sample_world))) (λ _, None)
         (let w1 := (Auth.handle_client_hello (array_of_N 32 77) 0 None
                       (Proto.mkClientHello "newbie" (arr Auth.key9) None) 2 Session.sample_world).2 in
          replies 2 Session.sample_world w1 ++
          replies 2 w1 (Auth.handle_authenticate (λ _, mret tt) 2000 2 2 auth 2 w1).2)) =
    ([Proto.PClientHello (Proto.mkClientHello "newbie" (arr Auth.key9) None); Proto.PAuthenticate auth], Done j).
Proof.
  destruct (login_conversation (λ _, mret tt) sample_signer Auth.key9 "newbie" None sample_fresh _ None
    (array_of_N 32 77) 0 2000 2 2 2 Session.sample_world
    (λ x, keeps_ret (same Wld.frame_of) tt) (λ x, keeps_ret (undisturbed 2) tt) sample_welcome)
    as (auth & _ & _ & j & entry & ws & Hrun & Hid & _ & _ & _ & Hsid & _).
  exists auth, j, entry. split; [exact Hid|]. split; [exact Hsid|]. exact Hrun.
Defined.

(** A server in the middle passes its own nonce on. *)
Definition other_hello : list Recv := [Frame (Some (Some (Proto.ServerHello (arr (array_of_N 32 78)) "Rumble Server" 2)))].
Definition signed_payload : bytes :=
  Wire.build_auth_payload (array_of_N 32 78) 1000 Auth.key9 2 (server_cert_hash (sample_net [])).
Definition one_payload_external : External := {|
  ext_blake3 := ext_blake3; ext_sha256 := ext_sha256; ext_encode_state := ext_encode_state; ext_valid_key _ := true;
  ext_verify _ m _ := bool_decide (m = signed_payload); ext_bcrypt_verify := ext_bcrypt_verify;
  ext_fmt_permissions := ext_fmt_permissions |}.

Lemma login_is_bound_witness :
  ∃ auth, Proto.PAuthenticate auth ∈
    (@login one_payload_external sample_signer Auth.key9 "newbie" None sample_fresh (sample_net other_hello)).1 ∧
    2%N ∈ Wld.closed (@Auth.handle_authenticate _ _ _ one_payload_external (λ _, mret tt) 2000 2 2 auth 2 Auth.hello_world).2.
Proof.
  eexists. split; [apply list_elem_of_further, list_elem_of_here|].
  destruct (@login_is_bound _ _ _ one_payload_external _ _ (λ _, mret tt) sample_signer Auth.key9 "newbie" None sample_fresh
    (sample_net other_hello) (Proto.mkAuthenticate (arr (array_of_N 64 (9 * 2 ^ 256 + 9))) 1000
      (Some (Proto.mkSessionCertificate (arr (array_of_N 32 5)) 1000 86401000 (Some "newbie") (arr (array_of_N 64 (9 * 2 ^ 256 + 9))))))
    (array_of_N 32 78) 2 [] (St.mkPendingAuth (array_of_N 32 77) 2 Auth.key9 0 "newbie") 2000 2 2 2 Auth.hello_world)
    as (_ & _ & _ & Hc).
  - reflexivity.
  - apply list_elem_of_further, list_elem_of_here.
  - intros s m _ Hv. exact (bool_decide_eq_true_1 _ Hv).
  - split; lia.
  - split; cbn; lia.
  - lia.
  - intros i. rewrite Auth.hello_groups. apply NoDup_nil_2.
  - reflexivity.
  - reflexivity.
  - reflexivity.
  - left. cbn. intros E. apply (f_equal arr) in E. vm_compute in E. discriminate E.
  - exact Hc.
Defined.

End HandshakeFacts.
