(* ===== verification/Connection.v ===== *)
(** The client's connection task: [route_command], [send_tracked],
    [run_connection_task], [run_receiver_task] and [watch_share_upload] of
    [crates/rumble-client/src/handle.rs], with [Command] of
    [crates/rumble-client/src/events.rs].

    One task owns the connection; every connection has a receiver task of its own
    that reads it, and every running upload a watcher.  They run in parallel.  The
    locals of [run_connection_task] are the fields of [Task], what the tasks share
    is in [System], and an [Event] is what one task does in one go: the connection
    task handles one message of its channels (a handshake, during which it answers
    nothing else, is two events), a receiver takes one frame or does one of the
    sends at its end.  A generation names everything that is made for one
    connection: the transport, the flag that says it was closed here, the plugin
    and the receiver.  [out] lists what the tasks hand on, in order.

    The answers of the surroundings during an event are an [Env]: the state the
    user interface shows at that moment (the projection writes it later), whether a
    write fails, what the plugin answers, ids and times.  A command that a task
    sends to the connection task is noted in [out]; when it is handled it is an
    event like any other.  Logging and repaints are left out. *)
From Stdlib Require Import NArith ZArith String.
From stdpp Require Import base gmap list strings.
From S2P Require Import Prelude Proto Types Wire State World RoomTree Client Pipeline Playback AudioTask Handshake.

Module Connection.
Open Scope string_scope.
Open Scope list_scope.

(** ** Commands *)

Inductive SfxKind :=
  | SfxUserJoin | SfxUserLeave | SfxConnect | SfxDisconnect | SfxMute | SfxUnmute | SfxDeafen | SfxUndeafen | SfxMessage
  | SfxPrivateMessage | SfxSelfChannelJoin | SfxSelfChannelMoved | SfxServerMute | SfxKicked.

Inductive Command (V : Type) :=
  | Connect (addr name : string) (public_key : Types.PublicKey) (password : option string)
  | Disconnect
  | Shutdown
  | AcceptCertificate
  | RejectCertificate
  | JoinRoom (room_id : Types.Uuid)
  | CreateRoom (name : string) (parent_id : Types.Uuid)
  | DeleteRoom (room_id : Types.Uuid)
  | RenameRoom (room_id : Types.Uuid) (new_name : string)
  | MoveRoom (room_id new_parent_id : Types.Uuid)
  | SetRoomDescription (room_id : Types.Uuid) (description : string)
  | SendChat (text : string)
  | SendTreeChat (text : string)
  | SendDirectMessage (target_user_id : N) (target_username text : string)
  | LocalMessage (text : string)
  | SetInputDevice (device_id : option string)
  | SetOutputDevice (device_id : option string)
  | RefreshAudioDevices
  | SetVoiceMode (mode : Playback.VoiceMode)
  | SetMuted (muted : bool)
  | SetDeafened (deafened : bool)
  | MuteUser (user_id : N)
  | UnmuteUser (user_id : N)
  | StartTransmit
  | StopTransmit
  | UpdateAudioSettings (settings : Playback.AudioSettings)
  | ResetAudioStats
  | UpdateTxPipeline (config : Pipeline.PipelineConfig V)
  | UpdateRxPipelineDefaults (config : Pipeline.PipelineConfig V)
  | UpdateUserRxConfig (user_id : N) (config : Pipeline.UserRxConfig V)
  | ClearUserRxOverride (user_id : N)
  | SetUserVolume (user_id : N) (volume_db : Pipeline.f32)
  | RegisterUser (user_id : N)
  | UnregisterUser (user_id : N)
  | ShareFile (path : string)
  | DownloadFile (share_data : string)
  | CancelTransfer (transfer_id : string)
  | SetFileTransferSpeedLimits (download_bps upload_bps : N)
  | PlaySfx (kind : SfxKind) (volume : Pipeline.f32)
  | RequestChatHistory
  | ShareChatHistory
  | PingServer
  | RequestStateSync (expected_hash actual_hash : bytes)
  | KickUser (target_user_id : N) (reason : string)
  | BanUser (target_user_id : N) (reason : string) (duration_seconds : option N)
  | SetServerMute (target_user_id : N) (muted : bool)
  | Elevate (password : string)
  | CreateGroup (name : string) (permissions : N)
  | DeleteGroup (name : string)
  | ModifyGroup (name : string) (permissions : N)
  | ToggleGroupPermission (name : string) (bits : N) (enable : bool)
  | SetUserGroup (target_user_id : N) (group : string) (add : bool) (expires_at : N)
  | RequestRegisteredUsers
  | SetRegisteredUserGroup (public_key : Types.PublicKey) (group : string) (add : bool) (expires_at : N)
  | SetRoomAcl (room_id : Types.Uuid) (inherit_acl : bool) (entries : list Types.RoomAclEntry) (base_version : N).

Arguments Connect {V}. Arguments Disconnect {V}. Arguments Shutdown {V}. Arguments AcceptCertificate {V}.
Arguments RejectCertificate {V}. Arguments JoinRoom {V}. Arguments CreateRoom {V}. Arguments DeleteRoom {V}.
Arguments RenameRoom {V}. Arguments MoveRoom {V}. Arguments SetRoomDescription {V}. Arguments SendChat {V}.
Arguments SendTreeChat {V}. Arguments SendDirectMessage {V}. Arguments LocalMessage {V}. Arguments SetInputDevice {V}.
Arguments SetOutputDevice {V}. Arguments RefreshAudioDevices {V}. Arguments SetVoiceMode {V}. Arguments SetMuted {V}.
Arguments SetDeafened {V}. Arguments MuteUser {V}. Arguments UnmuteUser {V}. Arguments StartTransmit {V}.
Arguments StopTransmit {V}. Arguments UpdateAudioSettings {V}. Arguments ResetAudioStats {V}. Arguments UpdateTxPipeline {V}.
Arguments UpdateRxPipelineDefaults {V}. Arguments UpdateUserRxConfig {V}. Arguments ClearUserRxOverride {V}.
Arguments SetUserVolume {V}. Arguments RegisterUser {V}. Arguments UnregisterUser {V}. Arguments ShareFile {V}.
Arguments DownloadFile {V}. Arguments CancelTransfer {V}. Arguments SetFileTransferSpeedLimits {V}. Arguments PlaySfx {V}.
Arguments RequestChatHistory {V}. Arguments ShareChatHistory {V}. Arguments PingServer {V}. Arguments RequestStateSync {V}.
Arguments KickUser {V}. Arguments BanUser {V}. Arguments SetServerMute {V}. Arguments Elevate {V}. Arguments CreateGroup {V}.
Arguments DeleteGroup {V}. Arguments ModifyGroup {V}. Arguments ToggleGroupPermission {V}. Arguments SetUserGroup {V}.
Arguments RequestRegisteredUsers {V}. Arguments SetRegisteredUserGroup {V}. Arguments SetRoomAcl {V}.

(** Where a command goes: to the audio task, to the connection task, or both.
    [sfx] is the library of sounds. *)
Definition route_command {V} (sfx : SfxKind → option (list Pipeline.f32)) (command : Command V)
    : list (AudioTask.AudioCommand V) * option (Command V) :=
  match command with
  | RefreshAudioDevices => ([AudioTask.RefreshDevices], None)
  | SetInputDevice device_id => ([AudioTask.SetInputDevice device_id], None)
  | SetOutputDevice device_id => ([AudioTask.SetOutputDevice device_id], None)
  | SetVoiceMode mode => ([AudioTask.SetVoiceMode mode], None)
  | SetMuted muted => ([AudioTask.SetMuted muted], Some command)
  | SetDeafened deafened => ([AudioTask.SetDeafened deafened], Some command)
  | MuteUser user_id => ([AudioTask.MuteUser user_id], None)
  | UnmuteUser user_id => ([AudioTask.UnmuteUser user_id], None)
  | StartTransmit => ([AudioTask.StartTransmit], None)
  | StopTransmit => ([AudioTask.StopTransmit], None)
  | UpdateAudioSettings settings => ([AudioTask.UpdateSettings settings], None)
  | ResetAudioStats => ([AudioTask.ResetStats], None)
  | UpdateTxPipeline config => ([AudioTask.UpdateTxPipeline config], None)
  | UpdateRxPipelineDefaults config => ([AudioTask.UpdateRxPipelineDefaults config], None)
  | UpdateUserRxConfig user_id config => ([AudioTask.UpdateUserRxConfig user_id config], None)
  | ClearUserRxOverride user_id => ([AudioTask.ClearUserRxOverride user_id], None)
  | SetUserVolume user_id volume_db => ([AudioTask.SetUserVolume user_id volume_db], None)
  | PlaySfx kind volume =>
      (match sfx kind with
       | Some samples => [AudioTask.PlaySfx (map (λ s, Pipeline.f32_mul s volume) samples)]
       | None => []
       end, None)
  | _ => ([], Some command)
  end.

(** ** State *)

Inductive PluginCall :=
  | Share (path : string)
  | Download (share_data : string)
  | Cancel (transfer_id : string)
  | SetRoomId (room_id : Types.Uuid).

Record DeferredAction := mkFinalize {
  fin_message_id : array 16; fin_attachment : Types.ChatAttachment; fin_sender : string; fin_timestamp : Client.SystemTime }.

Inductive Output (V : Type) :=
  | Write (generation : N) (payload : option Proto.ClientPayload)
  | CloseTransport (generation : N)
  | Audio (cmd : AudioTask.AudioCommand V)
  | Ui (e : Client.Emission)
  | Plugin (generation : N) (call : PluginCall)
  | Queue (cmd : Command V).
Arguments Write {V}. Arguments CloseTransport {V}. Arguments Audio {V}. Arguments Ui {V}. Arguments Plugin {V}. Arguments Queue {V}.

(** What a connection attempt was asked for; [at_accepting]: after the user
    accepted the certificate. *)
Record Attempt := mkAttempt {
  at_addr : string; at_name : string; at_key : Types.PublicKey; at_password : option string; at_accepting : bool }.

Inductive Phase := Idle | Connecting (a : Attempt) | Stopped.

(** How far a receiver is: it reads; then come the audio task, the plugin slot, the
    decision whether the connection was lost, and the report. *)
Inductive Stage := Reading | Notifying | Clearing | Deciding | Reporting | Ended.
#[export] Instance stage_eq_dec : EqDecision Stage.
Proof. solve_decision. Defined.

Record Task := mkTask {
  transport : option N;
  local_close : option N;
  client_name : string;
  file_transfer : option N;
  conn_gen : N;
  config : Handshake.ConnectConfig;
  ft_speed_limits : N * N;
  phase : Phase;
}.

Record Watcher := mkWatcher { w_transfer_id : string; w_action : DeferredAction }.

Record System (V : Type) := mkSystem {
  task : Task;
  closed_here : gset N;
  file_transfer_slot : option N;
  receivers : gmap N Stage;
  teardowns : list N;
  deferred : list DeferredAction;
  watchers : list Watcher;
  out : list (Output V);
}.
Arguments mkSystem {V}. Arguments task {V}. Arguments closed_here {V}. Arguments file_transfer_slot {V}.
Arguments receivers {V}. Arguments teardowns {V}. Arguments deferred {V}. Arguments watchers {V}. Arguments out {V}.

(** What the surroundings answer during an event. *)
Record Env := mkEnv {
  (** the state shown at that moment; [audio.self_muted] and [audio.self_deafened] *)
  view : Client.State;
  view_self_muted : bool;
  view_self_deafened : bool;
  new_id : array 16;
  now : Client.SystemTime;
  (** the error of a write to the transport in use *)
  write_error : option Handshake.Error;
  (** the network and the fresh values of a handshake *)
  net : Handshake.Net;
  fresh : Handshake.Fresh;
  (** the plugin: [share] with [encode_attachment], [download], [transfers] and [cancel] *)
  share_answer : Handshake.Error + (string * Types.ChatAttachment);
  download_answer : option Handshake.Error;
  transfer_names : list (string * string);
  cancel_error : option Handshake.Error;
}.

(** What a watcher finds when it looks. *)
Inductive Seen := Gone | IsDone | IsFailed | InProgress.

Inductive Event (V : Type) :=
  | Handle (cmd : Command V)
  | CommandsClosed
  | Teardown
  | Deferred
  | FinishHandshake
  | Received (generation : N) (envelope : option (option Proto.ServerPayload))
  | StreamEnded (generation : N)
  | Silent (generation : N)
  | ReceiverStep (generation : N)
  | Watch (i : nat) (s : Seen).
Arguments Handle {V}. Arguments CommandsClosed {V}. Arguments Teardown {V}. Arguments Deferred {V}.
Arguments FinishHandshake {V}. Arguments Received {V}. Arguments StreamEnded {V}. Arguments Silent {V}.
Arguments ReceiverStep {V}. Arguments Watch {V}.

(** Writing one field. *)
Definition set_transport (x : option N) (t : Task) : Task :=
  mkTask x (local_close t) (client_name t) (file_transfer t) (conn_gen t) (config t) (ft_speed_limits t) (phase t).
Definition set_local_close (x : option N) (t : Task) : Task :=
  mkTask (transport t) x (client_name t) (file_transfer t) (conn_gen t) (config t) (ft_speed_limits t) (phase t).
Definition set_client_name (x : string) (t : Task) : Task :=
  mkTask (transport t) (local_close t) x (file_transfer t) (conn_gen t) (config t) (ft_speed_limits t) (phase t).
Definition set_file_transfer (x : option N) (t : Task) : Task :=
  mkTask (transport t) (local_close t) (client_name t) x (conn_gen t) (config t) (ft_speed_limits t) (phase t).
Definition set_conn_gen (x : N) (t : Task) : Task :=
  mkTask (transport t) (local_close t) (client_name t) (file_transfer t) x (config t) (ft_speed_limits t) (phase t).
Definition set_config (x : Handshake.ConnectConfig) (t : Task) : Task :=
  mkTask (transport t) (local_close t) (client_name t) (file_transfer t) (conn_gen t) x (ft_speed_limits t) (phase t).
Definition set_ft_speed_limits (x : N * N) (t : Task) : Task :=
  mkTask (transport t) (local_close t) (client_name t) (file_transfer t) (conn_gen t) (config t) x (phase t).
Definition set_phase (x : Phase) (t : Task) : Task :=
  mkTask (transport t) (local_close t) (client_name t) (file_transfer t) (conn_gen t) (config t) (ft_speed_limits t) x.

(** What the platform provides: the file-transfer plugin if it has one, the key, the
    file system, the build feature, and serde_json on the two in-band messages. *)
Class Platform := {
  has_file_transfer : bool;
  key_signer : Handshake.KeySigner;
  read_file : string → option bytes;
  insecure_build : bool;
  history_request_json : string;
  history_share_json : Client.ChatHistoryContent → string;
  parse_history_request : string → bool;
  parse_history_share : string → option Client.ChatHistoryContent;
}.

Section connection.
Context {V : Type} `{!External} `{!Client.Hex} `{!Platform}.
Abbreviation Sys := (System V).
Abbreviation M := (ST Sys).

Definition set_task (x : Task) (s : Sys) : Sys :=
  mkSystem x (closed_here s) (file_transfer_slot s) (receivers s) (teardowns s) (deferred s) (watchers s) (out s).
Definition set_closed_here (x : gset N) (s : Sys) : Sys :=
  mkSystem (task s) x (file_transfer_slot s) (receivers s) (teardowns s) (deferred s) (watchers s) (out s).
Definition set_file_transfer_slot (x : option N) (s : Sys) : Sys :=
  mkSystem (task s) (closed_here s) x (receivers s) (teardowns s) (deferred s) (watchers s) (out s).
Definition set_receivers (x : gmap N Stage) (s : Sys) : Sys :=
  mkSystem (task s) (closed_here s) (file_transfer_slot s) x (teardowns s) (deferred s) (watchers s) (out s).
Definition set_teardowns (x : list N) (s : Sys) : Sys :=
  mkSystem (task s) (closed_here s) (file_transfer_slot s) (receivers s) x (deferred s) (watchers s) (out s).
Definition set_deferred (x : list DeferredAction) (s : Sys) : Sys :=
  mkSystem (task s) (closed_here s) (file_transfer_slot s) (receivers s) (teardowns s) x (watchers s) (out s).
Definition set_watchers (x : list Watcher) (s : Sys) : Sys :=
  mkSystem (task s) (closed_here s) (file_transfer_slot s) (receivers s) (teardowns s) (deferred s) x (out s).
Definition set_out (x : list (Output V)) (s : Sys) : Sys :=
  mkSystem (task s) (closed_here s) (file_transfer_slot s) (receivers s) (teardowns s) (deferred s) (watchers s) x.

Definition on_task (f : Task → Task) : M unit := modify (λ s, set_task (f (task s)) s).
Definition emit (o : Output V) : M unit := modify (λ s, set_out (out s ++ [o]) s).
Definition get {A} (f : Task → A) : M A := gets (λ s, f (task s)).

(** ** Helpers *)

Definition connection_event (e : Client.ConnectionEvent) : M unit := emit (Ui (Client.ToConnection e)).
Definition room_event (e : Client.RoomEvent) : M unit := emit (Ui (Client.ToRoom e)).
Definition chat_event (e : Client.ChatEvent) : M unit := emit (Ui (Client.ToChat e)).
Definition toast (level : Client.NotificationLevel) (text : string) : M unit := emit (Ui (Client.Toast level text)).

(** The wipe of rooms and users that ends a session. *)
Definition wipe : Client.RoomEvent := Client.FullStateReplaced [] [] [] [] ∅.

(** [if let Some(flag) = local_close.take() { flag.store(true) }]. *)
Definition take_local_close : M unit :=
  flag ← get local_close;
  match flag with
  | Some g => modify (λ s, set_closed_here ({[ g ]} ∪ closed_here s) s);; on_task (set_local_close None)
  | None => mret tt
  end.

Definition publish_ft : M unit :=
  modify (λ s, set_file_transfer_slot (file_transfer (task s)) s).
Definition drop_ft : M unit := on_task (set_file_transfer None);; publish_ft.

(** One envelope written to connection [g]. *)
Definition send_envelope (env : Env) (g : N) (payload : option Proto.ClientPayload) : M (option Handshake.Error) :=
  match write_error env with
  | Some e => mret (Some e)
  | None => emit (Write g payload);; mret None
  end.

Definition send_disconnect_envelope (env : Env) (g : N) (reason : string) : M unit :=
  _ ← send_envelope env g (Some (Proto.PDisconnect reason)); mret tt.

(** [if let Some(t) = transport.take() { .. t.close() }], with what is done first. *)
Definition close_transport (first : N → M unit) : M bool :=
  t ← get transport;
  match t with
  | Some g => first g;; on_task (set_transport None);; emit (CloseTransport g);; mret true
  | None => mret false
  end.
Definition nothing_first (g : N) : M unit := mret tt.

Definition send_tracked (env : Env) (payload : option Proto.ClientPayload) : M bool :=
  t ← get transport;
  match t with
  | None => mret false
  | Some g =>
      r ← send_envelope env g payload;
      match r with
      | None => mret true
      | Some e =>
          flag ← get local_close;
          match flag with
          | Some g => modify (λ s, set_closed_here ({[ g ]} ∪ closed_here s) s)
          | None => mret tt
          end;;
          _ ← close_transport nothing_first;
          emit (Audio AudioTask.ConnectionClosed);;
          connection_event (Client.LostConnection ("Send failed: " +:+ Handshake.to_string e));;
          room_event wipe;;
          mret false
      end
  end.

(** [if transport.is_some() { send_tracked(..) }]. *)
Definition connected : M bool := get (λ t, bool_decide (is_Some (transport t))).

(** [duration_since(UNIX_EPOCH).unwrap_or_default().as_millis() as i64]. *)
Definition unix_millis (t : Client.SystemTime) : Z :=
  if (t <? 0)%Z then 0%Z else ((t / 1000000 + 2 ^ 63) mod 2 ^ 64 - 2 ^ 63)%Z.
(** ** Commands that send one envelope *)

Definition room_envelope (cmd : Command V) : option Proto.ClientPayload :=
  match cmd with
  | JoinRoom room_id => Some (Proto.PJoinRoom (Some (Types.room_id_from_uuid room_id)))
  | CreateRoom name parent_id =>
      Some (Proto.PCreateRoom (Proto.mkCreateRoom name
        (if bool_decide (parent_id = Types.ROOT_ROOM_UUID) then None else Some (Types.room_id_from_uuid parent_id)) None))
  | DeleteRoom room_id => Some (Proto.PDeleteRoom (Some (Types.room_id_from_uuid room_id)))
  | RenameRoom room_id new_name => Some (Proto.PRenameRoom (Some (Types.room_id_from_uuid room_id)) new_name)
  | MoveRoom room_id new_parent_id =>
      Some (Proto.PMoveRoom (Some (Types.room_id_from_uuid room_id)) (Some (Types.room_id_from_uuid new_parent_id)))
  | SetRoomDescription room_id description =>
      Some (Proto.PSetRoomDescription (Some (Types.room_id_from_uuid room_id)) description)
  | _ => None
  end.

(** Deafening implies muting. *)
Definition status_envelope (env : Env) (cmd : Command V) : option Proto.ClientPayload :=
  match cmd with
  | SetMuted muted => Some (Proto.PSetUserStatus muted (view_self_deafened env))
  | SetDeafened deafened => Some (Proto.PSetUserStatus (view_self_muted env || deafened) deafened)
  | _ => None
  end.

Definition registration_envelope (cmd : Command V) : option Proto.ClientPayload :=
  match cmd with
  | RegisterUser user_id => Some (Proto.PRegisterUser (Some (Proto.mkUserId user_id)))
  | UnregisterUser user_id => Some (Proto.PUnregisterUser (Some (Proto.mkUserId user_id)))
  | _ => None
  end.

Definition moderation_envelope (cmd : Command V) : option Proto.ClientPayload :=
  match cmd with
  | KickUser target_user_id reason => Some (Proto.PKickUser target_user_id reason)
  | BanUser target_user_id reason duration_seconds =>
      Some (Proto.PBanUser target_user_id reason (default 0%N duration_seconds))
  | SetServerMute target_user_id muted => Some (Proto.PSetServerMute target_user_id muted)
  | Elevate password => Some (Proto.PElevate password)
  | _ => None
  end.

Definition group_envelope (cmd : Command V) : option Proto.ClientPayload :=
  match cmd with
  | CreateGroup name permissions => Some (Proto.PCreateGroup name permissions)
  | DeleteGroup name => Some (Proto.PDeleteGroup name)
  | ModifyGroup name permissions => Some (Proto.PModifyGroup name permissions)
  | ToggleGroupPermission name bits enable => Some (Proto.PToggleGroupPermission name bits enable)
  | SetUserGroup target_user_id group add expires_at => Some (Proto.PSetUserGroup target_user_id group add expires_at)
  | _ => None
  end.

Definition acl_envelope (cmd : Command V) : option Proto.ClientPayload :=
  match cmd with
  | SetRoomAcl room_id inherit_acl entries base_version =>
      Some (Proto.PSetRoomAcl (Proto.mkSetRoomAcl (arr room_id) inherit_acl
        (map Types.acl_entry_to_proto entries) base_version))
  | RequestRegisteredUsers => Some Proto.PRequestRegisteredUsers
  | SetRegisteredUserGroup public_key group add expires_at =>
      Some (Proto.PSetRegisteredUserGroup (arr public_key) group add expires_at)
  | _ => None
  end.

Definition envelope_of (env : Env) (cmd : Command V) : option Proto.ClientPayload :=
  match room_envelope cmd, status_envelope env cmd, registration_envelope cmd,
        moderation_envelope cmd, group_envelope cmd, acl_envelope cmd with
  | Some p, _, _, _, _, _ | _, Some p, _, _, _, _ | _, _, Some p, _, _, _
  | _, _, _, Some p, _, _ | _, _, _, _, Some p, _ | _, _, _, _, _, Some p => Some p
  | _, _, _, _, _, _ => None
  end.

Definition send_if_connected (env : Env) (payload : option Proto.ClientPayload) : M unit :=
  up ← connected;
  if up : bool then _ ← send_tracked env payload; mret tt else mret tt.

(** ** Chat *)

Definition chat_payload (env : Env) (name text : string) (tree : option bool) : Proto.ClientPayload :=
  Proto.PChatMessage (Proto.mkChatMessage (arr (new_id env)) (unix_millis (now env)) name text tree None).

(** The line inserted locally: the server does not echo a message to its author. *)
Definition own_message (env : Env) (name text : string) (kind : Client.ChatMessageKind) : Client.ChatEvent :=
  Client.MessageAdded (Client.mkChatMessage (new_id env) name (Client.my_user_id (view env)) text (now env) kind None
    Client.Normal).

Definition on_send_chat (env : Env) (text : string) : M unit :=
  up ← connected;
  if up : bool then
    name ← get client_name;
    _ ← send_tracked env (Some (chat_payload env name text None));
    chat_event (own_message env name text Client.Room)
  else mret tt.

Definition on_send_tree_chat (env : Env) (text : string) : M unit :=
  up ← connected;
  if up : bool then
    name ← get client_name;
    _ ← send_tracked env (Some (chat_payload env name text (Some true)));
    chat_event (own_message env name text Client.Tree)
  else mret tt.

Definition on_send_direct_message (env : Env) (target_user_id : N) (target_username text : string) : M unit :=
  up ← connected;
  if up : bool then
    name ← get client_name;
    _ ← send_tracked env (Some (Proto.PDirectMessage
          (Proto.mkDirectMessage target_user_id text (arr (new_id env)) (unix_millis (now env)))));
    chat_event (own_message env name text (Client.DirectMessage target_user_id target_username))
  else mret tt.

Definition on_request_chat_history (env : Env) : M unit :=
  up ← connected;
  if up : bool then
    name ← get client_name;
    sent ← send_tracked env (Some (chat_payload env name history_request_json None));
    if sent : bool then chat_event (Client.SystemNotice "Requesting chat history from peers...") else mret tt
  else mret tt.

Definition on_share_chat_history (env : Env) : M unit :=
  up ← connected;
  if up : bool then
    name ← get client_name;
    match Client.shared_history (Client.chat_messages (view env)) with
    | None => mret tt
    | Some content => _ ← send_tracked env (Some (chat_payload env name (history_share_json content) None)); mret tt
    end
  else mret tt.

(** ** Files *)

Definition on_share_file (env : Env) (path : string) : M unit :=
  ft ← get file_transfer;
  match ft with
  | None => toast Client.Error "File sharing is not currently available"
  | Some g =>
      emit (Plugin g (Share path));;
      match share_answer env with
      | inl e => toast Client.Error ("File share failed: " +:+ Handshake.to_string e)
      | inr (transfer_id, attachment) =>
          name ← get client_name;
          chat_event (Client.SenderDraftInserted (Client.mkChatMessage (new_id env) name
            (Client.my_user_id (view env)) (Types.ca_fallback_text attachment) (now env) Client.Room (Some attachment)
            Client.SenderDraft));;
          modify (λ s, set_watchers (watchers s ++
            [mkWatcher transfer_id (mkFinalize (new_id env) attachment name (now env))]) s)
      end
  end.

Definition on_download_file (env : Env) (share_data : string) : M unit :=
  ft ← get file_transfer;
  match ft with
  | None => toast Client.Error "File downloads are not currently available"
  | Some g =>
      emit (Plugin g (Download share_data));;
      match download_answer env with
      | None => mret tt
      | Some e => toast Client.Error ("Download failed: " +:+ Handshake.to_string e)
      end
  end.

Definition on_cancel_transfer (env : Env) (transfer_id : string) : M unit :=
  ft ← get file_transfer;
  match ft with
  | None => mret tt
  | Some g =>
      let name := match List.find (λ t, String.eqb t.1 transfer_id) (transfer_names env) with
                  | Some t => t.2 | None => transfer_id end in
      emit (Plugin g (Cancel transfer_id));;
      match cancel_error env with
      | Some _ => mret tt
      | None => toast Client.Info ("Transfer cancelled: " +:+ name)
      end
  end.

(** One look of [watch_share_upload]. *)
Definition watch (i : nat) (seen : Seen) : M unit :=
  λ s, match watchers s !! i with
       | None => (tt, s)
       | Some w =>
           match seen with
           | IsDone => (tt, set_watchers (delete i (watchers s)) (set_deferred (deferred s ++ [w_action w]) s))
           | Gone | IsFailed => (tt, set_watchers (delete i (watchers s)) s)
           | InProgress => (tt, s)
           end
       end.

(** The finished upload is announced; this write is not tracked. *)
Definition finalize_share_upload (env : Env) (a : DeferredAction) : M unit :=
  t ← get transport;
  match t with
  | None => mret tt
  | Some g =>
      let text := Types.ca_fallback_text (fin_attachment a) in
      r ← send_envelope env g (Some (Proto.PChatMessage (Proto.mkChatMessage (arr (fin_message_id a))
            (unix_millis (fin_timestamp a)) (fin_sender a) text None
            (Some (Types.chat_attachment_to_proto (fin_attachment a))))));
      match r with
      | Some e => toast Client.Error ("Failed to broadcast share: " +:+ Handshake.to_string e)
      | None =>
          chat_event (Client.SenderMirrorInserted (Client.mkChatMessage (fin_message_id a) (fin_sender a) None text
            (fin_timestamp a) Client.Room (Some (fin_attachment a)) Client.SenderMirror))
      end
  end.
(** ** Connecting *)

(** [Command::Connect] up to the handshake: a new connection supersedes the old. *)
Definition on_connect (env : Env) (addr name : string) (public_key : Types.PublicKey) (password : option string) : M unit :=
  take_local_close;;
  closed ← close_transport (λ g, send_disconnect_envelope env g "client reconnecting");
  (if closed : bool then emit (Audio AudioTask.ConnectionClosed);; drop_ft else mret tt);;
  on_task (set_client_name name);;
  connection_event (Client.ConnectStarted addr);;
  on_task (set_phase (Connecting (mkAttempt addr name public_key password false))).

(** [Command::AcceptCertificate] up to the handshake. *)
Definition on_accept_certificate (env : Env) : M unit :=
  match Client.connection (view env) with
  | Client.CertificatePending pending =>
      connection_event (Client.ConnectStarted (Client.cert_server_addr pending));;
      on_task (λ t, set_config (Handshake.accept_certificate (Client.certificate_der pending) (config t)) t);;
      on_task (set_phase (Connecting (mkAttempt (Client.cert_server_addr pending) (Client.cert_username pending)
        (Client.cert_public_key pending) (Client.cert_password pending) true)))
  | _ => mret tt
  end.

Definition on_reject_certificate : M unit := connection_event Client.IsDisconnected.

(** Our room in the list of users the server sent. *)
Definition my_room_uuid (user_id : N) (users : list Types.User) : Types.Uuid :=
  match List.find (λ u, bool_decide (Types.user_id u = user_id)) users with
  | Some u => Types.current_room u
  | None => Types.ROOT_ROOM_UUID
  end.

(** A finished handshake becomes the connection. *)
Definition established (env : Env) (a : Attempt) (j : Handshake.Joined) : M unit :=
  let user_id := Handshake.j_user_id j in
  connection_event (Client.IsConnected "Rumble Server" user_id (Handshake.j_session_public_key j) (Handshake.j_session_id j));;
  let room := my_room_uuid user_id (Handshake.joined_users j) in
  room_event (Client.full_state_event (Handshake.j_state j));;
  room_event (Client.SelfMovedToRoom room);;
  generation ← get (λ t, N.succ (conn_gen t));
  emit (Audio (AudioTask.ConnectionEstablished generation user_id));;
  (if at_accepting a then on_task (set_client_name (at_name a)) else mret tt);;
  on_task (set_transport (Some generation));;
  (if has_file_transfer then emit (Plugin generation (SetRoomId room)) else mret tt);;
  on_task (set_file_transfer (if has_file_transfer then Some generation else None));;
  publish_ft;;
  on_task (set_local_close (Some generation));;
  on_task (set_conn_gen generation);;
  modify (λ s, set_receivers (<[generation := Reading]> (receivers s)) s).

(** What a failed attempt shows. *)
Definition failed_attempt (a : Attempt) (captured : Handshake.CapturedCert) (e : Handshake.Error) : M unit :=
  if at_accepting a then connection_event (Client.LostConnection (Handshake.to_string e))
  else match captured with
  | Some (Some info) =>
      connection_event (Client.CertificateIsPending (Client.mkPendingCertificate (Handshake.certificate_der info)
        (Handshake.fingerprint info) (Handshake.server_name info) (at_addr a) (at_name a) (at_password a) (at_key a)))
  | _ =>
      if Handshake.is_cert_error_message e
      then connection_event (Client.LostConnection ("Certificate error: " +:+ Handshake.to_string e))
      else connection_event (Client.LostConnection (Handshake.to_string e))
  end.

Definition timed_out (a : Attempt) : M unit :=
  connection_event Client.IsDisconnected;;
  chat_event (Client.SystemNotice ("Connection to " +:+ at_addr a +:+ " timed out")).

(** The end of the handshake, within [HANDSHAKE_TIMEOUT]. *)
Definition finish_handshake (env : Env) (a : Attempt) : M unit :=
  config ← get config;
  let run := Handshake.connect_to_server read_file insecure_build key_signer (at_key a) (at_name a) (at_password a)
               config (fresh env) (net env) in
  match Handshake.ended run with
  | Handshake.Pending => timed_out a
  | Handshake.Done j => established env a j
  | Handshake.Failed e => failed_attempt a (Handshake.captured run) e
  end;;
  on_task (set_phase Idle).

(** ** Disconnecting *)

Definition on_disconnect (env : Env) : M unit :=
  take_local_close;;
  emit (Audio AudioTask.ConnectionClosed);;
  _ ← close_transport (λ g, send_disconnect_envelope env g "client disconnected");
  drop_ft;;
  room_event wipe;;
  connection_event Client.IsDisconnected.

Definition on_shutdown (env : Env) : M unit :=
  take_local_close;;
  emit (Audio AudioTask.ConnectionClosed);;
  _ ← close_transport (λ g, send_disconnect_envelope env g "client shutdown");
  on_task (set_phase Stopped).

(** Every sender of the command channel is gone. *)
Definition on_commands_closed (env : Env) : M unit :=
  _ ← close_transport (λ g, send_disconnect_envelope env g "client shutdown");
  on_task (set_phase Stopped).

(** A request about any connection but the current one is stale. *)
Definition on_teardown (generation : N) : M unit :=
  current ← get conn_gen;
  if (generation =? current)%N then
    take_local_close;;
    _ ← close_transport nothing_first;
    drop_ft
  else mret tt.

(** ** The connection task *)

Definition on_local_message (text : string) : M unit := chat_event (Client.SystemNotice text).

Definition on_set_file_transfer_speed_limits (download_bps upload_bps : N) : M unit :=
  on_task (set_ft_speed_limits (download_bps, upload_bps)).

(** The liveness probe: an empty envelope. *)
Definition on_ping_server (env : Env) : M unit := send_if_connected env None.

Definition on_request_state_sync (env : Env) (expected_hash actual_hash : bytes) : M unit :=
  _ ← send_tracked env (Some (Proto.PRequestStateSync expected_hash actual_hash)); mret tt.

Definition handle_command (env : Env) (cmd : Command V) : M unit :=
  match cmd with
  | Connect addr name public_key password => on_connect env addr name public_key password
  | AcceptCertificate => on_accept_certificate env
  | RejectCertificate => on_reject_certificate
  | Disconnect => on_disconnect env
  | Shutdown => on_shutdown env
  | SendChat text => on_send_chat env text
  | SendTreeChat text => on_send_tree_chat env text
  | SendDirectMessage target_user_id target_username text =>
      on_send_direct_message env target_user_id target_username text
  | LocalMessage text => on_local_message text
  | ShareFile path => on_share_file env path
  | DownloadFile share_data => on_download_file env share_data
  | CancelTransfer transfer_id => on_cancel_transfer env transfer_id
  | SetFileTransferSpeedLimits download_bps upload_bps => on_set_file_transfer_speed_limits download_bps upload_bps
  | RequestChatHistory => on_request_chat_history env
  | ShareChatHistory => on_share_chat_history env
  | PingServer => on_ping_server env
  | RequestStateSync expected_hash actual_hash => on_request_state_sync env expected_hash actual_hash
  | _ => match envelope_of env cmd with
         | Some payload => send_if_connected env (Some payload)
         | None => mret tt
         end
  end.

Definition take_teardown : M (option N) :=
  λ s, match teardowns s with [] => (None, s) | g :: l => (Some g, set_teardowns l s) end.
Definition take_deferred : M (option DeferredAction) :=
  λ s, match deferred s with [] => (None, s) | a :: l => (Some a, set_deferred l s) end.

(** ** The receiver task *)

Definition set_stage (g : N) (st : Stage) : M unit := modify (λ s, set_receivers (<[g := st]> (receivers s)) s).

(** The loop ends: the connection task is asked to release the connection. *)
Definition leave_loop (g : N) : M unit :=
  modify (λ s, set_teardowns (teardowns s ++ [g]) s);; set_stage g Notifying.

Definition on_frame (env : Env) (envelope : option (option Proto.ServerPayload)) : M unit :=
  match envelope with
  | Some payload =>
      for_each (Client.handle_server_message parse_history_request parse_history_share (new_id env) (now env)
                  (view env) payload) (λ e, emit (Ui e))
  | None => mret tt
  end.

(** Nothing came for [RECV_TIMEOUT]: a probe, unless the connection task is gone. *)
Definition on_silence (g : N) : M unit :=
  p ← get phase;
  match p with
  | Stopped => leave_loop g
  | _ => emit (Queue PingServer)
  end.

(** The next send of a receiver that has left its loop. *)
Definition receiver_step (env : Env) (g : N) (st : Stage) : M unit :=
  match st with
  | Reading | Ended => mret tt
  | Notifying => emit (Audio AudioTask.ConnectionClosed);; set_stage g Clearing
  | Clearing => modify (set_file_transfer_slot None);; set_stage g Deciding
  | Deciding =>
      local ← gets (λ s, bool_decide (g ∈ closed_here s));
      let already_disconnected := match Client.connection (view env) with Client.Disconnected => true | _ => false end in
      set_stage g (if negb local && negb already_disconnected then Reporting else Ended)
  | Reporting =>
      connection_event (Client.LostConnection "Connection closed");;
      room_event wipe;;
      set_stage g Ended
  end.

(** ** The whole *)

Definition when_idle (m : M unit) : M unit :=
  p ← get phase; match p with Idle => m | _ => mret tt end.
Definition when_at (g : N) (reading : bool) (m : Stage → M unit) : M unit :=
  st ← gets (λ s, receivers s !! g);
  match st with
  | Some st => if Bool.eqb reading (bool_decide (st = Reading)) then m st else mret tt
  | None => mret tt
  end.

Definition handle_event (env : Env) (e : Event V) : M unit :=
  match e with
  | Handle cmd => when_idle (handle_command env cmd)
  | CommandsClosed => when_idle (on_commands_closed env)
  | Teardown => when_idle (t ← take_teardown; match t with Some g => on_teardown g | None => mret tt end)
  | Deferred => when_idle (a ← take_deferred; match a with Some a => finalize_share_upload env a | None => mret tt end)
  | FinishHandshake => p ← get phase; match p with Connecting a => finish_handshake env a | _ => mret tt end
  | Received g envelope => when_at g true (λ _, on_frame env envelope)
  | StreamEnded g => when_at g true (λ _, leave_loop g)
  | Silent g => when_at g true (λ _, on_silence g)
  | ReceiverStep g => when_at g false (receiver_step env g)
  | Watch i seen => watch i seen
  end.

Definition step (s : Sys) (e : Env * Event V) : Sys := (handle_event e.1 e.2 s).2.

Definition initial (config : Handshake.ConnectConfig) (speed_limits : N * N) : Sys :=
  mkSystem (mkTask None None "" None 0 config speed_limits Idle) ∅ None ∅ [] [] [] [].

Definition run (config : Handshake.ConnectConfig) (speed_limits : N * N) (es : list (Env * Event V)) : Sys :=
  fold_left step es (initial config speed_limits).
End connection.

End Connection.
