(* ===== verification/ConnectionFacts.v ===== *)
(** The life of a client's connection, abstractly, and what holds of it.

    [Life] is what matters about the tasks of [Connection] for the life of a
    connection, with what the user interface and the audio task were last told, and
    [move] is an abstract machine on it.  Every event of the tasks is one of its
    moves ([step_moves]); the theorems follow from its invariants. *)
From Stdlib Require Import NArith ZArith Lia String.
From stdpp Require Import base gmap strings list sets.
From S2P Require Import Prelude Proto Types Wire State World Session Client AudioTask Handshake Connection.

Module ConnectionFacts.
Import Connection.
Open Scope string_scope.
Open Scope list_scope.

(** ** What the others were told *)

(** The connection half of the projection. *)
Definition show (ev : Client.ConnectionEvent) (c : Client.ConnectionState) : Client.ConnectionState :=
  Client.connection (Client.state (Client.apply_connection ev
    (Client.mkProjection (Client.with_connection (λ _, c) Client.State_default) ∅))).

Lemma connection_recompute s : Client.connection (Client.recompute_effective_permissions s) = Client.connection s.
Proof.
  unfold Client.recompute_effective_permissions, Client.refresh_effective.
  repeat first [reflexivity | case_match]; by subst.
Qed.

Lemma show_spec ev p :
  Client.connection (Client.state (Client.apply_connection ev p)) = show ev (Client.connection (Client.state p)).
Proof.
  destruct ev; try done; unfold show; cbn [Client.apply_connection Client.state]. by rewrite !connection_recompute.
Qed.

(** What the receivers of the outputs hold: the state shown, the connection the
    audio task works on, the transports closed, and whether one was used after it
    was closed or closed twice. *)
Record Told := mkTold {
  shown : Client.ConnectionState; hears : option (N * N); dead : gset N; misused : bool }.

Definition told {V} (a : Told) (o : Output V) : Told :=
  match o with
  | Write g _ => mkTold (shown a) (hears a) (dead a) (misused a || bool_decide (g ∈ dead a))
  | CloseTransport g => mkTold (shown a) (hears a) ({[ g ]} ∪ dead a) (misused a || bool_decide (g ∈ dead a))
  | Audio (AudioTask.ConnectionEstablished g u) => mkTold (shown a) (Some (g, u)) (dead a) (misused a)
  | Audio AudioTask.ConnectionClosed => mkTold (shown a) None (dead a) (misused a)
  | Ui (Client.ToConnection ev) => mkTold (show ev (shown a)) (hears a) (dead a) (misused a)
  | _ => a
  end.

Definition untold : Told := mkTold Client.Disconnected None ∅ false.

(** ** The abstract machine *)

Inductive Doing := Free | Busy | Quit.

Record Life := mkLife {
  up : option N; flag : option N; plugin : option N; gen : N; doing : Doing; flagged : gset N;
  slot : option N; stage : gmap N Stage; requests : list N; known : Told }.

Definition doing_of (p : Phase) : Doing :=
  match p with Idle => Free | Connecting _ => Busy | Stopped => Quit end.

Definition life {V} (s : System V) : Life :=
  let t := task s in
  mkLife (transport t) (local_close t) (file_transfer t) (conn_gen t) (doing_of (phase t)) (closed_here s)
    (file_transfer_slot s) (receivers s) (teardowns s) (fold_left told (out s) untold).

Definition tell (f : Told → Told) (l : Life) : Life :=
  mkLife (up l) (flag l) (plugin l) (gen l) (doing l) (flagged l) (slot l) (stage l) (requests l) (f (known l)).
Definition showing (c : Client.ConnectionState) (a : Told) : Told := mkTold c (hears a) (dead a) (misused a).
Definition hearing (h : option (N * N)) (a : Told) : Told := mkTold (shown a) h (dead a) (misused a).
Definition closing (g : N) (a : Told) : Told :=
  mkTold (shown a) (hears a) ({[ g ]} ∪ dead a) (misused a || bool_decide (g ∈ dead a)).

(** The flag of the connection is set, and dropped. *)
Definition marked (l : Life) : gset N := match flag l with Some g => {[ g ]} ∪ flagged l | None => flagged l end.
Definition mark (l : Life) : Life :=
  mkLife (up l) None (plugin l) (gen l) (doing l) (marked l) (slot l) (stage l) (requests l) (known l).
Definition close (l : Life) : Life :=
  match up l with
  | Some g => mkLife None (flag l) (plugin l) (gen l) (doing l) (flagged l) (slot l) (stage l) (requests l) (closing g (known l))
  | None => l
  end.
Definition unplug (l : Life) : Life :=
  mkLife (up l) (flag l) None (gen l) (doing l) (flagged l) None (stage l) (requests l) (known l).
Definition becomes (d : Doing) (l : Life) : Life :=
  mkLife (up l) (flag l) (plugin l) (gen l) d (flagged l) (slot l) (stage l) (requests l) (known l).
Definition at_stage (g : N) (st : Stage) (l : Life) : Life :=
  mkLife (up l) (flag l) (plugin l) (gen l) (doing l) (flagged l) (slot l) (<[g := st]> (stage l)) (requests l) (known l).
Definition asking (rs : list N) (l : Life) : Life :=
  mkLife (up l) (flag l) (plugin l) (gen l) (doing l) (flagged l) (slot l) (stage l) rs (known l).
Definition clear_slot (l : Life) : Life :=
  mkLife (up l) (flag l) (plugin l) (gen l) (doing l) (flagged l) None (stage l) (requests l) (known l).

(** A write failed. *)
Definition lost (e : string) (l : Life) : Life :=
  tell (λ a, hearing None (showing (Client.ConnectionLost ("Send failed: " +:+ e)) a))
    (close (mkLife (up l) (flag l) (plugin l) (gen l) (doing l) (marked l) (slot l) (stage l) (requests l) (known l))).

(** A new connection. *)
Definition opened (has_plugin : bool) (user_id : N) (l : Life) : Life :=
  let g := N.succ (gen l) in
  let ft := if has_plugin then Some g else None in
  mkLife (Some g) (Some g) ft g Free (flagged l) ft (<[g := Reading]> (stage l)) (requests l)
    (hearing (Some (g, user_id)) (showing (Client.Connected "Rumble Server" user_id) (known l))).

Definition superseded (l : Life) : Life :=
  match up l with
  | Some _ => unplug (tell (hearing None) (close (mark l)))
  | None => mark l
  end.

Section machine.
Context {V : Type} `{!Platform}.

Inductive move (env : Env) : Event V → Life → Life → Prop :=
  | m_nothing e l : move env e l l
  | m_lost cmd g e l : doing l = Free → up l = Some g → write_error env = Some e →
      move env (Handle cmd) l (lost (Handshake.to_string e) l)
  | m_connect addr name k pw l : doing l = Free →
      move env (Handle (Connect addr name k pw)) l
        (becomes Busy (tell (showing (Client.Connecting addr)) (superseded l)))
  | m_accept c l : doing l = Free → Client.connection (view env) = Client.CertificatePending c →
      move env (Handle AcceptCertificate) l
        (becomes Busy (tell (showing (Client.Connecting (Client.cert_server_addr c))) l))
  | m_reject l : doing l = Free →
      move env (Handle RejectCertificate) l (tell (showing Client.Disconnected) l)
  | m_disconnect l : doing l = Free →
      move env (Handle Disconnect) l
        (tell (λ a, showing Client.Disconnected (hearing None a)) (unplug (close (mark l))))
  | m_shutdown l : doing l = Free →
      move env (Handle Shutdown) l (becomes Quit (tell (hearing None) (close (mark l))))
  | m_commands_closed l : doing l = Free → move env CommandsClosed l (becomes Quit (close l))
  | m_teardown g rs l : doing l = Free → requests l = g :: rs → g = gen l →
      move env Teardown l (unplug (close (mark (asking rs l))))
  | m_stale g rs l : doing l = Free → requests l = g :: rs → g ≠ gen l → move env Teardown l (asking rs l)
  | m_opened u l : doing l = Busy → move env FinishHandshake l (opened has_file_transfer u l)
  | m_failed c l : doing l = Busy → (∀ n u, c ≠ Client.Connected n u) →
      move env FinishHandshake l (becomes Free (tell (showing c) l))
  | m_leave e g l : e = StreamEnded g ∨ e = Silent g → stage l !! g = Some Reading →
      move env e l (at_stage g Notifying (asking (requests l ++ [g]) l))
  | m_notify g l : stage l !! g = Some Notifying →
      move env (ReceiverStep g) l (at_stage g Clearing (tell (hearing None) l))
  | m_clear g l : stage l !! g = Some Clearing → move env (ReceiverStep g) l (at_stage g Deciding (clear_slot l))
  | m_decide g l : stage l !! g = Some Deciding →
      move env (ReceiverStep g) l
        (at_stage g (if bool_decide (g ∉ flagged l) && negb (match Client.connection (view env) with
                                                           | Client.Disconnected => true | _ => false end)
                     then Reporting else Ended) l)
  | m_report g l : stage l !! g = Some Reporting →
      move env (ReceiverStep g) l (at_stage g Ended (tell (showing (Client.ConnectionLost "Connection closed")) l)).

(** The transport in use is open. *)
Definition usable (l : Life) : Prop := ∀ g, up l = Some g → g ∉ dead (known l).
End machine.

(** ** Every event is a move *)

Section refinement.
Context {V : Type} `{!External} `{!Client.Hex} `{!Platform}.
Abbreviation Sys := (System V).

(** What an ordinary command may do: nothing to the life of the connection, or
    lose it to a failed write. *)
Definition ordinary (env : Env) (s s' : Sys) : Prop :=
  usable (life s) →
  life s' = life s ∨
  ∃ g e, up (life s) = Some g ∧ write_error env = Some e ∧ life s' = lost (Handshake.to_string e) (life s).

Lemma up_lost e l : up (lost e l) = None.
Proof. unfold lost, close. cbn. destruct (up l) eqn:E; [done|]. by cbn. Qed.

#[export] Instance ordinary_preorder env : PreOrder (ordinary env).
Proof.
  split; [intros s _; by left|]. intros s1 s2 s3 R1 R2 Hu. destruct (R1 Hu) as [E|(g & e & Eg & Ee & E)].
  - destruct R2 as [E'|(g & e & Eg & Ee & E')]; [by rewrite E|left; congruence|]. right. exists g, e. by rewrite <- E.
  - right. exists g, e. split; [done|]. split; [done|]. destruct R2 as [E'|(g' & _ & Eg' & _)].
    + intros g'. by rewrite E, up_lost.
    + congruence.
    + by rewrite E, up_lost in Eg'.
Qed.

(** Outputs that tell nobody about the connection. *)
Definition mild (o : Output V) : Prop := ∀ a, told a o = a.

Lemma life_emit o (s : Sys) : life (emit o s).2 = tell (λ a, told a o) (life s).
Proof. unfold life, tell. cbn. by rewrite fold_left_app. Qed.

Lemma ordinary_emit env o : mild o → keeps (ordinary env) (emit o).
Proof. intros Ho s _. left. rewrite life_emit. unfold tell. rewrite Ho. by destruct (life s). Qed.

Lemma ordinary_same {A} env (m : ST Sys A) : (∀ s, life (m s).2 = life s) → keeps (ordinary env) m.
Proof. intros Hm s _. by left. Qed.

Lemma told_write a g p : g ∉ dead a → told a (Write (V:=V) g p) = a.
Proof. intros Hg. unfold told. rewrite bool_decide_false by done. rewrite orb_false_r. by destruct a. Qed.

Lemma life_write g (s : Sys) p :
  usable (life s) → transport (task s) = Some g → life (emit (Write g p) s).2 = life s.
Proof.
  intros Hu Hg. rewrite life_emit. unfold tell. rewrite told_write by (by apply Hu). by destruct (life s).
Qed.

Lemma send_tracked_ordinary env payload : keeps (ordinary env) (send_tracked env payload).
Proof.
  intros s Hu. unfold send_tracked, get. unfold_goal_st.
  destruct (transport (task s)) as [g|] eqn:Eg; [|by left].
  unfold send_envelope. destruct (write_error env) as [e|] eqn:Ee; [|left; exact (life_write g s payload Hu Eg)].
  right. exists g, e. split; [done|]. split; [done|].
  unfold close_transport, nothing_first, connection_event, room_event, get, emit, on_task. unfold_goal_st.
  destruct s as [[tr lc cn ft gen cf lim ph] fl slot rc td df wt o]. cbn in Eg. subst tr.
  destruct lc as [f|]; unfold lost, close, tell, life, marked; cbn; rewrite !fold_left_app; cbn;
    by destruct (fold_left _ _ _).
Qed.

Ltac ord_step :=
  lazymatch goal with
  | |- keeps _ (send_tracked _ _) => apply send_tracked_ordinary
  | |- keeps _ connected => unfold connected
  | |- keeps _ (get _) => unfold get
  | |- keeps _ (send_if_connected _ _) => unfold send_if_connected
  | |- keeps _ (chat_event _) => apply ordinary_emit; by intros []
  | |- keeps _ (toast _ _) => apply ordinary_emit; by intros []
  | |- keeps _ (emit _) => apply ordinary_emit; by intros []
  | |- keeps _ (modify _) => apply ordinary_same; intros ?; reflexivity
  | |- keeps _ (on_task _) => apply ordinary_same; intros ?; reflexivity
  | |- _ => keeps_step
  end.

(** The commands that steer the connection. *)
Definition steers (cmd : Command V) : bool :=
  match cmd with Connect _ _ _ _ | AcceptCertificate | RejectCertificate | Disconnect | Shutdown => true | _ => false end.

Lemma command_ordinary env cmd : steers cmd = false → keeps (ordinary env) (handle_command env cmd).
Proof.
  intros Hs. unfold handle_command, on_send_chat, on_send_tree_chat, on_send_direct_message, on_request_chat_history,
    on_share_chat_history, on_share_file, on_download_file, on_cancel_transfer, on_local_message,
    on_set_file_transfer_speed_limits, on_ping_server, on_request_state_sync.
  destruct cmd; try discriminate Hs; cbn [envelope_of]; repeat ord_step.
Qed.

Lemma finalize_life env a (s : Sys) : usable (life s) → life (finalize_share_upload env a s).2 = life s.
Proof.
  intros Hu. unfold finalize_share_upload, get, send_envelope, toast, chat_event. unfold_goal_st.
  destruct (transport (task s)) as [g|] eqn:Eg; [|done]. destruct (write_error env).
  - unfold_goal_st. rewrite life_emit. by destruct (life s).
  - unfold_goal_st.
    match goal with |- context [Write g ?p] => pose proof (life_write g s p Hu Eg) as Hw end.
    destruct (emit (Write g _) s) as [[] s1]. cbn [snd] in *. rewrite life_emit, Hw. by destruct (life s).
Qed.

Lemma frames_life env envelope (s : Sys) :
  (∀ payload ev, envelope = Some payload →
     Client.ToConnection ev ∈ Client.handle_server_message parse_history_request parse_history_share (new_id env)
       (now env) (view env) payload → ∀ c, show ev c = c) →
  life (on_frame env envelope s).2 = life s.
Proof.
  intros He. unfold on_frame. destruct envelope as [payload|]; [|done].
  specialize (He payload). set (l := Client.handle_server_message _ _ _ _ _ _) in *. clearbody l.
  assert (∀ ev, Client.ToConnection ev ∈ l → ∀ c, show ev c = c) as Hl by (intros ev; by apply He). clear He.
  revert s. induction l as [|e l IH]; intros s; [done|]. cbn [for_each]. unfold_goal_st.
  destruct (emit (Ui e) s) as [[] s1] eqn:E.
  assert (life s1 = life s) as <-.
  { change s1 with (tt, s1).2. rewrite <- E, life_emit. unfold tell. destruct e; cbn [told]; try by destruct (life s).
    rewrite Hl by apply list_elem_of_here. destruct (life s) as [? ? ? ? ? ? ? ? ? []]. done. }
  apply IH. intros ev Hev. apply Hl. by apply list_elem_of_further.
Qed.

(** No message of the server changes the connection shown. *)
Lemma messages_mild p1 p2 id now s payload ev c :
  Client.ToConnection ev ∈ Client.handle_server_message p1 p2 id now s payload → show ev c = c.
Proof.
  intros Hin. assert (∀ l : list Client.RoomEvent, Client.ToConnection ev ∉ Client.ToRoom <$> l) as Hno.
  { intros l (x & [=] & _)%list_elem_of_fmap. }
  destruct payload as [[]|]; cbn [Client.handle_server_message Client.on_chat_broadcast] in Hin;
    unfold Client.on_chat_broadcast in Hin;
    repeat match goal with H : context [match ?x with _ => _ end] |- _ => destruct x end;
    cbn [app] in Hin;
    repeat match goal with H : _ ∈ _ :: _ |- _ => apply elem_of_cons in H as [[=]|H] end; subst;
    try done; try by apply elem_of_nil in Hin.
  destruct (Hno _ Hin).
Qed.

Lemma when_idle_run (m : ST Sys unit) (s : Sys) :
  (doing (life s) = Free ∧ when_idle m s = m s) ∨ (when_idle m s).2 = s.
Proof. unfold when_idle, get. unfold_goal_st. unfold life. cbn. destruct (phase (task s)); [by left|by right..]. Qed.

Lemma eq_move env (e : Event V) (l l1 l2 : Life) : move env e l l1 → l2 = l1 → move env e l l2.
Proof. by intros ? ->. Qed.

Lemma life_take_local_close (s : Sys) : life (take_local_close s).2 = mark (life s).
Proof.
  unfold take_local_close, get, on_task. unfold_goal_st. destruct s as [[tr [lc|] cn ft gen cf lim ph] fl slot rc td df wt o]; done.
Qed.
Lemma life_drop_ft (s : Sys) : life (drop_ft s).2 = unplug (life s).
Proof. done. Qed.
Lemma life_phase p (s : Sys) : life (on_task (set_phase p) s).2 = becomes (doing_of p) (life s).
Proof. done. Qed.
Lemma life_name n (s : Sys) : life (on_task (set_client_name n) s).2 = life s.
Proof. done. Qed.
Lemma life_config f (s : Sys) : life (on_task (λ t, set_config (f t) t) s).2 = life s.
Proof. done. Qed.
Lemma life_event ev (s : Sys) : life (connection_event ev s).2 = tell (λ a, showing (show ev (shown a)) a) (life s).
Proof. apply life_emit. Qed.
Lemma life_room ev (s : Sys) : life (room_event ev s).2 = life s.
Proof. unfold room_event. rewrite life_emit. by destruct (life s). Qed.
Lemma life_chat ev (s : Sys) : life (chat_event ev s).2 = life s.
Proof. unfold chat_event. rewrite life_emit. by destruct (life s). Qed.
Lemma life_closed_audio (s : Sys) : life (emit (Audio AudioTask.ConnectionClosed) s).2 = tell (hearing None) (life s).
Proof. apply life_emit. Qed.
Lemma life_stage g st (s : Sys) : life (set_stage g st s).2 = at_stage g st (life s).
Proof. done. Qed.

Lemma life_close_transport first (s : Sys) :
  (∀ g, transport (task s) = Some g → life (first g s).2 = life s) →
  life (close_transport first s).2 = close (life s) ∧
  (close_transport first s).1 = bool_decide (is_Some (up (life s))).
Proof.
  intros Hf. unfold close_transport, get. rewrite seq_run. unfold gets. cbn [fst snd].
  unfold close. change (up (life s)) with (transport (task s)).
  destruct (transport (task s)) as [g|] eqn:Eg; [|by split].
  rewrite !seq_run. cbn [fst snd mret ST_ret]. split; [|done]. rewrite life_emit.
  specialize (Hf g eq_refl). destruct (first g s) as [[] s1]. cbn [snd] in *. unfold on_task, modify. cbn [snd].
  destruct s as [[tr lc cn ft gn cf lim ph] fl sl rc td df wt o].
  destruct s1 as [[tr1 lc1 cn1 ft1 gn1 cf1 lim1 ph1] fl1 sl1 rc1 td1 df1 wt1 o1].
  unfold life, tell in Hf |- *. cbn in Hf |- *. by injection Hf as -> -> -> -> -> -> -> -> -> ->.
Qed.

Lemma life_disconnect env reason g (s : Sys) :
  usable (life s) → transport (task s) = Some g → life (send_disconnect_envelope env g reason s).2 = life s.
Proof.
  intros Hu Hg. unfold send_disconnect_envelope, send_envelope. rewrite seq_run.
  destruct (write_error env); [done|]. rewrite seq_run. cbn [snd mret ST_ret]. by apply life_write.
Qed.

Lemma life_close env reason (s : Sys) :
  usable (life s) →
  life (close_transport (λ g, send_disconnect_envelope env g reason) s).2 = close (life s) ∧
  (close_transport (λ g, send_disconnect_envelope env g reason) s).1 = bool_decide (is_Some (up (life s))).
Proof. intros Hu. apply life_close_transport. intros g Hg. by apply life_disconnect. Qed.

Lemma usable_mark l : usable l → usable (mark l).
Proof. done. Qed.
Lemma usable_hearing h l : usable l → usable (tell (hearing h) l).
Proof. done. Qed.

Hint Rewrite life_take_local_close life_drop_ft life_phase life_name life_config life_event life_room life_chat
  life_closed_audio life_stage : life.
Ltac life := rewrite ?seq_run; cbn [fst snd mret ST_ret]; autorewrite with life.

Lemma disconnect_life env (s : Sys) :
  usable (life s) →
  life (on_disconnect env s).2 = tell (λ a, showing Client.Disconnected (hearing None a)) (unplug (close (mark (life s)))).
Proof.
  intros Hu. unfold on_disconnect. life.
  match goal with |- context [close_transport ?f ?s1] => destruct (life_close env "client disconnected" s1) as [E2 _] end.
  { life. apply usable_hearing. by life. }
  rewrite E2. life. unfold close. cbn [up mark tell]. by destruct (up (life s)).
Qed.

Lemma command_moves env cmd (s : Sys) :
  usable (life s) → doing (life s) = Free → move env (Handle cmd) (life s) (life (handle_command env cmd s).2).
Proof.
  intros Hu Hd. destruct (steers cmd) eqn:Es.
  2: { destruct (command_ordinary env cmd Es s Hu) as [->|(g & e & Hg & He & ->)]; [apply m_nothing|by eapply m_lost]. }
  destruct cmd; try discriminate Es; cbn [handle_command].
  - eapply eq_move; [by apply m_connect|]. unfold on_connect. life.
    set (s1 := (take_local_close s).2). assert (life s1 = mark (life s)) as E1 by apply life_take_local_close.
    destruct (life_close env "client reconnecting" s1) as [E2 E2']; [by rewrite E1|].
    destruct (close_transport _ s1) as [b s2]. cbn [fst snd] in *. rewrite E1 in E2, E2'.
    unfold superseded. change (up (mark (life s))) with (up (life s)) in E2'. subst b.
    destruct (up (life s)) as [g|] eqn:Eg.
    + rewrite bool_decide_true by eauto. life. by rewrite E2.
    + rewrite bool_decide_false by (by intros [? [=]]). life. rewrite E2. unfold close. cbn [up mark]. by rewrite Eg.
  - eapply eq_move; [by apply m_disconnect|]. by apply disconnect_life.
  - eapply eq_move; [by apply m_shutdown|]. unfold on_shutdown. life.
    match goal with |- context [close_transport ?f ?s1] => destruct (life_close env "client shutdown" s1) as [E2 _] end.
    { life. apply usable_hearing. by life. }
    rewrite E2. life. unfold close. cbn [up mark tell]. by destruct (up (life s)).
  - unfold on_accept_certificate. destruct (Client.connection (view env)) eqn:Ev; try apply m_nothing.
    eapply eq_move; [by eapply m_accept|]. by life.
  - eapply eq_move; [by apply m_reject|]. unfold on_reject_certificate. by life.
Qed.

Lemma life_established env a j (s : Sys) :
  becomes Free (life (established env a j s).2) = opened has_file_transfer (Handshake.j_user_id j) (life s).
Proof.
  unfold established. rewrite !seq_run. cbn [fst snd mret ST_ret].
  unfold get, gets. rewrite ?seq_run. cbn [fst snd].
  set (s0 := (room_event _ _).2). assert (life s0 = tell (showing (Client.Connected "Rumble Server" (Handshake.j_user_id j))) (life s)) as E0.
  { unfold s0. by life. }
  clearbody s0. assert (gen (life s0) = gen (life s)) as Eg by (by rewrite E0). cbn [gen life] in Eg. rewrite !Eg.
  set (g := N.succ (conn_gen (task s))).
  set (s1 := (emit _ s0).2). assert (life s1 = tell (hearing (Some (g, Handshake.j_user_id j))) (life s0)) as E1 by apply life_emit.
  clearbody s1. rewrite E0 in E1.
  match goal with |- context [(?m s1).2] => set (s2 := (m s1).2) end. assert (life s2 = life s1) as E2 by (unfold s2; by destruct (at_accepting a)).
  clearbody s2. rewrite E1 in E2. set (s3 := (on_task (set_transport _) s2).2).
  match goal with |- context [(?m s3).2] => set (s4 := (m s3).2) end.
  assert (life s4 = life s3) as E4.
  { unfold s4. destruct has_file_transfer; [|done]. rewrite life_emit. by destruct (life s3). }
  clearbody s4. destruct s as [[tr lc cn ft gn cf lim ph] fl sl rc td df wt o].
  destruct s2 as [[tr2 lc2 cn2 ft2 gn2 cf2 lim2 ph2] fl2 sl2 rc2 td2 df2 wt2 o2].
  destruct s4 as [[tr4 lc4 cn4 ft4 gn4 cf4 lim4 ph4] fl4 sl4 rc4 td4 df4 wt4 o4].
  unfold life, tell in E2, E4. cbn in E2, E4.
  injection E2 as -> -> -> -> D2 -> -> -> -> K2. injection E4 as -> -> -> -> D4 -> -> -> -> K4.
  unfold life, opened, becomes, g. cbn. by rewrite K4, K2.
Qed.

Lemma finish_moves env (s : Sys) a :
  phase (task s) = Connecting a → move env (FinishHandshake (V:=V)) (life s) (life (finish_handshake env a s).2).
Proof.
  intros Hp. assert (doing (life s) = Busy) as Hd by (unfold life; cbn; by rewrite Hp).
  unfold finish_handshake, get. rewrite !seq_run. unfold gets. cbn [fst snd].
  set (r := Handshake.connect_to_server _ _ _ _ _ _ _ _ _). rewrite life_phase. cbn [doing_of].
  destruct (Handshake.ended r) as [j|e|].
  - rewrite life_established. by apply m_opened.
  - unfold failed_attempt. destruct (at_accepting a); [|destruct (Handshake.captured r) as [[info|]|];
      [|destruct (Handshake.is_cert_error_message e)..]];
      (eapply eq_move; [eapply m_failed; [exact Hd|]|life; reflexivity]; done).
  - unfold timed_out. eapply eq_move; [apply (m_failed env Client.Disconnected _ Hd); done|]. by life.
Qed.

Lemma receiver_moves env g (s : Sys) st :
  receivers s !! g = Some st → move env (ReceiverStep (V:=V) g) (life s) (life (receiver_step env g st s).2).
Proof.
  intros Hs. assert (stage (life s) !! g = Some st) as Hst by exact Hs.
  destruct st; cbn [receiver_step]; try apply m_nothing.
  - eapply eq_move; [by apply m_notify|]. by life.
  - eapply eq_move; [by apply m_clear|]. by life.
  - eapply eq_move; [by apply m_decide|]. life. unfold gets. cbn [fst snd]. cbv zeta.
    change (flagged (life s)) with (closed_here s).
    rewrite (bool_decide_not (g ∈ closed_here s)). done.
  - eapply eq_move; [by apply m_report|]. by life.
Qed.

(** Every event of the tasks is a move of the abstract machine. *)
Lemma step_moves env e (s : Sys) : usable (life s) → move env e (life s) (life (step s (env, e))).
Proof.
  intros Hu. unfold step. cbn [fst snd].
  destruct e as [cmd| | | | |g envelope|g|g|g|i seen]; cbn [handle_event].
  - destruct (when_idle_run (handle_command env cmd) s) as [[Hd ->]| ->]; [by apply command_moves|apply m_nothing].
  - destruct (when_idle_run (on_commands_closed env) s) as [[Hd ->]| ->]; [|apply m_nothing].
    eapply eq_move; [by apply m_commands_closed|]. unfold on_commands_closed. life.
    by destruct (life_close env "client shutdown" s Hu) as [-> _].
  - match goal with |- context [when_idle ?m] => destruct (when_idle_run m s) as [[Hd ->]| ->]; [|apply m_nothing] end.
    rewrite seq_run. unfold take_teardown. destruct (teardowns s) as [|g rs] eqn:Er; cbn [fst snd]; [apply m_nothing|].
    set (s1 := set_teardowns rs s). assert (life s1 = asking rs (life s)) as E1 by done.
    assert (requests (life s) = g :: rs) as Er' by exact Er.
    unfold on_teardown, get. rewrite seq_run. unfold gets. cbn [fst snd]. change (conn_gen (task s1)) with (gen (life s)).
    destruct (N.eqb_spec g (gen (life s))) as [Eg|Hne]; [|by apply (m_stale env g)].
    eapply eq_move; [by eapply m_teardown|]. life.
    match goal with |- context [close_transport ?f ?s2] => destruct (life_close_transport f s2) as [E2 _]; [done|] end.
    rewrite E2. life. by rewrite E1.
  - match goal with |- context [when_idle ?m] => destruct (when_idle_run m s) as [[Hd ->]| ->]; [|apply m_nothing] end.
    rewrite seq_run. unfold take_deferred. destruct (deferred s) as [|a rs]; cbn [fst snd]; [apply m_nothing|].
    eapply eq_move; [apply m_nothing|]. by rewrite finalize_life.
  - rewrite seq_run. unfold get, gets. cbn [fst snd].
    destruct (phase (task s)) eqn:Ep; [apply m_nothing|by apply finish_moves|apply m_nothing].
  - unfold when_at. rewrite seq_run. unfold gets. cbn [fst snd].
    destruct (receivers s !! g) as [st|]; [|apply m_nothing]. destruct (Bool.eqb _ _); [|apply m_nothing].
    eapply eq_move; [apply m_nothing|]. apply frames_life. intros p ev _ Hin c. by eapply messages_mild.
  - unfold when_at. rewrite seq_run. unfold gets. cbn [fst snd].
    destruct (receivers s !! g) as [[]|] eqn:Eg; try apply m_nothing. cbn.
    eapply eq_move; [apply (m_leave env _ g); [by left|exact Eg]|]. done.
  - unfold when_at. rewrite seq_run. unfold gets. cbn [fst snd].
    destruct (receivers s !! g) as [[]|] eqn:Eg; try apply m_nothing. cbn [Bool.eqb bool_decide]. rewrite bool_decide_true by done.
    unfold on_silence, get. rewrite seq_run. unfold gets. cbn [fst snd].
    destruct (phase (task s)).
    1-2: eapply eq_move; [apply m_nothing|]; rewrite life_emit; by destruct (life s).
    eapply eq_move; [apply (m_leave env _ g); [by right|exact Eg]|]. done.
  - unfold when_at. rewrite seq_run. unfold gets. cbn [fst snd].
    destruct (receivers s !! g) as [st|] eqn:Eg; [|apply m_nothing]. destruct (Bool.eqb _ _); [|apply m_nothing].
    by apply receiver_moves.
  - unfold watch. destruct (watchers s !! i); [|apply m_nothing]. destruct seen; apply m_nothing.
Qed.
End refinement.

(** ** The invariant *)

Record inv (l : Life) : Prop := {
  i_usable : usable l;
  i_up : ∀ g, up l = Some g → flag l = Some g ∧ g ∉ flagged l;
  i_flag : ∀ g, flag l = Some g → g = gen l ∧ (0 < g)%N;
  i_flagged : ∀ g, g ∈ flagged l → (g <= gen l)%N;
  i_dead : ∀ g, g ∈ dead (known l) → (g <= gen l)%N;
  i_stage : ∀ g, is_Some (stage l !! g) ↔ (0 < g <= gen l)%N;
  i_requests : ∀ g, g ∈ requests l → ∃ st, stage l !! g = Some st ∧ st ≠ Reading;
  i_clean : misused (known l) = false;
  i_closed : ∀ g, is_Some (stage l !! g) → up l = Some g ∨ g ∈ dead (known l);
  i_dead_flagged : ∀ g, g ∈ dead (known l) → g ∈ flagged l ∨ doing l = Quit;
  i_busy : doing l = Busy → up l = None;
  i_pending : ∀ c, shown (known l) = Client.CertificatePending c → up l = None;
}.

(** The question about a certificate is answered on the screen that asks it. *)
Definition prompt {V} (env : Env) (e : Event V) (l : Life) : Prop :=
  e = Handle AcceptCertificate → Client.connection (view env) = shown (known l).

Lemma inv_tell f l :
  (∀ a, dead (f a) = dead a ∧ misused (f a) = misused a) →
  (∀ c, shown (f (known l)) = Client.CertificatePending c → up l = None) → inv l → inv (tell f l).
Proof.
  intros Hf Hs []. destruct (Hf (known l)) as [E1 E2].
  split; cbn [tell up flag flagged gen stage requests known doing]; rewrite ?E1, ?E2; try done.
  intros g. cbn. rewrite E1. by apply i_usable0.
Qed.

Lemma inv_quiet_tell f l :
  (∀ a, dead (f a) = dead a ∧ misused (f a) = misused a ∧ shown (f a) = shown a) → inv l → inv (tell f l).
Proof.
  intros Hf Hi. apply inv_tell; [intros a; by destruct (Hf a) as (? & ? & ?)| |done].
  intros c. destruct (Hf (known l)) as (_ & _ & ->). apply i_pending. exact Hi.
Qed.

(** The connection is given up. *)
Lemma inv_down l f p sl d fl : inv l → (f = None ∨ f = flag l) → (d = doing l ∨ d = Quit) →
  (fl = marked l ∨ (d = Quit ∧ fl = flagged l)) →
  inv (mkLife None f p (gen l) d fl sl (stage l) (requests l)
         (match up l with Some g => closing g (known l) | None => known l end)).
Proof.
  intros Hi Hf Hd Hfl.
  assert (∀ g, g ∈ fl → (g <= gen l)%N) as Hb.
  { intros g Hg. destruct Hfl as [->|[_ ->]]; [|by apply (i_flagged _ Hi)]. unfold marked in Hg.
    destruct (flag l) as [g'|] eqn:E; [|by apply (i_flagged _ Hi)].
    apply elem_of_union in Hg as [->%elem_of_singleton|Hg]; [destruct (i_flag _ Hi _ E); lia|by apply (i_flagged _ Hi)]. }
  assert (∀ g, g ∈ flagged l ∨ up l = Some g → g ∈ fl ∨ d = Quit) as Hm.
  { intros g Hg. destruct Hfl as [->|[-> _]]; [left|by right]. unfold marked.
    destruct Hg as [Hg|Hg]; [destruct (flag l); set_solver|]. destruct (i_up _ Hi _ Hg) as [-> _]. set_solver. }
  assert (∀ g, g ∈ dead (match up l with Some g => closing g (known l) | None => known l end) ↔
    g ∈ dead (known l) ∨ up l = Some g) as Hdead.
  { intros g. destruct (up l) as [g'|]; cbn; [|set_solver]. rewrite elem_of_union, elem_of_singleton. split.
    - intros [->|?]; [by right|by left].
    - intros [?|[= ->]]; [by right|by left]. }
  split; cbn [up flag flagged gen stage requests doing known]; try done.
  - intros g Hg. apply (i_flag _ Hi). destruct Hf as [-> | ->]; [done|exact Hg].
  - intros g [Hg|Hg]%Hdead; [by apply (i_dead _ Hi)|]. destruct (i_up _ Hi _ Hg) as [Hg' _].
    destruct (i_flag _ Hi _ Hg'). lia.
  - apply (i_stage _ Hi).
  - apply (i_requests _ Hi).
  - destruct (up l) as [g|] eqn:E; cbn; [|apply (i_clean _ Hi)].
    rewrite (i_clean _ Hi). cbn. apply bool_decide_eq_false_2. by apply (i_usable _ Hi).
  - intros g Hg. right. apply Hdead. destruct (i_closed _ Hi _ Hg); auto.
  - intros g [Hg|Hg]%Hdead; [|apply Hm; by right].
    destruct (i_dead_flagged _ Hi _ Hg) as [Hg'|Hg']; [apply Hm; by left|]. right. by destruct Hd as [-> | ->].
Qed.

Lemma inv_close_mark l : inv l → inv (close (mark l)) ∧ up (close (mark l)) = None.
Proof.
  intros Hi. pose proof (inv_down l None (plugin l) (slot l) (doing l) (marked l) Hi) as H.
  unfold close, mark. cbn. destruct (up l) eqn:E; split; cbn; try done; apply H; auto.
Qed.

Lemma inv_unplug l : inv l → inv (unplug l).
Proof. intros []. by split. Qed.
Lemma inv_clear_slot l : inv l → inv (clear_slot l).
Proof. intros []. by split. Qed.
Lemma inv_becomes d l : inv l → (doing l ≠ Quit) → (d = Busy → up l = None) → inv (becomes d l).
Proof.
  intros [] Hq Hd. split; try done. intros g Hg. left. by destruct (i_dead_flagged0 g Hg).
Qed.
Lemma inv_quits l : inv l → inv (becomes Quit l).
Proof. intros []. split; try done. intros g Hg. by right. Qed.

Lemma inv_at_stage g st st' l : inv l → stage l !! g = Some st' → (st = Reading → st' = Reading) → inv (at_stage g st l).
Proof.
  intros Hi Hs Hr.
  assert (∀ g', is_Some (stage (at_stage g st l) !! g') ↔ is_Some (stage l !! g')) as Hsome.
  { intros g'. cbn. destruct (decide (g' = g)) as [->|Hne]; [rewrite lookup_insert_eq, Hs; split; eauto|by rewrite lookup_insert_ne]. }
  destruct Hi. split; try done.
  - intros g'. by rewrite Hsome.
  - intros g' Hg'. destruct (i_requests0 g' Hg') as (x & Hx & Hne). cbn.
    destruct (decide (g' = g)) as [->|Hne']; [rewrite lookup_insert_eq|rewrite lookup_insert_ne by done; eauto].
    exists st. split; [done|]. intros E. rewrite Hs in Hx. injection Hx as <-. by apply Hne, Hr.
  - intros g' Hg'. apply i_closed0. by apply Hsome.
Qed.

Lemma inv_asking rs l : inv l → (∀ g, g ∈ rs → ∃ st, stage l !! g = Some st ∧ st ≠ Reading) → inv (asking rs l).
Proof. intros [] Hr. by split. Qed.

Lemma inv_opened b u l : inv l → doing l = Busy → inv (opened b u l).
Proof.
  intros Hi Hd. pose proof (i_busy _ Hi Hd) as Hup. set (g := N.succ (gen l)).
  assert (stage l !! g = None) as Hn.
  { apply eq_None_not_Some. intros [_ Hg]%(i_stage _ Hi). unfold g in Hg. lia. }
  destruct Hi. split; cbn [opened up flag flagged gen stage requests doing known]; fold g; try done.
  - intros g' [= <-] Hin%i_dead0. unfold g in Hin. lia.
  - intros g' [= <-]. split; [done|]. intros Hin%i_flagged0. unfold g in Hin. lia.
  - intros g' [= <-]. split; [done|unfold g; lia].
  - intros g' Hin%i_flagged0. unfold g. lia.
  - intros g' Hin%i_dead0. unfold g. lia.
  - intros g'. destruct (decide (g' = g)) as [->|Hne]; [rewrite lookup_insert_eq; split; [unfold g; lia|eauto]|].
    rewrite lookup_insert_ne, i_stage0 by done. unfold g in *. lia.
  - intros g' Hin. destruct (i_requests0 g' Hin) as (st & Hst & Hne). exists st. split; [|done].
    rewrite lookup_insert_ne; [done|]. intros <-. congruence.
  - intros g' Hg'. destruct (decide (g' = g)) as [->|Hne]; [by left|]. rewrite lookup_insert_ne in Hg' by done.
    right. destruct (i_closed0 g' Hg') as [E|]; [congruence|done].
  - intros g' Hin. left. destruct (i_dead_flagged0 g' Hin) as [?|E]; [done|congruence].
Qed.

Section invariance.
Context {V : Type} `{!Platform}.

Lemma move_inv env (e : Event V) l l' : move env e l l' → prompt env e l → inv l → inv l'.
Proof.
  intros Hm Hp Hi. destruct Hm.
  - done.
  - pose proof (inv_down l (flag l) (plugin l) (slot l) (doing l) (marked l) Hi) as H'.
    unfold lost, close. cbn [up]. rewrite H1. cbn. rewrite H1 in H'.
    refine (inv_tell _ _ _ _ (H' _ _ _)); try done; auto.
  - assert (inv (superseded l) ∧ up (superseded l) = None ∧ doing (superseded l) = Free) as (Hi' & Hu & Hd).
    { destruct (inv_close_mark l Hi) as [H' Hu']. unfold superseded. destruct (up l) as [g|] eqn:E.
      - split; [apply inv_unplug, inv_quiet_tell; [by intros []|done]|]. split; [exact Hu'|]. unfold close. cbn. by rewrite E.
      - unfold close in H', Hu'. cbn [up mark] in *. rewrite E in *. split; [done|]. split; [done|exact H0]. }
    apply inv_becomes; [|cbn; by rewrite Hd|done]. by apply inv_tell.
  - apply inv_becomes; [by apply inv_tell|cbn; by rewrite H0|].
    intros _. apply (i_pending _ Hi c). by rewrite <- (Hp eq_refl).
  - by apply inv_tell.
  - destruct (inv_close_mark l Hi) as [H' Hu']. apply inv_tell; [done|done|by apply inv_unplug].
  - destruct (inv_close_mark l Hi) as [H' Hu']. apply inv_quits, inv_quiet_tell; [by intros []|done].
  - pose proof (inv_down l (flag l) (plugin l) (slot l) Quit (flagged l) Hi) as H'.
    unfold close, becomes. destruct (up l) eqn:E; cbn; rewrite ?E; apply H'; auto.
  - destruct (inv_close_mark (asking rs l)) as [H' _]; [|by apply inv_unplug].
    apply inv_asking; [done|]. intros g' Hg'. apply (i_requests _ Hi). rewrite H1. by apply list_elem_of_further.
  - apply inv_asking; [done|]. intros g' Hg'. apply (i_requests _ Hi). rewrite H1. by apply list_elem_of_further.
  - by apply inv_opened.
  - apply inv_becomes; [|cbn; by rewrite H0|done]. apply inv_tell; [done| |done].
    intros _ _. by apply (i_busy _ Hi).
  - assert (inv (at_stage g Notifying l)) as H' by (by apply (inv_at_stage g _ Reading)).
    change (inv (asking (requests l ++ [g]) (at_stage g Notifying l))). apply inv_asking; [done|].
    intros g' [Hg'| ->%list_elem_of_singleton]%elem_of_app; [by apply (i_requests _ H')|].
    exists Notifying. cbn. by rewrite lookup_insert_eq.
  - apply (inv_at_stage g _ Notifying); [apply inv_quiet_tell; [by intros []|done]|done|done].
  - apply (inv_at_stage g _ Clearing); [by apply inv_clear_slot|done|done].
  - apply (inv_at_stage g _ Deciding); [done|done|by case_match].
  - apply (inv_at_stage g _ Reporting); [by apply inv_tell|done|done].
Qed.
End invariance.

(** ** Runs *)

Section runs.
Context {V : Type} `{!External} `{!Client.Hex} `{!Platform}.
Abbreviation Sys := (System V).
Variable config : Handshake.ConnectConfig.
Variable limits : N * N.

(** The states the tasks get to, however their events interleave. *)
Inductive reachable : Sys → Prop :=
  | reach_start : reachable (initial config limits)
  | reach_step s env e : reachable s → prompt env e (life s) → reachable (step s (env, e)).

Lemma reachable_inv s : reachable s → inv (life s).
Proof.
  induction 1 as [|s env e _ IH Hp].
  - split; try done; cbn; try set_solver.
    + intros g. rewrite lookup_empty. split; [intros [? [=]]|lia].
    + intros g [? Hg]. by rewrite lookup_empty in Hg.
  - eapply move_inv; [by apply step_moves, i_usable|done|done].
Qed.

Lemma dead_spec (l : list (Output V)) g : g ∈ dead (fold_left told l untold) ↔ CloseTransport g ∈ l.
Proof.
  induction l as [|o l IH] using rev_ind; [cbn; set_solver|].
  rewrite fold_left_app, elem_of_app, list_elem_of_singleton. cbn [fold_left].
  set (a := fold_left told l untold) in *. clearbody a.
  destruct o as [g1 p|g1|cmd|ev| |]; [| |destruct cmd|destruct ev| |]; cbn [told dead]; rewrite <- IH; try set_solver.
Qed.

Lemma told_misused a (o : Output V) : misused a = true → misused (told a o) = true.
Proof. intros Ha. destruct o as [g' p|g'|[]|[]| |]; cbn; by rewrite ?Ha. Qed.

Lemma used_well (l l1 l2 : list (Output V)) g :
  misused (fold_left told l untold) = false → l = l1 ++ CloseTransport g :: l2 →
  CloseTransport g ∉ l2 ∧ ∀ p, Write g p ∉ l2.
Proof.
  revert l1 l2. induction l as [|o l IH] using rev_ind; intros l1 l2; [by destruct l1|].
  rewrite fold_left_app. cbn [fold_left]. intros Hm E.
  destruct l2 as [|o' l2 _] using rev_ind; [split; [apply not_elem_of_nil|intros p; apply not_elem_of_nil]|].
  rewrite app_comm_cons, app_assoc in E. apply app_inj_tail in E as [El <-].
  assert (g ∈ dead (fold_left told l untold)) as Hg.
  { apply dead_spec. rewrite El. apply elem_of_app. right. apply list_elem_of_here. }
  set (a := fold_left told l untold) in *.
  assert (misused a = false) as Ha.
  { destruct (misused a) eqn:Ea; [|done]. by rewrite (told_misused a o Ea) in Hm. }
  destruct (IH l1 l2 Ha El) as [I1 I2]. clearbody a.
  rewrite !not_elem_of_app. setoid_rewrite not_elem_of_app. setoid_rewrite list_elem_of_singleton.
  split; [split; [done|]|intros p; split; [done|]]; intros <-; cbn in Hm; rewrite bool_decide_true, orb_true_r in Hm; done.
Qed.

(** C22: No ghost connections.  However the tasks interleave, every connection the
    client ever opened, except the one in use, has been closed, exactly once; the
    one in use is open; nothing is written to a connection after it was closed; and
    while an attempt is under way there is no connection at all. *)
Theorem no_ghost_connections (s : Sys) :
  reachable s →
  (∀ g, is_Some (receivers s !! g) → transport (task s) = Some g ∨ CloseTransport g ∈ out s) ∧
  (∀ g, transport (task s) = Some g → g = conn_gen (task s) ∧ CloseTransport g ∉ out s) ∧
  (∀ g l1 l2, out s = l1 ++ CloseTransport g :: l2 → CloseTransport g ∉ l2 ∧ ∀ p, Write g p ∉ l2) ∧
  (∀ a, phase (task s) = Connecting a → transport (task s) = None).
Proof.
  intros Hr. pose proof (reachable_inv s Hr) as Hi. split; [|split; [|split]].
  - intros g Hg. destruct (i_closed _ Hi g Hg) as [?|Hd%dead_spec]; [by left|by right].
  - intros g Hg. destruct (i_up _ Hi g Hg) as [Hf _]. split; [by destruct (i_flag _ Hi g Hf)|].
    rewrite <- dead_spec. by apply (i_usable _ Hi).
  - intros g l1 l2 E. eapply used_well; [|exact E]. apply (i_clean _ Hi).
  - intros a Ha. apply (i_busy _ Hi). unfold life. cbn. by rewrite Ha.
Qed.

(** Why the connection task gives up connection [g]. *)
Inductive cause (env : Env) (g : N) (s : Sys) : Event V → Prop :=
  | by_connect addr name k pw : cause env g s (Handle (Connect addr name k pw))
  | by_disconnect : cause env g s (Handle Disconnect)
  | by_shutdown : cause env g s (Handle Shutdown)
  | by_closing : cause env g s CommandsClosed
  | by_write cmd e : write_error env = Some e → cause env g s (Handle cmd)
  | by_receiver rs st : teardowns s = g :: rs → receivers s !! g = Some st → st ≠ Reading → cause env g s Teardown.

Lemma up_close_mark l : up (close (mark l)) = None.
Proof. unfold close. cbn. by destruct (up l) eqn:E. Qed.

(** The connection is given up for its own reasons only.  A connection in use
    stays in use, through any event of any task, unless the user connects anew,
    disconnects or quits, a write to it fails, or its own receiver has stopped
    reading and asked for the teardown; the request of an earlier connection's
    receiver never touches it.  When it is given up it is closed on the spot. *)
Theorem connection_is_kept (s : Sys) (env : Env) (e : Event V) (g : N) :
  reachable s → prompt env e (life s) → transport (task s) = Some g →
  let s' := step s (env, e) in
  transport (task s') = Some g ∨
  (cause env g s e ∧ transport (task s') = None ∧ CloseTransport g ∈ out s' ∧
   (e ≠ CommandsClosed → g ∈ closed_here s')).
Proof.
  intros Hr Hp Hg s'. pose proof (reachable_inv s Hr) as Hi. destruct (i_up _ Hi g Hg) as [Hf Hnf].
  destruct (i_flag _ Hi g Hf) as [Egen _].
  assert (∀ l', life s' = l' → up l' = None → g ∈ dead (known l') → (e ≠ CommandsClosed → g ∈ flagged l') →
    cause env g s e → transport (task s') = Some g ∨
    (cause env g s e ∧ transport (task s') = None ∧ CloseTransport g ∈ out s' ∧ (e ≠ CommandsClosed → g ∈ closed_here s'))) as Hgone.
  { intros l' <- Hu Hd Hfl Hc. right. split; [done|]. split; [done|]. split; [|done]. by apply dead_spec. }
  pose proof (step_moves env e s (i_usable _ Hi)) as Hm. fold s' in Hm.
  assert (up (life s) = Some g) as Hup by done. assert (flag (life s) = Some g) as Hfl by done.
  remember (life s) as l eqn:El. remember (life s') as l' eqn:El'.
  assert (∀ l2, l2 = life s' → up l2 = Some g → transport (task s') = Some g) as Hstay by (by intros l2 ->).
  destruct Hm; subst; try (left; by eapply Hstay).
  - eapply (Hgone _ eq_refl); [apply up_lost|..]; [| |by eapply by_write].
    + unfold lost, close. cbn [up]. rewrite Hup. cbn. set_solver.
    + intros _. unfold lost, close, marked. cbn [up]. rewrite Hup, Hfl. cbn. set_solver.
  - unfold superseded in *. rewrite Hup in *. eapply (Hgone _ eq_refl); [apply up_close_mark|..]; [| |constructor];
      unfold close, mark, marked; cbn [up]; rewrite Hup, Hfl; cbn; set_solver.
  - eapply (Hgone _ eq_refl); [apply up_close_mark|..]; [| |constructor];
      unfold close, mark, marked; cbn [up]; rewrite Hup, Hfl; cbn; set_solver.
  - eapply (Hgone _ eq_refl); [apply up_close_mark|..]; [| |constructor];
      unfold close, mark, marked; cbn [up]; rewrite Hup, Hfl; cbn; set_solver.
  - eapply (Hgone _ eq_refl); [unfold close; by rewrite Hup|..]; [|done|constructor]. unfold close. rewrite Hup. cbn. set_solver.
  - match goal with E : requests (life s) = _ |- _ => rename E into Erq end.
    destruct (i_requests _ Hi (gen (life s))) as (st & Hst & Hne); [rewrite Erq; apply list_elem_of_here|].
    eapply (Hgone _ eq_refl); [apply up_close_mark|..]; [| |by eapply by_receiver];
      unfold close, mark, marked, asking; cbn [up flag]; rewrite Hup, Hfl; cbn; set_solver.
  - exfalso. match goal with E : doing (life s) = Busy |- _ => pose proof (i_busy _ Hi E) end. congruence.
Qed.

(** ** After a disconnect *)

(** Nothing is left that could speak up: a receiver is done, or knows that its
    connection was closed here. *)
Definition hushed (l : Life) : Prop :=
  shown (known l) = Client.Disconnected ∧ hears (known l) = None ∧ up l = None ∧ slot l = None ∧ doing l ≠ Busy ∧
  ∀ g st, stage l !! g = Some st → st = Ended ∨ (g ∈ flagged l ∧ st ≠ Reporting).

Definition reconnects (e : Event V) : bool :=
  match e with Handle (Connect _ _ _ _ | AcceptCertificate) => true | _ => false end.

Lemma hushed_at_stage g st st' l :
  hushed l → stage l !! g = Some st' → st ≠ Reporting → (st' = Ended → st = Ended) → hushed (at_stage g st l).
Proof.
  intros (? & ? & ? & ? & ? & Hst) Hg Hne He. repeat (split; [done|]). intros g' x. cbn.
  destruct (decide (g' = g)) as [->|Hd]; [|rewrite lookup_insert_ne by done; apply Hst].
  rewrite lookup_insert_eq. intros [= <-]. destruct (Hst g st' Hg) as [?|[? _]]; auto.
Qed.

Lemma hushed_mark l : hushed l → hushed (mark l).
Proof.
  intros (? & ? & ? & ? & ? & Hst). repeat (split; [done|]). intros g st Hg. destruct (Hst g st Hg) as [?|[? ?]]; [by left|].
  right. split; [|done]. cbn. unfold marked. destruct (flag l); set_solver.
Qed.

Lemma hushed_move env e l l' : move env e l l' → reconnects e = false → hushed l → hushed l'.
Proof.
  intros Hm He Hh. pose proof Hh as (Hs & Hr & Hu & Hsl & Hb & Hst).
  assert (∀ d l0, d ≠ Busy → hushed l0 → hushed (becomes d l0)) as Hbec by (intros d l0 ? (? & ? & ? & ? & ? & ?); by repeat (split; [done|])).
  assert (∀ l0, hushed l0 → hushed (unplug l0)) as Hunp by (intros l0 (? & ? & ? & ? & ? & ?); by repeat (split; [done|])).
  assert (close (mark l) = mark l) as Ecm by (unfold close, mark; cbn; by rewrite Hu).
  assert (close l = l) as Ec by (unfold close; by rewrite Hu).
  destruct Hm; try discriminate He; try done; try congruence; rewrite ?Ecm, ?Ec.
  - pose proof (hushed_mark _ Hh) as (? & ? & ? & ? & ? & ?). by repeat (split; [done|]).
  - apply Hbec; [done|]. pose proof (hushed_mark _ Hh) as (? & ? & ? & ? & ? & ?). by repeat (split; [done|]).
  - by apply Hbec.
  - apply Hunp. unfold close, asking. cbn [up mark]. rewrite Hu. by apply hushed_mark.
  - change (hushed (asking (requests l ++ [g]) (at_stage g Notifying l))). by apply (hushed_at_stage g _ Reading).
  - apply (hushed_at_stage g _ Notifying); [|done..]. by repeat (split; [done|]).
  - apply (hushed_at_stage g _ Clearing); [|done..]. by repeat (split; [done|]).
  - apply (hushed_at_stage g _ Deciding); [done|done| |done].
    destruct (Hst g Deciding) as [[=]|[Hf _]]; [done|]. rewrite bool_decide_false; [done|]. intros Hn. by apply Hn.
  - destruct (Hst g Reporting) as [[=]|[_ Hn]]; done.
Qed.

(** A disconnect is final.  Once the user has disconnected, the screen says
    "disconnected", the audio task works on no connection, the transport is gone
    and no file-transfer plugin is offered, and it stays so whatever the tasks
    still do, until the user connects again; provided no receiver had already
    decided to report its loss. *)
Theorem disconnect_is_final (s : Sys) (env : Env) (later : list (Env * Event V)) :
  reachable s → phase (task s) = Idle → (∀ g, receivers s !! g ≠ Some Reporting) →
  Forall (λ x, reconnects x.2 = false) later →
  let s' := fold_left step ((env, Handle Disconnect) :: later) s in
  shown (known (life s')) = Client.Disconnected ∧ hears (known (life s')) = None ∧
  transport (task s') = None ∧ file_transfer_slot s' = None.
Proof.
  intros Hr Hp Hn Hl s'. pose proof (reachable_inv s Hr) as Hi.
  assert (hushed (life (step s (env, Handle Disconnect)))) as Hh.
  { assert (reachable (step s (env, Handle Disconnect))) as Hr' by (by apply reach_step).
    pose proof (reachable_inv _ Hr') as Hi'.
    assert (life (step s (env, Handle Disconnect)) = tell (λ a, showing Client.Disconnected (hearing None a)) (unplug (close (mark (life s))))) as E.
    { unfold step. cbn [fst snd handle_event]. unfold when_idle, get. rewrite seq_run. unfold gets. cbn [fst snd]. rewrite Hp.
      apply disconnect_life. by apply i_usable. }
    rewrite E in Hi' |- *. repeat (split; [first [done|apply up_close_mark|unfold close, mark; cbn; case_match; by rewrite Hp]|]).
    intros g st Hg. right. 
    assert (stage (life s) !! g = Some st) as Hg' by (revert Hg; unfold close; cbn; by case_match).
    split; [|intros ->; by destruct (Hn g)].
    destruct (i_closed _ Hi' g) as [Hu|Hd]; [by eexists|cbn in Hu; by rewrite up_close_mark in Hu|].
    destruct (i_dead_flagged _ Hi' _ Hd) as [Hf|Hq]; [done|]. exfalso. revert Hq. unfold close. cbn. case_match; cbn; by rewrite Hp. }
  assert (usable (life (step s (env, Handle Disconnect)))) as Hu by (by intros g; destruct Hh as (_ & _ & -> & _)).
  subst s'. cbn [fold_left]. set (s0 := step s (env, Handle Disconnect)) in *. clearbody s0. clear Hr Hp Hn Hi s env.
  revert s0 Hh Hu. induction Hl as [|[env e] later He _ IH]; intros s0 Hh Hu.
  { destruct Hh as (? & ? & ? & ? & _). done. }
  cbn [fold_left]. pose proof (hushed_move env e _ _ (step_moves env e s0 Hu) He Hh) as Hh'.
  apply IH; [done|]. intros g. destruct Hh' as (_ & _ & -> & _). done.
Qed.
End runs.

(** ** Witnesses *)

#[local] Existing Instances Session.sample_external Client.hex.

#[export] Instance sample_platform : Platform := {|
  has_file_transfer := true; key_signer _ _ := Ok (array_of_N 64 9); read_file _ := None; insecure_build := false;
  history_request_json := "?"; history_share_json _ := "!"; parse_history_request _ := false; parse_history_share _ := None |}.

Definition no_state : Proto.ServerState := Proto.mkServerState [] [] [] [].
(** A server that lets the client in as user 7. *)
Definition welcoming : Handshake.Net :=
  Handshake.mkNet (Handshake.Done tt) [Byte.x2a] Handshake.UnknownName (λ _ _ _, None) None (λ _, []) (Handshake.Done tt)
    (Some [Byte.x2a]) (λ _, None)
    [Handshake.Frame (Some (Some (Proto.ServerHello (arr (array_of_N 32 77)) "Rumble Server" 7)));
     Handshake.Frame (Some (Some (Proto.EvServerState no_state)))].
Definition seeing (c : Client.ConnectionState) (e : option Handshake.Error) : Env :=
  mkEnv (Client.with_connection (λ _, c) Client.State_default) false false (array_of_N 16 1) 0%Z e welcoming
    (Handshake.mkFresh (array_of_N 32 5) 1000) (inl []) None [] None.
Definition calm : Env := seeing Client.Disconnected None.
Definition seeing_connected : Env := seeing (Client.Connected "Rumble Server" 7) None.
Definition dial : Event unit := Handle (Connect "host" "ann" (array_of_N 32 9) None).

Definition sample_run (es : list (Env * Event unit)) : System unit := run (Handshake.mkConfig [] []) (0, 0)%N es.
Definition joined_run : list (Env * Event unit) := [(calm, dial); (calm, FinishHandshake)].

Lemma sample_reachable (es : list (Env * Event unit)) :
  Forall (λ x, x.2 ≠ Handle AcceptCertificate) es → reachable (Handshake.mkConfig [] []) (0, 0)%N (sample_run es).
Proof.
  unfold sample_run, run. induction es as [|[env e] es IH] using rev_ind; intros H; [constructor|].
  apply Forall_app in H as [H He]. rewrite fold_left_app. cbn [fold_left]. apply reach_step; [by apply IH|].
  apply Forall_cons in He as [He _]. by intros ->.
Qed.

Lemma no_ghost_connections_witness :
  let s := sample_run (joined_run ++ [(calm, dial); (calm, FinishHandshake)]) in
  transport (task s) = Some 2%N ∧ CloseTransport 1 ∈ out s ∧ CloseTransport 2 ∉ out s.
Proof.
  cbv zeta. split; [vm_compute; reflexivity|].
  destruct (no_ghost_connections (Handshake.mkConfig [] []) (0, 0)%N
    (sample_run (joined_run ++ [(calm, dial); (calm, FinishHandshake)]))) as (Hall & Hlive & _).
  - apply sample_reachable. repeat constructor; discriminate.
  - split.
    + destruct (Hall 1%N) as [H|H]; [vm_compute; eauto|vm_compute in H; discriminate H|exact H].
    + apply (Hlive 2%N). vm_compute. reflexivity.
Defined.

(** The receiver of the first connection asks for its teardown after the second was
    made. *)
Lemma connection_is_kept_witness :
  let s := sample_run (joined_run ++ [(calm, StreamEnded 1); (calm, dial); (calm, FinishHandshake)]) in
  teardowns s = [1%N] ∧ transport (task (step s (calm, Teardown))) = Some 2%N.
Proof.
  cbv zeta. split; [vm_compute; reflexivity|].
  destruct (connection_is_kept (Handshake.mkConfig [] []) (0, 0)%N
    (sample_run (joined_run ++ [(calm, StreamEnded 1); (calm, dial); (calm, FinishHandshake)])) calm Teardown 2)
    as [H|[H _]].
  - apply sample_reachable. repeat constructor; discriminate.
  - discriminate.
  - vm_compute. reflexivity.
  - exact H.
  - exfalso. inversion H as [| | | | |rs st Hq]. vm_compute in Hq. discriminate Hq.
Defined.

Lemma disconnect_is_final_witness :
  shown (known (life (fold_left step ((calm, Handle Disconnect) ::
      [(seeing_connected, StreamEnded 1); (seeing_connected, ReceiverStep 1); (seeing_connected, ReceiverStep 1);
       (seeing_connected, ReceiverStep 1); (seeing_connected, ReceiverStep 1)])
    (sample_run joined_run)))) = Client.Disconnected.
Proof.
  apply (disconnect_is_final (Handshake.mkConfig [] []) (0, 0)%N (sample_run joined_run) calm).
  - apply sample_reachable. repeat constructor; discriminate.
  - vm_compute. reflexivity.
  - intros g. assert (receivers (sample_run joined_run) = {[ 1%N := Reading ]}) as -> by (vm_compute; reflexivity).
    intros [_ [=]]%lookup_singleton_Some.
  - repeat constructor.
Defined.

End ConnectionFacts.
