(* ===== verification/ConnectionRest.v ===== *)
(** What the user sees when the client's tasks have come to rest.

    If the tasks take turns (a receiver that stops reading finishes before the
    connection task goes on), the screen, the audio task and the offered plugin
    agree with the connection whenever the tasks are at rest
    ([rest_is_truthful]).  Nothing in the program makes them take turns: the last
    section runs two interleavings after which they disagree for good. *)
From Stdlib Require Import NArith ZArith Lia String.
From stdpp Require Import base gmap strings list sets.
From S2P Require Import Prelude Proto Types Wire State World Session Client AudioTask Handshake Connection ConnectionFacts.

Module ConnectionRest.
Import Connection ConnectionFacts.
Open Scope string_scope.
Open Scope list_scope.

Section rest.
Context {V : Type} `{!External} `{!Client.Hex} `{!Platform}.
Abbreviation Sys := (System V).

(** ** Taking turns *)

Definition settled (l : Life) : Prop := ∀ g st, stage l !! g = Some st → st = Reading ∨ st = Ended.
Definition all_ended (l : Life) : Prop := ∀ g st, stage l !! g = Some st → st = Ended.
Definition up_to_date (env : Env) (l : Life) : Prop := Client.connection (view env) = shown (known l).

Definition orderly (env : Env) (e : Event V) (l : Life) : Prop :=
  match e with
  | Handle AcceptCertificate => settled l ∧ up_to_date env l
  | Handle RejectCertificate => settled l ∧ ∃ c, shown (known l) = Client.CertificatePending c
  | Handle _ | Teardown => settled l
  | FinishHandshake => all_ended l
  | ReceiverStep g => stage l !! g = Some Deciding → up_to_date env l
  | _ => True
  end.

(** ** The invariant *)

Definition disconnected (c : Client.ConnectionState) : Prop := ∀ n u, c ≠ Client.Connected n u.

(** What holds while the receiver of the connection in use is at [st]. *)
Definition tells (g : N) (st : Stage) (l : Life) : Prop :=
  let connected u := shown (known l) = Client.Connected "Rumble Server" u in
  match st with
  | Reading | Notifying =>
      (∃ u, connected u ∧ hears (known l) = Some (g, u)) ∧ slot l = if has_file_transfer then Some g else None
  | Clearing => (∃ u, connected u) ∧ hears (known l) = None
  | Deciding | Reporting => (∃ u, connected u) ∧ hears (known l) = None ∧ slot l = None
  | Ended => disconnected (shown (known l)) ∧ hears (known l) = None ∧ slot l = None
  end.

(** The connection in use. *)
Definition truth_up (g : N) (l : Life) : Prop :=
  ∃ st, stage l !! g = Some st ∧ (∀ g' st', stage l !! g' = Some st' → g' ≠ g → st' = Ended) ∧
    (st ≠ Reading → g ∈ requests l) ∧ tells g st l.

(** No connection: the plugin is gone, or will be taken away. *)
Definition truth_down (l : Life) : Prop :=
  disconnected (shown (known l)) ∧ hears (known l) = None ∧
  ((slot l = None ∧ plugin l = None) ∨ stage l !! gen l = Some Reading ∨ gen l ∈ requests l).

Definition truth (l : Life) : Prop := match up l with Some g => truth_up g l | None => truth_down l end.

(** A receiver that is done with its loop moves on. *)
Lemma truth_receiver g st st' l l' :
  stage l !! g = Some st → st ≠ Ended →
  (st = Reading → g ∈ requests l') →
  (∀ g', g' ∈ requests l → g' ∈ requests l') → (st' = Reading → st = Reading) →
  up l' = up l → stage l' = <[g := st']> (stage l) → gen l' = gen l →
  (up l = Some g → tells g st l → tells g st' l') →
  (disconnected (shown (known l)) → hears (known l) = None → disconnected (shown (known l')) ∧ hears (known l') = None) →
  (slot l = None ∧ plugin l = None → slot l' = None ∧ plugin l' = None) →
  truth l → truth l'.
Proof.
  intros Hg Hne Hr Hreq Hst Eu Es Eg Hup Hdown Hslot. unfold truth. rewrite Eu. destruct (up l) as [g0|].
  - intros (st0 & Hst0 & Hothers & Hask & Ht). destruct (decide (g = g0)) as [->|Hd]; [|destruct (Hne (Hothers g st Hg Hd))].
    rewrite Hg in Hst0. injection Hst0 as <-. exists st'. rewrite Es, lookup_insert_eq. split; [done|]. split; [|split; [|auto]].
    + intros g' x Hx Hn. rewrite lookup_insert_ne in Hx by done. by eapply Hothers.
    + intros Hnr. destruct (decide (st = Reading)) as [E|E]; [auto|]. by apply Hreq, Hask.
  - intros (Hs & Hh & Hpend). destruct (Hdown Hs Hh). unfold truth_down. rewrite Es, Eg. split; [done|]. split; [done|].
    destruct Hpend as [Hsl|[Hrd|Hin]]; [by left; apply Hslot| |right; right; by apply Hreq].
    destruct (decide (g = gen l)) as [->|Hd]; [|right; left; by rewrite lookup_insert_ne].
    right. right. rewrite Hg in Hrd. injection Hrd as ->. by apply Hr.
Qed.

Lemma truth_unplugged l :
  disconnected (shown (known l)) → hears (known l) = None → up l = None → truth (unplug l).
Proof. intros Hs Hh Hu. unfold truth. cbn [up unplug]. rewrite Hu. split; [done|]. split; [done|by left]. Qed.

(** The connection in use is the latest, and asked for its teardown or reads. *)
Lemma truth_pending g l : inv l → up l = Some g → truth l → stage l !! gen l = Some Reading ∨ gen l ∈ requests l.
Proof.
  intros Hi Hu. unfold truth. rewrite Hu. intros (st & Hst & _ & Hask & _).
  destruct (i_up _ Hi g Hu) as [Hf _]. destruct (i_flag _ Hi g Hf) as [-> _].
  destruct (decide (st = Reading)) as [->|Hne]; [by left|right; by apply Hask].
Qed.

(** With everybody settled and a request, the connection's loss is known. *)
Lemma truth_requested l : inv l → settled l → gen l ∈ requests l → truth l →
  disconnected (shown (known l)) ∧ hears (known l) = None.
Proof.
  intros Hi Hse Hin Ht. unfold truth in Ht. destruct (up l) as [g|] eqn:Hu; [|by destruct Ht as (? & ? & _)].
  destruct Ht as (st & Hst & _ & _ & Ht). destruct (i_up _ Hi g Hu) as [Hf _]. destruct (i_flag _ Hi g Hf) as [-> _].
  destruct (i_requests _ Hi _ Hin) as (st' & Hst' & Hne). rewrite Hst in Hst'. injection Hst' as <-.
  destruct (Hse _ _ Hst) as [->| ->]; [done|]. by destruct Ht as (? & ? & _).
Qed.

Lemma up_close_mark' l : up (close (mark l)) = None.
Proof. apply up_close_mark. Qed.

Lemma truth_opened b u l : b = has_file_transfer → all_ended l → truth (opened b u l).
Proof.
  intros -> Ha. unfold truth, opened. cbn [up]. set (g := N.succ (gen l)). exists Reading. cbn [stage requests].
  rewrite lookup_insert_eq. split; [done|]. split; [|split; [done|]].
  - intros g' st' Hst' Hne. rewrite lookup_insert_ne in Hst' by done. by eapply Ha.
  - cbn. split; [by exists u|done].
Qed.

Lemma orderly_move env (e : Event V) l l' :
  move env e l l' → orderly env e l → inv l → doing l' = Quit ∨ doing l = Quit ∨ (truth l → truth l').
Proof.
  intros Hm Ho Hi. destruct Hm as
    [| cmd g err l Hd Hu Hw | addr name k pw l Hd | c l Hd Hv | l Hd | l Hd | l Hd | l Hd | g rs l Hd Hr Hg
    | g rs l Hd Hr Hg | u l Hd | c l Hd Hc | e g l He Hst | g l Hst | g l Hst | g l Hst | g l Hst]; auto.
  - right; right; intros Ht. pose proof (truth_pending g l Hi Hu Ht) as Hp.
    unfold truth, lost, close. cbn [up tell]. rewrite Hu. cbn. split; [by intros ?|]. split; [done|by right].
  - right; right; intros Ht. unfold superseded. destruct (up l) as [g|] eqn:Hu.
    + change (truth (unplug (becomes Busy (tell (showing (Client.Connecting addr)) (tell (hearing None) (close (mark l))))))).
      apply truth_unplugged; [by intros ?|done|]. cbn. unfold close. cbn. by rewrite Hu.
    + unfold truth in *. cbn. rewrite Hu in Ht |- *. destruct Ht as (_ & Hh & Hp). split; [by intros ?|]. by split.
  - right; right; intros Ht. assert (up l = None) as Hu by (apply (i_pending _ Hi c); destruct Ho as [_ <-]; exact Hv).
    unfold truth in *. cbn. rewrite Hu in Ht |- *. destruct Ht as (_ & Hh & Hp). split; [by intros ?|]. by split.
  - right; right; intros Ht. destruct Ho as (_ & c & Hs). pose proof (i_pending _ Hi c Hs) as Hu.
    unfold truth in *. cbn. rewrite Hu in Ht |- *. destruct Ht as (_ & Hh & Hp). split; [by intros ?|]. by split.
  - right; right; intros Ht.
    change (truth (unplug (tell (λ a, showing Client.Disconnected (hearing None a)) (close (mark l))))).
    apply truth_unplugged; [by intros ?|done|]. cbn. apply up_close_mark.
  - right; right; intros Ht. destruct (truth_requested l Hi Ho) as [Hs Hh]; [rewrite Hr, <- Hg; apply list_elem_of_here|done|].
    apply truth_unplugged; [| |apply up_close_mark]; unfold close, asking; cbn; by case_match.
  - right; right. unfold truth. cbn [up asking]. destruct (up l) as [g0|] eqn:Hu.
    + intros (st & Hst & Hoth & Hask & Ht). exists st. split; [done|]. split; [done|]. split; [|by destruct st].
      intros Hne. specialize (Hask Hne). rewrite Hr in Hask. cbn. apply elem_of_cons in Hask as [->|?]; [|done].
      destruct (i_up _ Hi g Hu) as [Hf _]. by destruct (i_flag _ Hi g Hf).
    + intros (Hs & Hh & Hp). split; [done|]. split; [done|]. destruct Hp as [?|[?|Hin]]; [by left|right; by left|].
      right. right. rewrite Hr in Hin. cbn. apply elem_of_cons in Hin as [E|?]; [by destruct Hg|done].
  - right; right. intros _. by apply truth_opened.
  - right; right. pose proof (i_busy _ Hi Hd) as Hu. unfold truth. cbn. rewrite Hu. intros (_ & Hh & Hp).
    split; [intros n u; apply Hc|]. by split.
  - right; right. apply (truth_receiver g Reading Notifying); try done.
    + intros _. cbn. set_solver.
    + intros g' Hg'. cbn. set_solver.
  - right; right. apply (truth_receiver g Notifying Clearing); try done.
    intros _ ((u & ? & ?) & ?). split; [by exists u|done].
  - right; right. apply (truth_receiver g Clearing Deciding); try done.
    + intros _ (? & ?). by split.
    + by intros [_ ?].
  - right; right. match goal with |- context [at_stage g ?x l] => set (st' := x) end. apply (truth_receiver g Deciding st'); try done.
    + unfold st'. by case_match.
    + intros Hu (Hc & Hh & Hs). assert (st' = Reporting) as ->; [|done].
      unfold st'. destruct (i_up _ Hi g Hu) as [_ Hf]. rewrite bool_decide_true by done.
      rewrite (Ho Hst). by destruct Hc as [u ->].
  - right; right. apply (truth_receiver g Reporting Ended); try done. intros _ (? & ? & ?). by split.
Qed.

(** ** Orderly runs *)

Variable config : Handshake.ConnectConfig.
Variable limits : N * N.

Inductive orderly_run : Sys → Prop :=
  | orderly_start : orderly_run (initial config limits)
  | orderly_step s env e : orderly_run s → orderly env e (life s) → orderly_run (step s (env, e)).

Lemma orderly_prompt env (e : Event V) l : orderly env e l → prompt env e l.
Proof. intros Ho ->. by destruct Ho. Qed.

Lemma orderly_reachable s : orderly_run s → reachable config limits s.
Proof. induction 1; constructor; [done|by apply orderly_prompt]. Qed.

Lemma quit_for_good env (e : Event V) l l' : move env e l l' → doing l = Quit → doing l' = Quit.
Proof. intros Hm Hq. destruct Hm; try done; congruence. Qed.

Lemma orderly_truth s : orderly_run s → doing (life s) = Quit ∨ truth (life s).
Proof.
  induction 1 as [|s env e Hr IH Ho].
  { right. split; [by intros ?|]. split; [done|by left]. }
  pose proof (reachable_inv _ _ _ (orderly_reachable s Hr)) as Hi.
  pose proof (step_moves env e s (i_usable _ Hi)) as Hm.
  destruct IH as [Hq|Ht]; [left; by eapply quit_for_good|].
  destruct (orderly_move env e _ _ Hm Ho Hi) as [?|[Hq|Hnext]]; [by left|left; by eapply quit_for_good|right; by apply Hnext].
Qed.

(** Nothing is under way: every receiver reads the connection in use or is done, and
    no request waits. *)
Definition at_rest (s : Sys) : Prop :=
  phase (task s) = Idle ∧ teardowns s = [] ∧
  ∀ g st, receivers s !! g = Some st → st = Ended ∨ (st = Reading ∧ transport (task s) = Some g).

(** C23: At rest the screen tells the truth.  If the tasks took turns and have come to
    rest, then with a connection in use the screen says that the client is
    connected, under the user id the audio task works with, on that very
    connection, and its file-transfer plugin is the one on offer; without one the
    screen does not say so, the audio task works on none and no plugin is offered. *)
Theorem rest_is_truthful (s : Sys) :
  orderly_run s → at_rest s →
  match transport (task s) with
  | Some g =>
      (∃ user_id, shown (known (life s)) = Client.Connected "Rumble Server" user_id ∧
                  hears (known (life s)) = Some (g, user_id)) ∧
      file_transfer_slot s = (if has_file_transfer then Some g else None)
  | None =>
      disconnected (shown (known (life s))) ∧ hears (known (life s)) = None ∧ file_transfer_slot s = None
  end.
Proof.
  intros Hr (Hp & Hq & Hrec). destruct (orderly_truth s Hr) as [Hquit|Ht]; [unfold life in Hquit; cbn in Hquit; by rewrite Hp in Hquit|].
  pose proof (reachable_inv _ _ _ (orderly_reachable s Hr)) as Hi. unfold truth in Ht.
  change (up (life s)) with (transport (task s)) in Ht. destruct (transport (task s)) as [g|] eqn:Hg.
  - destruct Ht as (st & Hst & _ & Hask & Ht). destruct (decide (st = Reading)) as [->|Hne]; [exact Ht|].
    specialize (Hask Hne). change (requests (life s)) with (teardowns s) in Hask. rewrite Hq in Hask. by apply elem_of_nil in Hask.
  - destruct Ht as (Hs & Hh & [[Hsl _]|[Hst|Hin]]); [done| |].
    + destruct (Hrec _ _ Hst) as [[=]|[_ [=]]].
    + change (requests (life s)) with (teardowns s) in Hin. rewrite Hq in Hin. by apply elem_of_nil in Hin.
Qed.
End rest.

(** ** Out of turn *)

#[local] Existing Instances Session.sample_external Client.hex.

(** The connection was joined, read to its end, and torn down. *)
Definition lost_run : list (Env * Event unit) :=
  joined_run ++
  [(seeing_connected, StreamEnded 1); (seeing_connected, ReceiverStep 1); (seeing_connected, ReceiverStep 1);
   (seeing_connected, ReceiverStep 1); (seeing_connected, ReceiverStep 1); (seeing_connected, Teardown)].

Lemma rest_is_truthful_witness :
  let s := sample_run lost_run in
  at_rest s ∧ transport (task s) = None ∧ hears (known (life s)) = None ∧ file_transfer_slot s = None.
Proof.
  cbv zeta.
  assert (receivers (sample_run lost_run) = {[ 1%N := Ended ]}) as E by (vm_compute; reflexivity).
  assert (at_rest (sample_run lost_run)) as Hr.
  { split; [vm_compute; reflexivity|]. split; [vm_compute; reflexivity|]. intros g st. rewrite E.
    intros [_ <-]%lookup_singleton_Some. by left. }
  split; [exact Hr|]. split; [vm_compute; reflexivity|].
  pose proof (rest_is_truthful (Handshake.mkConfig [] []) (0, 0)%N (sample_run lost_run)) as T.
  assert (transport (task (sample_run lost_run)) = None) as Et by (vm_compute; reflexivity). rewrite Et in T.
  destruct T as (_ & T1 & T2); [|exact Hr|by split].
  unfold sample_run, run, lost_run, joined_run. cbn [app fold_left].
  repeat (apply orderly_step; [|cbn -[step]]); [constructor|..];
    try exact I; try (intros _; vm_compute; reflexivity);
    intros g st; match goal with |- stage ?l !! g = _ → _ =>
      let m := eval vm_compute in (map_to_list (stage l)) in
      match m with
      | [] => assert (stage l = ∅) as -> by (vm_compute; reflexivity); by rewrite lookup_empty
      | [(?g', ?x)] => assert (stage l = {[ g' := x ]}) as -> by (vm_compute; reflexivity);
          intros [_ <-]%lookup_singleton_Some; auto
      end end.
Defined.

(** The same with the teardown handled before the receiver looks whether the
    connection was closed here: it takes the loss for a local disconnect, and
    nobody tells the user. *)
Definition overtaken_run : list (Env * Event unit) :=
  joined_run ++
  [(seeing_connected, StreamEnded 1); (seeing_connected, Teardown); (seeing_connected, ReceiverStep 1);
   (seeing_connected, ReceiverStep 1); (seeing_connected, ReceiverStep 1)].

Example loss_goes_unreported :
  let s := sample_run overtaken_run in
  at_rest s ∧ transport (task s) = None ∧ shown (known (life s)) = Client.Connected "Rumble Server" 7.
Proof.
  cbv zeta. split; [|split; vm_compute; reflexivity].
  split; [vm_compute; reflexivity|]. split; [vm_compute; reflexivity|]. intros g st.
  assert (receivers (sample_run overtaken_run) = {[ 1%N := Ended ]}) as -> by (vm_compute; reflexivity).
  intros [_ <-]%lookup_singleton_Some. by left.
Qed.

(** A new connection is made before the receiver of the old one has finished: it
    then silences the new connection and takes its plugin off offer. *)
Definition late_run : list (Env * Event unit) :=
  joined_run ++
  [(seeing_connected, dial); (seeing_connected, StreamEnded 1); (seeing_connected, FinishHandshake);
   (seeing_connected, ReceiverStep 1); (seeing_connected, ReceiverStep 1); (seeing_connected, ReceiverStep 1);
   (seeing_connected, Teardown)].

Example old_receiver_silences_the_new_connection :
  let s := sample_run late_run in
  at_rest s ∧ transport (task s) = Some 2%N ∧ shown (known (life s)) = Client.Connected "Rumble Server" 7 ∧
  hears (known (life s)) = None ∧ file_transfer (task s) = Some 2%N ∧ file_transfer_slot s = None.
Proof.
  cbv zeta. split; [|repeat split; vm_compute; reflexivity].
  split; [vm_compute; reflexivity|]. split; [vm_compute; reflexivity|]. intros g st.
  assert (receivers (sample_run late_run) = {[ 1%N := Ended; 2%N := Reading ]}) as -> by (vm_compute; reflexivity).
  intros [[_ <-]|[_ [<- <-]%lookup_singleton_Some]]%lookup_insert_Some; [by left|].
  right. split; [done|]. vm_compute. reflexivity.
Qed.

End ConnectionRest.
