(* ===== verification/Streams.v ===== *)
(** Plugin streams: the framing of [crates/rumble-client-traits/src/transport.rs]
    and [crates/server/src/plugin.rs], how the server tells a plugin's stream from
    one of envelopes ([dispatch_secondary_stream] of [server.rs]), and how the
    client takes the streams a server opens ([run_stream_dispatch] of [handle.rs]).

    The receiving half of a stream is a [Recv]: the chunks that arrive, in whatever
    sizes, and how the stream ends.  quinn's [read_exact] and [read_to_end] are what
    they are documented to be, their errors a parameter; so is prost's decoder. *)
From Stdlib Require Import NArith Lia String.
From stdpp Require Import base list strings pretty.
From S2P Require Import Prelude Wire Client Handshake.

Module Streams.
Import Handshake.
Open Scope string_scope.
Open Scope list_scope.

(** ** Streams *)

Inductive Ending := Eof | Broken (e : Error) | StillOpen.

Record Recv := mkRecv { chunks : list bytes; ending : Ending }.

Definition content (r : Recv) : bytes := List.concat (chunks r).

Definition decimal (n : nat) : string := pretty (N.of_nat n).

(** [early]: the error of a stream that ends after some bytes of the wanted ones. *)
Fixpoint fill (early : nat → nat → Error) (wanted offset : nat) (l : list bytes) (e : Ending)
    : outcome bytes * list bytes :=
  if Nat.leb wanted offset then (Done [], l)
  else match l with
       | [] => (match e with Eof => Failed (early offset wanted) | Broken e => Failed e | StillOpen => Pending end, [])
       | c :: l =>
           let room := wanted - offset in
           if Nat.leb (List.length c) room then
             let '(d, l) := fill early wanted (offset + List.length c) l e in
             (and_then d (λ d, Done (c ++ d)), l)
           else (Done (take room c), drop room c :: l)
       end.

Definition fill_from (early : nat → nat → Error) (n : nat) (r : Recv) : outcome bytes * Recv :=
  let '(d, l) := fill early n 0 (chunks r) (ending r) in (d, mkRecv l (ending r)).

(** ** The client's side *)

Definition MAX_PLUGIN_FRAME_BYTES : nat := 64 * 1024.

Definition read_exact : nat → Recv → outcome bytes * Recv :=
  fill_from (λ offset n, ["unexpected EOF after " +:+ decimal offset +:+ " of " +:+ decimal n +:+ " bytes"]).

(** [data.len() as u32]. *)
Definition write_length_prefixed (data : bytes) : bytes := be_bytes 4 (Wire.len data) ++ data.

Definition frame_too_large (msg_len : nat) : Error :=
  ["plugin frame too large (" +:+ decimal msg_len +:+ " bytes, max " +:+ decimal MAX_PLUGIN_FRAME_BYTES +:+ ")"].

(** What follows a read that succeeded. *)
Definition read_then {A B} (x : outcome A * Recv) (k : A → Recv → outcome B * Recv) : outcome B * Recv :=
  let '(d, r) := x in
  match d with
  | Done a => k a r
  | Failed e => (Failed e, r)
  | Pending => (Pending, r)
  end.

Definition length_prefixed (exactly : nat → Recv → outcome bytes * Recv) (r : Recv) : outcome bytes * Recv :=
  read_then (exactly 4 r) (λ len_buf r,
    let msg_len := N.to_nat (of_be_bytes len_buf) in
    if Nat.ltb MAX_PLUGIN_FRAME_BYTES msg_len then (Failed (frame_too_large msg_len), r)
    else exactly msg_len r).

Definition read_length_prefixed : Recv → outcome bytes * Recv := length_prefixed read_exact.

(** [name.len() as u16]. *)
Definition StreamHeader_write_to (plugin : string) : bytes :=
  be_bytes 2 (Wire.len (as_bytes plugin)) ++ as_bytes plugin.

(** The message of [Utf8Error] is left out. *)
Definition invalid_utf8 : Error := ["invalid UTF-8 in plugin name"].

Definition StreamHeader_read_from (r : Recv) : outcome string * Recv :=
  read_then (read_exact 2 r) (λ len_buf r,
    let name_len := N.to_nat (of_be_bytes len_buf) in
    if Nat.eqb name_len 0 || Nat.ltb 255 name_len
    then (Failed ["invalid stream header name length: " +:+ decimal name_len], r)
    else read_then (read_exact name_len r) (λ name_buf r,
      (match from_utf8 name_buf with Some plugin => Done plugin | None => Failed invalid_utf8 end, r))).

Inductive PluginAck := AckOk | AckRejected (code : N) (error : string).

(** A decoded [PluginStreamAck]: the number of its status, code and error; 1 is
    [PLUGIN_ACK_STATUS_OK]. *)
Definition read_plugin_ack (decode_ack : bytes → outcome (N * N * string)) (r : Recv) : outcome PluginAck * Recv :=
  read_then (read_length_prefixed r) (λ b r,
    (and_then (decode_ack b) (λ '(status, code, error),
       Done (if (status =? 1)%N then AckOk else AckRejected code error)), r)).

(** One stream of the loop of [run_stream_dispatch]: the stream the plugin is
    handed, if it is one for it. *)
Definition dispatch_incoming (file_transfer : bool) (r : Recv) : outcome (option Recv) :=
  let '(header, r) := StreamHeader_read_from r in
  match header with
  | Done plugin => Done (if String.eqb plugin "file-relay" && file_transfer then Some r else None)
  | Failed _ => Done None
  | Pending => Pending
  end.

(** The loop: a stream whose header does not arrive holds up those behind it. *)
Fixpoint run_stream_dispatch (file_transfer : bool) (accepted : list Recv) : list Recv :=
  match accepted with
  | [] => []
  | r :: accepted =>
      match dispatch_incoming file_transfer r with
      | Done (Some s) => s :: run_stream_dispatch file_transfer accepted
      | Done None | Failed _ => run_stream_dispatch file_transfer accepted
      | Pending => []
      end
  end.

(** ** The server's side *)

Section server.
(** quinn's error for a stream that finishes early, and for one that is longer than
    the limit of [read_to_end]. *)
Variable finished_early : nat → nat → Error.
Variable too_long : Error.

Definition quinn_read_exact : nat → Recv → outcome bytes * Recv := fill_from finished_early.

Definition quinn_read_to_end (limit : nat) (r : Recv) : outcome bytes * Recv :=
  if Nat.ltb limit (List.length (content r)) then (Failed too_long, mkRecv [] (ending r))
  else (match ending r with Eof => Done (content r) | Broken e => Failed e | StillOpen => Pending end,
        mkRecv [] (ending r)).

Definition server_read_length_prefixed : Recv → outcome bytes * Recv := length_prefixed quinn_read_exact.

Record StreamHeader := mkHeader { plugin : string; metadata : bytes }.

Definition StreamHeader_encode (h : StreamHeader) : bytes := StreamHeader_write_to (plugin h) ++ metadata h.

Definition StreamHeader_decode (r : Recv) : outcome StreamHeader * Recv :=
  read_then (quinn_read_exact 2 r) (λ len_buf r,
    read_then (quinn_read_exact (N.to_nat (of_be_bytes len_buf)) r) (λ name_buf r,
      match from_utf8 name_buf with
      | None => (Failed invalid_utf8, r)
      | Some plugin => read_then (quinn_read_to_end (64 * 1024) r) (λ metadata r, (Done (mkHeader plugin metadata), r))
      end)).

Definition MAX_PLUGIN_NAME_LEN : nat := 255.

(** Where a secondary stream goes. *)
Inductive Route :=
  | Dropped
  | Waiting
  | Refused (plugin : string)
  | ToPlugin (plugin : string) (r : Recv)
  | ToEnvelopes (seed : bytes) (r : Recv).

(** [plugins]: the names of the registered plugins. *)
Definition dispatch_secondary_stream (plugins : list string) (authenticated : bool) (r : Recv) : Route :=
  match quinn_read_exact 2 r with
  | (Failed _, _) => Dropped
  | (Pending, _) => Waiting
  | (Done len_buf, r) =>
      let name_len := N.to_nat (of_be_bytes len_buf) in
      if Nat.ltb 0 name_len && Nat.leb name_len MAX_PLUGIN_NAME_LEN then
        match quinn_read_exact name_len r with
        | (Failed _, _) => Dropped
        | (Pending, _) => Waiting
        | (Done name_buf, r) =>
            let found := match from_utf8 name_buf with
                         | Some name => List.find (String.eqb name) plugins
                         | None => None
                         end in
            match found with
            | Some name => if authenticated then ToPlugin name r else Refused name
            | None => ToEnvelopes (len_buf ++ name_buf) r
            end
        end
      else ToEnvelopes len_buf r
  end.
End server.

(** ** Lemmas *)

Open Scope nat_scope.
Open Scope list_scope.

(** What a read leaves of a stream that holds enough, and what it says of one that
    does not. *)
Lemma read_fill_spec early n l e offset :
  offset ≤ n →
  (n - offset ≤ List.length (List.concat l) →
     ∃ l', fill early n offset l e = (Done (take (n - offset) (List.concat l)), l') ∧
           List.concat l' = drop (n - offset) (List.concat l)) ∧
  (List.length (List.concat l) < n - offset →
     ∃ d, fill early n offset l e = (d, []) ∧ match e with Eof | Broken _ => ∃ x, d = Failed x | StillOpen => d = Pending end).
Proof.
  revert offset. induction l as [|c l IH]; intros offset Ho; cbn [fill List.concat].
  - destruct (Nat.leb_spec n offset) as [Hle|Hgt].
    + assert (n - offset = 0) as -> by lia. split; [intros _; by eexists|cbn; lia].
    + cbn. split; [lia|intros _]. eexists. split; [done|]. destruct e; eauto.
  - destruct (Nat.leb_spec n offset) as [Hle|Hgt].
    + assert (n - offset = 0) as -> by lia. split; [intros _; by eexists|lia].
    + destruct (Nat.leb_spec (List.length c) (n - offset)) as [Hc|Hc]; rewrite length_app.
      * destruct (IH (offset + List.length c) ltac:(lia)) as [I1 I2].
        replace (n - (offset + List.length c)) with (n - offset - List.length c) in * by lia. split.
        -- intros Hk. destruct I1 as (l' & E & E'); [lia|]. rewrite E. exists l'. cbn [and_then].
           rewrite take_app_ge, drop_app_ge by lia. by split.
        -- intros Hk. destruct I2 as (d & E & Hd); [lia|]. rewrite E. eexists. split; [done|].
           destruct e; [destruct Hd as [x ->]; by exists x|destruct Hd as [x ->]; by exists x|by rewrite Hd].
      * split; [intros _|lia]. eexists. split; [by rewrite take_app_le by lia|]. cbn. by rewrite drop_app_le by lia.
Qed.

Lemma fill_from_enough early n r p :
  List.length p = n → p `prefix_of` content r →
  ∃ r', fill_from early n r = (Done p, r') ∧ ending r' = ending r ∧ p ++ content r' = content r.
Proof.
  intros Hl [rest E]. destruct (read_fill_spec early n (chunks r) (ending r) 0) as [H _]; [lia|].
  rewrite Nat.sub_0_r in H. unfold content in *. rewrite E, length_app in H.
  destruct H as (l' & E' & El); [lia|]. unfold fill_from. rewrite E', take_app_le, take_ge by lia. eexists. split; [done|].
  cbn. split; [done|]. by rewrite El, drop_app_ge, Hl, Nat.sub_diag, drop_0, E by lia.
Qed.

Lemma fill_from_short early n r :
  List.length (content r) < n → ∃ d r', fill_from early n r = (d, r') ∧ ∀ b, d ≠ Done b.
Proof.
  intros Hs. destruct (read_fill_spec early n (chunks r) (ending r) 0) as [_ H]; [lia|]. unfold content in Hs.
  destruct H as (d & E & Hd); [lia|]. unfold fill_from. rewrite E. do 2 eexists. split; [done|]. intros b ->.
  destruct (ending r); [by destruct Hd..|done].
Qed.

Lemma prefix_take n (l : bytes) : take n l `prefix_of` l.
Proof. exists (drop n l). by rewrite take_drop. Qed.

(** However it went: what was read, and what is left. *)
Lemma fill_from_cases early n r :
  (∃ b r', fill_from early n r = (Done b, r') ∧ List.length b = n ∧ b ++ content r' = content r) ∨
  (List.length (content r) < n ∧ ∃ d r', fill_from early n r = (d, r') ∧ ∀ b, d ≠ Done b).
Proof.
  destruct (decide (n ≤ List.length (content r))) as [Hn|Hn].
  - left. destruct (fill_from_enough early n r (take n (content r))) as (r' & E & _ & E').
    { rewrite length_take. lia. }
    { apply prefix_take. }
    do 2 eexists. split; [exact E|]. split; [rewrite length_take; lia|done].
  - right. split; [lia|]. apply fill_from_short. lia.
Qed.

Lemma of_be_bytes_len n (d : bytes) :
  (Wire.len d < 256 ^ N.of_nat n)%N → N.to_nat (of_be_bytes (be_bytes n (Wire.len d))) = List.length d.
Proof. intros H. rewrite of_be_bytes_be_bytes, N.mod_small by done. unfold Wire.len. lia. Qed.

(** The header that names a plugin. *)
Definition headed (name : string) (b : bytes) : Prop := StreamHeader_write_to name `prefix_of` b.

Definition routable (name : string) : Prop :=
  0 < List.length (as_bytes name) ≤ 255 ∧ utf8_valid (as_bytes name) = true.

Lemma routable_len name : routable name → (Wire.len (as_bytes name) < 256 ^ N.of_nat 2)%N.
Proof. intros [Hl _]. unfold Wire.len. change (256 ^ N.of_nat 2)%N with 65536%N. lia. Qed.

Lemma headed_cases name b :
  headed name b → routable name →
  take 2 b = be_bytes 2 (Wire.len (as_bytes name)) ∧
  ∃ body, b = StreamHeader_write_to name ++ body.
Proof.
  intros [body ->] Hr. split; [|by exists body]. unfold StreamHeader_write_to.
  by rewrite <- app_assoc, take_app_le, take_ge by (rewrite length_be_bytes; lia).
Qed.

Lemma StreamHeader_length name : List.length (StreamHeader_write_to name) = 2 + List.length (as_bytes name).
Proof. unfold StreamHeader_write_to. by rewrite length_app, length_be_bytes. Qed.

(** Reading a header, by whichever reader. *)
Lemma read_header early r name body :
  routable name → content r = StreamHeader_write_to name ++ body →
  ∃ r1 r2, fill_from early 2 r = (Done (be_bytes 2 (Wire.len (as_bytes name))), r1) ∧
    fill_from early (List.length (as_bytes name)) r1 = (Done (as_bytes name), r2) ∧
    content r2 = body ∧ ending r2 = ending r.
Proof.
  intros Hr E. unfold StreamHeader_write_to in E. rewrite <- app_assoc in E.
  destruct (fill_from_enough early 2 r (be_bytes 2 (Wire.len (as_bytes name)))) as (r1 & E1 & Ee1 & Er1).
  { apply length_be_bytes. }
  { rewrite E. by apply prefix_app_r. }
  rewrite E in Er1. apply app_inv_head in Er1.
  destruct (fill_from_enough early (List.length (as_bytes name)) r1 (as_bytes name)) as (r2 & E2 & Ee2 & Er2); [done| |].
  { rewrite Er1. by apply prefix_app_r. }
  rewrite Er1 in Er2. apply app_inv_head in Er2. exists r1, r2. repeat split; congruence.
Qed.

Lemma find_name plugins name : List.find (String.eqb name) plugins = if bool_decide (name ∈ plugins) then Some name else None.
Proof.
  case_bool_decide as Hin.
  - destruct (List.find _ _) as [x|] eqn:E.
    + apply find_Some_iff in E as [_ ->%String.eqb_eq]. done.
    + rewrite find_None_iff in E. specialize (E name Hin). by rewrite String.eqb_refl in E.
  - apply find_None_iff. intros x Hx. apply String.eqb_neq. by intros ->.
Qed.

Section routing.
Variable finished_early : nat → nat → Error.
Variable plugins : list string.
Variable authenticated : bool.
Abbreviation dispatch := (dispatch_secondary_stream finished_early plugins authenticated).

Lemma byte_pair (b : bytes) : List.length b = 2 → ∃ x y, b = [x; y] ∧ of_be_bytes b = (N_of_byte x * 256 + N_of_byte y)%N.
Proof. destruct b as [|x [|y [|]]]; try discriminate. intros _. exists x, y. split; [done|]. cbn. lia. Qed.

(** A secondary stream reaches the right reader, and reaches it whole.  However
    its bytes are cut into chunks: a stream that begins with the header of a
    registered plugin goes to that plugin, with exactly what follows the header, if
    the connection has logged in, and is refused otherwise; nothing else reaches a
    plugin; and what goes to the envelope loop instead, as every stream whose first
    byte is not zero does, is there with every byte, the ones already read first. *)
Theorem secondary_streams_are_routed (r : Recv) :
  (∀ name body, routable name → name ∈ plugins → content r = StreamHeader_write_to name ++ body →
     if authenticated then ∃ r', dispatch r = ToPlugin name r' ∧ content r' = body ∧ ending r' = ending r
     else dispatch r = Refused name) ∧
  (∀ name r', dispatch r = ToPlugin name r' →
     authenticated = true ∧ name ∈ plugins ∧ content r = StreamHeader_write_to name ++ content r') ∧
  (∀ seed r', dispatch r = ToEnvelopes seed r' → seed ++ content r' = content r ∧ ending r' = ending r) ∧
  (∀ x y rest, content r = x :: y :: rest → N_of_byte x ≠ 0%N →
     ∃ r', dispatch r = ToEnvelopes [x; y] r').
Proof.
  split; [|split; [|split]].
  - intros name body Hr Hin E. destruct (read_header finished_early r name body Hr E) as (r1 & r2 & E1 & E2 & Ec & Ee).
    unfold dispatch_secondary_stream, quinn_read_exact. rewrite E1.
    rewrite of_be_bytes_len by (by apply routable_len). destruct Hr as [[Hl Hl'] Hu].
    rewrite (proj2 (Nat.ltb_lt _ _)) by done. rewrite (proj2 (Nat.leb_le _ _)) by done. cbn [andb]. rewrite E2, from_utf8_as_bytes by done.
    rewrite find_name, bool_decide_true by done. destruct authenticated; [|done]. by exists r2.
  - intros name r'. unfold dispatch_secondary_stream, quinn_read_exact.
    destruct (fill_from_cases finished_early 2 r) as [(b & r1 & E1 & Hb & Ec)|(_ & d & r1 & E1 & Hd)]; rewrite E1;
      [|by destruct d as [b| |]; [destruct (Hd b)|..]].
    destruct (_ && _) eqn:El; [|done]. apply andb_true_iff in El as [El1%Nat.ltb_lt El2%Nat.leb_le].
    set (n := N.to_nat (of_be_bytes b)) in *.
    destruct (fill_from_cases finished_early n r1) as [(nb & r2 & E2 & Hn & Ec2)|(_ & d & r2 & E2 & Hd)]; rewrite E2;
      [|by destruct d as [b'| |]; [destruct (Hd b')|..]].
    destruct (from_utf8 nb) as [nm|] eqn:Eu; [|done]. rewrite find_name. case_bool_decide as Hin; [|done].
    destruct authenticated; [|done]. intros [= <- <-]. split; [done|]. split; [done|].
    rewrite <- Ec, <- Ec2. unfold StreamHeader_write_to. rewrite <- app_assoc. rewrite (from_utf8_Some _ _ Eu).
    f_equal. rewrite <- (be_bytes_of_be_bytes b), Hb. f_equal. unfold Wire.len. lia.
  - intros seed r'. unfold dispatch_secondary_stream, quinn_read_exact.
    destruct (fill_from_cases finished_early 2 r) as [(b & r1 & E1 & Hb & Ec)|(_ & d & r1 & E1 & Hd)].
    2: { rewrite E1. by destruct d as [b| |]; [destruct (Hd b)|..]. }
    assert (ending r1 = ending r) as Ee1 by (unfold fill_from in E1; destruct (fill _ _ _ _ _); by injection E1 as _ <-).
    rewrite E1. destruct (_ && _) eqn:El; [|by intros [= <- <-]].
    set (n := N.to_nat (of_be_bytes b)) in *.
    destruct (fill_from_cases finished_early n r1) as [(nb & r2 & E2 & Hn & Ec2)|(_ & d & r2 & E2 & Hd)].
    2: { rewrite E2. by destruct d as [b'| |]; [destruct (Hd b')|..]. }
    assert (ending r2 = ending r1) as Ee2 by (unfold fill_from in E2; destruct (fill _ _ _ _ _); by injection E2 as _ <-).
    rewrite E2. destruct (match from_utf8 nb with Some _ => _ | None => _ end); [by destruct authenticated|].
    intros [= <- <-]. rewrite <- app_assoc, Ec2, Ec. split; [done|congruence].
  - intros x y rest E Hx. unfold dispatch_secondary_stream, quinn_read_exact.
    destruct (fill_from_enough finished_early 2 r [x; y]) as (r1 & E1 & _); [done|rewrite E; by exists rest|].
    rewrite E1. rewrite (proj2 (Nat.leb_gt _ _)); [|cbn; unfold MAX_PLUGIN_NAME_LEN; lia].
    rewrite andb_false_r. by exists r1.
Qed.
End routing.

(** Both sides read frames alike. *)
Lemma length_prefixed_spec early data rest r :
  (Wire.len data < 2 ^ 32)%N → content r = write_length_prefixed data ++ rest →
  if Nat.leb (List.length data) MAX_PLUGIN_FRAME_BYTES
  then ∃ r', length_prefixed (fill_from early) r = (Done data, r') ∧ content r' = rest ∧ ending r' = ending r
  else ∃ r', length_prefixed (fill_from early) r = (Failed (frame_too_large (List.length data)), r').
Proof.
  intros Hd E. unfold write_length_prefixed in E. rewrite <- app_assoc in E.
  destruct (fill_from_enough early 4 r (be_bytes 4 (Wire.len data))) as (r1 & E1 & Ee1 & Er1).
  { apply length_be_bytes. }
  { rewrite E. by apply prefix_app_r. }
  rewrite E in Er1. apply app_inv_head in Er1. unfold length_prefixed, read_then. rewrite E1.
  rewrite of_be_bytes_len by done.
  destruct (Nat.leb_spec (List.length data) MAX_PLUGIN_FRAME_BYTES) as [Hl|Hl].
  - rewrite (proj2 (Nat.ltb_ge _ _)) by done.
    destruct (fill_from_enough early (List.length data) r1 data) as (r2 & E2 & Ee2 & Er2); [done|rewrite Er1; by apply prefix_app_r|].
    rewrite Er1 in Er2. apply app_inv_head in Er2. exists r2. repeat split; congruence.
  - rewrite (proj2 (Nat.ltb_lt _ _)) by done. by eexists.
Qed.

(** Plugin frames and headers survive the wire.  However the bytes are cut into
    chunks, either side reads back a frame the other wrote and leaves what follows
    untouched, and refuses, having read its length only, one above 64 KiB; the
    client reads back the header of a stream the server opened, whatever metadata
    follows it, and the server decodes what it encoded. *)
Theorem plugin_frames_round_trip finished_early too_long (data rest : bytes) (h : StreamHeader) (r s : Recv) :
  (Wire.len data < 2 ^ 32)%N → content r = write_length_prefixed data ++ rest →
  routable (plugin h) → content s = StreamHeader_encode h →
  (∀ exactly, exactly = read_exact ∨ exactly = quinn_read_exact finished_early →
     if Nat.leb (List.length data) MAX_PLUGIN_FRAME_BYTES
     then ∃ r', length_prefixed exactly r = (Done data, r') ∧ content r' = rest ∧ ending r' = ending r
     else ∃ r', length_prefixed exactly r = (Failed (frame_too_large (List.length data)), r')) ∧
  (∃ s', StreamHeader_read_from s = (Done (plugin h), s') ∧ content s' = metadata h) ∧
  (ending s = Eof → List.length (metadata h) ≤ 64 * 1024 →
     ∃ s', StreamHeader_decode finished_early too_long s = (Done h, s')).
Proof.
  intros Hd E Hr Es. split; [|split].
  - intros exactly [-> | ->]; by apply length_prefixed_spec.
  - unfold StreamHeader_read_from, read_exact.
    match goal with |- context [fill_from ?f] => destruct (read_header f s (plugin h) (metadata h) Hr Es) as (r1 & r2 & E1 & E2 & Ec & Ee) end.
    unfold read_then at 1. rewrite E1. rewrite of_be_bytes_len by (by apply routable_len).
    destruct Hr as [[Hl Hl'] Hu]. rewrite (proj2 (Nat.eqb_neq _ _)) by lia. rewrite (proj2 (Nat.ltb_ge _ _)) by done. cbn [orb].
    unfold read_then. rewrite E2, from_utf8_as_bytes by done. by exists r2.
  - intros Hend Hm. unfold StreamHeader_decode, quinn_read_exact.
    destruct (read_header finished_early s (plugin h) (metadata h) Hr Es) as (r1 & r2 & E1 & E2 & Ec & Ee).
    unfold read_then. rewrite E1. rewrite of_be_bytes_len by (by apply routable_len). destruct Hr as [_ Hu].
    rewrite E2, from_utf8_as_bytes by done. unfold quinn_read_to_end. rewrite Ec, Ee, Hend.
    rewrite (proj2 (Nat.ltb_ge _ _)) by done. eexists. by destruct h.
Qed.

(** A stream for the file relay is handed over whole, another is not. *)
Lemma dispatch_incoming_spec file_transfer name body r :
  routable name → content r = StreamHeader_write_to name ++ body →
  ∃ r', dispatch_incoming file_transfer r = Done (if String.eqb name "file-relay" && file_transfer then Some r' else None) ∧
    content r' = body.
Proof.
  intros Hr E. unfold dispatch_incoming, StreamHeader_read_from, read_exact.
  match goal with |- context [fill_from ?f] => destruct (read_header f r name body Hr E) as (r1 & r2 & E1 & E2 & Ec & Ee) end.
  unfold read_then at 1. rewrite E1. rewrite of_be_bytes_len by (by apply routable_len).
  destruct Hr as [[Hl Hl'] Hu]. rewrite (proj2 (Nat.eqb_neq _ _)) by lia. rewrite (proj2 (Nat.ltb_ge _ _)) by done. cbn [orb].
  unfold read_then. rewrite E2, from_utf8_as_bytes by done. by exists r2.
Qed.

(** One stream that stays silent holds up the ones behind it. *)
Example silent_stream_blocks_the_next :
  let header := StreamHeader_write_to "file-relay" in
  run_stream_dispatch true [mkRecv [header] Eof] = [mkRecv [] Eof] ∧
  run_stream_dispatch true [mkRecv [] StillOpen; mkRecv [header] Eof] = [].
Proof. by vm_compute. Qed.

(** An empty envelope (the keep-alive) at the head of a secondary stream reads as a
    header of the length of the next frame. *)
Example empty_envelope_is_misread :
  dispatch_secondary_stream (λ _ _, []) ["file-relay"%string] true (mkRecv [[Byte.x00; Byte.x02; Byte.x61; Byte.x62; Byte.x63]] Eof)
  = ToEnvelopes [Byte.x00; Byte.x02; Byte.x61; Byte.x62] (mkRecv [[Byte.x63]] Eof) ∧
  dispatch_secondary_stream (λ _ _, []) ["file-relay"%string] true (mkRecv [[Byte.x00; Byte.x05; Byte.x61]] StillOpen) = Waiting.
Proof. by vm_compute. Qed.

(** ** Witnesses *)

Lemma relay_routable : routable "file-relay".
Proof. by vm_compute; repeat split; repeat constructor. Qed.

Lemma secondary_streams_are_routed_witness :
  ∃ r', dispatch_secondary_stream (λ _ _, []) ["file-relay"%string] true
          (mkRecv [[Byte.x00]; [Byte.x0a; Byte.x66]; as_bytes "ile-relay" ++ [Byte.x01]; [Byte.x02]] StillOpen) = ToPlugin "file-relay" r' ∧
    content r' = [Byte.x01; Byte.x02].
Proof.
  destruct (secondary_streams_are_routed (λ _ _, []) ["file-relay"%string] true
    (mkRecv [[Byte.x00]; [Byte.x0a; Byte.x66]; as_bytes "ile-relay" ++ [Byte.x01]; [Byte.x02]] StillOpen)) as [H _].
  destruct (H "file-relay"%string [Byte.x01; Byte.x02] relay_routable) as (r' & E & Ec & _); [apply list_elem_of_here|reflexivity|].
  exists r'. split; [exact E|exact Ec].
Defined.

Lemma plugin_frames_round_trip_witness :
  ∃ r', read_length_prefixed (mkRecv [[Byte.x00; Byte.x00]; [Byte.x00; Byte.x02; Byte.x61]; [Byte.x62; Byte.x63]] Eof) = (Done [Byte.x61; Byte.x62], r') ∧ content r' = [Byte.x63].
Proof.
  destruct (plugin_frames_round_trip (λ _ _, []) [] [Byte.x61; Byte.x62] [Byte.x63] (mkHeader "file-relay" [])
    (mkRecv [[Byte.x00; Byte.x00]; [Byte.x00; Byte.x02; Byte.x61]; [Byte.x62; Byte.x63]] Eof) (mkRecv [StreamHeader_write_to "file-relay"] Eof)) as [H _].
  - reflexivity.
  - reflexivity.
  - exact relay_routable.
  - reflexivity.
  - destruct (H read_exact) as (r' & E & Ec & _); [by left|]. exists r'. split; [exact E|exact Ec].
Defined.

End Streams.
