(* ===== verification/Transfers.v ===== *)
(** The client's file-transfer plugin:
    [crates/rumble-desktop/src/file_transfer_relay.rs], with the types of
    [crates/rumble-client-traits/src/file_transfer.rs].

    Every upload and download is a [Task] of its own, which shares the table of
    transfers with the user's calls and with the other tasks.  A task is a program
    counter that moves from one [await] to the next; an [Input] is what ends an
    [await], and [Cancel] is the branch of the [select!] on the task's token, which
    is named by the number of the task.  The end of a task takes the lock of the
    table in a step of its own, and deletes a file in another.

    Downloads are written through inodes: two tasks that open the same path write to
    the same file, and a deleted file stays with those that hold it.  Bytes reach the
    file when they are written (the buffers of the writer are left out).  A file that
    is uploaded is not on this [disk]: its size and what is read of it are answers of
    the surroundings.  serde_json, [mime_guess], the random ids and the clock are
    parameters; prost's messages are taken decoded, with the number of a status.
    Directories below the download directory, logging and the [Utf8] conversions of
    names are left out, and a listener for the events is there. *)
From Stdlib Require Import NArith ZArith Lia String Ascii Floats.SpecFloat.
From stdpp Require Import base gmap list strings pretty.
From S2P Require Import Prelude Types Pipeline Relay Handshake Streams.

Module Transfers.
Open Scope string_scope.
Open Scope list_scope.

(** ** Paths ([std::path], on Unix) *)

Fixpoint split_on (c : ascii) (s : string) : list string :=
  match s with
  | "" => [""]
  | String a s =>
      if Ascii.eqb a c then "" :: split_on c s
      else match split_on c s with w :: ws => String a w :: ws | [] => [String a ""] end
  end.

Definition slash : ascii := "/"%char.
Definition dot : ascii := "."%char.

(** [Path::new(s).file_name()]: the last component, if it is a name. *)
Definition path_file_name (s : string) : option string :=
  match last (retain (λ c, negb (String.eqb c "" || String.eqb c ".")) (split_on slash s)) with
  | Some c => if String.eqb c ".." then None else Some c
  | None => None
  end.

Fixpoint ends_with_slash (s : string) : bool :=
  match s with
  | "" => false
  | String a "" => Ascii.eqb a slash
  | String _ s => ends_with_slash s
  end.

(** [dir.join(name)]. *)
Definition join (dir name : string) : string :=
  match name with
  | String a _ => if Ascii.eqb a slash then name
                  else if String.eqb dir "" || ends_with_slash dir then dir +:+ name else dir +:+ "/" +:+ name
  | "" => if String.eqb dir "" || ends_with_slash dir then dir else dir +:+ "/"
  end.

(** The parts before and after the last dot. *)
Fixpoint rsplit_dot (s : string) : option (string * string) :=
  match s with
  | "" => None
  | String a s =>
      match rsplit_dot s with
      | Some (before, after) => Some (String a before, after)
      | None => if Ascii.eqb a dot then Some ("", s) else None
      end
  end.

Definition file_stem (name : string) : string :=
  if String.eqb name ".." then name
  else match rsplit_dot name with Some ("", _) | None => name | Some (before, _) => before end.
Definition extension (name : string) : option string :=
  if String.eqb name ".." then None
  else match rsplit_dot name with Some ("", _) | None => None | Some (_, after) => Some after end.

(** ** [f64] *)

Abbreviation f64 := spec_float.
Definition f64_of_N (n : N) : f64 := binary_normalize 53 1024 (Z.of_N n) 0 false.
Definition f64_zero : f64 := S754_zero false.
Definition f64_add : f64 → f64 → f64 := SFadd 53 1024.
Definition f64_sub : f64 → f64 → f64 := SFsub 53 1024.
Definition f64_mul : f64 → f64 → f64 := SFmul 53 1024.
Definition f64_div : f64 → f64 → f64 := SFdiv 53 1024.
Definition f64_min (a b : f64) : f64 :=
  match a, b with S754_nan, _ => b | _, S754_nan => a | _, _ => if SFltb b a then b else a end.
Definition f64_max (a b : f64) : f64 :=
  match a, b with S754_nan, _ => b | _, S754_nan => a | _, _ => if SFltb a b then b else a end.

(** [x as u64]: towards zero, saturating, NaN to 0. *)
Definition u64_of_f64 (x : f64) : N :=
  match x with
  | S754_finite false m e => N.min u64_max (Z.to_N (if (0 <=? e)%Z then Z.shiftl (Z.pos m) e else Z.shiftr (Z.pos m) (- e)))
  | S754_infinity false => u64_max
  | _ => 0
  end.

(** [Duration::as_secs_f64] of nanoseconds. *)
Definition as_secs_f64 (ns : N) : f64 :=
  f64_add (f64_of_N (ns / 1000000000)) (f64_div (f64_of_N (ns mod 1000000000)) (f64_of_N 1000000000)).

(** ** Types ([file_transfer.rs]) *)

Definition MAX_UPLOAD_BYTES : N := 256 * 1024 * 1024.

Inductive PluginNotificationLevel := Info | Warn | Error.
Inductive TransferDirection := Upload | Download.
#[export] Instance direction_eq_dec : EqDecision TransferDirection.
Proof. solve_decision. Defined.

Inductive TransferStage :=
  | Active (progress : Pipeline.f32) (speed_bps : N)
  | Paused (progress : Pipeline.f32)
  | Done (local_path : string)
  | Failed (reason : string).

Definition progress (s : TransferStage) : Pipeline.f32 :=
  match s with
  | Active p _ | Paused p => Pipeline.f32_clamp p Pipeline.f32_zero (Pipeline.f32_of_N 1)
  | Done _ => Pipeline.f32_of_N 1
  | Failed _ => Pipeline.f32_zero
  end.

Definition is_terminal (s : TransferStage) : bool := match s with Done _ | Failed _ => true | _ => false end.
Definition is_running (s : TransferStage) : bool := negb (is_terminal s).

Inductive PluginEvent :=
  | Notification (level : PluginNotificationLevel) (text : string)
  | TransferStageChanged (id : string) (direction : TransferDirection) (name : string) (stage : TransferStage).

Record FileOffer := mkOffer { o_id : string; o_name : string; o_size : N; o_mime : string; o_share_data : string }.

(** [peers] is 0 and [peer_details] empty. *)
Record TransferStatus := mkStatus {
  s_id : string; s_name : string; s_size : N; s_direction : TransferDirection; s_stage : TransferStage }.

Definition done_path (s : TransferStatus) : option string :=
  match s_stage s with Done local_path => Some local_path | _ => None end.

Record RelayShareData := mkShareData { sd_transfer_id : string; sd_file_name : string; sd_file_size : N; sd_mime : string }.

(** ** The table ([file_transfer_relay.rs]) *)

Record TransferEntry := mkEntry {
  id : string; name : string; size : N; mime : string; share_data : option string; entry_room_id : option string;
  direction : TransferDirection; stage : TransferStage; source_path : option string; cancel_token : N;
  last_sample_bytes : N; last_sample_at : N; dest_path : option string; delete_on_complete : bool }.

Definition set_stage (x : TransferStage) (e : TransferEntry) : TransferEntry :=
  mkEntry (id e) (name e) (size e) (mime e) (share_data e) (entry_room_id e) (direction e) x (source_path e)
    (cancel_token e) (last_sample_bytes e) (last_sample_at e) (dest_path e) (delete_on_complete e).
Definition set_sample (bytes at_ : N) (e : TransferEntry) : TransferEntry :=
  mkEntry (id e) (name e) (size e) (mime e) (share_data e) (entry_room_id e) (direction e) (stage e) (source_path e)
    (cancel_token e) bytes at_ (dest_path e) (delete_on_complete e).
Definition set_delete_on_complete (x : bool) (e : TransferEntry) : TransferEntry :=
  mkEntry (id e) (name e) (size e) (mime e) (share_data e) (entry_room_id e) (direction e) (stage e) (source_path e)
    (cancel_token e) (last_sample_bytes e) (last_sample_at e) (dest_path e) x.
Definition set_destination (n : string) (sz : N) (dest : string) (e : TransferEntry) : TransferEntry :=
  mkEntry (id e) n sz (mime e) (share_data e) (entry_room_id e) (direction e) (stage e) (source_path e)
    (cancel_token e) (last_sample_bytes e) (last_sample_at e) (Some dest) (delete_on_complete e).

Definition to_status (e : TransferEntry) : TransferStatus := mkStatus (id e) (name e) (size e) (direction e) (stage e).

(** [now.duration_since(earlier)] saturates at zero. *)
Definition update_active_progress (bytes_so_far total_size now : N) (e : TransferEntry) : TransferEntry :=
  match stage e with
  | Active _ speed_bps =>
      let p := if (0 <? total_size)%N
               then Pipeline.f32_div (Pipeline.f32_of_N bytes_so_far) (Pipeline.f32_of_N total_size)
               else Pipeline.f32_of_N 1 in
      let elapsed := (now - last_sample_at e)%N in
      if (elapsed / 1000000 <? 250)%N then set_stage (Active p speed_bps) e
      else
        let delta := (bytes_so_far - last_sample_bytes e)%N in
        let secs := f64_max (as_secs_f64 elapsed) (f64_div (f64_of_N 1) (f64_of_N 1000)) in
        set_sample bytes_so_far now (set_stage (Active p (u64_of_f64 (f64_div (f64_of_N delta) secs))) e)
  | _ => e
  end.

(** ** The throttle *)

Record TokenBucket := mkBucket { tokens : f64; last_refill : N }.
Definition TokenBucket_new (now : N) : TokenBucket := mkBucket f64_zero now.

(** The seconds to sleep, if any. *)
Definition consume (bytes limit_bps now : N) (b : TokenBucket) : option f64 * TokenBucket :=
  if (limit_bps =? 0)%N then (None, mkBucket f64_zero now)
  else
    let limit := f64_of_N limit_bps in
    let elapsed := as_secs_f64 (now - last_refill b) in
    let t := f64_sub (f64_min (f64_add (tokens b) (f64_mul elapsed limit)) limit) (f64_of_N bytes) in
    (if SFleb f64_zero t then None else Some (f64_div (SFopp t) limit), mkBucket t now).

(** ** Checks *)

Definition validate_fetch_progress (received file_size : N) : option string :=
  if (MAX_UPLOAD_BYTES <? file_size)%N then
    Some ("server-declared file size (" +:+ pretty file_size +:+ " bytes) exceeds the maximum allowed "
          +:+ pretty MAX_UPLOAD_BYTES +:+ " bytes (mirrors the server relay cap); refusing download")
  else if (file_size <? received)%N then
    Some ("server sent more data than declared (" +:+ pretty received +:+ " > " +:+ pretty file_size
          +:+ " bytes): protocol violation")
  else None.

(** The names tried, ["name (2)"] up to ["name (9999)"]. *)
Definition candidate_name (file_name : string) (n : N) : string :=
  match extension file_name with
  | Some e => file_stem file_name +:+ " (" +:+ pretty n +:+ ")." +:+ e
  | None => file_stem file_name +:+ " (" +:+ pretty n +:+ ")"
  end.

Fixpoint first_free (exists_ : string → bool) (dir file_name : string) (fuel : nat) (n : N) : string :=
  match fuel with
  | O => join dir file_name
  | S fuel =>
      let candidate := join dir (candidate_name file_name n) in
      if exists_ candidate then first_free exists_ dir file_name fuel (n + 1) else candidate
  end.

Definition unique_dest_path (exists_ : string → bool) (dir file_name : string) : string :=
  let initial := join dir file_name in
  if exists_ initial then first_free exists_ dir file_name 9998 2 else initial.

(** [format!("{size:.1}")] rounds half to even; a [u64] beyond 2^53 is taken exactly. *)
Definition round_half_even (num den : N) : N :=
  let q := (num / den)%N in
  let r := (num mod den * 2)%N in
  if (r <? den)%N then q else if (den <? r)%N then (q + 1)%N else if N.even q then q else (q + 1)%N.
Definition one_decimal (bytes unit_size : N) : string :=
  let tenths := round_half_even (bytes * 10) unit_size in
  pretty (tenths / 10)%N +:+ "." +:+ pretty (tenths mod 10)%N.
Definition format_bytes_simple (bytes : N) : string :=
  if (bytes <? 1024)%N then pretty bytes +:+ " B"
  else if (bytes <? 1024 * 1024)%N then one_decimal bytes 1024 +:+ " KiB"
  else if (bytes <? 1024 * 1024 * 1024)%N then one_decimal bytes (1024 * 1024) +:+ " MiB"
  else one_decimal bytes (1024 * 1024 * 1024) +:+ " GiB".

(** The names of a [RelayResult]; an unknown number counts as an error. *)
Definition RESULT_OK : N := 1.
Definition result_name (status : N) : string :=
  if (status =? 0)%N then "RELAY_RESULT_UNSPECIFIED" else if (status =? 1)%N then "RELAY_RESULT_OK"
  else if (status =? 2)%N then "RELAY_RESULT_NOT_FOUND" else if (status =? 3)%N then "RELAY_RESULT_TOO_LARGE"
  else "RELAY_RESULT_ERROR".

(** ** Tasks *)

(** What an upload or a fetch writes to its stream. *)
Inductive Message :=
  | UploadRequest (u : Relay.RelayUpload)
  | FetchRequest (transfer_id : string)
  | Body (b : bytes)
  | Finish.

Inductive UploadPc :=
  | UOpening
  | URequesting
  | UAwaitingAck
  | UOpeningFile
  | USending (sent : N) (bucket : TokenBucket)
  | UWriting (sent : N) (bucket : TokenBucket) (b : bytes)
  | USleeping (sent : N) (bucket : TokenBucket)
  | UFinishing
  | UAwaitingResponse
  | UEnded (r : result unit)
  | UClosed.

Inductive FetchPc :=
  | FOpening
  | FRequesting
  | FAwaitingHead
  | FCreating (dest : string) (file_size : N)
  | FReceiving (dest : string) (inode file_size received : N) (bucket : TokenBucket)
  | FSleeping (dest : string) (inode file_size received : N) (bucket : TokenBucket)
  | FFlushing (dest : string) (inode : N)
  | FEnded (r : result string)
  | FRemoving (path : string)
  | FClosed.

Inductive Task :=
  | Uploading (u : Relay.RelayUpload) (path : string) (pc : UploadPc)
  | Fetching (transfer_id : string) (pc : FetchPc).

(** What ends an [await], or lets a step through: success at some time, what was
    read, an error, the cancellation. *)
Inductive Input :=
  | Ready (now : N)
  | Acked (a : Streams.PluginAck)
  | FileRead (b : bytes)
  | Responded (status : N) (error : string)
  | HeadRead (status : N) (file_name : string) (file_size : N) (error : string) (mkdir : option Handshake.Error)
  | StreamRead (b : option bytes) (now : N)
  | StreamFailed (e : Handshake.Error)
  | IoFailed (e : Handshake.Error)
  | Cancel.

(** What a run leaves behind: the events of the plugin, what tasks wrote, and for
    each download the destination and size it settled on, the file it opened and what
    it received. *)
Inductive Event :=
  | Emitted (e : PluginEvent)
  | Wrote (task : N) (m : Message)
  | Chosen (task : N) (path : string) (file_size : N)
  | Created (task : N) (path : string) (inode : N)
  | Received (task : N) (b : bytes)
  | Removed (path : string).

Record Plugin := mkPlugin {
  downloads_dir : string; room_id : string; speed_limits : N * N; transfers : gmap string TransferEntry;
  cancelled : gset N; tasks : gmap N Task; next_task : N; disk : gmap string N; inodes : gmap N bytes; log : list Event }.

Definition set_room (x : string) (p : Plugin) : Plugin :=
  mkPlugin (downloads_dir p) x (speed_limits p) (transfers p) (cancelled p) (tasks p) (next_task p) (disk p) (inodes p) (log p).
Definition set_speed_limits (x : N * N) (p : Plugin) : Plugin :=
  mkPlugin (downloads_dir p) (room_id p) x (transfers p) (cancelled p) (tasks p) (next_task p) (disk p) (inodes p) (log p).
Definition set_transfers (x : gmap string TransferEntry) (p : Plugin) : Plugin :=
  mkPlugin (downloads_dir p) (room_id p) (speed_limits p) x (cancelled p) (tasks p) (next_task p) (disk p) (inodes p) (log p).
Definition set_cancelled (x : gset N) (p : Plugin) : Plugin :=
  mkPlugin (downloads_dir p) (room_id p) (speed_limits p) (transfers p) x (tasks p) (next_task p) (disk p) (inodes p) (log p).
Definition set_tasks (x : gmap N Task) (p : Plugin) : Plugin :=
  mkPlugin (downloads_dir p) (room_id p) (speed_limits p) (transfers p) (cancelled p) x (next_task p) (disk p) (inodes p) (log p).
Definition set_next_task (x : N) (p : Plugin) : Plugin :=
  mkPlugin (downloads_dir p) (room_id p) (speed_limits p) (transfers p) (cancelled p) (tasks p) x (disk p) (inodes p) (log p).
Definition set_disk (x : gmap string N) (p : Plugin) : Plugin :=
  mkPlugin (downloads_dir p) (room_id p) (speed_limits p) (transfers p) (cancelled p) (tasks p) (next_task p) x (inodes p) (log p).
Definition set_inodes (x : gmap N bytes) (p : Plugin) : Plugin :=
  mkPlugin (downloads_dir p) (room_id p) (speed_limits p) (transfers p) (cancelled p) (tasks p) (next_task p) (disk p) x (log p).
Definition set_log (x : list Event) (p : Plugin) : Plugin :=
  mkPlugin (downloads_dir p) (room_id p) (speed_limits p) (transfers p) (cancelled p) (tasks p) (next_task p) (disk p) (inodes p) x.

Abbreviation M := (ST Plugin).

Definition record (e : Event) : M unit := modify (λ p, set_log (log p ++ [e]) p).
Definition emit_notification (level : PluginNotificationLevel) (text : string) : M unit :=
  record (Emitted (Notification level text)).
Definition emit_stage (e : TransferEntry) : M unit :=
  record (Emitted (TransferStageChanged (id e) (direction e) (name e) (stage e))).

(** [transfers.get_mut(id)]. *)
Definition on_entry (tid : string) (f : TransferEntry → TransferEntry) : M unit :=
  modify (λ p, set_transfers (alter f tid (transfers p)) p).

(** An assignment to [entry.stage] with its event. *)
Definition put_stage (tid : string) (e : TransferEntry) (x : TransferStage) : M unit :=
  modify (λ p, set_transfers (<[tid := set_stage x e]> (transfers p)) p);; emit_stage (set_stage x e).

Definition remove_file (path : string) : M unit :=
  modify (λ p, set_disk (delete path (disk p)) p);; record (Removed path).

(** Bytes written at an offset; a gap reads as zeros. *)
Definition write_at (offset : N) (b content : bytes) : bytes :=
  let off := N.to_nat offset in
  take off content ++ replicate (off - List.length content) Byte.x00 ++ b ++ drop (off + List.length b) content.

Definition in_use (p : Plugin) (path : string) : bool := bool_decide (is_Some (disk p !! path)).

(** [File::create]: an existing file is emptied. *)
Definition create_file (path : string) : M N :=
  λ p, let i := match disk p !! path with Some i => i | None => fresh (dom (inodes p)) end in
       (i, set_disk (<[path := i]> (disk p)) (set_inodes (<[i := []]> (inodes p)) p)).

Definition CHUNK : nat := 64 * 1024.

(** *** Uploads *)

(** [run_upload] after [do_upload] ended. *)
Definition end_upload (k : N) (u : Relay.RelayUpload) (path : string) (r : result unit) : M unit :=
  let tid := Relay.up_transfer_id u in
  e ← gets (λ p, transfers p !! tid);
  match e with
  | None => mret tt
  | Some e =>
      if is_terminal (stage e) then mret tt
      else match r with
           | Ok _ => put_stage tid e (Done path)
           | Err msg =>
               token ← gets (λ p, bool_decide (k ∈ cancelled p));
               put_stage tid e (Failed msg);;
               if token || String.eqb msg "cancelled" then mret tt
               else emit_notification Error ("Upload failed: " +:+ msg)
           end
  end.

(** The bytes just moved are accounted for, and the task sleeps if they were too
    many. *)
Definition paced (tid : string) (so_far total n limit now : N) (bucket : TokenBucket) : M (bool * TokenBucket) :=
  on_entry tid (update_active_progress so_far total now);;
  let '(wait, bucket) := consume n limit now bucket in
  mret (bool_decide (is_Some wait), bucket).

Definition upload_step (k : N) (u : Relay.RelayUpload) (path : string) (pc : UploadPc) (i : Input) : M (option UploadPc) :=
  match pc, i with
  | UOpening, Ready _ => mret (Some URequesting)
  | URequesting, Ready _ => record (Wrote k (UploadRequest u));; mret (Some UAwaitingAck)
  | UAwaitingAck, Acked Streams.AckOk => mret (Some UOpeningFile)
  | UAwaitingAck, Acked (Streams.AckRejected _ error) => mret (Some (UEnded (Err error)))
  | UOpeningFile, Ready now => mret (Some (USending 0 (TokenBucket_new now)))
  | USending sent bucket, FileRead b =>
      mret (if Nat.ltb CHUNK (List.length b) then None
            else Some (match b with [] => UFinishing | _ => UWriting sent bucket b end))
  | UWriting sent bucket b, Ready now =>
      record (Wrote k (Body b));;
      let n := N.of_nat (List.length b) in
      limit ← gets (λ p, (speed_limits p).2);
      r ← paced (Relay.up_transfer_id u) (sent + n) (Relay.up_file_size u) n limit now bucket;
      mret (Some ((if r.1 : bool then USleeping else USending) (sent + n)%N r.2))
  | USleeping sent bucket, Ready _ => mret (Some (USending sent bucket))
  | UFinishing, Ready _ => record (Wrote k Finish);; mret (Some UAwaitingResponse)
  | UAwaitingResponse, Responded status error =>
      mret (Some (UEnded (if (status =? RESULT_OK)%N then Ok tt
                          else Err ("upload rejected: " +:+ error +:+ " (" +:+ result_name status +:+ ")"))))
  | UEnded r, Ready _ => end_upload k u path r;; mret (Some UClosed)
  | (UEnded _ | UClosed), _ => mret None
  | _, IoFailed e => mret (Some (UEnded (Err (Handshake.to_string e))))
  | _, Cancel =>
      token ← gets (λ p, bool_decide (k ∈ cancelled p));
      mret (if token : bool then Some (UEnded (Err "cancelled")) else None)
  | _, _ => mret None
  end.

(** *** Downloads *)

(** The answer of the server is checked, and a destination chosen and noted. *)
Definition on_head (k : N) (tid : string) (status : N) (file_name : string) (file_size : N) (error : string)
    (mkdir : option Handshake.Error) : M FetchPc :=
  if negb (status =? RESULT_OK)%N
  then mret (FEnded (Err ("fetch failed: " +:+ error +:+ " (" +:+ result_name status +:+ ")")))
  else
    let file_name := default "download" (path_file_name file_name) in
    match validate_fetch_progress 0 file_size, mkdir with
    | Some e, _ => mret (FEnded (Err e))
    | None, Some e => mret (FEnded (Err (Handshake.to_string e)))
    | None, None =>
        dest ← gets (λ p, unique_dest_path (in_use p) (downloads_dir p) file_name);
        on_entry tid (set_destination file_name file_size dest);;
        record (Chosen k dest file_size);;
        mret (FCreating dest file_size)
    end.

Definition on_chunk (k : N) (tid dest : string) (inode file_size received : N) (bucket : TokenBucket) (b : bytes) (now : N)
    : M FetchPc :=
  modify (λ p, set_inodes (alter (write_at received b) inode (inodes p)) p);;
  record (Received k b);;
  let n := N.of_nat (List.length b) in
  match validate_fetch_progress (received + n) file_size with
  | Some e => mret (FEnded (Err e))
  | None =>
      limit ← gets (λ p, (speed_limits p).1);
      r ← paced tid (received + n) file_size n limit now bucket;
      mret ((if r.1 : bool then FSleeping else FReceiving) dest inode file_size (received + n)%N r.2)
  end.

(** [run_fetch] after [do_fetch] ended: what it leaves to be deleted. *)
Definition end_fetch (k : N) (tid : string) (r : result string) : M (option string) :=
  e ← gets (λ p, transfers p !! tid);
  match e with
  | None => mret None
  | Some e =>
      if is_terminal (stage e) then
        mret (if (match r with Ok _ => delete_on_complete e | Err _ => true end) then dest_path e else None)
      else match r with
           | Ok dest =>
               if delete_on_complete e then put_stage tid e (Failed "cancelled");; mret (Some dest)
               else put_stage tid e (Done dest);; mret None
           | Err msg =>
               token ← gets (λ p, bool_decide (k ∈ cancelled p));
               put_stage tid e (Failed msg);;
               (if token || String.eqb msg "cancelled" then mret tt
                else emit_notification Error ("Download failed: " +:+ msg));;
               mret (dest_path e)
           end
  end.

Definition fetch_step (k : N) (tid : string) (pc : FetchPc) (i : Input) : M (option FetchPc) :=
  match pc, i with
  | FOpening, Ready _ => mret (Some FRequesting)
  | FRequesting, Ready _ => record (Wrote k (FetchRequest tid));; record (Wrote k Finish);; mret (Some FAwaitingHead)
  | FAwaitingHead, HeadRead status file_name file_size error mkdir =>
      pc ← on_head k tid status file_name file_size error mkdir; mret (Some pc)
  | FCreating dest file_size, Ready now =>
      inode ← create_file dest;
      record (Created k dest inode);;
      mret (Some (FReceiving dest inode file_size 0 (TokenBucket_new now)))
  | FReceiving dest inode file_size received bucket, StreamRead (Some b) now =>
      if Nat.ltb CHUNK (List.length b) then mret None
      else match b with
           | [] => mret (Some pc)
           | _ => pc ← on_chunk k tid dest inode file_size received bucket b now; mret (Some pc)
           end
  | FReceiving dest inode file_size received bucket, StreamRead None _ =>
      mret (Some (if (received =? file_size)%N then FFlushing dest inode
                  else FEnded (Err ("incomplete download: received " +:+ pretty received +:+ " of " +:+ pretty file_size +:+ " bytes"))))
  | FReceiving _ _ _ _ _, StreamFailed e => mret (Some (FEnded (Err ("recv error: " +:+ Handshake.to_string e))))
  | FSleeping dest inode file_size received bucket, Ready _ => mret (Some (FReceiving dest inode file_size received bucket))
  | FFlushing dest inode, Ready _ => mret (Some (FEnded (Ok dest)))
  | FEnded r, Ready _ =>
      path ← end_fetch k tid r; mret (Some (match path with Some path => FRemoving path | None => FClosed end))
  | FRemoving path, Ready _ => remove_file path;; mret (Some FClosed)
  | FRemoving path, IoFailed _ => mret (Some FClosed)
  | (FEnded _ | FRemoving _ | FClosed), _ => mret None
  | _, IoFailed e => mret (Some (FEnded (Err (Handshake.to_string e))))
  | _, Cancel =>
      token ← gets (λ p, bool_decide (k ∈ cancelled p));
      mret (if token : bool then Some (FEnded (Err "cancelled")) else None)
  | _, _ => mret None
  end.

(** *** Calls *)

Definition spawn (t : Task) : M unit :=
  modify (λ p, set_tasks (<[next_task p := t]> (tasks p)) (set_next_task (next_task p + 1) p)).

Definition insert_entry (e : TransferEntry) : M unit :=
  modify (λ p, set_transfers (<[id e := e]> (transfers p)) p);; emit_stage e.

Section calls.
(** serde_json on [RelayShareData], prost on [RelayFileSharePayload], [mime_guess]. *)
Context (to_json : RelayShareData → string) (from_json : string → result RelayShareData)
        (encode_payload : FileOffer → bytes) (mime_of : string → string).

Definition quoted (s : string) : string := let q := String (ascii_of_nat 34) EmptyString in q +:+ s +:+ q.
Definition NAMESPACE : string := "rumble.file_transfer.relay".
Definition PAYLOAD_SCHEMA_VERSION : N := 1.

Definition encode_attachment (offer : FileOffer) : Types.ChatAttachment :=
  Types.mkChatAttachment NAMESPACE PAYLOAD_SCHEMA_VERSION (encode_payload offer)
    ("shared file " +:+ quoted (o_name offer) +:+ " (" +:+ format_bytes_simple (o_size offer) +:+ ")").

Definition active : TransferStage := Active Pipeline.f32_zero 0.

(** The running upload of a path, if there is one. *)
Definition uploading_path (path : string) (e : TransferEntry) : bool :=
  bool_decide (direction e = Upload) && is_running (stage e) && bool_decide (source_path e = Some path).
Definition running_upload (path : string) (p : Plugin) : option TransferEntry :=
  snd <$> List.find (λ x, uploading_path path x.2) (map_to_list (transfers p)).

(** [metadata]: the size of the file; [uuid]: the random id. *)
Definition share (path : string) (metadata : Handshake.Error + N) (uuid : string) (now : N) : M (result FileOffer) :=
  match metadata with
  | inl e => mret (Err (Handshake.to_string e))
  | inr file_size =>
      let file_name := default "unnamed" (path_file_name path) in
      let mime := mime_of file_name in
      token ← gets next_task;
      if (MAX_UPLOAD_BYTES <? file_size)%N then
        insert_entry (mkEntry uuid file_name file_size mime None None Upload
          (Failed ("file too large (" +:+ format_bytes_simple file_size +:+ "); limit is " +:+ format_bytes_simple MAX_UPLOAD_BYTES))
          None token 0 now None false);;
        modify (λ p, set_next_task (next_task p + 1) p);;
        mret (Ok (mkOffer uuid file_name file_size mime ""))
      else
        existing ← gets (running_upload path);
        match existing ≫= λ e, (e,.) <$> share_data e with
        | Some (e, share_data) =>
            emit_notification Warn ("Already uploading " +:+ quoted (name e));;
            mret (Ok (mkOffer (id e) (name e) (size e) (Transfers.mime e) share_data))
        | None =>
            room ← gets room_id;
            let json := to_json (mkShareData uuid file_name file_size mime) in
            insert_entry (mkEntry uuid file_name file_size mime (Some json)
              (if String.eqb room "" then None else Some room) Upload active (Some path) token 0 now None false);;
            spawn (Uploading (Relay.mkRelayUpload uuid room file_name file_size mime) path UOpening);;
            mret (Ok (mkOffer uuid file_name file_size mime json))
        end
  end.

Definition download (data : string) (now : N) : M (result string) :=
  match from_json data with
  | Err e => mret (Err ("invalid relay share_data: " +:+ e))
  | Ok d =>
      token ← gets next_task;
      let tid := sd_transfer_id d in
      insert_entry (mkEntry tid (sd_file_name d) (sd_file_size d) (sd_mime d) None None Download active None token 0 now None false);;
      spawn (Fetching tid FOpening);;
      mret (Ok tid)
  end.

Definition all_transfers (p : Plugin) : list TransferStatus := (λ x, to_status x.2) <$> map_to_list (transfers p).

Definition pause (tid : string) : result unit := Err "relay transfers cannot be paused".
Definition resume (tid : string) : result unit := Err "relay transfers cannot be resumed".

Definition fire (token : N) : M unit := modify (λ p, set_cancelled ({[ token ]} ∪ cancelled p) p).

Definition cancel (tid : string) (delete_files : bool) : M unit :=
  e ← gets (λ p, transfers p !! tid);
  match e with
  | None => mret tt
  | Some e =>
      if is_terminal (stage e) then
        match direction e, stage e with
        | Download, Done local_path => if delete_files then remove_file local_path else mret tt
        | _, _ => mret tt
        end
      else
        fire (cancel_token e);;
        put_stage tid (if delete_files && bool_decide (direction e = Download) then set_delete_on_complete true e else e)
          (Failed "cancelled")
  end.

Definition get_file_path (tid : string) (p : Plugin) : result string :=
  match transfers p !! tid with
  | Some e => match stage e, source_path e with
              | Done local_path, _ => Ok local_path
              | _, Some path => Ok path
              | _, None => Err ("no file path for transfer " +:+ tid)
              end
  | None => Err ("no file path for transfer " +:+ tid)
  end.

(** The uploads a change of rooms cancels. *)
Definition leaves_with (old_room : string) (e : TransferEntry) : bool :=
  bool_decide (direction e = Upload) && is_running (stage e) && bool_decide (entry_room_id e = Some old_room).

(** In the order of the table. *)
Definition set_room_id (room : string) : M unit :=
  old_room ← gets room_id;
  modify (set_room room);;
  if String.eqb old_room room then mret tt
  else
    leaving ← gets (λ p, retain (λ x, leaves_with old_room x.2) (map_to_list (transfers p)));
    for_each leaving (λ x, fire (cancel_token x.2);; put_stage x.1 x.2 (Failed "room changed"));;
    match List.length leaving with
    | O => mret tt
    | n => emit_notification Warn (pretty (N.of_nat n) +:+ " " +:+ (if Nat.eqb n 1 then "upload" else "uploads")
             +:+ " cancelled due to room change")
    end.

(** *** The plugin *)

Inductive Call :=
  | Share (path : string) (metadata : Handshake.Error + N) (uuid : string) (now : N)
  | StartDownload (data : string) (now : N)
  | CancelTransfer (tid : string) (delete_files : bool)
  | SetRoomId (room : string)
  | SetSpeedLimits (download_bps upload_bps : N)
  | Step (task : N) (i : Input).

Definition set_task (k : N) (t : Task) : M unit := modify (λ p, set_tasks (<[k := t]> (tasks p)) p).

Definition run_task (k : N) (i : Input) : M unit :=
  t ← gets (λ p, tasks p !! k);
  match t with
  | None => mret tt
  | Some (Uploading u path pc) =>
      pc ← upload_step k u path pc i;
      match pc with Some pc => set_task k (Uploading u path pc) | None => mret tt end
  | Some (Fetching tid pc) =>
      pc ← fetch_step k tid pc i;
      match pc with Some pc => set_task k (Fetching tid pc) | None => mret tt end
  end.

Definition call (c : Call) : M unit :=
  match c with
  | Share path metadata uuid now => _ ← share path metadata uuid now; mret tt
  | StartDownload data now => _ ← download data now; mret tt
  | CancelTransfer tid delete_files => cancel tid delete_files
  | SetRoomId room => set_room_id room
  | SetSpeedLimits download_bps upload_bps => modify (set_speed_limits (download_bps, upload_bps))
  | Step k i => run_task k i
  end.

Definition step (p : Plugin) (c : Call) : Plugin := (call c p).2.

Definition new (downloads_dir : string) (speed_limits : N * N) (disk : gmap string N) (inodes : gmap N bytes) : Plugin :=
  mkPlugin downloads_dir "" speed_limits ∅ ∅ ∅ 0 disk inodes [].

Definition run (p : Plugin) (l : list Call) : Plugin := fold_left step l p.
End calls.

End Transfers.
