(* ===== verification/TransfersFacts.v ===== *)
(** What holds of the file-transfer plugin, however its tasks and calls interleave:
    the names it saves under ([path_file_name_plain], [unique_dest_below]), and that
    its events tell every stage and final stages stay ([events_tell_every_stage]). *)
From Stdlib Require Import NArith ZArith Lia String Ascii.
From stdpp Require Import base gmap list strings pretty fin_maps.
From S2P Require Import Prelude Permissions Proto Types Store Persistence State World Acl Session Pipeline Relay RelayFacts Handshake Streams Transfers.

Module TransfersFacts.
Import Transfers.
Open Scope string_scope.
Open Scope nat_scope.
Open Scope list_scope.

(** ** Names and paths *)

Fixpoint has_char (c : ascii) (s : string) : bool :=
  match s with "" => false | String a s => Ascii.eqb a c || has_char c s end.

Lemma has_char_app c s t : has_char c (s +:+ t) = has_char c s || has_char c t.
Proof.
  induction s as [|a s IH]; [done|]. change (String a s +:+ t) with (String a (s +:+ t)). cbn [has_char].
  by rewrite IH, orb_assoc.
Qed.

Lemma length_string_app s t : String.length (s +:+ t) = String.length s + String.length t.
Proof.
  induction s as [|a s IH]; [done|]. change (String a s +:+ t) with (String a (s +:+ t)). cbn [String.length].
  by rewrite IH.
Qed.

(** A name of one component that is neither the directory nor its parent. *)
Definition plain (name : string) : Prop := has_char slash name = false ∧ name ≠ "" ∧ name ≠ "." ∧ name ≠ "..".

(** A direct child of a directory. *)
Definition below (dir path : string) : Prop := ∃ name, plain name ∧ path = join dir name.

Lemma split_on_no_char c s w : w ∈ split_on c s → has_char c w = false.
Proof.
  revert w. induction s as [|a s IH]; intros w; cbn; [by intros ->%list_elem_of_singleton|].
  destruct (Ascii.eqb a c) eqn:E; [intros [->|?]%elem_of_cons; [done|by apply IH]|].
  destruct (split_on c s) as [|w0 ws]; [intros ->%list_elem_of_singleton; cbn; by rewrite E|].
  intros [->|Hw]%elem_of_cons; [|by apply IH, list_elem_of_further]. cbn. rewrite E. apply IH, list_elem_of_here.
Qed.

Lemma path_file_name_plain s name : path_file_name s = Some name → plain name.
Proof.
  unfold path_file_name. destruct (last _) as [c|] eqn:E; [|done]. destruct (String.eqb_spec c ".."); [done|]. intros [= <-].
  apply last_Some in E as [l E]. assert (c ∈ retain (λ c, negb (String.eqb c "" || String.eqb c ".")) (split_on slash s)) as Hc.
  { rewrite E. apply elem_of_app. right. apply list_elem_of_here. }
  apply elem_of_retain in Hc as [Hin Hp]. apply negb_true_iff, orb_false_iff in Hp as [H1 H2].
  apply String.eqb_neq in H1, H2. split; [by eapply split_on_no_char|done].
Qed.

Lemma rsplit_dot_app s before after : rsplit_dot s = Some (before, after) → s = before +:+ String dot after.
Proof.
  revert before after. induction s as [|a s IH]; intros before after; [done|]. cbn.
  destruct (rsplit_dot s) as [[x y]|] eqn:E; [intros [= <- <-]; cbn; by rewrite (IH _ _ eq_refl)|].
  destruct (Ascii.eqb_spec a dot) as [->|]; [intros [= <- <-]; done|done].
Qed.

Lemma stem_no_slash name : has_char slash name = false → has_char slash (file_stem name) = false.
Proof.
  intros Hn. unfold file_stem. destruct (String.eqb name ".."); [done|].
  destruct (rsplit_dot name) as [[before after]|] eqn:E; [|done]. destruct before as [|a before]; [done|].
  apply rsplit_dot_app in E. rewrite E, has_char_app in Hn. by apply orb_false_iff in Hn as [? _].
Qed.

Lemma extension_no_slash name e : has_char slash name = false → extension name = Some e → has_char slash e = false.
Proof.
  intros Hn. unfold extension. destruct (String.eqb name ".."); [done|].
  destruct (rsplit_dot name) as [[before after]|] eqn:E; [|done]. destruct before as [|a before]; [done|]. intros [= <-].
  apply rsplit_dot_app in E. rewrite E, has_char_app in Hn. apply orb_false_iff in Hn as [_ Hn]. cbn in Hn.
  exact Hn.
Qed.

Lemma pretty_no_slash (n : N) : has_char slash (pretty n) = false.
Proof.
  unfold pretty, pretty_N. case_decide as Hc; [done|clear Hc].
  assert (∀ s, has_char slash s = false → has_char slash (pretty_N_go n s) = false) as H0; [|by apply H0].
  induction n as [n IH] using (well_founded_induction N.lt_wf_0); intros s Hs.
  destruct (decide (0 < n)%N) as [Hn|Hn].
  - rewrite pretty_N_go_step by done. assert (n `div` 10 < n)%N as Hlt by (apply N.div_lt; lia).
    apply (IH _ Hlt). change (Ascii.eqb (pretty_N_char (n `mod` 10)) slash || has_char slash s = false). rewrite Hs, orb_false_r.
    unfold pretty_N_char. by repeat case_match.
  - assert (n = 0%N) as -> by lia. by rewrite pretty_N_go_0.
Qed.

Lemma candidate_plain file_name n : plain file_name → plain (candidate_name file_name n).
Proof.
  intros [Hn _]. assert (∀ x y, has_char slash x = false → has_char slash y = false → plain (x +:+ " (" +:+ pretty n +:+ ")" +:+ y)) as H0.
  { intros x y Hx Hy. split; [by rewrite !has_char_app, Hx, Hy, pretty_no_slash|].
    assert (2 < String.length (x +:+ " (" +:+ pretty n +:+ ")" +:+ y)) as Hl by (rewrite !length_string_app; cbn; lia).
    split_and!; intros E; rewrite E in Hl; cbn in Hl; lia. }
  unfold candidate_name. destruct (extension file_name) as [e|] eqn:E.
  - apply (H0 _ (String dot e)); [by apply stem_no_slash|]. cbn. by eapply extension_no_slash.
  - replace (file_stem file_name +:+ " (" +:+ pretty n +:+ ")") with (file_stem file_name +:+ " (" +:+ pretty n +:+ ")" +:+ "").
    + apply H0; [by apply stem_no_slash|done].
    + by cbn.
Qed.

Lemma unique_dest_below exists_ dir file_name : plain file_name → below dir (unique_dest_path exists_ dir file_name).
Proof.
  intros Hp. unfold unique_dest_path. destruct (exists_ _); [|by exists file_name].
  generalize 9998, 2%N. intros fuel. induction fuel as [|fuel IH]; intros n; cbn; [by exists file_name|].
  destruct (exists_ _); [apply IH|]. eexists. split; [by apply candidate_plain|done].
Qed.

(** A destination that is not taken, unless all ten thousand are. *)
Lemma unique_dest_free exists_ dir file_name :
  exists_ (unique_dest_path exists_ dir file_name) = true →
  exists_ (join dir file_name) = true ∧ ∀ n, (2 <= n < 10000)%N → exists_ (join dir (candidate_name file_name n)) = true.
Proof.
  unfold unique_dest_path. destruct (exists_ (join dir file_name)) eqn:E0; [|congruence]. intros H0. split; [done|].
  assert (∀ fuel m, exists_ (first_free exists_ dir file_name fuel m) = true →
    ∀ n, (m <= n < m + N.of_nat fuel)%N → exists_ (join dir (candidate_name file_name n)) = true) as G.
  { induction fuel as [|fuel IH]; intros m; cbn; [lia|]. destruct (exists_ (join dir (candidate_name file_name m))) eqn:E; [|congruence].
    intros Hf n Hn. destruct (decide (n = m)) as [->|]; [done|]. apply (IH (m + 1)%N Hf). lia. }
  intros n Hn. apply (G 9998 2%N H0). change (N.of_nat 9998) with 9998%N. lia.
Qed.

Example hostile_names :
  path_file_name "../../etc/passwd" = Some "passwd" ∧ path_file_name ".." = None ∧ path_file_name "/" = None ∧
  path_file_name "a/b/." = Some "b" ∧
  unique_dest_path (λ p, contains ["d/foo.tar.gz"; "d/foo.tar (2).gz"] p) "d" "foo.tar.gz" = "d/foo.tar (3).gz".
Proof. repeat split; vm_compute; reflexivity. Qed.

(** Bytes written at the end. *)
Lemma write_at_end off b c : List.length c = N.to_nat off → write_at off b c = c ++ b.
Proof.
  intros Hl. unfold write_at. rewrite <- Hl, firstn_all, Nat.sub_diag. cbn. rewrite drop_ge by lia. by rewrite app_nil_r.
Qed.

(** ** What a call does to the table and the log *)

Definition Table : Type := gmap string TransferEntry * list Event.
Definition tbl (p : Plugin) : Table := (transfers p, log p).

(** Progress is not told. *)
Definition canon (s : TransferStage) : TransferStage := match s with Active _ _ => active | s => s end.

Definition quiet (ev : Event) : Prop := match ev with Emitted (TransferStageChanged _ _ _ _) => False | _ => True end.

(** What may be changed of an entry in silence. *)
Definition alike (e e' : TransferEntry) : Prop :=
  id e' = id e ∧ canon (stage e') = canon (stage e) ∧ (is_terminal (stage e) = true → stage e' = stage e).

Definition changed (e : TransferEntry) (x : TransferStage) : Event :=
  Emitted (TransferStageChanged (id e) (direction e) (name e) x).

Inductive edit (creates : string → Prop) : Table → Table → Prop :=
  | edit_log ev t l : quiet ev → edit creates (t, l) (t, l ++ [ev])
  | edit_entry tid f t l : (∀ e, alike e (f e)) → edit creates (t, l) (alter f tid t, l)
  | edit_stage tid e e' x t l :
      t !! tid = Some e → is_running (stage e) = true → is_terminal x = true → id e' = id e →
      edit creates (t, l) (<[tid := set_stage x e']> t, l ++ [changed e' x])
  | edit_insert e t l : creates (id e) → edit creates (t, l) (<[id e := e]> t, l ++ [changed e (stage e)]).

Definition edits (creates : string → Prop) : relation Plugin := λ p p', rtc (edit creates) (tbl p) (tbl p').

#[export] Instance edits_preorder creates : PreOrder (edits creates).
Proof. split; [intros p; apply rtc_refl|]. intros p1 p2 p3 H1 H2. unfold edits in *. by etrans. Qed.

Section edits.
Variable creates : string → Prop.

Lemma edits_same {A} (m : ST Plugin A) : (∀ p, tbl (m p).2 = tbl p) → keeps (edits creates) m.
Proof. intros Hm p. unfold edits. rewrite Hm. apply rtc_refl. Qed.

Lemma edits_record ev : quiet ev → keeps (edits creates) (record ev).
Proof. intros Hq p. by apply rtc_once, edit_log. Qed.

Lemma edits_on_entry tid f : (∀ e, alike e (f e)) → keeps (edits creates) (on_entry tid f).
Proof. intros Hf p. by apply rtc_once, edit_entry. Qed.

Lemma edits_put p tid e e' x :
  transfers p !! tid = Some e → is_running (stage e) = true → is_terminal x = true → id e' = id e →
  edits creates p (put_stage tid e' x p).2.
Proof. intros Ht Hr Hx Hi. apply rtc_once. cbn. by eapply edit_stage. Qed.

Lemma edits_insert e : creates (id e) → keeps (edits creates) (insert_entry e).
Proof. intros Hc p. by apply rtc_once, (edit_insert creates e). Qed.

Lemma alike_progress so_far total now e : alike e (update_active_progress so_far total now e).
Proof.
  unfold update_active_progress. destruct (stage e) eqn:Es; try (by split_and!).
  destruct (_ <? 250)%N; unfold alike; rewrite Es; cbn; by split_and!.
Qed.
Lemma alike_destination n sz dest e : alike e (set_destination n sz dest e).
Proof. by split_and!. Qed.

Lemma running_not_terminal x : is_terminal x = false → is_running x = true.
Proof. unfold is_running. by intros ->. Qed.

Lemma edits_paced tid so_far total n limit now bucket : keeps (edits creates) (paced tid so_far total n limit now bucket).
Proof.
  apply keeps_bind; [apply _|apply edits_on_entry; intros e; apply alike_progress|]. intros []. destruct (consume _ _ _ _). keeps_step.
Qed.

Lemma edits_end_upload k u path r : keeps (edits creates) (end_upload k u path r).
Proof.
  intros p. unfold end_upload. rewrite gets_run.
  destruct (transfers p !! _) as [e|] eqn:Ee; [|apply rtc_refl]. destruct (is_terminal (stage e)) eqn:Et; [apply rtc_refl|].
  apply running_not_terminal in Et. destruct r; [by eapply edits_put|].
  rewrite gets_run. apply (keeps_from (edits creates)); [by eapply edits_put|].
  intros []. destruct (_ || _); [keeps_step|by apply edits_record].
Qed.

Lemma edits_end_fetch k tid r : keeps (edits creates) (end_fetch k tid r).
Proof.
  intros p. unfold end_fetch. rewrite gets_run.
  destruct (transfers p !! _) as [e|] eqn:Ee; [|apply rtc_refl]. destruct (is_terminal (stage e)) eqn:Et; [apply rtc_refl|].
  apply running_not_terminal in Et. destruct r as [dest|msg].
  - destruct (delete_on_complete e); (apply (keeps_from (edits creates)); [by eapply edits_put|intros []; keeps_step]).
  - rewrite gets_run. apply (keeps_from (edits creates)); [by eapply edits_put|].
    intros []. apply keeps_bind; [apply _|destruct (_ || _); [keeps_step|by apply edits_record]|intros []; keeps_step].
Qed.

Ltac edits_step :=
  lazymatch goal with
  | |- keeps _ (end_upload _ _ _ _) => apply edits_end_upload
  | |- keeps _ (end_fetch _ _ _) => apply edits_end_fetch
  | |- keeps _ (paced _ _ _ _ _ _ _) => apply edits_paced
  | |- keeps _ (record _) => by apply edits_record
  | |- keeps _ (emit_notification _ _) => by apply edits_record
  | |- keeps _ (on_entry _ _) => apply edits_on_entry; intros ?; first [apply alike_progress|apply alike_destination]
  | |- keeps _ (remove_file _) => unfold remove_file
  | |- keeps _ (create_file _) => apply edits_same; intros ?; reflexivity
  | |- keeps _ (modify _) => apply edits_same; intros ?; reflexivity
  | |- keeps _ (fire _) => apply edits_same; intros ?; reflexivity
  | |- keeps _ (spawn _) => apply edits_same; intros ?; reflexivity
  | |- keeps _ (set_task _ _) => apply edits_same; intros ?; reflexivity
  | |- _ => keeps_step
  end.

Lemma edits_upload_step k u path pc i : keeps (edits creates) (upload_step k u path pc i).
Proof. unfold upload_step. destruct pc, i; cbv zeta; repeat edits_step. Qed.

Lemma edits_fetch_step k tid pc i : keeps (edits creates) (fetch_step k tid pc i).
Proof. unfold fetch_step, on_head, on_chunk. destruct pc, i; cbv zeta; repeat edits_step. Qed.

Lemma edits_run_task k i : keeps (edits creates) (run_task k i).
Proof.
  unfold run_task. apply keeps_bind; [apply _|keeps_step|]. intros [[]|]; [| |keeps_step];
    (apply keeps_bind; [apply _|first [apply edits_upload_step|apply edits_fetch_step]|intros []; edits_step]).
Qed.

Lemma edits_cancel tid delete_files : keeps (edits creates) (cancel tid delete_files).
Proof.
  intros p. unfold cancel. rewrite gets_run.
  destruct (transfers p !! tid) as [e|] eqn:Ee; [|apply rtc_refl]. destruct (is_terminal (stage e)) eqn:Et.
  - match goal with |- edits _ _ (?m p).2 => assert (keeps (edits creates) m) as Hm; [|apply Hm] end. repeat edits_step.
  - rewrite seq_run. cbn [fst snd fire]. 
    match goal with |- edits _ p (put_stage _ ?e' _ _).2 => apply (edits_put (set_cancelled _ p) tid e e') end; try done.
    + by apply running_not_terminal.
    + by destruct (_ && _).
Qed.

(** Putting a stage on each of several entries. *)
Lemma edits_put_all (l : list (string * TransferEntry)) (x : TransferStage) p :
  is_terminal x = true → NoDup l.*1 →
  (∀ y, y ∈ l → transfers p !! y.1 = Some y.2 ∧ is_running (stage y.2) = true) →
  edits creates p (for_each l (λ y, fire (cancel_token y.2);; put_stage y.1 y.2 x) p).2.
Proof.
  intros Hx. revert p. induction l as [|[tid e] l IH]; intros p Hnd Hl; [apply rtc_refl|]. cbn [for_each].
  apply NoDup_cons in Hnd as [Hn Hnd]. destruct (Hl _ (list_elem_of_here _ _)) as [Ht Hr]. cbn [fst snd] in *.
  rewrite seq_run. match goal with |- edits _ p (_ ?q).2 => set (p1 := q) end.
  assert (edits creates p p1) as H1 by (unfold p1; rewrite seq_run; cbn [fst snd fire]; by eapply (edits_put (set_cancelled _ p))).
  etrans; [exact H1|]. apply IH; [done|]. intros y Hy. destruct (Hl y (list_elem_of_further _ _ _ Hy)) as [Hty Hry]. split; [|done].
  change (transfers p1) with (<[tid := set_stage x e]> (transfers p)). rewrite lookup_insert_ne; [done|].
  intros ->. apply Hn. apply list_elem_of_fmap. by exists y.
Qed.

Lemma edits_set_room_id room : keeps (edits creates) (set_room_id room).
Proof.
  intros p. unfold set_room_id. rewrite gets_run.
  rewrite seq_run. unfold modify at 1. cbn [fst snd]. set (p1 := set_room room p). change (edits creates p) with (edits creates p1).
  destruct (String.eqb _ _); [apply rtc_refl|]. rewrite gets_run.
  apply (keeps_from (edits creates)).
  - apply edits_put_all; [done| |].
    + eapply sublist_NoDup; [apply (NoDup_fst_map_to_list (transfers p1))|]. apply fmap_sublist, retain_sublist.
    + intros [tid e] Hy. apply elem_of_retain in Hy as [Hin Hp]. split; [by apply elem_of_map_to_list|].
      unfold leaves_with in Hp. cbn in Hp. apply andb_true_iff in Hp as [Hp _]. by apply andb_true_iff in Hp as [_ Hp].
  - intros []. repeat edits_step.
Qed.
End edits.

Section told.
Context (to_json : RelayShareData → string) (from_json : string → result RelayShareData) (mime_of : string → string).
Abbreviation step := (step to_json from_json mime_of).
Abbreviation run := (run to_json from_json mime_of).

(** The transfer a call starts. *)
Definition creates (c : Call) (tid : string) : Prop :=
  match c with
  | Share _ _ uuid _ => tid = uuid
  | StartDownload data _ => ∃ d, from_json data = Ok d ∧ tid = sd_transfer_id d
  | _ => False
  end.

Lemma call_edits c : keeps (edits (creates c)) (call to_json from_json mime_of c).
Proof.
  destruct c; cbn [call].
  - apply keeps_bind; [apply _| |intros ?; keeps_step]. unfold share. destruct metadata; [keeps_step|]. cbv zeta.
    repeat first [ apply edits_insert; done | keeps_step | apply edits_same; intros ?; reflexivity | by apply edits_record ].
  - apply keeps_bind; [apply _| |intros ?; keeps_step]. unfold download. destruct (from_json data) as [d|] eqn:Ed; [|keeps_step]. cbv zeta.
    repeat first [ apply edits_insert; cbn; by exists d | keeps_step | apply edits_same; intros ?; reflexivity ].
  - apply edits_cancel.
  - apply edits_set_room_id.
  - apply edits_same. by intros ?.
  - apply edits_run_task.
Qed.
(** *** The entries, as the events tell them *)

(** The last stage told of a transfer. *)
Definition tells (tid : string) (acc : option TransferStage) (ev : Event) : option TransferStage :=
  match ev with
  | Emitted (TransferStageChanged i _ _ x) => if String.eqb i tid then Some (canon x) else acc
  | _ => acc
  end.
Definition told (l : list Event) (tid : string) : option TransferStage := fold_left (tells tid) l None.

Definition shown (t : gmap string TransferEntry) (tid : string) : option TransferStage := (λ e, canon (stage e)) <$> t !! tid.

Definition Told (x : Table) : Prop :=
  (∀ tid e, x.1 !! tid = Some e → id e = tid) ∧ ∀ tid, told x.2 tid = shown x.1 tid.

Lemma told_snoc l ev tid : told (l ++ [ev]) tid = tells tid (told l tid) ev.
Proof. unfold told. by rewrite fold_left_app. Qed.

Lemma canon_terminal x : is_terminal x = true → canon x = x.
Proof. by destruct x. Qed.
Lemma terminal_canon x y : canon x = canon y → is_terminal x = true → x = y.
Proof. by destruct x, y; cbn; intros E Ht; simplify_eq. Qed.

Lemma tells_changed l tid e x t :
  (∀ i, told l i = shown t i) → id e = tid → canon (stage e) = canon x →
  ∀ i, told (l ++ [changed e x]) i = shown (<[tid := e]> t) i.
Proof.
  intros Hl <- Hx i. rewrite told_snoc. unfold shown. cbn [tells changed]. destruct (String.eqb_spec (id e) i) as [<-|Hn].
  - rewrite lookup_insert_eq. cbn. by rewrite Hx.
  - rewrite lookup_insert_ne by done. apply Hl.
Qed.

Lemma edit_told c x y : edit c x y → Told x → Told y.
Proof.
  intros [ev t l Hq|tid f t l Hf|tid e e' s t l Ht Hr Hs Hi|e t l Hc] [Hid Htold]; cbn [fst snd] in *; split; cbn [fst snd].
  - done.
  - intros tid. rewrite told_snoc, <- Htold. destruct ev as [[]| | | | |]; done.
  - intros i e [(<- & e0 & He & ->)|[_ He]]%lookup_alter_Some; [destruct (Hf e0) as [-> _]|]; by eapply Hid.
  - intros i. rewrite Htold. unfold shown. destruct (decide (i = tid)) as [->|Hn]; [|by rewrite lookup_alter_ne].
    rewrite lookup_alter_eq. destruct (t !! tid) as [e|]; [|done]. cbn. f_equal. by destruct (Hf e) as (_ & -> & _).
  - intros i e0 [[<- <-]|[_ He]]%lookup_insert_Some; [|by eapply Hid]. cbn. rewrite Hi. by eapply Hid.
  - assert (id e' = tid) as Hi' by (rewrite Hi; by eapply Hid). by apply (tells_changed l tid (set_stage s e')).
  - intros i e0 [[<- <-]|[_ He]]%lookup_insert_Some; [done|]. by eapply Hid.
  - by apply tells_changed.
Qed.

(** A stage that is final stays until the id is used again. *)
Lemma edit_final c x y tid e :
  edit c x y → Told x → ¬ c tid → x.1 !! tid = Some e → is_terminal (stage e) = true →
  ∃ e', y.1 !! tid = Some e' ∧ stage e' = stage e.
Proof.
  intros [ev t l Hq|i f t l Hf|i e0 e' s t l Ht Hr Hs Hi|e0 t l Hc] [Hid _] Hn Hx He; cbn [fst snd] in *.
  - by exists e.
  - destruct (decide (tid = i)) as [->|Hi]; [|exists e; by rewrite lookup_alter_ne].
    exists (f e). rewrite lookup_alter_eq, Hx. split; [done|]. destruct (Hf e) as (_ & _ & Hf'). by apply Hf'.
  - destruct (decide (tid = i)) as [->|Hn']; [|exists e; by rewrite lookup_insert_ne].
    rewrite Hx in Ht. injection Ht as <-. unfold is_running in Hr. by rewrite He in Hr.
  - exists e. rewrite lookup_insert_ne; [done|]. intros <-. done.
Qed.

Lemma edits_told c x y : rtc (edit c) x y → Told x → Told y.
Proof. induction 1 as [|x y z Hxy _ IH]; [done|]. intros Hx. by eapply IH, edit_told. Qed.

Lemma edits_final c x y tid e :
  rtc (edit c) x y → Told x → ¬ c tid → x.1 !! tid = Some e → is_terminal (stage e) = true →
  ∃ e', y.1 !! tid = Some e' ∧ stage e' = stage e.
Proof.
  intros Hr. revert e. induction Hr as [|x y z Hxy _ IH]; intros e Hx Hn He Ht; [by exists e|].
  destruct (edit_final _ _ _ _ _ Hxy Hx Hn He Ht) as (e1 & H1 & E1). rewrite <- E1 in *.
  apply IH; [by eapply edit_told|done..].
Qed.

Lemma step_told p c : Told (tbl p) → Told (tbl (step p c)).
Proof. apply edits_told with (c := creates c). apply call_edits. Qed.

Lemma run_told l p : Told (tbl p) → Told (tbl (run p l)).
Proof. revert p. induction l as [|c l IH]; intros p Hp; [done|]. apply IH, step_told, Hp. Qed.

Lemma run_final l p tid e :
  Told (tbl p) → (∀ c, c ∈ l → ¬ creates c tid) → transfers p !! tid = Some e → is_terminal (stage e) = true →
  ∃ e', transfers (run p l) !! tid = Some e' ∧ stage e' = stage e.
Proof.
  revert p e. induction l as [|c l IH]; intros p e Hp Hl He Ht; [by exists e|].
  destruct (edits_final _ _ _ tid e (call_edits c p) Hp) as (e1 & H1 & E1);
    [apply Hl, list_elem_of_here|done|done|]. rewrite <- E1 in *.
  apply (IH (step p c)); [by apply step_told| |done|done]. intros c' Hc'. by apply Hl, list_elem_of_further.
Qed.

Lemma new_told dir limits d inodes : Told (tbl (new dir limits d inodes)).
Proof. split; cbn; [intros tid e; by rewrite lookup_empty|]. intros tid. unfold shown. by rewrite lookup_empty. Qed.

(** whatever the user does and however the tasks of the uploads and downloads
    interleave, a listener that only reads the plugin's events knows the table: the last
    event of each id tells its stage (progress and speed apart), and an id without an
    event has no entry.  A transfer that is done or has failed stays so, with the same
    path or reason: no late task, cancellation or change of room overwrites it, unless
    its id is used for a new transfer. *)
Theorem events_tell_every_stage dir limits d inodes (l1 l2 : list Call) :
  let p1 := run (new dir limits d inodes) l1 in
  let p2 := run p1 l2 in
  (∀ tid, told (log p2) tid = shown (transfers p2) tid) ∧
  (∀ tid e, transfers p1 !! tid = Some e → is_terminal (stage e) = true → (∀ c, c ∈ l2 → ¬ creates c tid) →
   ∃ e', transfers p2 !! tid = Some e' ∧ stage e' = stage e ∧ told (log p2) tid = Some (stage e)).
Proof.
  intros p1 p2. assert (Told (tbl p1)) as H1 by apply run_told, new_told. assert (Told (tbl p2)) as H2 by by apply run_told.
  split; [apply H2|]. intros tid e He Ht Hl. destruct (run_final l2 p1 tid e H1 Hl He Ht) as (e' & H' & E).
  exists e'. split; [done|]. split; [done|]. destruct H2 as [_ H2]. specialize (H2 tid). cbn [tbl fst snd] in H2.
  rewrite H2. unfold shown. fold p2 in H'. rewrite H'. cbn. rewrite E. by rewrite canon_terminal.
Qed.
End told.

(** *** A concrete run: an upload is cancelled, and the room changed after it *)

Definition told_json (d : RelayShareData) : string := sd_transfer_id d.
Definition told_of_json (s : string) : result RelayShareData := Ok (mkShareData s "f" 3 "m").
Definition told_mime (_ : string) : string := "m".

Lemma events_tell_every_stage_witness :
  let l1 := [SetRoomId "r"; Share "/home/u/a" (inr 3%N) "t" 0; CancelTransfer "t" false] in
  let p := run told_json told_of_json told_mime (new "/dl" (0, 0)%N ∅ ∅) l1 in
  ∃ e', transfers (run told_json told_of_json told_mime p [SetRoomId "s"; Step 0 Cancel; Step 0 (Ready 0)]) !! "t" = Some e' ∧
    stage e' = Failed "cancelled" ∧
    told (log (run told_json told_of_json told_mime p [SetRoomId "s"; Step 0 Cancel; Step 0 (Ready 0)])) "t" = Some (Failed "cancelled").
Proof.
  eapply (events_tell_every_stage told_json told_of_json told_mime "/dl" (0, 0)%N ∅ ∅
    [SetRoomId "r"; Share "/home/u/a" (inr 3%N) "t" 0; CancelTransfer "t" false] [SetRoomId "s"; Step 0 Cancel; Step 0 (Ready 0)])
    with (e := mkEntry "t" "a" 3 "m" (Some "t") (Some "r") Upload (Failed "cancelled") (Some "/home/u/a") 0 0 0 None false).
  - vm_compute. reflexivity.
  - reflexivity.
  - intros c Hc. repeat (apply elem_of_cons in Hc as [->|Hc]; [intros []|]). inversion Hc.
Defined.

End TransfersFacts.
