(* ===== verification/TransfersSafe.v ===== *)
(** What the file-transfer plugin does to the files: it leaves those outside its
    download directory alone ([own_files_are_safe]), unless the user downloads what the
    same plugin shares ([own_share_is_deleted]). *)
From Stdlib Require Import NArith ZArith Lia String Ascii.
From stdpp Require Import base gmap list strings pretty fin_maps.
From S2P Require Import Prelude Types Pipeline Relay Handshake Streams Transfers TransfersFacts.

Module TransfersSafe.
Import Transfers TransfersFacts.
Open Scope string_scope.
Open Scope nat_scope.
Open Scope list_scope.

(** ** Operations that keep an invariant and say something of their result *)

Definition yields {S A} (P : S → Prop) (m : ST S A) (φ : A → Prop) : Prop := triple P m (λ a s, P s ∧ φ a).

Section yields.
Context {S : Type} (P : S → Prop).

Lemma yields_ret {A} (a : A) (φ : A → Prop) : φ a → yields P (mret a) φ.
Proof. intros Ha. by apply triple_ret. Qed.

Lemma yields_bind {A B} (m : ST S A) (f : A → ST S B) φ ψ :
  yields P m φ → (∀ a, φ a → yields P (f a) ψ) → yields P (m ≫= f) ψ.
Proof. intros Hm Hf. eapply triple_bind; [exact Hm|]. intros a s [Hs Ha]. by apply Hf. Qed.

Lemma yields_gets {A} (f : S → A) (φ : A → Prop) : (∀ s, P s → φ (f s)) → yields P (gets f) φ.
Proof. intros Hf s Hs. split; [done|by apply Hf]. Qed.

Lemma yields_modify (f : S → S) (φ : unit → Prop) : (∀ s, P s → P (f s)) → φ tt → yields P (modify f) φ.
Proof. intros Hf Ht s Hs. split; [by apply Hf|done]. Qed.

Lemma yields_weaken {A} (m : ST S A) (φ ψ : A → Prop) : yields P m φ → (∀ a, φ a → ψ a) → yields P m ψ.
Proof. intros Hm Hw s Hs. destruct (Hm s Hs) as [H1 H2]. split; [done|by apply Hw]. Qed.

Lemma yields_for_each {A} (l : list A) (body : A → ST S unit) :
  (∀ x, x ∈ l → yields P (body x) (λ _, True)) → yields P (for_each l body) (λ _, True).
Proof.
  intros Hb. eapply triple_weaken; [apply (triple_for_each P)|done|done].
  intros x Hx. eapply triple_weaken; [by apply Hb|done|]. by intros a s [Hs _].
Qed.
End yields.

Section safe.
Context (to_json : RelayShareData → string) (from_json : string → result RelayShareData) (mime_of : string → string).
Context (dir : string) (disk0 : gmap string N) (inodes0 : gmap N bytes).
(** The ids this plugin shares files under. *)
Context (Own : string → Prop).

(** A file no path of the download directory leads to. *)
Definition private (i : N) : Prop := is_Some (inodes0 !! i) ∧ ∀ path, disk0 !! path = Some i → ¬ below dir path.

Definition entry_ok (tid : string) (e : TransferEntry) : Prop :=
  match direction e with
  | Upload => Own tid
  | Download => ¬ Own tid ∧ (∀ path, dest_path e = Some path → below dir path) ∧ ∀ path, stage e = Done path → below dir path
  end.

Definition fetch_ok (pc : FetchPc) : Prop :=
  match pc with
  | FCreating dest _ | FFlushing dest _ | FEnded (Ok dest) | FRemoving dest => below dir dest
  | FReceiving dest i _ _ _ | FSleeping dest i _ _ _ => below dir dest ∧ ¬ private i
  | _ => True
  end.

Definition task_ok (t : Task) : Prop :=
  match t with
  | Uploading u _ _ => Own (Relay.up_transfer_id u)
  | Fetching tid pc => ¬ Own tid ∧ fetch_ok pc
  end.

Definition event_ok (ev : Event) : Prop :=
  match ev with Chosen _ path _ | Created _ path _ | Removed path => below dir path | _ => True end.

Record Held (p : Plugin) : Prop := {
  held_dir : downloads_dir p = dir;
  held_entries : map_Forall entry_ok (transfers p);
  held_tasks : map_Forall (λ _, task_ok) (tasks p);
  held_disk : ∀ path, ¬ below dir path → disk p !! path = disk0 !! path;
  held_linked : ∀ path i, below dir path → disk p !! path = Some i → ¬ private i;
  held_inodes : ∀ i, private i → inodes p !! i = inodes0 !! i;
  held_log : Forall event_ok (log p) }.

Abbreviation yields := (yields Held).

Lemma yields_record ev : event_ok ev → yields (record ev) (λ _, True).
Proof. intros He. apply yields_modify; [|done]. intros p []. split; try done. cbn. apply Forall_app. split; [done|]. by constructor. Qed.

Lemma yields_on_entry tid f : (∀ e, entry_ok tid e → entry_ok tid (f e)) → yields (on_entry tid f) (λ _, True).
Proof.
  intros Hf. apply yields_modify; [|done]. intros p [? He]. split; try done. cbn.
  intros i e [(<- & e0 & H0 & ->)|[_ H0]]%lookup_alter_Some; [apply Hf|]; by apply He.
Qed.

Lemma yields_set_entry tid e : entry_ok tid e → yields (modify (λ p, set_transfers (<[tid := e]> (transfers p)) p)) (λ _, True).
Proof. intros He. apply yields_modify; [|done]. intros p []. split; try done. by apply map_Forall_insert_2. Qed.

Lemma yields_put_stage tid e x : entry_ok tid (set_stage x e) → yields (put_stage tid e x) (λ _, True).
Proof. intros He. eapply yields_bind; [by apply yields_set_entry|]. intros ? _. by apply yields_record. Qed.

Lemma yields_insert e : entry_ok (id e) e → yields (insert_entry e) (λ _, True).
Proof. intros He. eapply yields_bind; [by apply yields_set_entry|]. intros ? _. by apply yields_record. Qed.

Lemma yields_set_task k t : task_ok t → yields (set_task k t) (λ _, True).
Proof. intros Ht. apply yields_modify; [|done]. intros p []. split; try done. by apply map_Forall_insert_2. Qed.

Lemma yields_spawn t : task_ok t → yields (spawn t) (λ _, True).
Proof. intros Ht. apply yields_modify; [|done]. intros p []. split; try done. by apply map_Forall_insert_2. Qed.

Lemma yields_remove_file path : below dir path → yields (remove_file path) (λ _, True).
Proof.
  intros Hb. eapply (yields_bind _ _ _ (λ _, True)); [|intros ? _; by apply yields_record].
  apply yields_modify; [|done]. intros p []. split; try done; cbn.
  - intros path' Hn. rewrite lookup_delete_ne; [by eauto|]. by intros ->.
  - intros path' i Hb' [_ Hi]%lookup_delete_Some. by eauto.
Qed.

Lemma yields_create_file path : below dir path → yields (create_file path) (λ i, ¬ private i).
Proof.
  intros Hb p Hp. pose proof Hp as [Hdir He Ht Hd Hl Hi Hlog]. unfold create_file. cbn [fst snd].
  set (i := match disk p !! path with Some i => i | None => fresh (dom (inodes p)) end).
  assert (¬ private i) as Hn.
  { unfold i. destruct (disk p !! path) as [j|] eqn:Ej; [by eapply Hl|]. intros Hpr. pose proof (Hi _ Hpr) as Hx.
    destruct Hpr as [[c Hc] _]. rewrite Hc in Hx. apply (is_fresh (dom (inodes p))), elem_of_dom. by eexists. }
  split; [|done]. split; try done; cbn.
  - intros path' Hnb. rewrite lookup_insert_ne; [by apply Hd|]. by intros ->.
  - intros path' j Hb' [[<- <-]|[_ Hj]]%lookup_insert_Some; [done|by eapply Hl].
  - intros j Hj. rewrite lookup_insert_ne; [by apply Hi|]. by intros ->.
Qed.

Lemma yields_write i f : ¬ private i → yields (modify (λ p, set_inodes (alter f i (inodes p)) p)) (λ _, True).
Proof.
  intros Hn. apply yields_modify; [|done]. intros p []. split; try done; cbn. intros j Hj.
  rewrite lookup_alter_ne; [by eauto|]. by intros ->.
Qed.

(** Fields the invariant does not speak of. *)
Lemma yields_aside (f : Plugin → Plugin) :
  (∀ p, downloads_dir (f p) = downloads_dir p ∧ transfers (f p) = transfers p ∧ tasks (f p) = tasks p ∧ disk (f p) = disk p ∧
    inodes (f p) = inodes p ∧ log (f p) = log p) → yields (modify f) (λ _, True).
Proof. intros Hf. apply yields_modify; [|done]. intros p []. destruct (Hf p) as (E1 & E2 & E3 & E4 & E5 & E6).
  split; by rewrite ?E1, ?E2, ?E3, ?E4, ?E5, ?E6.
Qed.

(** What is known of an entry of the table. *)
Definition found (tid : string) (e : option TransferEntry) : Prop := match e with Some e => entry_ok tid e | None => True end.

Lemma yields_lookup tid : yields (gets (λ p, transfers p !! tid)) (found tid).
Proof. apply yields_gets. intros p []. unfold found. destruct (transfers p !! tid) eqn:E; [by eauto|done]. Qed.

Lemma yields_any {A} (f : Plugin → A) : yields (gets f) (λ _, True).
Proof. by apply yields_gets. Qed.

Lemma entry_ok_progress tid so_far total now e : entry_ok tid e → entry_ok tid (update_active_progress so_far total now e).
Proof.
  unfold entry_ok, update_active_progress. destruct (stage e) eqn:Es; try (by rewrite ?Es).
  destruct (_ <? 250)%N; cbn; destruct (direction e); try done; intros (? & ? & _); by split_and!.
Qed.

Lemma entry_ok_failed tid e x : entry_ok tid e → entry_ok tid (set_stage (Failed x) e).
Proof. unfold entry_ok. cbn. destruct (direction e); [done|]. intros (? & ? & ?). by split_and!. Qed.

Lemma yields_paced tid so_far total n limit now bucket : yields (paced tid so_far total n limit now bucket) (λ _, True).
Proof.
  eapply yields_bind; [apply yields_on_entry; intros e; apply entry_ok_progress|]. intros ? _.
  destruct (consume _ _ _ _). by apply yields_ret.
Qed.

Ltac held_step :=
  cbv beta in *;
  lazymatch goal with
  | |- yields (record _) _ => by apply yields_record
  | |- yields (emit_notification _ _) _ => by apply yields_record
  | |- yields (gets (λ p, transfers p !! _)) _ => apply yields_lookup
  | |- yields (gets _) _ => apply yields_any
  | |- yields (paced _ _ _ _ _ _ _) _ => apply yields_paced
  | |- yields (fire _) _ => apply yields_aside; by intros ?
  | |- yields (modify _) _ => apply yields_aside; by intros ?
  | |- yields (put_stage _ _ (Failed _)) _ => apply yields_put_stage, entry_ok_failed
  | |- yields (spawn _) _ => apply yields_spawn
  | |- yields (mret _) _ => apply yields_ret
  | |- yields (mbind _ _) _ => eapply yields_bind; [|intros ? ?]
  | |- yields (match ?x with _ => _ end) _ => destruct x eqn:?
  | |- yields (let '(_, _) := ?x in _) _ => destruct x
  end.

Lemma yields_end_upload k u path r : Own (Relay.up_transfer_id u) → yields (end_upload k u path r) (λ _, True).
Proof.
  intros Hu. unfold end_upload. eapply yields_bind; [apply yields_lookup|]. intros [e|] He; [|by apply yields_ret].
  assert (∀ x, entry_ok (Relay.up_transfer_id u) (set_stage x e)) as Hx.
  { intros x. revert He. cbn. unfold entry_ok. cbn. destruct (direction e); [done|]. by intros [? _]. }
  destruct (is_terminal _); [by apply yields_ret|]. destruct r; [by apply yields_put_stage|]. repeat held_step; done.
Qed.

Lemma yields_upload_step k u path pc i : Own (Relay.up_transfer_id u) → yields (upload_step k u path pc i) (λ _, True).
Proof. intros Hu. unfold upload_step. destruct pc, i; cbv zeta; repeat first [by apply yields_end_upload|held_step]; done. Qed.

(** A path the end of a fetch deletes is one of the plugin's own. *)
Lemma yields_end_fetch k tid r :
  ¬ Own tid → fetch_ok (FEnded r) → yields (end_fetch k tid r) (λ path, ∀ x, path = Some x → below dir x).
Proof.
  intros Hu Hr. unfold end_fetch. eapply yields_bind; [apply yields_lookup|]. intros [e|] He; [|by apply yields_ret].
  assert (direction e = Download) as Hd by (cbn in He; unfold entry_ok in He; by destruct (direction e)).
  pose proof He as He'. cbn in He'. unfold entry_ok in He'. rewrite Hd in He'. destruct He' as (_ & Hdest & _).
  destruct (is_terminal _).
  { apply yields_ret. intros x. destruct (match r with Ok _ => _ | Err _ => _ end); [by apply Hdest|done]. }
  destruct r as [dest|msg].
  - destruct (delete_on_complete e); (eapply yields_bind; [apply yields_put_stage|intros ? _; apply yields_ret; by intros x [= <-]]).
    + by apply entry_ok_failed.
    + unfold entry_ok. cbn. rewrite Hd. split_and!; [done..|]. by intros x [= <-].
  - repeat held_step; done.
Qed.

(** The destination of a download is a name in the download directory, whatever
    the server calls the file. *)
Lemma yields_on_head k tid status file_name file_size error mkdir :
  ¬ Own tid → yields (on_head k tid status file_name file_size error mkdir) fetch_ok.
Proof.
  intros Hu. unfold on_head. destruct (negb _); [by apply yields_ret|]. cbv zeta.
  destruct (validate_fetch_progress _ _); [by apply yields_ret|]. destruct mkdir; [by apply yields_ret|].
  eapply (yields_bind _ _ _ (below dir)).
  - apply yields_gets. intros p Hp. rewrite (held_dir _ Hp). apply unique_dest_below.
    destruct (path_file_name file_name) eqn:E; [by eapply path_file_name_plain|]. by split_and!.
  - intros dest Hdest. eapply yields_bind; [apply yields_on_entry|intros ? _; repeat held_step; done].
    intros e. unfold entry_ok. cbn. destruct (direction e); [done|]. intros (? & _ & ?). split_and!; [done| |done]. by intros x [= <-].
Qed.

Lemma yields_on_chunk k tid dest i file_size received bucket b now :
  ¬ Own tid → below dir dest → ¬ private i → yields (on_chunk k tid dest i file_size received bucket b now) fetch_ok.
Proof.
  intros Hu Hd Hi. unfold on_chunk. eapply yields_bind; [by apply yields_write|]. intros ? _. repeat held_step; try done.
  by destruct (fst _).
Qed.

Definition fetch_yields (pc : option FetchPc) : Prop := match pc with Some pc => fetch_ok pc | None => True end.

Lemma yields_fetch_step k tid pc i : ¬ Own tid → fetch_ok pc → yields (fetch_step k tid pc i) fetch_yields.
Proof.
  intros Hu Hpc.
  assert (∀ m : M FetchPc, yields m fetch_ok → yields (pc ← m; mret (Some pc)) fetch_yields) as Hsome.
  { intros m Hm. eapply yields_bind; [exact Hm|]. intros ? ?. by apply yields_ret. }
  unfold fetch_step. destruct pc, i; try (repeat held_step; repeat case_match; solve [done|exact I]); try (by apply Hsome, yields_on_head).
  - cbn in Hpc. eapply yields_bind; [by apply yields_create_file|]. intros ? ?. repeat held_step; done.
  - destruct Hpc as [Hd Hi]. destruct b as [b|]; [|apply yields_ret; by case_match].
    destruct (Nat.ltb _ _); [by apply yields_ret|]. destruct b; [by apply yields_ret|]. by apply Hsome, yields_on_chunk.
  - eapply yields_bind; [by apply yields_end_fetch|]. intros path Hp. apply yields_ret. destruct path; [|done]. by apply Hp.
  - eapply yields_bind; [by apply yields_remove_file|]. intros ? _. by apply yields_ret.
Qed.

Lemma yields_run_task k i : yields (run_task k i) (λ _, True).
Proof.
  unfold run_task. eapply (yields_bind _ _ _ (λ t, ∀ x, t = Some x → task_ok x)).
  { apply yields_gets. intros p Hp x Hx. by eapply (held_tasks _ Hp). }
  intros [[u path pc|tid pc]|] Ht; [| |by apply yields_ret].
  - specialize (Ht _ eq_refl). eapply yields_bind; [by apply yields_upload_step|]. intros [] _; [|by apply yields_ret].
    by apply yields_set_task.
  - destruct (Ht _ eq_refl) as [Hu Hpc]. eapply yields_bind; [by apply yields_fetch_step|]. intros [] ?; [|by apply yields_ret].
    by apply yields_set_task.
Qed.

Lemma yields_cancel tid delete_files : yields (cancel tid delete_files) (λ _, True).
Proof.
  unfold cancel. eapply yields_bind; [apply yields_lookup|]. intros [e|] He; [|by apply yields_ret]. cbn in He.
  destruct (is_terminal _).
  - destruct (direction e) eqn:Ed; [by apply yields_ret|]. destruct (stage e) eqn:Es; try (by apply yields_ret).
    destruct delete_files; [|by apply yields_ret]. apply yields_remove_file. unfold entry_ok in He. rewrite Ed in He. by apply He.
  - held_step; [by held_step|]. apply yields_put_stage, entry_ok_failed. destruct (_ && _); [|done].
    revert He. unfold entry_ok. cbn. by destruct (direction e).
Qed.

Lemma yields_set_room_id room : yields (set_room_id room) (λ _, True).
Proof.
  unfold set_room_id. held_step; [held_step|]. held_step; [held_step|]. destruct (String.eqb _ _); [by apply yields_ret|].
  eapply (yields_bind _ _ _ (Forall (λ x, entry_ok x.1 x.2))).
  - apply yields_gets. intros p Hp. apply Forall_forall. intros [tid e] [Hin%elem_of_map_to_list _]%elem_of_retain.
    by apply (held_entries _ Hp).
  - intros l Hl. rewrite Forall_forall in Hl. eapply yields_bind; [|intros ? ?; repeat held_step; done].
    apply yields_for_each. intros [tid e] Hx%Hl. repeat held_step. done.
Qed.

Definition allowed (c : Call) : Prop :=
  match c with
  | Share _ _ uuid _ => Own uuid
  | StartDownload data _ => ∀ d, from_json data = Ok d → ¬ Own (sd_transfer_id d)
  | _ => True
  end.

Lemma yields_call c : allowed c → yields (call to_json from_json mime_of c) (λ _, True).
Proof.
  intros Hc. destruct c; cbn [call].
  - eapply (yields_bind _ _ _ (λ _, True)); [|intros ? _; by apply yields_ret].
    unfold share. destruct metadata; [by apply yields_ret|]. cbv zeta.
    repeat first [by apply yields_insert|held_step|done].
  - eapply (yields_bind _ _ _ (λ _, True)); [|intros ? _; by apply yields_ret].
    unfold download. destruct (from_json data) as [d|] eqn:Ed; [|by apply yields_ret]. cbv zeta. specialize (Hc _ Ed).
    repeat first [apply yields_insert; by split_and!|held_step|done].
  - apply yields_cancel.
  - apply yields_set_room_id.
  - by apply yields_aside.
  - apply yields_run_task.
Qed.

Lemma run_held l p : Forall allowed l → Held p → Held (run to_json from_json mime_of p l).
Proof.
  intros Hl. revert p. induction Hl as [|c l Hc _ IH]; intros p Hp; [done|]. apply IH. by destruct (yields_call c Hc p Hp).
Qed.

Lemma new_held limits : Held (new dir limits disk0 inodes0).
Proof.
  split; try done; cbn; try (intros ? ?; by rewrite lookup_empty). by intros path i Hb Hi [_ Hn]; apply (Hn path).
Qed.
End safe.

Section own_files.
Context (to_json : RelayShareData → string) (from_json : string → result RelayShareData) (mime_of : string → string).
Abbreviation run := (run to_json from_json mime_of).

(** The ids of the files that are shared. *)
Definition shared (l : list Call) : list string := omap (λ c, match c with Share _ _ uuid _ => Some uuid | _ => None end) l.

Lemma foreign_allowed (l : list Call) :
  (∀ data now d, StartDownload data now ∈ l → from_json data = Ok d → sd_transfer_id d ∉ shared l) →
  Forall (allowed from_json (λ tid, tid ∈ shared l)) l.
Proof.
  intros Hforeign. apply Forall_forall. intros c Hc. destruct c; cbn; try done.
  - apply list_elem_of_omap. by eexists.
  - intros d Hd. by eapply Hforeign.
Qed.

(** C25: the plugin leaves the user's own files alone.  Whatever is shared, downloaded and
    cancelled, whatever names, sizes and bytes the server answers with, however the tasks
    interleave: no path outside the download directory is created or removed, and no
    file that only such paths lead to is written.  The names that servers and peers send
    cannot escape the directory, and a cancelled upload never deletes its source.  This
    takes that no id is downloaded under which this very plugin shares a file. *)
Theorem own_files_are_safe dir limits disk0 inodes0 (l : list Call)
    (Hforeign : ∀ data now d, StartDownload data now ∈ l → from_json data = Ok d → sd_transfer_id d ∉ shared l) :
  let p := run (new dir limits disk0 inodes0) l in
  (∀ path, ¬ below dir path →
     disk p !! path = disk0 !! path ∧ (∀ k i, Created k path i ∉ log p) ∧ Removed path ∉ log p) ∧
  (∀ i, private dir disk0 inodes0 i → inodes p !! i = inodes0 !! i).
Proof.
  intros p. assert (Held dir disk0 inodes0 (λ tid, tid ∈ shared l) p) as [_ _ _ Hd _ Hi Hlog].
  { apply run_held; [by apply foreign_allowed|apply new_held]. }
  split; [|done]. intros path Hn. rewrite Forall_forall in Hlog. split_and!; [by apply Hd| |].
  - intros k i Hin. by apply Hn, (Hlog _ Hin).
  - intros Hin. by apply Hn, (Hlog _ Hin).
Qed.
End own_files.

(** *** A concrete plugin *)

Definition json (d : RelayShareData) : string := sd_transfer_id d.
Definition of_json (s : string) : result RelayShareData := Ok (mkShareData s "photo.png" 3 "image/png").
Definition some_mime (_ : string) : string := "image/png".
Definition home : Plugin :=
  new "/dl" (0, 0)%N {[ "/home/u/own.png" := 0%N ]} {[ 0%N := as_bytes "mine" ]}.
Definition live : Plugin → list Call → Plugin := run json of_json some_mime.

(** A hostile server names a file ["../home/u/own.png"]. *)
Definition hostile : list Call :=
  [StartDownload "t" 0; Step 0 (Ready 0); Step 0 (Ready 0); Step 0 (HeadRead 1 "../home/u/own.png" 3 "" None);
   Step 0 (Ready 0); Step 0 (StreamRead (Some (as_bytes "bad")) 0); Step 0 (StreamRead None 0); Step 0 (Ready 0);
   Step 0 (Ready 0); CancelTransfer "t" true].

Lemma own_files_are_safe_witness :
  disk (live home hostile) !! "/home/u/own.png" = Some 0%N ∧ inodes (live home hostile) !! 0%N = Some (as_bytes "mine").
Proof.
  assert (¬ below "/dl" "/home/u/own.png") as Hn.
  { intros ([|a name] & (Hs & Hne & _) & E); [done|]. cbn in Hs, E. destruct (Ascii.eqb a slash); [done|]. discriminate E. }
  destruct (own_files_are_safe json of_json some_mime "/dl" (0, 0)%N {[ "/home/u/own.png" := 0%N ]} {[ 0%N := as_bytes "mine" ]} hostile)
    as [H1 H2].
  - intros data now d _ _. vm_compute. intros Hin. inversion Hin.
  - split; [by apply (H1 _ Hn)|]. apply H2. split; [by eexists|]. intros path. by intros [<- _]%lookup_singleton_Some.
Defined.

Example hostile_stays_below :
  disk (live home (take 9 hostile)) = {[ "/dl/own.png" := 1%N; "/home/u/own.png" := 0%N ]} ∧
  disk (live home hostile) = disk home.
Proof. split; vm_compute; reflexivity. Qed.

(** A share that is downloaded where it is uploaded: the download takes the place of
    the upload in the table, the end of the upload marks it done with the path of the
    source, and clearing the download deletes the source. *)
Definition own_share : list Call :=
  [Share "/home/u/own.png" (inr 4%N) "t" 0; StartDownload "t" 0; Step 0 (Ready 0); Step 0 (Ready 0);
   Step 0 (Acked Streams.AckOk); Step 0 (Ready 0); Step 0 (FileRead []); Step 0 (Ready 0);
   Step 0 (Responded RESULT_OK ""); Step 0 (Ready 0); CancelTransfer "t" true].

Example own_share_is_deleted : disk (live home own_share) !! "/home/u/own.png" = None.
Proof. vm_compute. reflexivity. Qed.

End TransfersSafe.
