(* ===== verification/TransfersWhole.v ===== *)
(** A finished download is the whole file ([finished_download_is_complete]), unless
    two downloads write to the same path ([two_downloads_one_file]). *)
From Stdlib Require Import NArith ZArith Lia String Ascii.
From stdpp Require Import base gmap list strings pretty fin_maps.
From S2P Require Import Prelude Types Pipeline Relay Handshake Streams Transfers TransfersFacts TransfersSafe.

Module TransfersWhole.
Import Transfers TransfersFacts TransfersSafe.
Open Scope string_scope.
Open Scope nat_scope.
Open Scope list_scope.

(** ** What a task has received *)

Definition received (k : N) (l : list Event) : bytes :=
  concat (omap (λ ev, match ev with Received k' b => if N.eqb k' k then Some b else None | _ => None end) l).

Arguments received : simpl never.

Lemma received_log_app k l l' : received k (l ++ l') = received k l ++ received k l'.
Proof. unfold received. by rewrite omap_app, concat_app. Qed.

(** No other task opened the file. *)
Definition sole (k i : N) (l : list Event) : Prop := ∀ k' path, Created k' path i ∈ l → k' = k.

(** The file holds what the task received, unless it shares it. *)
Definition intact (k i : N) (p : Plugin) : Prop := sole k i (log p) → inodes p !! i = Some (received k (log p)).

(** Task [k] received all it was promised, and wrote it to [dest]. *)
Definition complete (k : N) (dest : string) (p : Plugin) : Prop := ∃ file_size i,
  Chosen k dest file_size ∈ log p ∧ (file_size <= MAX_UPLOAD_BYTES)%N ∧
  N.of_nat (List.length (received k (log p))) = file_size ∧ Created k dest i ∈ log p ∧ intact k i p.

(** Where a download stands. *)
Definition receiving (k : N) (dest : string) (i file_size n : N) (p : Plugin) : Prop :=
  Chosen k dest file_size ∈ log p ∧ (file_size <= MAX_UPLOAD_BYTES)%N ∧ n = N.of_nat (List.length (received k (log p))) ∧
  Created k dest i ∈ log p ∧ intact k i p.

Definition fetched (k : N) (pc : FetchPc) (p : Plugin) : Prop :=
  match pc with
  | FOpening | FRequesting | FAwaitingHead => received k (log p) = []
  | FCreating dest file_size =>
      received k (log p) = [] ∧ Chosen k dest file_size ∈ log p ∧ (file_size <= MAX_UPLOAD_BYTES)%N
  | FReceiving dest i file_size n _ | FSleeping dest i file_size n _ => receiving k dest i file_size n p
  | FFlushing dest _ | FEnded (Ok dest) => complete k dest p
  | _ => True
  end.

(** ** What the steps of one task change *)

Definition by_task (k : N) (ev : Event) : Prop :=
  match ev with
  | Received k' _ | Created k' _ _ => k' = k
  | _ => True
  end.

Definition moves (k : N) (p p' : Plugin) : Prop :=
  (∃ evs, log p' = log p ++ evs ∧ Forall (by_task k) evs) ∧
  ∀ i, (∀ path, Created k path i ∉ log p') → inodes p' !! i = inodes p !! i.

Lemma received_other k k' evs : k ≠ k' → Forall (by_task k) evs → received k' evs = [].
Proof.
  intros Hk He. unfold received. induction He as [|ev evs Hev _ IH]; [done|]. cbn. destruct ev; try done.
  cbn in Hev. subst. by rewrite (proj2 (N.eqb_neq k k')).
Qed.

Section others.
Variables (k k' : N) (p p' : Plugin).
Hypotheses (Hk : k ≠ k') (Hm : moves k p p').

Lemma moves_in ev : ev ∈ log p → ev ∈ log p'.
Proof. destruct Hm as [(evs & -> & _) _]. intros ?. apply elem_of_app. by left. Qed.

Lemma moves_received : received k' (log p') = received k' (log p).
Proof. destruct Hm as [(evs & -> & He) _]. by rewrite received_log_app, (received_other k k' evs), app_nil_r. Qed.

Lemma moves_intact i path : Created k' path i ∈ log p → intact k' i p → intact k' i p'.
Proof.
  intros Hc Hi Hs. rewrite moves_received, <- Hi.
  - destruct Hm as [_ Hino]. apply Hino. intros path' Hin. apply Hs in Hin. done.
  - intros k0 path' Hin. by eapply Hs, moves_in.
Qed.

Lemma moves_complete dest : complete k' dest p → complete k' dest p'.
Proof.
  intros (size & i & ? & ? & ? & ? & ?). exists size, i. rewrite moves_received.
  split_and!; [by apply moves_in|done|done|by apply moves_in|by eapply moves_intact].
Qed.

Lemma moves_receiving dest i size n : receiving k' dest i size n p → receiving k' dest i size n p'.
Proof.
  intros (? & ? & ? & ? & ?). unfold receiving. rewrite moves_received.
  split_and!; [by apply moves_in|done|done|by apply moves_in|by eapply moves_intact].
Qed.

Lemma moves_fetched pc : fetched k' pc p → fetched k' pc p'.
Proof.
  destruct pc as [| | | | | | |[]| |]; cbn; rewrite ?moves_received; auto using moves_complete, moves_receiving.
  intros (? & ? & ?). split_and!; auto using moves_in.
Qed.
End others.

(** Nothing a download looks at. *)
Definition inert (ev : Event) : Prop :=
  match ev with
  | Received _ _ | Created _ _ _ | Emitted (TransferStageChanged _ Download _ (Done _)) => False
  | _ => True
  end.
Definition calm : relation Plugin := λ p p', inodes p' = inodes p ∧ ∃ evs, log p' = log p ++ evs ∧ Forall inert evs.

#[export] Instance calm_preorder : PreOrder calm.
Proof.
  split; [intros p; split; [done|]; exists []; by rewrite app_nil_r|].
  intros p1 p2 p3 [E1 (l1 & L1 & F1)] [E2 (l2 & L2 & F2)]. split; [congruence|].
  exists (l1 ++ l2). rewrite L2, L1, app_assoc. split; [done|]. by apply Forall_app.
Qed.

Lemma calm_moves k p p' : calm p p' → moves k p p'.
Proof.
  intros [E (evs & L & F)]. split; [|by rewrite E]. exists evs. split; [done|]. eapply Forall_impl; [exact F|]. by intros [].
Qed.

(** No download is told to be done. *)
Definition done_of (tid n dest : string) : Event := Emitted (TransferStageChanged tid Download n (Done dest)).
Definition silent (p p' : Plugin) : Prop := ∀ tid n dest, done_of tid n dest ∈ log p' → done_of tid n dest ∈ log p.

Lemma silent_trans p1 p2 p3 : silent p1 p2 → silent p2 p3 → silent p1 p3.
Proof. intros H1 H2 tid n dest Hin. by apply H1, H2. Qed.

Lemma silent_snoc p p' ev : log p' = log p ++ [ev] → (∀ tid n dest, ev ≠ done_of tid n dest) → silent p p'.
Proof.
  intros L Hev tid n dest. rewrite L. intros [|E%list_elem_of_singleton]%elem_of_app; [done|]. by destruct (Hev tid n dest).
Qed.

Lemma calm_silent p p' : calm p p' → silent p p'.
Proof.
  intros [_ (evs & L & F)] tid n dest. rewrite L. intros [|Hin]%elem_of_app; [done|]. rewrite Forall_forall in F. by apply F in Hin.
Qed.

Lemma calm_fetched k pc p p' : calm p p' → fetched k pc p → fetched k pc p'.
Proof. intros Hc. apply (moves_fetched (k + 1)); [lia|by apply calm_moves]. Qed.

Lemma calm_aside {A} (m : ST Plugin A) :
  (∀ p, inodes (m p).2 = inodes p ∧ log (m p).2 = log p) → keeps calm m.
Proof. intros Hm p. destruct (Hm p) as [E L]. split; [done|]. exists []. by rewrite app_nil_r. Qed.

Lemma calm_record ev : inert ev → keeps calm (record ev).
Proof. intros He p. split; [done|]. exists [ev]. split; [done|]. by constructor. Qed.

Lemma calm_put_stage tid e x : inert (changed e x) → keeps calm (put_stage tid e x).
Proof. intros He. apply keeps_bind; [apply _|by apply calm_aside|intros ?; by apply calm_record]. Qed.

Lemma inert_failed e r : inert (changed e (Failed r)).
Proof. cbn. by destruct (direction e). Qed.

Ltac calm_step :=
  lazymatch goal with
  | |- keeps _ (record _) => by apply calm_record
  | |- keeps _ (emit_notification _ _) => by apply calm_record
  | |- keeps _ (put_stage _ _ (Failed _)) => apply calm_put_stage, inert_failed
  | |- keeps _ (insert_entry _) => unfold insert_entry
  | |- keeps _ (emit_stage _) => apply calm_record; cbn; done
  | |- keeps _ (on_entry _ _) => by apply calm_aside
  | |- keeps _ (remove_file _) => unfold remove_file
  | |- keeps _ (paced _ _ _ _ _ _ _) => unfold paced
  | |- keeps _ (modify _) => by apply calm_aside
  | |- keeps _ (fire _) => by apply calm_aside
  | |- keeps _ (spawn _) => by apply calm_aside
  | |- keeps _ (set_task _ _) => by apply calm_aside
  | |- _ => keeps_step
  end.

Lemma calm_cancel tid delete_files : keeps calm (cancel tid delete_files).
Proof. unfold cancel. repeat calm_step. Qed.

Lemma calm_set_room_id room : keeps calm (set_room_id room).
Proof. unfold set_room_id. repeat calm_step. Qed.

(** ** The steps of a download *)

Lemma received_snoc k l b : received k (l ++ [Received k b]) = received k l ++ b.
Proof. rewrite received_log_app. f_equal. unfold received. cbn. rewrite N.eqb_refl. apply app_nil_r. Qed.

Lemma received_inert k l ev : inert ev → received k (l ++ [ev]) = received k l.
Proof. intros He. rewrite received_log_app. replace (received k [ev]) with (@nil Byte.byte) by (by destruct ev). apply app_nil_r. Qed.

Definition opens (pc : FetchPc) (i : Input) : bool := match pc, i with FCreating _ _, Ready _ => true | _, _ => false end.
Definition reads (pc : FetchPc) (i : Input) : bool := match pc, i with FReceiving _ _ _ _ _, StreamRead (Some _) _ => true | _, _ => false end.
Definition finishes (pc : FetchPc) : bool := match pc with FEnded (Ok _) => true | _ => false end.

Lemma calm_end_fetch k tid msg : keeps calm (end_fetch k tid (Err msg)).
Proof. unfold end_fetch. repeat calm_step. Qed.

Lemma calm_fetch_step k tid pc i :
  opens pc i = false → reads pc i = false → finishes pc = false → keeps calm (fetch_step k tid pc i).
Proof.
  intros Ho Hr Hf. unfold fetch_step, on_head. destruct pc as [| | | | | | |[]| |], i as [| | | | |[]| | |]; try done; cbv zeta;
    repeat first [apply calm_end_fetch|calm_step].
Qed.

(** The destination is settled, the size below the limit. *)
Lemma on_head_fetched k tid status file_name file_size error mkdir p :
  received k (log p) = [] →
  let r := on_head k tid status file_name file_size error mkdir p in fetched k r.1 r.2.
Proof.
  intros Hr. unfold on_head. destruct (negb _); [done|]. cbv zeta. destruct (validate_fetch_progress _ _) eqn:Ev; [done|].
  destruct mkdir; [done|]. rewrite !seq_run. cbn. rewrite received_inert by done. split_and!; [done|apply elem_of_app; right; apply list_elem_of_here|].
  unfold validate_fetch_progress in Ev. destruct (N.ltb_spec MAX_UPLOAD_BYTES file_size); [done|lia].
Qed.

Lemma create_fetched k tid dest file_size now p :
  fetched k (FCreating dest file_size) p →
  let r := fetch_step k tid (FCreating dest file_size) (Ready now) p in
  moves k p r.2 ∧ silent p r.2 ∧ ∀ pc, r.1 = Some pc → fetched k pc r.2.
Proof.
  intros (Hr & Hc & Hs). cbn [fetch_step]. rewrite !seq_run. cbn -[fresh]. set (i := match disk p !! dest with Some i => i | None => _ end).
  assert (Created k dest i ∈ log p ++ [Created k dest i]) as Hin by (apply elem_of_app; right; apply list_elem_of_here).
  split; [split|split].
  - eexists. split; [done|]. by constructor.
  - intros j Hj. cbn. rewrite lookup_insert_ne; [done|]. intros <-. by eapply Hj.
  - by eapply silent_snoc.
  - intros pc [= <-]. assert (received k (log p ++ [Created k dest i]) = []) as Hr' by (by rewrite received_log_app, Hr).
    unfold fetched, receiving, intact. cbn. rewrite Hr'. split_and!; [apply elem_of_app; by left|done..|].
    intros _. apply lookup_insert_eq.
Qed.

Lemma paced_calm tid so_far total n limit now bucket : keeps calm (paced tid so_far total n limit now bucket).
Proof. repeat calm_step. Qed.

Lemma chunk_fetched k tid dest i file_size n bucket b now p :
  receiving k dest i file_size n p →
  let r := on_chunk k tid dest i file_size n bucket b now p in
  moves k p r.2 ∧ silent p r.2 ∧ fetched k r.1 r.2.
Proof.
  intros (Hc & Hs & Hn & Hcr & Hi). unfold on_chunk. cbv zeta. rewrite seq_run. cbn [modify fst snd]. rewrite seq_run.
  cbn [record modify fst snd]. set (p1 := set_log _ _).
  assert (log p1 = log p ++ [Received k b]) as L1 by done.
  assert (moves k p p1) as Hm1.
  { split; [exists [Received k b]; split; [done|by constructor]|]. intros j Hj. cbn. rewrite lookup_alter_ne; [done|].
    intros <-. apply (Hj dest). rewrite L1. apply elem_of_app. by left. }
  assert (receiving k dest i file_size (n + N.of_nat (List.length b)) p1) as H1.
  { unfold receiving, intact. rewrite L1, received_snoc. split_and!; [apply elem_of_app; by left|done| |apply elem_of_app; by left|].
    - rewrite length_app. lia.
    - intros Hsole. cbn. rewrite lookup_alter_eq, Hi.
      + cbn. rewrite write_at_end; [done|]. lia.
      + intros k' path Hin. eapply Hsole, elem_of_app. by left. }
  assert (silent p p1) as Hs1 by (by eapply silent_snoc).
  destruct (validate_fetch_progress _ _); [by split_and!|].
  rewrite gets_run, seq_run.
  match goal with |- context [(paced ?a ?b ?c ?d ?e ?f ?g) p1] => pose proof (paced_calm a b c d e f g p1) as Hcalm end.
  match goal with |- context [(paced ?a ?b ?c ?d ?e ?f ?g) p1] => destruct (paced a b c d e f g p1) as [[w bucket'] p2] end.
  cbn [fst snd mret] in *. split; [|split].
  - destruct Hm1 as [(l1 & E1 & F1) I1], (calm_moves k _ _ Hcalm) as [(l2 & E2 & F2) I2]. split.
    + exists (l1 ++ l2). cbn. rewrite E2, E1, app_assoc. split; [done|]. by apply Forall_app.
    + cbn. intros j Hj. rewrite I2 by done. apply I1. intros path Hin. apply (Hj path). rewrite E2. apply elem_of_app. by left.
  - eapply silent_trans; [done|by apply calm_silent].
  - cbn. assert (fetched k (FReceiving dest i file_size (n + N.of_nat (List.length b)) bucket') p2) as H2 by (by eapply calm_fetched).
    by destruct w.
Qed.

(** A step before the last keeps what is known of the task, and of the others. *)
Lemma fetch_step_fetched k tid pc i p :
  finishes pc = false → fetched k pc p →
  let r := fetch_step k tid pc i p in
  moves k p r.2 ∧ silent p r.2 ∧ ∀ pc', r.1 = Some pc' → fetched k pc' r.2.
Proof.
  intros Hf Hp. destruct (opens pc i) eqn:Ho.
  { destruct pc, i; try done. by apply create_fetched. }
  destruct (reads pc i) eqn:Er.
  { destruct pc, i as [| | | | |[b|]| | |]; try done. cbn [fetch_step]. destruct (Nat.ltb _ _); [split; [by apply calm_moves|split; [by intros ? ? ?|done]]|].
    destruct b as [|c b]; [split; [by apply calm_moves|split; [by intros ? ? ?|by intros ? [= <-]]]|]. rewrite seq_run.
    destruct (chunk_fetched k tid dest inode file_size received0 bucket (c :: b) now p Hp) as (H1 & H2 & H3).
    cbn [mret fst snd]. split; [done|split; [done|]]. by intros ? [= <-]. }
  cbv zeta. pose proof (calm_fetch_step k tid pc i Ho Er Hf p) as Hc. split; [by apply calm_moves|split; [by apply calm_silent|]]. intros pc' Hpc'.
  destruct pc as [| | | | | | |[]| |], i as [| | | | |[]| | |]; try done; cbn [fetch_step] in *.
  all: try (injection Hpc' as <-; done).
  all: try (revert Hpc'; rewrite !seq_run; cbn; destruct (bool_decide _); [|done]; by intros [= <-]).
  - revert Hpc'. rewrite !seq_run. cbn. intros [= <-]. cbn. by rewrite !received_inert.
  - revert Hpc'. rewrite !seq_run. intros [= <-]. by apply on_head_fetched.
  - injection Hpc' as <-. destruct Hp as (? & ? & En & ? & ?). destruct (N.eqb_spec received0 file_size) as [E|]; [|done].
    exists file_size, inode. cbn. split_and!; [done|done|lia|done|done].
  - revert Hpc'. rewrite !seq_run. intros [= <-]. by destruct (_.1).
Qed.

(** ** All tasks *)

Section whole.
Context (to_json : RelayShareData → string) (from_json : string → result RelayShareData) (mime_of : string → string).
Abbreviation step := (step to_json from_json mime_of).
Abbreviation run := (run to_json from_json mime_of).

(** Tasks yet to come have received nothing; what was told to be done is complete. *)
Record Whole (p : Plugin) : Prop := {
  whole_tasks : ∀ k tid pc, tasks p !! k = Some (Fetching tid pc) → fetched k pc p;
  whole_new : ∀ k, (next_task p <= k)%N → tasks p !! k = None ∧ received k (log p) = [];
  whole_done : ∀ tid n dest, done_of tid n dest ∈ log p →
    ∃ k, tasks p !! k = Some (Fetching tid FClosed) ∧ complete k dest p }.

(** Where tasks come from. *)
Definition starts : relation Plugin := λ p p',
  (next_task p <= next_task p')%N ∧
  (∀ k tid pc, (k < next_task p)%N → tasks p' !! k = Some (Fetching tid pc) ↔ tasks p !! k = Some (Fetching tid pc)) ∧
  (∀ k, (next_task p <= k)%N → tasks p !! k = None →
     match tasks p' !! k with
     | None => True
     | Some t => (k < next_task p')%N ∧ match t with Fetching _ pc => pc = FOpening | Uploading _ _ _ => True end
     end).

Lemma starts_same p p' : tasks p' = tasks p → next_task p' = next_task p → starts p p'.
Proof. intros Et En. unfold starts. rewrite Et, En. split_and!; [lia|done|]. by intros k _ ->. Qed.

Lemma starts_skip p p' : tasks p' = tasks p → next_task p' = (next_task p + 1)%N → starts p p'.
Proof. intros Et En. unfold starts. rewrite Et, En. split_and!; [lia|done|]. by intros k _ ->. Qed.

Lemma starts_one p p' t :
  tasks p' = <[next_task p := t]> (tasks p) → next_task p' = (next_task p + 1)%N →
  match t with Fetching _ pc => pc = FOpening | Uploading _ _ _ => True end → starts p p'.
Proof.
  intros Et En Ht. unfold starts. rewrite Et, En. split_and!; [lia| |].
  - intros k tid pc Hlt. by rewrite lookup_insert_ne by lia.
  - intros k Hge HN. destruct (decide (k = next_task p)) as [->|]; [rewrite lookup_insert_eq; split; [lia|done]|].
    by rewrite lookup_insert_ne, HN.
Qed.

Lemma calm_complete k dest p p' : calm p p' → complete k dest p → complete k dest p'.
Proof. intros Hc. apply (calm_fetched k (FEnded (Ok dest)) _ _ Hc). Qed.

(** A quiet change that may start tasks. *)
Lemma calm_whole p p' : calm p p' → starts p p' → Whole p → Whole p'.
Proof.
  intros Hc (Hn & Hold & Hnew) [Ht Hf Hd]. pose proof Hc as [_ (evs & L & F)].
  assert (∀ k, received k (log p') = received k (log p)) as Hr.
  { intros k. apply (moves_received (k + 1)); [lia|by apply calm_moves]. }
  split.
  - intros k tid pc Hk. destruct (N.lt_ge_cases k (next_task p)) as [Hlt|Hge].
    + apply Hold in Hk; [|done]. eapply calm_fetched; [done|by eapply Ht].
    + destruct (Hf k Hge) as [HN HR]. specialize (Hnew k Hge HN). rewrite Hk in Hnew. destruct Hnew as [_ ->]. cbn. by rewrite Hr.
  - intros k Hk. rewrite Hr. assert (next_task p <= k)%N as Hk' by lia. destruct (Hf k Hk') as [HN HR]. split; [|done].
    specialize (Hnew k Hk' HN). destruct (tasks p' !! k); [|done]. destruct Hnew. lia.
  - intros tid n dest Hin. rewrite L in Hin. apply elem_of_app in Hin as [Hin|Hin].
    + destruct (Hd _ _ _ Hin) as (k & Hk & Hcomp). exists k. split; [|by eapply calm_complete].
      apply Hold; [|done]. destruct (N.lt_ge_cases k (next_task p)) as [|Hge]; [done|]. destruct (Hf k Hge). congruence.
    + rewrite Forall_forall in F. by apply F in Hin.
Qed.

(** A task moves on. *)
Lemma moves_whole k tid pc pc' p p' :
  tasks p !! k = Some (Fetching tid pc) → pc ≠ FClosed → moves k p p' → tasks p' = <[k := Fetching tid pc']> (tasks p) →
  next_task p' = next_task p → fetched k pc' p' →
  (∀ tid' n dest, done_of tid' n dest ∈ log p' →
     done_of tid' n dest ∈ log p ∨ (tid' = tid ∧ pc' = FClosed ∧ complete k dest p')) → Whole p → Whole p'.
Proof.
  intros Hk Hpc Hm Et En Hpc' Hdone [Ht Hf Hd]. assert (k < next_task p)%N as Hlt by (destruct (N.lt_ge_cases k (next_task p)) as [|Hge]; [done|destruct (Hf k Hge); congruence]).
  split.
  - intros k' tid' pc0. rewrite Et. intros [[<- [= <- <-]]|[Hne Hk']]%lookup_insert_Some; [done|].
    apply (moves_fetched k k' p p'); [done|done|by eapply Ht].
  - intros k' Hge. rewrite En in Hge. rewrite Et, lookup_insert_ne by lia. destruct (Hf k' Hge) as [HN HR]. split; [done|].
    rewrite (moves_received k k' p p'); [done|lia|done].
  - intros tid' n dest Hin. destruct (Hdone _ _ _ Hin) as [Hin'|(-> & -> & Hcomp)].
    + destruct (Hd _ _ _ Hin') as (k' & Hk' & Hcomp). assert (k ≠ k') as Hne by congruence. exists k'.
      rewrite Et, lookup_insert_ne by done. split; [done|]. by apply (moves_complete k k' p p').
    + exists k. by rewrite Et, lookup_insert_eq.
Qed.
(** *** One call *)

Definition book (p : Plugin) : gmap N Task * N := (tasks p, next_task p).

Ltac book_step :=
  lazymatch goal with
  | |- keeps _ (mbind _ _) => keeps_step
  | |- keeps _ (match _ with _ => _ end) => keeps_step
  | |- keeps _ (mret _) => keeps_step
  | |- keeps _ (gets _) => keeps_step
  | |- keeps _ (for_each _ _) => keeps_step
  | |- keeps _ (let '(_, _) := _ in _) => keeps_step
  | |- keeps _ _ => intros ?; reflexivity
  end.

Lemma book_end_upload k u path r : keeps (same book) (end_upload k u path r).
Proof. unfold end_upload. repeat book_step. Qed.

Lemma book_paced tid so_far total n limit now bucket : keeps (same book) (paced tid so_far total n limit now bucket).
Proof. unfold paced. repeat book_step. Qed.

Lemma book_upload_step k u path pc i : keeps (same book) (upload_step k u path pc i).
Proof. unfold upload_step. destruct pc, i; cbv zeta; repeat first [apply book_end_upload|apply book_paced|book_step]. Qed.

Lemma book_end_fetch k tid r : keeps (same book) (end_fetch k tid r).
Proof. unfold end_fetch. repeat book_step. Qed.

Lemma book_fetch_step k tid pc i : keeps (same book) (fetch_step k tid pc i).
Proof.
  unfold fetch_step, on_head, on_chunk. destruct pc, i; cbv zeta; repeat first [apply book_end_fetch|apply book_paced|book_step].
Qed.

Lemma book_cancel tid delete_files : keeps (same book) (cancel tid delete_files).
Proof. unfold cancel. repeat book_step. Qed.

Lemma book_set_room_id room : keeps (same book) (set_room_id room).
Proof. unfold set_room_id. repeat book_step. Qed.

(** A step that does not move leaves all as it is. *)
Lemma fetch_step_stuck k tid pc i p : (fetch_step k tid pc i p).1 = None → calm p (fetch_step k tid pc i p).2.
Proof.
  intros Hn. destruct (finishes pc) eqn:Hf.
  { destruct pc as [| | | | | | |[]| |], i; try done; revert Hn; cbn [fetch_step]; rewrite ?seq_run; done. }
  destruct (opens pc i) eqn:Ho.
  { by destruct pc, i. }
  destruct (reads pc i) eqn:Er; [|by apply calm_fetch_step].
  destruct pc, i as [| | | | |[b|]| | |]; try done. revert Hn. cbn [fetch_step]. destruct (Nat.ltb _ _); [done|].
  destruct b; [done|]. by rewrite seq_run.
Qed.

Section own.
Context (dir : string) (disk0 : gmap string N) (inodes0 : gmap N bytes) (Own : string → Prop).
Abbreviation Held := (Held dir disk0 inodes0 Own).

Lemma calm_end_upload k u path r p : Held p → Own (Relay.up_transfer_id u) → calm p (end_upload k u path r p).2.
Proof.
  intros Hp Hu. unfold end_upload. rewrite gets_run.
  destruct (transfers p !! _) as [e|] eqn:Ee; [|apply calm_preorder].
  pose proof (held_entries _ _ _ _ _ Hp _ _ Ee) as He. unfold entry_ok in He.
  assert (direction e = Upload) as Hd by (destruct (direction e); [done|by destruct He]).
  destruct (is_terminal _); [apply calm_preorder|]. destruct r.
  - apply calm_put_stage. cbn. by rewrite Hd.
  - match goal with |- calm _ (?m p).2 => assert (keeps calm m) as Hm; [|apply Hm] end. repeat calm_step.
Qed.

Lemma calm_upload_step k u path pc i p : Held p → Own (Relay.up_transfer_id u) → calm p (upload_step k u path pc i p).2.
Proof.
  intros Hp Hu.
  destruct pc, i; cbn [upload_step]; cbv zeta;
    try (match goal with |- calm p (?m p).2 => assert (keeps calm m) as Hm; [repeat first [apply paced_calm|calm_step]; done|apply Hm] end).
  rewrite seq_run. by apply calm_end_upload.
Qed.

(** The end of a download that succeeded. *)
Lemma end_fetch_done k tid dest p :
  Held p → ¬ Own tid → Told (tbl p) →
  let r := end_fetch k tid (Ok dest) p in
  (∀ j, moves j p r.2) ∧
  ∀ tid' n dest', done_of tid' n dest' ∈ log r.2 → done_of tid' n dest' ∈ log p ∨ (r.1 = None ∧ tid' = tid ∧ dest' = dest).
Proof.
  intros Hp Hu [Hid _]. unfold end_fetch. cbv zeta. rewrite gets_run.
  assert (∀ j, moves j p p) as Hsame by (intros j; apply calm_moves, calm_preorder).
  destruct (transfers p !! tid) as [e|] eqn:Ee; [|split; [done|by left]].
  pose proof (held_entries _ _ _ _ _ Hp _ _ Ee) as He. unfold entry_ok in He.
  destruct (is_terminal _); [split; [done|by left]|]. destruct (delete_on_complete e).
  - rewrite seq_run. cbn [mret fst snd]. pose proof (calm_put_stage tid e (Failed "cancelled") (inert_failed _ _) p) as Hc.
    split; [intros j; by apply calm_moves|]. intros tid' n dest' Hin. left. by eapply calm_silent.
  - rewrite !seq_run. cbn [mret fst snd]. split.
    + intros j. split; [|done]. eexists. split; [done|]. by constructor.
    + intros tid' n dest' [Hin|Hin%list_elem_of_singleton]%elem_of_app; [by left|right]. injection Hin as -> _ _ ->.
      split_and!; [done|by apply Hid|done].
Qed.
Lemma upload_whole k u path pc i p :
  Held p → tasks p !! k = Some (Uploading u path pc) → Whole p → Whole (run_task k i p).2.
Proof.
  intros Hp Hk HW. unfold run_task. rewrite gets_run, Hk, seq_run.
  pose proof (held_tasks _ _ _ _ _ Hp _ _ Hk) as Hu. cbn in Hu.
  pose proof (calm_upload_step k u path pc i p Hp Hu) as Hc. pose proof (book_upload_step k u path pc i p) as Hb.
  destruct (upload_step k u path pc i p) as [r p1]. cbn [fst snd] in *. injection Hb as Et En.
  assert (Whole p1) as H1 by (eapply calm_whole; [done|by apply starts_same|done]).
  destruct r as [pc'|]; [|done].
  assert (k < next_task p)%N as Hlt.
  { destruct (N.lt_ge_cases k (next_task p)) as [|Hge]; [done|]. destruct (whole_new _ HW k Hge). congruence. }
  eapply calm_whole; [by apply calm_aside| |exact H1]. unfold starts. cbn. rewrite Et, En. split_and!; [done| |].
  - intros k' tid pc0 _. destruct (decide (k' = k)) as [->|]; [rewrite lookup_insert_eq; naive_solver|by rewrite lookup_insert_ne].
  - intros k' Hge HN. rewrite lookup_insert_ne by lia. by rewrite HN.
Qed.

Lemma fetch_whole k tid pc i p :
  Held p → Told (tbl p) → tasks p !! k = Some (Fetching tid pc) → Whole p → Whole (run_task k i p).2.
Proof.
  intros Hp Htold Hk HW. unfold run_task. rewrite gets_run, Hk, seq_run.
  pose proof (held_tasks _ _ _ _ _ Hp _ _ Hk) as [Hu _]. pose proof (whole_tasks _ HW _ _ _ Hk) as Hpc.
  pose proof (book_fetch_step k tid pc i p) as Hb. injection Hb as Et En.
  destruct (fetch_step k tid pc i p).1 as [pc'|] eqn:Er.
  2: { eapply calm_whole; [by apply fetch_step_stuck|by apply starts_same|done]. }
  assert (pc ≠ FClosed) as Hncl by (intros ->; by destruct i).
  set (p1 := (fetch_step k tid pc i p).2) in *. change (set_task k (Fetching tid pc') p1).2 with (set_tasks (<[k := Fetching tid pc']> (tasks p1)) p1).
  rewrite Et. destruct (finishes pc) eqn:Hf.
  - destruct pc as [| | | | | | |[dest|]| |]; try done. destruct i; try done. unfold p1 in *. cbn [fetch_step] in *. rewrite seq_run in *.
    destruct (end_fetch_done k tid dest p Hp Hu Htold) as [Hm Hd]. destruct (end_fetch k tid (Ok dest) p) as [r q]. cbn [fst snd mret] in *.
    injection Er as <-. eapply (moves_whole k tid _ _ p); [done|done|by apply Hm|done|exact En|by destruct r| |done].
    intros tid' n d' Hin. destruct (Hd tid' n d' Hin) as [|(-> & -> & ->)]; [by left|right]. split_and!; [done..|].
    apply (moves_complete (k + 1) k p); [lia|apply Hm|done].
  - destruct (fetch_step_fetched k tid pc i p Hf Hpc) as (Hm & Hs & Hpc'). fold p1 in Hm, Hs, Hpc'. specialize (Hpc' _ Er).
    eapply (moves_whole k tid pc pc' p); [done|done|done|done|exact En|done| |done]. intros tid' n d' Hin. left. by apply Hs.
Qed.

Lemma call_whole c p : Held p → Told (tbl p) → Whole p → Whole (call to_json from_json mime_of c p).2.
Proof.
  intros Hp Htold HW. destruct c as [path metadata uuid now|data now|tid delete_files|room|d u|k i]; cbn [call].
  - eapply calm_whole; [| |exact HW].
    + match goal with |- calm _ (?m p).2 => assert (keeps calm m) as Hm; [|apply Hm] end. unfold share. cbv zeta. repeat calm_step.
    + rewrite seq_run. cbn [mret snd]. unfold share. destruct metadata as [|size]; [by apply starts_same|]. cbv zeta.
      rewrite gets_run. destruct (_ <? _)%N.
      * by apply starts_skip.
      * rewrite gets_run. destruct (_ ≫= _) as [[e sd]|]; [by apply starts_same|]. by eapply starts_one.
  - eapply calm_whole; [| |exact HW].
    + match goal with |- calm _ (?m p).2 => assert (keeps calm m) as Hm; [|apply Hm] end. unfold download. cbv zeta. repeat calm_step.
    + rewrite seq_run. cbn [mret snd]. unfold download. destruct (from_json data); [|by apply starts_same]. by eapply starts_one.
  - pose proof (book_cancel tid delete_files p) as Hb. injection Hb as Et En.
    eapply calm_whole; [apply calm_cancel|by apply starts_same|done].
  - pose proof (book_set_room_id room p) as Hb. injection Hb as Et En.
    eapply calm_whole; [apply calm_set_room_id|by apply starts_same|done].
  - eapply calm_whole; [by apply calm_aside|by apply starts_same|done].
  - destruct (tasks p !! k) as [[u path pc|tid pc]|] eqn:Hk; [by eapply upload_whole|by eapply fetch_whole|].
    unfold run_task. by rewrite gets_run, Hk.
Qed.
Lemma run_whole l p :
  Forall (allowed from_json Own) l → Held p → Told (tbl p) → Whole p → Whole (run p l).
Proof.
  intros Hl. revert p. induction Hl as [|c l Hc _ IH]; intros p Hp Htold HW; [done|].
  apply IH; [by destruct (yields_call to_json from_json mime_of dir disk0 inodes0 Own c Hc p Hp)|by apply step_told|by apply call_whole].
Qed.
End own.

Lemma new_whole dir limits disk0 inodes0 : Whole (new dir limits disk0 inodes0).
Proof. split; cbn; [by intros k tid pc|done|]. by intros tid n dest ?%not_elem_of_nil. Qed.

(** C26: a download that is told to be done is the file that was promised.  One task
    fetched it: it received exactly the size the server had declared when it chose the
    path, at most 256 MiB, in whatever pieces, and at whatever pace; it opened the file
    it is told to be at, and unless another task opened the same file since, that file
    holds what was received, byte for byte.  A stream that ends early, runs over, fails
    or is cancelled is never told to be done. *)
Theorem finished_download_is_complete dir limits disk0 inodes0 (l : list Call)
    (Hforeign : ∀ data now d, StartDownload data now ∈ l → from_json data = Ok d → sd_transfer_id d ∉ shared l) :
  let p := run (new dir limits disk0 inodes0) l in
  ∀ tid n dest, Emitted (TransferStageChanged tid Download n (Done dest)) ∈ log p →
  ∃ k i file_size, tasks p !! k = Some (Fetching tid FClosed) ∧ Chosen k dest file_size ∈ log p ∧
    N.of_nat (List.length (received k (log p))) = file_size ∧ (file_size <= MAX_UPLOAD_BYTES)%N ∧ Created k dest i ∈ log p ∧
    (sole k i (log p) → inodes p !! i = Some (received k (log p))).
Proof.
  intros p tid n dest Hin. assert (Whole p) as HW.
  { apply (run_whole dir disk0 inodes0 (λ tid, tid ∈ shared l)); [by apply foreign_allowed|apply new_held|apply new_told|apply new_whole]. }
  destruct (whole_done _ HW _ _ _ Hin) as (k & Hk & size & i & ? & ? & ? & ? & ?). exists k, i, size. by split_and!.
Qed.
End whole.

(** *** Downloads that meet *)

Definition head (name : string) (size : N) : Input := HeadRead RESULT_OK name size "" None.

(** Both choose a path before either opens it. *)
Definition two_at_once : list Call :=
  [StartDownload "a" 0; StartDownload "b" 0; Step 0 (Ready 0); Step 0 (Ready 0); Step 1 (Ready 0); Step 1 (Ready 0);
   Step 0 (head "photo.png" 3); Step 1 (head "photo.png" 2); Step 0 (Ready 0); Step 1 (Ready 0);
   Step 0 (StreamRead (Some (as_bytes "aaa")) 0); Step 1 (StreamRead (Some (as_bytes "bb")) 0);
   Step 0 (StreamRead None 0); Step 1 (StreamRead None 0); Step 0 (Ready 0); Step 1 (Ready 0); Step 0 (Ready 0); Step 1 (Ready 0)].

Example two_downloads_one_file :
  let p := live home two_at_once in
  (stage <$> transfers p !! "a") = Some (Done "/dl/photo.png") ∧ (stage <$> transfers p !! "b") = Some (Done "/dl/photo.png") ∧
  (disk p !! "/dl/photo.png" ≫= λ i, inodes p !! i) = Some (as_bytes "bba").
Proof. split_and!; vm_compute; reflexivity. Qed.

(** A download asked for twice: the failure of the first task fails the entry of the
    second and deletes its file; the rest of the first file stays. *)
Definition asked_twice : list Call :=
  [StartDownload "a" 0; Step 0 (Ready 0); Step 0 (Ready 0); Step 0 (head "photo.png" 3); Step 0 (Ready 0);
   Step 0 (StreamRead (Some (as_bytes "a")) 0);
   StartDownload "a" 0; Step 1 (Ready 0); Step 1 (Ready 0); Step 1 (head "photo.png" 3); Step 1 (Ready 0);
   Step 0 (StreamFailed ["connection lost"]); Step 0 (Ready 0); Step 0 (Ready 0);
   Step 1 (StreamRead (Some (as_bytes "aaa")) 0); Step 1 (StreamRead None 0); Step 1 (Ready 0); Step 1 (Ready 0)].

Example second_file_is_deleted :
  let p := live home asked_twice in
  (stage <$> transfers p !! "a") = Some (Failed "recv error: connection lost") ∧
  disk p !! "/dl/photo.png" = Some 1%N ∧ inodes p !! 1%N = Some (as_bytes "a") ∧ disk p !! "/dl/photo (2).png" = None.
Proof. split_and!; vm_compute; reflexivity. Qed.

(** The hostile download of above, in two pieces. *)
Definition one_download : list Call :=
  [StartDownload "t" 0; Step 0 (Ready 0); Step 0 (Ready 0); Step 0 (head "photo.png" 3);
   Step 0 (Ready 0); Step 0 (StreamRead (Some (as_bytes "aa")) 0); Step 0 (StreamRead (Some (as_bytes "b")) 0);
   Step 0 (StreamRead None 0); Step 0 (Ready 0); Step 0 (Ready 0)].

Lemma finished_download_is_complete_witness :
  let p := live home one_download in
  ∃ k i file_size, tasks p !! k = Some (Fetching "t" FClosed) ∧ Chosen k "/dl/photo.png" file_size ∈ log p ∧
    N.of_nat (List.length (received k (log p))) = file_size ∧ (file_size <= MAX_UPLOAD_BYTES)%N ∧
    Created k "/dl/photo.png" i ∈ log p ∧ (sole k i (log p) → inodes p !! i = Some (received k (log p))).
Proof.
  apply (finished_download_is_complete json of_json some_mime "/dl" (0, 0)%N {[ "/home/u/own.png" := 0%N ]} {[ 0%N := as_bytes "mine" ]}
    one_download) with (n := "photo.png").
  - intros data now d _ _. vm_compute. intros Hin. inversion Hin.
  - vm_compute. repeat first [apply list_elem_of_here|apply list_elem_of_further].
Defined.

End TransfersWhole.
