(* ===== verification/TransfersCross.v ===== *)
(** A file crosses from one client to another through the relay
    ([file_crosses_the_relay]): the sender's plugin, the server's relay and the
    receiver's plugin composed. *)
From Stdlib Require Import NArith ZArith Lia String Ascii.
From stdpp Require Import base gmap list strings pretty fin_maps.
From S2P Require Import Prelude Permissions Proto Types Store Persistence State World Acl Session Pipeline Relay RelayFacts Handshake Streams Transfers TransfersFacts.

Module TransfersCross.
Import Transfers TransfersFacts.
Open Scope string_scope.
Open Scope nat_scope.
Open Scope list_scope.

(** ** The steps of one task *)

Definition steps (k : N) (l : list Input) (p : Plugin) : Plugin := fold_left (λ p i, (run_task k i p).2) l p.

Lemma steps_app k l l' p : steps k (l ++ l') p = steps k l' (steps k l p).
Proof. apply fold_left_app. Qed.

Lemma run_steps to_json from_json mime_of k l p : run to_json from_json mime_of p (Step k <$> l) = steps k l p.
Proof. revert p. induction l as [|i l IH]; intros p; [done|]. apply IH. Qed.

(** What task [k] wrote to its stream. *)
Definition wrote (k : N) (l : list Event) : list Message :=
  omap (λ ev, match ev with Wrote k' m => if N.eqb k' k then Some m else None | _ => None end) l.

Lemma wrote_app k l l' : wrote k (l ++ l') = wrote k l ++ wrote k l'.
Proof. apply omap_app. Qed.
Lemma wrote_one k l m : wrote k (l ++ [Wrote k m]) = wrote k l ++ [m].
Proof. rewrite wrote_app. unfold wrote at 2. cbn. by rewrite N.eqb_refl. Qed.
Arguments wrote : simpl never.

(** An entry a task is at work for. *)
Definition at_work (tid : string) (p : Plugin) : Prop :=
  ∃ e, transfers p !! tid = Some e ∧ is_running (stage e) = true ∧ delete_on_complete e = false.

Lemma progress_at_work so_far total now e :
  is_running (stage e) = true → delete_on_complete e = false →
  is_running (stage (update_active_progress so_far total now e)) = true ∧
  delete_on_complete (update_active_progress so_far total now e) = false.
Proof.
  intros Hr Hd. unfold update_active_progress. destruct (stage e) eqn:Es; try (by rewrite Es). by destruct (_ <? 250)%N.
Qed.

(** What pacing leaves: a sleep or not, and the entry at work. *)
Lemma paced_at_work tid so_far total n limit now bucket p :
  at_work tid p → ∃ sleeps bucket' p', paced tid so_far total n limit now bucket p = ((sleeps, bucket'), p') ∧ at_work tid p' ∧
    tasks p' = tasks p ∧ log p' = log p ∧ disk p' = disk p ∧ inodes p' = inodes p.
Proof.
  intros (e & He & Hr & Hd). unfold paced. rewrite seq_run. cbn [on_entry modify fst snd].
  destruct (consume n limit now bucket) as [wait bucket']. eexists _, _, _. split; [done|]. split; [|done].
  destruct (progress_at_work so_far total now e Hr Hd). eexists. cbn. rewrite lookup_alter_eq, He. by split_and!.
Qed.

Lemma run_task_upload k u path pc i p pc' p' :
  tasks p !! k = Some (Uploading u path pc) → upload_step k u path pc i p = (Some pc', p') →
  (run_task k i p).2 = set_tasks (<[k := Uploading u path pc']> (tasks p')) p'.
Proof. intros Hk Hs. unfold run_task. by rewrite gets_run, Hk, seq_run, Hs. Qed.

Lemma run_task_fetch k tid pc i p pc' p' :
  tasks p !! k = Some (Fetching tid pc) → fetch_step k tid pc i p = (Some pc', p') →
  (run_task k i p).2 = set_tasks (<[k := Fetching tid pc']> (tasks p')) p'.
Proof. intros Hk Hs. unfold run_task. by rewrite gets_run, Hk, seq_run, Hs. Qed.

(** ** The sender *)

Definition one_read (b : bytes) : list Input := [FileRead b; Ready 0; Ready 0].

(** Where an upload stands, with what it has written since [base]. *)
Definition uploading (k : N) (u : Relay.RelayUpload) (path : string) (pc : UploadPc) (base out : list Message) (p : Plugin) : Prop :=
  tasks p !! k = Some (Uploading u path pc) ∧ wrote k (log p) = base ++ out ∧ at_work (Relay.up_transfer_id u) p.

Lemma uploading_quiet k u path pc pc' i base out p :
  uploading k u path pc base out p → upload_step k u path pc i p = (Some pc', p) →
  uploading k u path pc' base out (run_task k i p).2.
Proof.
  intros (Hk & Hw & Ha) Hs. rewrite (run_task_upload _ _ _ _ _ _ _ _ Hk Hs). split_and!; [apply lookup_insert_eq|done|done].
Qed.

Lemma uploading_writes k u path pc pc' i m base out p :
  uploading k u path pc base out p → upload_step k u path pc i p = (Some pc', set_log (log p ++ [Wrote k m]) p) →
  uploading k u path pc' base (out ++ [m]) (run_task k i p).2.
Proof.
  intros (Hk & Hw & Ha) Hs. rewrite (run_task_upload _ _ _ _ _ _ _ _ Hk Hs).
  split_and!; [apply lookup_insert_eq| |done]. cbn. by rewrite wrote_one, Hw, app_assoc.
Qed.

Lemma upload_chunk k u path sent bucket b base out p :
  b ≠ [] → List.length b <= CHUNK → uploading k u path (USending sent bucket) base out p →
  ∃ sent' bucket', uploading k u path (USending sent' bucket') base (out ++ [Body b]) (steps k (one_read b) p).
Proof.
  intros Hne Hb Hp.
  assert (uploading k u path (UWriting sent bucket b) base out (run_task k (FileRead b) p).2) as H1.
  { eapply uploading_quiet; [exact Hp|]. cbn [upload_step]. destruct (Nat.ltb_spec CHUNK (List.length b)); [lia|]. by destruct b. }
  change (steps k (one_read b) p) with (steps k [Ready 0; Ready 0] (run_task k (FileRead b) p).2).
  generalize dependent (run_task k (FileRead b) p).2. intros p1 (Hk & Hw & Ha).
  destruct (paced_at_work (Relay.up_transfer_id u) (sent + N.of_nat (List.length b)) (Relay.up_file_size u) (N.of_nat (List.length b))
    (speed_limits p1).2 0 bucket (set_log (log p1 ++ [Wrote k (Body b)]) p1) Ha) as (sleeps & bucket' & p2 & E & Ha2 & Et & El & _).
  assert (upload_step k u path (UWriting sent bucket b) (Ready 0) p1 =
    (Some ((if sleeps : bool then USleeping else USending) (sent + N.of_nat (List.length b))%N bucket'), p2)) as Hs.
  { cbn [upload_step]. rewrite seq_run. cbn [record modify fst snd]. rewrite gets_run, seq_run. cbn [speed_limits set_log]. by rewrite E. }
  assert (uploading k u path ((if sleeps : bool then USleeping else USending) (sent + N.of_nat (List.length b))%N bucket') base
    (out ++ [Body b]) (run_task k (Ready 0) p1).2) as H2.
  { rewrite (run_task_upload _ _ _ _ _ _ _ _ Hk Hs). split_and!; [apply lookup_insert_eq| |done].
    cbn. rewrite El. cbn. by rewrite wrote_one, Hw, app_assoc. }
  change (steps k [Ready 0; Ready 0] p1) with (run_task k (Ready 0) (run_task k (Ready 0) p1).2).2.
  generalize dependent (run_task k (Ready 0) p1).2. intros p3 H3. exists (sent + N.of_nat (List.length b))%N, bucket'.
  destruct sleeps; [by eapply uploading_quiet|]. destruct H3 as (Hk3 & Hw3 & Ha3). unfold run_task. by rewrite gets_run, Hk3.
Qed.

Lemma upload_body k u path sent bucket chunks base out p :
  Forall (λ b, b ≠ [] ∧ List.length b <= CHUNK) chunks → uploading k u path (USending sent bucket) base out p →
  ∃ sent' bucket', uploading k u path (USending sent' bucket') base (out ++ (Body <$> chunks)) (steps k (concat (one_read <$> chunks)) p).
Proof.
  intros Hc. revert sent bucket out p. induction Hc as [|b chunks [Hne Hb] _ IH]; intros sent bucket out p Hp.
  - exists sent, bucket. by rewrite app_nil_r.
  - cbn [fmap list_fmap concat]. rewrite steps_app. destruct (upload_chunk k u path sent bucket b base out p Hne Hb Hp) as (s & bu & H1).
    destruct (IH _ _ _ _ H1) as (s' & bu' & H2). exists s', bu'. by rewrite <- app_assoc in H2.
Qed.

(** The numbers of [proto/api.proto], and what a client hears of what a relay says. *)
Definition status_number (s : Relay.RelayResult) : N :=
  match s with Relay.ResultOk => 1 | Relay.ResultNotFound => 2 | Relay.ResultTooLarge => 3 | Relay.ResultError => 4 end.

Definition heard (o : Relay.Out) : option Input :=
  match o with
  | Relay.Ack (Relay.mkAck Relay.AckOk _ _) => Some (Acked Streams.AckOk)
  | Relay.Ack (Relay.mkAck Relay.AckRejected code error) => Some (Acked (Streams.AckRejected code error))
  | Relay.UploadResponse r => Some (Responded (status_number (Relay.ur_status r)) (Relay.ur_error r))
  | Relay.FetchResponse r =>
      Some (HeadRead (status_number (Relay.fr_status r)) (Relay.fr_file_name r) (Relay.fr_file_size r) (Relay.fr_error r) None)
  | _ => None
  end.

(** What happens to an upload: its stream opens, it is admitted, the file is read in
    pieces and sent, the relay answers. *)
Definition upload_session (chunks : list bytes) (ack response : Input) : list Input :=
  [Ready 0; Ready 0; ack; Ready 0] ++ concat (one_read <$> chunks) ++ [FileRead []; Ready 0; response; Ready 0].

Definition finished (tid path : string) (p : Plugin) : Prop := stage <$> transfers p !! tid = Some (Done path).

Lemma upload_runs_through k u path chunks base p :
  Forall (λ b, b ≠ [] ∧ List.length b <= CHUNK) chunks → uploading k u path UOpening base [] p →
  let p' := steps k (upload_session chunks (Acked Streams.AckOk) (Responded 1 "")) p in
  wrote k (log p') = base ++ UploadRequest u :: (Body <$> chunks) ++ [Finish] ∧ finished (Relay.up_transfer_id u) path p'.
Proof.
  intros Hc Hp. unfold upload_session. rewrite !steps_app.
  assert (uploading k u path (USending 0 (TokenBucket_new 0)) base [UploadRequest u]
    (steps k [Ready 0; Ready 0; Acked Streams.AckOk; Ready 0] p)) as H1.
  { pose proof (uploading_quiet _ _ _ _ URequesting (Ready 0) _ _ _ Hp eq_refl) as Ha.
    pose proof (uploading_writes _ _ _ _ UAwaitingAck (Ready 0) (UploadRequest u) _ _ _ Ha eq_refl) as Hb.
    pose proof (uploading_quiet _ _ _ _ UOpeningFile (Acked Streams.AckOk) _ _ _ Hb eq_refl) as He.
    exact (uploading_quiet _ _ _ _ (USending 0 (TokenBucket_new 0)) (Ready 0) _ _ _ He eq_refl). }
  destruct (upload_body _ _ _ _ _ chunks _ _ _ Hc H1) as (s & bu & H2).
  match type of H2 with uploading _ _ _ _ _ _ ?q => generalize dependent q end. intros q H2.
  assert (uploading k u path (UEnded (Ok tt)) base (([UploadRequest u] ++ (Body <$> chunks)) ++ [Finish])
    (steps k [FileRead []; Ready 0; Responded 1 ""] q)) as H3.
  { pose proof (uploading_quiet _ _ _ _ UFinishing (FileRead []) _ _ _ H2 eq_refl) as Ha.
    pose proof (uploading_writes _ _ _ _ UAwaitingResponse (Ready 0) Finish _ _ _ Ha eq_refl) as Hb.
    exact (uploading_quiet _ _ _ _ (UEnded (Ok tt)) (Responded 1 "") _ _ _ Hb eq_refl). }
  change (steps k [FileRead []; Ready 0; Responded 1 ""; Ready 0] q)
    with (run_task k (Ready 0) (steps k [FileRead []; Ready 0; Responded 1 ""] q)).2.
  generalize dependent (steps k [FileRead []; Ready 0; Responded 1 ""] q). intros q' (Hk & Hw & e & He & Hr & Hd).
  unfold run_task. rewrite gets_run, Hk, seq_run. cbn [upload_step]. rewrite seq_run. unfold end_upload. rewrite gets_run, He.
  unfold is_running in Hr. destruct (is_terminal (stage e)); [done|]. unfold put_stage, emit_stage, record. rewrite !seq_run. split.
  - cbn. rewrite wrote_app, Hw. cbn. by rewrite app_nil_r.
  - unfold finished. cbn. by rewrite lookup_insert_eq.
Qed.

(** ** The receiver *)

Definition one_piece (b : bytes) : list Input := [StreamRead (Some b) 0; Ready 0].

(** A download that has [sofar] of the file. *)
Definition downloading (k : N) (tid dest : string) (i file_size : N) (pc : FetchPc) (sofar : bytes) (p : Plugin) : Prop :=
  tasks p !! k = Some (Fetching tid pc) ∧ disk p !! dest = Some i ∧ inodes p !! i = Some sofar ∧ at_work tid p.

Lemma valid_progress received file_size :
  (file_size <= MAX_UPLOAD_BYTES)%N → (received <= file_size)%N → validate_fetch_progress received file_size = None.
Proof.
  intros H1 H2. unfold validate_fetch_progress. destruct (N.ltb_spec MAX_UPLOAD_BYTES file_size); [lia|].
  by destruct (N.ltb_spec file_size received); [lia|].
Qed.

Lemma downloading_quiet k tid dest i file_size pc pc' inp sofar p :
  downloading k tid dest i file_size pc sofar p → fetch_step k tid pc inp p = (Some pc', p) →
  downloading k tid dest i file_size pc' sofar (run_task k inp p).2.
Proof.
  intros (Hk & ? & ? & ?) Hs. rewrite (run_task_fetch _ _ _ _ _ _ _ Hk Hs). split_and!; [apply lookup_insert_eq|done..].
Qed.

Lemma download_piece k tid dest i file_size bucket sofar b p :
  b ≠ [] → List.length b <= CHUNK → (file_size <= MAX_UPLOAD_BYTES)%N → (N.of_nat (List.length (sofar ++ b)) <= file_size)%N →
  downloading k tid dest i file_size (FReceiving dest i file_size (N.of_nat (List.length sofar)) bucket) sofar p →
  ∃ bucket', downloading k tid dest i file_size (FReceiving dest i file_size (N.of_nat (List.length (sofar ++ b))) bucket')
    (sofar ++ b) (steps k (one_piece b) p).
Proof.
  intros Hne Hb Hmax Hle (Hk & Hd & Hi & Ha). rewrite length_app, Nat2N.inj_add in *.
  set (n := N.of_nat (List.length sofar)) in *.
  set (p0 := set_inodes (alter (write_at n b) i (inodes p)) p). set (p1 := set_log (log p0 ++ [Received k b]) p0).
  destruct (paced_at_work tid (n + N.of_nat (List.length b)) file_size (N.of_nat (List.length b)) (speed_limits p1).1 0 bucket p1 Ha)
    as (sleeps & bucket' & p2 & E & Ha2 & Et & El & Ed & Ei).
  assert (fetch_step k tid (FReceiving dest i file_size n bucket) (StreamRead (Some b) 0) p =
    (Some ((if sleeps : bool then FSleeping else FReceiving) dest i file_size (n + N.of_nat (List.length b))%N bucket'), p2)) as Hs.
  { cbn [fetch_step]. destruct (Nat.ltb_spec CHUNK (List.length b)); [lia|]. destruct b as [|c b]; [done|].
    unfold on_chunk. cbv zeta. rewrite !seq_run. cbn [record modify fst snd]. rewrite valid_progress by done.
    rewrite gets_run, seq_run. fold p0. fold p1. by rewrite E. }
  assert (downloading k tid dest i file_size
    ((if sleeps : bool then FSleeping else FReceiving) dest i file_size (n + N.of_nat (List.length b))%N bucket')
    (sofar ++ b) (run_task k (StreamRead (Some b) 0) p).2) as H2.
  { rewrite (run_task_fetch _ _ _ _ _ _ _ Hk Hs). split_and!; [apply lookup_insert_eq|by cbn; rewrite Ed| |done].
    cbn. rewrite Ei. cbn. rewrite lookup_alter_eq, Hi. cbn. rewrite write_at_end; [done|]. unfold n. lia. }
  change (steps k (one_piece b) p) with (run_task k (Ready 0) (run_task k (StreamRead (Some b) 0) p).2).2.
  generalize dependent (run_task k (StreamRead (Some b) 0) p).2. intros p3 H3. exists bucket'.
  destruct sleeps; [by eapply downloading_quiet|]. destruct H3 as (Hk3 & H3). unfold run_task. by rewrite gets_run, Hk3.
Qed.

Lemma download_body k tid dest i file_size bucket sofar pieces p :
  Forall (λ b, b ≠ [] ∧ List.length b <= CHUNK) pieces → (file_size <= MAX_UPLOAD_BYTES)%N →
  (N.of_nat (List.length (sofar ++ concat pieces)) <= file_size)%N →
  downloading k tid dest i file_size (FReceiving dest i file_size (N.of_nat (List.length sofar)) bucket) sofar p →
  ∃ bucket', downloading k tid dest i file_size
    (FReceiving dest i file_size (N.of_nat (List.length (sofar ++ concat pieces))) bucket') (sofar ++ concat pieces)
    (steps k (concat (one_piece <$> pieces)) p).
Proof.
  intros Hc Hmax. revert sofar bucket p. induction Hc as [|b pieces [Hne Hb] _ IH]; intros sofar bucket p Hle Hp.
  - exists bucket. by rewrite app_nil_r.
  - cbn [fmap list_fmap concat] in *. rewrite steps_app, app_assoc in *.
    destruct (download_piece k tid dest i file_size bucket sofar b p Hne Hb Hmax) as (bu & H1); [rewrite !length_app in *; lia|done|].
    by apply (IH _ _ _ Hle H1).
Qed.

(** What happens to a download: its stream opens, the server answers with the head of
    the file, the file comes in pieces. *)
Definition download_session (answer : Input) (pieces : list bytes) : list Input :=
  [Ready 0; Ready 0; answer; Ready 0] ++ concat (one_piece <$> pieces) ++ [StreamRead None 0; Ready 0; Ready 0].

(** The destination is chosen and opened. *)
Lemma download_opens k tid file_name size q :
  (size <= MAX_UPLOAD_BYTES)%N → tasks q !! k = Some (Fetching tid FOpening) → at_work tid q →
  let dest := unique_dest_path (in_use q) (downloads_dir q) (default "download" (path_file_name file_name)) in
  ∃ i, downloading k tid dest i size (FReceiving dest i size 0 (TokenBucket_new 0)) []
    (steps k [Ready 0; Ready 0; HeadRead 1 file_name size "" None; Ready 0] q).
Proof.
  intros Hmax Hk (e & He & Hr & Hd) dest.
  cbn [steps fold_left].
  rewrite (run_task_fetch k tid FOpening (Ready 0) q FRequesting q Hk eq_refl). set (qa := set_tasks _ q).
  assert (tasks qa !! k = Some (Fetching tid FRequesting)) as Ha by apply lookup_insert_eq.
  rewrite (run_task_fetch k tid FRequesting (Ready 0) qa FAwaitingHead _ Ha eq_refl). set (qb := set_tasks _ _).
  assert (tasks qb !! k = Some (Fetching tid FAwaitingHead)) as Hb by apply lookup_insert_eq.
  assert (fetch_step k tid FAwaitingHead (HeadRead 1 file_name size "" None) qb = (Some (FCreating dest size),
    set_log (log qb ++ [Chosen k dest size]) (set_transfers (alter (set_destination (default "download" (path_file_name file_name)) size dest)
      tid (transfers qb)) qb))) as Eb.
  { cbn [fetch_step]. rewrite seq_run. unfold on_head. cbn [N.eqb negb RESULT_OK Pos.eqb]. cbv zeta.
    rewrite valid_progress by (done || lia). rewrite gets_run, !seq_run. done. }
  rewrite (run_task_fetch k tid FAwaitingHead _ qb _ _ Hb Eb). set (qc := set_tasks _ _).
  assert (tasks qc !! k = Some (Fetching tid (FCreating dest size))) as Hc' by apply lookup_insert_eq.
  rewrite (run_task_fetch k tid (FCreating dest size) (Ready 0) qc _ _ Hc' eq_refl).
  eexists. split_and!; [apply lookup_insert_eq|apply lookup_insert_eq|apply lookup_insert_eq|].
  exists (set_destination (default "download" (path_file_name file_name)) size dest e). split; [|done].
  cbn. by rewrite lookup_alter_eq, He.
Qed.

Lemma download_runs_through k tid file_name pieces q :
  Forall (λ b, b ≠ [] ∧ List.length b <= CHUNK) pieces → (N.of_nat (List.length (concat pieces)) <= MAX_UPLOAD_BYTES)%N →
  tasks q !! k = Some (Fetching tid FOpening) → at_work tid q →
  let q' := steps k (download_session (HeadRead 1 file_name (N.of_nat (List.length (concat pieces))) "" None) pieces) q in
  ∃ dest i, dest = unique_dest_path (in_use q) (downloads_dir q) (default "download" (path_file_name file_name)) ∧
    finished tid dest q' ∧ disk q' !! dest = Some i ∧ inodes q' !! i = Some (concat pieces).
Proof.
  intros Hc Hmax Hk Ha. unfold download_session. rewrite !steps_app.
  destruct (download_opens k tid file_name _ q Hmax Hk Ha) as (i & H1).
  set (size := N.of_nat (List.length (concat pieces))) in *.
  set (dest := unique_dest_path (in_use q) (downloads_dir q) (default "download" (path_file_name file_name))) in *.
  match type of H1 with downloading _ _ _ _ _ _ _ ?x => set (q1 := x) in * end.
  destruct (download_body k tid dest i size (TokenBucket_new 0) [] pieces q1 Hc Hmax) as (bu & H2); [cbn; lia|done|].
  cbn [app] in H2. fold size in H2. match type of H2 with downloading _ _ _ _ _ _ _ ?x => generalize dependent x end. intros q2 H2.
  exists dest, i. split; [done|].
  assert (downloading k tid dest i size (FEnded (Ok dest)) (concat pieces) (steps k [StreamRead None 0; Ready 0] q2)) as H3.
  { assert (fetch_step k tid (FReceiving dest i size size bu) (StreamRead None 0) q2 = (Some (FFlushing dest i), q2)) as E
      by (cbn [fetch_step]; by rewrite N.eqb_refl).
    pose proof (downloading_quiet k tid dest i size _ _ _ _ _ H2 E) as Hf.
    exact (downloading_quiet k tid dest i size _ (FEnded (Ok dest)) (Ready 0) _ _ Hf eq_refl). }
  change (steps k [StreamRead None 0; Ready 0; Ready 0] q2) with (run_task k (Ready 0) (steps k [StreamRead None 0; Ready 0] q2)).2.
  generalize dependent (steps k [StreamRead None 0; Ready 0] q2). intros q3 (Hk3 & Hd3 & Hi3 & e3 & He3 & Hr3 & Hdel3).
  unfold run_task. rewrite gets_run, Hk3, seq_run. cbn [fetch_step]. rewrite seq_run. unfold end_fetch. rewrite gets_run, He3.
  unfold is_running in Hr3. destruct (is_terminal (stage e3)); [done|]. rewrite Hdel3. unfold put_stage, emit_stage, record. rewrite !seq_run.
  split_and!; [|done|done]. unfold finished. cbn. by rewrite lookup_insert_eq.
Qed.

(** ** From one client to the other *)

Section cross.
Context {T : Type} `{!KV T} `{!Persist.Codecs} `{!External}.
Abbreviation W := (Wld.World T).
Context (parse_uuid : string → option Types.Uuid) (uuid_string : Types.Uuid → string) (size_string : N → string).
Context (to_json : RelayShareData → string) (from_json : string → result RelayShareData) (mime_of : string → string).
Abbreviation run := (run to_json from_json mime_of).
Abbreviation run_stream := (RelayFacts.run_stream parse_uuid size_string).

(** What a stream of the relay sent. *)
Definition answers (es : list (Relay.Event T)) : list Relay.Out :=
  omap (λ e, match e with Relay.Sent o => Some o | _ => None end) es.

(** The upload the sender asks for. *)
Definition upload_of (p : Plugin) (path uuid : string) (size : N) : Relay.RelayUpload :=
  let name := default "unnamed" (path_file_name path) in Relay.mkRelayUpload uuid (room_id p) name size (mime_of name).

Lemma share_starts p path uuid size :
  (size <= MAX_UPLOAD_BYTES)%N → running_upload path p = None →
  let u := upload_of p path uuid size in
  let offer := mkOffer uuid (Relay.up_file_name u) size (Relay.up_mime u)
    (to_json (mkShareData uuid (Relay.up_file_name u) size (Relay.up_mime u))) in
  (share to_json mime_of path (inr size) uuid 0 p).1 = Ok offer ∧
  uploading (next_task p) u path UOpening (wrote (next_task p) (log p)) [] (run p [Share path (inr size) uuid 0]).
Proof.
  intros Hmax Hnone. cbv zeta. split.
  - unfold share. cbv zeta. rewrite gets_run. destruct (N.ltb_spec MAX_UPLOAD_BYTES size); [lia|]. by rewrite gets_run, Hnone.
  - unfold Transfers.run. cbn [fold_left]. unfold Transfers.step, call. rewrite seq_run. cbn [mret snd]. unfold share. cbv zeta.
    rewrite gets_run. destruct (N.ltb_spec MAX_UPLOAD_BYTES size); [lia|]. rewrite gets_run, Hnone. cbn [mbind option_bind].
    rewrite gets_run. unfold insert_entry, emit_stage, record, spawn. rewrite !seq_run. split_and!.
    + cbn. apply lookup_insert_eq.
    + cbn. by rewrite wrote_app.
    + eexists. cbn. split; [apply lookup_insert_eq|done].
Qed.

Lemma download_starts q d :
  from_json (to_json d) = Ok d → let q1 := run q [StartDownload (to_json d) 0] in
  tasks q1 !! next_task q = Some (Fetching (sd_transfer_id d) FOpening) ∧ at_work (sd_transfer_id d) q1 ∧
  disk q1 = disk q ∧ downloads_dir q1 = downloads_dir q.
Proof.
  intros Hd. unfold Transfers.run. cbn [fold_left]. unfold Transfers.step, call. cbv zeta. rewrite !seq_run. cbn [mret snd].
  unfold download. rewrite Hd. cbv zeta. rewrite gets_run. unfold insert_entry, emit_stage, record, spawn. rewrite !seq_run. split_and!.
  - cbn. apply lookup_insert_eq.
  - eexists. cbn. split; [apply lookup_insert_eq|done].
  - done.
  - done.
Qed.

(** C24: a file crosses from one user to another, unchanged.  A file that fits, shared by
    a user who may write in the room, is uploaded by the sender's plugin and admitted by
    the relay; the chat message carries its offer; the plugin of any user who may enter
    the room downloads it, as long as the relay still has it, and finds the very bytes in
    its download directory.  However the file is read, cut by the network and paced on
    each of the two ways, both users are told it is done. *)
Theorem file_crosses_the_relay (p q : Plugin) (r : Relay.FileTransferRelayPlugin) (w w' : W) user user' room path uuid
    (chunks cuts pieces : list bytes) now :
  let data := concat chunks in
  let u := upload_of p path uuid (N.of_nat (List.length data)) in
  let d := mkShareData uuid (Relay.up_file_name u) (N.of_nat (List.length data)) (Relay.up_mime u) in
  from_json (to_json d) = Ok d →
  (N.of_nat (List.length data) <= MAX_UPLOAD_BYTES)%N → Forall (λ b, b ≠ [] ∧ List.length b <= CHUNK) chunks →
  Forall (λ b, b ≠ [] ∧ List.length b <= CHUNK) pieces → concat pieces = data → RelayFacts.chunked cuts data →
  running_upload path p = None → RelayFacts.acceptable parse_uuid r w user u → parse_uuid (room_id p) = Some room →
  RelayFacts.may Perm.ENTER w' user' room →
  ∃ offer r1 es ack response, (share to_json mime_of path (inr (N.of_nat (List.length data))) uuid 0 p).1 = Ok offer ∧
    run_stream user (RelayFacts.upload_inputs u w cuts now) Relay.AwaitType r = Some (Relay.Closed, r1, es) ∧
    omap heard (answers es) = [ack; response] ∧
    let p1 := run p (Share path (inr (N.of_nat (List.length data))) uuid 0 :: (Step (next_task p) <$> upload_session chunks ack response)) in
    wrote (next_task p) (log p1) = wrote (next_task p) (log p) ++ UploadRequest u :: (Body <$> chunks) ++ [Finish] ∧
    finished uuid path p1 ∧
    ∀ r2, Relay.cache r2 !! uuid = Relay.cache r1 !! uuid →
    ∃ r3 es' answer, run_stream user' (RelayFacts.fetch_inputs uuid w' 3) Relay.AwaitType r2 = Some (Relay.Closed, r3, es') ∧
      omap heard (answers es') = [answer] ∧ Relay.Raw (concat pieces) ∈ answers es' ∧
      let q1 := run q (StartDownload (o_share_data offer) 0 :: (Step (next_task q) <$> download_session answer pieces)) in
      ∃ dest i, dest = unique_dest_path (in_use q) (downloads_dir q) (default "download" (path_file_name (o_name offer))) ∧
        finished uuid dest q1 ∧ disk q1 !! dest = Some i ∧ inodes q1 !! i = Some data.
Proof.
  intros data u d Hjson Hmax Hchunks Hpieces Hcat Hcuts Hnone Hacc Hroom Hmay.
  destruct (share_starts p path uuid (N.of_nat (List.length data)) Hmax Hnone) as [Hoffer Hstart]. fold u in Hoffer, Hstart.
  destruct (RelayFacts.upload_runs parse_uuid size_string user u w cuts now data r Hacc Hcuts eq_refl) as (r1 & es & R & C1 & _ & _ & C4).
  eexists _, r1, es, _, _. split; [exact Hoffer|]. split; [exact R|]. split; [unfold answers; by rewrite C4|].
  change (run p (?c :: ?l)) with (run (run p [c]) l). rewrite run_steps.
  destruct (upload_runs_through _ _ _ chunks _ _ Hchunks Hstart) as [Hw Hdone]. split; [exact Hw|]. split; [exact Hdone|].
  intros r2 Hr2. rewrite C1, lookup_insert_eq in Hr2.
  pose proof (RelayFacts.fetch_runs parse_uuid size_string user' uuid w' _ room r2 Hr2 Hroom Hmay) as R2.
  eexists _, _, _. split; [exact R2|]. split; [done|]. split; [cbn; rewrite Hcat; apply list_elem_of_further, list_elem_of_here|].
  destruct (download_starts q d Hjson) as (Hk & Ha & Hd1 & Hd2).
  change (run q (?c :: ?l)) with (run (run q [c]) l). rewrite run_steps. rewrite <- Hcat in Hmax.
  destruct (download_runs_through _ _ (Relay.up_file_name u) pieces _ Hpieces Hmax Hk Ha) as (dest & i & E & Hfin & Hdisk & Hino).
  exists dest, i. split; [rewrite E; unfold in_use; by rewrite Hd1, Hd2|]. rewrite Hcat in Hfin, Hdisk, Hino. by split_and!.
Qed.
End cross.

(** *** A concrete crossing, with the relay of RelayFacts *)

#[local] Existing Instances Persist.codecs Persist.codecs_laws Session.sample_external.

Definition cross_json (d : RelayShareData) : string := sd_transfer_id d.
Definition cross_of_json (s : string) : result RelayShareData := Ok (mkShareData s "a.txt" 3 "text/plain").


Definition cross_mime (_ : string) : string := "text/plain".
Definition sender : Plugin := set_room "lobby" (new "/dl" (0, 0)%N ∅ ∅).
Definition receiver : Plugin := new "/dl" (0, 0)%N {[ "/dl/a.txt" := 7%N ]} {[ 7%N := as_bytes "old" ]}.

Lemma file_crosses_the_relay_witness :
  ∃ answer dest i,
    let q1 := run cross_json cross_of_json cross_mime receiver
      (StartDownload "t1" 0 :: (Step 0 <$> download_session answer [as_bytes "a"; as_bytes "bc"])) in
    dest = "/dl/a (2).txt" ∧ finished "t1" dest q1 ∧ disk q1 !! dest = Some i ∧ inodes q1 !! i = Some (as_bytes "abc").
Proof.
  assert (∀ l : list bytes, forallb (λ b, negb (Nat.eqb (List.length b) 0) && Nat.leb (List.length b) 4) l = true →
    Forall (λ b, b ≠ [] ∧ List.length b <= CHUNK) l) as Hsmall.
  { intros l Hl. apply Forall_forall. intros b Hb. rewrite forallb_forall in Hl. specialize (Hl b (proj1 (list_elem_of_In _ _) Hb)).
    apply andb_true_iff in Hl as [H1 H2%Nat.leb_le]. split; [by intros ->|]. unfold CHUNK. lia. }
  destruct (file_crosses_the_relay (T := Persist.memory) RelayFacts.sample_parse RelayFacts.sample_size cross_json cross_of_json cross_mime
    sender receiver (Relay.relay RelayFacts.sample_opened) Session.sample_world Session.sample_world 1 2 St.lobby "/home/u/a.txt" "t1"
    [as_bytes "ab"; as_bytes "c"] [as_bytes "abc"] [as_bytes "a"; as_bytes "bc"] 7)
    as (offer & r1 & es & ack & response & Ho & _ & _ & _ & _ & Hr2).
  - reflexivity.
  - vm_compute. discriminate.
  - by apply Hsmall.
  - by apply Hsmall.
  - reflexivity.
  - split; [reflexivity|]. repeat constructor; vm_compute; discriminate.
  - reflexivity.
  - exact RelayFacts.sample_acceptable.
  - reflexivity.
  - vm_compute. reflexivity.
  - destruct (Hr2 r1 eq_refl) as (r3 & es' & answer & _ & _ & _ & dest & i & Hdest & Hfin & Hdisk & Hino).
    exists answer, dest, i. vm_compute in Ho. injection Ho as <-. split_and!; [|exact Hfin|exact Hdisk|exact Hino].
    rewrite Hdest. vm_compute. reflexivity.
Defined.

End TransfersCross.
