(* ===== verification/LinkCleaner.v ===== *)
(** The rules of the link cleaner ([crates/server/src/link_cleaner.rs]): matching
    patterns, finding links in a text, cleaning them, the reply.

    A text is its UTF-8 bytes.  The characters the code looks for are ASCII, so
    [find], [split] and the loop over the characters of a link see the same in the
    bytes.  The [url] crate is an interface ([UrlLib]) with the laws it documents
    ([UrlLaws]).  The rules per domain are a list in the order in which the
    [HashMap] happens to iterate. *)
From Stdlib Require Import NArith ZArith Lia String.
From stdpp Require Import base gmap strings list.
From S2P Require Import Prelude Dispatch.

Module LinkCleaner.
Open Scope nat_scope.
Open Scope list_scope.

(** ** Substrings *)

Definition starts_with (p l : bytes) : bool := match strip_prefix p l with Some _ => true | None => false end.

(** [s.find(needle)]. *)
Fixpoint find_sub (needle l : bytes) : option nat :=
  if starts_with needle l then Some 0
  else match l with
       | [] => None
       | _ :: l => S <$> find_sub needle l
       end.

Definition ends_with (p l : bytes) : bool := starts_with (rev p) (rev l).

(** ** Patterns *)

Definition star : byte := Byte.x2a.

(** The loop over the parts between two stars; the window is [text[pos..end]]. *)
Fixpoint match_middle (parts : list bytes) (window : bytes) : bool :=
  match parts with
  | [] => true
  | part :: parts =>
      match part with
      | [] => match_middle parts window
      | _ => match find_sub part window with
             | Some idx => match_middle parts (drop (idx + List.length part) window)
             | None => false
             end
      end
  end.

Definition glob_match (pattern text : bytes) : bool :=
  if negb (contains pattern star) then bool_decide (pattern = text)
  else
    let parts := split_bytes star pattern in
    let first := List.hd [] parts in
    let final := List.last parts [] in
    if negb (starts_with first text) || negb (ends_with final text) then false
    else if List.length text <? List.length first + List.length final then false
    else
      let stop := List.length text - List.length final in
      match_middle (removelast (List.tl parts)) (drop (List.length first) (take stop text)).

(** ** Rules *)

Record DomainRule := mkDomainRule { remove_all_params : bool; allowed_params : list bytes }.

Record LinkCleanerConfig := mkLinkCleanerConfig {
  username : string;
  label : option string;
  groups : list string;
  max_message_length : nat;
  global_strip_params : list bytes;
  cfg_domains : list (bytes * DomainRule);
}.

Definition LinkCleanerConfig_default : LinkCleanerConfig :=
  mkLinkCleanerConfig "LinkCleaner" (Some "bot"%string) [] 5000 [] [].

Record LinkRules := mkLinkRules { global_strip : list bytes; domains : list (bytes * DomainRule) }.

Definition rule (host : string) (remove_all : bool) (allowed : list string) : bytes * DomainRule :=
  (as_bytes host, mkDomainRule remove_all (map as_bytes allowed)).

Definition defaults : LinkRules :=
  mkLinkRules (map as_bytes ["utm_*"; "gclid"; "fbclid"; "mc_eid"; "mc_cid"; "igshid"]%string)
    [rule "youtube.com" false ["v"; "t"]; rule "youtu.be" false ["t"]; rule "twitter.com" true []; rule "x.com" true [];
     rule "*.reddit.com" false ["url"]; rule "amazon.*" false ["k"; "s"]; rule "facebook.com" true [];
     rule "instagram.com" true []; rule "tiktok.com" true []]%string.

Definition from_config (cfg : LinkCleanerConfig) : LinkRules :=
  match global_strip_params cfg, cfg_domains cfg with
  | [], [] => defaults
  | strip, domains => mkLinkRules strip domains
  end.

Definition dot : byte := Byte.x2e.

(** The names a host goes by, in the order they are tried. *)
Definition candidates (host : bytes) : list bytes :=
  host :: match strip_prefix (as_bytes "www.") host with Some stripped => [stripped] | None => [] end ++
  match rev (split_bytes dot host) with
  | tld :: name :: _ => [name ++ dot :: tld]
  | _ => []
  end.

Fixpoint assoc (k : bytes) (l : list (bytes * DomainRule)) : option DomainRule :=
  match l with
  | [] => None
  | (k', r) :: l => if bool_decide (k' = k) then Some r else assoc k l
  end.

(** The first wildcard pattern that matches. *)
Fixpoint wildcard (cand : bytes) (l : list (bytes * DomainRule)) : option DomainRule :=
  match l with
  | [] => None
  | (pattern, r) :: l => if contains pattern star && glob_match pattern cand then Some r else wildcard cand l
  end.

Fixpoint match_candidates (l : list (bytes * DomainRule)) (cands : list bytes) : option DomainRule :=
  match cands with
  | [] => None
  | cand :: cands =>
      match assoc cand l with
      | Some r => Some r
      | None => match wildcard cand l with Some r => Some r | None => match_candidates l cands end
      end
  end.

Definition match_domain (rules : LinkRules) (host : bytes) : option DomainRule :=
  match_candidates (domains rules) (candidates host).

(** ** The [url] crate *)

Class UrlLib := {
  Url : Type;
  url_parse : bytes → option Url;
  url_query : Url → option bytes;
  url_host_str : Url → option bytes;
  url_query_pairs : Url → list (bytes * bytes);
  (** [set_query(None)], and [query_pairs_mut().clear().extend_pairs(..)] *)
  url_clear_query : Url → Url;
  url_set_pairs : list (bytes * bytes) → Url → Url;
  url_to_string : Url → bytes;
}.

Class UrlLaws `{UrlLib} := {
  url_parse_to_string u : url_parse (url_to_string u) = Some u;
  url_query_clear u : url_query (url_clear_query u) = None;
  url_pairs_set ps u : ps ≠ [] → url_query_pairs (url_set_pairs ps u) = ps;
  url_host_set ps u : url_host_str (url_set_pairs ps u) = url_host_str u;
}.

Definition ascii_lowercase (l : bytes) : bytes := map ascii_lower l.

Section clean.
Context `{!UrlLib}.
Variable rules : LinkRules.

(** The loop over the parameters: what is kept, and whether anything was
    dropped. *)
Fixpoint sift (allowed : list bytes) (pairs : list (bytes * bytes)) : list (bytes * bytes) * bool :=
  match pairs with
  | [] => ([], false)
  | (k, v) :: pairs =>
      let '(kept, changed) := sift allowed pairs in
      if existsb (λ p, glob_match p k) (global_strip rules) then (kept, true)
      else if negb (bool_decide (allowed = [])) then
        if existsb (λ a, bool_decide (a = k)) allowed then ((k, v) :: kept, changed) else (kept, true)
      else ((k, v) :: kept, changed)
  end.

Definition clean_url (raw : bytes) : option bytes :=
  url ← url_parse raw;
  _ ← url_query url;
  host ← url_host_str url;
  let r := match_domain rules (ascii_lowercase host) in
  let pairs := url_query_pairs url in
  if bool_decide (pairs = []) then None
  else
    let '(kept, changed) :=
      if match r with Some r => remove_all_params r | None => false end then ([], true)
      else sift (match r with Some r => allowed_params r | None => [] end) pairs in
    if negb changed then None
    else Some (url_to_string (if bool_decide (kept = []) then url_clear_query url else url_set_pairs kept url)).

(** ** Links in a text *)

(** [is_url_char], on the bytes of the characters: a byte that is not ASCII is
    part of a character that is no letter of a link. *)
Definition is_url_char (b : byte) : bool :=
  Dispatch.in_range b 0x30 0x39 || Dispatch.in_range b 0x41 0x5a || Dispatch.in_range b 0x61 0x7a ||
  contains (as_bytes "-._~:/?#[]@!$&'()*+,;=%") b.

(** [. , ! ? ; : ) ] } '] and the double quote. *)
Definition TRAILING : bytes := as_bytes ".,!?;:)]}'" ++ [Byte.x22].

Fixpoint trim_trailing (l : bytes) : bytes :=
  match l with
  | [] => []
  | b :: l' => if forallb (contains TRAILING) l then [] else b :: trim_trailing l'
  end.

Fixpoint url_run (l : bytes) : bytes :=
  match l with
  | [] => []
  | b :: l => if is_url_char b then b :: url_run l else []
  end.

Definition scheme_len (l : bytes) : option nat :=
  if starts_with (as_bytes "https://") (ascii_lowercase l) then Some 8
  else if starts_with (as_bytes "http://") (ascii_lowercase l) then Some 7
  else None.

(** The loop: [rest] is [text[from..]]. *)
Fixpoint extract_from (fuel : nat) (rest : bytes) : list bytes :=
  match fuel with
  | O => []
  | S fuel =>
      match find_sub (as_bytes "http") (ascii_lowercase rest) with
      | None => []
      | Some rel =>
          let here := drop rel rest in
          match scheme_len here with
          | None => extract_from fuel (drop 4 here)
          | Some n =>
              let found := take n here ++ url_run (drop n here) in
              let url := trim_trailing found in
              (if n <? List.length url then [url] else []) ++ extract_from fuel (drop (List.length found) here)
          end
      end
  end.
(** Every round takes at least the four letters it found. *)
Definition extract_urls (text : bytes) : list bytes := extract_from (S (List.length text)) text.

Fixpoint clean_seen (seen : list bytes) (urls : list bytes) : list (bytes * bytes) :=
  match urls with
  | [] => []
  | raw :: urls =>
      if contains seen raw then clean_seen seen urls
      else
        match clean_url raw with
        | Some cleaned => if bool_decide (cleaned = raw) then [] else [(raw, cleaned)]
        | None => []
        end ++ clean_seen (raw :: seen) urls
  end.
Definition clean_text (text : bytes) : list (bytes * bytes) := clean_seen [] (extract_urls text).
End clean.

Definition newline : byte := Byte.x0a.
Definition render_reply (pairs : list (bytes * bytes)) : bytes :=
  match pairs with
  | [(_, cleaned)] => as_bytes "Cleaned link: " ++ cleaned
  | _ => as_bytes "Cleaned links:" ++ flat_map (λ p : bytes * bytes, newline :: p.2) pairs
  end.

(** ** Substrings *)

Lemma starts_with_spec p l : starts_with p l = true ↔ ∃ k, l = p ++ k.
Proof.
  unfold starts_with. destruct (strip_prefix p l) as [k|] eqn:E.
  - apply strip_prefix_Some in E. naive_solver.
  - split; [done|]. intros [k Hk]. by apply strip_prefix_Some in Hk; rewrite Hk in E.
Qed.

Lemma ends_with_spec p l : ends_with p l = true ↔ ∃ k, l = k ++ p.
Proof.
  unfold ends_with. rewrite starts_with_spec. split.
  - intros [k Hk]. exists (rev k). by rewrite <- (rev_involutive l), Hk, rev_app_distr, rev_involutive.
  - intros [k ->]. exists (rev k). apply rev_app_distr.
Qed.

(** The leftmost occurrence. *)
Lemma find_sub_Some n l i :
  find_sub n l = Some i →
  ∃ y, l = take i l ++ n ++ y ∧ List.length (take i l) = i ∧ ∀ x' y', l = x' ++ n ++ y' → i ≤ List.length x'.
Proof.
  revert i. induction l as [|b l IH]; intros i; cbn [find_sub].
  - destruct (starts_with n []) eqn:E; [|done]. intros [= <-]. apply starts_with_spec in E as [k Hk].
    exists k. split; [done|]. split; [done|intros; lia].
  - destruct (starts_with n (b :: l)) eqn:E.
    + intros [= <-]. apply starts_with_spec in E as [k Hk]. exists k. split; [done|]. split; [done|intros; lia].
    + intros (i' & Hi & ->)%fmap_Some. destruct (IH i' Hi) as (y & Hy & Hlen & Hmin). exists y. cbn [take].
      split; [cbn; by f_equal|]. split; [cbn; by rewrite Hlen|].
      intros [|b' x'] y' Hx; [|injection Hx as <- Hx; specialize (Hmin _ _ Hx); cbn [List.length]; lia].
      exfalso. assert (starts_with n (b :: l) = true) as Hs by (apply starts_with_spec; by exists y'). congruence.
Qed.

Lemma find_sub_None n l x y : find_sub n l = None → l ≠ x ++ n ++ y.
Proof.
  revert x. induction l as [|b l IH]; intros x; cbn [find_sub].
  - destruct (starts_with n []) eqn:E; [done|]. intros _ Hx. destruct x; [|done].
    assert (starts_with n [] = true) as Hs by (apply starts_with_spec; by exists y). congruence.
  - destruct (starts_with n (b :: l)) eqn:E; [done|]. intros Hn%fmap_None Hx. destruct x as [|b' x].
    + assert (starts_with n (b :: l) = true) as Hs by (apply starts_with_spec; by exists y). congruence.
    + injection Hx as _ Hx. by eapply IH.
Qed.

(** ** What a pattern means *)

(** A star stands for any run of bytes, every other byte for itself. *)
Inductive glob : bytes → bytes → Prop :=
  | glob_end : glob [] []
  | glob_byte b p t : b ≠ star → glob p t → glob (b :: p) (b :: t)
  | glob_star p t run : glob p t → glob (star :: p) (run ++ t).

(** The parts one after the other, with anything in between. *)
Fixpoint gaps (parts : list bytes) (w : bytes) : Prop :=
  match parts with
  | [] => True
  | part :: parts => ∃ x y, w = x ++ part ++ y ∧ gaps parts y
  end.

Lemma gaps_more parts z w : gaps parts w → gaps parts (z ++ w).
Proof. destruct parts as [|p parts]; [done|]. intros (x & y & -> & Hg). exists (z ++ x), y. by rewrite app_assoc. Qed.

(** Looking for each part at the first place is enough. *)
Lemma match_middle_spec parts w : match_middle parts w = true ↔ gaps parts w.
Proof.
  revert w. induction parts as [|p parts IH]; intros w; [done|]. cbn [match_middle gaps]. destruct p as [|b p].
  { rewrite IH. split; [intros Hg; by exists [], w|]. intros (x & y & -> & Hg). by apply gaps_more. }
  destruct (find_sub (b :: p) w) as [i|] eqn:E.
  - apply find_sub_Some in E as (z & Hz & Hi & Hmin). rewrite IH.
    assert (drop (i + List.length (b :: p)) w = z) as ->.
    { rewrite Hz at 1. rewrite app_assoc. apply drop_app_length'. rewrite length_app, Hi. done. }
    split; [intros Hg; by exists (take i w), z|]. intros (x & y & Hw & Hg). pose proof (Hmin x y Hw) as Hle.
    assert (∃ v, z = v ++ y) as [v ->]; [|by apply gaps_more].
    assert (take i w = take i x) as Ht. { rewrite Hw. rewrite take_app_le by done. done. }
    exists (drop (List.length (b :: p)) (drop i x ++ (b :: p))).
    apply (app_inv_head (take i w ++ (b :: p))). rewrite <- !app_assoc. rewrite <- Hz.
    rewrite Hw at 1. rewrite <- (take_drop i x) at 1. rewrite Ht, <- !app_assoc. f_equal.
    assert (drop i x ++ (b :: p) ++ y = (b :: p) ++ z) as Hd.
    { apply (app_inv_head (take i w)). rewrite <- Hz. rewrite Ht, app_assoc, take_drop. done. }
    rewrite Hd. f_equal. apply (f_equal (drop (List.length (b :: p)))) in Hd. rewrite drop_app_length in Hd.
    rewrite <- Hd. rewrite app_assoc. apply drop_app_le. rewrite length_app. lia.
  - split; [done|]. intros (x & y & Hw & _). by apply (find_sub_None _ _ x y) in E.
Qed.

(** The parts of a pattern in order, after the first. *)
Fixpoint tail_glob (parts : list bytes) (t : bytes) : Prop :=
  match parts with
  | [] => t = []
  | part :: parts => ∃ x y, t = x ++ part ++ y ∧ tail_glob parts y
  end.

Lemma glob_star_inv p t : glob (star :: p) t ↔ ∃ x y, t = x ++ y ∧ glob p y.
Proof. split; [inversion 1; naive_solver|]. intros (x & y & -> & Hg). by constructor. Qed.

Lemma glob_byte_inv b p t : b ≠ star → glob (b :: p) t ↔ ∃ t', t = b :: t' ∧ glob p t'.
Proof. intros Hb. split; [inversion 1; naive_solver|]. intros (t' & -> & Hg). by constructor. Qed.

Lemma split_bytes_ne c l : ∃ w ws, split_bytes c l = w :: ws.
Proof.
  induction l as [|b l (w & ws & IH)]; cbn; [by eexists _, _|]. case_bool_decide; [by eexists _, _|]. rewrite IH. by eexists _, _.
Qed.

Lemma glob_parts p t w ws :
  split_bytes star p = w :: ws → glob p t ↔ ∃ t', t = w ++ t' ∧ tail_glob ws t'.
Proof.
  revert t w ws. induction p as [|b p IH]; intros t w ws; cbn [split_bytes].
  { intros [= <- <-]. split; [inversion 1; by exists []|]. intros (t' & -> & ->). constructor. }
  destruct (split_bytes_ne star p) as (w' & ws' & E). rewrite E.
  case_bool_decide as Hb; intros [= <- <-].
  - subst b. rewrite glob_star_inv. cbn [tail_glob]. split.
    + intros (x & y & -> & (t' & -> & Ht)%(IH _ _ _ E)). exists (x ++ w' ++ t'). split; [done|]. by exists x, t'.
    + intros (t' & -> & x & y & -> & Ht). exists x, (w' ++ y). split; [done|]. apply (IH _ _ _ E). by exists y.
  - rewrite glob_byte_inv by done. split.
    + intros (t' & -> & (t2 & -> & Ht)%(IH _ _ _ E)). by exists t2.
    + intros (t' & -> & Ht). exists (w' ++ t'). split; [done|]. apply (IH _ _ _ E). by exists t'.
Qed.

(** The last part sits at the end. *)
Lemma tail_glob_gaps ws f t : tail_glob (ws ++ [f]) t ↔ ∃ m, t = m ++ f ∧ gaps ws m.
Proof.
  revert t. induction ws as [|w ws IH]; intros t; cbn [app tail_glob gaps].
  - split; [intros (x & y & -> & ->); exists x; by rewrite app_nil_r|]. intros (m & -> & _). exists m, []. by rewrite app_nil_r.
  - split.
    + intros (x & y & -> & (m & -> & Hg)%IH). exists (x ++ w ++ m). rewrite <- !app_assoc. split; [done|]. by exists x, m.
    + intros (m & -> & x & y & -> & Hg). exists x, (y ++ f). rewrite <- !app_assoc. split; [done|]. apply IH. by exists y.
Qed.

Lemma glob_plain p t : star ∉ p → glob p t ↔ p = t.
Proof.
  intros Hp. rewrite (glob_parts p t p []) by (by apply split_bytes_no). split; [intros (t' & -> & ->); by rewrite app_nil_r|].
  intros ->. exists []. by rewrite app_nil_r.
Qed.

Lemma split_star_many p : star ∈ p → ∃ w ws f, split_bytes star p = w :: ws ++ [f].
Proof.
  induction p as [|b p IH]; [by intros ?%elem_of_nil|]. intros Hin. cbn [split_bytes].
  destruct (split_bytes_ne star p) as (w & ws & E). rewrite E. case_bool_decide as Hb.
  - exists []. destruct (exists_last (l := w :: ws)) as (l' & f & El); [done|]. exists l', f. by rewrite El.
  - apply elem_of_cons in Hin as [?|Hin]; [congruence|]. destruct (IH Hin) as (w2 & ws2 & f & E2). rewrite E in E2. injection E2 as -> ->.
    by exists (b :: w2), ws2, f.
Qed.

(** ** What is kept of a link *)

Section links.
Context `{!UrlLib}.
Variable rules : LinkRules.

(** A parameter survives when no global pattern matches its key and, where the
    rule of the host lists the keys it allows, it is one of them; none survives a
    rule that drops them all. *)
Definition survives (r : option DomainRule) (key : bytes) : bool :=
  negb (match r with Some r => remove_all_params r | None => false end) &&
  negb (existsb (λ p, glob_match p key) (global_strip rules)) &&
  (let allowed := match r with Some r => allowed_params r | None => [] end in
   bool_decide (allowed = []) || existsb (λ a, bool_decide (a = key)) allowed).

Definition rule_of (host : bytes) : option DomainRule := match_domain rules (ascii_lowercase host).
Definition surviving (host : bytes) (u : Url) : list (bytes * bytes) := retain (λ kv, survives (rule_of host) kv.1) (url_query_pairs u).
Definition with_pairs (ps : list (bytes * bytes)) (u : Url) : Url := if bool_decide (ps = []) then url_clear_query u else url_set_pairs ps u.

Lemma sift_spec r pairs :
  match r with Some r => remove_all_params r | None => false end = false →
  sift rules (match r with Some r => allowed_params r | None => [] end) pairs =
  (retain (λ kv, survives r kv.1) pairs, negb (forallb (λ kv, survives r kv.1) pairs)).
Proof.
  intros Hr. induction pairs as [|[k v] pairs IH]; [done|]. cbn [sift]. rewrite IH. unfold retain. cbn [List.filter forallb fst].
  assert (survives r k = negb (existsb (λ p, glob_match p k) (global_strip rules)) &&
    (bool_decide (match r with Some r => allowed_params r | None => [] end = []) ||
     existsb (λ a, bool_decide (a = k)) (match r with Some r => allowed_params r | None => [] end))) as ->.
  { unfold survives. by rewrite Hr. }
  destruct (existsb (λ p, glob_match p k) _); [done|]. destruct (bool_decide _); [done|]. cbn [negb andb orb].
  by destruct (existsb _ _).
Qed.

Lemma forallb_false {A} (f : A → bool) l : forallb f l = false → ∃ x, x ∈ l ∧ f x = false.
Proof.
  induction l as [|a l IH]; [done|]. cbn [forallb]. destruct (f a) eqn:Ea; [|intros _; exists a; split; [by left|done]].
  intros (x & Hx & Hf)%IH. exists x. split; [by right|done].
Qed.

Lemma clean_url_Some raw c :
  clean_url rules raw = Some c ↔
  ∃ u host, url_parse raw = Some u ∧ is_Some (url_query u) ∧ url_host_str u = Some host ∧
    (∃ kv, kv ∈ url_query_pairs u ∧ survives (rule_of host) kv.1 = false) ∧
    c = url_to_string (with_pairs (surviving host u) u).
Proof.
  unfold clean_url. destruct (url_parse raw) as [u|]; [|cbn; naive_solver]. cbn [mbind option_bind].
  destruct (url_query u) as [q|] eqn:Eq; [|cbn; split; [done|intros (u' & h & Hu & [? E] & _); simplify_eq]]. cbn [mbind option_bind].
  destruct (url_host_str u) as [host|] eqn:Eh; [|cbn; split; [done|intros (u' & h & Hu & _ & E & _); simplify_eq]]. cbn [mbind option_bind].
  fold (rule_of host). set (pairs := url_query_pairs u). set (r := rule_of host).
  assert ((if bool_decide (pairs = []) then None
           else let '(kept, changed) := if match r with Some r => remove_all_params r | None => false end then ([], true)
                  else sift rules (match r with Some r => allowed_params r | None => [] end) pairs in
                if negb changed then None else Some (url_to_string (with_pairs kept u))) =
          (if forallb (λ kv, survives r kv.1) pairs then None
           else Some (url_to_string (with_pairs (retain (λ kv, survives r kv.1) pairs) u)))) as E.
  { case_bool_decide as Hp; [by rewrite Hp|].
    destruct (match r with Some r => remove_all_params r | None => false end) eqn:Ha; [|rewrite sift_spec by done; by destruct (forallb _ _)].
    assert (∀ k, survives r k = false) as Hs by (intros k; unfold survives; by rewrite Ha).
    destruct pairs as [|kv pairs]; [done|]. cbn [forallb negb]. rewrite Hs. cbn [andb]. do 3 f_equal.
    unfold retain. clear -Hs. symmetry. induction (kv :: pairs) as [|x l IH]; [done|]. cbn [List.filter]. by rewrite Hs. }
  unfold with_pairs in E at 1. rewrite E. clear E. destruct (forallb (λ kv, survives r kv.1) pairs) eqn:Ef.
  - split; [done|]. intros (u' & h & Hu & _ & Hh & (kv & Hin & Hk) & _). simplify_eq.
    rewrite forallb_forall in Ef. apply list_elem_of_In in Hin. specialize (Ef kv Hin). cbv beta in Ef. fold r in Hk. congruence.
  - split.
    + intros [= <-]. exists u, host. split; [done|]. split; [by eexists|]. split; [done|]. split; [|done]. by apply forallb_false.
    + intros (u' & h & Hu & _ & Hh & _ & ->). by simplify_eq.
Qed.

Lemma survives_twice host u : retain (λ kv, survives (rule_of host) kv.1) (surviving host u) = surviving host u.
Proof. unfold surviving. rewrite retain_retain. apply retain_ext. intros kv _. apply andb_diag. Qed.

(** A cleaned link is not cleaned again. *)
Lemma clean_url_twice `{!UrlLaws} raw c : clean_url rules raw = Some c → clean_url rules c = None.
Proof.
  intros (u & host & _ & _ & Hh & _ & ->)%clean_url_Some. destruct (clean_url rules _) as [c'|] eqn:E; [|done]. exfalso.
  apply clean_url_Some in E as (u' & h & Hu & [q Hq] & Hh' & (kv & Hin & Hk) & _). rewrite url_parse_to_string in Hu. injection Hu as <-.
  unfold with_pairs in *. case_bool_decide as Hp; [by rewrite url_query_clear in Hq|].
  rewrite url_host_set, Hh in Hh'. injection Hh' as <-. rewrite url_pairs_set in Hin by done.
  rewrite <- survives_twice in Hin. apply elem_of_retain in Hin as [_ Hs]. cbv beta in Hs. congruence.
Qed.
End links.

(** ** Finding links *)

Definition ends_plain (u : bytes) : Prop := ∃ v b, u = v ++ [b] ∧ contains TRAILING b = false.

(** A link: [http://] or [https://] in any case and something after it, all of
    it letters of a link, the last no punctuation of a sentence. *)
Definition link (u : bytes) : Prop :=
  (∃ n, scheme_len u = Some n ∧ n < List.length u) ∧ forallb is_url_char u = true ∧ ends_plain u.

Lemma trim_trailing_spec l :
  ∃ junk, l = trim_trailing l ++ junk ∧ forallb (contains TRAILING) junk = true ∧ (trim_trailing l = [] ∨ ends_plain (trim_trailing l)).
Proof.
  induction l as [|b l (junk & Hl & Hj & Ht)]; [by exists []; auto|]. cbn [trim_trailing].
  destruct (forallb (contains TRAILING) (b :: l)) eqn:E; [exists (b :: l); auto|].
  exists junk. split; [cbn; by f_equal|]. split; [done|]. right. destruct Ht as [Ht|(v & b' & Ht & Hb)].
  - exists [], b. rewrite Ht. split; [done|]. assert (forallb (contains TRAILING) l = true) as Hall by (by rewrite Hl, Ht). cbn [forallb] in E. by rewrite Hall, andb_true_r in E.
  - exists (b :: v), b'. by rewrite Ht.
Qed.

Lemma trim_trailing_app u junk : ends_plain u → forallb (contains TRAILING) junk = true → trim_trailing (u ++ junk) = u.
Proof.
  intros (v & b & -> & Hb) Hj. induction v as [|a v IH]; cbn [app trim_trailing forallb].
  - rewrite Hb. cbn [andb]. f_equal. destruct junk as [|c junk]; [done|]. cbn [trim_trailing]. by rewrite Hj.
  - destruct (contains TRAILING a && _) eqn:E; [|by rewrite IH]. exfalso. apply andb_prop in E as [_ E].
    rewrite !forallb_app in E. cbn [forallb] in E. rewrite Hb in E. cbn [andb] in E. by rewrite andb_false_r in E.
Qed.

Lemma length_lower l : List.length (ascii_lowercase l) = List.length l.
Proof. apply length_map. Qed.
Lemma lower_app l k : ascii_lowercase (l ++ k) = ascii_lowercase l ++ ascii_lowercase k.
Proof. apply map_app. Qed.

Lemma starts_with_length p l : starts_with p l = true → List.length p ≤ List.length l.
Proof. intros [k ->]%starts_with_spec. rewrite length_app. lia. Qed.

Lemma starts_with_take p l n : List.length p ≤ n → starts_with p (take n l) = starts_with p l.
Proof.
  intros Hn. apply eq_true_iff_eq. rewrite !starts_with_spec. split.
  - intros [k Hk]. exists (k ++ drop n l). by rewrite app_assoc, <- Hk, take_drop.
  - intros [k ->]. exists (take (n - List.length p) k). by rewrite take_app, take_ge by done.
Qed.

Lemma scheme_len_bounds l n : scheme_len l = Some n → 7 ≤ n ≤ 8 ∧ n ≤ List.length l.
Proof.
  unfold scheme_len. destruct (starts_with (as_bytes "https://") _) eqn:E1; [intros [= <-]|destruct (starts_with (as_bytes "http://") _) eqn:E2; [intros [= <-]|done]].
  - apply starts_with_length in E1. rewrite length_lower in E1. cbn in E1. lia.
  - apply starts_with_length in E2. rewrite length_lower in E2. cbn in E2. lia.
Qed.

(** The scheme is read off the first eight bytes. *)
Lemma scheme_len_take l k : 8 ≤ k → scheme_len (take k l) = scheme_len l.
Proof.
  intros Hk. unfold scheme_len. assert (ascii_lowercase (take k l) = take k (ascii_lowercase l)) as -> by (symmetry; apply firstn_map).
  by rewrite !starts_with_take by (cbn; lia).
Qed.

Lemma lower_url_char b : is_url_char (ascii_lower b) = true → is_url_char b = true.
Proof. destruct b; vm_compute; done. Qed.

Lemma scheme_url_chars l n : scheme_len l = Some n → forallb is_url_char (take n l) = true.
Proof.
  intros Hn. assert (forallb is_url_char (take n (ascii_lowercase l)) = true) as Hl.
  { unfold scheme_len in Hn. destruct (starts_with (as_bytes "https://") _) eqn:E1; [|destruct (starts_with (as_bytes "http://") _) eqn:E2; [|done]];
      injection Hn as <-; [apply starts_with_spec in E1 as [k ->]|apply starts_with_spec in E2 as [k ->]]; by destruct k. }
  unfold ascii_lowercase in Hl. rewrite firstn_map, forallb_map_comp in Hl. rewrite forallb_forall in Hl |- *.
  intros b Hb. by apply lower_url_char, Hl.
Qed.

Lemma url_run_spec l : ∃ k, l = url_run l ++ k ∧ forallb is_url_char (url_run l) = true ∧ match k with [] => True | b :: _ => is_url_char b = false end.
Proof.
  induction l as [|b l (k & Hl & Hu & Hk)]; [by exists []|]. cbn [url_run]. destruct (is_url_char b) eqn:E.
  - exists k. split; [cbn; by f_equal|]. cbn. by rewrite E.
  - by exists (b :: l).
Qed.

Lemma url_run_app l k : forallb is_url_char l = true → match k with [] => True | b :: _ => is_url_char b = false end → url_run (l ++ k) = l.
Proof.
  intros Hl Hk. induction l as [|b l IH]; cbn [app url_run].
  - destruct k as [|b k]; [done|]. cbn. by rewrite Hk.
  - cbn in Hl. apply andb_prop in Hl as [Hb Hl]. rewrite Hb. by rewrite IH.
Qed.

Lemma find_http rest rel :
  find_sub (as_bytes "http") (ascii_lowercase rest) = Some rel → rel + 4 ≤ List.length rest.
Proof.
  intros (y & Hy & Hlen & _)%find_sub_Some. apply (f_equal (@List.length _)) in Hy. rewrite !length_app, length_lower, Hlen in Hy. cbn in Hy. lia.
Qed.

(** The fuel does not matter once it exceeds the length. *)
Lemma extract_fuel f1 : ∀ f2 rest, List.length rest < f1 → List.length rest < f2 → extract_from f1 rest = extract_from f2 rest.
Proof.
  induction f1 as [|f1 IH]; intros f2 rest H1 H2; [lia|]. destruct f2 as [|f2]; [lia|]. cbn [extract_from].
  destruct (find_sub _ _) as [rel|] eqn:E; [|done]. apply find_http in E.
  destruct (scheme_len (drop rel rest)) as [n|] eqn:En.
  - f_equal. apply scheme_len_bounds in En as [Hn Hle]. rewrite length_drop in Hle.
    apply IH; rewrite !length_drop, length_app, length_take, length_drop; lia.
  - apply IH; rewrite !length_drop; lia.
Qed.

Lemma extract_sound fuel : ∀ rest u, u ∈ extract_from fuel rest → link u ∧ ∃ pre post, rest = pre ++ u ++ post.
Proof.
  induction fuel as [|fuel IH]; intros rest u; cbn [extract_from]; [by intros ?%elem_of_nil|].
  destruct (find_sub _ _) as [rel|]; [|by intros ?%elem_of_nil].
  assert (∀ k, u ∈ extract_from fuel (drop k (drop rel rest)) → link u ∧ ∃ pre post, rest = pre ++ u ++ post) as Hrec.
  { intros k (Hl & pre & post & Hp)%IH. split; [done|]. exists (take rel rest ++ take k (drop rel rest) ++ pre), post.
    rewrite <- !app_assoc, <- Hp. by rewrite !take_drop. }
  destruct (scheme_len (drop rel rest)) as [n|] eqn:En; [|apply Hrec]. rewrite elem_of_app. intros [Hin|Hin]; [|by eapply Hrec].
  set (here := drop rel rest) in *. set (found := take n here ++ url_run (drop n here)) in *.
  destruct (Nat.ltb_spec n (List.length (trim_trailing found))) as [Hlt|]; [|by apply elem_of_nil in Hin]. apply list_elem_of_singleton in Hin as ->.
  destruct (url_run_spec (drop n here)) as (k & Hk & Hu & _). destruct (trim_trailing_spec found) as (junk & Hf & Hj & Ht).
  assert (here = trim_trailing found ++ junk ++ k) as Hhere.
  { rewrite app_assoc, <- Hf. unfold found. rewrite <- app_assoc, <- Hk. by rewrite take_drop. }
  assert (forallb is_url_char found = true) as Hall by (unfold found; rewrite forallb_app, scheme_url_chars by done; exact Hu).
  split; [|exists (take rel rest), (junk ++ k); rewrite <- Hhere; unfold here; by rewrite take_drop].
  split; [exists n; split; [|done]|split; [|destruct Ht as [E0|Ht]; [rewrite E0 in Hlt; cbn in Hlt; lia|done]]].
  - pose proof (scheme_len_bounds _ _ En) as [Hn _].
    rewrite <- (scheme_len_take here (List.length (trim_trailing found))) in En by lia. rewrite Hhere, take_app_length in En. done.
  - rewrite Hf, forallb_app in Hall. by apply andb_prop in Hall as [Hall _].
Qed.

(** ** Theorems *)

(** C38: A pattern matches a text exactly when the text is the pattern with some
    run of characters in place of each star. *)
Theorem glob_match_spec (pattern text : bytes) : glob_match pattern text = true ↔ glob pattern text.
Proof.
  unfold glob_match. destruct (contains pattern star) eqn:Hs; cbn [negb].
  2: { rewrite bool_decide_eq_true, glob_plain; [done|]. intros Hin%contains_spec. congruence. }
  apply contains_spec in Hs. destruct (split_star_many pattern Hs) as (w & ws & f & E). rewrite E. cbv zeta. cbn [hd tl].
  assert (List.last (w :: ws ++ [f]) [] = f) as -> by (change (w :: ws ++ [f]) with ((w :: ws) ++ [f]); apply last_last).
  rewrite removelast_last, (glob_parts _ _ _ _ E). setoid_rewrite tail_glob_gaps.
  destruct (starts_with w text) eqn:H1; cbn [negb orb].
  2: { split; [done|]. intros (t' & -> & _). assert (starts_with w (w ++ t') = true) by (apply starts_with_spec; by exists t'). congruence. }
  destruct (ends_with f text) eqn:H2; cbn [negb].
  2: { split; [done|]. intros (t' & -> & m & -> & _). assert (ends_with f (w ++ m ++ f) = true); [|congruence].
       apply ends_with_spec. exists (w ++ m). by rewrite app_assoc. }
  apply starts_with_spec in H1 as [k ->]. apply ends_with_spec in H2 as [h Hh]. rewrite length_app.
  destruct (Nat.ltb_spec (List.length w + List.length k) (List.length w + List.length f)) as [Hlt|Hge].
  { split; [done|]. intros (t' & Ht & m & -> & _). apply app_inv_head in Ht as ->. rewrite length_app in Hlt. lia. }
  assert (∃ m, k = m ++ f) as [m ->].
  { exists (drop (List.length w) h). apply (app_inv_head w). rewrite Hh, app_assoc. f_equal.
    assert (List.length w ≤ List.length h) as Hl by (apply (f_equal (@List.length _)) in Hh; rewrite !length_app in Hh; lia).
    assert (w = take (List.length w) h) as Hw; [|by rewrite Hw at 1; rewrite take_drop].
    apply (f_equal (take (List.length w))) in Hh. rewrite take_app_length, take_app_le in Hh by done. done. }
  rewrite match_middle_spec. rewrite app_assoc, take_app_length' by (rewrite !length_app; lia). rewrite drop_app_length. split.
  - intros Hg. exists (m ++ f). rewrite app_assoc. split; [done|]. by exists m.
  - intros (t' & Ht & m' & -> & Hg). rewrite <- app_assoc in Ht. apply app_inv_head in Ht. by apply app_inv_tail in Ht as ->.
Qed.

(** The first link of a text, when its first [http] begins it. *)
Lemma extract_step pre u junk post :
  find_sub (as_bytes "http") (ascii_lowercase (pre ++ u ++ junk ++ post)) = Some (List.length pre) →
  link u → forallb (contains TRAILING) junk = true → forallb is_url_char junk = true →
  match post with [] => True | b :: _ => is_url_char b = false end →
  extract_urls (pre ++ u ++ junk ++ post) = u :: extract_urls post.
Proof.
  intros Hf ((n & Hn & Hlt) & Hu & He) Hj Hju Hp. unfold extract_urls at 1. cbn [extract_from]. rewrite Hf, drop_app_length.
  pose proof (scheme_len_bounds _ _ Hn) as [Hb _].
  assert (scheme_len (u ++ junk ++ post) = Some n) as ->.
  { rewrite <- (scheme_len_take _ (List.length u)) by lia. by rewrite take_app_length. }
  assert (take n (u ++ junk ++ post) ++ url_run (drop n (u ++ junk ++ post)) = u ++ junk) as ->.
  { rewrite take_app_le, drop_app_le by lia. rewrite (app_assoc (drop n u)), url_run_app.
    - by rewrite app_assoc, take_drop.
    - rewrite forallb_app, Hju, andb_true_r. rewrite <- (take_drop n u), forallb_app in Hu. by apply andb_prop in Hu as [_ Hu].
    - done. }
  rewrite trim_trailing_app by done. destruct (Nat.ltb_spec n (List.length u)); [|lia]. cbn [app]. f_equal.
  rewrite (app_assoc u junk post), drop_app_length. apply extract_fuel; rewrite ?length_app; lia.
Qed.

(** Links are found: what is extracted is a link of the text; a text in which
    the first [http], in any case, begins a link followed at most by punctuation
    yields that link and then those of the rest; a text without [http] has none. *)
Theorem extract_urls_spec :
  (∀ text u, u ∈ extract_urls text → link u ∧ ∃ pre post, text = pre ++ u ++ post) ∧
  (∀ pre u junk post,
     find_sub (as_bytes "http") (ascii_lowercase (pre ++ u ++ junk ++ post)) = Some (List.length pre) →
     link u → forallb (contains TRAILING) junk = true → forallb is_url_char junk = true →
     match post with [] => True | b :: _ => is_url_char b = false end →
     extract_urls (pre ++ u ++ junk ++ post) = u :: extract_urls post) ∧
  (∀ text, (∀ x y, ascii_lowercase text ≠ x ++ as_bytes "http" ++ y) → extract_urls text = []).
Proof.
  split; [intros text u; apply extract_sound|]. split; [exact extract_step|].
  intros text Hno. unfold extract_urls. cbn [extract_from]. destruct (find_sub _ _) as [i|] eqn:E; [|done].
  apply find_sub_Some in E as (y & Hy & _). by edestruct Hno.
Qed.

Section replies.
Context `{!UrlLib} `{!UrlLaws}.
Variable rules : LinkRules.

Lemma clean_seen_spec seen urls raw c :
  (raw, c) ∈ clean_seen rules seen urls ↔ raw ∈ urls ∧ raw ∉ seen ∧ clean_url rules raw = Some c ∧ c ≠ raw.
Proof.
  revert seen. induction urls as [|u urls IH]; intros seen; cbn [clean_seen].
  { split; [by intros ?%elem_of_nil|by intros [?%elem_of_nil _]]. }
  destruct (contains seen u) eqn:Eu.
  - apply contains_spec in Eu. rewrite IH. set_solver.
  - assert (u ∉ seen) as Hu by (intros Hin%contains_spec; congruence). rewrite elem_of_app, IH, elem_of_cons.
    assert ((raw, c) ∈ match clean_url rules u with
              | Some cleaned => if bool_decide (cleaned = u) then [] else [(u, cleaned)] | None => [] end ↔
            raw = u ∧ clean_url rules u = Some c ∧ c ≠ u) as ->.
    { destruct (clean_url rules u) as [c'|]; [|set_solver]. case_bool_decide; set_solver. }
    destruct (decide (raw = u)) as [->|]; set_solver.
Qed.

(** C37: The reply names, for each link of the message, what is left of it when the
    parameters that do not survive its host's rule are dropped — if any was
    dropped: the other parameters stay, in their order, and the rest of the link;
    and the bot would leave its own links alone. *)
Theorem clean_text_spec (text raw c : bytes) :
  (raw, c) ∈ clean_text rules text →
  raw ∈ extract_urls text ∧ c ≠ raw ∧
  (∃ u host, url_parse raw = Some u ∧ url_host_str u = Some host ∧
    (∃ kv, kv ∈ url_query_pairs u ∧ survives rules (rule_of rules host) kv.1 = false) ∧
    c = url_to_string (with_pairs (surviving rules host u) u) ∧
    (surviving rules host u = [] → ∃ v, url_parse c = Some v ∧ url_query v = None) ∧
    (surviving rules host u ≠ [] → ∃ v, url_parse c = Some v ∧ url_host_str v = Some host ∧
       url_query_pairs v = retain (λ kv, survives rules (rule_of rules host) kv.1) (url_query_pairs u))) ∧
  clean_url rules c = None.
Proof.
  intros (Hin & _ & Hc & Hne)%clean_seen_spec. split; [done|]. split; [done|]. split; [|by eapply clean_url_twice].
  apply clean_url_Some in Hc as (u & host & Hp & _ & Hh & Hk & ->). exists u, host. do 4 (split; [done|]).
  unfold with_pairs. split; intros Hs.
  - rewrite bool_decide_true by done. eexists. split; [apply url_parse_to_string|apply url_query_clear].
  - rewrite bool_decide_false by done. eexists. split; [apply url_parse_to_string|]. split; [by rewrite url_host_set|by apply url_pairs_set].
Qed.
End replies.

(** ** A small [url] library, for concrete texts *)

Definition question : byte := Byte.x3f.
Definition ampersand : byte := Byte.x26.
Definition equals : byte := Byte.x3d.

(** Percent encoding of everything but letters, digits and [-._~]. *)
Definition unreserved (b : byte) : bool :=
  Dispatch.in_range b 0x30 0x39 || Dispatch.in_range b 0x41 0x5a || Dispatch.in_range b 0x61 0x7a || contains (as_bytes "-._~") b.
Definition enc1 (b : byte) : bytes :=
  if unreserved b then [b] else [Byte.x25; hex_digit (N_of_byte b / 16); hex_digit (N_of_byte b mod 16)].
Definition enc (l : bytes) : bytes := flat_map enc1 l.
Definition unhex (b : byte) : N := let n := N_of_byte b in (if n <? 58 then n - 48 else n - 87)%N.
Fixpoint dec (l : bytes) : bytes :=
  match l with
  | [] => []
  | Byte.x25 :: a :: b :: l => byte_of_N (16 * unhex a + unhex b) :: dec l
  | b :: l => b :: dec l
  end.

(** What comes before a byte, and what comes after its first occurrence. *)
Fixpoint before (c : byte) (l : bytes) : bytes :=
  match l with [] => [] | b :: l => if bool_decide (b = c) then [] else b :: before c l end.
Fixpoint past (c : byte) (l : bytes) : option bytes :=
  match l with [] => None | b :: l => if bool_decide (b = c) then Some l else past c l end.

Definition enc_pair (p : bytes * bytes) : bytes := enc p.1 ++ equals :: enc p.2.
Definition dec_pair (l : bytes) : bytes * bytes := (dec (before equals l), default [] (dec <$> past equals l)).
Fixpoint enc_pairs (ps : list (bytes * bytes)) : bytes :=
  match ps with
  | [] => []
  | [p] => enc_pair p
  | p :: ps => enc_pair p ++ ampersand :: enc_pairs ps
  end.

#[local] Instance small_url : UrlLib := {|
  Url := bytes;
  url_parse l := Some l;
  url_query := past question;
  url_host_str l := idx ← find_sub (as_bytes "://") (before question l); Some (before Byte.x2f (drop (idx + 3) (before question l)));
  url_query_pairs l := match past question l with Some q => map dec_pair (split_bytes ampersand q) | None => [] end;
  url_clear_query := before question;
  url_set_pairs ps l := before question l ++ question :: enc_pairs ps;
  url_to_string l := l;
|}.

Lemma dec_enc1 b l : dec (enc1 b ++ l) = b :: dec l.
Proof. destruct b; reflexivity. Qed.
Lemma dec_enc l : dec (enc l) = l.
Proof. induction l as [|b l IH]; [done|]. cbn [enc flat_map]. rewrite dec_enc1. by f_equal. Qed.

Definition no_mark (b : byte) : bool := negb (bool_decide (b = ampersand)) && negb (bool_decide (b = equals)).
Lemma enc_no_mark l : Forall (λ b, no_mark b = true) (enc l).
Proof.
  induction l as [|b l IH]; [constructor|]. cbn [enc flat_map]. apply Forall_app. split; [|exact IH].
  destruct b; repeat constructor.
Qed.
Lemma enc_not c l : no_mark c = false → c ∉ enc l.
Proof. intros Hc Hin. pose proof (enc_no_mark l) as Hl. rewrite Forall_forall in Hl. apply Hl in Hin. congruence. Qed.

Lemma before_app c l k : c ∉ l → before c (l ++ c :: k) = l ∧ past c (l ++ c :: k) = Some k.
Proof.
  induction l as [|b l IH]; cbn; [by rewrite bool_decide_true|]. intros [Hb Hl]%not_elem_of_cons.
  rewrite bool_decide_false by done. by destruct (IH Hl) as [-> ->].
Qed.
Lemma before_not c l : c ∉ before c l.
Proof. induction l as [|b l IH]; cbn; [by apply not_elem_of_nil|]. case_bool_decide; [by apply not_elem_of_nil|]. by apply not_elem_of_cons. Qed.
Lemma past_not c l : c ∉ l → past c l = None.
Proof. induction l as [|b l IH]; [done|]. intros [Hb Hl]%not_elem_of_cons. cbn. rewrite bool_decide_false by done. auto. Qed.

Lemma dec_enc_pair p : dec_pair (enc_pair p) = p.
Proof.
  unfold dec_pair, enc_pair. destruct (before_app equals (enc p.1) (enc p.2)) as [-> ->]; [by apply enc_not|].
  cbn. rewrite !dec_enc. by destruct p.
Qed.

Lemma enc_pair_not p : ampersand ∉ enc_pair p.
Proof. unfold enc_pair. rewrite not_elem_of_app, not_elem_of_cons. split; [by apply enc_not|]. split; [done|by apply enc_not]. Qed.

Lemma dec_enc_pairs ps : ps ≠ [] → map dec_pair (split_bytes ampersand (enc_pairs ps)) = ps.
Proof.
  induction ps as [|p [|q ps] IH]; [done| |]; intros _.
  - cbn [enc_pairs]. rewrite split_bytes_no by apply enc_pair_not. cbn [map]. by rewrite dec_enc_pair.
  - change (enc_pairs (p :: q :: ps)) with (enc_pair p ++ ampersand :: enc_pairs (q :: ps)).
    rewrite split_bytes_app by apply enc_pair_not. cbn [map]. rewrite dec_enc_pair, IH by done. done.
Qed.

#[local] Instance small_url_laws : UrlLaws.
Proof.
  split; cbn [url_parse url_to_string url_query url_clear_query url_query_pairs url_set_pairs url_host_str small_url].
  - done.
  - intros u. apply past_not, before_not.
  - intros ps u Hps. destruct (before_app question (before question u) (enc_pairs ps)) as [_ ->]; [apply before_not|]. by apply dec_enc_pairs.
  - intros ps u. by destruct (before_app question (before question u) (enc_pairs ps)) as [-> _]; [apply before_not|].
Qed.

Definition cleaned (text : string) : list string :=
  map (λ p : bytes * bytes, string_of_list_byte p.2) (clean_text defaults (as_bytes text)).

(** The texts of the program's own tests. *)
Example cleaned_texts :
  cleaned "see https://example.com/page?id=42&utm_source=news&fbclid=xyz." = ["https://example.com/page?id=42"]%string ∧
  cleaned "https://www.youtube.com/watch?v=abc123&list=PL&utm_medium=x&t=30" = ["https://www.youtube.com/watch?v=abc123&t=30"]%string ∧
  cleaned "https://twitter.com/user/status/123?s=20&ref=foo" = ["https://twitter.com/user/status/123"]%string ∧
  cleaned "https://old.reddit.com/r/rust/?utm_source=share&url=keep" = ["https://old.reddit.com/r/rust/?url=keep"]%string ∧
  cleaned "https://amazon.co.uk/dp/B000?k=phone&ref=nav&s=electronics" = ["https://amazon.co.uk/dp/B000?k=phone&s=electronics"]%string ∧
  cleaned "https://example.com/clean https://twitter.com/a?s=1 https://twitter.com/a?s=1" = ["https://twitter.com/a"]%string.
Proof. repeat split; vm_compute; reflexivity. Qed.

(** The wildcard for a host wins over the rule of its base domain. *)
Example wildcard_before_base_domain :
  match_domain (mkLinkRules [] [rule "reddit.com" true []; rule "*.reddit.com" false ["url"]]%string) (as_bytes "old.reddit.com") =
  Some (mkDomainRule false [as_bytes "url"]).
Proof. vm_compute. reflexivity. Qed.

Lemma clean_text_spec_witness :
  let c := as_bytes "https://example.com/page?id=42" in
  (as_bytes "https://example.com/page?id=42&utm_source=news", c) ∈ clean_text defaults (as_bytes "see https://example.com/page?id=42&utm_source=news.") ∧
  clean_url defaults c = None.
Proof.
  cbv zeta. assert ((as_bytes "https://example.com/page?id=42&utm_source=news", as_bytes "https://example.com/page?id=42") ∈
    clean_text defaults (as_bytes "see https://example.com/page?id=42&utm_source=news.")) as Hin by (vm_compute; left).
  split; [exact Hin|]. apply (clean_text_spec defaults _ _ _ Hin).
Defined.
End LinkCleaner.
