(* ===== verification/WebAuth.v ===== *)
(** The credentials of the web administration
    ([crates/server/src/web/auth.rs]): sessions, the login throttle, the session
    cookie.

    A session is a token with the instant it expires; an instant is a number of
    nanoseconds.  The throttle counts the failures of each address.  Both live in
    [DashMap]s, whose operations are atomic: an operation is one step on the map.
    Clocks and random bytes are arguments. *)
From Stdlib Require Import NArith ZArith Lia String.
From stdpp Require Import base gmap strings list countable pretty.
From S2P Require Import Prelude Dispatch.

Module WebAuth.
Open Scope string_scope.
Open Scope list_scope.

(** Nanoseconds. *)
Definition Instant : Set := N.
Definition Duration : Set := N.
Definition from_secs (s : N) : Duration := (s * 1000000000)%N.
Definition as_secs (d : Duration) : N := (d / 1000000000)%N.

Definition SESSION_COOKIE : string := "rumble_admin_session".
Definition SESSION_TTL : Duration := from_secs (12 * 60 * 60).

(** ** Tokens and sessions *)

Definition generate_token (random : array 32) : string := string_of_list_byte (hex_bytes (arr random)).

Abbreviation Sessions := (gmap string N).
Definition Sessions_new : Sessions := ∅.

Definition create (random : array 32) (now : Instant) : ST Sessions string :=
  let token := generate_token random in
  modify (<[token := (now + SESSION_TTL)%N]>);; mret token.

Definition remove (token : string) : ST Sessions unit := modify (delete token).

Definition validate (now : Instant) (token : string) : ST Sessions bool :=
  found ← gets (λ s : Sessions, s !! token);
  match found with
  | Some expiry => if (now <? expiry)%N then mret true else remove token;; mret false
  | None => mret false
  end.

(** ** The login throttle *)

Definition MAX_LOGIN_FAILURES : N := 5.
Definition LOGIN_LOCKOUT : Duration := from_secs 60.

Inductive IpAddr := V4 (octets : array 4) | V6 (octets : array 16).

#[global] Instance IpAddr_eq_dec : EqDecision IpAddr.
Proof. solve_decision. Defined.
#[global] Program Instance IpAddr_countable : Countable IpAddr :=
  inj_countable' (λ ip, match ip with V4 a => inl a | V6 a => inr a end)
    (λ s, match s with inl a => V4 a | inr a => V6 a end) _.
Next Obligation. by intros []. Qed.

Record FailureState := mkFailureState { failures : N; locked_until : option Instant }.

Abbreviation LoginThrottle := (gmap IpAddr FailureState).
Definition LoginThrottle_new : LoginThrottle := ∅.

(** [until.checked_duration_since(now)]: [Some] also when they are equal. *)
Definition checked_duration_since (until now : Instant) : option Duration :=
  if (now <=? until)%N then Some (until - now)%N else None.

(** What is left of the lockout. *)
Definition check (ip : IpAddr) (now : Instant) (t : LoginThrottle) : option Duration :=
  entry ← t !! ip;
  until ← locked_until entry;
  checked_duration_since until now.

Definition after_failure (now : Instant) (entry : FailureState) : FailureState :=
  let entry :=
    match locked_until entry with
    | Some until => if (until <=? now)%N then mkFailureState 0 None else entry
    | None => entry
    end in
  let failures := wrap_u32 (failures entry + 1) in
  mkFailureState failures
    (if (MAX_LOGIN_FAILURES <=? failures)%N then Some (now + LOGIN_LOCKOUT)%N else locked_until entry).

Definition record_failure (ip : IpAddr) (now : Instant) : ST LoginThrottle unit :=
  modify (λ t, <[ip := after_failure now (default (mkFailureState 0 None) (t !! ip))]> t).

Definition record_success (ip : IpAddr) : ST LoginThrottle unit := modify (delete ip).

(** ** The cookie *)

(** What [HeaderValue] lets through as a string: visible ASCII, the space and
    the tab. *)
Definition header_byte (b : byte) : bool := Dispatch.in_range b 0x20 0x7e || Dispatch.in_range b 0x09 0x09.
Definition to_str (value : bytes) : option bytes := if forallb header_byte value then Some value else None.
Definition header_value_from_str (s : string) : option bytes := to_str (as_bytes s).

Definition semicolon : byte := Byte.x3b.
Definition cookie_prefix : bytes := as_bytes (SESSION_COOKIE +:+ "=").

(** The loop over the parts of the header. *)
Fixpoint find_session (parts : list bytes) : option bytes :=
  match parts with
  | [] => None
  | part :: parts =>
      match strip_prefix cookie_prefix (Dispatch.trim part) with
      | Some value => Some value
      | None => find_session parts
      end
  end.

(** [cookies] are the values of the request's [Cookie] headers; [get] takes the
    first. *)
Definition session_cookie (cookies : list bytes) : option string :=
  value ← head cookies;
  cookie_header ← to_str value;
  string_of_list_byte <$> find_session (split_bytes semicolon cookie_header).

Definition set_cookie (token : string) : string :=
  SESSION_COOKIE +:+ "=" +:+ token +:+ "; HttpOnly; SameSite=Strict; Path=/; Max-Age=" +:+ pretty (as_secs SESSION_TTL).

(** ** Lemmas *)

(** A printable character of one byte that is not white space. *)
Definition plain (b : byte) : bool := Dispatch.in_range b 0x21 0x7e.

Lemma plain_spec b : plain b = true ↔ (0x21 <= N_of_byte b <= 0x7e)%N.
Proof. unfold plain, Dispatch.in_range. rewrite andb_true_iff, !N.leb_le. done. Qed.

Lemma plain_not_ws b l : plain b = true → Dispatch.ws_len (b :: l) = 0.
Proof. destruct b; try (by vm_compute); intros _; cbn; by destruct l as [|? [|? ?]]. Qed.

Lemma plain_header b : plain b = true → header_byte b = true.
Proof. by destruct b. Qed.

Lemma hex_digit_ok n : (n < 16)%N → plain (hex_digit n) = true ∧ hex_digit n ≠ semicolon.
Proof.
  intros Hn. assert (n ∈ (N.of_nat <$> seq 0 16)) as Hin.
  { apply list_elem_of_fmap. exists (N.to_nat n). split; [by rewrite N2Nat.id|]. apply elem_of_seq. lia. }
  clear Hn. revert n Hin. apply Forall_forall. cbn. by repeat constructor.
Qed.

Lemma hex_bytes_ok l : Forall (λ b, plain b = true ∧ b ≠ semicolon) (hex_bytes l).
Proof.
  induction l as [|b l IH]; [constructor|]. cbn. pose proof (N_of_byte_bound b).
  constructor; [apply hex_digit_ok, N.Div0.div_lt_upper_bound; lia|].
  constructor; [apply hex_digit_ok, N.mod_lt; lia|done].
Qed.

Lemma length_hex_bytes l : List.length (hex_bytes l) = 2 * List.length l.
Proof. induction l as [|b l IH]; [done|]. cbn. lia. Qed.

Lemma trim_plain l : Forall (λ b, plain b = true) l → Dispatch.trim l = l.
Proof.
  assert (∀ k : bytes, Forall (λ b, plain b = true) k → Dispatch.trim_start k = k) as Hs.
  { intros [|b k]; [done|]. intros [Hb Hk]%Forall_cons. unfold Dispatch.trim_start. cbn [List.length Dispatch.trim_start_n]. by rewrite plain_not_ws. }
  intros Hl. unfold Dispatch.trim. rewrite Hs by done. induction Hl as [|b l Hb Hl IH]; [done|].
  cbn [Dispatch.trim_end]. unfold Dispatch.all_ws. rewrite Hs by (by constructor). by rewrite IH.
Qed.

Lemma trim_space l : Dispatch.trim (Byte.x20 :: l) = Dispatch.trim l.
Proof. done. Qed.

(** What a browser keeps of a [Set-Cookie] header, and the line it sends. *)
Definition cookie_pair (value : string) : bytes := default [] (head (split_bytes semicolon (as_bytes value))).
Fixpoint cookie_line (pairs : list bytes) : bytes :=
  match pairs with
  | [] => []
  | [p] => p
  | p :: pairs => p ++ semicolon :: Byte.x20 :: cookie_line pairs
  end.

(** A pair of another cookie. *)
Definition pair_ok (p : bytes) : Prop := forallb header_byte p = true ∧ semicolon ∉ p.
Definition other_cookie (p : bytes) : Prop := pair_ok p ∧ strip_prefix cookie_prefix (Dispatch.trim p) = None.

Lemma cookie_pair_set token :
  semicolon ∉ as_bytes token → cookie_pair (set_cookie token) = cookie_prefix ++ as_bytes token.
Proof.
  intros Ht.
  assert (as_bytes (set_cookie token) = (cookie_prefix ++ as_bytes token) ++ semicolon ::
    as_bytes (" HttpOnly; SameSite=Strict; Path=/; Max-Age=" +:+ pretty (as_secs SESSION_TTL))) as E.
  { unfold set_cookie, cookie_prefix. rewrite !as_bytes_app, <- !app_assoc. done. }
  unfold cookie_pair. rewrite E, split_bytes_app; [done|]. rewrite not_elem_of_app. split; [|done]. by apply (bool_decide_unpack _).
Qed.

Lemma split_cookie_line p ps :
  Forall pair_ok (p :: ps) → split_bytes semicolon (cookie_line (p :: ps)) = p :: (cons Byte.x20 <$> ps).
Proof.
  revert p. induction ps as [|q ps IH]; intros p [[_ Hp] H]%Forall_cons; [by apply split_bytes_no|].
  change (cookie_line _) with (p ++ semicolon :: Byte.x20 :: cookie_line (q :: ps)).
  rewrite split_bytes_app by done. cbn [split_bytes]. rewrite bool_decide_false by done. by rewrite IH.
Qed.

Lemma header_cookie_line ps : Forall pair_ok ps → forallb header_byte (cookie_line ps) = true.
Proof.
  induction ps as [|p ps IH]; [done|]. intros [[Hp _] H]%Forall_cons. destruct ps as [|q ps]; [done|].
  change (cookie_line _) with (p ++ semicolon :: Byte.x20 :: cookie_line (q :: ps)).
  rewrite forallb_app, Hp. cbn [forallb andb]. by rewrite IH.
Qed.

Lemma find_session_spaces ps : find_session (cons Byte.x20 <$> ps) = find_session ps.
Proof. induction ps as [|p ps IH]; [done|]. cbn [fmap list_fmap find_session]. by rewrite trim_space, IH. Qed.

Lemma find_session_app before p v after :
  Forall other_cookie before → strip_prefix cookie_prefix (Dispatch.trim p) = Some v → find_session (before ++ p :: after) = Some v.
Proof. induction 1 as [|q before [_ Hq] _ IH]; intros Hp; cbn [app find_session]; [by rewrite Hp|rewrite Hq; auto]. Qed.

Lemma session_cookie_line ps :
  ps ≠ [] → Forall pair_ok ps → session_cookie [cookie_line ps] = string_of_list_byte <$> find_session ps.
Proof.
  intros Hne Hps. unfold session_cookie. cbn [head mbind option_bind]. unfold to_str.
  rewrite header_cookie_line by done. cbn [mbind option_bind]. destruct ps as [|p ps]; [done|].
  rewrite split_cookie_line by done. cbn [find_session]. by rewrite find_session_spaces.
Qed.

Lemma plain_token random : Forall (λ b, plain b = true ∧ b ≠ semicolon) (as_bytes (generate_token random)).
Proof. unfold generate_token. rewrite as_bytes_of_list. apply hex_bytes_ok. Qed.

(** ** Theorems *)

(** The server finds the token it handed out in the line a browser sends,
    whatever other cookies are in it, provided none of those before it goes by
    the same name; and a line without it authenticates nobody. *)
Theorem session_cookie_round_trip (random : array 32) (before after : list bytes) :
  Forall other_cookie before → Forall pair_ok after →
  let token := generate_token random in
  session_cookie [cookie_line (before ++ cookie_pair (set_cookie token) :: after)] = Some token ∧
  session_cookie [cookie_line before] = None.
Proof.
  intros Hb Ha token. pose proof (plain_token random) as Ht. fold token in Ht.
  assert (semicolon ∉ as_bytes token) as Hs by (intros Hin; by rewrite Forall_forall in Ht; destruct (Ht _ Hin)).
  assert (Forall pair_ok before) as Hb' by (eapply Forall_impl; [exact Hb|by intros p []]).
  assert (Forall (λ b, plain b = true) (cookie_prefix ++ as_bytes token)) as Hp.
  { apply Forall_app. split; [by repeat constructor|]. eapply Forall_impl; [exact Ht|by intros b []]. }
  rewrite cookie_pair_set by done. split.
  - rewrite session_cookie_line; [|by destruct before|].
    + rewrite (find_session_app before _ (as_bytes token)); [|done|by rewrite trim_plain, strip_prefix_Some].
      cbn. by rewrite string_of_as_bytes.
    + apply Forall_app. split; [done|]. constructor; [|done]. split.
      * apply forallb_forall. intros b Hin%list_elem_of_In. rewrite Forall_forall in Hp. by apply plain_header, Hp.
      * rewrite not_elem_of_app. split; [by apply (bool_decide_unpack _)|done].
  - destruct before as [|p before]; [done|]. rewrite session_cookie_line by done.
    induction Hb as [|q l [_ Hq] Hl IH]; [done|]. cbn [find_session]. rewrite Hq. apply IH. by inversion Hb'.
Qed.

Lemma session_cookie_round_trip_witness :
  let token := generate_token (array_of_N 32 7) in
  session_cookie [cookie_line [as_bytes "theme=dark"; cookie_pair (set_cookie token); as_bytes "lang=en"]] = Some token.
Proof.
  refine (proj1 (session_cookie_round_trip (array_of_N 32 7) [as_bytes "theme=dark"] [as_bytes "lang=en"] _ _)).
  - repeat constructor; by apply (bool_decide_unpack _).
  - repeat constructor. by apply (bool_decide_unpack _).
Defined.
End WebAuth.
