(* ===== verification/WebAdmin.v ===== *)
(** The web administration ([crates/server/src/web/]): the handlers of [auth.rs],
    [api.rs] and [monitor.rs], the router and the admission of the admin socket of
    [mod.rs], over the shared server state.

    A request arrives with its extractors run: the path and the body are those of
    an [Endpoint], the cookies and the peer are in the [Request].  A handler is one
    step, except that [login], [bootstrap] and [set_sudo_password] hand bcrypt to
    the blocking pool: what they do before is one step and leaves a [Job], what
    they do after is the step that finishes the job, and anything may happen in
    between.  [flush] asks the store to write to disk; it has no effect here.
    bcrypt, base64 and the text of a UUID are third-party code ([WebExternal]). *)
From Stdlib Require Import NArith ZArith Lia String.
From stdpp Require Import base gmap strings list pretty.
From S2P Require Import Prelude Permissions Proto Types Store Wire Persistence State World Acl Session Ops Dispatch WebAuth.

(** Third-party code the web administration calls. *)
Class WebExternal := {
  (** [bcrypt::hash], with the salt it draws. *)
  ext_bcrypt_hash : array 16 → string → result string;
  (** [Engine::decode] of [STANDARD] and [URL_SAFE_NO_PAD], and the encoder of the latter. *)
  ext_b64_standard : string → result bytes;
  ext_b64_url : string → result bytes;
  ext_b64_url_encode : bytes → string;
  ext_parse_uuid : string → option Types.Uuid;
  ext_uuid_string : Types.Uuid → string;
}.

Module WebAdmin.
Open Scope string_scope.
Open Scope list_scope.

(** ** What is exchanged ([crates/rumble-web-types/src/lib.rs]) *)

Record BootstrapRequest := mkBootstrapRequest {
  br_setup_token : string;
  br_sudo_password : string;
  br_admin_public_key_b64 : option string;
}.
Record AclEntryDto := mkAclEntryDto {
  ad_group : string; ad_grant : N; ad_deny : N; ad_apply_here : bool; ad_apply_subs : bool;
}.
Record CreateRoomRequest := mkCreateRoomRequest {
  cr_name : string; cr_parent_id : option string; cr_description : option string;
}.
Record SetRoomAclRequest := mkSetRoomAclRequest {
  sr_inherit_acl : bool; sr_entries : list AclEntryDto; sr_base_version : N;
}.
Record SetUserGroupRequest := mkSetUserGroupRequest {
  sg_group : string; sg_add : bool; sg_expires_at : N;
}.
Record GroupDto := mkGroupDto { gd_name : string; gd_permissions : N; gd_is_builtin : bool }.
Record RoomDto := mkRoomDto {
  rd_id : string;
  rd_name : string;
  rd_parent_id : option string;
  rd_description : option string;
  rd_inherit_acl : bool;
  rd_acls : list AclEntryDto;
  rd_acl_version : N;
}.
Record UserDto := mkUserDto {
  ud_user_id : N;
  ud_username : string;
  ud_room_id : option string;
  ud_is_muted : bool;
  ud_is_deafened : bool;
  ud_server_muted : bool;
  ud_is_elevated : bool;
  ud_groups : list string;
  ud_is_registered : bool;
}.
Record RegisteredUserDto := mkRegisteredUserDto {
  ru_public_key : string; ru_username : string; ru_groups : list string; ru_online : bool;
}.
Record StateSnapshot := mkStateSnapshot {
  ss_client_count : nat;
  ss_users : list UserDto;
  ss_rooms : list RoomDto;
  ss_groups : list GroupDto;
  ss_registered_users : list RegisteredUserDto;
}.

Inductive Body :=
  | OkMessage (message : string)
  | SessionInfo (authenticated needs_bootstrap : bool)
  | Snapshot (s : StateSnapshot)
  | Groups (l : list GroupDto)
  | Rooms (l : list RoomDto)
  | ApiError (error : string)
  (** an extractor of axum refused the request *)
  | Rejection.

Record Response := mkResponse { status : N; body : Body; set_cookie_header : option bytes }.

Record ApiErrorResponse := mkApiErrorResponse { e_status : N; e_message : string }.
Definition bad_request (message : string) : ApiErrorResponse := mkApiErrorResponse 400 message.
Definition unauthorized : ApiErrorResponse := mkApiErrorResponse 401 "Not authenticated".
Definition forbidden (message : string) : ApiErrorResponse := mkApiErrorResponse 403 message.
Definition conflict (message : string) : ApiErrorResponse := mkApiErrorResponse 409 message.
Definition too_many_requests (message : string) : ApiErrorResponse := mkApiErrorResponse 429 message.
Definition internal (message : string) : ApiErrorResponse := mkApiErrorResponse 500 message.

Inductive ApiResult (A : Type) := Json (a : A) | Failed (e : ApiErrorResponse).
Arguments Json {A}. Arguments Failed {A}.

Definition error_response (e : ApiErrorResponse) : Response := mkResponse (e_status e) (ApiError (e_message e)) None.
Definition into_response (r : ApiResult Body) : Response :=
  match r with
  | Json b => mkResponse 200 b None
  | Failed e => error_response e
  end.

(** ** The state *)

(** What waits for the blocking pool. *)
Inductive Job :=
  | Verify (ip : WebAuth.IpAddr) (password hash : string)
  | BootstrapHash (req : BootstrapRequest)
  | SudoHash (password : string).

(** What a handler reads from its surroundings: the clocks, random values,
    whether the file system lets it unlink a file, and why the task on the
    blocking pool did not come back, if it did not. *)
Record Env := mkEnv {
  now : WebAuth.Instant;
  now_secs : N;
  new_uuid : Types.Uuid;
  random : array 32;
  salt : array 16;
  unlink_ok : bool;
  join_error : option string;
}.

(** The extensions and headers of a request that extractors look at. *)
Record Parts := mkParts { local_socket : bool; connect_info : option WebAuth.IpAddr; cookies : list bytes }.

Inductive Endpoint :=
  | GetSession
  | Login (password : string)
  | Logout
  | Bootstrap (req : BootstrapRequest)
  | GetState
  | GetGroups
  | CreateGroup (name : string) (permissions : N)
  | ModifyGroup (name : string) (permissions : N)
  | DeleteGroup (name : string)
  | ToggleGroupPermission (name : string) (bits : N) (enable : bool)
  | GetRooms
  | CreateRoom (req : CreateRoomRequest)
  | DeleteRoom (uuid : string)
  | SetRoomAcl (uuid : string) (req : SetRoomAclRequest)
  | KickUser (id : N) (reason : string)
  | BanUser (id duration_seconds : N) (reason : string)
  | RegisterUser (id : N)
  | UnregisterUser (id : N)
  | SetUserGroup (id : N) (req : SetUserGroupRequest)
  | SetRegisteredUserGroup (key_b64 : string) (req : SetUserGroupRequest)
  | SetSudoPassword (password : string)
  | AddController (public_key_b64 : string)
  | SetParticipantGroup (key_b64 : string) (group : option string).

(** Where a connection comes from: the HTTP listener, or the admin socket with
    the user id the kernel reports for the peer. *)
Inductive Peer := Tcp (ip : WebAuth.IpAddr) | UnixSocket (uid : option N).
Record Request := mkRequest { peer : Peer; rq_cookies : list bytes; endpoint : Endpoint }.

Inductive Outcome := Now (r : Response) | Blocking (j : Job).

(** [WebState], and the files it writes. *)
Record Web (T : Type) := mkWeb {
  world : Wld.World T;
  sessions : WebAuth.Sessions;
  login_throttle : WebAuth.LoginThrottle;
  setup_token : string;
  setup_token_file : option string;
  files : gset string;
}.
Arguments mkWeb {T}. Arguments world {T}. Arguments sessions {T}. Arguments login_throttle {T}.
Arguments setup_token {T}. Arguments setup_token_file {T}. Arguments files {T}.

Section web.
Context {T : Type} `{!KV T} `{!Persist.Codecs} `{!External} `{!WebExternal}.
Abbreviation W := (Wld.World T).
Abbreviation S := (Web T).

Definition on_world {A} (m : ST W A) : ST S A := λ s,
  let '(a, w) := m (world s) in
  (a, mkWeb w (sessions s) (login_throttle s) (setup_token s) (setup_token_file s) (files s)).
Definition on_sessions {A} (m : ST WebAuth.Sessions A) : ST S A := λ s,
  let '(a, t) := m (sessions s) in
  (a, mkWeb (world s) t (login_throttle s) (setup_token s) (setup_token_file s) (files s)).
Definition on_throttle {A} (m : ST WebAuth.LoginThrottle A) : ST S A := λ s,
  let '(a, t) := m (login_throttle s) in
  (a, mkWeb (world s) (sessions s) t (setup_token s) (setup_token_file s) (files s)).
Definition on_store {A} (m : ST (Persist.Persistence T) A) : ST S A := on_world (Wld.on_persist m).

Definition persistence (s : S) : Persist.Persistence T := Wld.persistence (world s).
Definition sudo_hash (s : S) : option string := Persist.get_sudo_password (persistence s).

(** [r?] and [m.map_err(f)?] in a handler. *)
Definition api_try {A B} (m : ST S (ApiResult A)) (k : A → ST S (ApiResult B)) : ST S (ApiResult B) :=
  r ← m;
  match r with Json a => k a | Failed e => mret (Failed e) end.
Definition or_fail {A B} (f : string → ApiErrorResponse) (r : result A) (k : A → ST S (ApiResult B)) : ST S (ApiResult B) :=
  match r with Ok a => k a | Err e => mret (Failed (f e)) end.

Definition ok (message : string) : ST S (ApiResult Body) := mret (Json (OkMessage message)).

(** [map_op(m)?]. *)
Definition map_op {A} (m : ST W (result A)) (k : A → ST S (ApiResult Body)) : ST S (ApiResult Body) :=
  r ← on_world m;
  or_fail bad_request r k.

Definition parse_room_uuid {A} (s : string) (k : Types.Uuid → ST S (ApiResult A)) : ST S (ApiResult A) :=
  match ext_parse_uuid s with
  | Some uuid => k uuid
  | None => mret (Failed (bad_request "Invalid room UUID"))
  end.

Definition try_into_key {A} (bs : bytes) (k : Types.PublicKey → ST S (ApiResult A)) : ST S (ApiResult A) :=
  match array_of_slice 32 bs with
  | Some key => k key
  | None => mret (Failed (bad_request "Public key must be 32 bytes"))
  end.
Definition decode_public_key {A} (s : string) (k : Types.PublicKey → ST S (ApiResult A)) : ST S (ApiResult A) :=
  or_fail (λ _, bad_request "Invalid public key") (ext_b64_url s) (λ bs, try_into_key bs k).
Definition str_trim (s : string) : string := string_of_list_byte (Dispatch.trim (as_bytes s)).
Definition decode_standard_public_key {A} (s : string) (k : Types.PublicKey → ST S (ApiResult A)) : ST S (ApiResult A) :=
  or_fail (λ _, bad_request "Invalid base64 public key") (ext_b64_standard (str_trim s)) (λ bs, try_into_key bs k).

(** [std::fs::remove_file], whether it worked. *)
Definition remove_file (unlink_ok : bool) (path : string) : ST S bool := λ s,
  if unlink_ok && bool_decide (path ∈ files s)
  then (true, mkWeb (world s) (sessions s) (login_throttle s) (setup_token s) (setup_token_file s) (files s ∖ {[ path ]}))
  else (false, s).
Definition drop_token_file (e : Env) : ST S unit :=
  path ← gets setup_token_file;
  match path with
  | Some path => _ ← remove_file (unlink_ok e) path; mret tt
  | None => mret tt
  end.

(** ** [auth.rs] *)

(** The extractor [Admin], and a handler that takes it. *)
Definition from_request_parts (e : Env) (parts : Parts) : ST S bool :=
  if local_socket parts then mret true
  else match WebAuth.session_cookie (cookies parts) with
       | Some token => on_sessions (WebAuth.validate (now e) token)
       | None => mret false
       end.
Definition with_admin {A} (e : Env) (parts : Parts) (body : ST S (ApiResult A)) : ST S (ApiResult A) :=
  admin ← from_request_parts e parts;
  if admin : bool then body else mret (Failed unauthorized).

Definition session_info (e : Env) (parts : Parts) : ST S (ApiResult Body) :=
  authenticated ← match WebAuth.session_cookie (cookies parts) with
                  | Some token => on_sessions (WebAuth.validate (now e) token)
                  | None => mret false
                  end;
  hash ← gets sudo_hash;
  mret (Json (SessionInfo authenticated (bool_decide (hash = None)))).

(** [login] up to the blocking call. *)
Definition login (e : Env) (parts : Parts) (password : string) : ST S Outcome :=
  match connect_info parts with
  | None => mret (Now (mkResponse 500 Rejection None))
  | Some ip =>
      locked ← gets (λ s, WebAuth.check ip (now e) (login_throttle s));
      match locked with
      | Some retry_after =>
          mret (Now (error_response (too_many_requests
            ("Too many failed login attempts; try again in " +:+ pretty (WebAuth.as_secs retry_after + 1)%N +:+ "s"))))
      | None =>
          hash ← gets sudo_hash;
          match hash with
          | None => mret (Now (error_response (bad_request "Sudo password not configured; bootstrap required")))
          | Some hash => mret (Blocking (Verify ip password hash))
          end
      end
  end.

(** The rest of [login]. *)
Definition login_end (e : Env) (ip : WebAuth.IpAddr) (password hash : string) : ST S Response :=
  match join_error e with
  | Some err => mret (error_response (internal ("Password verification task failed: " +:+ err)))
  | None =>
      match ext_bcrypt_verify password hash with
      | Err err => mret (error_response (internal ("Password verification failed: " +:+ err)))
      | Ok true =>
          on_throttle (WebAuth.record_success ip);;
          token ← on_sessions (WebAuth.create (random e) (now e));
          mret (mkResponse 200 (OkMessage "Logged in") (WebAuth.header_value_from_str (WebAuth.set_cookie token)))
      | Ok false =>
          on_throttle (WebAuth.record_failure ip (now e));;
          mret (error_response unauthorized)
      end
  end.

Definition logout (parts : Parts) : ST S (ApiResult Body) :=
  match WebAuth.session_cookie (cookies parts) with
  | Some token => on_sessions (WebAuth.remove token)
  | None => mret tt
  end;;
  ok "Logged out".

(** [bootstrap] up to the blocking call. *)
Definition bootstrap (req : BootstrapRequest) : ST S Outcome :=
  hash ← gets sudo_hash;
  token ← gets setup_token;
  mret (if bool_decide (is_Some hash) then Now (error_response (conflict "Already bootstrapped"))
        else if negb (String.eqb (br_setup_token req) token) then Now (error_response unauthorized)
        else if str_is_empty (br_sudo_password req) then Now (error_response (bad_request "Sudo password cannot be empty"))
        else Blocking (BootstrapHash req)).

(** The key it seeds into the group of admins, if any. *)
Definition seed_admin (key_b64 : option string) : ST S (ApiResult unit) :=
  match key_b64 with
  | None => mret (Json tt)
  | Some key_b64 =>
      if str_is_empty key_b64 then mret (Json tt)
      else
        or_fail (λ err, bad_request ("Invalid base64 public key: " +:+ err)) (ext_b64_standard key_b64) (λ key_bytes,
        try_into_key key_bytes (λ key,
        _ ← on_store Persist.ensure_default_groups;
        added ← on_store (Persist.add_user_to_group key "admin");
        or_fail (λ err, bad_request ("Failed to add admin: " +:+ err)) added (λ _, mret (Json tt))))
  end.

(** The rest of [bootstrap]. *)
Definition bootstrap_end (e : Env) (req : BootstrapRequest) : ST S (ApiResult Body) :=
  match join_error e with
  | Some err => mret (Failed (internal ("Hashing task failed: " +:+ err)))
  | None =>
      or_fail (λ err, bad_request ("Failed to hash password: " +:+ err)) (ext_bcrypt_hash (salt e) (br_sudo_password req)) (λ hash,
      stored ← on_store (Persist.set_sudo_password hash);
      or_fail (λ err, bad_request ("Failed to set sudo password: " +:+ err)) stored (λ _,
      api_try (seed_admin (br_admin_public_key_b64 req)) (λ _,
      drop_token_file e;;
      ok "Bootstrap complete")))
  end.

(** ** [monitor.rs] *)

Definition acl_entry_dto (a : Types.RoomAclEntry) : AclEntryDto :=
  mkAclEntryDto (Types.ae_group a) (Types.ae_grant a) (Types.ae_deny a) (Types.ae_apply_here a) (Types.ae_apply_subs a).

Definition room_dto (r : Types.Room) : RoomDto :=
  mkRoomDto (ext_uuid_string (Types.room_id r)) (Types.room_name r)
    (if bool_decide (Types.room_parent r = Types.ROOT_ROOM_UUID) then None else Some (ext_uuid_string (Types.room_parent r)))
    (Types.room_description r) (Types.room_inherit_acl r) (map acl_entry_dto (Types.room_acls r))
    (Wire.room_acl_version ext_blake3 (Types.room_inherit_acl r) (Types.room_acls r)).

Definition group_dtos (p : Persist.Persistence T) : list GroupDto :=
  map (λ '(name, g), mkGroupDto name (Persist.permissions g) (contains Ops.BUILTIN_GROUPS name)) (Persist.list_groups p).

Definition user_dto (w : W) (client : N) : option UserDto :=
  if negb (St.authenticated (Wld.handle_at w client)) then None
  else
    let status := St.get_user_status (Wld.data w) client in
    let is_registered := match St.get_user_public_key (Wld.server w) client with
                         | Some key => Persist.is_registered (Wld.persistence w) key
                         | None => false
                         end in
    Some (mkUserDto client (Wld.get_username w client) (ext_uuid_string <$> St.get_user_room (Wld.data w) client)
            (St.us_is_muted status) (St.us_is_deafened status) (St.server_muted (Wld.handle_at w client))
            (St.is_superuser (Wld.handle_at w client)) (St.id_groups (Wld.identity_of w client)) is_registered).

Definition registered_dto (w : W) (online_keys : list Types.PublicKey) (e : Types.PublicKey * Persist.RegisteredUser)
    : RegisteredUserDto :=
  mkRegisteredUserDto (ext_b64_url_encode (arr e.1)) (Persist.username e.2)
    (Persist.get_user_groups (Wld.persistence w) e.1) (contains online_keys e.1).

Definition snapshot (w : W) : StateSnapshot :=
  let clients := St.snapshot_clients (Wld.server w) in
  let online_keys := omap (St.get_user_public_key (Wld.server w)) clients in
  mkStateSnapshot (St.client_count (Wld.server w)) (omap (user_dto w) clients)
    (map room_dto (St.rooms (Wld.data w))) (group_dtos (Wld.persistence w))
    (map (registered_dto w online_keys) (Persist.list_registered_users (Wld.persistence w))).

Definition state_snapshot (e : Env) (parts : Parts) : ST S (ApiResult Body) :=
  with_admin e parts (s ← gets (λ s, snapshot (world s)); mret (Json (Snapshot s))).
Definition list_groups (e : Env) (parts : Parts) : ST S (ApiResult Body) :=
  with_admin e parts (l ← gets (λ s, group_dtos (persistence s)); mret (Json (Groups l))).
Definition list_rooms (e : Env) (parts : Parts) : ST S (ApiResult Body) :=
  with_admin e parts (l ← gets (λ s, map room_dto (St.rooms (Wld.data (world s)))); mret (Json (Rooms l))).

(** ** [api.rs] *)

Definition WEB_ACTOR : string := "web-admin".

Definition create_group (e : Env) (parts : Parts) (name : string) (permissions : N) : ST S (ApiResult Body) :=
  with_admin e parts (map_op (Ops.apply_create_group name permissions) ok).

Definition modify_group (e : Env) (parts : Parts) (name : string) (permissions : N) : ST S (ApiResult Body) :=
  with_admin e parts (map_op (Ops.apply_modify_group name permissions) ok).

Definition toggle_group_permission (e : Env) (parts : Parts) (name : string) (bits : N) (enable : bool)
    : ST S (ApiResult Body) :=
  with_admin e parts (map_op (Ops.apply_toggle_group_permission name bits enable) ok).

Definition delete_group (e : Env) (parts : Parts) (name : string) : ST S (ApiResult Body) :=
  with_admin e parts (map_op (Ops.apply_delete_group name) ok).

Definition create_room (e : Env) (parts : Parts) (req : CreateRoomRequest) : ST S (ApiResult Body) :=
  let go parent_uuid :=
    map_op (Ops.apply_create_room (new_uuid e) (cr_name req) parent_uuid (cr_description req))
      (λ uuid, ok (ext_uuid_string uuid)) in
  with_admin e parts
    match cr_parent_id req with
    | Some p => parse_room_uuid p (λ uuid, go (Some uuid))
    | None => go None
    end.

Definition delete_room (e : Env) (parts : Parts) (uuid : string) : ST S (ApiResult Body) :=
  with_admin e parts (parse_room_uuid uuid (λ room_uuid,
    map_op (Ops.apply_delete_room room_uuid) (λ name, ok ("Deleted room '" +:+ name +:+ "'")))).

Definition acl_entry_of_dto (a : AclEntryDto) : Types.RoomAclEntry :=
  Types.mkRoomAclEntry (ad_group a) (ad_grant a) (ad_deny a) (ad_apply_here a) (ad_apply_subs a).

Definition set_room_acl (e : Env) (parts : Parts) (uuid : string) (req : SetRoomAclRequest) : ST S (ApiResult Body) :=
  with_admin e parts (parse_room_uuid uuid (λ room_uuid,
    map_op (Ops.apply_set_room_acl room_uuid (sr_inherit_acl req) (map acl_entry_of_dto (sr_entries req))
              (sr_base_version req)) ok)).

Definition kick_user (e : Env) (parts : Parts) (id : N) (reason : string) : ST S (ApiResult Body) :=
  with_admin e parts (map_op (Ops.apply_kick id reason WEB_ACTOR) ok).

Definition ban_user (e : Env) (parts : Parts) (id duration_seconds : N) (reason : string) : ST S (ApiResult Body) :=
  with_admin e parts (map_op (Ops.apply_ban (now_secs e) id duration_seconds reason WEB_ACTOR) ok).

Definition register_user (e : Env) (parts : Parts) (id : N) : ST S (ApiResult Body) :=
  with_admin e parts (map_op (Ops.apply_register_user id) ok).

Definition unregister_user (e : Env) (parts : Parts) (id : N) : ST S (ApiResult Body) :=
  with_admin e parts (map_op (Ops.apply_unregister_user id) ok).

Definition set_user_group (e : Env) (parts : Parts) (id : N) (req : SetUserGroupRequest) : ST S (ApiResult Body) :=
  with_admin e parts (map_op (Ops.apply_set_user_group id (sg_group req) (sg_add req) (sg_expires_at req)) ok).

Definition set_registered_user_group (e : Env) (parts : Parts) (key_b64 : string) (req : SetUserGroupRequest)
    : ST S (ApiResult Body) :=
  with_admin e parts (decode_public_key key_b64 (λ key,
    map_op (Ops.apply_set_user_group_by_key key (sg_group req) (sg_add req) (sg_expires_at req)) ok)).

(** [set_sudo_password] up to the blocking call. *)
Definition set_sudo_password (e : Env) (parts : Parts) (password : string) : ST S Outcome :=
  admin ← from_request_parts e parts;
  mret (if negb admin then Now (error_response unauthorized)
        else if str_is_empty password then Now (error_response (bad_request "Password cannot be empty"))
        else Blocking (SudoHash password)).

(** The rest of [set_sudo_password]. *)
Definition set_sudo_password_end (e : Env) (password : string) : ST S (ApiResult Body) :=
  match join_error e with
  | Some err => mret (Failed (internal ("Hashing task failed: " +:+ err)))
  | None =>
      or_fail (λ err, internal ("Failed to hash password: " +:+ err)) (ext_bcrypt_hash (salt e) password) (λ hash,
      stored ← on_store (Persist.set_sudo_password hash);
      or_fail (λ err, internal ("Failed to set sudo password: " +:+ err)) stored (λ _,
      drop_token_file e;;
      ok "Sudo password set"))
  end.

Definition add_controller (e : Env) (parts : Parts) (public_key_b64 : string) : ST S (ApiResult Body) :=
  with_admin e parts (decode_standard_public_key public_key_b64 (λ key, map_op (Ops.apply_add_controller key) ok)).

Definition set_participant_group (e : Env) (parts : Parts) (key_b64 : string) (group : option string) : ST S (ApiResult Body) :=
  with_admin e parts (decode_public_key key_b64 (λ key,
    missing ← gets (λ s, match group with
                         | Some g => bool_decide (Persist.get_group (persistence s) g = None)
                         | None => false
                         end);
    if missing : bool
    then mret (Failed (bad_request ("Group '" +:+ default "" group +:+ "' does not exist")))
    else
      stored ← on_store (Persist.set_participant_default_group key group);
      or_fail (λ err, internal ("Failed to persist participant group: " +:+ err)) stored (λ _,
      ok match group with
         | Some g => "Controller participants now inherit group '" +:+ g +:+ "'"
         | None => "Controller participant group cleared"
         end))).

(** ** [mod.rs]: the router, the admin socket, the tasks *)

Definition respond (m : ST S (ApiResult Body)) : ST S Outcome := r ← m; mret (Now (into_response r)).

Definition router (e : Env) (parts : Parts) (ep : Endpoint) : ST S Outcome :=
  match ep with
  | GetSession => respond (session_info e parts)
  | Login password => login e parts password
  | Logout => respond (logout parts)
  | Bootstrap req => bootstrap req
  | GetState => respond (state_snapshot e parts)
  | GetGroups => respond (list_groups e parts)
  | CreateGroup name permissions => respond (create_group e parts name permissions)
  | ModifyGroup name permissions => respond (modify_group e parts name permissions)
  | DeleteGroup name => respond (delete_group e parts name)
  | ToggleGroupPermission name bits enable => respond (toggle_group_permission e parts name bits enable)
  | GetRooms => respond (list_rooms e parts)
  | CreateRoom req => respond (create_room e parts req)
  | DeleteRoom uuid => respond (delete_room e parts uuid)
  | SetRoomAcl uuid req => respond (set_room_acl e parts uuid req)
  | KickUser id reason => respond (kick_user e parts id reason)
  | BanUser id duration reason => respond (ban_user e parts id duration reason)
  | RegisterUser id => respond (register_user e parts id)
  | UnregisterUser id => respond (unregister_user e parts id)
  | SetUserGroup id req => respond (set_user_group e parts id req)
  | SetRegisteredUserGroup key req => respond (set_registered_user_group e parts key req)
  | SetSudoPassword password => set_sudo_password e parts password
  | AddController key => respond (add_controller e parts key)
  | SetParticipantGroup key group => respond (set_participant_group e parts key group)
  end.

(** The middleware of the admin socket. *)
Definition uid_admitted (server_uid : N) (uid : option N) : bool :=
  match uid with Some uid => (uid =? server_uid)%N || (uid =? 0)%N | None => false end.

Definition serve (server_uid : N) (e : Env) (rq : Request) : ST S Outcome :=
  match peer rq with
  | Tcp ip => router e (mkParts false (Some ip) (rq_cookies rq)) (endpoint rq)
  | UnixSocket uid =>
      if uid_admitted server_uid uid then router e (mkParts true None (rq_cookies rq)) (endpoint rq)
      else mret (Now (error_response (forbidden "admin socket: peer uid not authorized")))
  end.

Definition finish (e : Env) (j : Job) : ST S Response :=
  match j with
  | Verify ip password hash => login_end e ip password hash
  | BootstrapHash req => r ← bootstrap_end e req; mret (into_response r)
  | SudoHash password => r ← set_sudo_password_end e password; mret (into_response r)
  end.

(** How far writing the token file got. *)
Inductive Written := NotCreated | Created | Complete.

(** [spawn]: the token, and the file that publishes it when there is an HTTP
    listener ([token_path]) and the server needs bootstrap. *)
Definition spawn (w : W) (existing : gset string) (pinned : option string) (rand : array 32)
    (token_path : option string) (unlink_ok : bool) (written : Written) : S :=
  let token_is_pinned := match pinned with Some t => negb (str_is_empty t) | None => false end in
  let token := if token_is_pinned then default "" pinned else WebAuth.generate_token rand in
  let start f file := mkWeb w WebAuth.Sessions_new WebAuth.LoginThrottle_new token f file in
  match token_path with
  | None => start None existing
  | Some path =>
      if bool_decide (is_Some (Persist.get_sudo_password (Wld.persistence w)))
      then start None (if unlink_ok then existing ∖ {[ path ]} else existing)
      else if token_is_pinned then start None existing
      else match written with
           | NotCreated => start None existing
           | Created => start None ({[ path ]} ∪ existing)
           | Complete => start (Some path) ({[ path ]} ∪ existing)
           end
  end.

(** ** Runs *)

(** The state of the web server and the jobs that wait, by a number. *)
Record Sys := mkSys { web : S; jobs : gmap N Job; next_job : N }.

Inductive Event :=
  | Arrive (rq : Request) (e : Env)
  | Finish (job : N) (e : Env)
  (** the rest of the server ran; it does not write the tree of the password *)
  | Elsewhere (w : W).

Definition instant (ev : Event) : option WebAuth.Instant :=
  match ev with Arrive _ e | Finish _ e => Some (now e) | Elsewhere _ => None end.

Definition elsewhere (w' : W) (s : S) : S :=
  mkWeb (Wld.with_persistence (Persist.set_tree Persist.TSudo (Persist.get_tree Persist.TSudo (persistence s))) w')
    (sessions s) (login_throttle s) (setup_token s) (setup_token_file s) (files s).

Definition step (server_uid : N) (ev : Event) (y : Sys) : option Response * Sys :=
  match ev with
  | Arrive rq e =>
      match serve server_uid e rq (web y) with
      | (Now r, s) => (Some r, mkSys s (jobs y) (next_job y))
      | (Blocking j, s) => (None, mkSys s (<[next_job y := j]> (jobs y)) (next_job y + 1))
      end
  | Finish id e =>
      match jobs y !! id with
      | Some j => let '(r, s) := finish e j (web y) in (Some r, mkSys s (delete id (jobs y)) (next_job y))
      | None => (None, y)
      end
  | Elsewhere w => (None, mkSys (elsewhere w (web y)) (jobs y) (next_job y))
  end.

Fixpoint run (server_uid : N) (evs : list Event) (y : Sys) : Sys :=
  match evs with
  | [] => y
  | ev :: evs => run server_uid evs (step server_uid ev y).2
  end.

Definition booted (s : S) : Sys := mkSys s ∅ 0.
End web.
End WebAdmin.
