(* ===== verification/WebOps.v ===== *)
(** The web administration against the rest of the server: an admin's request
    and the same command over the protocol ([web_path_is_protocol_path]); the
    editor of a room's rules ([acl_editor_spec]); and concrete runs, with the
    witnesses of WebFacts. *)
From Stdlib Require Import NArith ZArith Lia String.
From stdpp Require Import base gmap strings list pretty.
From S2P Require Import Prelude Permissions Proto Types Store Wire Persistence State World Acl Session Ops Auth Handlers Dispatch WebAuth WebAdmin WebFacts.

Module WebOps.
Import WebAdmin WebFacts.
Open Scope string_scope.
Open Scope nat_scope.
Open Scope list_scope.

Section ops.
Context {T : Type} `{!KV T} `{!Persist.Codecs} `{!External} `{!WebExternal}.
Abbreviation W := (Wld.World T).
Abbreviation S := (Web T).

(** ** Two ways to an operation *)

(** What a handler of a mutating endpoint does for an admin. *)
Lemma admin_op {A} e parts (m : ST W (result A)) (f : A → string) (s : S) :
  admitted e parts s = true →
  let o := respond (with_admin e parts (map_op m (λ a, ok (f a)))) s in
  o.1 = Now (match (m (world s)).1 with Ok a => mkResponse 200 (OkMessage (f a)) None | Err x => error_response (bad_request x) end) ∧
  world o.2 = (m (world s)).2.
Proof.
  intros Ha. cbv zeta. unfold respond. rewrite seq_run, with_admin_run, Ha. unfold map_op. rewrite seq_run, on_world_run.
  rewrite (proj2 (admin_run e parts s)). cbn. by destruct (m (world s)) as [[a|x] w].
Qed.

(** The command that asks for the same over the protocol, by its name, for a
    sender in a world; a kick or a ban is signed with the sender's name and must
    not hit the sender. *)
Definition protocol_twin (e : Env) (sender : N) (w : W) (ep : Endpoint) : option (string * ST W (result unit)) :=
  let signed id := negb (id =? sender)%N && String.eqb (Wld.get_username w sender) WEB_ACTOR in
  match ep with
  | CreateGroup name p => Some ("CreateGroup", Handlers.handle_create_group name p sender)
  | ModifyGroup name p => Some ("ModifyGroup", Handlers.handle_modify_group name p sender)
  | DeleteGroup name => Some ("DeleteGroup", Handlers.handle_delete_group name sender)
  | ToggleGroupPermission name bits enable =>
      Some ("ToggleGroupPermission", Handlers.handle_toggle_group_permission name bits enable sender)
  | CreateRoom req =>
      parent ← match cr_parent_id req with Some p => Some <$> ext_parse_uuid p | None => Some None end;
      Some ("CreateRoom", Handlers.handle_create_room (new_uuid e)
              (Proto.mkCreateRoom (cr_name req) (Types.room_id_from_uuid <$> parent) (cr_description req)) sender)
  | DeleteRoom uuid =>
      room ← ext_parse_uuid uuid;
      Some ("DeleteRoom", Handlers.handle_delete_room (Some (Types.room_id_from_uuid room)) sender)
  | SetRoomAcl uuid req =>
      room ← ext_parse_uuid uuid;
      Some ("SetRoomAcl", Handlers.handle_set_room_acl (Proto.mkSetRoomAcl (arr room) (sr_inherit_acl req)
              (map (λ a, Types.acl_entry_to_proto (acl_entry_of_dto a)) (sr_entries req)) (sr_base_version req)) sender)
  | KickUser id reason => if signed id then Some ("KickUser", Handlers.handle_kick_user id reason sender) else None
  | BanUser id duration reason =>
      if signed id then Some ("BanUser", Handlers.handle_ban_user (now_secs e) id reason duration sender) else None
  | RegisterUser id => Some ("RegisterUser", Handlers.handle_register_user (Some (Proto.mkUserId id)) sender)
  | UnregisterUser id => Some ("UnregisterUser", Handlers.handle_unregister_user (Some (Proto.mkUserId id)) sender)
  | SetUserGroup id req =>
      Some ("SetUserGroup", Handlers.handle_set_user_group id (sg_group req) (sg_add req) (sg_expires_at req) sender)
  | SetRegisteredUserGroup key req =>
      bs ← Prelude.ok (ext_b64_url key);
      k ← array_of_slice 32 bs;
      Some ("SetRegisteredUserGroup",
            Handlers.handle_set_registered_user_group (arr k) (sg_group req) (sg_add req) (sg_expires_at req) sender)
  | _ => None
  end.

(** The same change, answered in the way of each side. *)
Definition agrees (sender : N) (ep : Endpoint) (cmd : string) (o : Outcome * S) (h : result unit * W) : Prop :=
  ∃ good text shown,
    h = (Ok tt, (Auth.send_command_result sender cmd good text (world o.2)).2) ∧
    o.1 = Now (if good : bool then mkResponse 200 (OkMessage shown) None else mkResponse 400 (ApiError text) None) ∧
    (shown = text ∨ ∃ req, ep = CreateRoom req).

Lemma send_result_ok sender cmd b text (w : W) : (Auth.send_command_result sender cmd b text w).1 = Ok tt.
Proof. unfold Auth.send_command_result. by rewrite seq_run. Qed.

Lemma send_result_run sender cmd b text (w : W) :
  Auth.send_command_result sender cmd b text w = (Ok tt, (Auth.send_command_result sender cmd b text w).2).
Proof. rewrite <- (send_result_ok sender cmd b text w). apply surjective_pairing. Qed.

Lemma agrees_of {A} e parts (m : ST W (result A)) (f g : A → string) sender ep cmd (s : S) :
  admitted e parts s = true →
  ((∀ a, f a = g a) ∨ ∃ req, ep = CreateRoom req) →
  agrees sender ep cmd (respond (with_admin e parts (map_op m (λ a, ok (f a)))) s)
    (match (m (world s)).1 with
     | Ok a => Auth.send_command_result sender cmd true (g a) (m (world s)).2
     | Err x => Auth.send_command_result sender cmd false x (m (world s)).2
     end).
Proof.
  intros Ha Hfg. destruct (admin_op e parts m f s Ha) as [Ho Hw]. unfold agrees. rewrite Ho, Hw.
  destruct (m (world s)).1 as [a|x].
  - exists true, (g a), (f a). split; [apply send_result_run|]. split; [done|]. destruct Hfg as [->|?]; [by left|by right].
  - exists false, x, x. split; [apply send_result_run|]. split; [done|by left].
Qed.

Lemma reply_agrees e parts m sender ep cmd (s : S) :
  admitted e parts s = true →
  agrees sender ep cmd (respond (with_admin e parts (map_op m ok)) s) (Handlers.reply sender cmd m (world s)).
Proof.
  intros Ha. unfold Handlers.reply. rewrite seq_run. apply (agrees_of e parts m (λ a, a) (λ a, a)) with (sender := sender) (ep := ep) (cmd := cmd) in Ha; [|by left].
  by destruct (m (world s)).1.
Qed.

Lemma superuser_granted (w : W) sender room required body :
  St.is_superuser (Wld.handle_at w sender) = true → Perm.contains Perm.ALL required = true →
  Handlers.require_permission sender room required body w = body w.
Proof.
  intros Hs Hp. apply Dispatch.require_permission_granted. unfold Acl.check_permission, Acl.evaluate_user_permissions, Acl.evaluate_identity_permissions.
  rewrite Hs. unfold Acl.require, Perm.effective_permissions. by rewrite Hp.
Qed.

Lemma done_ok_after (m : ST W (result unit)) (w : W) : (m w).1 = Ok tt → (m ;? done_ok) w = m w.
Proof. intros Hm. unfold try_bind. destruct (m w) as [r w']. cbn in Hm. by subst r. Qed.

Lemma entries_twin es :
  map Types.acl_entry_from_proto (map (λ a, Types.acl_entry_to_proto (acl_entry_of_dto a)) es) = map acl_entry_of_dto es.
Proof. rewrite map_map. apply map_ext. intros a. apply Types.acl_entry_from_to_proto. Qed.

Lemma create_room_agrees e parts req parent (s : S) sender :
  admitted e parts s = true → St.is_superuser (Wld.handle_at (world s) sender) = true →
  match cr_parent_id req with Some p => Some <$> ext_parse_uuid p | None => Some None end = Some parent →
  agrees sender (CreateRoom req) "CreateRoom" (respond (create_room e parts req) s)
    (Handlers.handle_create_room (new_uuid e)
       (Proto.mkCreateRoom (cr_name req) (Types.room_id_from_uuid <$> parent) (cr_description req)) sender (world s)).
Proof.
  intros Ha Hs Hp. unfold Handlers.handle_create_room. cbn [Proto.cr_parent_id Proto.cr_name Proto.cr_description].
  assert ((Types.room_id_from_uuid <$> parent) ≫= Types.uuid_from_room_id = parent) as ->.
  { destruct parent; [apply Types.uuid_from_room_id_from_uuid|done]. }
  rewrite superuser_granted by done. rewrite seq_run.
  assert (create_room e parts req = with_admin e parts (map_op (Ops.apply_create_room (new_uuid e) (cr_name req) parent (cr_description req))
    (λ uuid, ok (ext_uuid_string uuid)))) as ->.
  { unfold create_room, parse_room_uuid. destruct (cr_parent_id req) as [p|]; [|by injection Hp as <-].
    destruct (ext_parse_uuid p); [by injection Hp as <-|done]. }
  set (m := Ops.apply_create_room _ _ _ _).
  pose proof (agrees_of e parts m ext_uuid_string (λ _, "Created room '" +:+ cr_name req +:+ "'") sender (CreateRoom req) "CreateRoom" s Ha
    ltac:(right; by eexists)) as H2.
  destruct (m (world s)).1; by rewrite done_ok_after by apply send_result_ok.
Qed.

Lemma delete_room_agrees e parts uuid room (s : S) sender :
  admitted e parts s = true → St.is_superuser (Wld.handle_at (world s) sender) = true → ext_parse_uuid uuid = Some room →
  agrees sender (DeleteRoom uuid) "DeleteRoom" (respond (delete_room e parts uuid) s)
    (Handlers.handle_delete_room (Some (Types.room_id_from_uuid room)) sender (world s)).
Proof.
  intros Ha Hs Hp. unfold Handlers.handle_delete_room, delete_room, parse_room_uuid, Types.room_or_root.
  cbn [mbind option_bind]. rewrite Types.uuid_from_room_id_from_uuid, Hp. cbn [default]. rewrite superuser_granted by done. rewrite seq_run.
  set (m := Ops.apply_delete_room _).
  pose proof (agrees_of e parts m (λ name, "Deleted room '" +:+ name +:+ "'") (λ name, "Deleted room '" +:+ name +:+ "'") sender
    (DeleteRoom uuid) "DeleteRoom" s Ha ltac:(by left)) as H2.
  destruct (m (world s)).1; by rewrite done_ok_after by apply send_result_ok.
Qed.

(** C20: A request an admin makes over HTTP or the admin socket, and the command by
    which an elevated superuser asks for the same over the protocol, do the same
    to the server and to what every client is told; they succeed or fail together,
    with the same text (a new room is answered by its id), and differ only in
    where the answer goes. *)
Theorem web_path_is_protocol_path (e : Env) (parts : Parts) (ep : Endpoint) (s : S) (sender : N) cmd h :
  admitted e parts s = true →
  St.is_superuser (Wld.handle_at (world s) sender) = true →
  protocol_twin e sender (world s) ep = Some (cmd, h) →
  agrees sender ep cmd (router e parts ep s) (h (world s)).
Proof.
  intros Ha Hs. destruct ep; cbn [protocol_twin router]; try done.
  - intros [= <- <-]. unfold Handlers.handle_create_group. rewrite superuser_granted by done. by apply reply_agrees.
  - intros [= <- <-]. unfold Handlers.handle_modify_group. rewrite superuser_granted by done. by apply reply_agrees.
  - intros [= <- <-]. unfold Handlers.handle_delete_group. rewrite superuser_granted by done. by apply reply_agrees.
  - intros [= <- <-]. unfold Handlers.handle_toggle_group_permission. rewrite superuser_granted by done. by apply reply_agrees.
  - intros Ht. apply bind_Some in Ht as (parent & Hp & [= <- <-]). by apply create_room_agrees.
  - intros Ht. apply bind_Some in Ht as (room & Hp & [= <- <-]). by apply delete_room_agrees.
  - intros Ht. apply bind_Some in Ht as (room & Hp & [= <- <-]). unfold set_room_acl, parse_room_uuid, Handlers.handle_set_room_acl.
    cbn [Proto.sra_room_id Proto.sra_inherit_acl Proto.sra_entries Proto.sra_base_version].
    rewrite Hp, array_of_slice_arr, superuser_granted, entries_twin by done. by apply reply_agrees.
  - destruct (negb _ && _) eqn:Hk; [|done]. intros [= <- <-]. apply andb_prop in Hk as [Hk%negb_true_iff Hn%String.eqb_eq].
    unfold Handlers.handle_kick_user. rewrite superuser_granted, Hk, gets_run, Hn by done. by apply reply_agrees.
  - destruct (negb _ && _) eqn:Hk; [|done]. intros [= <- <-]. apply andb_prop in Hk as [Hk%negb_true_iff Hn%String.eqb_eq].
    unfold Handlers.handle_ban_user. rewrite superuser_granted, Hk, gets_run, Hn by done. by apply reply_agrees.
  - intros [= <- <-]. unfold Handlers.handle_register_user. rewrite superuser_granted by (done || by destruct (_ =? _)%N). by apply reply_agrees.
  - intros [= <- <-]. unfold Handlers.handle_unregister_user. rewrite superuser_granted by (done || by destruct (_ =? _)%N). by apply reply_agrees.
  - intros [= <- <-]. unfold Handlers.handle_set_user_group. rewrite superuser_granted by done. by apply reply_agrees.
  - intros Ht. apply bind_Some in Ht as (bs & Hb & Ht). apply bind_Some in Ht as (k & Hk & [= <- <-]).
    unfold set_registered_user_group, decode_public_key, Handlers.handle_set_registered_user_group.
    destruct (ext_b64_url key_b64) as [bs'|]; [|done]. injection Hb as ->. unfold or_fail, try_into_key.
    rewrite superuser_granted, Hk, array_of_slice_arr by done. by apply reply_agrees.
Qed.

(** ** The editor of a room's rules *)

Context `{!KVLaws T} `{!Persist.CodecsLaws}.

(** The rules as the editor sees them. *)
Definition shown_rules (d : RoomDto) : bool * list Types.RoomAclEntry :=
  (rd_inherit_acl d, map acl_entry_of_dto (rd_acls d)).

Lemma shown_room_dto r : shown_rules (room_dto r) = (Types.room_inherit_acl r, Types.room_acls r).
Proof. unfold shown_rules, room_dto. cbn. by rewrite Types.map_id_ext by (by intros []). Qed.

Lemma find_of_room (d : St.StateData) r : NoDup (St.room_ids d) → r ∈ St.rooms d → St.find_room d (Types.room_id r) = Some r.
Proof. intros Hnd Hr. by apply (find_key Types.room_id). Qed.

(** C21: The editor opens with the rules that are stored.  What it then saves is
    accepted exactly when the rules stored by then have the version it opened
    with: its rules are stored and are the ones it finds when it opens again, the
    rules of other rooms stay.  Otherwise it is told of the conflict and nothing
    changes. *)
Theorem acl_editor_spec (e : Env) (parts : Parts) (s s' : S) (r : Types.Room) (inh : bool) (es : list AclEntryDto) :
  (∀ u, ext_parse_uuid (ext_uuid_string u) = Some u) →
  NoDup (St.room_ids (Wld.data (world s))) → Ops.acl_mirror (world s) → r ∈ St.rooms (Wld.data (world s)) →
  NoDup (St.room_ids (Wld.data (world s'))) → Types.room_id r ∈ St.room_ids (Wld.data (world s')) →
  admitted e parts s' = true →
  let opened := room_dto r in
  let o := router e parts (SetRoomAcl (rd_id opened) (mkSetRoomAclRequest inh es (rd_acl_version opened))) s' in
  shown_rules opened = Ops.stored_acl (persistence s) (Types.room_id r) ∧
  (rd_acl_version opened = Ops.current_room_acl_version (persistence s') (Types.room_id r) →
   o.1 = Now (mkResponse 200 (OkMessage "Room ACL updated") None) ∧
   (∀ i, Ops.stored_acl (persistence o.2) i =
         if decide (i = Types.room_id r) then (inh, map acl_entry_of_dto es) else Ops.stored_acl (persistence s') i) ∧
   ∃ r', r' ∈ St.rooms (Wld.data (world o.2)) ∧ rd_id (room_dto r') = rd_id opened ∧
         rd_inherit_acl (room_dto r') = inh ∧ rd_acls (room_dto r') = es) ∧
  (rd_acl_version opened ≠ Ops.current_room_acl_version (persistence s') (Types.room_id r) →
   o.1 = Now (mkResponse 400 (ApiError Ops.ACL_CONFLICT_MSG) None) ∧ world o.2 = world s').
Proof.
  intros Hu Hnd Hmir Hr Hnd' Hin Ha opened o. split.
  { unfold opened. rewrite shown_room_dto. apply Hmir. by apply find_of_room. }
  assert (rd_acl_version opened ≠ 0%N) as Hne by apply (Wire.acl_version_sound ext_blake3).
  set (m := Ops.apply_set_room_acl (Types.room_id r) inh (map acl_entry_of_dto es) (rd_acl_version opened)).
  assert (o = respond (with_admin e parts (map_op m (λ a, ok ((λ a, a) a)))) s') as Eo.
  { unfold o. cbn [router]. unfold set_room_acl, parse_room_uuid. cbn [rd_id opened room_dto]. by rewrite Hu. }
  pose proof (admin_op e parts m (λ a, a) s' Ha) as Hop.
  destruct Hop as [H1' H2']. rewrite <- Eo in H1', H2'. unfold persistence in *. rewrite H1', H2'. split.
  - intros Hv. pose proof (Ops.apply_set_room_acl_saved (world s') (Types.room_id r) inh (map acl_entry_of_dto es) (rd_acl_version opened)
      Hnd' Hin (or_intror Hv)) as Hs. fold m in Hs. destruct (m (world s')) as [res w']. destruct Hs as (-> & Hp & Hf & _). cbn [fst snd].
    split; [done|]. split; [exact Hp|].
    specialize (Hf (Types.room_id r)). rewrite bool_decide_true in Hf by done. apply St.find_room_ids in Hin as [x Hx].
    unfold St.find_room in Hf at 2. rewrite Hx in Hf. cbn in Hf. apply find_Some_iff in Hx as [_ Hx].
    eexists. split; [by eapply find_Some_iff, Hf|]. cbn. split; [|split; [done|]].
    + f_equal. by apply bool_decide_eq_true in Hx.
    + apply Types.map_id_ext. by intros [].
  - intros Hv. unfold m. rewrite Ops.apply_set_room_acl_run. cbv zeta. apply N.eqb_neq in Hv, Hne. by rewrite Hv, Hne.
Qed.
End ops.

(** ** Concrete runs *)

#[local] Existing Instances Persist.codecs Persist.codecs_laws Session.sample_external sample_web_external.

(** A server whose user 1 is elevated. *)
Definition elevated_world : Wld.World Persist.memory :=
  Wld.with_handles (alter (St.with_is_superuser (λ _, true)) 1%N) Session.sample_world.
Definition web_of (w : Wld.World Persist.memory) : Web Persist.memory := spawn w ∅ None (array_of_N 32 5) None true NotCreated.
Definition local_parts : Parts := mkParts true None [].

Lemma web_path_is_protocol_path_witness :
  let ep := CreateGroup "friends" 1 in
  agrees 1 ep "CreateGroup" (router (env_at 0) local_parts ep (web_of elevated_world))
    (Handlers.handle_create_group "friends" 1 1 elevated_world) ∧
  Persist.get_group (Wld.persistence (Handlers.handle_create_group "friends" 1 1 elevated_world).2) "friends" =
    Some (Persist.mkPersistedGroup 1).
Proof.
  split; [|vm_compute; reflexivity].
  apply (web_path_is_protocol_path (env_at 0) local_parts (CreateGroup "friends" 1) (web_of elevated_world) 1 "CreateGroup"
    (Handlers.handle_create_group "friends" 1 1)); [reflexivity|vm_compute; reflexivity|reflexivity].
Defined.

Definition lobby_room : Types.Room := Types.mkRoom St.lobby "Lobby" Types.ROOT_ROOM_UUID None true [] 0.
Definition quiet : list AclEntryDto := [mkAclEntryDto "default" 0 4 true false].
Definition save (base : N) (s : Web Persist.memory) :=
  router (env_at 0) local_parts (SetRoomAcl (rd_id (room_dto lobby_room)) (mkSetRoomAclRequest true quiet base)) s.

Lemma sample_uuid_law : ∀ u, ext_parse_uuid (ext_uuid_string u) = Some u.
Proof. intros u. change (array_of_slice 16 (as_bytes (string_of_list_byte (arr u))) = Some u). rewrite as_bytes_of_list. apply array_of_slice_arr. Qed.

Lemma sample_mirror : Ops.acl_mirror Session.sample_world.
Proof.
  intros r x Hx. apply find_Some_iff in Hx as [Hx Hr]. apply bool_decide_eq_true in Hr.
  change (x ∈ [Types.mkRoom Types.ROOT_ROOM_UUID "Root" Types.ROOT_ROOM_UUID None true [] 0; lobby_room]) in Hx.
  apply elem_of_cons in Hx as [->|Hx]; [subst r; by vm_compute|]. apply list_elem_of_singleton in Hx as ->. subst r. by vm_compute.
Qed.

Lemma acl_editor_spec_witness :
  let s := web_of Session.sample_world in
  let version := rd_acl_version (room_dto lobby_room) in
  (save version s).1 = Now (mkResponse 200 (OkMessage "Room ACL updated") None) ∧
  (save version (save version s).2).1 = Now (mkResponse 400 (ApiError Ops.ACL_CONFLICT_MSG) None).
Proof.
  cbv zeta. pose proof (acl_editor_spec (env_at 0) local_parts (web_of Session.sample_world)) as Hspec.
  assert (lobby_room ∈ St.rooms (Wld.data Session.sample_world)) as Hin by (vm_compute; right; left).
  assert (NoDup (St.room_ids (Wld.data Session.sample_world))) as Hnd by exact (St.wf_ids _ Ops.sample_wf).
  set (s1 := (save (rd_acl_version (room_dto lobby_room)) (web_of Session.sample_world)).2).
  split.
  - destruct (Hspec (web_of Session.sample_world) lobby_room true quiet) as (_ & H & _);
      [exact sample_uuid_law|exact Hnd|exact sample_mirror|exact Hin|exact Hnd|vm_compute; right; left|reflexivity|].
    apply H. vm_compute. reflexivity.
  - assert (St.room_ids (Wld.data (world s1)) = St.room_ids (Wld.data Session.sample_world)) as E by (vm_compute; reflexivity).
    destruct (Hspec s1 lobby_room true quiet) as (_ & _ & H);
      [exact sample_uuid_law|exact Hnd|exact sample_mirror|exact Hin|by rewrite E|rewrite E; vm_compute; right; left|reflexivity|].
    apply H. vm_compute. discriminate.
Defined.
End WebOps.
